(* ===== verification/_CoqProject ===== *)
-Q . S2P
Prelude.v
Util.v
Crc8.v
Base32.v
Queue.v
NvStore.v
Vendor.v
PhysPresence.v
CcdConfig.v
CcdSafety.v
CcdPolicy.v
PwTypes.v
Pinweaver.v
PwTree.v
PwToy.v
PwRequest.v
PwAuth.v
PwLog.v
PwLeaf.v
TpmRegs.v
TpmProps.v
TpmInv.v
TpmReset.v
PwTpm.v
Flash.v
FlashProps.v
FlashOps.v
BoardId.v
BoardProps.v
Upgrade.v
UpgradeProps.v
UpgradeRound.v
UpgradeWrap.v
Shmalloc.v
ShmallocProps.v
ShmallocHeap.v
ShmallocRun.v
FlashLog.v
FlashLogProps.v
FlashLogOps.v
FlashLogPage.v
FlashLogRun.v
FlashLogRead.v
FlashLogSpec.v
TpmNv.v
EcEfs.v
EcEfsProps.v
EcComm.v
EcSpec.v
EcPacket.v
EcSession.v
EcBounds.v
EcOverrun.v
EcToy.v
Hash.v
HashProps.v
HmacSpec.v
ShaHw.v
ShaHwProps.v
ShaHwPaths.v
Drbg.v
DrbgProps.v
FipsRand.v
FipsHealth.v
Dcrypto.v
P256.v
P256Hw.v
P256Ec.v
FipsKats.v
Fips.v
FipsKnown.v
FipsProps.v
P256Props.v
P256Driver.v
P256EcProps.v
P256Toy.v
Bn.v
BnArith.v
BnMont.v
BnDiv.v
