(* ===== verification/Prelude.v ===== *)
(** * cr50: a verification development for the firmware of the Cr50 security chip

    This library models the parts of the firmware under [src/] that carry its own
    security logic, and proves what they promise.  The files are, with the code they
    model:

    - [Prelude]: machine integers, buffers, result codes, the state and error monads,
      step relations; lemmas and hints that the other files share.
    - [Util]: string and memory helpers, [common/util.c].
    - [Base32]: the code with CRC-5 groups, [common/base32.c].
    - [Queue]: ring buffers, [common/queue.c] and [include/queue.h].
    - [NvStore]: the interface of the variable store, [include/nvmem_vars.h], as a type
      class with laws, and an instance in memory.
    - [Vendor]: vendor commands and their routing, [common/extension.c].
    - [PhysPresence]: the detection of power button presses,
      [common/physical_presence.c], with the deferred calls of [common/hooks.c].
    - [CcdConfig], [CcdSafety], [CcdPolicy]: case-closed debugging,
      [common/ccd_config.c].
    - [PwTypes], [Pinweaver]: PinWeaver, [common/pinweaver_cr50.c] with its two headers;
      [PwTree], [PwToy], [PwRequest], [PwAuth], [PwLog], [PwLeaf] hold its theorems.
    - [TpmRegs]: the TPM register interface and the TPM task, [common/tpm_registers.c];
      [TpmProps], [TpmInv], [TpmReset] hold its theorems, and [PwTpm] those of PinWeaver
      behind it.
    - [Flash]: the flash driver, [chip/g/flash.c], as the interface [FlashDev] and an
      instance over a controller; [FlashProps], [FlashOps] show that the instance has
      the laws [FlashDevLaws] of the interface.
    - [BoardId], [BoardProps]: the board ID, [chip/g/board_id.c].
    - [Upgrade]: firmware update, [chip/g/upgrade_fw.c] and [chip/g/upgrade.c];
      [UpgradeProps], [UpgradeRound], [UpgradeWrap] hold its theorems.
    - [Shmalloc]: the allocator of shared memory, [common/shmalloc.c]; [ShmallocProps],
      [ShmallocHeap], [ShmallocRun] hold its theorems.
    - [FlashLog]: the flash log, [common/flash_log.c], with its vendor commands;
      [FlashLogProps], [FlashLogOps], [FlashLogRun], [FlashLogRead] and [FlashLogSpec] hold
      its theorems.  [Crc8] is [common/crc8.c].
    - [TpmNv]: the TPM spaces other parts read, as a type class with laws
      ([board/cr50/tpm_nvmem_ops.c]).
    - [EcEfs], [EcComm]: the boot mode of the EC and the packets it sends,
      [common/ec_efs.c] and [common/ec_comm.c]; [EcEfsProps], [EcSpec], [EcPacket],
      [EcSession], [EcBounds], [EcOverrun] hold their theorems, [EcToy] their witnesses.
    - [Hash]: the software hash functions, [board/cr50/dcrypto/sha1.c], [sha256.c] and
      [sha512.c]; [HashProps] holds their theorems.  [HmacSpec] is the interface of HMAC.
    - [ShaHw]: HMAC and hashes over the engine or in software, [sha_hw.c] and [hmac_sw.c]
      of the same directory; [ShaHwProps] and [ShaHwPaths] hold the theorems.
    - [Drbg], [DrbgProps]: the generator and the key derivation, [hmac_drbg.c], [hkdf.c] and
      [compare.c].
    - [FipsRand], [FipsHealth]: the noise source, its health tests and the random sources,
      [trng.c] and [fips_rand.c], with the status of the crypto module.
    - [FipsKats], [Fips]: the known-answer and power-up tests and the command of the module,
      [fips.c] and [board/cr50/fips_cmd.c]; [FipsKnown] and [FipsProps] hold the theorems.

    ** How the code is translated

    A function that keeps state is a function of the state ([ST]); one that returns an
    error code early is in the monad [EST], where [let?] is the early return.  State is a
    record with the static variables of the C file; a pointer argument that is written is
    a component of the result.  Integers are [Z] with the wrap-around of their width
    written out where the code does not exclude it ([u8], [u16], [u32], [u64], [i32]).
    Buffers are [list Z]; memory that is mapped (the flash, what lies behind a FIFO) is a
    function from addresses.  Where tasks and interrupts interleave ([PhysPresence], the
    TPM interface) the functions are split where another task can run, and a step
    relation chooses the order; the theorems hold for every reachable state.

    Code that is not in the repository or is hardware (the crypto accelerators, the flash
    controller, timers, GPIO) is a type class of operations ([PinweaverHw], [Device],
    [FlashController], [UpgradeHw] and the like); what the code relies on is a class of
    laws beside it.  Each has an instance that computes, on which the witnesses evaluate.

    ** How the parts interact

    The vendor commands of [CcdConfig], [BoardId] and [Upgrade] are handlers that [Vendor]
    routes; the TPM task of [TpmRegs] executes them and PinWeaver's commands, and serves
    the TPM resets that opening CCD waits for.  CCD uses the presence detection and the
    variable store, PinWeaver keeps its tree and its log in the variable store.  The board
    ID, the update and the flash log write through the interface of the flash driver; the
    update checks the board ID of an image, and the log compacts in a buffer of the
    allocator.  Clients are proved against the interface and its laws,
    implementations against the class of the hardware below.

    ** What is shown

    - CCD: how the state becomes opened ([opened_only_authorised]), under which conditions
      ([ccd_open_conditions]), that disabling is final until a reboot, the password and its
      rate limit, the configuration across saves and resets.
    - PinWeaver: the root always stands for an abstract tree, changed one leaf at a time
      ([requests_refine_tree]); secrets only for an authenticated attempt; the state in
      memory is the stored one; reboot, log replay and leaves round-trip.
    - TPM interface: commands and responses arrive whole; the indices of the FIFO are
      bounded but for one overflow, which is exhibited; reset requests are served.
    - Presence: no callback before its presses, in every interleaving; a detection ends.
    - Flash: a write or erasure of any size is one operation, complete or confined to its
      range; the retries end.
    - Board ID: it is written once, and decides which images run.
    - Update: nothing but the images that do not run is ever written, under a bound
      without which the code does write elsewhere ([wrapped_block_programs_nvram]); an
      image is held back until it is turned on, and then is what was sent.
    - Allocator: over any sequence of calls what is in use stays apart, nothing is lost,
      and an empty heap is one buffer again ([heap_never_corrupted]).
    - Flash log: events are appended in the order of time ([event_appended]), survive
      restarts ([restart_keeps_log]) and are all retrieved ([dump_returns_log]).
    - EC: the boot mode changes only for the reasons of an abstract machine, whatever the
      interrupts do ([boot_mode_refines]); a stream of packets is answered packet by packet
      ([session_served]); the packet array is overrun only after a packet that gets no
      answer, and then it is ([unanswered_packet_overruns]).
    - Crypto module: the hash functions take data in any pieces ([hash_incremental]); HMAC is
      that of its standard on every path ([hmac_any_path]), and so is the generator
      ([drbg_is_sp800_90a]); the health tests accept exactly the streams they should
      ([health_tests_exact]); the hash tests pass on every engine that computes
      ([known_answers]); an error lasts until the next reset ([errors_last]); and the module
      never starts, because one of its tests cannot pass ([services_never_start]).
    - Base-32, queues, routing: round trip and error detection, refinement of a first-in
      first-out queue, and which commands reach a handler.

    Some theorems state behaviour that the code should not have; the names of those say
    so ([fifo_leaks_memory], [old_try_auth_hangs], [iv_tail_not_authenticated],
    [rate_limited_header_erases], [unanswered_packet_overruns], [hybrid_hmac_unlocked],
    [services_never_start] and others).

    ** Bounds and fuel

    Loops over a list or a count recurse on it.  The retries of a flash operation have fuel
    47, one more than the 45 attempts and the extra pulse can use ([flash_op_terminates]);
    polling loops have the bounds of the code; the loop of a flash write has the number of
    bytes left, of which a batch takes at least one; the chains of the allocator have the
    number of headers, the loops over the flash log 257, one more than the entries that
    fit its page; reading the noise source has [read_fuel], more rounds than its restarts
    allow ([read_rand_total]); the loops of the generators have the number of bytes
    asked for.  Decoders and the tree of PinWeaver recurse on the input and on the
    height.

    ** What is not modelled

    Console output, logging to the host and low-level locks: they do not change the
    modelled state, and each locked region is one step.  The flash implementation of the
    variable store ([common/new_nvmem.c], [common/nvmem_vars.c]), the crypto of
    [common/strongbox.c], the accelerators of [board/cr50/dcrypto] (elliptic curves, AES and
    RSA, whose programs run outside of the processor), RMA authentication, U2F,
    the USB, SPI and I2C drivers, the scheduler in [core/] and the boot loader are
    parts of their own that this development does not reach yet.  The parts of [common/]
    that belong to other devices built from the same tree (keyboards, batteries, fans,
    audio, lids, sensors) and the host tools, tests and fuzzers are left out. *)

From stdpp Require Export base list gmap numbers strings.
From Stdlib Require Export ZArith Lia.

#[global] Open Scope Z_scope.

(** ** Machine integers

    A C integer of width [w] is a [Z]; the wrap-around of unsigned arithmetic is
    written out with [uN], the reinterpretation of an unsigned word as a
    two's-complement integer with [i32]. *)

Definition uN (w x : Z) : Z := x mod 2 ^ w.

Abbreviation u8 := (uN 8).
Abbreviation u16 := (uN 16).
Abbreviation u32 := (uN 32).
Abbreviation u64 := (uN 64).

Definition i32 (x : Z) : Z := (x + 2 ^ 31) mod 2 ^ 32 - 2 ^ 31.

(** A C truth value stored in an [int]. *)
Definition b2z (b : bool) : Z := if b then 1 else 0.

(** The test [if (x)] on an integer. *)
Definition nz (x : Z) : bool := negb (x =? 0).

(** [x & ~m] on a [w]-bit word. *)
Definition clear_bits (w x m : Z) : Z := Z.land x (Z.lxor (Z.ones w) m).

Definition UINT32_MAX : Z := 4294967295.

Lemma uN_range w x : 0 <= w -> 0 <= uN w x < 2 ^ w.
Proof. intros. apply Z.mod_pos_bound. apply Z.pow_pos_nonneg; lia. Qed.

Lemma uN_small w x : 0 <= x < 2 ^ w -> uN w x = x.
Proof. apply Z.mod_small. Qed.

Lemma uN_testbit w x i : 0 <= i < w -> Z.testbit (uN w x) i = Z.testbit x i.
Proof. intros. apply Z.mod_pow2_bits_low. lia. Qed.

Lemma uN_uN w x : uN w (uN w x) = uN w x.
Proof. unfold uN. apply Zmod_mod. Qed.

Lemma i32_small x : - 2 ^ 31 <= x < 2 ^ 31 -> i32 x = x.
Proof. intros. unfold i32. rewrite Z.mod_small by lia. lia. Qed.

Lemma nz_true x : nz x = true <-> x <> 0.
Proof. unfold nz. rewrite negb_true_iff. apply Z.eqb_neq. Qed.

Lemma nz_false x : nz x = false <-> x = 0.
Proof. unfold nz. rewrite negb_false_iff. apply Z.eqb_eq. Qed.

Lemma nz_pos x : 0 < x -> nz x = true.
Proof. intros. apply nz_true. lia. Qed.

(** ** Bytes and buffers

    A buffer is a [list Z]; a byte is in [0, 256). *)

Definition is_byte (b : Z) : Prop := 0 <= b < 256.

Definition bytes (l : list Z) : Prop := Forall is_byte l.

#[global] Instance is_byte_dec b : Decision (is_byte b).
Proof. unfold is_byte. apply _. Defined.

#[global] Instance bytes_dec l : Decision (bytes l).
Proof. unfold bytes. apply _. Defined.

(** [memset(p, 0, n)] *)
Definition zeros (n : nat) : list Z := replicate n 0.

(** [n] bytes read at offset [off]. *)
Definition sub {A} (off n : nat) (l : list A) : list A := take n (drop off l).

(** [memcpy(l + off, new, |new|)]: the bytes of [l] from [off] on are replaced. *)
Definition splice {A} (off : nat) (new l : list A) : list A :=
  take off l ++ new ++ drop (off + length new) l.

(** The value of the array cell at [i] (0 outside the array). *)
Definition at_ (l : list Z) (i : Z) : Z := nth (Z.to_nat i) l 0.

(** [memcmp(a, b, n) == 0] on whole buffers. *)
Definition mem_eq (a b : list Z) : bool := bool_decide (a = b).

(** Little- and big-endian encodings of unsigned integers in [n] bytes. *)
Fixpoint le_bytes (n : nat) (x : Z) : list Z :=
  match n with
  | O => []
  | S n' => x mod 256 :: le_bytes n' (x / 256)
  end.

Fixpoint le_val (l : list Z) : Z :=
  match l with
  | [] => 0
  | b :: l' => b + 256 * le_val l'
  end.

Definition be_bytes (n : nat) (x : Z) : list Z := rev (le_bytes n x).

Definition be_val (l : list Z) : Z := le_val (rev l).

Lemma length_le_bytes n x : length (le_bytes n x) = n.
Proof. revert x; induction n; simpl; auto. Qed.

Lemma length_be_bytes n x : length (be_bytes n x) = n.
Proof. unfold be_bytes. by rewrite length_rev, length_le_bytes. Qed.

Lemma bytes_le_bytes n x : bytes (le_bytes n x).
Proof.
  revert x; induction n as [|n IH]; intros x; constructor; [|apply IH].
  unfold is_byte. apply Z.mod_pos_bound. lia.
Qed.

Lemma pow256_S n : 256 ^ Z.of_nat (S n) = 256 * 256 ^ Z.of_nat n.
Proof. rewrite Nat2Z.inj_succ, Z.pow_succ_r; lia. Qed.

(** Decoding inverts encoding of a value that fits in [n] bytes. *)
Lemma le_val_bytes n x : 0 <= x < 256 ^ Z.of_nat n -> le_val (le_bytes n x) = x.
Proof.
  revert x; induction n as [|n IH]; intros x Hx; cbn [le_bytes le_val].
  - change (256 ^ Z.of_nat 0) with 1 in Hx. lia.
  - rewrite pow256_S in Hx. rewrite IH.
    + pose proof (Z.div_mod x 256). lia.
    + split; [apply Z.div_pos; lia | apply Z.div_lt_upper_bound; lia].
Qed.

(** Encoding inverts decoding of [n] bytes. *)
Lemma le_bytes_val l : bytes l -> le_bytes (length l) (le_val l) = l.
Proof.
  induction l as [|b l IH]; intros Hl; [done|].
  apply Forall_cons_iff in Hl as [Hb Hl]. unfold is_byte in Hb. simpl.
  rewrite (Z.mul_comm 256), Z.mod_add, Z.div_add by lia.
  rewrite Z.mod_small, Z.div_small, Z.add_0_l, IH by (done || lia). done.
Qed.

Lemma le_val_range l : bytes l -> 0 <= le_val l < 256 ^ Z.of_nat (length l).
Proof.
  induction l as [|b l IH]; intros Hl; [done|].
  apply Forall_cons_iff in Hl as [Hb Hl]. unfold is_byte in Hb.
  specialize (IH Hl). cbn [length le_val]. rewrite pow256_S. lia.
Qed.

Lemma be_val_bytes n x : 0 <= x < 256 ^ Z.of_nat n -> be_val (be_bytes n x) = x.
Proof. unfold be_val, be_bytes. rewrite rev_involutive. apply le_val_bytes. Qed.

(** *** Lists *)

Lemma length_sub {A} off n (l : list A) :
  (off + n <= length l)%nat -> length (sub off n l) = n.
Proof. intros. unfold sub. rewrite length_take, length_drop. lia. Qed.

Lemma length_splice {A} off (new l : list A) :
  (off + length new <= length l)%nat -> length (splice off new l) = length l.
Proof.
  intros. unfold splice. rewrite !length_app, length_take, length_drop. lia.
Qed.

(** What is read back where a splice was made. *)
Lemma sub_splice_same {A} off (new l : list A) :
  (off <= length l)%nat -> sub off (length new) (splice off new l) = new.
Proof.
  intros. unfold sub, splice.
  rewrite drop_app_length' by (rewrite length_take; lia).
  by rewrite take_app_length.
Qed.

(** What is read back elsewhere is unchanged. *)
Lemma sub_splice_other {A} off off' n (new l : list A) :
  (off + length new <= length l)%nat ->
  (off' + n <= off \/ off + length new <= off')%nat ->
  sub off' n (splice off new l) = sub off' n l.
Proof.
  intros Hl Hd. unfold sub, splice. apply list_eq. intros i.
  destruct (decide (i < n)%nat); [|rewrite !lookup_take_ge by lia; done].
  rewrite !lookup_take_lt by lia. rewrite !lookup_drop.
  destruct Hd as [Hd|Hd].
  - rewrite lookup_app_l by (rewrite length_take; lia).
    by rewrite lookup_take_lt by lia.
  - rewrite lookup_app_r by (rewrite length_take; lia).
    rewrite lookup_app_r by (rewrite length_take; lia).
    rewrite lookup_drop, length_take. f_equal. lia.
Qed.

Lemma splice_twice {A} (new l : list A) : splice 0 new (splice 0 new l) = splice 0 new l.
Proof.
  unfold splice. rewrite !take_0. cbn [app Nat.add]. by rewrite drop_app_length.
Qed.

Lemma sub_app_l {A} n (l k : list A) : length l = n -> sub 0 n (l ++ k) = l.
Proof. intros <-. unfold sub. rewrite drop_0. apply take_app_length. Qed.

Lemma sub_app_r {A} off n (l k : list A) :
  (length l <= off)%nat -> sub off n (l ++ k) = sub (off - length l) n k.
Proof. intros. unfold sub. by rewrite drop_app_ge. Qed.

Lemma bytes_sub off n l : bytes l -> bytes (sub off n l).
Proof. intros. unfold sub. by apply Forall_take, Forall_drop. Qed.

Lemma bytes_splice off new l : bytes new -> bytes l -> bytes (splice off new l).
Proof.
  intros Hn Hl. unfold splice, bytes. rewrite !Forall_app.
  split_and!; [by apply Forall_take|done|by apply Forall_drop].
Qed.

Lemma bytes_zeros n : bytes (zeros n).
Proof. apply Forall_replicate. unfold is_byte. lia. Qed.

Lemma bytes_be_bytes n x : bytes (be_bytes n x).
Proof. apply Forall_rev, bytes_le_bytes. Qed.

Lemma be_val_nonneg l : bytes l -> 0 <= be_val l.
Proof. intros H. apply le_val_range, Forall_rev, H. Qed.

Lemma bytes_app k l : bytes k -> bytes l -> bytes (k ++ l).
Proof. intros. by apply Forall_app. Qed.

Create HintDb bytes_db.
#[export] Hint Resolve bytes_app bytes_sub bytes_splice bytes_zeros bytes_be_bytes bytes_le_bytes
  : bytes_db.

Lemma mem_eq_true a b : mem_eq a b = true <-> a = b.
Proof. unfold mem_eq. by rewrite bool_decide_eq_true. Qed.

Lemma mem_eq_false a b : mem_eq a b = false <-> a <> b.
Proof. unfold mem_eq. by rewrite bool_decide_eq_false. Qed.

Lemma mem_eq_refl a : mem_eq a a = true.
Proof. by apply mem_eq_true. Qed.

(** ** State and error monads

    C code that reads and writes static variables is a state transformer
    [ST S A]; a function whose [int] result is [EC_SUCCESS] or an error code that
    its callers propagate with [if (ret != EC_SUCCESS) return ret;] is an
    [EST S A], where the state reached is kept in both cases. *)

Definition ST (S A : Type) : Type := S -> A * S.

Inductive result (A : Type) : Type :=
| Ok (a : A)
| Err (code : Z).
Arguments Ok {A} a.
Arguments Err {A} code.

Definition EST (S A : Type) : Type := ST S (result A).

Definition ret {S A} (a : A) : ST S A := fun s => (a, s).

Definition bind {S A B} (m : ST S A) (k : A -> ST S B) : ST S B :=
  fun s => let '(a, s') := m s in k a s'.

Definition gets {S A} (f : S -> A) : ST S A := fun s => (f s, s).

Definition modify {S} (f : S -> S) : ST S unit := fun s => (tt, f s).

Definition throw {S A} (code : Z) : EST S A := ret (Err code).

Definition eret {S A} (a : A) : EST S A := ret (Ok a).

Definition ebind {S A B} (m : EST S A) (k : A -> EST S B) : EST S B :=
  bind m (fun r => match r with Ok a => k a | Err code => throw code end).

(** A state transformer that cannot fail. *)
Definition lift {S A} (m : ST S A) : EST S A := bind m eret.

(** [ret = m(); if (ret != EC_SUCCESS) return ret;] *)
Definition try_ {S} (m : ST S Z) : EST S unit :=
  bind m (fun rv => if rv =? 0 then eret tt else throw rv).

(** [if (cond) return code;] *)
Definition fail_if {S} (cond : bool) (code : Z) : EST S unit :=
  if cond then throw code else eret tt.

Declare Scope prog_scope.
Delimit Scope prog_scope with prog.

Notation "'let*' x := m 'in' k" := (bind m (fun x => k))
  (at level 200, x pattern, m at level 100, k at level 200, right associativity)
  : prog_scope.
Notation "'let?' x := m 'in' k" := (ebind m (fun x => k))
  (at level 200, x pattern, m at level 100, k at level 200, right associativity)
  : prog_scope.
Notation "m ;;; k" := (bind m (fun _ => k))
  (at level 199, right associativity) : prog_scope.
Notation "m ;;? k" := (ebind m (fun _ => k))
  (at level 199, right associativity) : prog_scope.

#[global] Open Scope prog_scope.

Section MonadLemmas.
Context {S A B : Type}.

Lemma bind_inv (m : ST S A) (k : A -> ST S B) s b s'' :
  bind m k s = (b, s'') -> exists a s', m s = (a, s') /\ k a s' = (b, s'').
Proof. unfold bind. destruct (m s) as [a s']. eauto. Qed.

Lemma ebind_ok_inv (m : EST S A) (k : A -> EST S B) s b s'' :
  ebind m k s = (Ok b, s'') ->
  exists a s', m s = (Ok a, s') /\ k a s' = (Ok b, s'').
Proof.
  unfold ebind, bind. destruct (m s) as [[a|c] s'] eqn:E; [eauto|discriminate].
Qed.

Lemma ebind_err_inv (m : EST S A) (k : A -> EST S B) s c s'' :
  ebind m k s = (Err c, s'') ->
  m s = (Err c, s'') \/
  exists a s', m s = (Ok a, s') /\ k a s' = (Err c, s'').
Proof.
  unfold ebind, bind. destruct (m s) as [[a|c'] s'] eqn:E; [eauto|].
  cbn. intros [= -> ->]. auto.
Qed.

Lemma ebind_ok (m : EST S A) (k : A -> EST S B) s a s' :
  m s = (Ok a, s') -> ebind m k s = k a s'.
Proof. unfold ebind, bind. by intros ->. Qed.

Lemma ebind_err (m : EST S A) (k : A -> EST S B) s c s' :
  m s = (Err c, s') -> ebind m k s = (Err c, s').
Proof. unfold ebind, bind. by intros ->. Qed.

Lemma fail_if_inv (cond : bool) code (s s' : S) r :
  fail_if cond code s = (r, s') ->
  s' = s /\ r = if cond then Err code else Ok tt.
Proof. unfold fail_if. destruct cond; cbn; intros [= <- <-]; done. Qed.

Lemma lift_inv (m : ST S A) s r s' :
  lift m s = (r, s') -> exists a, r = Ok a /\ m s = (a, s').
Proof.
  unfold lift, bind. destruct (m s) as [a s1]. cbn. intros [= <- <-]. eauto.
Qed.

Lemma try_inv (m : ST S Z) s r s' :
  try_ m s = (r, s') ->
  exists rv, m s = (rv, s') /\ r = if rv =? 0 then Ok tt else Err rv.
Proof.
  unfold try_, bind. destruct (m s) as [rv s1]. cbn.
  destruct (rv =? 0) eqn:E; cbn; intros [= <- <-]; eexists; by rewrite E.
Qed.

(** A relation between pre- and post-state that holds along every path. *)
Definition preserves (R : S -> S -> Prop) (m : ST S A) : Prop :=
  forall s, R s (m s).2.
End MonadLemmas.

Section PreservesLemmas.
Context {S : Type} (R : S -> S -> Prop) `{!Reflexive R} `{!Transitive R}.

Lemma preserves_ret {A} (a : A) : preserves R (ret a).
Proof. intros s. cbn. reflexivity. Qed.

Lemma preserves_gets {A} (f : S -> A) : preserves R (gets f).
Proof. intros s. cbn. reflexivity. Qed.

Lemma preserves_modify f : (forall s, R s (f s)) -> preserves R (modify f).
Proof. intros H s. apply H. Qed.

Lemma preserves_bind {A B} (m : ST S A) (k : A -> ST S B) :
  preserves R m -> (forall a, preserves R (k a)) -> preserves R (bind m k).
Proof.
  intros Hm Hk s. unfold bind. specialize (Hm s).
  destruct (m s) as [a s']. etrans; [exact Hm|apply Hk].
Qed.

Lemma preserves_ebind {A B} (m : EST S A) (k : A -> EST S B) :
  preserves R m -> (forall a, preserves R (k a)) -> preserves R (ebind m k).
Proof.
  intros Hm Hk. apply preserves_bind; [done|].
  intros [a|c]; [apply Hk|apply preserves_ret].
Qed.

Lemma preserves_eret {A} (a : A) : preserves R (eret a : EST S A).
Proof. apply preserves_ret. Qed.

Lemma preserves_throw {A} c : preserves R (throw c : EST S A).
Proof. apply preserves_ret. Qed.

Lemma preserves_lift {A} (m : ST S A) : preserves R m -> preserves R (lift m).
Proof. intros. apply preserves_bind; [done|]. intros. apply preserves_ret. Qed.

Lemma preserves_try (m : ST S Z) : preserves R m -> preserves R (try_ m).
Proof.
  intros. apply preserves_bind; [done|].
  intros rv. destruct (rv =? 0); apply preserves_ret.
Qed.

Lemma preserves_fail_if cond c : preserves R (fail_if cond c).
Proof. destruct cond; apply preserves_ret. Qed.

Lemma preserves_if {A} (b : bool) (m m' : ST S A) :
  preserves R m -> preserves R m' -> preserves R (if b then m else m').
Proof. by destruct b. Qed.
End PreservesLemmas.

Create HintDb preserves_db.

(** Reduce [preserves R m] to the operations [m] calls, looking them up in the
    database and the context. *)
Ltac preserves_step :=
  lazymatch goal with
  | |- preserves _ (bind _ _) => refine (preserves_bind _ _ _ _ _); [|intros ?]
  | |- preserves _ (ebind _ _) => refine (preserves_ebind _ _ _ _ _); [|intros ?]
  | |- preserves _ (ret _) => refine (preserves_ret _ _)
  | |- preserves _ (gets _) => refine (preserves_gets _ _)
  | |- preserves _ (eret _) => refine (preserves_eret _ _)
  | |- preserves _ (throw _) => refine (preserves_throw _ _)
  | |- preserves _ (fail_if _ _) => refine (preserves_fail_if _ _ _)
  | |- preserves _ (lift _) => refine (preserves_lift _ _ _)
  | |- preserves _ (try_ _) => refine (preserves_try _ _ _)
  | |- preserves _ (let '(_, _) := ?p in _) => destruct p
  | |- preserves _ (match ?x with _ => _ end) => destruct x
  | |- preserves _ _ => solve [auto 2 with preserves_db]
  end.

Ltac preserves_tac := repeat preserves_step.

(** Split on the outermost condition of an operation. *)
Ltac top_if :=
  match goal with |- preserves _ (if ?b then _ else _) => destruct b end.

(** Invert one monadic equation [m s = (r, s')] in the context. *)
Ltac inv_step :=
  match goal with
  | H : ret _ _ = _ |- _ => cbn in H; simplify_eq
  | H : eret _ _ = _ |- _ => cbn in H; simplify_eq
  | H : throw _ _ = _ |- _ => cbn in H; simplify_eq
  | H : gets _ _ = _ |- _ => cbn in H; simplify_eq
  | H : modify _ _ = _ |- _ => cbn in H; simplify_eq
  | H : fail_if _ _ _ = _ |- _ => apply fail_if_inv in H; destruct H; simplify_eq
  | H : lift _ _ = _ |- _ =>
      apply lift_inv in H; let a := fresh "a" in destruct H as (a & ? & H); simplify_eq
  | H : try_ _ _ = _ |- _ =>
      apply try_inv in H; let rv := fresh "rv" in destruct H as (rv & H & ?); simplify_eq
  | H : ebind _ _ _ = (Ok _, _) |- _ =>
      apply ebind_ok_inv in H;
      let a := fresh "a" in let s := fresh "s" in let H' := fresh "Hm" in
      destruct H as (a & s & H' & H)
  | H : bind _ _ _ = _ |- _ =>
      apply bind_inv in H;
      let a := fresh "a" in let s := fresh "s" in let H' := fresh "Hm" in
      destruct H as (a & s & H' & H)
  end.

(** Case split on the boolean conditions the code tests, in hypothesis or goal. *)
Ltac split_if :=
  match goal with
  | H : context [if ?b then _ else _] |- _ =>
      lazymatch b with context [if _ then _ else _] => fail | _ => idtac end;
      let E := fresh "E" in destruct b eqn:E
  | |- context [if ?b then _ else _] =>
      lazymatch b with context [if _ then _ else _] => fail | _ => idtac end;
      let E := fresh "E" in destruct b eqn:E
  end.

(** Turn boolean tests on integers into propositions. *)
Ltac bool_to_Prop :=
  repeat match goal with
  | H : (_ && _)%bool = true |- _ => apply andb_true_iff in H; destruct H
  | H : (_ || _)%bool = false |- _ => apply orb_false_iff in H; destruct H
  | H : (_ && _)%bool = false |- _ => apply andb_false_iff in H
  | H : (_ || _)%bool = true |- _ => apply orb_true_iff in H
  | H : negb _ = true |- _ => apply negb_true_iff in H
  | H : negb _ = false |- _ => apply negb_false_iff in H
  | H : (_ =? _) = true |- _ => apply Z.eqb_eq in H
  | H : (_ =? _) = false |- _ => apply Z.eqb_neq in H
  | H : (_ <? _) = true |- _ => apply Z.ltb_lt in H
  | H : (_ <? _) = false |- _ => apply Z.ltb_ge in H
  | H : (_ <=? _) = true |- _ => apply Z.leb_le in H
  | H : (_ <=? _) = false |- _ => apply Z.leb_gt in H
  | H : nz _ = true |- _ => apply nz_true in H
  | H : nz _ = false |- _ => apply nz_false in H
  | H : mem_eq _ _ = true |- _ => apply mem_eq_true in H
  | H : mem_eq _ _ = false |- _ => apply mem_eq_false in H
  end.

(** Step through monadic code. *)
Lemma bind_run {S A B} (m : ST S A) (k : A -> ST S B) s0 a s1 :
  m s0 = (a, s1) -> bind m k s0 = k a s1.
Proof. unfold bind. by intros ->. Qed.

Lemma bind_snd {S A B} (m : ST S A) (k : A -> ST S B) (x : S) :
  (bind m k x).2 = (k (m x).1 (m x).2).2.
Proof. unfold bind. by destruct (m x). Qed.

(** ** Reachability in a transition system *)

Section Star.
Context {St : Type} (step : St -> St -> Prop).

Inductive star : St -> St -> Prop :=
| star_refl s : star s s
| star_step s1 s2 s3 : step s1 s2 -> star s2 s3 -> star s1 s3.

(** An inductive invariant holds in every reachable state. *)
Lemma star_invariant (I : St -> Prop) :
  (forall s s', I s -> step s s' -> I s') ->
  forall s s', star s s' -> I s -> I s'.
Proof. intros Hstep s s' H. induction H; eauto. Qed.

Lemma star_trans s1 s2 s3 : star s1 s2 -> star s2 s3 -> star s1 s3.
Proof. induction 1; eauto using star. Qed.
End Star.

(** ** Finite case analysis by computation *)

(** A boolean property of all integers of [0, n), checked by evaluation. *)
Definition all_below (n : nat) (p : Z -> bool) : bool :=
  forallb p (map Z.of_nat (seq 0 n)).

Lemma all_below_spec n p x :
  all_below n p = true -> 0 <= x < Z.of_nat n -> p x = true.
Proof.
  unfold all_below. rewrite forallb_forall. intros H Hx. apply H, in_map_iff.
  exists (Z.to_nat x). split; [lia|]. apply in_seq. lia.
Qed.

(** ** Common error codes (include/common.h) *)

Module EC.
Definition SUCCESS : Z := 0.
Definition ERROR_UNKNOWN : Z := 1.
Definition ERROR_UNIMPLEMENTED : Z := 2.
Definition ERROR_OVERFLOW : Z := 3.
Definition ERROR_TIMEOUT : Z := 4.
Definition ERROR_INVAL : Z := 5.
Definition ERROR_BUSY : Z := 6.
Definition ERROR_ACCESS_DENIED : Z := 7.
Definition ERROR_PARAM1 : Z := 11.
Definition ERROR_PARAM2 : Z := 12.
Definition ERROR_PARAM3 : Z := 13.
Definition ERROR_PARAM_COUNT : Z := 20.
Definition ERROR_NOT_HANDLED : Z := 21.
Definition ERROR_MEMORY_ALLOCATION : Z := 23.
Definition ERROR_HW_INTERNAL : Z := 25.
Definition ERROR_INTERNAL_FIRST : Z := 65536.
End EC.
