(* ===== verification/Util.v ===== *)
(** * String and memory helpers (common/util.c)

    A C string is the list of its character codes, without the terminating NUL;
    reading one character past the end of the list yields that NUL. *)

From S2P Require Import Prelude.
From Stdlib Require Export Ascii.

Definition char (c : ascii) : Z := Z.of_N (N_of_ascii c).

Definition str (s : string) : list Z := map char (String.list_ascii_of_string s).

#[global] Arguments char c%_char_scope.
#[global] Arguments str s%_string_scope.

Definition isspace (c : Z) : bool :=
  (c =? 32) || (c =? 9) || (c =? 13) || (c =? 10).

Definition tolower (c : Z) : Z :=
  if (65 <=? c) && (c <=? 90) then c + 97 - 65 else c.

(** [*s], [s + 1] *)
Definition hd_char (s : list Z) : Z := hd 0 s.

Fixpoint strcasecmp (s1 s2 : list Z) : Z :=
  let diff := tolower (hd_char s1) - tolower (hd_char s2) in
  if nz diff then diff
  else match s1, s2 with
       | _ :: s1', _ :: s2' =>
           if nz (hd_char s1) && nz (hd_char s2) then strcasecmp s1' s2' else 0
       | _, _ => 0
       end.

Fixpoint strncasecmp_loop (size : nat) (s1 s2 : list Z) : Z :=
  match size with
  | O => 0
  | S size' =>
      let diff := tolower (hd_char s1) - tolower (hd_char s2) in
      if nz diff then diff
      else if nz (hd_char s1) && nz (hd_char s2)
           then strncasecmp_loop size' (tl s1) (tl s2)
           else 0
  end.

Definition strncasecmp (s1 s2 : list Z) (size : nat) : Z :=
  if Nat.eqb size 0 then 0 else strncasecmp_loop size s1 s2.

(** [None] is the result 0 (unrecognised); otherwise the value stored in [dest]. *)
Definition parse_bool (s : list Z) : option Z :=
  if (strcasecmp s (str "off") =? 0) || (strncasecmp s (str "dis") 3 =? 0)
     || (tolower (hd_char s) =? char "f") || (tolower (hd_char s) =? char "n")
  then Some 0
  else if (strcasecmp s (str "on") =? 0) || (strncasecmp s (str "ena") 3 =? 0)
          || (tolower (hd_char s) =? char "t") || (tolower (hd_char s) =? char "y")
  then Some 1
  else None.

(** The accumulating loop of [safe_memcmp]: the xors of the two buffers' bytes are
    or-ed together, whatever the first difference is. *)
Fixpoint safe_memcmp_loop (s1 s2 : list Z) (size : nat) (result : Z) : Z :=
  match size with
  | O => result
  | S n => safe_memcmp_loop (tl s1) (tl s2) n
             (Z.lor result (Z.lxor (hd 0 s1) (hd 0 s2)))
  end.

Definition safe_memcmp (s1 s2 : list Z) (size : nat) : Z :=
  if Nat.eqb size 0 then 0
  else b2z (nz (safe_memcmp_loop s1 s2 size 0)).

Lemma lor_eq_0 a b : Z.lor a b = 0 <-> a = 0 /\ b = 0.
Proof. apply Z.lor_eq_0_iff. Qed.

Lemma lxor_eq_0 a b : Z.lxor a b = 0 <-> a = b.
Proof. apply Z.lxor_eq_0_iff. Qed.

Lemma safe_memcmp_loop_zero n : forall s1 s2 r,
  length s1 = n -> length s2 = n ->
  safe_memcmp_loop s1 s2 n r = 0 <-> r = 0 /\ s1 = s2.
Proof.
  induction n as [|n IH]; intros [|a s1] [|b s2] r Hl1 Hl2; try discriminate; cbn.
  - tauto.
  - rewrite IH, lor_eq_0, lxor_eq_0 by (simpl in *; lia).
    split; [intros [[-> ->] ->]|intros [-> [= -> ->]]]; auto.
Qed.

(** The constant-time comparison decides equality of buffers. *)
Lemma safe_memcmp_zero s1 s2 n :
  length s1 = n -> length s2 = n -> safe_memcmp s1 s2 n = 0 <-> s1 = s2.
Proof.
  intros H1 H2. unfold safe_memcmp. destruct n as [|n].
  - apply nil_length_inv in H1 as ->. apply nil_length_inv in H2 as ->. done.
  - cbn [Nat.eqb]. pose proof (safe_memcmp_loop_zero (S n) s1 s2 0 H1 H2) as Hz.
    destruct (nz (safe_memcmp_loop s1 s2 (S n) 0)) eqn:E; bool_to_Prop; cbn.
    + split; [done|]. intros ->. exfalso. apply E, Hz. auto.
    + split; [|done]. intros _. by apply Hz.
Qed.

(** The case-insensitive comparison accepts a string and itself. *)
Lemma strcasecmp_refl s : strcasecmp s s = 0.
Proof.
  induction s as [|c s IH]; [done|].
  cbn [strcasecmp]. rewrite Z.sub_diag. cbn. destruct (nz c); cbn; done.
Qed.
