(* ===== verification/Crc8.v ===== *)
(** * CRC-8 (common/crc8.c)

    The CRC is kept in the upper byte of a 16-bit word while bytes are added; the CRC
    of a concatenation can be computed piece by piece. *)

From S2P Require Import Prelude.

Definition crc8_bit (crc : Z) : Z :=
  u32 (Z.shiftl (if nz (Z.land crc 0x8000) then Z.lxor crc (Z.shiftl 0x1070 3) else crc) 1).

Definition crc8_byte (crc b : Z) : Z := Nat.iter 8 crc8_bit (Z.lxor crc (Z.shiftl b 8)).

Definition crc8_arg (data : list Z) (previous_crc : Z) : Z :=
  u8 (Z.shiftr (fold_left crc8_byte data (Z.shiftl previous_crc 8)) 8).

Definition crc8 (data : list Z) : Z := crc8_arg data 0.

(** ** The CRC of a concatenation *)

Definition crc_state (c : Z) : Prop := exists x, is_byte x /\ c = Z.shiftl x 8.

Lemma lxor_byte x y : is_byte x -> is_byte y -> is_byte (Z.lxor x y).
Proof.
  unfold is_byte. intros Hx Hy. change 256 with (2 ^ 8) in *.
  split; [apply Z.lxor_nonneg; tauto|]. destruct (Z.eq_dec (Z.lxor x y) 0) as [->|Hne]; [lia|].
  assert (0 < Z.lxor x y) by (assert (0 <= Z.lxor x y) by (apply Z.lxor_nonneg; tauto); lia).
  apply Z.log2_lt_pow2; [done|].
  assert (Z.log2 x < 8) by (destruct (Z.eq_dec x 0) as [->|]; [done|apply Z.log2_lt_pow2; lia]).
  assert (Z.log2 y < 8) by (destruct (Z.eq_dec y 0) as [->|]; [done|apply Z.log2_lt_pow2; lia]).
  pose proof (Z.log2_lxor x y). lia.
Qed.

Definition crc_state_b (c : Z) : bool :=
  (c =? Z.shiftl (Z.shiftr c 8) 8) && ((0 <=? Z.shiftr c 8) && (Z.shiftr c 8 <? 256)).

Lemma crc_state_b_spec c : crc_state_b c = true -> crc_state c.
Proof.
  unfold crc_state_b. intros H. apply andb_prop in H as [E H]. apply andb_prop in H as [H1 H2].
  apply Z.eqb_eq in E. apply Z.leb_le in H1. apply Z.ltb_lt in H2.
  by exists (Z.shiftr c 8).
Qed.

Definition crc_step (y : Z) : Z := Nat.iter 8 crc8_bit (Z.shiftl y 8).

Lemma crc_steps : all_below 256 (fun y => crc_state_b (crc_step y)) = true.
Proof. vm_compute. reflexivity. Qed.

Lemma crc_step_state y : is_byte y -> crc_state (crc_step y).
Proof.
  intros Hy. apply crc_state_b_spec.
  apply (all_below_spec 256 (fun y => crc_state_b (crc_step y)) y crc_steps). exact Hy.
Qed.

Lemma crc8_byte_step x b : crc8_byte (Z.shiftl x 8) b = crc_step (Z.lxor x b).
Proof. unfold crc8_byte, crc_step. by rewrite Z.shiftl_lxor. Qed.

Lemma crc8_byte_state c b : crc_state c -> is_byte b -> crc_state (crc8_byte c b).
Proof.
  intros (x & Hx & ->) Hb. rewrite crc8_byte_step. by apply crc_step_state, lxor_byte.
Qed.

Lemma fold_left_inv {A B} (f : A -> B -> A) (P : A -> Prop) (Q : B -> Prop) l a :
  (forall a b, P a -> Q b -> P (f a b)) -> Forall Q l -> P a -> P (fold_left f l a).
Proof.
  intros Hf. revert a. induction l as [|b l IH]; intros a Hl Ha; [done|].
  apply Forall_cons in Hl as [Hb Hl]. cbn. auto.
Qed.

Lemma crc8_fold_state l c : bytes l -> crc_state c -> crc_state (fold_left crc8_byte l c).
Proof. exact (fold_left_inv crc8_byte crc_state is_byte l c crc8_byte_state). Qed.

Lemma crc8_arg_app l1 l2 : bytes l1 -> crc8_arg l2 (crc8_arg l1 0) = crc8_arg (l1 ++ l2) 0.
Proof.
  intros Hl. unfold crc8_arg. rewrite fold_left_app. f_equal. f_equal. f_equal.
  destruct (crc8_fold_state l1 (Z.shiftl 0 8) Hl) as (x & Hx & E); [by exists 0|].
  rewrite E, Z.shiftr_shiftl_l, Z.sub_diag, Z.shiftl_0_r by lia.
  by rewrite uN_small by exact Hx.
Qed.

Lemma crc8_arg_byte data prev : is_byte (crc8_arg data prev).
Proof. apply (uN_range 8). lia. Qed.
