(* ===== verification/Base32.v ===== *)
(** * Base-32 encoding with CRC-5 groups (common/base32.c) *)

From S2P Require Import Prelude Util.

Definition crc5_table1 : list Z :=
  [0x00; 0x0E; 0x1C; 0x12; 0x11; 0x1F; 0x0D; 0x03;
   0x0B; 0x05; 0x17; 0x19; 0x1A; 0x14; 0x06; 0x08].

Definition crc5_table0 : list Z :=
  [0x00; 0x16; 0x05; 0x13; 0x0A; 0x1C; 0x0F; 0x19;
   0x14; 0x02; 0x11; 0x07; 0x1E; 0x08; 0x1B; 0x0D].

Definition crc5_sym (sym previous_crc : Z) : Z :=
  let tmp := Z.lxor sym previous_crc in
  Z.lxor (at_ crc5_table1 (Z.land tmp 0x0F))
         (at_ crc5_table0 (Z.land (Z.shiftr tmp 4) 0x0F)).

(** A-Z0-9 with I,O,0,1 removed *)
Definition base32_map : list Z :=
  Eval vm_compute in str "ABCDEFGHJKLMNPQRSTUVWXYZ23456789".

Fixpoint decode_sym_from (table : list Z) (i sym : Z) : Z :=
  match table with
  | [] => -1
  | c :: table' => if sym =? c then i else decode_sym_from table' (i + 1) sym
  end.

Definition decode_sym (sym : Z) : Z := decode_sym_from base32_map 0 sym.

(** ** Encoding *)

(** The five-bit symbol that starts at bit [i] of the source. *)
Definition encode_sym (src : list Z) (srclen_bits i : Z) : Z :=
  let sidx := i / 8 in
  let bit_offs := i mod 8 in
  let sym :=
    if bit_offs <=? 3 then Z.shiftr (at_ src sidx) (3 - bit_offs)
    else
      let sym := Z.shiftl (at_ src sidx) (bit_offs - 3) in
      if i + 1 <? srclen_bits
      then Z.lor sym (Z.shiftr (at_ src (sidx + 1)) (11 - bit_offs))
      else sym in
  let sym := Z.land sym 0x1f in
  if srclen_bits - i <? 5
  then Z.land sym (Z.shiftl 0x1f (5 + i - srclen_bits))
  else sym.

(** The [for] loop; [fuel] bounds its iterations and [dest] is what has been
    written so far. *)
Fixpoint encode_loop (fuel : nat) (src : list Z) (srclen_bits add_crc_every : Z)
    (i crc crc_count : Z) (dest : list Z) : list Z :=
  match fuel with
  | O => dest
  | S fuel =>
      if i <? srclen_bits then
        let sym := encode_sym src srclen_bits i in
        let dest := dest ++ [at_ base32_map sym] in
        if nz add_crc_every then
          let crc := crc5_sym sym crc in
          let crc_count := crc_count + 1 in
          if crc_count =? add_crc_every
          then encode_loop fuel src srclen_bits add_crc_every (i + 5) 0 0
                 (dest ++ [at_ base32_map crc])
          else encode_loop fuel src srclen_bits add_crc_every (i + 5) crc crc_count dest
        else encode_loop fuel src srclen_bits add_crc_every (i + 5) crc crc_count dest
      else dest
  end.

(** Returns the error code and the string left in [dest]. *)
Definition base32_encode (destlen_chars : Z) (src : list Z)
    (srclen_bits add_crc_every : Z) : Z * list Z :=
  let destlen_needed := Z.quot (srclen_bits + 4) 5 in
  if nz add_crc_every && nz (Z.rem destlen_needed add_crc_every)
  then (EC.ERROR_INVAL, [])
  else
    let destlen_needed :=
      if nz add_crc_every
      then destlen_needed + Z.quot destlen_needed add_crc_every
      else destlen_needed in
    let destlen_needed := destlen_needed + 1 in
    if destlen_chars <? destlen_needed then (EC.ERROR_INVAL, [])
    else (EC.SUCCESS,
          encode_loop (Z.to_nat srclen_bits) src srclen_bits add_crc_every 0 0 0 []).

(** ** Decoding *)

Definition set_at (l : list Z) (i x : Z) : list Z := <[Z.to_nat i := x]> l.

(** The part of the loop body that stores the bits of one symbol: the new contents
    of [dest] and the new [out_bits]. *)
Definition decode_put (dest : list Z) (destlen_bits out_bits sym : Z)
    : list Z * Z :=
  let sbits := Z.min 5 (destlen_bits - out_bits) in
  let sym := if sbits <? 5 then Z.shiftr sym (5 - sbits) else sym in
  let dbits := 8 - Z.land out_bits 7 in
  let b := Z.min dbits sbits in
  let dest := if dbits =? 8 then set_at dest (out_bits / 8) 0 else dest in
  let dest := set_at dest (out_bits / 8)
                (u8 (Z.lor (at_ dest (out_bits / 8))
                           (Z.shiftr (Z.shiftl sym (dbits - b)) (sbits - b)))) in
  let out_bits := out_bits + b in
  let sbits := sbits - b in
  if sbits >? 0
  then (set_at dest (out_bits / 8) (u8 (Z.shiftl sym (8 - sbits))), out_bits + sbits)
  else (dest, out_bits).

Definition decode_end (crc_after_every crc_count out_bits : Z) : Z :=
  if nz crc_after_every && nz crc_count then -1 else out_bits.

(** Returns the number of decoded bits, or -1, and the contents of [dest]. *)
Fixpoint decode_loop (src dest : list Z) (destlen_bits crc_after_every : Z)
    (crc crc_count out_bits : Z) : Z * list Z :=
  match src with
  | [] => (decode_end crc_after_every crc_count out_bits, dest)
  | c :: src' =>
      if c =? 0 then (decode_end crc_after_every crc_count out_bits, dest)
      else if isspace c || (c =? char "-")
      then decode_loop src' dest destlen_bits crc_after_every crc crc_count out_bits
      else
        let sym := decode_sym c in
        if sym <? 0 then (-1, dest)
        else if nz crc_after_every && (crc_count =? crc_after_every) then
          if negb (crc =? sym) then (-1, dest)
          else decode_loop src' dest destlen_bits crc_after_every 0 0 out_bits
        else
          let crc := if nz crc_after_every then crc5_sym sym crc else crc in
          let crc_count := if nz crc_after_every then crc_count + 1 else crc_count in
          if out_bits >=? destlen_bits
          then (decode_end crc_after_every crc_count out_bits, dest)
          else
            let '(dest, out_bits) := decode_put dest destlen_bits out_bits sym in
            decode_loop src' dest destlen_bits crc_after_every crc crc_count out_bits
  end.

Definition base32_decode (dest : list Z) (destlen_bits : Z) (src : list Z)
    (crc_after_every : Z) : Z * list Z :=
  decode_loop src dest destlen_bits crc_after_every 0 0 0.

(** ** The symbol map and the CRC, by computation over the 32 symbols *)

Definition is_sym (s : Z) : Prop := 0 <= s < 32.

Definition sym_char (s : Z) : Z := at_ base32_map s.

Lemma decode_sym_char s : is_sym s -> decode_sym (sym_char s) = s.
Proof.
  intros Hs. apply Z.eqb_eq.
  apply (all_below_spec 32 (fun s => decode_sym (sym_char s) =? s)); [done|exact Hs].
Qed.

(** A symbol of the map is neither the terminator nor a separator. *)
Lemma sym_char_plain s :
  is_sym s -> (sym_char s =? 0) = false /\
              isspace (sym_char s) || (sym_char s =? char "-") = false.
Proof.
  intros Hs.
  assert (H : negb (sym_char s =? 0)
    && negb (isspace (sym_char s) || (sym_char s =? char "-")) = true).
  { apply (all_below_spec 32 (fun s => negb (sym_char s =? 0)
      && negb (isspace (sym_char s) || (sym_char s =? char "-")))); [done|exact Hs]. }
  apply andb_true_iff in H as [H1 H2]. by rewrite negb_true_iff in H1, H2.
Qed.

(** A boolean property of pairs of symbols, by evaluation. *)
Lemma sym_pairs (p : Z -> Z -> bool) x y :
  all_below 32 (fun x => all_below 32 (p x)) = true -> is_sym x -> is_sym y ->
  p x y = true.
Proof.
  intros H Hx Hy. apply (all_below_spec 32 (p x)); [|exact Hy].
  exact (all_below_spec 32 (fun x => all_below 32 (p x)) x H Hx).
Qed.

Lemma crc5_sym_range s c : is_sym s -> is_sym c -> is_sym (crc5_sym s c).
Proof.
  intros Hs Hc. unfold is_sym.
  pose proof (sym_pairs (fun s c => (0 <=? crc5_sym s c) && (crc5_sym s c <? 32)) s c
    ltac:(vm_compute; reflexivity) Hs Hc) as H. cbn beta in H. bool_to_Prop. lia.
Qed.

(** The CRC step is a function of [sym ^ crc] that is injective on symbols. *)
Lemma crc5_sym_lxor s c : crc5_sym s c = crc5_sym (Z.lxor s c) 0.
Proof. unfold crc5_sym. by rewrite Z.lxor_0_r. Qed.

Lemma lxor_is_sym s c : is_sym s -> is_sym c -> is_sym (Z.lxor s c).
Proof.
  intros Hs Hc. unfold is_sym.
  pose proof (sym_pairs (fun s c => (0 <=? Z.lxor s c) && (Z.lxor s c <? 32)) s c
    ltac:(vm_compute; reflexivity) Hs Hc) as H. cbn beta in H. bool_to_Prop. lia.
Qed.

Lemma crc5_step_inj x y :
  is_sym x -> is_sym y -> crc5_sym x 0 = crc5_sym y 0 -> x = y.
Proof.
  intros Hx Hy Heq.
  pose proof (sym_pairs (fun x y => negb (crc5_sym x 0 =? crc5_sym y 0) || (x =? y)) x y
    ltac:(vm_compute; reflexivity) Hx Hy) as H. cbn beta in H.
  rewrite Heq, Z.eqb_refl in H. cbn in H. bool_to_Prop. done.
Qed.

Lemma lxor_cancel_r a b c : Z.lxor a c = Z.lxor b c -> a = b.
Proof.
  intros H. rewrite <- (Z.lxor_0_r a), <- (Z.lxor_nilpotent c), <- Z.lxor_assoc, H.
  by rewrite Z.lxor_assoc, Z.lxor_nilpotent, Z.lxor_0_r.
Qed.

Lemma lxor_cancel_l a b c : Z.lxor c a = Z.lxor c b -> a = b.
Proof. rewrite !(Z.lxor_comm c). apply lxor_cancel_r. Qed.

Lemma crc5_sym_inj_sym s s' c :
  is_sym s -> is_sym s' -> is_sym c -> crc5_sym s c = crc5_sym s' c -> s = s'.
Proof.
  intros Hs Hs' Hc H. rewrite (crc5_sym_lxor s), (crc5_sym_lxor s') in H.
  apply crc5_step_inj in H; [|by apply lxor_is_sym..]. by eapply lxor_cancel_r.
Qed.

Lemma crc5_sym_inj_crc s c c' :
  is_sym s -> is_sym c -> is_sym c' -> crc5_sym s c = crc5_sym s c' -> c = c'.
Proof.
  intros Hs Hc Hc' H. rewrite (crc5_sym_lxor s c), (crc5_sym_lxor s c') in H.
  apply crc5_step_inj in H; [|by apply lxor_is_sym..]. by eapply lxor_cancel_l.
Qed.

(** The CRC of a group of symbols, from a starting value. *)
Definition crc_from (crc : Z) (l : list Z) : Z :=
  fold_left (fun c s => crc5_sym s c) l crc.

Lemma crc_from_range l crc : Forall is_sym l -> is_sym crc -> is_sym (crc_from crc l).
Proof.
  revert crc; induction l as [|s l IH]; intros crc Hl Hc; [done|].
  apply Forall_cons_iff in Hl as [Hs Hl]. apply IH; auto using crc5_sym_range.
Qed.

(** Different running CRCs never meet again on the same symbols. *)
Lemma crc_from_inj l c c' :
  Forall is_sym l -> is_sym c -> is_sym c' -> crc_from c l = crc_from c' l -> c = c'.
Proof.
  revert c c'; induction l as [|s l IH]; intros c c' Hl Hc Hc' H; [done|].
  apply Forall_cons_iff in Hl as [Hs Hl].
  apply IH in H; auto using crc5_sym_range. eauto using crc5_sym_inj_crc.
Qed.

(** *** One group through the decoder *)

Lemma decode_loop_sym s rest dest dl add crc count out :
  is_sym s ->
  decode_loop (sym_char s :: rest) dest dl add crc count out =
  if nz add && (count =? add) then
    if negb (crc =? s) then (-1, dest) else decode_loop rest dest dl add 0 0 out
  else
    let crc := if nz add then crc5_sym s crc else crc in
    let count := if nz add then count + 1 else count in
    if out >=? dl then (decode_end add count out, dest)
    else
      let '(dest, out) := decode_put dest dl out s in
      decode_loop rest dest dl add crc count out.
Proof.
  intros Hs. destruct (sym_char_plain s Hs) as [H0 Hsp]. cbn [decode_loop].
  rewrite H0, Hsp, decode_sym_char by done.
  destruct (s <? 0) eqn:E; [|done]. unfold is_sym in Hs. bool_to_Prop. lia.
Qed.

(** The symbols of a group either exhaust the destination, which fails because the
    group is not complete, or update the running CRC. *)
Lemma decode_group l : forall rest dest dl add crc count out,
  Forall is_sym l -> 0 <= count -> 0 < add -> count + Z.of_nat (length l) <= add ->
  (decode_loop (map sym_char l ++ rest) dest dl add crc count out).1 = -1 \/
  exists dest' out',
    decode_loop (map sym_char l ++ rest) dest dl add crc count out =
    decode_loop rest dest' dl add (crc_from crc l) (count + Z.of_nat (length l)) out'.
Proof.
  induction l as [|s l IH]; intros rest dest dl add crc count out Hl H0 Hadd Hle.
  - right. exists dest, out. cbn. by rewrite Z.add_0_r.
  - apply Forall_cons_iff in Hl as [Hs Hl]. cbn [length] in Hle.
    cbn [map app]. rewrite decode_loop_sym by done.
    rewrite (nz_pos add) by lia.
    destruct (count =? add) eqn:E; bool_to_Prop; [lia|]. cbn [andb].
    destruct (out >=? dl); [left|].
    { unfold decode_end. by rewrite (nz_pos add), (nz_pos (count + 1)) by lia. }
    destruct (decode_put dest dl out s) as [dest1 out1]. cbn zeta iota.
    destruct (IH rest dest1 dl add (crc5_sym s crc) (count + 1) out1)
      as [H|(d & o & H)]; try (done || lia). right.
    exists d, o. rewrite H. cbn [length]. f_equal. lia.
Qed.

(** A complete group whose CRC symbol is not the CRC of its symbols is rejected. *)
Lemma decode_bad_group l c dest dl :
  Forall is_sym l -> is_sym c -> l <> [] -> crc_from 0 l <> c ->
  (base32_decode dest dl (map sym_char (l ++ [c])) (Z.of_nat (length l))).1 = -1.
Proof.
  intros Hl Hc Hne Hcrc. unfold base32_decode. rewrite map_app.
  assert (0 < Z.of_nat (length l)) by (destruct l; [done|cbn; lia]).
  destruct (decode_group l (map sym_char [c]) dest dl (Z.of_nat (length l)) 0 0 0)
    as [H'|(d & o & H')]; try (done || lia).
  rewrite H'. cbn [map]. rewrite decode_loop_sym, Z.add_0_l, Z.eqb_refl by done.
  rewrite nz_pos by lia.
  cbn [andb]. destruct (crc_from 0 l =? c) eqn:E; bool_to_Prop; done.
Qed.

Lemma crc_from_subst l1 s s' l2 c :
  Forall is_sym (l1 ++ s :: l2) -> is_sym s' -> is_sym c -> s <> s' ->
  crc_from c (l1 ++ s' :: l2) <> crc_from c (l1 ++ s :: l2).
Proof.
  intros Hl Hs' Hc Hne Heq. apply Forall_app in Hl as [H1 H2].
  apply Forall_cons_iff in H2 as [Hs H2].
  unfold crc_from in Heq. rewrite !fold_left_app in Heq. cbn in Heq.
  pose proof (crc_from_range l1 c H1 Hc) as Hp.
  apply (crc_from_inj l2) in Heq; [|done|by apply crc5_sym_range..].
  apply crc5_sym_inj_sym in Heq; done.
Qed.

Lemma crc_from_swap l1 a b l2 c :
  Forall is_sym (l1 ++ a :: b :: l2) -> is_sym c -> a <> b ->
  crc_from c (l1 ++ b :: a :: l2) <> crc_from c (l1 ++ a :: b :: l2).
Proof.
  intros Hl Hc Hne Heq. apply Forall_app in Hl as [H1 H2].
  apply Forall_cons_iff in H2 as [Ha H2]. apply Forall_cons_iff in H2 as [Hb H2].
  unfold crc_from in Heq. rewrite !fold_left_app in Heq. cbn in Heq.
  change (crc_from (crc5_sym a (crc5_sym b (crc_from c l1))) l2 =
          crc_from (crc5_sym b (crc5_sym a (crc_from c l1))) l2) in Heq.
  pose proof (crc_from_range l1 c H1 Hc) as Hp. set (p := crc_from c l1) in *.
  apply (crc_from_inj l2) in Heq; [|done|by apply crc5_sym_range; [|apply crc5_sym_range]..].
  rewrite (crc5_sym_lxor a (crc5_sym b p)), (crc5_sym_lxor b (crc5_sym a p)) in Heq.
  apply crc5_step_inj in Heq; [|by apply lxor_is_sym; [|apply crc5_sym_range]..].
  rewrite (crc5_sym_lxor b p), (crc5_sym_lxor a p) in Heq.
  pose proof (sym_pairs
    (fun x y => negb (Z.lxor x (crc5_sym y 0) =? Z.lxor y (crc5_sym x 0)) || (x =? y))
    (Z.lxor a p) (Z.lxor b p) ltac:(vm_compute; reflexivity)
    (lxor_is_sym _ _ Ha Hp) (lxor_is_sym _ _ Hb Hp)) as H. cbn beta in H.
  assert (Heq' : Z.lxor (Z.lxor a p) (crc5_sym (Z.lxor b p) 0) =
                 Z.lxor (Z.lxor b p) (crc5_sym (Z.lxor a p) 0)).
  { clear H. revert Heq. generalize (crc5_sym (Z.lxor b p) 0) as x.
    generalize (crc5_sym (Z.lxor a p) 0) as y. intros y x Heq.
    rewrite (Z.lxor_comm a p), (Z.lxor_comm b p), !Z.lxor_assoc. by f_equal. }
  rewrite Heq', Z.eqb_refl in H. cbn in H. bool_to_Prop.
  apply Hne. by eapply lxor_cancel_r.
Qed.

(** ** The bit stream

    Bit [k] of a buffer, most significant bit of the first byte first. *)
Definition bit_at (l : list Z) (k : Z) : bool := Z.testbit (at_ l (k / 8)) (7 - k mod 8).

Lemma testbit_small x n i : 0 <= x < 2 ^ n -> 0 <= n <= i -> Z.testbit x i = false.
Proof.
  intros Hx Hi. destruct (Z.eq_dec x 0) as [->|]; [apply Z.bits_0|].
  apply Z.bits_above_log2; [lia|]. apply Z.log2_lt_pow2; [lia|].
  pose proof (Z.pow_le_mono_r 2 n i). lia.
Qed.

Lemma at_byte l i : bytes l -> 0 <= at_ l i < 2 ^ 8.
Proof.
  intros Hl. unfold at_. destruct (nth_in_or_default (Z.to_nat i) l 0) as [Hin| ->]; [|lia].
  unfold bytes in Hl. rewrite List.Forall_forall in Hl. apply Hl in Hin.
  unfold is_byte in Hin. lia.
Qed.

Lemma testbit_ones5 i : 0 <= i -> Z.testbit 0x1f i = (i <? 5).
Proof.
  intros. change 0x1f with (Z.ones 5).
  destruct (i <? 5) eqn:E; bool_to_Prop.
  - apply Z.ones_spec_low. lia.
  - apply Z.ones_spec_high. lia.
Qed.

Lemma div8_add i j :
  0 <= i -> 0 <= j < 8 ->
  ((i + j) / 8 = i / 8 /\ (i + j) mod 8 = i mod 8 + j /\ i mod 8 + j < 8) \/
  ((i + j) / 8 = i / 8 + 1 /\ (i + j) mod 8 = i mod 8 + j - 8 /\ 8 <= i mod 8 + j).
Proof.
  intros Hi Hj. pose proof (Z.div_mod i 8). pose proof (Z.mod_pos_bound i 8).
  pose proof (Z.div_mod (i + j) 8). pose proof (Z.mod_pos_bound (i + j) 8).
  destruct (Z_lt_le_dec (i mod 8 + j) 8); [left|right]; lia.
Qed.

Lemma encode_sym_range src n i : 0 <= i -> is_sym (encode_sym src n i).
Proof.
  intros Hi. unfold encode_sym, is_sym. cbn zeta.
  set (s := if i mod 8 <=? 3 then _ else _).
  assert (Hland : forall x y, 0 <= y < 32 -> 0 <= Z.land y x < 32).
  { intros x y Hy. assert (0 <= Z.land y x) by (apply Z.land_nonneg; lia).
    split; [done|]. destruct (Z_lt_le_dec (Z.land y x) 32) as [|Hge]; [done|exfalso].
    assert (Hlog : 5 <= Z.log2 (Z.land y x)) by (apply Z.log2_le_pow2; lia).
    pose proof (Z.bit_log2 (Z.land y x)) as Hb. rewrite Z.land_spec in Hb.
    rewrite (testbit_small y 5) in Hb by lia. cbn in Hb. specialize (Hb ltac:(lia)). done. }
  assert (Hs : 0 <= Z.land s 0x1f < 32).
  { rewrite Z.land_comm. apply Hland. lia. }
  destruct (n - i <? 5); [by apply Hland|done].
Qed.

(** Bit [j] of a symbol is bit [i + j] of the source, or padding. *)
Lemma encode_sym_bit src n i j :
  bytes src -> n = 8 * Z.of_nat (length src) -> 0 <= i < n -> 0 <= j < 5 ->
  Z.testbit (encode_sym src n i) (4 - j) = (i + j <? n) && bit_at src (i + j).
Proof.
  intros Hsrc Hn Hi Hj. unfold encode_sym, bit_at. cbn zeta.
  pose proof (Z.mod_pos_bound i 8). pose proof (Z.div_mod i 8).
  set (s := if i mod 8 <=? 3 then _ else _).
  assert (Hs : i + j < n ->
    Z.testbit s (4 - j) = Z.testbit (at_ src ((i + j) / 8)) (7 - (i + j) mod 8)).
  { intros Hlt. subst s. pose proof (div8_add i j ltac:(lia) ltac:(lia)) as Hd.
    destruct (i mod 8 <=? 3) eqn:E; bool_to_Prop.
    - destruct Hd as [(-> & -> & ?)|(_ & _ & ?)]; [|lia].
      rewrite Z.shiftr_spec by lia. f_equal; lia.
    - assert (Hsl : Z.testbit (Z.shiftl (at_ src (i / 8)) (i mod 8 - 3)) (4 - j)
                    = Z.testbit (at_ src (i / 8)) (7 - (i mod 8 + j))).
      { rewrite Z.shiftl_spec by lia. f_equal; lia. }
      destruct (i + 1 <? n) eqn:E1; bool_to_Prop.
      + rewrite Z.lor_spec, Hsl, Z.shiftr_spec by lia.
        destruct Hd as [(-> & -> & ?)|(-> & -> & ?)].
        * rewrite (testbit_small (at_ src (i / 8 + 1)) 8) by (apply at_byte || lia; done).
          apply orb_false_r.
        * rewrite (Z.testbit_neg_r (at_ src (i / 8))) by lia. cbn. f_equal; lia.
      + destruct Hd as [(-> & -> & ?)|(_ & _ & ?)]; [done|]. lia. }
  destruct (n - i <? 5) eqn:E5; bool_to_Prop.
  - rewrite !Z.land_spec, Z.shiftl_spec, testbit_ones5 by lia.
    destruct (i + j <? n) eqn:Elt; bool_to_Prop; cbn [andb].
    + rewrite testbit_ones5 by lia. rewrite Hs by done.
      destruct (4 - j <? 5) eqn:E1, (4 - j - (5 + i - n) <? 5) eqn:E2; bool_to_Prop;
        try lia. by rewrite !andb_true_r.
    + rewrite (Z.testbit_neg_r 31) by lia. apply andb_false_r.
  - rewrite Z.land_spec, testbit_ones5 by lia.
    destruct (i + j <? n) eqn:Elt, (4 - j <? 5) eqn:E1; bool_to_Prop; try lia.
    rewrite Hs by done. apply andb_true_r.
Qed.

(** *** Storing a symbol *)

Lemma at_set_at l i x k :
  0 <= i < Z.of_nat (length l) -> 0 <= k ->
  at_ (set_at l i x) k = if k =? i then x else at_ l k.
Proof.
  intros Hi Hk. unfold at_, set_at. rewrite !nth_lookup.
  destruct (k =? i) eqn:E; bool_to_Prop.
  - subst. rewrite list_lookup_insert_eq by lia. done.
  - rewrite list_lookup_insert_ne by lia. done.
Qed.

Lemma length_set_at l i x : length (set_at l i x) = length l.
Proof. apply length_insert. Qed.

Lemma bytes_set_at l i x : bytes l -> is_byte x -> bytes (set_at l i x).
Proof. intros. by apply Forall_insert. Qed.

Lemma u8_byte x : is_byte (u8 x).
Proof. pose proof (uN_range 8 x). unfold is_byte. lia. Qed.

(** The decoder's invariant: the first [o] bits of the destination are those of the
    source, and the rest of a byte under construction is zero. *)
Record decoded (src dest : list Z) (o : Z) : Prop := {
  dec_length : length dest = length src;
  dec_bits k : 0 <= k < o -> bit_at dest k = bit_at src k;
  dec_tail k : o <= k -> k / 8 = o / 8 -> o mod 8 <> 0 -> bit_at dest k = false
}.

Lemma bit_at_set_at l i x k :
  0 <= i < Z.of_nat (length l) -> 0 <= k ->
  bit_at (set_at l i x) k =
  if k / 8 =? i then Z.testbit x (7 - k mod 8) else bit_at l k.
Proof.
  intros Hi Hk. unfold bit_at. rewrite at_set_at; [by destruct (k / 8 =? i)|done|].
  apply Z.div_pos; lia.
Qed.

Lemma div8_eq k q : k / 8 = q <-> 8 * q <= k < 8 * q + 8.
Proof. pose proof (Z.div_mod k 8). pose proof (Z.mod_pos_bound k 8). lia. Qed.

Lemma u8_bit x i : 0 <= i < 8 -> Z.testbit (u8 x) i = Z.testbit x i.
Proof. apply uN_testbit. Qed.

(** The bits of the symbol kept by the decoder, most significant first. *)
Definition kept_sym (N o sym : Z) : Z :=
  let sbits := Z.min 5 (N - o) in
  if sbits <? 5 then Z.shiftr sym (5 - sbits) else sym.

Definition sym_carries (src : list Z) (N o sym : Z) : Prop :=
  is_sym sym /\
  forall j, 0 <= j < 5 -> Z.testbit sym (4 - j) = (o + j <? N) && bit_at src (o + j).

Lemma kept_sym_bit src N o sym t :
  sym_carries src N o sym -> 0 <= o < N ->
  Z.testbit (kept_sym N o sym) t =
  (0 <=? t) && (t <? Z.min 5 (N - o)) && bit_at src (o + Z.min 5 (N - o) - 1 - t).
Proof.
  intros [Hr Hc] Ho. unfold kept_sym. cbn zeta. set (sb := Z.min 5 (N - o)).
  assert (Hsb : 0 < sb <= 5) by lia. unfold is_sym in Hr.
  destruct (0 <=? t) eqn:E0; bool_to_Prop; [|by rewrite Z.testbit_neg_r by lia].
  assert (Z.testbit (if sb <? 5 then Z.shiftr sym (5 - sb) else sym) t
          = Z.testbit sym (t + (5 - sb))) as ->.
  { destruct (sb <? 5) eqn:E; bool_to_Prop; [by rewrite Z.shiftr_spec by lia|].
    f_equal. lia. }
  destruct (t <? sb) eqn:E1; bool_to_Prop; cbn [andb].
  - replace (t + (5 - sb)) with (4 - (sb - 1 - t)) by lia. rewrite Hc by lia.
    destruct (o + (sb - 1 - t) <? N) eqn:E2; bool_to_Prop; [|lia].
    cbn. f_equal. lia.
  - apply (testbit_small sym 5); lia.
Qed.

Lemma land7 o : Z.land o 7 = o mod 8.
Proof. change 7 with (Z.ones 3). by rewrite Z.land_ones by lia. Qed.

(** Writing the kept bits at bit [o] of the byte that holds it. *)
Definition put_first (dest : list Z) (o sb sym : Z) : list Z :=
  let dbits := 8 - Z.land o 7 in
  let b := Z.min dbits sb in
  let dest := if dbits =? 8 then set_at dest (o / 8) 0 else dest in
  set_at dest (o / 8)
    (u8 (Z.lor (at_ dest (o / 8)) (Z.shiftr (Z.shiftl sym (dbits - b)) (sb - b)))).

Lemma put_first_bit src dest N o sym k :
  decoded src dest o -> sym_carries src N o sym ->
  N = 8 * Z.of_nat (length src) -> 0 <= o < N -> 0 <= k ->
  bit_at (put_first dest o (Z.min 5 (N - o)) (kept_sym N o sym)) k =
  if (k / 8 =? o / 8) && (o <=? k)
  then (k <? o + Z.min 5 (N - o)) && bit_at src k
  else bit_at dest k.
Proof.
  intros [Hlen Hbits Htail] Hc HN Ho Hk. unfold put_first. rewrite land7. cbn zeta.
  set (sb := Z.min 5 (N - o)). set (m := o mod 8). set (q := o / 8).
  assert (Hm : 0 <= m < 8) by (apply Z.mod_pos_bound; lia).
  assert (Hqm : o = 8 * q + m) by (apply Z.div_mod; lia).
  set (dest0 := if 8 - m =? 8 then set_at dest q 0 else dest).
  assert (Hl0 : Z.of_nat (length dest0) = Z.of_nat (length src)).
  { unfold dest0. destruct (8 - m =? 8); by rewrite ?length_set_at, Hlen. }
  assert (Hd0 : bit_at dest0 k = (if (k / 8 =? q) && (o <=? k) then false else bit_at dest k)).
  { unfold dest0. destruct (8 - m =? 8) eqn:E8; bool_to_Prop.
    - rewrite bit_at_set_at by lia. destruct (k / 8 =? q) eqn:Eq; [|done].
      rewrite Z.bits_0. bool_to_Prop. apply div8_eq in Eq.
      destruct (o <=? k) eqn:El; bool_to_Prop; [done|lia].
    - destruct (k / 8 =? q) eqn:Eq, (o <=? k) eqn:El; bool_to_Prop; cbn; try done.
      apply Htail; [done..|]. fold m. lia. }
  rewrite bit_at_set_at by lia. destruct (k / 8 =? q) eqn:Eq.
  2:{ rewrite Hd0. done. }
  pose proof (Z.mod_pos_bound k 8 ltac:(lia)) as Hkm.
  pose proof (Z.div_mod k 8 ltac:(lia)) as Hkq.
  assert (Hv : forall b, b = Z.min (8 - m) sb ->
    Z.testbit (Z.shiftr (Z.shiftl (kept_sym N o sym) (8 - m - b)) (sb - b)) (7 - k mod 8)
    = Z.testbit (kept_sym N o sym) (sb - 1 - (k - o))).
  { intros b ->. rewrite Z.shiftr_spec, Z.shiftl_spec by lia. f_equal.
    bool_to_Prop. lia. }
  rewrite u8_bit, Z.lor_spec, Hv by (lia || done).
  assert (Z.testbit (at_ dest0 q) (7 - k mod 8) = bit_at dest0 k) as ->.
  { unfold bit_at. bool_to_Prop. by rewrite Eq. }
  rewrite Hd0, (kept_sym_bit src) by done. fold sb. cbn [andb].
  replace (o + sb - 1 - (sb - 1 - (k - o))) with k by lia.
  destruct (o <=? k) eqn:El; bool_to_Prop; cbn [orb].
  - destruct (k <? o + sb) eqn:E1, (0 <=? sb - 1 - (k - o)) eqn:E2,
      (sb - 1 - (k - o) <? sb) eqn:E3; bool_to_Prop; try lia; done.
  - destruct (sb - 1 - (k - o) <? sb) eqn:E3; bool_to_Prop; [lia|].
    rewrite andb_false_r. apply orb_false_r.
Qed.

Lemma length_put_first dest o sb sym : length (put_first dest o sb sym) = length dest.
Proof. unfold put_first. cbn zeta. split_if; by rewrite !length_set_at. Qed.

Lemma decode_put_bit src dest N o sym dest' o' k :
  decoded src dest o -> sym_carries src N o sym ->
  N = 8 * Z.of_nat (length src) -> 0 <= o < N -> 0 <= k ->
  decode_put dest N o sym = (dest', o') ->
  o' = Z.min (o + 5) N /\ length dest' = length dest /\
  bit_at dest' k =
    if (o <=? k) && ((k / 8 =? o / 8) || (o' >? 8 * (o / 8 + 1)) && (k / 8 =? o / 8 + 1))
    then (k <? o') && bit_at src k
    else bit_at dest k.
Proof.
  intros Hd Hc HN Ho Hk Hput. unfold decode_put in Hput.
  fold (kept_sym N o sym) in Hput.
  fold (put_first dest o (Z.min 5 (N - o)) (kept_sym N o sym)) in Hput.
  cbn zeta in Hput. rewrite land7 in Hput.
  set (sb := Z.min 5 (N - o)) in *. set (m := o mod 8) in *. set (q := o / 8) in *.
  pose proof (Z.mod_pos_bound o 8 ltac:(lia)) as Hm. fold m in Hm.
  assert (Hqm : o = 8 * q + m) by (apply Z.div_mod; lia).
  pose proof (put_first_bit src dest N o sym k Hd Hc HN Ho Hk) as Hb.
  pose proof (length_put_first dest o sb (kept_sym N o sym)) as Hl.
  destruct Hd as [Hlen _ _].
  fold sb q in Hb. set (d1 := put_first _ _ _ _) in *.
  destruct (sb - Z.min (8 - m) sb >? 0) eqn:E; injection Hput as <- <-;
    rewrite Z.gtb_ltb in E; bool_to_Prop.
  - assert ((o + Z.min (8 - m) sb) / 8 = q + 1) as -> by (apply div8_eq; lia).
    split; [lia|]. split; [by rewrite length_set_at|].
    rewrite bit_at_set_at by lia. rewrite Z.gtb_ltb.
    destruct (k / 8 =? q + 1) eqn:E1.
    + bool_to_Prop.
      pose proof (Z.mod_pos_bound k 8 ltac:(lia)) as Hkm.
      pose proof (Z.div_mod k 8 ltac:(lia)) as Hkq.
      rewrite u8_bit, Z.shiftl_spec, (kept_sym_bit src) by (done || lia). fold sb.
      destruct (o <=? k) eqn:El; bool_to_Prop; [|lia].
      destruct (8 * (q + 1) <? _) eqn:E2; bool_to_Prop; [|lia].
      rewrite orb_true_r. cbn [andb].
      match goal with |- context [bit_at src ?x] => replace x with k by lia end.
      match goal with |- (?a && ?b && _ = ?c && _) =>
        destruct a eqn:Ea, b eqn:Eb, c eqn:Ec end; bool_to_Prop; try lia; done.
    + rewrite Hb. rewrite andb_false_r, orb_false_r, (andb_comm (o <=? k)).
      destruct (k / 8 =? q) eqn:E2, (o <=? k) eqn:E3; cbn [andb]; try done.
      bool_to_Prop. apply div8_eq in E2.
      destruct (k <? o + sb) eqn:Ea, (k <? o + Z.min (8 - m) sb + (sb - Z.min (8 - m) sb))
        eqn:Eb; bool_to_Prop; try lia; done.
  - split; [lia|]. split; [done|]. rewrite Hb, Z.gtb_ltb.
    destruct (8 * (q + 1) <? _) eqn:E2; bool_to_Prop; [lia|].
    rewrite orb_false_r, (andb_comm (o <=? k)).
    replace (o + Z.min (8 - m) sb) with (o + sb) by lia. done.
Qed.

Lemma decode_put_decoded src dest N o sym dest' o' :
  decoded src dest o -> sym_carries src N o sym ->
  N = 8 * Z.of_nat (length src) -> 0 <= o < N ->
  decode_put dest N o sym = (dest', o') ->
  o' = Z.min (o + 5) N /\ decoded src dest' o'.
Proof.
  intros Hd Hc HN Ho Hput.
  pose proof (fun k Hk => decode_put_bit src dest N o sym dest' o' k Hd Hc HN Ho Hk Hput)
    as H.
  destruct (H 0 ltac:(lia)) as (Ho' & Hl & _). split; [done|].
  pose proof (Z.div_mod o 8 ltac:(lia)). pose proof (Z.mod_pos_bound o 8 ltac:(lia)).
  destruct Hd as [Hlen Hbits Htail]. constructor; [congruence|intros k Hk..].
  - destruct (H k ltac:(lia)) as (_ & _ & ->).
    pose proof (Z.div_mod k 8 ltac:(lia)). pose proof (Z.mod_pos_bound k 8 ltac:(lia)).
    destruct (o <=? k) eqn:E1; bool_to_Prop; cbn [andb]; [|by apply Hbits; lia].
    rewrite Z.gtb_ltb.
    destruct (k / 8 =? o / 8) eqn:E2, (8 * (o / 8 + 1) <? o') eqn:E3,
      (k / 8 =? o / 8 + 1) eqn:E4, (k <? o') eqn:E5; bool_to_Prop; try lia; done.
  - intros Hq Hmod. destruct (H k ltac:(lia)) as (_ & _ & ->).
    pose proof (Z.div_mod k 8 ltac:(lia)). pose proof (Z.mod_pos_bound k 8 ltac:(lia)).
    pose proof (Z.div_mod o' 8 ltac:(lia)). pose proof (Z.mod_pos_bound o' 8 ltac:(lia)).
    rewrite Z.gtb_ltb.
    destruct (o <=? k) eqn:E1, (k / 8 =? o / 8) eqn:E2, (8 * (o / 8 + 1) <? o') eqn:E3,
      (k / 8 =? o / 8 + 1) eqn:E4, (k <? o') eqn:E5; bool_to_Prop; try lia; done.
Qed.

(** A fully decoded destination is the source. *)
Lemma decoded_eq src dest :
  bytes src -> bytes dest -> decoded src dest (8 * Z.of_nat (length src)) -> dest = src.
Proof.
  intros Hs Hd [Hlen Hbits _]. apply (list_eq_same_length _ _ (length src)); [done..|].
  intros i x y Hi Hx Hy.
  assert (Hat : forall l (z : Z), l !! i = Some z -> at_ l (Z.of_nat i) = z).
  { intros l z Hz. unfold at_. rewrite Nat2Z.id. by apply nth_lookup_Some. }
  rewrite <- (Hat _ _ Hx), <- (Hat _ _ Hy). apply Z.bits_inj'. intros t Ht.
  destruct (Z_lt_le_dec t 8).
  - specialize (Hbits (8 * Z.of_nat i + (7 - t)) ltac:(lia)).
    unfold bit_at in Hbits.
    assert ((8 * Z.of_nat i + (7 - t)) / 8 = Z.of_nat i) as Hq by (apply div8_eq; lia).
    pose proof (Z.div_mod (8 * Z.of_nat i + (7 - t)) 8 ltac:(lia)) as Hdm.
    rewrite Hq in Hbits, Hdm. replace ((8 * Z.of_nat i + (7 - t)) mod 8) with (7 - t) in Hbits by lia.
    by replace (7 - (7 - t)) with t in Hbits by lia.
  - rewrite !(testbit_small _ 8) by (by apply at_byte || lia). done.
Qed.

Lemma bytes_decode_put dest N o sym : bytes dest -> bytes (decode_put dest N o sym).1.
Proof.
  intros. unfold decode_put. cbn zeta.
  assert (is_byte 0) by (unfold is_byte; lia).
  repeat split_if; cbn [fst]; repeat apply bytes_set_at; auto using u8_byte.
Qed.

(** ** Round trip *)

(** Symbols still to be produced from bit [i]. *)
Definition nsyms (N i : Z) : Z := Z.max 0 ((N - i + 4) / 5).

Lemma nsyms_nonneg N i : 0 <= nsyms N i.
Proof. apply Z.le_max_l. Qed.

Lemma nsyms_step N i : i < N -> nsyms N i = 1 + nsyms N (i + 5).
Proof.
  intros. unfold nsyms.
  replace (N - i + 4) with (N - (i + 5) + 4 + 1 * 5) by lia.
  rewrite Z.div_add by lia. pose proof (Z.div_mod (N - (i + 5) + 4) 5).
  pose proof (Z.mod_pos_bound (N - (i + 5) + 4) 5). lia.
Qed.

Lemma nsyms_done N i : N <= i -> nsyms N i = 0.
Proof.
  intros. unfold nsyms. pose proof (Z.div_mod (N - i + 4) 5).
  pose proof (Z.mod_pos_bound (N - i + 4) 5). lia.
Qed.

Lemma encode_loop_app fuel src N add : forall i crc count dest,
  encode_loop fuel src N add i crc count dest =
  dest ++ encode_loop fuel src N add i crc count [].
Proof.
  induction fuel as [|fuel IH]; intros; cbn [encode_loop]; [by rewrite app_nil_r|].
  cbn zeta. repeat split_if; try (by rewrite app_nil_r);
    (rewrite IH; symmetry; rewrite IH; by rewrite <- !app_assoc).
Qed.

(** The state of the two loops in step: bit [i], CRC and position in the group. *)
Record in_step (src dest : list Z) (N add i crc count : Z) : Prop := {
  is_bytes : bytes dest;
  is_pos : 0 <= i;
  is_dec : decoded src dest (Z.min i N);
  is_crc : is_sym crc;
  is_group : add = 0 \/
             0 < add /\ 0 <= count < add /\ (count + nsyms N i) mod add = 0
}.

Lemma encode_sym_carries src N i :
  bytes src -> N = 8 * Z.of_nat (length src) -> 0 <= i < N ->
  sym_carries src N i (encode_sym src N i).
Proof.
  intros. split; [apply encode_sym_range; lia|]. intros. by apply encode_sym_bit.
Qed.

Lemma mod_group count r add :
  0 < add -> count + 1 = add -> (count + (1 + r)) mod add = 0 -> (0 + r) mod add = 0.
Proof.
  intros Ha Hc H. etrans; [|exact H]. rewrite <- (Z.mod_add (0 + r) 1 add) by lia.
  f_equal. lia.
Qed.

Lemma roundtrip_loop src N add :
  bytes src -> N = 8 * Z.of_nat (length src) ->
  forall fuel i crc count dest,
  in_step src dest N add i crc count -> nsyms N i <= Z.of_nat fuel ->
  exists dest', decode_loop (encode_loop fuel src N add i crc count []) dest N add
                  crc count (Z.min i N) = (N, dest') /\
                decoded src dest' N /\ bytes dest'.
Proof.
  intros Hsrc HN. induction fuel as [|fuel IH]; intros i crc count dest Hst Hfuel;
    destruct (Z_lt_le_dec i N) as [Hlt|Hge].
  1: { rewrite nsyms_step in Hfuel by done. unfold nsyms in Hfuel. lia. }
  1, 3: destruct Hst as [Hb Hi Hd Hc Hg]; cbn [encode_loop];
    rewrite ?(proj2 (Z.ltb_ge i N)) by done; rewrite Z.min_r in * by lia;
    exists dest; split; [|done]; cbn [decode_loop]; unfold decode_end; f_equal;
    destruct Hg as [->|(Ha & Hcnt & Hmod)]; [done|];
    rewrite nsyms_done, Z.add_0_r, Z.mod_small in Hmod by lia; subst count;
    by rewrite andb_false_r.
  pose proof Hst as [Hb Hi Hd Hc Hg].
  pose proof (encode_sym_carries src N i Hsrc HN ltac:(lia)) as Hsc.
  pose proof (proj1 Hsc) as Hsym.
  cbn [encode_loop]. rewrite (proj2 (Z.ltb_lt i N)) by done. cbn zeta.
  rewrite Z.min_l in Hd |- * by lia. fold (sym_char (encode_sym src N i)).
  assert (Hout : (i >=? N) = false) by (rewrite Z.geb_leb; apply Z.leb_gt; lia).
  destruct (decode_put dest N i (encode_sym src N i)) as [d1 o1] eqn:Hput.
  pose proof (decode_put_decoded _ _ _ _ _ _ _ Hd Hsc HN ltac:(lia) Hput) as [Ho1 Hd1].
  pose proof (bytes_decode_put dest N i (encode_sym src N i) Hb) as Hb1.
  rewrite Hput in Hb1. cbn [fst] in Hb1. subst o1.
  rewrite (nsyms_step N i) in Hfuel, Hg by done.
  pose proof (crc5_sym_range _ _ Hsym Hc) as Hcrc.
  destruct Hg as [->|(Ha & Hcnt & Hmod)].
  { change (nz 0) with false. cbn [app]. rewrite encode_loop_app. cbn [app].
    rewrite decode_loop_sym by done. change (nz 0) with false. cbn [andb]. cbn zeta.
    rewrite Hout, Hput. apply IH; [|lia]. constructor; auto; lia. }
  rewrite (nz_pos add) by done. cbn [app].
  destruct (count + 1 =? add) eqn:Eg; bool_to_Prop.
  - rewrite encode_loop_app. cbn [app]. fold (sym_char (crc5_sym (encode_sym src N i) crc)).
    rewrite decode_loop_sym by done. rewrite (nz_pos add) by done.
    rewrite (proj2 (Z.eqb_neq count add)) by lia. cbn [andb]. cbn zeta. rewrite Hout, Hput.
    rewrite decode_loop_sym by done. rewrite (nz_pos add), (proj2 (Z.eqb_eq (count + 1) add)),
      Z.eqb_refl by done. cbn [andb negb].
    apply IH; [|lia]. constructor; auto; [lia|unfold is_sym; lia|].
    right. split; [done|]. split; [lia|]. by eapply mod_group.
  - rewrite encode_loop_app. cbn [app].
    rewrite decode_loop_sym by done. rewrite (nz_pos add) by done.
    rewrite (proj2 (Z.eqb_neq count add)) by lia. cbn [andb]. cbn zeta. rewrite Hout, Hput.
    apply IH; [|lia]. constructor; auto; [lia|].
    right. split; [done|]. split; [lia|]. rewrite <- Hmod. f_equal. lia.
Qed.

Lemma quot5_nsyms N : 0 <= N -> Z.quot (N + 4) 5 = nsyms N 0.
Proof.
  intros. unfold nsyms. rewrite Z.sub_0_r, Z.quot_div_nonneg by lia.
  pose proof (Z.div_pos (N + 4) 5). lia.
Qed.

Lemma nsyms_le N : 0 <= N -> nsyms N 0 <= N.
Proof.
  intros. unfold nsyms. rewrite Z.sub_0_r. pose proof (Z.div_mod (N + 4) 5).
  pose proof (Z.mod_pos_bound (N + 4) 5). lia.
Qed.

(** The group size of an accepted request. *)
Definition whole_groups (N add : Z) : Prop :=
  add = 0 \/ 0 < add /\ nsyms N 0 mod add = 0.

Lemma whole_groups_check N add :
  0 <= N -> whole_groups N add ->
  nz add && nz (Z.rem (Z.quot (N + 4) 5) add) = false.
Proof.
  intros HN [->|[Ha Hm]]; [done|]. rewrite nz_pos, quot5_nsyms by done. cbn [andb].
  apply nz_false. rewrite Z.rem_mod_nonneg by (done || apply nsyms_nonneg). done.
Qed.

(** The number of characters an encoding takes, without the terminating NUL. *)
Definition encoded_chars (N add : Z) : Z :=
  nsyms N 0 + (if nz add then nsyms N 0 / add else 0).

Lemma base32_encode_ok src destlen add :
  whole_groups (8 * Z.of_nat (length src)) add ->
  encoded_chars (8 * Z.of_nat (length src)) add < destlen ->
  base32_encode destlen src (8 * Z.of_nat (length src)) add =
  (EC.SUCCESS, encode_loop (Z.to_nat (8 * Z.of_nat (length src))) src
     (8 * Z.of_nat (length src)) add 0 0 0 []).
Proof.
  set (N := 8 * Z.of_nat (length src)). intros Hg Hlen. unfold base32_encode.
  rewrite whole_groups_check by (done || lia). rewrite quot5_nsyms by lia. cbn zeta.
  match goal with |- context [if ?b then _ else _] => assert (b = false) as -> end; [|done].
  apply Z.ltb_ge. unfold encoded_chars in Hlen.
  destruct Hg as [->|[Ha Hm]]; [cbn in *; lia|].
  rewrite (nz_pos add) in * by done.
  rewrite Z.quot_div_nonneg by (done || apply nsyms_nonneg). lia.
Qed.

(** C28. Encoding any byte string and decoding the result into a buffer of the same
    size gives the string back and reports all of its bits, with or without CRC
    groups, whatever the buffer held before. *)
Theorem base32_roundtrip src dest destlen add :
  bytes src -> bytes dest -> length dest = length src ->
  whole_groups (8 * Z.of_nat (length src)) add ->
  encoded_chars (8 * Z.of_nat (length src)) add < destlen ->
  let N := 8 * Z.of_nat (length src) in
  exists s, base32_encode destlen src N add = (EC.SUCCESS, s) /\
            base32_decode dest N s add = (N, src).
Proof.
  intros Hsrc Hdest Hlen Hg Hfit N. eexists. split; [by apply base32_encode_ok|].
  destruct (roundtrip_loop src N add Hsrc eq_refl (Z.to_nat N) 0 0 0 dest)
    as (d & Heq & Hd & Hb).
  - constructor; [done|done| |unfold is_sym; lia|].
    + rewrite Z.min_l by lia. constructor; [done|lia|]. intros k _ _ Hm. by destruct Hm.
    + destruct Hg as [Hg|[Ha Hm]]; [by left|right]. repeat split; (done || lia).
  - pose proof (nsyms_le N). lia.
  - rewrite Z.min_l in Heq by lia. unfold base32_decode. fold N. rewrite Heq. f_equal.
    by apply decoded_eq.
Qed.

Example base32_roundtrip_witness :
  exists s, base32_encode 11 [1; 2; 3; 250; 7] 40 4 = (EC.SUCCESS, s) /\
            base32_decode [9; 9; 9; 9; 9] 40 s 4 = (40, [1; 2; 3; 250; 7]).
Proof.
  apply (base32_roundtrip [1; 2; 3; 250; 7] [9; 9; 9; 9; 9] 11 4).
  - repeat constructor; done.
  - repeat constructor; done.
  - done.
  - right. split; [lia|vm_compute; done].
  - vm_compute. done.
Defined.

(** C39. In a string that is one group with its CRC symbol at the end, replacing any one symbol
    (the CRC symbol included) by another, or exchanging two different adjacent data symbols,
    makes the decoder fail. *)
Theorem base32_detects_errors l l' dest destlen :
  Forall is_sym l -> l <> [] ->
  (exists k s', (k <= length l)%nat /\ is_sym s' /\
     (l ++ [crc_from 0 l]) !! k <> Some s' /\
     l' = <[k := s']> (l ++ [crc_from 0 l])) \/
  (exists l1 a b l2, l = l1 ++ a :: b :: l2 /\ a <> b /\
     l' = l1 ++ b :: a :: l2 ++ [crc_from 0 l]) ->
  (base32_decode dest destlen (map sym_char l') (Z.of_nat (length l))).1 = -1.
Proof.
  intros Hl Hne Hcase.
  assert (H0 : is_sym 0) by (unfold is_sym; lia).
  pose proof (crc_from_range l 0 Hl H0) as Hc.
  destruct Hcase as [(k & s' & Hk & Hs' & Hdiff & ->)|(l1 & a & b & l2 & -> & Hab & ->)].
  - destruct (decide (k < length l)%nat) as [Hlt|].
    + destruct (lookup_lt_is_Some_2 l k Hlt) as [s Hs].
      rewrite lookup_app_l, Hs in Hdiff by done.
      rewrite insert_app_l by done.
      rewrite <- (length_insert l k s'). rewrite insert_take_drop by done.
      rewrite <- (take_drop_middle l k s Hs) in Hl.
      apply decode_bad_group; [|done|by destruct (take k l)|].
      * apply Forall_app in Hl as [Hl1 Hl2]. apply Forall_cons_iff in Hl2 as [_ Hl2].
        apply Forall_app. split; [done|]. by constructor.
      * rewrite <- (take_drop_middle l k s Hs) at 3.
        apply crc_from_subst; [done..|congruence].
    + assert (k = length l) as -> by lia.
      rewrite lookup_app_r, Nat.sub_diag in Hdiff by done. cbn in Hdiff.
      rewrite insert_app_r_alt, Nat.sub_diag by done. cbn.
      apply decode_bad_group; [done..|congruence].
  - assert (length (l1 ++ a :: b :: l2) = length (l1 ++ b :: a :: l2)) as ->
      by (rewrite !length_app; done).
    change (b :: a :: l2 ++ ?x) with ((b :: a :: l2) ++ x). rewrite app_assoc.
    apply decode_bad_group; [|done|by destruct l1|by apply crc_from_swap].
    apply Forall_app in Hl as [Hl1 Hl2].
    apply Forall_cons_iff in Hl2 as [Ha Hl2]. apply Forall_cons_iff in Hl2 as [Hb Hl2].
    apply Forall_app. split; [done|]. by apply Forall_cons_2; [|apply Forall_cons_2].
Qed.

Example base32_detects_errors_witness :
  (base32_decode [0; 0; 0; 0; 0] 40 (map sym_char [3; 9; 7; crc_from 0 [3; 5; 7]]) 3).1 = -1.
Proof.
  apply (base32_detects_errors [3; 5; 7] [3; 9; 7; crc_from 0 [3; 5; 7]]).
  - repeat constructor; unfold is_sym; lia.
  - done.
  - left. exists 1%nat, 9. split; [cbn; lia|]. split; [unfold is_sym; lia|].
    split; [done|reflexivity].
Defined.
