(* ===== verification/Queue.v ===== *)
(** * Ring buffers of fixed-size units (common/queue.c, include/queue.h)

    A queue keeps two free-running 32-bit counters, [head] and [tail]; only their
    values modulo the (power of two) size index the buffer.  The calls of the
    queue's policy, which the code notifies of every transfer, are recorded in
    [notified]. *)

From S2P Require Import Prelude.

Inductive notification := PolicyAdd (count : Z) | PolicyRemove (count : Z).

Record queue := mkQueue {
  head : Z;
  tail : Z;
  buffer_units : Z;
  buffer_units_mask : Z;
  unit_bytes : Z;
  buffer : list Z;
  notified : list notification
}.

Definition set_head (q : queue) (h : Z) : queue :=
  mkQueue h (tail q) (buffer_units q) (buffer_units_mask q) (unit_bytes q)
    (buffer q) (notified q).
Definition set_tail (q : queue) (t : Z) : queue :=
  mkQueue (head q) t (buffer_units q) (buffer_units_mask q) (unit_bytes q)
    (buffer q) (notified q).
Definition set_buffer (q : queue) (b : list Z) : queue :=
  mkQueue (head q) (tail q) (buffer_units q) (buffer_units_mask q) (unit_bytes q)
    b (notified q).
Definition notify (q : queue) (n : notification) : queue :=
  mkQueue (head q) (tail q) (buffer_units q) (buffer_units_mask q) (unit_bytes q)
    (buffer q) (notified q ++ [n]).

(** The [QUEUE] initialiser: [size] units of [bytes] bytes, all zero. *)
Definition QUEUE (size ubytes : Z) : queue :=
  mkQueue 0 0 size (size - 1) ubytes (zeros (Z.to_nat (size * ubytes))) [].

Definition POWER_OF_TWO (x : Z) : bool := nz x && (Z.land x (x - 1) =? 0).

(** [None] is a failed assertion. *)
Definition queue_init (q : queue) : option queue :=
  if POWER_OF_TWO (buffer_units q) then Some (set_tail (set_head q 0) 0) else None.

Definition queue_is_empty (q : queue) : bool := head q =? tail q.

Definition queue_count (q : queue) : Z := u32 (tail q - head q).

Definition queue_space (q : queue) : Z := u32 (buffer_units q - queue_count q).

Definition queue_is_full (q : queue) : bool := queue_space q =? 0.

(** A chunk is a contiguous byte range of the buffer. *)
Record queue_chunk := { chunk_start : Z; chunk_length : Z }.

Definition queue_get_write_chunk (q : queue) : queue_chunk :=
  let head := Z.land (head q) (buffer_units_mask q) in
  let tail := Z.land (tail q) (buffer_units_mask q) in
  let last := if queue_is_full q then tail
              else if tail <? head then head else buffer_units q in
  {| chunk_length := u32 ((last - tail) * unit_bytes q);
     chunk_start := tail * unit_bytes q |}.

Definition queue_get_read_chunk (q : queue) : queue_chunk :=
  let head := Z.land (head q) (buffer_units_mask q) in
  let tail := Z.land (tail q) (buffer_units_mask q) in
  let last := if queue_is_empty q then head
              else if head <? tail then tail else buffer_units q in
  {| chunk_length := u32 ((last - head) * unit_bytes q);
     chunk_start := head * unit_bytes q |}.

Definition queue_advance_head (q : queue) (count : Z) : Z * queue :=
  let transfer := Z.min count (queue_count q) in
  let q := set_head q (u32 (head q + transfer)) in
  (transfer, notify q (PolicyRemove transfer)).

Definition queue_advance_tail (q : queue) (count : Z) : Z * queue :=
  let transfer := Z.min count (queue_space q) in
  let q := set_tail q (u32 (tail q + transfer)) in
  (transfer, notify q (PolicyAdd transfer)).

(** A copy routine: the destination after [n] bytes of the source, given from its
    first byte on, were written at an offset of the destination. *)
Definition copier := list Z -> Z -> list Z -> Z -> list Z.

Definition memcpy : copier := fun dest off src n =>
  splice (Z.to_nat off) (take (Z.to_nat n) src) dest.

Definition queue_add_unit (q : queue) (src : list Z) : Z * queue :=
  let tail := Z.land (tail q) (buffer_units_mask q) in
  if queue_space q =? 0 then (0, q)
  else
    let q :=
      if unit_bytes q =? 1
      then set_buffer q (<[Z.to_nat tail := hd 0 src]> (buffer q))
      else set_buffer q (memcpy (buffer q) (tail * unit_bytes q) src (unit_bytes q)) in
    queue_advance_tail q 1.

Definition queue_add_memcpy (q : queue) (src : list Z) (count : Z) (memcpy : copier)
    : Z * queue :=
  let transfer := Z.min count (queue_space q) in
  let tail := Z.land (tail q) (buffer_units_mask q) in
  let first := Z.min transfer (buffer_units q - tail) in
  let q := set_buffer q (memcpy (buffer q) (u32 (tail * unit_bytes q)) src
                           (u32 (first * unit_bytes q))) in
  let q :=
    if first <? transfer
    then set_buffer q (memcpy (buffer q) 0
                         (drop (Z.to_nat (u32 (first * unit_bytes q))) src)
                         (u32 ((transfer - first) * unit_bytes q)))
    else q in
  queue_advance_tail q transfer.

Definition queue_add_units (q : queue) (src : list Z) (count : Z) : Z * queue :=
  queue_add_memcpy q src count memcpy.

(** The destination buffer after the read. *)
Definition queue_read_safe (q : queue) (dest : list Z) (head transfer : Z)
    (memcpy : copier) : list Z :=
  let first := Z.min transfer (buffer_units q - head) in
  let dest := memcpy dest 0 (drop (Z.to_nat (u32 (head * unit_bytes q))) (buffer q))
                (u32 (first * unit_bytes q)) in
  if first <? transfer
  then memcpy dest (u32 (first * unit_bytes q)) (buffer q)
         (u32 ((transfer - first) * unit_bytes q))
  else dest.

Definition queue_remove_unit (q : queue) (dest : list Z) : Z * list Z * queue :=
  let head := Z.land (head q) (buffer_units_mask q) in
  if queue_count q =? 0 then (0, dest, q)
  else
    let dest :=
      if unit_bytes q =? 1 then <[0%nat := at_ (buffer q) head]> dest
      else memcpy dest 0 (drop (Z.to_nat (head * unit_bytes q)) (buffer q))
             (unit_bytes q) in
    let '(n, q) := queue_advance_head q 1 in (n, dest, q).

Definition queue_remove_memcpy (q : queue) (dest : list Z) (count : Z)
    (memcpy : copier) : Z * list Z * queue :=
  let transfer := Z.min count (queue_count q) in
  let head := Z.land (head q) (buffer_units_mask q) in
  let dest := queue_read_safe q dest head transfer memcpy in
  let '(n, q) := queue_advance_head q transfer in (n, dest, q).

Definition queue_remove_units (q : queue) (dest : list Z) (count : Z) :=
  queue_remove_memcpy q dest count memcpy.

Definition queue_peek_memcpy (q : queue) (dest : list Z) (i count : Z)
    (memcpy : copier) : Z * list Z :=
  let available := queue_count q in
  let transfer := Z.min count (u32 (available - i)) in
  if i <? available
  then let head := Z.land (u32 (head q + i)) (buffer_units_mask q) in
       (transfer, queue_read_safe q dest head transfer memcpy)
  else (transfer, dest).

Definition queue_peek_units (q : queue) (dest : list Z) (i count : Z) : Z * list Z :=
  queue_peek_memcpy q dest i count memcpy.

(** ** The abstract queue: the sequence of the units it holds *)

(** The [n] units of a byte buffer, each of [ub] bytes. *)
Definition units_of (ub n : nat) (l : list Z) : list (list Z) :=
  map (fun k => sub (k * ub) ub l) (seq 0 n).

(** Counter value [j] selects this slot of the buffer. *)
Definition slot (q : queue) (j : Z) : nat := Z.to_nat (j mod buffer_units q).

Definition ub (q : queue) : nat := Z.to_nat (unit_bytes q).

Definition cell (q : queue) (j : Z) : list Z := sub (slot q j * ub q) (ub q) (buffer q).

Definition contents (q : queue) : list (list Z) :=
  map (fun k => cell q (head q + Z.of_nat k)) (seq 0 (Z.to_nat (queue_count q))).

(** What the [QUEUE] initialiser establishes and every operation keeps. *)
Record queue_wf (q : queue) : Prop := {
  wf_pow : exists k, 0 <= k < 32 /\ buffer_units q = 2 ^ k;
  wf_mask : buffer_units_mask q = buffer_units q - 1;
  wf_unit : 0 < unit_bytes q;
  wf_size : buffer_units q * unit_bytes q < 2 ^ 32;
  wf_len : length (buffer q) = Z.to_nat (buffer_units q * unit_bytes q);
  wf_head : 0 <= head q < 2 ^ 32;
  wf_tail : 0 <= tail q < 2 ^ 32;
  wf_count : queue_count q <= buffer_units q
}.

(** *** Units inside spliced buffers *)

Lemma sub_splice_inside {A} off i n (new l : list A) :
  (off <= length l)%nat -> (i + n <= length new)%nat ->
  sub (off + i) n (splice off new l) = sub i n new.
Proof.
  intros Hl Hn. unfold sub, splice.
  rewrite drop_app_ge by (rewrite length_take; lia).
  rewrite length_take, Nat.min_l by lia.
  replace (off + i - off)%nat with i by lia.
  rewrite drop_app_le by lia. rewrite take_app_le by (rewrite length_drop; lia). done.
Qed.

Lemma unit_splice_in u t s m (src b : list Z) :
  (t <= s < t + m)%nat -> length src = (m * u)%nat -> ((t + m) * u <= length b)%nat ->
  sub (s * u) u (splice (t * u) src b) = sub ((s - t) * u) u src.
Proof.
  intros. replace (s * u)%nat with (t * u + (s - t) * u)%nat by nia.
  apply sub_splice_inside; nia.
Qed.

Lemma unit_splice_out u t s m (src b : list Z) :
  (s < t \/ t + m <= s)%nat -> length src = (m * u)%nat ->
  ((t + m) * u <= length b)%nat ->
  sub (s * u) u (splice (t * u) src b) = sub (s * u) u b.
Proof. intros. apply sub_splice_other; [nia|]. destruct H; [left|right]; nia. Qed.

Lemma sub_take {A} off n m (l : list A) :
  (off + n <= m)%nat -> sub off n (take m l) = sub off n l.
Proof. intros. unfold sub. 
  apply list_eq. intros i. destruct (decide (i < n)%nat).
  - rewrite !lookup_take_lt, !lookup_drop, lookup_take_lt by lia. done.
  - rewrite !lookup_take_ge by lia. done.
Qed.

Lemma sub_drop {A} off n m (l : list A) : sub off n (drop m l) = sub (m + off) n l.
Proof. unfold sub. by rewrite drop_drop. Qed.

Lemma length_units_of u n l : length (units_of u n l) = n.
Proof. unfold units_of. by rewrite length_map, length_seq. Qed.

(** [n] consecutive units of a buffer, concatenated, are a slice of it. *)
Lemma concat_units u s n (b : list Z) :
  ((s + n) * u <= length b)%nat ->
  concat (map (fun k => sub (k * u) u b) (seq s n)) = sub (s * u) (n * u) b.
Proof.
  revert s; induction n as [|n IH]; intros s Hb; [done|].
  cbn [seq map concat]. rewrite IH by nia. unfold sub.
  change (S n * u)%nat with (u + n * u)%nat. rewrite <- take_take_drop.
  rewrite drop_drop. do 3 f_equal. nia.
Qed.

Section Wf.
Context (q : queue) (Hq : queue_wf q).

Lemma bu_pos : 0 < buffer_units q < 2 ^ 32.
Proof.
  destruct (wf_pow q Hq) as (k & Hk & ->).
  split; [apply Z.pow_pos_nonneg; lia|apply Z.pow_lt_mono_r; lia].
Qed.

Lemma mod_bu_u32 x : u32 x mod buffer_units q = x mod buffer_units q.
Proof.
  destruct (wf_pow q Hq) as (k & Hk & ->). unfold uN.
  apply Z.mod_mod_divide. exists (2 ^ (32 - k)).
  rewrite <- Z.pow_add_r by lia. f_equal. lia.
Qed.

Lemma land_mask x : Z.land x (buffer_units_mask q) = x mod buffer_units q.
Proof.
  destruct (wf_pow q Hq) as (k & Hk & Hp). rewrite (wf_mask q Hq), Hp.
  replace (2 ^ k - 1) with (Z.ones k) by (rewrite Z.ones_equiv; lia).
  apply Z.land_ones. lia.
Qed.

Lemma count_range : 0 <= queue_count q <= buffer_units q.
Proof. split; [apply uN_range; lia|apply Hq]. Qed.

Lemma space_eq : queue_space q = buffer_units q - queue_count q.
Proof. pose proof count_range. pose proof bu_pos. apply uN_small. lia. Qed.

Lemma slot_lt j : (slot q j < Z.to_nat (buffer_units q))%nat.
Proof.
  pose proof bu_pos. pose proof (Z.mod_pos_bound j (buffer_units q)). unfold slot. lia.
Qed.

Lemma slot_mod i j : i mod buffer_units q = j mod buffer_units q -> slot q i = slot q j.
Proof. unfold slot. by intros ->. Qed.

Lemma slot_u32 j : slot q (u32 j) = slot q j.
Proof. apply slot_mod, mod_bu_u32. Qed.

Lemma tail_slot k : slot q (tail q + k) = slot q (head q + (queue_count q + k)).
Proof.
  apply slot_mod. unfold queue_count.
  rewrite <- (Zplus_mod_idemp_r (_ + k)), <- (Zplus_mod_idemp_l (u32 _)), mod_bu_u32.
  rewrite Zplus_mod_idemp_l, Zplus_mod_idemp_r. f_equal. lia.
Qed.

Lemma slot_inj h i j :
  0 <= i -> i < j -> j < i + buffer_units q -> slot q (h + i) <> slot q (h + j).
Proof.
  intros Hi Hij Hj. pose proof bu_pos as Hb. unfold slot.
  pose proof (Z.mod_pos_bound (h + i) (buffer_units q)).
  pose proof (Z.mod_pos_bound (h + j) (buffer_units q)).
  intros E. assert (E' : (h + i) mod buffer_units q = (h + j) mod buffer_units q) by lia.
  assert (((h + j) - (h + i)) mod buffer_units q = 0) as Hz.
  { rewrite Zminus_mod, E', Z.sub_diag. done. }
  rewrite Z.mod_small in Hz by lia. lia.
Qed.

Lemma off_nat a :
  0 <= a <= buffer_units q -> Z.to_nat (u32 (a * unit_bytes q)) = (Z.to_nat a * ub q)%nat.
Proof.
  intros. pose proof (wf_unit q Hq). pose proof (wf_size q Hq). unfold ub.
  rewrite uN_small by nia. apply Z2Nat.inj_mul; lia.
Qed.

Lemma buffer_len : length (buffer q) = (Z.to_nat (buffer_units q) * ub q)%nat.
Proof.
  pose proof bu_pos. pose proof (wf_unit q Hq). rewrite (wf_len q Hq).
  apply Z2Nat.inj_mul; lia.
Qed.

Lemma ub_pos : (0 < ub q)%nat.
Proof. pose proof (wf_unit q Hq). unfold ub. lia. Qed.

Lemma length_cell j : length (cell q j) = ub q.
Proof.
  unfold cell. apply length_sub. rewrite buffer_len. pose proof (slot_lt j). nia.
Qed.

Lemma length_contents : length (contents q) = Z.to_nat (queue_count q).
Proof. unfold contents. by rewrite length_map, length_seq. Qed.
End Wf.

(** *** Copies that wrap around the end of the buffer *)

(** Slot [T] advanced by [k] units, in a buffer of [B] units. *)
Definition wrap (B T k : nat) : nat := if Nat.ltb (T + k) B then T + k else T + k - B.

Definition wrap_write (u B T N : nat) (src b : list Z) : list Z :=
  let F := Nat.min N (B - T) in
  let b := splice (T * u) (take (F * u) src) b in
  if Nat.ltb F N then splice 0 (take ((N - F) * u) (drop (F * u) src)) b else b.

Definition wrap_read (u B H N : nat) (b : list Z) : list Z :=
  let F := Nat.min N (B - H) in
  sub (H * u) (F * u) b ++ sub 0 ((N - F) * u) b.

Lemma map_seq_shift {A} (f : nat -> A) s n :
  map f (seq s n) = map (fun k => f (s + k)%nat) (seq 0 n).
Proof.
  revert s; induction n as [|n IH]; intros s; [done|]. cbn [seq map].
  rewrite Nat.add_0_r. f_equal. rewrite (IH (S s)), <- seq_shift, map_map.
  apply map_ext. intros k. f_equal. lia.
Qed.

Section Wrap.
Context (u B T N : nat) (src b : list Z).
Context (HT : (T < B)%nat) (HN : (N <= B)%nat).
Context (Hsrc : (N * u <= length src)%nat) (Hb : length b = (B * u)%nat).

Let F := Nat.min N (B - T).

Lemma length_wrap_write : length (wrap_write u B T N src b) = length b.
Proof.
  assert (length (splice (T * u) (take (F * u) src) b) = length b) as H1.
  { apply length_splice. rewrite length_take, Hb. nia. }
  unfold wrap_write. fold F. destruct (Nat.ltb F N); [|done].
  rewrite length_splice; [done|]. rewrite H1, length_take, length_drop, Hb. nia.
Qed.

Lemma wrap_write_in k :
  (k < N)%nat -> sub (wrap B T k * u) u (wrap_write u B T N src b) = sub (k * u) u src.
Proof.
  intros Hk.
  assert (length (take (F * u) src) = (F * u)%nat) as HF by (rewrite length_take; nia).
  unfold wrap, wrap_write. fold F.
  destruct (Nat.ltb_spec (T + k) B) as [E|E]; destruct (Nat.ltb_spec F N) as [E2|E2].
  - change 0%nat with (0 * u)%nat. rewrite (unit_splice_out _ _ _ (N - F)).
    + rewrite (unit_splice_in _ _ _ F) by (done || nia).
      rewrite sub_take by nia. do 2 f_equal. nia.
    + unfold F. lia.
    + rewrite length_take, length_drop. nia.
    + rewrite length_splice; rewrite ?HF; nia.
  - rewrite (unit_splice_in _ _ _ F) by (done || nia).
    rewrite sub_take by nia. do 2 f_equal. nia.
  - change 0%nat with (0 * u)%nat. rewrite (unit_splice_in _ _ _ (N - F)).
    + rewrite sub_take by nia. rewrite sub_drop. f_equal. nia.
    + unfold F. lia.
    + rewrite length_take, length_drop. nia.
    + rewrite length_splice; rewrite ?HF; nia.
  - unfold F in E2. lia.
Qed.

Lemma wrap_write_out s :
  (s < B)%nat -> (forall k, (k < N)%nat -> s <> wrap B T k) ->
  sub (s * u) u (wrap_write u B T N src b) = sub (s * u) u b.
Proof.
  intros Hs Hk.
  assert (length (take (F * u) src) = (F * u)%nat) as HF by (rewrite length_take; nia).
  assert (s < T \/ T + F <= s)%nat as Hout.
  { destruct (decide (s < T)%nat); [auto|]. right.
    destruct (decide (T + F <= s)%nat); [done|]. exfalso.
    apply (Hk (s - T)%nat); [lia|]. unfold wrap.
    destruct (Nat.ltb_spec (T + (s - T)) B); lia. }
  unfold wrap_write. fold F. destruct (Nat.ltb_spec F N) as [E2|E2].
  - change 0%nat with (0 * u)%nat. rewrite (unit_splice_out _ _ _ (N - F)).
    + by apply (unit_splice_out _ _ _ F); [|by rewrite HF|nia].
    + right. destruct (decide (N - F <= s)%nat); [done|]. exfalso.
      apply (Hk (B - T + s)%nat); [unfold F in *; lia|]. unfold wrap.
      destruct (Nat.ltb_spec (T + (B - T + s)) B); lia.
    + rewrite length_take, length_drop. nia.
    + rewrite length_splice; rewrite ?HF; nia.
  - by apply (unit_splice_out _ _ _ F); [|by rewrite HF|nia].
Qed.

(** Reading back the units of the slots from [T] on. *)
Lemma wrap_read_units :
  wrap_read u B T N b = concat (map (fun k => sub (wrap B T k * u) u b) (seq 0 N)).
Proof.
  clear Hsrc src. unfold wrap_read. fold F.
  replace (seq 0 N) with (seq 0 F ++ seq (0 + F) (N - F))
    by (rewrite <- seq_app; f_equal; unfold F; lia).
  rewrite map_app, concat_app. f_equal.
  - rewrite <- concat_units by nia. rewrite (map_seq_shift _ T).
    apply (f_equal (@concat Z)), map_ext_in. intros k Hk%in_seq. unfold wrap.
    destruct (Nat.ltb_spec (T + k) B); [done|unfold F in *; lia].
  - rewrite (map_seq_shift _ (0 + F)).
    change (sub 0 ((N - F) * u) b) with (sub (0 * u) ((N - F) * u) b).
    rewrite <- concat_units by nia.
    apply (f_equal (@concat Z)), map_ext_in. intros k Hk%in_seq. unfold wrap.
    destruct (Nat.ltb_spec (T + (0 + F + k)) B); unfold F in *; [lia|].
    do 2 f_equal. lia.
Qed.
End Wrap.

Section Ops.
Context (q : queue) (Hq : queue_wf q).

Lemma slot_wrap j k :
  0 <= k < buffer_units q ->
  slot q (j + k) = wrap (Z.to_nat (buffer_units q)) (slot q j) (Z.to_nat k).
Proof.
  intros Hk. pose proof (Z.mod_pos_bound j (buffer_units q)) as Hj. unfold wrap, slot.
  rewrite <- Zplus_mod_idemp_l.
  destruct (Nat.ltb_spec (Z.to_nat (j mod buffer_units q) + Z.to_nat k)
              (Z.to_nat (buffer_units q))).
  - rewrite Z.mod_small by lia. lia.
  - replace (j mod buffer_units q + k)
      with ((j mod buffer_units q + k - buffer_units q) + 1 * buffer_units q) by lia.
    rewrite Z_mod_plus_full, Z.mod_small by lia. lia.
Qed.

(** The buffer written by [queue_add_memcpy]. *)
Lemma add_buffer src count :
  0 <= count ->
  let n := Z.min count (buffer_units q - queue_count q) in
  queue_add_units q src count =
  queue_advance_tail
    (set_buffer q (wrap_write (ub q) (Z.to_nat (buffer_units q)) (slot q (tail q))
                     (Z.to_nat n) src (buffer q))) n.
Proof.
  intros Hc n. pose proof (count_range q Hq). pose proof (bu_pos q Hq).
  pose proof (Z.mod_pos_bound (tail q) (buffer_units q)) as Ht.
  unfold queue_add_units, queue_add_memcpy. cbn zeta.
  rewrite space_eq, land_mask by done. fold n. unfold memcpy, wrap_write.
  assert (Z.to_nat (Z.min n (buffer_units q - tail q mod buffer_units q)) =
          Nat.min (Z.to_nat n) (Z.to_nat (buffer_units q) - slot q (tail q))) as HF
    by (unfold slot; lia).
  rewrite <- HF. set (first := Z.min n _) in *. cbn [buffer set_buffer unit_bytes].
  rewrite !off_nat by (done || lia).
  replace (Z.to_nat (n - first)) with (Z.to_nat n - Z.to_nat first)%nat by lia.
  replace (Z.to_nat 0) with 0%nat by lia. fold (slot q (tail q)).
  destruct (Z.ltb_spec first n), (Nat.ltb_spec (Z.to_nat first) (Z.to_nat n));
    (lia || done).
Qed.

Lemma wf_set_buffer b : length b = length (buffer q) -> queue_wf (set_buffer q b).
Proof. intros Hb. destruct Hq. split; try done. cbn. congruence. Qed.

Lemma wf_notify n : queue_wf (notify q n).
Proof. by destruct Hq. Qed.

Lemma count_set_tail n :
  0 <= n <= buffer_units q - queue_count q ->
  queue_count (set_tail q (u32 (tail q + n))) = queue_count q + n.
Proof.
  intros Hn. pose proof (count_range q Hq). pose proof (bu_pos q Hq).
  transitivity (u32 (queue_count q + n)); [|apply uN_small; lia].
  unfold queue_count, uN; cbn. rewrite Zminus_mod_idemp_l, Zplus_mod_idemp_l.
  f_equal. lia.
Qed.

Lemma wf_set_tail n :
  0 <= n <= buffer_units q - queue_count q -> queue_wf (set_tail q (u32 (tail q + n))).
Proof.
  intros Hn. destruct Hq. split; try done; cbn.
  - apply uN_range. lia.
  - rewrite count_set_tail by done. lia.
Qed.

Lemma count_set_head n :
  0 <= n <= queue_count q ->
  queue_count (set_head q (u32 (head q + n))) = queue_count q - n.
Proof.
  intros Hn. pose proof (count_range q Hq). pose proof (bu_pos q Hq).
  transitivity (u32 (queue_count q - n)); [|apply uN_small; lia].
  unfold queue_count, uN; cbn. rewrite Zminus_mod_idemp_l, Zminus_mod_idemp_r.
  f_equal. lia.
Qed.

Lemma wf_set_head n :
  0 <= n <= queue_count q -> queue_wf (set_head q (u32 (head q + n))).
Proof.
  intros Hn. pose proof (count_range q Hq). destruct Hq. split; try done; cbn.
  - apply uN_range. lia.
  - rewrite count_set_head by done. lia.
Qed.

(** Discarding [n] units. *)
Lemma contents_set_head n :
  0 <= n <= queue_count q ->
  contents (set_head q (u32 (head q + n))) = drop (Z.to_nat n) (contents q).
Proof.
  intros Hn. unfold contents. rewrite count_set_head by done.
  rewrite skipn_map, skipn_seq, Nat.add_0_l.
  replace (Z.to_nat (queue_count q - n)) with (Z.to_nat (queue_count q) - Z.to_nat n)%nat
    by lia.
  rewrite (map_seq_shift _ (Z.to_nat n)). apply map_ext. intros k.
  change (cell q (u32 (head q + n) + Z.of_nat k) =
          cell q (head q + Z.of_nat (Z.to_nat n + k))).
  unfold cell. do 2 f_equal. apply slot_mod.
  rewrite <- Zplus_mod_idemp_l, mod_bu_u32, Zplus_mod_idemp_l by done. f_equal. lia.
Qed.
End Ops.

(** Adding [n] units at the tail appends them to the contents. *)
Lemma contents_write q src n :
  queue_wf q -> 0 <= n <= buffer_units q - queue_count q ->
  (Z.to_nat n * ub q <= length src)%nat ->
  let b := wrap_write (ub q) (Z.to_nat (buffer_units q)) (slot q (tail q))
             (Z.to_nat n) src (buffer q) in
  contents (set_tail (set_buffer q b) (u32 (tail q + n))) =
  contents q ++ units_of (ub q) (Z.to_nat n) src.
Proof.
  intros Hq Hn Hsrc b. pose proof (count_range q Hq) as Hc. pose proof (bu_pos q Hq).
  pose proof (slot_lt q Hq) as Hslot. pose proof (buffer_len q Hq) as Hlen.
  assert (length b = length (buffer q)) as Hb by (apply length_wrap_write; auto; lia).
  pose proof (wf_set_buffer q Hq b Hb) as Hq1.
  unfold contents.
  change (tail q) with (tail (set_buffer q b)). rewrite count_set_tail by done.
  change (queue_count (set_buffer q b)) with (queue_count q).
  rewrite Z2Nat.inj_add by lia. rewrite seq_app, map_app, Nat.add_0_l. f_equal.
  - apply map_ext_in. intros k Hk%in_seq.
    apply (wrap_write_out _ _ _ (Z.to_nat n)); try (done || lia).
    intros k' Hk'. rewrite <- (Nat2Z.id k'), <- slot_wrap by (done || lia).
    rewrite tail_slot by done. apply slot_inj; (done || lia).
  - unfold units_of. rewrite map_seq_shift. apply map_ext_in. intros k Hk%in_seq.
    change (sub (slot q (head q + Z.of_nat (Z.to_nat (queue_count q) + k)) * ub q)
              (ub q) b = sub (k * ub q) (ub q) src).
    replace (Z.of_nat (Z.to_nat (queue_count q) + k)) with (queue_count q + Z.of_nat k)
      by lia.
    rewrite <- tail_slot, slot_wrap, Nat2Z.id by (done || lia).
    apply wrap_write_in; (done || lia).
Qed.

Lemma splice_app {A} (a b l : list A) off :
  length a = off ->
  splice off b (splice 0 a l) = splice 0 (a ++ b) l.
Proof.
  intros <-. unfold splice. rewrite !take_0, !app_nil_l, !Nat.add_0_l, length_app.
  rewrite take_app_length, drop_app_ge by lia. rewrite drop_drop, app_assoc.
  do 2 f_equal. lia.
Qed.

(** Reading [n] units from counter value [j] on. *)
Lemma read_safe_units q dest i n :
  queue_wf q -> 0 <= i -> 0 <= n -> i + n <= queue_count q ->
  queue_read_safe q dest ((head q + i) mod buffer_units q) n memcpy =
  splice 0 (concat (take (Z.to_nat n) (drop (Z.to_nat i) (contents q)))) dest.
Proof.
  intros Hq Hi Hn Hin. pose proof (count_range q Hq) as Hc. pose proof (bu_pos q Hq).
  pose proof (buffer_len q Hq) as Hlen. pose proof (ub_pos q Hq).
  pose proof (slot_lt q Hq (head q + i)) as Hslot.
  pose proof (Z.mod_pos_bound (head q + i) (buffer_units q)) as Hj.
  set (u := ub q) in *. set (B := Z.to_nat (buffer_units q)) in *.
  set (N := Z.to_nat n). set (hs := slot q (head q + i)) in *.
  transitivity (splice 0 (wrap_read u B hs N (buffer q)) dest).
  - unfold queue_read_safe, memcpy. rewrite !off_nat by (done || lia).
    fold u. fold (slot q (head q + i)). fold hs.
    assert (Z.to_nat (Z.min n (buffer_units q - (head q + i) mod buffer_units q)) =
            Nat.min N (B - hs)) as HF by (unfold N, B, hs, slot; lia).
    set (first := Z.min n _) in *. change (Z.to_nat 0) with 0%nat.
    replace (Z.to_nat (n - first)) with (N - Z.to_nat first)%nat by (unfold N; lia).
    rewrite HF. set (F := Nat.min N (B - hs)) in *. unfold wrap_read. fold F.
    destruct (Z.ltb_spec first n); fold (sub (hs * u) (F * u) (buffer q)).
    + rewrite splice_app; [done|]. rewrite length_sub; unfold F; nia.
    + replace (N - F)%nat with 0%nat by (unfold N; lia). by rewrite app_nil_r.
  - f_equal. rewrite wrap_read_units by (unfold N; (done || lia)). f_equal.
    unfold contents. rewrite skipn_map, skipn_seq, firstn_map, take_seq, Nat.add_0_l.
    rewrite Nat.min_l by (unfold N; lia). rewrite (map_seq_shift _ (Z.to_nat i)).
    apply map_ext_in. intros k Hk%in_seq. unfold cell. fold u. do 2 f_equal.
    replace (head q + Z.of_nat (Z.to_nat i + k)) with (head q + i + Z.of_nat k) by lia.
    rewrite slot_wrap, Nat2Z.id by (done || lia). done.
Qed.

Lemma take_units_of u n m src :
  (m <= n)%nat -> take m (units_of u n src) = units_of u m src.
Proof.
  intros. unfold units_of. rewrite firstn_map, take_seq, Nat.min_l by lia. done.
Qed.

Lemma contents_cells q c :
  queue_wf q -> In c (contents q) -> length c = ub q.
Proof.
  intros Hq Hc. unfold contents in Hc. apply in_map_iff in Hc as (k & <- & _).
  by apply length_cell.
Qed.

Lemma length_concat_units u (cs : list (list Z)) :
  (forall c, In c cs -> length c = u) -> length (concat cs) = (length cs * u)%nat.
Proof.
  induction cs as [|c cs IH]; intros Hcs; [done|]. cbn.
  rewrite length_app, IH, Hcs; auto with datatypes.
Qed.

Lemma In_take {A} (x : A) n l : In x (take n l) -> In x l.
Proof. intros H. rewrite <- (firstn_skipn n l). apply in_app_iff. by left. Qed.

(** [units_of] inverts concatenation of units. *)
Lemma units_of_concat u cs rest :
  (forall c, In c cs -> length c = u) -> units_of u (length cs) (concat cs ++ rest) = cs.
Proof.
  induction cs as [|c cs IH]; intros Hc; [done|]. unfold units_of in *. cbn [length concat].
  assert (length c = u) as Hlc by (apply Hc; left; done).
  cbn [seq map]. f_equal.
  - rewrite <- app_assoc. by apply sub_app_l.
  - rewrite map_seq_shift. rewrite <- IH at 2 by (intros; apply Hc; by right).
    apply map_ext. intros k. rewrite <- app_assoc, sub_app_r by nia. f_equal. nia.
Qed.

Lemma add_units_eq q src count :
  queue_wf q -> 0 <= count -> (Z.to_nat count * ub q <= length src)%nat ->
  let n := Z.min count (buffer_units q - queue_count q) in
  exists q', queue_add_units q src count = (n, q') /\ queue_wf q' /\
    contents q' = contents q ++ units_of (ub q) (Z.to_nat n) src /\
    head q' = head q /\ buffer_units q' = buffer_units q /\ unit_bytes q' = unit_bytes q /\
    notified q' = notified q ++ [PolicyAdd n].
Proof.
  intros Hq Hc Hsrc n. pose proof (count_range q Hq) as Hr. rewrite add_buffer by done.
  fold n. set (b := wrap_write _ _ _ _ _ _).
  assert (length b = length (buffer q)) as Hb.
  { apply length_wrap_write; [apply slot_lt; done|lia| |apply buffer_len; done].
    transitivity (Z.to_nat count * ub q)%nat; [|done]. apply Nat.mul_le_mono_r. lia. }
  pose proof (wf_set_buffer q Hq b Hb) as Hq1. unfold queue_advance_tail.
  rewrite space_eq by done.
  change (queue_count (set_buffer q b)) with (queue_count q).
  change (buffer_units (set_buffer q b)) with (buffer_units q).
  rewrite (Z.min_l n) by lia. eexists; split; [done|].
  split; [apply wf_notify, wf_set_tail; [done|cbn;
    change (queue_count (set_buffer q b)) with (queue_count q); lia]|].
  split; [|done].
  refine (contents_write q src n Hq _ _); [lia|].
  transitivity (Z.to_nat count * ub q)%nat; [|done]. apply Nat.mul_le_mono_r. lia.
Qed.

Lemma remove_units_eq q dest count :
  queue_wf q -> 0 <= count ->
  let n := Z.min count (queue_count q) in
  exists q', queue_remove_units q dest count =
      (n, splice 0 (concat (take (Z.to_nat n) (contents q))) dest, q') /\ queue_wf q' /\
    contents q' = drop (Z.to_nat n) (contents q) /\
    head q' = u32 (head q + n) /\ buffer_units q' = buffer_units q /\
    unit_bytes q' = unit_bytes q /\
    notified q' = notified q ++ [PolicyRemove n].
Proof.
  intros Hq Hc n. pose proof (count_range q Hq) as Hr.
  pose proof (read_safe_units q dest 0 n Hq) as Hread.
  rewrite Z.add_0_r, drop_0 in Hread.
  unfold queue_remove_units, queue_remove_memcpy. cbn zeta. fold n.
  rewrite land_mask, Hread by (done || lia).
  unfold queue_advance_head. rewrite (Z.min_l n) by lia.
  eexists; split; [done|]. split; [apply wf_notify, wf_set_head; (done || lia)|].
  split; [|done]. apply contents_set_head; (done || lia).
Qed.

(** [queue_add_units] appends to the queue's contents the first
    min(count, free space) units of the source, returns that number, notifies the
    policy of it and keeps the queue well formed, wherever the free-running 32-bit
    counters are, including when they wrap around. *)
Theorem queue_add_units_spec q src count :
  queue_wf q -> 0 <= count -> length src = (Z.to_nat count * ub q)%nat ->
  exists n q', queue_add_units q src count = (n, q') /\
    n = Z.min count (buffer_units q - Z.of_nat (length (contents q))) /\
    contents q' = contents q ++ take (Z.to_nat n) (units_of (ub q) (Z.to_nat count) src) /\
    notified q' = notified q ++ [PolicyAdd n] /\ queue_wf q'.
Proof.
  intros Hq Hc Hsrc. pose proof (count_range q Hq).
  destruct (add_units_eq q src count Hq Hc) as (q' & E & Hwf & Hcont & _ & _ & _ & Hn); [lia|].
  do 2 eexists; split; [exact E|]. rewrite length_contents by done.
  split; [lia|]. rewrite take_units_of by lia. auto.
Qed.

Definition wrapped_queue : queue :=
  mkQueue (2 ^ 32 - 1) 1 4 3 2 [1; 2; 3; 4; 5; 6; 7; 8] [].

Lemma wrapped_queue_wf : queue_wf wrapped_queue.
Proof. split; try (vm_compute; done). exists 2. split; [lia|done]. Qed.

Example queue_add_units_spec_witness :
  exists n q', queue_add_units wrapped_queue [10; 11; 12; 13; 14; 15] 3 = (n, q') /\
    n = Z.min 3 (4 - Z.of_nat (length (contents wrapped_queue))) /\
    contents q' = contents wrapped_queue ++ take (Z.to_nat n)
                    (units_of 2 3 [10; 11; 12; 13; 14; 15]) /\
    notified q' = [PolicyAdd n] /\ queue_wf q'.
Proof. apply (queue_add_units_spec wrapped_queue); [apply wrapped_queue_wf|lia|done]. Defined.

(** [queue_remove_units] takes the first min(count, number held) units out of
    the contents, writes exactly their bytes at the start of the destination and
    leaves the rest of the destination as it was. *)
Theorem queue_remove_units_spec q dest count :
  queue_wf q -> 0 <= count ->
  exists n dest' q', queue_remove_units q dest count = (n, dest', q') /\
    n = Z.min count (Z.of_nat (length (contents q))) /\
    dest' = concat (take (Z.to_nat n) (contents q)) ++ drop (Z.to_nat n * ub q) dest /\
    contents q' = drop (Z.to_nat n) (contents q) /\
    notified q' = notified q ++ [PolicyRemove n] /\ queue_wf q'.
Proof.
  intros Hq Hc. pose proof (count_range q Hq).
  destruct (remove_units_eq q dest count Hq Hc) as (q' & E & Hwf & Hcont & _ & _ & _ & Hn).
  do 3 eexists; split; [exact E|]. rewrite length_contents by done.
  split; [lia|]. split; [|auto]. unfold splice. rewrite take_0. cbn [app]. f_equal. f_equal.
  rewrite Nat.add_0_l.
  rewrite (length_concat_units (ub q)), length_take, length_contents by
    (try done; intros c Hin; eapply contents_cells; [done|]; by eapply In_take).
  f_equal. lia.
Qed.

Example queue_remove_units_spec_witness :
  exists n dest' q', queue_remove_units wrapped_queue (zeros 6) 3 = (n, dest', q') /\
    n = Z.min 3 (Z.of_nat (length (contents wrapped_queue))) /\
    dest' = concat (take (Z.to_nat n) (contents wrapped_queue))
              ++ drop (Z.to_nat n * 2) (zeros 6) /\
    contents q' = drop (Z.to_nat n) (contents wrapped_queue) /\
    notified q' = [PolicyRemove n] /\ queue_wf q'.
Proof. apply (queue_remove_units_spec wrapped_queue); [apply wrapped_queue_wf|lia]. Defined.

(** [queue_peek_units] copies units i, i+1, ... of the contents, as many as asked
    for and as there are, without removing them.  When [i] is past the last unit
    nothing is copied, yet the number returned is the number asked for, as long as it
    is not above the 32-bit difference; when [i] is the number of units held it is 0. *)
Lemma queue_peek_units_spec q dest i count :
  queue_wf q -> 0 <= i < 2 ^ 32 -> 0 <= count ->
  let held := Z.of_nat (length (contents q)) in
  queue_peek_units q dest i count =
  if i <? held
  then (Z.min count (held - i),
        splice 0 (concat (take (Z.to_nat count) (drop (Z.to_nat i) (contents q)))) dest)
  else (Z.min count (u32 (held - i)), dest).
Proof.
  intros Hq Hi Hc held. pose proof (count_range q Hq) as Hr. pose proof (bu_pos q Hq).
  unfold held. rewrite length_contents, Z2Nat.id by (done || lia). clear held.
  unfold queue_peek_units, queue_peek_memcpy. cbn zeta.
  destruct (Z.ltb_spec i (queue_count q)) as [E|E]; [|done].
  rewrite uN_small by lia. f_equal. rewrite land_mask, mod_bu_u32 by done.
  rewrite read_safe_units by (done || lia). f_equal. f_equal.
  assert (length (drop (Z.to_nat i) (contents q)) =
          (Z.to_nat (queue_count q) - Z.to_nat i)%nat) as Hl
    by (rewrite length_drop, length_contents by done; done).
  destruct (decide (count <= queue_count q - i)).
  - do 2 f_equal. lia.
  - rewrite !take_ge by lia. done.
Qed.

Example queue_peek_units_spec_witness :
  queue_peek_units wrapped_queue (zeros 4) 1 2 = (1, [1; 2; 0; 0]) /\
  queue_peek_units wrapped_queue (zeros 4) 3 2 = (2, zeros 4).
Proof.
  split; (etransitivity;
    [apply (queue_peek_units_spec wrapped_queue); [apply wrapped_queue_wf|lia|lia]
    |vm_compute; done]).
Defined.

(** *** Single units and chunks *)

Section Chunks.
Context (q : queue) (Hq : queue_wf q).

(** Where the tail is, from the head. *)
Lemma tail_mod :
  let h := head q mod buffer_units q in let t := tail q mod buffer_units q in
  0 <= h < buffer_units q /\ 0 <= t < buffer_units q /\
  (h + queue_count q = t \/ h + queue_count q = t + buffer_units q).
Proof.
  intros h t. pose proof (count_range q Hq). pose proof (bu_pos q Hq) as Hb.
  pose proof (Z.mod_pos_bound (head q) (buffer_units q) ltac:(lia)).
  pose proof (Z.mod_pos_bound (tail q) (buffer_units q) ltac:(lia)).
  assert ((h + queue_count q) mod buffer_units q = t) as E.
  { unfold h. rewrite Zplus_mod_idemp_l. unfold queue_count.
    rewrite <- Zplus_mod_idemp_r, mod_bu_u32, Zplus_mod_idemp_r by done.
    unfold t. f_equal. lia. }
  split; [done|]. split; [done|].
  pose proof (Z.div_mod (h + queue_count q) (buffer_units q) ltac:(lia)) as D. rewrite E in D.
  assert (0 <= (h + queue_count q) / buffer_units q < 2)
    by (split; [apply Z.div_pos; lia|apply Z.div_lt_upper_bound; lia]).
  assert ((h + queue_count q) / buffer_units q = 0 \/ (h + queue_count q) / buffer_units q = 1)
    as [E2|E2] by lia; rewrite E2 in D; lia.
Qed.

(** The free units that lie together after the last one. *)
Definition free_run : Z :=
  Z.min (buffer_units q - queue_count q) (buffer_units q - tail q mod buffer_units q).

(** The first units that lie together. *)
Definition held_run : Z := Z.min (queue_count q) (buffer_units q - head q mod buffer_units q).

Lemma run_u32 n : 0 <= n <= buffer_units q -> u32 (n * unit_bytes q) = n * unit_bytes q.
Proof. intros. pose proof (wf_unit q Hq). pose proof (wf_size q Hq). apply uN_small. nia. Qed.

Lemma write_chunk_eq :
  queue_get_write_chunk q =
  {| chunk_start := tail q mod buffer_units q * unit_bytes q;
     chunk_length := free_run * unit_bytes q |}.
Proof.
  unfold queue_get_write_chunk, queue_is_full. cbn zeta.
  rewrite !land_mask, space_eq by done. pose proof tail_mod as (Hh & Ht & Hc).
  pose proof (count_range q Hq). pose proof (wf_unit q Hq). pose proof (wf_size q Hq).
  f_equal. rewrite <- (run_u32 free_run) by (unfold free_run; lia). unfold free_run. f_equal.
  destruct (Z.eqb_spec (buffer_units q - queue_count q) 0); [lia|].
  destruct (Z.ltb_spec (tail q mod buffer_units q) (head q mod buffer_units q)); lia.
Qed.

Lemma is_empty_eq : queue_is_empty q = (queue_count q =? 0).
Proof.
  pose proof (wf_head q Hq). pose proof (wf_tail q Hq). unfold queue_is_empty, queue_count, uN.
  destruct (Z.eqb_spec (head q) (tail q)) as [-> |E]; [by rewrite Z.sub_diag|].
  symmetry. apply Z.eqb_neq. intros E2. destruct (Z.leb_spec (head q) (tail q)).
  - rewrite Z.mod_small in E2 by lia. lia.
  - rewrite <- (Z_mod_plus_full _ 1), Z.mod_small in E2 by lia. lia.
Qed.

Lemma read_chunk_eq :
  queue_get_read_chunk q =
  {| chunk_start := head q mod buffer_units q * unit_bytes q;
     chunk_length := held_run * unit_bytes q |}.
Proof.
  unfold queue_get_read_chunk, queue_is_empty. cbn zeta.
  rewrite !land_mask by done. pose proof tail_mod as (Hh & Ht & Hc).
  pose proof (count_range q Hq) as Hr. pose proof (wf_unit q Hq). pose proof (wf_size q Hq).
  fold (queue_is_empty q). rewrite is_empty_eq.
  f_equal. rewrite <- (run_u32 held_run) by (unfold held_run; lia). unfold held_run. f_equal.
  destruct (Z.eqb_spec (queue_count q) 0) as [E|E]; [lia|].
  destruct (Z.ltb_spec (head q mod buffer_units q) (tail q mod buffer_units q)); lia.
Qed.

(** A write that does not pass the end of the buffer. *)
Lemma wrap_write_straight u B T N (src b : list Z) :
  (N <= B - T)%nat -> wrap_write u B T N src b = splice (T * u) (take (N * u) src) b.
Proof.
  intros HN. unfold wrap_write. rewrite Nat.min_l by done. by rewrite Nat.ltb_irrefl.
Qed.

(** Writing units after the last one, and taking them in. *)
Lemma fill_eq n src :
  0 <= n <= free_run -> (Z.to_nat n * ub q <= length src)%nat ->
  let b := splice (slot q (tail q) * ub q) (take (Z.to_nat n * ub q) src) (buffer q) in
  exists q', queue_advance_tail (set_buffer q b) n = (n, q') /\ queue_wf q' /\
    contents q' = contents q ++ units_of (ub q) (Z.to_nat n) src /\
    head q' = head q /\ buffer_units q' = buffer_units q /\ unit_bytes q' = unit_bytes q /\
    notified q' = notified q ++ [PolicyAdd n].
Proof.
  intros Hn Hs b. pose proof (count_range q Hq) as Hr. pose proof (bu_pos q Hq).
  unfold free_run in Hn.
  assert (b = wrap_write (ub q) (Z.to_nat (buffer_units q)) (slot q (tail q)) (Z.to_nat n) src
    (buffer q)) as Eb.
  { symmetry. apply wrap_write_straight. unfold slot. lia. }
  assert (length b = length (buffer q)) as Hb.
  { rewrite Eb. apply length_wrap_write; [apply slot_lt; done|lia|done|by apply buffer_len]. }
  pose proof (wf_set_buffer q Hq b Hb) as Hq1. unfold queue_advance_tail.
  rewrite space_eq by done. change (queue_count (set_buffer q b)) with (queue_count q).
  change (buffer_units (set_buffer q b)) with (buffer_units q). rewrite Z.min_l by lia.
  eexists. split; [done|].
  split; [apply wf_notify, wf_set_tail; [done|]; change (queue_count (set_buffer q b)) with
    (queue_count q); cbn; lia|].
  split; [|done]. rewrite Eb. apply (contents_write q src n Hq); [lia|done].
Qed.

Lemma free_run_pos : queue_count q < buffer_units q -> 1 <= free_run.
Proof. pose proof tail_mod as (? & ? & ?). unfold free_run. lia. Qed.

Lemma add_unit_eq src :
  (ub q <= length src)%nat ->
  if queue_count q =? buffer_units q then queue_add_unit q src = (0, q)
  else exists q', queue_add_unit q src = (1, q') /\ queue_wf q' /\
    contents q' = contents q ++ [take (ub q) src] /\
    head q' = head q /\ buffer_units q' = buffer_units q /\ unit_bytes q' = unit_bytes q /\
    notified q' = notified q ++ [PolicyAdd 1].
Proof.
  intros Hs. pose proof (count_range q Hq) as Hr. pose proof (ub_pos q Hq) as Hu.
  unfold queue_add_unit. cbn zeta. rewrite space_eq, land_mask by done.
  destruct (Z.eqb_spec (queue_count q) (buffer_units q)) as [E|E].
  - by rewrite (proj2 (Z.eqb_eq _ _)) by lia.
  - rewrite (proj2 (Z.eqb_neq _ _)) by lia. pose proof (free_run_pos ltac:(lia)).
    destruct (fill_eq 1 src) as (q' & E1 & R); [lia|lia|]. exists q'.
    split; [|exact R].
    rewrite <- E1. f_equal.
    change (Z.to_nat 1 * ub q)%nat with (ub q + 0)%nat. rewrite Nat.add_0_r.
    pose proof (slot_lt q Hq (tail q)) as Hlt. pose proof (buffer_len q Hq) as Hl.
    destruct (Z.eqb_spec (unit_bytes q) 1) as [E2|E2]; f_equal.
    + unfold ub in *. rewrite E2 in *. change (Z.to_nat 1) with 1%nat in *.
      fold (slot q (tail q)). rewrite insert_take_drop by lia.
      destruct src as [|x src]; [cbn in Hs; lia|]. unfold splice. cbn [take hd length app].
      rewrite Nat.mul_1_r, Nat.add_1_r. by rewrite take_0.
    + unfold memcpy. fold (ub q). f_equal. unfold slot, ub.
      pose proof tail_mod as (? & ? & ?). pose proof (wf_unit q Hq). apply Z2Nat.inj_mul; lia.
Qed.

(** Removing units. *)
Lemma advance_head_eq count :
  0 <= count ->
  let n := Z.min count (queue_count q) in
  exists q', queue_advance_head q count = (n, q') /\ queue_wf q' /\
    contents q' = drop (Z.to_nat n) (contents q) /\
    head q' = u32 (head q + n) /\
    buffer_units q' = buffer_units q /\ unit_bytes q' = unit_bytes q /\
    notified q' = notified q ++ [PolicyRemove n].
Proof.
  intros Hc n. pose proof (count_range q Hq) as Hr. unfold queue_advance_head. fold n.
  eexists. split; [done|]. split; [apply wf_notify, wf_set_head; (done || lia)|].
  split; [|done]. apply contents_set_head; (done || lia).
Qed.

(** The first units that lie together are the first ones held. *)
Lemma held_part n :
  0 <= n <= held_run ->
  sub (slot q (head q) * ub q) (Z.to_nat n * ub q) (buffer q) =
  concat (take (Z.to_nat n) (contents q)).
Proof.
  intros Hn. pose proof (count_range q Hq) as Hr. pose proof tail_mod as (Hh & _).
  unfold held_run in Hn.
  pose proof (read_safe_units q [] 0 n Hq ltac:(lia) ltac:(lia) ltac:(lia)) as R.
  rewrite Z.add_0_r, drop_0 in R.
  unfold queue_read_safe, memcpy in R. rewrite (Z.min_l n) in R by lia.
  rewrite Z.ltb_irrefl, !off_nat in R by (done || lia).
  unfold splice in R. rewrite !take_0, !drop_nil, !app_nil_r in R. exact R.
Qed.

Lemma first_cell :
  queue_count q <> 0 -> contents q = cell q (head q) :: drop 1 (contents q).
Proof.
  intros Hc. pose proof (count_range q Hq). unfold contents.
  destruct (Z.to_nat (queue_count q)) eqn:E; [lia|]. cbn [seq map drop].
  by rewrite Z.add_0_r.
Qed.

Lemma remove_unit_eq dest :
  (ub q <= length dest)%nat ->
  if queue_count q =? 0 then queue_remove_unit q dest = (0, dest, q)
  else exists q',
    queue_remove_unit q dest = (1, concat (take 1 (contents q)) ++ drop (ub q) dest, q') /\
    queue_wf q' /\ contents q' = drop 1 (contents q) /\ head q' = u32 (head q + 1) /\
    buffer_units q' = buffer_units q /\ unit_bytes q' = unit_bytes q /\
    notified q' = notified q ++ [PolicyRemove 1].
Proof.
  intros Hd. unfold queue_remove_unit. cbn zeta. rewrite land_mask by done.
  destruct (Z.eqb_spec (queue_count q) 0) as [E|E]; [done|].
  pose proof (count_range q Hq). destruct (advance_head_eq 1 ltac:(lia)) as (q' & E1 & R).
  rewrite Z.min_l in E1, R by lia. rewrite E1. exists q'. split; [|exact R]. do 2 f_equal.
  rewrite (first_cell E). cbn [take concat]. rewrite app_nil_r.
  pose proof (ub_pos q Hq). pose proof (slot_lt q Hq (head q)). pose proof (buffer_len q Hq).
  unfold cell. destruct (Z.eqb_spec (unit_bytes q) 1) as [E2|E2].
  - unfold ub in *. rewrite E2 in *. change (Z.to_nat 1) with 1%nat in *.
    destruct dest as [|x dest]; [cbn in Hd; lia|]. cbn [drop]. rewrite Nat.mul_1_r.
    unfold sub, at_. fold (slot q (head q)). rewrite Nat.mul_1_r in *.
    rewrite (drop_S _ (nth (slot q (head q)) (buffer q) 0))
      by (destruct (nth_lookup_or_length (buffer q) (slot q (head q)) 0); [done|lia]).
    done.
  - unfold memcpy, splice, sub. change (Z.to_nat 0) with 0%nat. rewrite take_0.
    rewrite app_nil_l, Nat.add_0_l, length_take, length_drop.
    replace (Z.to_nat (head q mod buffer_units q * unit_bytes q)) with (slot q (head q) * ub q)%nat.
    + fold (ub q). by rewrite Nat.min_l by nia.
    + unfold slot, ub. pose proof tail_mod as (? & ? & ?).
      pose proof (wf_unit q Hq). rewrite Z2Nat.inj_mul; lia.
Qed.

End Chunks.

(** ** First in, first out *)

(** What is done with a queue.  [OpWriteChunk] and [OpReadChunk] are the use of a chunk: as
    many units as it has room for, or holds, are written or read there, and then the queue is
    told with [queue_advance_tail] or [queue_advance_head]. *)
Inductive queue_op :=
| OpAddUnit (src : list Z)
| OpAddUnits (src : list Z) (count : Z)
| OpWriteChunk (src : list Z) (count : Z)
| OpRemoveUnit (dest : list Z)
| OpRemoveUnits (dest : list Z) (count : Z)
| OpReadChunk (count : Z)
| OpAdvanceHead (count : Z)
| OpPeekUnits (dest : list Z) (i count : Z)
| OpCount
| OpSpace
| OpIsEmpty
| OpIsFull.

(** What the caller learns: the number returned and the bytes of its buffer. *)
Definition reply : Type := Z * list Z.

Definition do_op (op : queue_op) (q : queue) : reply * queue :=
  match op with
  | OpAddUnit src => let '(n, q) := queue_add_unit q src in ((n, []), q)
  | OpAddUnits src count => let '(n, q) := queue_add_units q src count in ((n, []), q)
  | OpWriteChunk src count =>
      let c := queue_get_write_chunk q in
      let bytes := Z.min (count * unit_bytes q) (chunk_length c) in
      let q := set_buffer q (memcpy (buffer q) (chunk_start c) src bytes) in
      let '(n, q) := queue_advance_tail q (bytes / unit_bytes q) in
      ((n, []), q)
  | OpRemoveUnit dest => let '(n, dest, q) := queue_remove_unit q dest in ((n, dest), q)
  | OpRemoveUnits dest count =>
      let '(n, dest, q) := queue_remove_units q dest count in ((n, dest), q)
  | OpReadChunk count =>
      let c := queue_get_read_chunk q in
      let bytes := Z.min (count * unit_bytes q) (chunk_length c) in
      let data := sub (Z.to_nat (chunk_start c)) (Z.to_nat bytes) (buffer q) in
      let '(n, q) := queue_advance_head q (bytes / unit_bytes q) in
      ((n, data), q)
  | OpAdvanceHead count => let '(n, q) := queue_advance_head q count in ((n, []), q)
  | OpPeekUnits dest i count => (queue_peek_units q dest i count, q)
  | OpCount => ((queue_count q, []), q)
  | OpSpace => ((queue_space q, []), q)
  | OpIsEmpty => ((Z.b2z (queue_is_empty q), []), q)
  | OpIsFull => ((Z.b2z (queue_is_full q), []), q)
  end.

Fixpoint do_ops (ops : list queue_op) (q : queue) : list reply * queue :=
  match ops with
  | [] => ([], q)
  | op :: ops =>
      let '(r, q) := do_op op q in
      let '(rs, q) := do_ops ops q in (r :: rs, q)
  end.

(** The specification: the units that are held, in order, and the slot of the first one, on
    which only the sizes of the chunks depend. *)
Record fifo_state := mkFifo { first_slot : Z; held : list (list Z) }.

Section Spec.
Context (B : Z) (u : nat).

Definition spec_add (n : Z) (src : list Z) (f : fifo_state)
    : reply * fifo_state * list notification :=
  ((n, []), mkFifo (first_slot f) (held f ++ units_of u (Z.to_nat n) src), [PolicyAdd n]).

(** The bytes of the first [n] units go to [dest]. *)
Definition spec_remove (n : Z) (dest : list Z) (f : fifo_state)
    : reply * fifo_state * list notification :=
  ((n, dest), mkFifo ((first_slot f + n) mod B) (drop (Z.to_nat n) (held f)), [PolicyRemove n]).

Definition spec_op (op : queue_op) (f : fifo_state) : reply * fifo_state * list notification :=
  let c := Z.of_nat (length (held f)) in
  let first n := concat (take (Z.to_nat n) (held f)) in
  match op with
  | OpAddUnit src => if c =? B then ((0, []), f, []) else spec_add 1 src f
  | OpAddUnits src count => spec_add (Z.min count (B - c)) src f
  | OpWriteChunk src count =>
      spec_add (Z.min count (Z.min (B - c) (B - (first_slot f + c) mod B))) src f
  | OpRemoveUnit dest =>
      if c =? 0 then ((0, dest), f, []) else spec_remove 1 (splice 0 (first 1) dest) f
  | OpRemoveUnits dest count =>
      let n := Z.min count c in spec_remove n (splice 0 (first n) dest) f
  | OpReadChunk count =>
      let n := Z.min count (Z.min c (B - first_slot f)) in spec_remove n (first n) f
  | OpAdvanceHead count => spec_remove (Z.min count c) [] f
  | OpPeekUnits dest i count =>
      (if i <? c
       then (Z.min count (c - i),
             splice 0 (concat (take (Z.to_nat count) (drop (Z.to_nat i) (held f)))) dest)
       else (Z.min count (u32 (c - i)), dest), f, [])
  | OpCount => ((c, []), f, [])
  | OpSpace => ((B - c, []), f, [])
  | OpIsEmpty => ((Z.b2z (c =? 0), []), f, [])
  | OpIsFull => ((Z.b2z (c =? B), []), f, [])
  end.

Fixpoint spec_ops (ops : list queue_op) (f : fifo_state)
    : list reply * fifo_state * list notification :=
  match ops with
  | [] => ([], f, [])
  | op :: ops =>
      let '(r, f, ns) := spec_op op f in
      let '(rs, f, ns') := spec_ops ops f in (r :: rs, f, ns ++ ns')
  end.

(** The callers' buffers hold the units they announce. *)
Definition op_ok (op : queue_op) : Prop :=
  match op with
  | OpAddUnit src => (u <= length src)%nat
  | OpAddUnits src count | OpWriteChunk src count =>
      0 <= count /\ (Z.to_nat count * u <= length src)%nat
  | OpRemoveUnit dest => (u <= length dest)%nat
  | OpRemoveUnits _ count | OpReadChunk count | OpAdvanceHead count => 0 <= count
  | OpPeekUnits _ i count => 0 <= i < 2 ^ 32 /\ 0 <= count
  | _ => True
  end.
End Spec.

(** The abstract state of a queue. *)
Definition fifo (q : queue) : fifo_state := mkFifo (head q mod buffer_units q) (contents q).

(** One operation does what the specification says. *)
Definition refines (q : queue) (x : reply * queue) (y : reply * fifo_state * list notification)
    : Prop :=
  let '(r, q') := x in
  y = (r, fifo q', drop (length (notified q)) (notified q')) /\ queue_wf q' /\
  buffer_units q' = buffer_units q /\ unit_bytes q' = unit_bytes q /\
  exists ns, notified q' = notified q ++ ns.

Lemma fifo_refines_same q r : queue_wf q -> refines q (r, q) (r, fifo q, []).
Proof.
  intros Hq. split; [by rewrite drop_all|]. split; [done|]. split; [done|]. split; [done|].
  exists []. by rewrite app_nil_r.
Qed.

Lemma fifo_refines_add q q' n src :
  queue_wf q' -> contents q' = contents q ++ units_of (ub q) (Z.to_nat n) src ->
  head q' = head q -> buffer_units q' = buffer_units q -> unit_bytes q' = unit_bytes q ->
  notified q' = notified q ++ [PolicyAdd n] ->
  refines q ((n, []), q') (spec_add (ub q) n src (fifo q)).
Proof.
  intros Hq' Hc Hh Hb Hu Hn. split; [|split_and!; try done; by eexists].
  unfold spec_add, fifo. cbn [first_slot held]. by rewrite Hc, Hh, Hb, Hn, drop_app_length.
Qed.

Lemma fifo_refines_remove q q' n dest :
  queue_wf q -> queue_wf q' -> contents q' = drop (Z.to_nat n) (contents q) ->
  head q' = u32 (head q + n) -> buffer_units q' = buffer_units q ->
  unit_bytes q' = unit_bytes q -> notified q' = notified q ++ [PolicyRemove n] ->
  refines q ((n, dest), q') (spec_remove (buffer_units q) n dest (fifo q)).
Proof.
  intros Hq Hq' Hc Hh Hb Hu Hn. split; [|split_and!; try done; by eexists].
  unfold spec_remove, fifo. cbn [first_slot held]. rewrite Hc, Hh, Hb, Hn, drop_app_length.
  by rewrite mod_bu_u32, Zplus_mod_idemp_l.
Qed.

Lemma splice_units q n dest :
  queue_wf q -> 0 <= n <= queue_count q ->
  splice 0 (concat (take (Z.to_nat n) (contents q))) dest =
  concat (take (Z.to_nat n) (contents q)) ++ drop (Z.to_nat n * ub q) dest.
Proof.
  intros Hq Hn. unfold splice. rewrite take_0, app_nil_l, Nat.add_0_l. do 2 f_equal.
  rewrite (length_concat_units (ub q)), length_take, length_contents by
    (try done; intros c Hin; eapply contents_cells; [done|]; by eapply In_take).
  f_equal. lia.
Qed.

Lemma op_refines op q :
  queue_wf q -> op_ok (ub q) op ->
  refines q (do_op op q) (spec_op (buffer_units q) (ub q) op (fifo q)).
Proof.
  intros Hq Hop. pose proof (count_range q Hq) as Hr. pose proof (wf_unit q Hq) as Hu.
  pose proof (bu_pos q Hq) as Hb. pose proof (tail_mod q Hq) as (Hh & Ht & Hm).
  assert (Z.of_nat (length (contents q)) = queue_count q) as Hl
    by (rewrite length_contents by done; lia).
  assert ((head q mod buffer_units q + queue_count q) mod buffer_units q =
    tail q mod buffer_units q) as Et.
  { destruct Hm as [-> | ->]; [by apply Z.mod_small|].
    rewrite <- (Z.mul_1_l (buffer_units q)) at 2. rewrite Z_mod_plus_full. by apply Z.mod_small. }
  destruct op; cbn [do_op spec_op op_ok] in *; cbn [fifo held first_slot]; rewrite ?Hl, ?Et.
  - pose proof (add_unit_eq q Hq src Hop) as A.
    destruct (Z.eqb_spec (queue_count q) (buffer_units q)).
    + rewrite A. by apply fifo_refines_same.
    + destruct A as (q' & -> & ? & Hc & ? & ? & ? & ?). apply fifo_refines_add; try done.
  - destruct Hop as [Hc Hs].
    destruct (add_units_eq q src count Hq Hc Hs) as (q' & -> & ? & ? & ? & ? & ? & ?).
    by apply fifo_refines_add.
  - destruct Hop as [Hc Hs]. rewrite write_chunk_eq by done.
    cbn [chunk_length chunk_start unit_bytes set_buffer].
    rewrite Z.mul_min_distr_nonneg_r, Z.div_mul by lia. fold (free_run q).
    set (n := Z.min count (free_run q)). assert (0 <= free_run q) by (unfold free_run; lia).
    destruct (fill_eq q Hq n src) as (q' & E1 & ? & ? & ? & ? & ? & ?); [lia| |].
    { transitivity (Z.to_nat count * ub q)%nat; [|done]. apply Nat.mul_le_mono_r. lia. }
    unfold memcpy. rewrite !Z2Nat.inj_mul by lia. fold (slot q (tail q)) (ub q).
    rewrite E1. by apply fifo_refines_add.
  - pose proof (remove_unit_eq q Hq dest Hop) as A. destruct (Z.eqb_spec (queue_count q) 0).
    + rewrite A. by apply fifo_refines_same.
    + destruct A as (q' & -> & ? & Hc & ? & ? & ? & ?). rewrite splice_units by (done || lia).
      rewrite Nat.mul_1_l. by apply fifo_refines_remove.
  - destruct (remove_units_eq q dest count Hq Hop) as (q' & -> & ? & ? & ? & ? & ? & ?).
    by apply fifo_refines_remove.
  - rewrite read_chunk_eq by done. cbn [chunk_length chunk_start].
    rewrite Z.mul_min_distr_nonneg_r, Z.div_mul by lia. fold (held_run q).
    set (n := Z.min count (held_run q)). assert (0 <= held_run q) by (unfold held_run; lia).
    destruct (advance_head_eq q Hq n ltac:(lia)) as (q' & E1 & ? & ? & ? & ? & ? & ?).
    assert (Z.min n (queue_count q) = n) as En by (unfold n, held_run; lia). rewrite En in *.
    rewrite E1. rewrite !Z2Nat.inj_mul by lia. fold (slot q (head q)) (ub q).
    rewrite held_part by (done || lia). by apply fifo_refines_remove.
  - destruct (advance_head_eq q Hq count Hop) as (q' & -> & ? & ? & ? & ? & ? & ?).
    by apply fifo_refines_remove.
  - destruct Hop as [Hi Hc]. rewrite queue_peek_units_spec by done. rewrite Hl.
    by apply fifo_refines_same.
  - by apply fifo_refines_same.
  - rewrite space_eq by done. by apply fifo_refines_same.
  - rewrite is_empty_eq by done. by apply fifo_refines_same.
  - unfold queue_is_full. rewrite space_eq by done.
    replace (buffer_units q - queue_count q =? 0) with (queue_count q =? buffer_units q) by lia.
    by apply fifo_refines_same.
Qed.

Lemma QUEUE_wf k ubytes :
  0 <= k < 32 -> 0 < ubytes -> 2 ^ k * ubytes < 2 ^ 32 -> queue_wf (QUEUE (2 ^ k) ubytes).
Proof.
  intros Hk Hu Hs. assert (0 < 2 ^ k) by (apply Z.pow_pos_nonneg; lia).
  split; cbn; try lia; [by exists k|by unfold zeros; rewrite length_replicate|].
  change (0 <= 2 ^ k). lia.
Qed.

Lemma fresh_queue k ubytes :
  0 <= k < 32 -> 0 < ubytes -> 2 ^ k * ubytes < 2 ^ 32 ->
  queue_wf (QUEUE (2 ^ k) ubytes) /\ fifo (QUEUE (2 ^ k) ubytes) = mkFifo 0 [] /\
  queue_init (QUEUE (2 ^ k) ubytes) = Some (QUEUE (2 ^ k) ubytes).
Proof.
  intros Hk Hu Hs. split; [by apply QUEUE_wf|]. split; [done|].
  unfold queue_init, POWER_OF_TWO. cbn [buffer_units QUEUE].
  assert (0 < 2 ^ k) by (apply Z.pow_pos_nonneg; lia).
  replace (2 ^ k - 1) with (Z.ones k) by (rewrite Z.ones_equiv; lia).
  rewrite Z.land_ones, Z.mod_same by lia. unfold nz. by rewrite (proj2 (Z.eqb_neq _ _)) by lia.
Qed.

(** C14. Every sequence of operations on a queue - units added and removed one by one or
    several at a time, in place through the chunks, discarded, peeked at, counted - gives the
    replies, the notifications and the contents of a first-in first-out sequence of bounded
    size, wherever the 32-bit counters are: each addition takes as many units as are offered
    and as there is room for, and each removal gives as many as are asked for and held, in
    order; a chunk ends at the end of the buffer.  A fresh queue is such a queue, and empty. *)
Theorem queue_fifo q ops :
  queue_wf q -> Forall (op_ok (ub q)) ops ->
  (let '(replies, q') := do_ops ops q in
   exists ns, spec_ops (buffer_units q) (ub q) ops (fifo q) = (replies, fifo q', ns) /\
   notified q' = notified q ++ ns /\ queue_wf q' /\
   Z.of_nat (length (contents q')) <= buffer_units q) /\
  forall k ubytes, 0 <= k < 32 -> 0 < ubytes -> 2 ^ k * ubytes < 2 ^ 32 ->
  queue_wf (QUEUE (2 ^ k) ubytes) /\ fifo (QUEUE (2 ^ k) ubytes) = mkFifo 0 [] /\
  queue_init (QUEUE (2 ^ k) ubytes) = Some (QUEUE (2 ^ k) ubytes).
Proof.
  intros Hq Hops. split; [|intros k ubytes Hk Hu Hs; by apply fresh_queue].
  revert q Hq Hops. induction ops as [|op ops IH]; intros q Hq Hops; cbn [do_ops spec_ops].
  - exists []. rewrite app_nil_r. split_and!; try done. rewrite length_contents by done.
    pose proof (count_range q Hq). lia.
  - apply Forall_cons_iff in Hops as [Hop Hops]. pose proof (op_refines op q Hq Hop) as R.
    destruct (do_op op q) as [r q1]. destruct R as (-> & Hq1 & Hb & Hu & ns & Hn).
    assert (ub q1 = ub q) as Hu' by (unfold ub; by rewrite Hu).
    specialize (IH q1 Hq1). rewrite Hu' in IH. specialize (IH Hops).
    destruct (do_ops ops q1) as [rs q2]. destruct IH as (ns' & E & Hn' & Hq2 & Hl).
    rewrite Hb in E, Hl. rewrite E, Hn, drop_app_length. exists (ns ++ ns').
    split; [done|]. by rewrite Hn', Hn, app_assoc.
Qed.

(** An empty queue whose counters are about to wrap. *)
Definition late_queue : queue :=
  mkQueue (2 ^ 32 - 1) (2 ^ 32 - 1) 4 3 2 [1; 2; 3; 4; 5; 6; 7; 8] [].

Lemma late_queue_wf : queue_wf late_queue.
Proof. split; try (vm_compute; done). exists 2. split; [lia|done]. Qed.

Definition late_ops : list queue_op :=
  [OpAddUnits [1; 2; 3; 4] 2; OpRemoveUnit [0; 0]; OpPeekUnits [0; 0] 0 1; OpReadChunk 9;
   OpWriteChunk [5; 6; 7; 8; 9; 10] 3; OpAddUnit [7; 7]; OpAddUnits [8; 8] 1;
   OpRemoveUnits (zeros 8) 4].

(** Single units and several, both chunks, and a unit for which there is no room. *)
Example queue_fifo_witness :
  let '(replies, q') := do_ops late_ops late_queue in
  replies = [(2, []); (1, [1; 2]); (1, [3; 4]); (1, [3; 4]); (3, []); (1, []); (0, []);
             (4, [5; 6; 7; 8; 9; 10; 7; 7])] /\ queue_wf q'.
Proof.
  assert (Forall (op_ok (ub late_queue)) late_ops) as Hops.
  { change (ub late_queue) with 2%nat. unfold late_ops.
    repeat (apply List.Forall_cons_iff; split; [cbn [op_ok length]; lia|]).
    by apply List.Forall_nil. }
  destruct (queue_fifo late_queue late_ops late_queue_wf Hops) as [H _].
  destruct (do_ops late_ops late_queue) as [replies q'].
  destruct H as (ns & Es & _ & Hq & _). split; [|exact Hq].
  pose proof (f_equal (fun x => fst (fst x)) Es) as Er. cbn [fst] in Er. rewrite <- Er.
  vm_compute. reflexivity.
Defined.
