(* ===== verification/NvStore.v ===== *)
(** * The interface of the variable store (include/nvmem_vars.h)

    [getvar] and [setvar] keep (key, value) pairs of bytes in flash.  Their clients
    are proved against this interface; the store itself (common/new_nvmem.c) is a
    component of its own.  [ram_store] is an instance that keeps the pairs in a map
    and enforces the documented size limits, used to run concrete examples. *)

From S2P Require Import Prelude.

(** [setvar] returns an error code; a value of length zero erases the variable. *)
Class NvStore (S : Type) := {
  getvar : S -> list Z -> option (list Z);
  setvar : S -> list Z -> list Z -> Z * S
}.

(** What clients rely on: a write that reports success is read back, and leaves the
    other variables as they were.  Nothing is promised when it reports an error. *)
Class NvStoreLaws (S : Type) `{!NvStore S} : Prop := {
  getvar_setvar_same s k v s' :
    v <> [] -> setvar s k v = (EC.SUCCESS, s') -> getvar s' k = Some v;
  getvar_setvar_other s k k' v s' :
    k <> k' -> setvar s k v = (EC.SUCCESS, s') -> getvar s' k' = getvar s k'
}.

Definition MAX_VAR_TOTAL_SPACE : Z := 1000.
Definition MAX_VAR_BODY_SPACE : Z := 300.

(** ** An instance in memory *)

Definition ram_store : Type := gmap (list Z) (list Z).

Definition pair_size (k v : list Z) : Z := Z.of_nat (length k + length v).

Definition used_space (m : ram_store) : Z :=
  map_fold (fun k v n => n + pair_size k v) 0 m.

Definition ram_setvar (m : ram_store) (k v : list Z) : Z * ram_store :=
  if (length k =? 0)%nat then (EC.ERROR_INVAL, m)
  else if MAX_VAR_BODY_SPACE <? pair_size k v then (EC.ERROR_INVAL, m)
  else if (length v =? 0)%nat then (EC.SUCCESS, delete k m)
  else if MAX_VAR_TOTAL_SPACE <? used_space (delete k m) + pair_size k v
  then (EC.ERROR_OVERFLOW, m)
  else (EC.SUCCESS, <[k := v]> m).

#[global] Instance ram_nvstore : NvStore ram_store := {
  getvar m k := m !! k;
  setvar := ram_setvar
}.

#[global] Instance ram_nvstore_laws : NvStoreLaws ram_store.
Proof.
  split; intros s k; cbn [getvar setvar ram_nvstore]; unfold ram_setvar.
  - intros v s' Hv. repeat split_if; intros [= <-]; try discriminate.
    + by destruct v.
    + apply lookup_insert_eq.
  - intros k' v s' Hk. repeat split_if; intros [= <-]; try discriminate.
    + by apply lookup_delete_ne.
    + by apply lookup_insert_ne.
Qed.
