(* ===== verification/Vendor.v ===== *)
(** * Vendor commands and their routing
    (include/tpm_vendor_cmds.h, include/extension.h, common/extension.c, and
    [call_extension_command] of common/tpm_registers.c)

    A vendor command carries a code, a payload buffer, and flags that tell which
    interface it came from.  [extension_route_command] decides whether it is
    forwarded to the handler registered for its code. *)

From S2P Require Import Prelude.

Module CC.
Definition EXTENSION_FW_UPGRADE : Z := 4.
Definition EXTENSION_POST_RESET : Z := 7.
Definition REPORT_TPM_STATE : Z := 23.
Definition TURN_UPDATE_ON : Z := 24.
Definition GET_BOARD_ID : Z := 25.
Definition SET_BOARD_ID : Z := 26.
Definition POP_LOG_ENTRY : Z := 28.
Definition RMA_CHALLENGE_RESPONSE : Z := 30.
Definition DISABLE_FACTORY : Z := 32.
Definition CCD : Z := 34.
Definition SPI_HASH : Z := 36.
Definition PINWEAVER : Z := 37.
Definition GET_BOOT_MODE : Z := 52.
Definition GET_AP_RO_HASH : Z := 56.
Definition GET_AP_RO_STATUS : Z := 57.
Definition AP_RO_VALIDATE : Z := 58.
Definition GET_FACTORY_CONFIG : Z := 68.
Definition SET_FACTORY_CONFIG : Z := 69.
Definition GET_CHIP_ID : Z := 75.
End CC.

Module RC.
Definition VENDOR_RC_SUCCESS : Z := 0.
Definition VENDOR_RC_BOGUS_ARGS : Z := 1.
Definition VENDOR_RC_READ_FLASH_FAIL : Z := 2.
Definition VENDOR_RC_WRITE_FLASH_FAIL : Z := 3.
Definition VENDOR_RC_REQUEST_TOO_BIG : Z := 4.
Definition VENDOR_RC_RESPONSE_TOO_BIG : Z := 5.
Definition VENDOR_RC_INTERNAL_ERROR : Z := 6.
Definition VENDOR_RC_NOT_ALLOWED : Z := 7.
Definition VENDOR_RC_NO_SUCH_SUBCOMMAND : Z := 8.
Definition VENDOR_RC_IN_PROGRESS : Z := 9.
Definition VENDOR_RC_PASSWORD_REQUIRED : Z := 10.
Definition VENDOR_RC_NO_SUCH_COMMAND : Z := 127.
Definition VENDOR_RC_ERR : Z := 0x500.
End RC.

(** Interface flags. *)
Definition VENDOR_CMD_FROM_USB : Z := 1.
Definition VENDOR_CMD_FROM_ALT_IF : Z := 2.

(** The buffer is the memory from the first payload byte on. *)
Record vendor_cmd_params := mkParams {
  code : Z;
  buffer : list Z;
  in_size : Z;
  out_size : Z;
  flags : Z
}.

Definition set_buffer (p : vendor_cmd_params) (b : list Z) : vendor_cmd_params :=
  mkParams (code p) b (in_size p) (out_size p) (flags p).
Definition set_in_size (p : vendor_cmd_params) (n : Z) : vendor_cmd_params :=
  mkParams (code p) (buffer p) n (out_size p) (flags p).
Definition set_out_size (p : vendor_cmd_params) (n : Z) : vendor_cmd_params :=
  mkParams (code p) (buffer p) (in_size p) n (flags p).

(** The one-byte answer [p->out_size = 1; buffer[0] = b;]. *)
Definition answer (p : vendor_cmd_params) (b : Z) : vendor_cmd_params :=
  set_out_size (set_buffer p (splice 0 [u8 b] (buffer p))) 1.

Definition handler (W : Type) : Type := vendor_cmd_params -> ST W (Z * vendor_cmd_params).

(** The commands accepted from USB or from the console. *)
Definition usb_command (p : vendor_cmd_params) : bool :=
  existsb (Z.eqb (code p))
    [CC.EXTENSION_POST_RESET; CC.CCD; CC.GET_AP_RO_HASH; CC.GET_AP_RO_STATUS;
     CC.GET_BOARD_ID; CC.GET_BOOT_MODE; CC.GET_CHIP_ID; CC.GET_FACTORY_CONFIG;
     CC.POP_LOG_ENTRY; CC.RMA_CHALLENGE_RESPONSE; CC.SET_FACTORY_CONFIG;
     CC.SPI_HASH; CC.TURN_UPDATE_ON]
  || ((code p =? CC.AP_RO_VALIDATE) && nz (Z.land (flags p) VENDOR_CMD_FROM_ALT_IF)).

(** The commands accepted while the board ID does not match. *)
Definition mismatch_command (p : vendor_cmd_params) : bool :=
  existsb (Z.eqb (code p))
    [CC.EXTENSION_FW_UPGRADE; CC.REPORT_TPM_STATE; CC.TURN_UPDATE_ON;
     CC.GET_BOARD_ID; CC.GET_CHIP_ID; CC.EXTENSION_POST_RESET].

Section Route.
Context {W : Type}.

(** The linker's table of handlers, in its order. *)
Variable extension_cmds : list (Z * handler W).
Variable board_id_is_mismatched : bool.

(** The router of the strongbox commands (common/strongbox.c); its errors are in
    the range -1 .. -255. *)
Variable extension_route_strongbox_command : handler W.

Fixpoint find_handler (cmds : list (Z * handler W)) (c : Z) : option (handler W) :=
  match cmds with
  | [] => None
  | (c', h) :: cmds => if c' =? c then Some h else find_handler cmds c
  end.

Definition extension_route_command : handler W := fun p =>
  let ignore := ret (RC.VENDOR_RC_NO_SUCH_COMMAND, set_out_size p 0) in
  if nz (Z.land (flags p) (Z.lor VENDOR_CMD_FROM_USB VENDOR_CMD_FROM_ALT_IF))
     && negb (usb_command p) then ignore
  else if board_id_is_mismatched && negb (mismatch_command p) then ignore
  else match find_handler extension_cmds (code p) with
       | Some h => h p
       | None => ignore
       end.

(** [struct tpm_cmd_header], in host order, and the memory behind it. *)
Record tpm_cmd := mkCmd {
  size : Z;
  command_code : Z;
  subcommand_code : Z;
  payload : list Z
}.

Definition sizeof_tpm_cmd_header : Z := 12.

Definition CONFIG_EXTENSION_COMMAND : Z := 0xbaccd00a.
Definition TPM_CC_VENDOR_CR50 : Z := 0x20000000.
Definition TPM_CC_VENDOR_STRONGBOX : Z := 0x20000001.
Definition STRONGBOX_RC_ERR : Z := RC.VENDOR_RC_ERR.

(** Returns the total size of the response and the header and payload left in the
    buffer. *)
Definition call_extension_command (tpmh : tpm_cmd) (total_size flags : Z)
    (le_command_code : Z) : ST W (Z * tpm_cmd) :=
  let command_size := size tpmh in
  if sizeof_tpm_cmd_header <=? command_size then
    let p := mkParams (subcommand_code tpmh) (payload tpmh)
               (command_size - sizeof_tpm_cmd_header)
               (u32 (total_size - sizeof_tpm_cmd_header)) flags in
    let* (rc, p) :=
      if (le_command_code =? CONFIG_EXTENSION_COMMAND)
         || (le_command_code =? TPM_CC_VENDOR_CR50)
      then let* (rc, p) := extension_route_command p in
           ret (if nz rc then Z.lor rc RC.VENDOR_RC_ERR else rc, p)
      else if le_command_code =? TPM_CC_VENDOR_STRONGBOX
      then let* (rc, p) := extension_route_strongbox_command p in
           ret (if nz rc then u32 (STRONGBOX_RC_ERR - rc) else rc, p)
      else ret (RC.VENDOR_RC_NO_SUCH_SUBCOMMAND, p) in
    let total := u32 (out_size p + sizeof_tpm_cmd_header) in
    ret (total, mkCmd total rc (subcommand_code tpmh) (buffer p))
  else ret (command_size, tpmh).

(** A command that arrives over USB or from the console reaches a handler only
    when its code is one of those meant for these interfaces, and while the board ID
    is mismatched a command from any interface only when it serves a firmware
    update; a refused command changes nothing and gets an empty answer. *)
Theorem extension_route_filters p (w : W) :
  (nz (Z.land (flags p) 3) = true /\ usb_command p = false) \/
  (board_id_is_mismatched = true /\ mismatch_command p = false) ->
  extension_route_command p w =
  ((RC.VENDOR_RC_NO_SUCH_COMMAND, set_out_size p 0), w).
Proof.
  intros H. unfold extension_route_command.
  change (Z.lor VENDOR_CMD_FROM_USB VENDOR_CMD_FROM_ALT_IF) with 3.
  destruct H as [[-> ->]|[-> ->]]; [done|]. destruct (_ && _)%bool; done.
Qed.
End Route.

Example extension_route_filters_witness :
  extension_route_command
    [(CC.PINWEAVER, fun p => fun n => ((RC.VENDOR_RC_SUCCESS, p), n + 1))] false
    (mkParams CC.PINWEAVER [1] 1 100 VENDOR_CMD_FROM_USB) 0 =
  ((RC.VENDOR_RC_NO_SUCH_COMMAND, mkParams CC.PINWEAVER [1] 1 0 VENDOR_CMD_FROM_USB), 0).
Proof.
  apply (extension_route_filters
    [(CC.PINWEAVER, fun p => fun n => ((RC.VENDOR_RC_SUCCESS, p), n + 1))] false).
  left. split; reflexivity.
Defined.
