(* ===== verification/PhysPresence.v ===== *)
(** * Physical presence detection (common/physical_presence.c)

    The state machine that decides that a person is at the device: a sequence of
    button presses, each inside a time window, after which a callback runs in the
    hook task.  Modelled with the deferred calls of common/hooks.c; callbacks are
    values of a type [C], and running one is the caller's business (the handler
    [physical_detect_done] is split around the call).  The handler of a press reads the
    clock, and the time since the last press, before it takes the mutex: these are steps
    of their own, between which the other tasks run. *)

From S2P Require Import Prelude.

Definition MSEC : Z := 1000.
Definition SECOND : Z := 1000000.

Definition PP_SHORT_PRESS_COUNT : Z := 5.
Definition PP_SHORT_PRESS_MIN_INTERVAL_US : Z := 100 * MSEC.
Definition PP_SHORT_PRESS_MAX_INTERVAL_US : Z := 5 * SECOND.
Definition PP_LONG_PRESS_COUNT : Z := PP_SHORT_PRESS_COUNT + 4.
Definition PP_LONG_PRESS_MIN_INTERVAL_US : Z := 60 * SECOND.
Definition PP_LONG_PRESS_MAX_INTERVAL_US : Z := 300 * SECOND.

Inductive pp_state :=
| PP_DETECT_IDLE
| PP_DETECT_AWAITING_PRESS
| PP_DETECT_BETWEEN_PRESSES
| PP_DETECT_FINISHING
| PP_DETECT_ABORT.

#[global] Instance pp_state_dec : EqDecision pp_state.
Proof. solve_decision. Defined.

(** The state reported to the outside. *)
Inductive pp_fsm_state := PP_OTHER | PP_AWAITING_PRESS | PP_BETWEEN_PRESSES.

(** The deferred functions of this file. *)
Inductive deferred := physical_detect_done_data | physical_detect_prompt_data
  | physical_detect_check_press_data.

(** The static variables, the deferred-call alarms ([__deferred_until], 0 when not
    set), whether button presses are captured, and the clock. *)
Record pp (C : Type) := mkPP {
  pp_detect_state : pp_state;
  pp_detect_callback : option C;
  pp_press_count : Z;
  pp_press_count_needed : Z;
  pp_last_press : Z;
  button_enabled : bool;
  until_done : Z;
  until_prompt : Z;
  until_check : Z;
  time_us : Z
}.
Arguments mkPP {C}.
Arguments pp_detect_state {C}.
Arguments pp_detect_callback {C}.
Arguments pp_press_count {C}.
Arguments pp_press_count_needed {C}.
Arguments pp_last_press {C}.
Arguments button_enabled {C}.
Arguments until_done {C}.
Arguments until_prompt {C}.
Arguments until_check {C}.
Arguments time_us {C}.

Section Machine.
Context {C : Type}.
Implicit Types s : pp C.

Definition set_state st s : pp C :=
  mkPP st (pp_detect_callback s) (pp_press_count s) (pp_press_count_needed s)
    (pp_last_press s) (button_enabled s) (until_done s) (until_prompt s)
    (until_check s) (time_us s).
Definition set_callback cb s : pp C :=
  mkPP (pp_detect_state s) cb (pp_press_count s) (pp_press_count_needed s)
    (pp_last_press s) (button_enabled s) (until_done s) (until_prompt s)
    (until_check s) (time_us s).
Definition set_press (count last : Z) s : pp C :=
  mkPP (pp_detect_state s) (pp_detect_callback s) count (pp_press_count_needed s)
    last (button_enabled s) (until_done s) (until_prompt s) (until_check s) (time_us s).
Definition set_needed n s : pp C :=
  mkPP (pp_detect_state s) (pp_detect_callback s) (pp_press_count s) n
    (pp_last_press s) (button_enabled s) (until_done s) (until_prompt s)
    (until_check s) (time_us s).
Definition set_until (d : deferred) (t : Z) s : pp C :=
  let on d' old := match d, d' with
    | physical_detect_done_data, physical_detect_done_data
    | physical_detect_prompt_data, physical_detect_prompt_data
    | physical_detect_check_press_data, physical_detect_check_press_data => t
    | _, _ => old end in
  mkPP (pp_detect_state s) (pp_detect_callback s) (pp_press_count s)
    (pp_press_count_needed s) (pp_last_press s) (button_enabled s)
    (on physical_detect_done_data (until_done s))
    (on physical_detect_prompt_data (until_prompt s))
    (on physical_detect_check_press_data (until_check s)) (time_us s).
Definition set_time t s : pp C :=
  mkPP (pp_detect_state s) (pp_detect_callback s) (pp_press_count s)
    (pp_press_count_needed s) (pp_last_press s) (button_enabled s) (until_done s)
    (until_prompt s) (until_check s) t.

Definition until (d : deferred) s : Z :=
  match d with
  | physical_detect_done_data => until_done s
  | physical_detect_prompt_data => until_prompt s
  | physical_detect_check_press_data => until_check s
  end.

(** Capturing the button, a service of the board. *)
Definition board_physical_presence_enable (enable : bool) : ST (pp C) unit :=
  modify (fun s =>
    mkPP (pp_detect_state s) (pp_detect_callback s) (pp_press_count s)
      (pp_press_count_needed s) (pp_last_press s) enable (until_done s)
      (until_prompt s) (until_check s) (time_us s)).

(** *** Deferred calls *)

Definition hook_call_deferred (d : deferred) (us : Z) : ST (pp C) Z :=
  (if us =? -1 then modify (set_until d 0)
   else modify (fun s => set_until d (u64 (time_us s + us)) s)) ;;;
  ret EC.SUCCESS.

(** The test of the hook task's loop: the alarm is set and has passed. *)
Definition deferred_due (d : deferred) s : bool :=
  nz (until d s) && (until d s <? time_us s).

(** *** The handlers *)

Definition pp_detect_in_progress s : bool :=
  match pp_detect_state s with
  | PP_DETECT_AWAITING_PRESS | PP_DETECT_BETWEEN_PRESSES => true
  | _ => false
  end.

(** [physical_detect_done] up to the call of the callback, which it returns. *)
Definition physical_detect_done_begin : ST (pp C) (option C) :=
  let* in_progress := gets pp_detect_in_progress in
  let* s := gets id in
  (if negb in_progress then modify (set_callback None)
   else if pp_press_count s <? pp_press_count_needed s then modify (set_callback None)
   else ret tt) ;;;
  modify (set_state PP_DETECT_FINISHING) ;;;
  board_physical_presence_enable false ;;;
  gets pp_detect_callback.

(** The rest of it, after the callback has returned. *)
Definition physical_detect_done_end : ST (pp C) unit :=
  modify (set_callback None) ;;;
  modify (set_state PP_DETECT_IDLE).

Definition physical_detect_prompt : ST (pp C) unit :=
  modify (set_state PP_DETECT_AWAITING_PRESS).

(** [physical_detect_check_press] under its mutex, with the times read before. *)
Definition check_press_locked (now dt : Z) : ST (pp C) unit :=
  let* s := gets id in
  if negb (pp_detect_in_progress s) then ret tt
  else if pp_press_count_needed s <=? pp_press_count s then ret tt
  else if (if pp_press_count s <? PP_SHORT_PRESS_COUNT
           then (dt <? PP_SHORT_PRESS_MIN_INTERVAL_US)
                || (PP_SHORT_PRESS_MAX_INTERVAL_US <? dt)
           else (dt <? PP_LONG_PRESS_MIN_INTERVAL_US)
                || (PP_LONG_PRESS_MAX_INTERVAL_US <? dt))
  then ret tt
  else
    let count := u8 (pp_press_count s + 1) in
    modify (set_state PP_DETECT_BETWEEN_PRESSES) ;;;
    modify (set_press count now) ;;;
    if count =? pp_press_count_needed s then
      hook_call_deferred physical_detect_done_data 0 ;;; ret tt
    else if count <? PP_SHORT_PRESS_COUNT then
      hook_call_deferred physical_detect_prompt_data PP_SHORT_PRESS_MIN_INTERVAL_US ;;;
      hook_call_deferred physical_detect_done_data PP_SHORT_PRESS_MAX_INTERVAL_US ;;;
      ret tt
    else
      hook_call_deferred physical_detect_prompt_data PP_LONG_PRESS_MIN_INTERVAL_US ;;;
      hook_call_deferred physical_detect_done_data PP_LONG_PRESS_MAX_INTERVAL_US ;;;
      ret tt.

(** The time since the last press, on 64 bits. *)
Definition since_press (now : Z) s : Z := u64 (now - pp_last_press s).

(** The handler when nothing interrupts it. *)
Definition physical_detect_check_press : ST (pp C) unit :=
  let* now := gets time_us in
  let* dt := gets (since_press now) in
  check_press_locked now dt.

(** [physical_detect_start] under its mutex. *)
Definition physical_detect_start_begin (is_long : bool) (callback : C) : ST (pp C) Z :=
  let* s := gets id in
  if negb (bool_decide (pp_detect_state s = PP_DETECT_IDLE)) then ret EC.ERROR_BUSY
  else
    modify (set_needed (if is_long then PP_LONG_PRESS_COUNT else PP_SHORT_PRESS_COUNT)) ;;;
    modify (set_press 0 (time_us s)) ;;;
    modify (set_callback (Some callback)) ;;;
    modify (set_state PP_DETECT_BETWEEN_PRESSES) ;;;
    ret EC.SUCCESS.

(** What it does after releasing the mutex. *)
Definition physical_detect_start_end : ST (pp C) unit :=
  hook_call_deferred physical_detect_check_press_data (-1) ;;;
  board_physical_presence_enable true ;;;
  hook_call_deferred physical_detect_prompt_data PP_SHORT_PRESS_MIN_INTERVAL_US ;;;
  hook_call_deferred physical_detect_done_data PP_SHORT_PRESS_MAX_INTERVAL_US ;;;
  ret tt.

Definition physical_detect_start (is_long : bool) (callback : C) : ST (pp C) Z :=
  let* rv := physical_detect_start_begin is_long callback in
  if rv =? EC.SUCCESS then physical_detect_start_end ;;; ret rv else ret rv.

Definition physical_detect_busy s : bool :=
  negb (bool_decide (pp_detect_state s = PP_DETECT_IDLE)).

Definition physical_detect_abort : ST (pp C) unit :=
  let* in_progress := gets pp_detect_in_progress in
  if in_progress then
    modify (set_state PP_DETECT_ABORT) ;;;
    hook_call_deferred physical_detect_prompt_data (-1) ;;;
    hook_call_deferred physical_detect_check_press_data (-1) ;;;
    hook_call_deferred physical_detect_done_data 0 ;;; ret tt
  else ret tt.

Definition physical_detect_press : ST (pp C) Z :=
  let* s := gets id in
  if bool_decide (pp_detect_state s = PP_DETECT_IDLE) then ret EC.ERROR_NOT_HANDLED
  else hook_call_deferred physical_detect_check_press_data 0 ;;; ret EC.SUCCESS.

Definition physical_presense_fsm_state s : pp_fsm_state :=
  match pp_detect_state s with
  | PP_DETECT_AWAITING_PRESS => PP_AWAITING_PRESS
  | PP_DETECT_BETWEEN_PRESSES => PP_BETWEEN_PRESSES
  | _ => PP_OTHER
  end.

(** The state at boot. *)
Definition pp_boot (t : Z) : pp C :=
  mkPP PP_DETECT_IDLE None 0 0 0 false 0 0 0 t.

(** *** Executions

    The calls of the other tasks interleave with the hook task, which runs one
    deferred function at a time, in any order among those that are due.
    [physical_detect_start] and [physical_detect_done] release their mutex half way
    and are two steps each; [physical_detect_check_press] is three. *)

(** Where the hook task is: between deferred functions, inside [physical_detect_done], or
    inside [physical_detect_check_press] with [now], or with [now] and [dt], read. *)
Inductive hook_position :=
| hook_idle | in_done | check_now (now : Z) | check_dt (now dt : Z).

Record sys := mkSys {
  machine : pp C;
  starting : nat;      (** calls of [physical_detect_start] between the two halves *)
  hook : hook_position;
  started_at : Z       (** when the last successful start happened *)
}.

(** [stale] tells that a start came when the handler of an earlier press had already read
    the time since the last press. *)
Inductive event :=
| Started (is_long stale : bool) (cb : C)
| Aborted
| CallbackRun (cb : C)
| Other.

Definition has_read (h : hook_position) : bool :=
  match h with check_dt _ _ => true | _ => false end.

Inductive step : sys -> event -> sys -> Prop :=
| StepStart s n f t is_long cb s' :
    physical_detect_start_begin is_long cb s = (EC.SUCCESS, s') ->
    step (mkSys s n f t) (Started is_long (has_read f) cb) (mkSys s' (S n) f (time_us s))
| StepStartBusy s n f t is_long cb s' :
    physical_detect_start_begin is_long cb s = (EC.ERROR_BUSY, s') ->
    step (mkSys s n f t) Other (mkSys s' n f t)
| StepStartEnd s n f t :
    step (mkSys s (S n) f t) Other (mkSys (physical_detect_start_end s).2 n f t)
| StepAbort s n f t :
    step (mkSys s n f t) Aborted (mkSys (physical_detect_abort s).2 n f t)
| StepPress s n f t :
    step (mkSys s n f t) Other (mkSys (physical_detect_press s).2 n f t)
| StepTime s n f t d :
    0 <= d -> time_us s + d < 2 ^ 63 ->
    step (mkSys s n f t) Other (mkSys (set_time (time_us s + d) s) n f t)
| StepDone s n t cb s' :
    deferred_due physical_detect_done_data s = true ->
    physical_detect_done_begin (set_until physical_detect_done_data 0 s) = (cb, s') ->
    step (mkSys s n hook_idle t)
      (match cb with Some cb => CallbackRun cb | None => Other end) (mkSys s' n in_done t)
| StepDoneEnd s n t :
    step (mkSys s n in_done t) Other (mkSys (physical_detect_done_end s).2 n hook_idle t)
| StepPrompt s n t :
    deferred_due physical_detect_prompt_data s = true ->
    step (mkSys s n hook_idle t) Other
      (mkSys (physical_detect_prompt (set_until physical_detect_prompt_data 0 s)).2
         n hook_idle t)
| StepCheck s n t :
    deferred_due physical_detect_check_press_data s = true ->
    step (mkSys s n hook_idle t) Other
      (mkSys (set_until physical_detect_check_press_data 0 s) n (check_now (time_us s)) t)
| StepCheckDt s n now t :
    step (mkSys s n (check_now now) t) Other (mkSys s n (check_dt now (since_press now s)) t)
| StepCheckEnd s n now dt t :
    step (mkSys s n (check_dt now dt) t) Other
      (mkSys (check_press_locked now dt s).2 n hook_idle t).

(** Executions from boot, with the events so far, the last first. *)
Inductive reachable : list event -> sys -> Prop :=
| reach_boot t : 0 < t < 2 ^ 63 -> reachable [] (mkSys (pp_boot t) 0 hook_idle t)
| reach_step tr y e y' : reachable tr y -> step y e y' -> reachable (e :: tr) y'.

(** The last start whose callback has not run yet: its length, whether it was stale, and
    its callback. *)
Fixpoint last_start (tr : list event) : option (bool * bool * C) :=
  match tr with
  | [] => None
  | Started is_long stale cb :: _ => Some (is_long, stale, cb)
  | CallbackRun _ :: _ => None
  | Aborted :: tr | Other :: tr => last_start tr
  end.

(** The least time [n] accepted presses can take. *)
Definition min_elapsed (n : Z) : Z :=
  Z.min n PP_SHORT_PRESS_COUNT * PP_SHORT_PRESS_MIN_INTERVAL_US
  + Z.max 0 (n - PP_SHORT_PRESS_COUNT) * PP_LONG_PRESS_MIN_INTERVAL_US.

Definition presses (is_long : bool) : Z :=
  if is_long then PP_LONG_PRESS_COUNT else PP_SHORT_PRESS_COUNT.

(** *** Invariant *)

(** How long the accepted presses have taken: with a stale start the first of them may be
    older than the start. *)
Definition elapsed (stale : bool) (s : pp C) (t : Z) : Prop :=
  t + min_elapsed (pp_press_count s) <= pp_last_press s
  \/ stale = true /\ 1 <= pp_press_count s /\
     (pp_press_count s = 1 \/
      t + min_elapsed (pp_press_count s) - 2 * PP_SHORT_PRESS_MIN_INTERVAL_US <= pp_last_press s).

(** What the handler of a press has read. *)
Definition read_ok (stale : bool) (s : pp C) (h : hook_position) (t : Z) : Prop :=
  match h with
  | check_now now => 0 <= now <= time_us s /\ (t <= now \/ pp_press_count s = 0)
  | check_dt now dt =>
      0 <= now <= time_us s /\
      ((dt = since_press now s /\ (t <= now \/ pp_press_count s = 0))
       \/ stale = true /\ pp_press_count s = 0)
  | _ => True
  end.

Record accepted (tr : list event) (y : sys) (cb : C) (is_long stale : bool) : Prop := {
  acc_start : last_start tr = Some (is_long, stale, cb);
  acc_needed : pp_press_count_needed (machine y) = presses is_long;
  acc_count : 0 <= pp_press_count (machine y) <= presses is_long;
  acc_base : 0 <= started_at y;
  acc_last : 0 <= pp_last_press (machine y) <= time_us (machine y);
  acc_elapsed : elapsed stale (machine y) (started_at y);
  acc_read : read_ok stale (machine y) (hook y) (started_at y)
}.

(** The end of the sequence is scheduled, at most one long interval from now. *)
Definition done_armed (s : pp C) : Prop :=
  0 < until_done s <= time_us s + PP_LONG_PRESS_MAX_INTERVAL_US.

Record inv (tr : list event) (y : sys) : Prop := {
  inv_time : 0 < time_us (machine y) < 2 ^ 63;
  inv_started : started_at y <= time_us (machine y);
  inv_hook : forall now, hook y = check_now now -> 0 <= now <= time_us (machine y);
  inv_read : forall now dt, hook y = check_dt now dt -> 0 <= now <= time_us (machine y);
  inv_finishing : hook y = in_done -> pp_detect_state (machine y) = PP_DETECT_FINISHING;
  inv_callback cb : hook y <> in_done -> pp_detect_callback (machine y) = Some cb ->
    exists is_long stale, accepted tr y cb is_long stale;
  inv_armed cb : hook y <> in_done -> starting y = 0%nat ->
    pp_detect_callback (machine y) = Some cb -> done_armed (machine y)
}.

Lemma min_elapsed_step n dt :
  0 <= n ->
  (if n <? PP_SHORT_PRESS_COUNT then dt <? PP_SHORT_PRESS_MIN_INTERVAL_US
   else dt <? PP_LONG_PRESS_MIN_INTERVAL_US) = false ->
  min_elapsed (n + 1) <= min_elapsed n + dt.
Proof.
  unfold min_elapsed, PP_LONG_PRESS_MIN_INTERVAL_US, PP_SHORT_PRESS_MIN_INTERVAL_US,
    PP_SHORT_PRESS_COUNT, SECOND, MSEC.
  intros Hn. destruct (Z.ltb_spec n 5); rewrite Z.ltb_ge; lia.
Qed.

Lemma min_elapsed_nonneg n : 0 <= n -> 0 <= min_elapsed n.
Proof.
  unfold min_elapsed, PP_LONG_PRESS_MIN_INTERVAL_US, PP_SHORT_PRESS_MIN_INTERVAL_US,
    PP_SHORT_PRESS_COUNT, SECOND, MSEC. lia.
Qed.

Lemma armed us t :
  0 < t < 2 ^ 63 -> 0 <= us <= PP_LONG_PRESS_MAX_INTERVAL_US ->
  0 < u64 (t + us) <= t + PP_LONG_PRESS_MAX_INTERVAL_US.
Proof.
  unfold PP_LONG_PRESS_MAX_INTERVAL_US, SECOND. intros. rewrite uN_small by lia. lia.
Qed.

(** What accepting a press does, or does not do. *)
Lemma check_press_cases now dt s s' :
  check_press_locked now dt s = (tt, s') ->
  0 < time_us s < 2 ^ 63 ->
  0 <= pp_press_count s <= PP_LONG_PRESS_COUNT ->
  pp_press_count_needed s <= PP_LONG_PRESS_COUNT ->
  time_us s' = time_us s /\ pp_detect_callback s' = pp_detect_callback s /\
  pp_press_count_needed s' = pp_press_count_needed s /\
  (s' = s \/
   pp_press_count s' = pp_press_count s + 1 /\
   pp_press_count s < pp_press_count_needed s /\
   pp_last_press s' = now /\ done_armed s' /\
   min_elapsed (pp_press_count s + 1) <= min_elapsed (pp_press_count s) + dt /\
   dt <= PP_LONG_PRESS_MAX_INTERVAL_US).
Proof.
  intros E Ht Hc Hn. unfold check_press_locked, bind, gets, ret, id in E.
  unfold PP_LONG_PRESS_COUNT, PP_SHORT_PRESS_COUNT in *.
  rewrite (uN_small 8) in E by lia.
  destruct (pp_detect_in_progress s) eqn:Hp; [|inversion E; subst; auto].
  cbn [negb] in E.
  destruct (Z.leb_spec (pp_press_count_needed s) (pp_press_count s));
    [inversion E; subst; auto|].
  match type of E with context [if (if ?a then ?b || ?b' else ?c || ?c')%bool then _ else _] =>
    destruct (if a then b || b' else c || c')%bool eqn:Hw end; [inversion E; subst; auto|].
  assert (min_elapsed (pp_press_count s + 1) <= min_elapsed (pp_press_count s) + dt /\
    dt <= PP_LONG_PRESS_MAX_INTERVAL_US) as [Hm Hd].
  { split.
    - apply min_elapsed_step; [lia|]. unfold PP_SHORT_PRESS_COUNT.
      destruct (pp_press_count s <? 5); by apply orb_false_iff in Hw as [? _].
    - unfold PP_LONG_PRESS_MAX_INTERVAL_US, PP_SHORT_PRESS_MAX_INTERVAL_US, SECOND in *.
      destruct (pp_press_count s <? 5); apply orb_false_iff in Hw as [_ ?%Z.ltb_ge]; lia. }
  unfold modify, hook_call_deferred, bind, ret, PP_SHORT_PRESS_MAX_INTERVAL_US,
    PP_SHORT_PRESS_MIN_INTERVAL_US, PP_LONG_PRESS_MIN_INTERVAL_US,
    PP_LONG_PRESS_MAX_INTERVAL_US, SECOND, MSEC in *.
  destruct (pp_press_count s + 1 =? pp_press_count_needed s);
    [|destruct (pp_press_count s + 1 <? 5)];
    cbn in E; inversion E; subst s'; cbn; (split_and!; try done; right);
    split_and!; try done; (lia || by apply armed).
Qed.

Lemma check_press_frame now dt s :
  let s' := (check_press_locked now dt s).2 in
  time_us s' = time_us s /\ pp_detect_callback s' = pp_detect_callback s.
Proof.
  unfold check_press_locked, hook_call_deferred, bind, gets, ret, modify, id.
  repeat split_if; cbn; auto.
Qed.

Lemma boot_inv t : 0 < t < 2 ^ 63 -> inv [] (mkSys (pp_boot t) 0 hook_idle t).
Proof. intros Ht. by split. Qed.

Lemma done_begin_eq s cb s' :
  physical_detect_done_begin s = (cb, s') ->
  pp_detect_state s' = PP_DETECT_FINISHING /\ time_us s' = time_us s /\
  pp_detect_callback s' = cb /\
  (forall c, cb = Some c -> pp_detect_in_progress s = true /\
     pp_press_count_needed s <= pp_press_count s /\ pp_detect_callback s = Some c).
Proof.
  unfold physical_detect_done_begin, bind, gets, ret, modify, id, set_callback.
  destruct (pp_detect_in_progress s); cbn;
    [destruct (Z.ltb_spec (pp_press_count s) (pp_press_count_needed s)); cbn|];
    intros [= <- <-]; cbn; split_and!; auto; intros c; (done || intros ->; auto).
Qed.

(** Steps that change none of the fields of a detection. *)
Definition same_detection (s s' : pp C) : Prop :=
  pp_detect_callback s' = pp_detect_callback s /\ pp_press_count s' = pp_press_count s /\
  pp_press_count_needed s' = pp_press_count_needed s /\ pp_last_press s' = pp_last_press s.

Lemma accepted_same tr s s' n n' f t e cb l st :
  last_start (e :: tr) = last_start tr -> same_detection s s' -> time_us s <= time_us s' ->
  accepted tr (mkSys s n f t) cb l st -> accepted (e :: tr) (mkSys s' n' f t) cb l st.
Proof.
  intros He (_ & H1 & H2 & H3) Ht [A1 A2 A3 A4 A5 A6 A7]; cbn [machine started_at hook] in *.
  split; rewrite ?He; cbn [machine started_at hook]; unfold elapsed, read_ok, since_press in *;
    rewrite ?H1, ?H2, ?H3; try done; [lia|].
  destruct f as [| |now|now dt]; try done; (split; [lia|apply A7]).
Qed.

(** ... and do not take the end of the sequence further away. *)
Lemma same_inv tr s s' n n' f t e :
  last_start (e :: tr) = last_start tr -> same_detection s s' ->
  time_us s <= time_us s' < 2 ^ 63 ->
  (f = in_done -> pp_detect_state s' = pp_detect_state s) ->
  (f <> in_done -> n' = 0%nat -> done_armed s' \/ n = 0%nat /\ (done_armed s -> done_armed s')) ->
  inv tr (mkSys s n f t) -> inv (e :: tr) (mkSys s' n' f t).
Proof.
  intros He Hs Ht Hst Ha [I1 I2 I3 I4 I5 I6 I7]; cbn in *. split; cbn; try lia.
  - intros now E. specialize (I3 _ E). lia.
  - intros now dt E. specialize (I4 _ _ E). lia.
  - intros E. rewrite Hst by done. auto.
  - intros cb Hf Hcb. destruct Hs as (H0 & Hs). rewrite H0 in Hcb.
    destruct (I6 cb Hf Hcb) as (l & st & Hac). exists l, st.
    eapply accepted_same; [done|by split| |exact Hac]. lia.
  - intros cb Hf Hn Hcb. destruct (Ha Hf Hn) as [|[-> Hd]]; [done|]. apply Hd.
    apply (I7 cb); try done. destruct Hs as (H0 & _). congruence.
Qed.

Lemma since_press_small now s :
  0 < time_us s < 2 ^ 63 -> 0 <= now <= time_us s -> 0 <= pp_last_press s <= time_us s ->
  since_press now s <= PP_LONG_PRESS_MAX_INTERVAL_US -> since_press now s = now - pp_last_press s.
Proof.
  unfold since_press, uN, PP_LONG_PRESS_MAX_INTERVAL_US, SECOND. intros Ht Hn Hl Hd.
  destruct (Z.leb_spec (pp_last_press s) now); [rewrite Z.mod_small; lia|].
  rewrite <-(Z.mod_unique_pos (now - pp_last_press s) (2 ^ 64) (-1) (now - pp_last_press s + 2 ^ 64)) in Hd
    by lia. lia.
Qed.

(** The handler of a press under its mutex. *)
Lemma check_end_inv tr s n now dt t :
  inv tr (mkSys s n (check_dt now dt) t) ->
  inv (Other :: tr) (mkSys (check_press_locked now dt s).2 n hook_idle t).
Proof.
  intros [I1 I2 I3 I4 I5 I6 I7]; cbn [machine started_at hook starting] in *.
  destruct (check_press_frame now dt s) as [Ht' Hcb'].
  destruct (check_press_locked now dt s) as [[] s'] eqn:E. cbn [snd] in *.
  destruct (pp_detect_callback s) as [cb|] eqn:Hcb.
  2: { split; cbn; rewrite ?Ht'; try done; intros; congruence. }
  destruct (I6 cb) as (l & st & [A1 A2 A3 A4 A5 A6 A7]); [done|done|]. cbn in *.
  assert (presses l <= PP_LONG_PRESS_COUNT) as Hlong
    by (clear; destruct l; vm_compute; discriminate).
  destruct (check_press_cases now dt s s' E) as (_ & _ & Hnd & Hcase); [exact I1|lia|lia|].
  split; cbn; rewrite ?Ht'; try done.
  - intros cb' _ Hc'. assert (cb' = cb) as -> by congruence. exists l, st.
    destruct Hcase as [->|(E1 & E2 & E3 & _ & E5 & E6)]; [by split|].
    destruct A7 as [Hnow A7].
    split; cbn; rewrite ?E1, ?E3, ?Hnd, ?Ht'; try done; try lia.
    unfold elapsed. rewrite E1, E3.
    destruct A7 as [[-> Hb]|[-> H0]]; [|right; split; [done|lia]].
    rewrite since_press_small in E5 by (lia || done).
    destruct A6 as [A6|(-> & H1 & A6)]; [left; lia|]. right. split; [done|]. split; [lia|]. right.
    destruct A6 as [A6|A6]; [|lia]. rewrite A6.
    change (min_elapsed (1 + 1)) with (2 * PP_SHORT_PRESS_MIN_INTERVAL_US). lia.
  - intros cb' _ Hn Hc'. destruct Hcase as [->|(_ & _ & _ & E4 & _)]; [|done].
    by apply (I7 cb).
Qed.

Lemma step_inv tr y e y' : inv tr y -> step y e y' -> inv (e :: tr) y'.
Proof.
  intros HI Hstep. destruct Hstep as
    [s n f t is_long cb s' E|s n f t is_long cb s' E|s n f t|s n f t|s n f t|s n f t d Hd Hd'
    |s n t cb s' Hdue E|s n t|s n t Hdue|s n t Hdue|s n now t|s n now dt t];
    [..|by apply check_end_inv]; pose proof (inv_time _ _ HI) as Ht; cbn in Ht.
  - destruct HI as [I1 I2 I3 I4 I5 I6 I7]; cbn in *.
    unfold physical_detect_start_begin, bind, gets, ret, modify, id in E.
    destruct (decide (pp_detect_state s = PP_DETECT_IDLE)) as [Hi|Hi];
      [rewrite bool_decide_true in E by done|rewrite bool_decide_false in E by done];
      [|discriminate].
    inversion E; subst s'. split; cbn; try done; [intros Hf'; rewrite I5 in Hi; done|].
    intros cb' Hf' [= <-]. exists is_long, (has_read f).
    split; cbn; try done; try lia.
    + unfold presses, PP_LONG_PRESS_COUNT, PP_SHORT_PRESS_COUNT. destruct is_long; lia.
    + left. cbn. change (min_elapsed 0) with 0. lia.
    + destruct f as [| |now|now dt]; cbn; try done.
      * split; [by apply I3|by right].
      * split; [by apply (I4 now dt)|right; by split].
  - unfold physical_detect_start_begin, bind, gets, ret, modify, id in E.
    destruct (bool_decide _); [discriminate|]. inversion E; subst s'.
    apply (same_inv _ s _ n); try done; [lia|]. intros _ ->. by right.
  - apply (same_inv _ s _ (S n)); try done; [split; [apply Z.le_refl|apply Ht]|]. intros _ _. left.
    apply armed; [exact Ht|by vm_compute].
  - unfold physical_detect_abort, bind, gets, ret, modify.
    destruct (pp_detect_in_progress s) eqn:Hp.
    + apply (same_inv _ s _ n); try done; [split; [apply Z.le_refl|apply Ht]| |].
      * intros ->. pose proof (inv_finishing _ _ HI eq_refl) as Hf. cbn in Hf.
        unfold pp_detect_in_progress in Hp. by rewrite Hf in Hp.
      * intros _ _. left. apply armed; [exact Ht|by vm_compute].
    + apply (same_inv _ s _ n); try done; [split; [apply Z.le_refl|apply Ht]|].
      intros _ ->. by right.
  - unfold physical_detect_press, bind, gets, ret, modify, id.
    destruct (bool_decide _); (apply (same_inv _ s _ n); try done; [cbn; lia|]);
      intros _ ->; by right.
  - apply (same_inv _ s _ n); try done; [cbn; lia|]. intros _ ->. right. split; [done|].
    unfold done_armed. cbn. lia.
  - apply done_begin_eq in E as (H1 & H2 & H3 & _). destruct HI as [I1 I2 I3 I4 I5 I6 I7]; cbn in *.
    split; cbn; rewrite ?H2; try done.
  - destruct HI as [I1 I2 I3 I4 I5 I6 I7]; cbn in *. by split.
  - apply (same_inv _ s _ n); try done; [cbn; lia|]. intros _ ->. by right.
  - destruct HI as [I1 I2 I3 I4 I5 I6 I7]; cbn in *. split; cbn; try done.
    + intros now [= <-]. lia.
    + intros cb _ Hcb. destruct (I6 cb) as (l & st & [A1 A2 A3 A4 A5 A6 A7]); [done|done|].
      exists l, st. split; try done. cbn in *. split; [lia|by left].
    + intros cb _ Hn Hcb. by apply (I7 cb).
  - destruct HI as [I1 I2 I3 I4 I5 I6 I7]; cbn in *. split; cbn; try done.
    + intros now' dt' [= <- _]. by apply I3.
    + intros cb _ Hcb. destruct (I6 cb) as (l & st & [A1 A2 A3 A4 A5 A6 A7]); [done|done|].
      exists l, st. split; try done. cbn in *. destruct A7 as [Hn Hb]. split; [done|].
      by left.
    + intros cb _ Hn Hcb. by apply (I7 cb).
Qed.

Lemma reachable_inv tr y : reachable tr y -> inv tr y.
Proof. induction 1; [by apply boot_inv|by eapply step_inv]. Qed.

End Machine.

(** ** Executable steps, for concrete executions *)

Section Run.
Context {C : Type}.

Inductive action := AStart (is_long : bool) (cb : C) | AStartEnd | AAbort | APress
  | ATime (d : Z) | ADone | ADoneEnd | APrompt | ACheck | ACheckDt | ACheckEnd.

Definition run_action (a : action) (y : sys (C := C)) : option (event * sys (C := C)) :=
  let '(mkSys s n f t) := y in
  match a, n, f with
  | AStart is_long cb, _, _ =>
      let '(rv, s') := physical_detect_start_begin is_long cb s in
      if rv =? EC.SUCCESS
      then Some (Started is_long (has_read f) cb, mkSys s' (S n) f (time_us s))
      else None
  | AStartEnd, S n, _ => Some (Other, mkSys (physical_detect_start_end s).2 n f t)
  | AAbort, _, _ => Some (Aborted, mkSys (physical_detect_abort s).2 n f t)
  | APress, _, _ => Some (Other, mkSys (physical_detect_press s).2 n f t)
  | ATime d, _, _ =>
      if (0 <=? d) && (time_us s + d <? 2 ^ 63)
      then Some (Other, mkSys (set_time (time_us s + d) s) n f t) else None
  | ADone, _, hook_idle =>
      if deferred_due physical_detect_done_data s
      then let '(cb, s') :=
             physical_detect_done_begin (set_until physical_detect_done_data 0 s) in
           Some (match cb with Some cb => CallbackRun cb | None => Other end,
                 mkSys s' n in_done t)
      else None
  | ADoneEnd, _, in_done => Some (Other, mkSys (physical_detect_done_end s).2 n hook_idle t)
  | APrompt, _, hook_idle =>
      if deferred_due physical_detect_prompt_data s
      then Some (Other, mkSys (physical_detect_prompt
                   (set_until physical_detect_prompt_data 0 s)).2 n hook_idle t)
      else None
  | ACheck, _, hook_idle =>
      if deferred_due physical_detect_check_press_data s
      then Some (Other, mkSys (set_until physical_detect_check_press_data 0 s) n
                   (check_now (time_us s)) t)
      else None
  | ACheckDt, _, check_now now =>
      Some (Other, mkSys s n (check_dt now (since_press now s)) t)
  | ACheckEnd, _, check_dt now dt =>
      Some (Other, mkSys (check_press_locked now dt s).2 n hook_idle t)
  | _, _, _ => None
  end.

Lemma run_action_step a y e y' : run_action a y = Some (e, y') -> step y e y'.
Proof.
  destruct y as [s n f t]. unfold run_action.
  destruct a as [is_long cb| | | |d| | | | | |]; try destruct n as [|n]; destruct f;
    intros H; try discriminate;
    try (injection H as <- <-; by constructor);
    repeat match goal with
    | H : context [let '(_, _) := ?m in _] |- _ => destruct m eqn:?
    | H : context [if ?b then _ else _] |- _ => destruct b eqn:?
    end; try discriminate; injection H as <- <-; bool_to_Prop; subst; by econstructor.
Qed.

Fixpoint run_actions (acts : list action) (tr : list (event (C := C))) (y : sys (C := C)) :=
  match acts with
  | [] => Some (tr, y)
  | a :: acts => match run_action a y with
                 | Some (e, y') => run_actions acts (e :: tr) y'
                 | None => None
                 end
  end.

Lemma run_actions_reachable acts : forall tr y tr' y',
  reachable tr y -> run_actions acts tr y = Some (tr', y') -> reachable tr' y'.
Proof.
  induction acts as [|a acts IH]; intros tr y tr' y' Hr E; cbn in E; [by simplify_eq|].
  destruct (run_action a y) as [[e y1]|] eqn:Ea; [|done].
  apply IH in E; [done|]. eapply reach_step; [done|]. by eapply run_action_step.
Qed.

(** One press whose deferred handler runs [dt] after the previous accepted press. *)
Definition press_after (dt : Z) : list action := 
  [ATime (dt - 1); APress; ATime 1; ACheck; ACheckDt; ACheckEnd].

(** A short sequence, from boot to just before the handler that ends it. *)
Definition short_presses (cb : C) (dt : Z) : list action :=
  [AStart false cb; AStartEnd] ++ concat (repeat (press_after dt) 5) ++ [ATime 1].

End Run.

Lemma reach_run {C} (acts : list (action (C := C))) tr y :
  run_actions acts [] (mkSys (pp_boot 1) 0 hook_idle 1) = Some (tr, y) -> reachable tr y.
Proof. apply run_actions_reachable. by constructor. Qed.

(** ** Properties *)

(** C9. The callback of a detection runs only when the sequence it was started for has
    been carried out: the callback is the one of the last start, the five (nine for a
    long sequence) presses have all been accepted, and since that start at least 0.5 s
    (240.5 s for a long sequence) have passed, or 0.2 s less when the start came between the
    reads of the clock and of the time since the last press, in the handler of an earlier
    press, and its lock.  The other tasks can run between these reads and the lock, and
    between any other two steps of the detection. *)
Theorem callback_only_after_presses {C} tr (y y' : sys (C := C)) cb :
  reachable tr y -> step y (CallbackRun cb) y' ->
  exists is_long stale : bool, last_start tr = Some (is_long, stale, cb) /\
    pp_press_count (machine y) = (if is_long then 9 else 5) /\
    started_at y + (if is_long then 240500000 else 500000) - (if stale then 200000 else 0)
      <= time_us (machine y).
Proof.
  intros Hr Hs. apply reachable_inv in Hr as [_ _ _ _ _ Hc _].
  remember (CallbackRun cb) as e eqn:He.
  destruct Hs as [| | | | | |s n t cb' s' Hdue E| | | | |]; try discriminate;
    cbn [machine started_at starting hook] in *.
  apply done_begin_eq in E as (_ & _ & _ & Hrun).
  destruct cb' as [cb'|]; [injection He as ->|discriminate].
  destruct (Hrun cb eq_refl) as (_ & Hle & Hcb). cbn in Hle, Hcb.
  destruct (Hc cb) as (is_long & stale & [H1 H2 H3 H4 H5 H6 _]); [done|done|]. cbn in *.
  exists is_long, stale. assert (pp_press_count s = presses is_long) as Hn by lia.
  unfold elapsed, PP_SHORT_PRESS_MIN_INTERVAL_US, MSEC in H6. rewrite Hn in *.
  split; [done|].
  destruct is_long; (split; [done|]).
  - change (min_elapsed (presses true)) with 240500000 in H6.
    change (presses true) with 9 in H6. destruct stale, H6 as [|(? & _ & [|])]; done || lia.
  - change (min_elapsed (presses false)) with 500000 in H6.
    change (presses false) with 5 in H6. destruct stale, H6 as [|(? & _ & [|])]; done || lia.
Qed.

(** A completed short sequence, and the state after its last handler. *)
Definition sample_run : list (event (C := unit)) * sys (C := unit) :=
  Eval vm_compute in
    default ([], mkSys (pp_boot 1) 0 hook_idle 1)
      (run_actions (short_presses tt 200000) [] (mkSys (pp_boot 1) 0 hook_idle 1)).

Definition sample_end : sys (C := unit) :=
  Eval vm_compute in
    match run_action ADone sample_run.2 with Some (_, y) => y | None => sample_run.2 end.

Lemma sample_reachable : reachable sample_run.1 sample_run.2.
Proof. eapply (reach_run (short_presses tt 200000)). vm_compute. reflexivity. Qed.

Lemma sample_done : step sample_run.2 (CallbackRun tt) sample_end.
Proof. apply (run_action_step ADone). vm_compute. reflexivity. Qed.

Example callback_only_after_presses_witness :
  exists is_long stale : bool, last_start sample_run.1 = Some (is_long, stale, tt) /\
    pp_press_count (machine sample_run.2) = (if is_long then 9 else 5) /\
    started_at sample_run.2 + (if is_long then 240500000 else 500000)
      - (if stale then 200000 else 0) <= time_us (machine sample_run.2).
Proof.
  exact (callback_only_after_presses _ _ _ tt sample_reachable sample_done).
Defined.

(** A start that comes in the handler of a press left over from an earlier sequence, after it
    has read the times: the old press counts for the new sequence, whose callback runs after
    four presses and less than half a second. *)
Definition stale_press : list (action (C := unit)) :=
  short_presses tt 200000 ++
  [ADone; APress; ADoneEnd; ATime 150000; ACheck; ACheckDt;
   AStart false tt; AStartEnd; ACheckEnd] ++
  concat (repeat (press_after 100000) 4) ++ [ATime 1].

Definition stale_run : list (event (C := unit)) * sys (C := unit) :=
  Eval vm_compute in
    default ([], mkSys (pp_boot 1) 0 hook_idle 1)
      (run_actions stale_press [] (mkSys (pp_boot 1) 0 hook_idle 1)).

Example stale_press_counts :
  reachable stale_run.1 stale_run.2 /\
  (exists y', step stale_run.2 (CallbackRun tt) y') /\
  time_us (machine stale_run.2) = started_at stale_run.2 + 400001.
Proof.
  split; [eapply (reach_run stale_press); vm_compute; reflexivity|].
  split; [|vm_compute; reflexivity]. eexists. apply (run_action_step ADone). vm_compute. reflexivity.
Qed.

(** Steps that are not a start. *)
Definition quiet_step {C} (y y' : sys (C := C)) : Prop :=
  exists e, step y e y' /\ forall is_long stale cb, e <> Started is_long stale cb.

(** No start is half way, and the pending callback, if any, has been cancelled. *)
Definition cancelled {C} (s : pp C) : Prop :=
  pp_detect_callback s = None \/
  pp_detect_state s = PP_DETECT_ABORT /\ until_prompt s = 0.

Lemma done_begin_cancelled {C} (s : pp C) d cb s' :
  cancelled s -> physical_detect_done_begin (set_until d 0 s) = (cb, s') ->
  cb = None /\ cancelled s'.
Proof.
  intros Hs E. apply done_begin_eq in E as (_ & _ & Hcb & Hrun).
  destruct cb as [cb|]; [|by split; [|left]]. destruct (Hrun cb eq_refl) as (Hp & _ & Hc).
  destruct Hs as [Hs|[Hs _]]; [cbn in Hc; congruence|].
  unfold pp_detect_in_progress in Hp. cbn in Hp. by rewrite Hs in Hp.
Qed.

Lemma start_begin_state {C} is_long cb (s s' : pp C) :
  physical_detect_start_begin is_long cb s = (EC.ERROR_BUSY, s') -> s' = s.
Proof.
  unfold physical_detect_start_begin, bind, gets, ret, modify, id.
  destruct (bool_decide _); [discriminate|]. by intros [= <-].
Qed.

Lemma cancelled_step {C} (y y' : sys (C := C)) :
  starting y = 0%nat /\ cancelled (machine y) -> quiet_step y y' ->
  starting y' = 0%nat /\ cancelled (machine y').
Proof.
  intros [Hn Hc] (e & Hs & He).
  destruct Hs as [? ? ? ? l c|? ? ? ? ? ? ? E| | | | |? ? ? ? ? ? E| |? ? ? Hdue| | |? ? now dt ?];
    try (by destruct (He l (has_read f) c)); cbn [starting machine] in *; try discriminate;
    (split; [done|]); try done.
  - by rewrite (start_begin_state _ _ _ _ E).
  - unfold physical_detect_abort, bind, gets, ret, modify, cancelled in *.
    destruct Hc as [Hc|[Hc Hu]]; [|by unfold pp_detect_in_progress; rewrite Hc; right].
    left. by destruct (pp_detect_in_progress s).
  - unfold physical_detect_press, bind, gets, ret, modify, id. by destruct (bool_decide _).
  - by eapply done_begin_cancelled.
  - by left.
  - left. destruct Hc as [Hc|[_ Hu]]; [done|].
    unfold deferred_due in Hdue. cbn in Hdue. by rewrite Hu in Hdue.
  - destruct (check_press_frame now dt s) as [_ Hcb].
    destruct Hc as [Hc|[Hc Hu]]; [left; by rewrite Hcb|].
    right. unfold check_press_locked, bind, gets, ret, id, pp_detect_in_progress.
    cbn. by rewrite Hc.
Qed.

(** Aborting a detection in progress is final: when no [physical_detect_start] is
    half way, no callback runs after the abort until another start, in any
    interleaving with presses and deferred calls still pending. *)
Theorem abort_is_final {C} s f t (y1 y2 : sys (C := C)) cb :
  pp_detect_in_progress s = true ->
  star quiet_step (mkSys (physical_detect_abort s).2 0 f t) y1 ->
  ~ step y1 (CallbackRun cb) y2.
Proof.
  intros Hp Hstar Hrun.
  assert (starting y1 = 0%nat /\ cancelled (machine y1)) as [_ Hc].
  { eapply (star_invariant _ _ cancelled_step); [exact Hstar|]. split; [done|]. right.
    unfold physical_detect_abort, bind, gets, ret, modify. rewrite Hp. done. }
  remember (CallbackRun cb) as e eqn:He.
  destruct Hrun as [| | | | | |? ? ? cb' s' Hdue E| | | | |]; try discriminate.
  apply (done_begin_cancelled _ _ _ _ Hc) in E as [-> _]. discriminate.
Qed.

Definition aborted_sample : pp unit :=
  (physical_detect_abort (machine sample_run.2)).2.

Example abort_is_final_witness :
  ~ step (mkSys (set_time (time_us aborted_sample + 7) aborted_sample) 0 hook_idle 1) (CallbackRun tt) sample_end.
Proof.
  apply (abort_is_final (machine sample_run.2) hook_idle 1 _ _ tt); [reflexivity|].
  eapply star_step; [|apply star_refl].
  exists Other. split; [|discriminate].
  apply (StepTime aborted_sample 0 hook_idle 1 7); [lia|reflexivity].
Defined.

(** A detection cannot hang: whenever it is in progress (and no start is half way) the
    call that ends it is scheduled within the longest interval, and letting time pass
    and the hook task run brings the machine back to idle without any press. *)
Theorem detection_ends {C} tr (y : sys (C := C)) cb :
  reachable tr y -> starting y = 0%nat -> hook y = hook_idle ->
  pp_detect_callback (machine y) = Some cb ->
  time_us (machine y) + PP_LONG_PRESS_MAX_INTERVAL_US + 1 < 2 ^ 63 ->
  done_armed (machine y) /\
  exists y', star quiet_step y y' /\ pp_detect_state (machine y') = PP_DETECT_IDLE /\
    time_us (machine y') <= time_us (machine y) + PP_LONG_PRESS_MAX_INTERVAL_US + 1.
Proof.
  intros Hr Hn Hf Hcb Ht. apply reachable_inv in Hr as [Htime _ _ _ _ _ Ha].
  destruct y as [s n f t]; cbn [machine starting hook] in *; subst n f.
  specialize (Ha cb ltac:(done) eq_refl Hcb). split; [done|]. unfold done_armed in Ha.
  set (d := PP_LONG_PRESS_MAX_INTERVAL_US + 1).
  set (s1 := set_time (time_us s + d) s).
  destruct (physical_detect_done_begin (set_until physical_detect_done_data 0 s1))
    as [cb' s2] eqn:E.
  exists (mkSys (physical_detect_done_end s2).2 0 hook_idle t). split.
  - eapply star_step; [|eapply star_step; [|eapply star_step; [|apply star_refl]]].
    + exists Other. split; [apply (StepTime s 0 hook_idle t d)|done]; unfold d;
        unfold PP_LONG_PRESS_MAX_INTERVAL_US, SECOND in *; lia.
    + eexists. split; [eapply (StepDone s1 0 t)|]; [|exact E|by destruct cb'].
      unfold deferred_due. cbn. apply andb_true_iff.
      split; [apply nz_true; lia|apply Z.ltb_lt; unfold d; lia].
    + exists Other. split; [apply StepDoneEnd|done].
  - split; [done|]. apply done_begin_eq in E as (_ & E & _). cbn. rewrite E. cbn.
    unfold d. lia.
Qed.

Example detection_ends_witness :
  done_armed (machine sample_run.2) /\
  exists y', star quiet_step sample_run.2 y' /\
    pp_detect_state (machine y') = PP_DETECT_IDLE /\
    time_us (machine y') <=
      time_us (machine sample_run.2) + PP_LONG_PRESS_MAX_INTERVAL_US + 1.
Proof.
  apply (detection_ends _ _ tt sample_reachable); try reflexivity.
Defined.

(** ** The prompt can outlive the sequence

    [physical_detect_done] does not cancel the prompt.  When the last press is handled
    exactly one minimum interval after the one before, both alarms are due and the
    order of the deferred functions decides. *)

Definition wedged {C} (y : sys (C := C)) : Prop :=
  starting y = 0%nat /\ hook y <> in_done /\
  pp_detect_state (machine y) = PP_DETECT_AWAITING_PRESS /\
  pp_press_count_needed (machine y) <= pp_press_count (machine y) /\
  until_done (machine y) = 0 /\ until_prompt (machine y) = 0.

Lemma wedged_step {C} (y y' : sys (C := C)) e :
  wedged y -> step y e y' -> e <> Aborted -> wedged y'.
Proof.
  intros (H1 & H2 & H3 & H4 & H5 & H6) Hs He. destruct Hs as
    [? ? ? ? ? ? ? E|? ? ? ? ? ? ? E| | | | |? ? ? ? ? Hdue| |? ? ? Hdue| | |? ? now dt ?];
    cbn [starting machine hook] in *; try (discriminate || done).
  - unfold physical_detect_start_begin, bind, gets, ret, modify, id in E.
    by rewrite H3 in E.
  - by rewrite (start_begin_state _ _ _ _ E).
  - unfold physical_detect_press, bind, gets, ret, modify, id. rewrite H3. by split_and!.
  - unfold deferred_due in Hdue. cbn in Hdue. by rewrite H5 in Hdue.
  - unfold check_press_locked, bind, gets, ret, id, pp_detect_in_progress.
    rewrite H3. cbn. apply Z.leb_le in H4. rewrite H4. apply Z.leb_le in H4. by split_and!.
Qed.

Definition race : list (action (C := unit)) :=
  short_presses tt 100000 ++ [ADone; ADoneEnd; APrompt].

Definition race_run : list (event (C := unit)) * sys (C := unit) :=
  Eval vm_compute in
    default ([], mkSys (pp_boot 1) 0 hook_idle 1)
      (run_actions race [] (mkSys (pp_boot 1) 0 hook_idle 1)).

(** A reachable wedge: after a sequence that succeeded and whose callback ran, the
    pending prompt moves the idle machine to "awaiting press" with no end scheduled;
    from then on, without an abort, every start is refused as busy. *)
Theorem prompt_after_done_wedges :
  exists tr (y : sys (C := unit)), reachable tr y /\ In (CallbackRun tt) tr /\
    forall y' is_long cb, star (fun a b => exists e, step a e b /\ e <> Aborted) y y' ->
      physical_detect_start is_long cb (machine y') = (EC.ERROR_BUSY, machine y').
Proof.
  exists race_run.1, race_run.2. split; [|split].
  - apply (reach_run race). vm_compute. reflexivity.
  - cbn. tauto.
  - intros y' is_long cb Hstar. assert (wedged y') as (_ & _ & Hst & _).
    { eapply (star_invariant _ wedged); [|exact Hstar|by vm_compute].
      intros a b Ha (e & Hs & He). by eapply wedged_step. }
    unfold physical_detect_start, physical_detect_start_begin, bind, gets, ret, id.
    by rewrite Hst.
Qed.
