(* ===== verification/CcdConfig.v ===== *)
(** * Case-closed debugging: configuration and state
    (common/ccd_config.c, include/ccd_config.h)

    The state (locked, unlocked, opened), the persistent configuration (flags,
    capabilities, password digest), and every operation that changes them: the TPM
    vendor commands, the console commands, and the callbacks that run after physical
    presence was shown.  The configuration is kept in a variable store [S]; queries
    and services of the board are the fields of a [board] value, which may differ
    at every call; the calls that act on the rest of the device are recorded in
    [actions].  Console output is not modelled. *)

From S2P Require Import Prelude Util NvStore PhysPresence Vendor.

(** ** Data *)

Inductive ccd_state_t := CCD_STATE_LOCKED | CCD_STATE_UNLOCKED | CCD_STATE_OPENED.

#[global] Instance ccd_state_dec : EqDecision ccd_state_t.
Proof. solve_decision. Defined.

Definition ccd_state_code (s : ccd_state_t) : Z :=
  match s with
  | CCD_STATE_LOCKED => 0 | CCD_STATE_UNLOCKED => 1 | CCD_STATE_OPENED => 2
  end.

(** Flags *)
Definition CCD_FLAG_TEST_LAB : Z := 2 ^ 0.
Definition CCD_FLAG_PASSWORD_SET_WHEN_UNLOCKED : Z := 2 ^ 1.
Definition CCD_FLAG_FACTORY_MODE_ENABLED : Z := 2 ^ 2.
Definition CCD_FLAG_RDDKEEPALIVE_AT_BOOT : Z := 2 ^ 19.
Definition CCD_FLAG_OVERRIDE_BATT_AT_BOOT : Z := 2 ^ 20.
Definition CCD_FLAG_OVERRIDE_BATT_STATE_CONNECT : Z := 2 ^ 21.
Definition CCD_FLAG_OVERRIDE_WP_AT_BOOT : Z := 2 ^ 22.
Definition CCD_FLAG_OVERRIDE_WP_STATE_ENABLED : Z := 2 ^ 23.

(** Capabilities, by their index in [cap_info] *)
Definition CCD_CAP_UNLOCK_WITHOUT_AP_REBOOT : Z := 9.
Definition CCD_CAP_UNLOCK_WITHOUT_SHORT_PP : Z := 10.
Definition CCD_CAP_OPEN_WITHOUT_TPM_WIPE : Z := 11.
Definition CCD_CAP_OPEN_WITHOUT_LONG_PP : Z := 12.
Definition CCD_CAP_REMOVE_BATTERY_BYPASSES_PP : Z := 13.
Definition CCD_CAP_OPEN_WITHOUT_DEV_MODE : Z := 17.
Definition CCD_CAP_OPEN_FROM_USB : Z := 18.
Definition CCD_CAP_COUNT : Z := 21.

Definition CCD_CAP_STATE_DEFAULT : Z := 0.
Definition CCD_CAP_STATE_ALWAYS : Z := 1.
Definition CCD_CAP_STATE_UNLESS_LOCKED : Z := 2.
Definition CCD_CAP_STATE_IF_OPENED : Z := 3.
Definition CCD_CAP_STATE_COUNT : Z := 4.

(** In prod images. *)
Definition CCD_CAP_STATE_OPEN_REQ : Z := CCD_CAP_STATE_IF_OPENED.

Definition cap_info : list (list Z * Z) :=
  [(str "UartGscRxAPTx", CCD_CAP_STATE_ALWAYS);
   (str "UartGscTxAPRx", CCD_CAP_STATE_ALWAYS);
   (str "UartGscRxECTx", CCD_CAP_STATE_ALWAYS);
   (str "UartGscTxECRx", CCD_CAP_STATE_IF_OPENED);
   (str "FlashAP", CCD_CAP_STATE_IF_OPENED);
   (str "FlashEC", CCD_CAP_STATE_IF_OPENED);
   (str "OverrideWP", CCD_CAP_STATE_IF_OPENED);
   (str "RebootECAP", CCD_CAP_STATE_IF_OPENED);
   (str "GscFullConsole", CCD_CAP_STATE_IF_OPENED);
   (str "UnlockNoReboot", CCD_CAP_STATE_ALWAYS);
   (str "UnlockNoShortPP", CCD_CAP_STATE_ALWAYS);
   (str "OpenNoTPMWipe", CCD_CAP_STATE_IF_OPENED);
   (str "OpenNoLongPP", CCD_CAP_STATE_IF_OPENED);
   (str "BatteryBypassPP", CCD_CAP_STATE_ALWAYS);
   (str "Unused", CCD_CAP_STATE_ALWAYS);
   (str "I2C", CCD_CAP_STATE_IF_OPENED);
   (str "FlashRead", CCD_CAP_STATE_ALWAYS);
   (str "OpenNoDevMode", CCD_CAP_STATE_OPEN_REQ);
   (str "OpenFromUSB", CCD_CAP_STATE_OPEN_REQ);
   (str "OverrideBatt", CCD_CAP_STATE_IF_OPENED);
   (str "APROCheckVC", CCD_CAP_STATE_IF_OPENED)].

Definition cap_default (cap : Z) : Z := (nth (Z.to_nat cap) cap_info ([], 0)).2.

Definition ccd_cap_state_names : list (list Z) :=
  [str "Default"; str "Always"; str "UnlessLocked"; str "IfOpened"].

Definition CCD_CAP_BITS : Z := 2.
Definition CCD_CAP_BITMASK : Z := 3.
Definition CCD_CAPS_PER_BYTE : Z := 4.

Definition CCD_RESET_TEST_LAB : Z := 2 ^ 0.
Definition CCD_RESET_UNLOCKED_ONLY : Z := 2 ^ 1.
Definition CCD_RESET_FACTORY : Z := 2 ^ 2.

Definition PASSWORD_RATE_LIMIT_US : Z := 3 * SECOND.
Definition CCD_CONFIG_VERSION : Z := 0x10.
Definition CCD_PASSWORD_SALT_SIZE : nat := 4.
Definition CCD_PASSWORD_DIGEST_SIZE : nat := 16.
Definition CCD_MAX_PASSWORD_SIZE : Z := 40.

Record ccd_config := mkConfig {
  version : Z;
  flags : list Z;            (* 3 bytes *)
  capabilities : list Z;     (* 8 bytes *)
  password_salt : list Z;    (* 4 bytes *)
  password_digest : list Z   (* 16 bytes *)
}.

Definition sizeof_config : nat := 32.

(** The structure as it lies in memory. *)
Definition config_bytes (c : ccd_config) : list Z :=
  version c :: flags c ++ capabilities c ++ password_salt c ++ password_digest c.

Definition config_of_bytes (l : list Z) : ccd_config :=
  mkConfig (hd 0 l) (sub 1 3 l) (sub 4 8 l) (sub 12 4 l) (sub 16 16 l).

Definition zero_config : ccd_config :=
  mkConfig 0 (zeros 3) (zeros 8) (zeros 4) (zeros 16).

Definition k_ccd_config : list Z := [3].

Definition k_public_flags : Z :=
  Z.lor CCD_FLAG_RDDKEEPALIVE_AT_BOOT (Z.lor CCD_FLAG_OVERRIDE_WP_AT_BOOT
    (Z.lor CCD_FLAG_OVERRIDE_WP_STATE_ENABLED (Z.lor CCD_FLAG_OVERRIDE_BATT_AT_BOOT
      CCD_FLAG_OVERRIDE_BATT_STATE_CONNECT))).

(** ** Raw accessors of the configuration *)

Definition raw_get_flags (c : ccd_config) : Z :=
  Z.lor (at_ (flags c) 0)
    (Z.lor (Z.shiftl (at_ (flags c) 1) 8) (Z.shiftl (at_ (flags c) 2) 16)).

Definition with_flags (c : ccd_config) (f : list Z) : ccd_config :=
  mkConfig (version c) f (capabilities c) (password_salt c) (password_digest c).

Definition raw_set_flag (c : ccd_config) (flag : Z) (value : bool) : ccd_config :=
  let f := raw_get_flags c in
  let f := if value then Z.lor f flag else clear_bits 32 f flag in
  with_flags c [u8 f; u8 (Z.shiftr f 8); u8 (Z.shiftr f 16)].

Definition raw_get_cap (c : ccd_config) (cap : Z) (translate_default : bool) : Z :=
  let index := cap / CCD_CAPS_PER_BYTE in
  let shift := (cap mod CCD_CAPS_PER_BYTE) * CCD_CAP_BITS in
  let s := Z.land (Z.shiftr (at_ (capabilities c) index) shift) CCD_CAP_BITMASK in
  if (s =? CCD_CAP_STATE_DEFAULT) && translate_default then cap_default cap else s.

Definition raw_set_cap (c : ccd_config) (cap st : Z) : ccd_config :=
  let index := cap / CCD_CAPS_PER_BYTE in
  let shift := (cap mod CCD_CAPS_PER_BYTE) * CCD_CAP_BITS in
  let b := at_ (capabilities c) index in
  let b := clear_bits 8 b (Z.shiftl CCD_CAP_BITMASK shift) in
  let b := u8 (Z.lor b (Z.shiftl (Z.land st CCD_CAP_BITMASK) shift)) in
  mkConfig (version c) (flags c) (<[Z.to_nat index := b]> (capabilities c))
    (password_salt c) (password_digest c).

(** All capability indexes, in the order of the code's loops. *)
Definition all_caps : list Z := map Z.of_nat (seq 0 (Z.to_nat CCD_CAP_COUNT)).

Definition raw_check_all_caps_default (c : ccd_config) : bool :=
  forallb (fun i => raw_get_cap c i false =? CCD_CAP_STATE_DEFAULT) all_caps.

Definition raw_has_password (c : ccd_config) : bool :=
  nz (fold_left Z.lor (password_digest c) (fold_left Z.lor (password_salt c) 0)).

Definition raw_reset_password (c : ccd_config) : ccd_config :=
  raw_set_flag
    (mkConfig (version c) (flags c) (capabilities c)
       (zeros CCD_PASSWORD_SALT_SIZE) (zeros CCD_PASSWORD_DIGEST_SIZE))
    CCD_FLAG_PASSWORD_SET_WHEN_UNLOCKED false.

Definition with_password (c : ccd_config) (salt digest : list Z) : ccd_config :=
  mkConfig (version c) (flags c) (capabilities c) salt digest.

(** The capability of that name, or [CCD_CAP_COUNT]. *)
Fixpoint cap_from_name (name : list Z) (infos : list (list Z * Z)) (i : Z) : Z :=
  match infos with
  | [] => CCD_CAP_COUNT
  | (n, _) :: infos =>
      if strcasecmp name n =? 0 then i else cap_from_name name infos (i + 1)
  end.

Definition ccd_cap_from_name (name : list Z) : Z := cap_from_name name cap_info 0.

(** ** State and environment *)

(** What physical presence was asked for. *)
Inductive callback := ccd_open_done_async | ccd_unlock_done_cb | ccd_testlab_toggle_cb.

(** Calls into the rest of the device. *)
Inductive action :=
| hook_notify_HOOK_CCD_CHANGE
| board_wp_follow_ccd_config
| board_reboot_ap
| delay_sleep_tpm_wipe
| tpm_sync_reset (rv : Z)
| board_wipe_tpm (rv : Z).

(** The services of other components, with the answers they give: queries of the
    board, the results of wiping the TPM, the random generator (its success and what
    it leaves in the buffer), the hash and the device's unique identifier. *)
Record board := mkBoard {
  board_battery_is_present : bool;
  board_fwmp_allows_unlock : bool;
  board_vboot_dev_mode_enabled : bool;
  board_is_first_factory_boot : bool;
  board_id_is_mismatched : bool;
  tpm_sync_reset_result : Z;
  board_wipe_tpm_result : Z;
  fips_rand_salt : bool * list Z;
  sha256_init_ok : bool;
  sha256 : list Z -> list Z;
  chip_unique_id : list Z
}.

Record ccd (S : Type) := mkCcd {
  ccd_state : ccd_state_t;
  config : ccd_config;
  ccd_config_loaded : bool;
  force_disabled : bool;
  ccd_console_active : bool;
  last_password_time : Z;
  presence : pp callback;
  store : S;
  actions : list action     (* the last first *)
}.
Arguments mkCcd {S}.
Arguments ccd_state {S}.
Arguments config {S}.
Arguments ccd_config_loaded {S}.
Arguments force_disabled {S}.
Arguments ccd_console_active {S}.
Arguments last_password_time {S}.
Arguments presence {S}.
Arguments store {S}.
Arguments actions {S}.

(** The static variables at boot. *)
Definition ccd_boot {S} (p : pp callback) (s : S) : ccd S :=
  mkCcd CCD_STATE_LOCKED zero_config false false false 0 p s [].

Section Ops.
Context {S : Type} `{!NvStore S}.
Context (E : board).

Notation M := (ST (ccd S)).

Definition upd (f : ccd S -> ccd S) : M unit := modify f.

Definition set_config (c : ccd_config) : M unit := upd (fun w =>
  mkCcd (ccd_state w) c (ccd_config_loaded w) (force_disabled w) (ccd_console_active w)
    (last_password_time w) (presence w) (store w) (actions w)).

Definition act (a : action) : M unit := upd (fun w =>
  mkCcd (ccd_state w) (config w) (ccd_config_loaded w) (force_disabled w)
    (ccd_console_active w) (last_password_time w) (presence w) (store w)
    (a :: actions w)).

Definition assign_state (st : ccd_state_t) : M unit := upd (fun w =>
  mkCcd st (config w) (ccd_config_loaded w) (force_disabled w) (ccd_console_active w)
    (last_password_time w) (presence w) (store w) (actions w)).

Definition set_loaded (b : bool) : M unit := upd (fun w =>
  mkCcd (ccd_state w) (config w) b (force_disabled w) (ccd_console_active w)
    (last_password_time w) (presence w) (store w) (actions w)).

Definition set_force_disabled (b : bool) : M unit := upd (fun w =>
  mkCcd (ccd_state w) (config w) (ccd_config_loaded w) b (ccd_console_active w)
    (last_password_time w) (presence w) (store w) (actions w)).

Definition set_console_active (b : bool) : M unit := upd (fun w =>
  mkCcd (ccd_state w) (config w) (ccd_config_loaded w) (force_disabled w) b
    (last_password_time w) (presence w) (store w) (actions w)).

Definition set_password_time (t : Z) : M unit := upd (fun w =>
  mkCcd (ccd_state w) (config w) (ccd_config_loaded w) (force_disabled w)
    (ccd_console_active w) t (presence w) (store w) (actions w)).

Definition set_store (s : S) : M unit := upd (fun w =>
  mkCcd (ccd_state w) (config w) (ccd_config_loaded w) (force_disabled w)
    (ccd_console_active w) (last_password_time w) (presence w) s (actions w)).

(** An operation of the physical presence component. *)
Definition on_presence {A} (m : ST (pp callback) A) : M A := fun w =>
  let '(a, p) := m (presence w) in
  (a, mkCcd (ccd_state w) (config w) (ccd_config_loaded w) (force_disabled w)
        (ccd_console_active w) (last_password_time w) p (store w) (actions w)).

Definition update_config (f : ccd_config -> ccd_config) : M unit :=
  let* c := gets config in set_config (f c).

(** [get_time().le.lo] *)
Definition time_lo (w : ccd S) : Z := u32 (time_us (presence w)).

(** *** Passwords *)

(** [None] is EC_ERROR_HW_INTERNAL. *)
Definition ccd_password_digest (c : ccd_config) (password : list Z) : option (list Z) :=
  if sha256_init_ok E
  then Some (take CCD_PASSWORD_DIGEST_SIZE
               (sha256 E (password_salt c ++ chip_unique_id E ++ password)))
  else None.

Definition raw_check_password (password : list Z) : M Z :=
  let* w := gets id in
  if negb (raw_has_password (config w)) then
    ret (if (length password =? 0)%nat then EC.SUCCESS else EC.ERROR_ACCESS_DENIED)
  else
    let t := time_lo w in
    if u32 (t - last_password_time w) <? PASSWORD_RATE_LIMIT_US then ret EC.ERROR_BUSY
    else
      set_password_time t ;;;
      match ccd_password_digest (config w) password with
      | None => ret EC.ERROR_HW_INTERNAL
      | Some digest =>
          ret (if nz (safe_memcmp digest (password_digest (config w))
                        CCD_PASSWORD_DIGEST_SIZE)
               then EC.ERROR_ACCESS_DENIED else EC.SUCCESS)
      end.

Definition raw_set_password (password : list Z) : M Z :=
  let '(ok, salt) := fips_rand_salt E in
  update_config (fun c => with_password c salt (password_digest c)) ;;;
  if negb ok then ret EC.ERROR_HW_INTERNAL
  else
    let* c := gets config in
    match ccd_password_digest c password with
    | None => ret EC.ERROR_HW_INTERNAL
    | Some digest =>
        update_config (fun c => with_password c (password_salt c) digest) ;;;
        let* w := gets id in
        update_config (fun c => raw_set_flag c CCD_FLAG_PASSWORD_SET_WHEN_UNLOCKED
                         (bool_decide (ccd_state w = CCD_STATE_UNLOCKED))) ;;;
        ret EC.SUCCESS
    end.

(** *** State, flags and the stored configuration *)

Definition ccd_set_state (st : ccd_state_t) : M unit :=
  let* w := gets id in
  if bool_decide (st = ccd_state w) then ret tt
  else assign_state st ;;; act hook_notify_HOOK_CCD_CHANGE.

Definition get_flag (w : ccd S) (flag : Z) : bool :=
  if negb (ccd_config_loaded w) || force_disabled w then false
  else nz (Z.land (raw_get_flags (config w)) flag).

Definition ccd_get_flag (flag : Z) : M bool := gets (fun w => get_flag w flag).

Definition ccd_save_config : M Z :=
  let* w := gets id in
  let '(rv, s) := setvar (store w) k_ccd_config (config_bytes (config w)) in
  set_store s ;;;
  if nz rv then ret rv
  else
    (if ccd_config_loaded w then act hook_notify_HOOK_CCD_CHANGE else ret tt) ;;;
    ret rv.

Definition ccd_set_cap (cap st : Z) : M Z :=
  let* w := gets id in
  if negb (ccd_config_loaded w) then ret EC.ERROR_BUSY
  else if st =? raw_get_cap (config w) cap false then ret EC.SUCCESS
  else
    update_config (fun c => raw_set_cap c cap st) ;;;
    ccd_save_config.

(** The loop that resets the capabilities that are not IfOpened. *)
Definition reset_unlocked_caps (c : ccd_config) : ccd_config :=
  fold_left (fun c i =>
    if raw_get_cap c i true =? CCD_CAP_STATE_IF_OPENED then c
    else raw_set_cap c i CCD_CAP_STATE_DEFAULT) all_caps c.

(** The loop that allows all capabilities. *)
Definition allow_all_caps (c : ccd_config) : ccd_config :=
  fold_left (fun c i => raw_set_cap c i CCD_CAP_STATE_ALWAYS) all_caps c.

Definition ccd_reset_config (rflags : Z) : M Z :=
  let* old_lab := ccd_get_flag CCD_FLAG_TEST_LAB in
  (if nz (Z.land rflags CCD_RESET_UNLOCKED_ONLY) then
     let* set_when_unlocked := ccd_get_flag CCD_FLAG_PASSWORD_SET_WHEN_UNLOCKED in
     (if set_when_unlocked then update_config raw_reset_password else ret tt) ;;;
     update_config reset_unlocked_caps
   else
     set_config (mkConfig CCD_CONFIG_VERSION (zeros 3) (zeros 8) (zeros 4) (zeros 16)) ;;;
     act board_wp_follow_ccd_config) ;;;
  (if nz (Z.land rflags CCD_RESET_FACTORY) then
     update_config (fun c =>
       let c := allow_all_caps c in
       let c := raw_set_flag c CCD_FLAG_FACTORY_MODE_ENABLED true in
       let c := raw_set_flag c CCD_FLAG_OVERRIDE_WP_AT_BOOT true in
       raw_set_flag c CCD_FLAG_OVERRIDE_WP_STATE_ENABLED false) ;;;
     act board_wp_follow_ccd_config
   else ret tt) ;;;
  (if nz (Z.land rflags CCD_RESET_TEST_LAB) then ret tt
   else update_config (fun c => raw_set_flag c CCD_FLAG_TEST_LAB old_lab)) ;;;
  ccd_save_config.

Definition ccd_load_config : M unit :=
  let* w := gets id in
  if ccd_config_loaded w then ret tt
  else
    match getvar (store w) k_ccd_config with
    | None =>
        ccd_reset_config (if board_is_first_factory_boot E
                          then CCD_RESET_FACTORY else CCD_RESET_TEST_LAB) ;;;
        ret tt
    | Some val =>
        update_config (fun c => config_of_bytes
          (splice 0 (take (Nat.min sizeof_config (length val)) val) (config_bytes c))) ;;;
        let* c := gets config in
        if negb (version c =? CCD_CONFIG_VERSION)
           || negb (length val =? sizeof_config)%nat
        then ccd_reset_config (if (length val <? 2)%nat then CCD_RESET_TEST_LAB else 0) ;;;
             ret tt
        else ret tt
    end ;;;
    set_loaded true ;;;
    act hook_notify_HOOK_CCD_CHANGE.

Definition ccd_reset_password : M Z :=
  update_config raw_reset_password ;;;
  ccd_save_config.

Definition ccd_set_password (password : list Z) : M Z :=
  let* result := raw_set_password password in
  if negb (result =? EC.SUCCESS) then ret result
  else ccd_save_config.

(** *** Capabilities and the external interface *)

Definition cap_enabled (w : ccd S) (cap : Z) : bool :=
  if negb (ccd_config_loaded w) || force_disabled w then false
  else
    let st := raw_get_cap (config w) cap true in
    if st =? CCD_CAP_STATE_ALWAYS then true
    else if st =? CCD_CAP_STATE_UNLESS_LOCKED
    then negb (bool_decide (ccd_state w = CCD_STATE_LOCKED))
    else bool_decide (ccd_state w = CCD_STATE_OPENED).

Definition ccd_is_cap_enabled (cap : Z) : M bool := gets (fun w => cap_enabled w cap).

Definition ccd_has_password (w : ccd S) : bool := raw_has_password (config w).

Definition ccd_config_init (st : Z) : M unit :=
  assign_state (if st =? 1 then CCD_STATE_UNLOCKED
                else if st =? 2 then CCD_STATE_OPENED else CCD_STATE_LOCKED) ;;;
  ccd_load_config.

Definition ccd_set_flag (flag : Z) (value : bool) : M Z :=
  let* w := gets id in
  if force_disabled w then ret EC.ERROR_ACCESS_DENIED
  else if nz (clear_bits 32 flag k_public_flags) then ret EC.ERROR_ACCESS_DENIED
  else if negb (ccd_config_loaded w) then ret EC.ERROR_BUSY
  else if Bool.eqb (get_flag w flag) value then ret EC.SUCCESS
  else
    update_config (fun c => raw_set_flag c flag value) ;;;
    ccd_save_config.

Definition ccd_disable : M unit :=
  set_force_disabled true ;;;
  ccd_set_state CCD_STATE_LOCKED.

Definition ccd_get_factory_mode : M bool := ccd_get_flag CCD_FLAG_FACTORY_MODE_ENABLED.

(** *** What happens once physical presence was shown *)

Definition ccd_open_done (sync : bool) : M unit :=
  act delay_sleep_tpm_wipe ;;;
  let* no_wipe := ccd_is_cap_enabled CCD_CAP_OPEN_WITHOUT_TPM_WIPE in
  let* rv :=
    if no_wipe then ret EC.SUCCESS
    else if sync then
      act (tpm_sync_reset (tpm_sync_reset_result E)) ;;; ret (tpm_sync_reset_result E)
    else
      act (board_wipe_tpm (board_wipe_tpm_result E)) ;;; ret (board_wipe_tpm_result E) in
  if negb (rv =? EC.SUCCESS) then ret tt
  else
    let* no_reboot := ccd_is_cap_enabled CCD_CAP_UNLOCK_WITHOUT_AP_REBOOT in
    let* no_wipe := ccd_is_cap_enabled CCD_CAP_OPEN_WITHOUT_TPM_WIPE in
    (if negb no_reboot || (negb no_wipe && sync) then act board_reboot_ap else ret tt) ;;;
    ccd_set_state CCD_STATE_OPENED.

Definition ccd_unlock_done : M unit :=
  let* no_reboot := ccd_is_cap_enabled CCD_CAP_UNLOCK_WITHOUT_AP_REBOOT in
  (if negb no_reboot then act board_reboot_ap else ret tt) ;;;
  ccd_set_state CCD_STATE_UNLOCKED.

Definition ccd_testlab_toggle : M unit :=
  let* lab := ccd_get_flag CCD_FLAG_TEST_LAB in
  update_config (fun c => raw_set_flag c CCD_FLAG_TEST_LAB (negb lab)) ;;;
  ccd_save_config ;;;
  ret tt.

Definition run_callback (cb : callback) : M unit :=
  match cb with
  | ccd_open_done_async => ccd_open_done false
  | ccd_unlock_done_cb => ccd_unlock_done
  | ccd_testlab_toggle_cb => ccd_testlab_toggle
  end.

(** The deferred call that ends a presence detection, with its callback. *)
Definition physical_detect_done : M unit :=
  let* cb := on_presence physical_detect_done_begin in
  match cb with Some cb => run_callback cb | None => ret tt end ;;;
  on_presence physical_detect_done_end.

(** *** Vendor commands *)

(** A C string in a buffer: the bytes before the first NUL. *)
Fixpoint cstring (l : list Z) : list Z :=
  match l with
  | [] => []
  | c :: l => if c =? 0 then [] else c :: cstring l
  end.

(** [buffer[p->in_size] = '\0';] *)
Definition terminate (p : vendor_cmd_params) : vendor_cmd_params :=
  set_buffer p (<[Z.to_nat (in_size p) := 0]> (buffer p)).

Definition from_usb_or_alt (p : vendor_cmd_params) : bool :=
  nz (Z.land (Vendor.flags p) (Z.lor VENDOR_CMD_FROM_USB VENDOR_CMD_FROM_ALT_IF)).

Definition open_denied (p : vendor_cmd_params) : M (Z * vendor_cmd_params) :=
  ret (RC.VENDOR_RC_NOT_ALLOWED, answer p EC.ERROR_ACCESS_DENIED).

(** The part of [ccd_open] that follows the checks of who is allowed to open. *)
Definition ccd_open_allowed (p : vendor_cmd_params) : M (Z * vendor_cmd_params) :=
  let* w := gets id in
  if physical_detect_busy (presence w) then
    on_presence physical_detect_abort ;;;
    ret (RC.VENDOR_RC_INTERNAL_ERROR, answer p EC.ERROR_BUSY)
  else
    let is_long := negb (cap_enabled w CCD_CAP_OPEN_WITHOUT_LONG_PP) in
    let need_pp := negb (negb is_long && cap_enabled w CCD_CAP_UNLOCK_WITHOUT_SHORT_PP) in
    let need_pp := need_pp && negb (cap_enabled w CCD_CAP_REMOVE_BATTERY_BYPASSES_PP
                                    && negb (board_battery_is_present E)) in
    if need_pp then
      let* rv := on_presence (physical_detect_start is_long ccd_open_done_async) in
      if negb (rv =? EC.SUCCESS)
      then ret (RC.VENDOR_RC_INTERNAL_ERROR, answer p rv)
      else ret (RC.VENDOR_RC_IN_PROGRESS, p)
    else
      ccd_open_done true ;;;
      ret (RC.VENDOR_RC_SUCCESS, p).

Definition ccd_open : handler (ccd S) := fun p =>
  let* w := gets id in
  if force_disabled w then open_denied p
  else if bool_decide (ccd_state w = CCD_STATE_OPENED)
  then ret (RC.VENDOR_RC_SUCCESS, p)
  else if negb (board_fwmp_allows_unlock E) then open_denied p
  else if raw_has_password (config w) then
    if in_size p =? 0
    then ret (RC.VENDOR_RC_PASSWORD_REQUIRED, answer p EC.ERROR_PARAM_COUNT)
    else
      let p := terminate p in
      let* rv := raw_check_password (cstring (buffer p)) in
      if nz rv then ret (RC.VENDOR_RC_INTERNAL_ERROR, answer p rv)
      else ccd_open_allowed p
  else if negb (board_battery_is_present E) then ccd_open_allowed p
  else if (cap_enabled w CCD_CAP_OPEN_WITHOUT_DEV_MODE || board_vboot_dev_mode_enabled E)
          && (cap_enabled w CCD_CAP_OPEN_FROM_USB || negb (from_usb_or_alt p))
  then ccd_open_allowed p
  else open_denied p.

Definition ccd_unlock : handler (ccd S) := fun p =>
  let* w := gets id in
  if force_disabled w then open_denied p
  else if bool_decide (ccd_state w = CCD_STATE_UNLOCKED)
  then ret (RC.VENDOR_RC_SUCCESS, p)
  else if bool_decide (ccd_state w = CCD_STATE_OPENED)
  then ccd_unlock_done ;;; ret (RC.VENDOR_RC_SUCCESS, p)
  else if negb (raw_has_password (config w)) || negb (board_fwmp_allows_unlock E)
  then open_denied p
  else if in_size p =? 0
  then ret (RC.VENDOR_RC_PASSWORD_REQUIRED, answer p EC.ERROR_PARAM_COUNT)
  else
    let p := terminate p in
    let* rv := raw_check_password (cstring (buffer p)) in
    if nz rv then ret (RC.VENDOR_RC_INTERNAL_ERROR, answer p rv)
    else if physical_detect_busy (presence w) then
      on_presence physical_detect_abort ;;;
      ret (RC.VENDOR_RC_INTERNAL_ERROR, answer p EC.ERROR_BUSY)
    else
      let need_pp := negb (cap_enabled w CCD_CAP_UNLOCK_WITHOUT_SHORT_PP) in
      let need_pp := need_pp && negb (cap_enabled w CCD_CAP_REMOVE_BATTERY_BYPASSES_PP
                                      && negb (board_battery_is_present E)) in
      if need_pp then
        let* rv := on_presence (physical_detect_start false ccd_unlock_done_cb) in
        if negb (rv =? EC.SUCCESS)
        then ret (RC.VENDOR_RC_INTERNAL_ERROR, answer p rv)
        else ret (RC.VENDOR_RC_IN_PROGRESS, p)
      else
        ccd_unlock_done ;;;
        ret (RC.VENDOR_RC_SUCCESS, p).

Definition ccd_lock : handler (ccd S) := fun p =>
  ccd_set_state CCD_STATE_LOCKED ;;;
  ret (RC.VENDOR_RC_SUCCESS, p).

Definition do_ccd_password (password : list Z) : M Z :=
  let* w := gets id in
  if bool_decide (ccd_state w = CCD_STATE_LOCKED) then ret EC.ERROR_ACCESS_DENIED
  else if raw_has_password (config w) then
    let clear_prefix := str "clear:" in
    if nz (strncasecmp password clear_prefix (length clear_prefix))
    then ret EC.ERROR_ACCESS_DENIED
    else
      let* rv := raw_check_password (drop (length clear_prefix) password) in
      if negb (rv =? EC.SUCCESS) then ret EC.ERROR_ACCESS_DENIED
      else ccd_reset_password
  else ccd_set_password password.

Definition ccd_password : handler (ccd S) := fun p =>
  if from_usb_or_alt p then open_denied p
  else
    let* rv :=
      if (in_size p =? 0) || (CCD_MAX_PASSWORD_SIZE + 1 <=? in_size p)
      then ret EC.ERROR_PARAM1
      else do_ccd_password (cstring (take (Z.to_nat (in_size p)) (buffer p))) in
    if negb (rv =? EC.SUCCESS)
    then ret (RC.VENDOR_RC_INTERNAL_ERROR, answer p rv)
    else ret (RC.VENDOR_RC_SUCCESS, p).

Definition CCD_PP_CLOSED : Z := 0.
Definition CCD_PP_AWAITING_PRESS : Z := 1.
Definition CCD_PP_BETWEEN_PRESSES : Z := 2.
Definition CCD_PP_DONE : Z := 3.

Definition ccd_pp_poll : handler (ccd S) := fun p =>
  let* w := gets id in
  ret (RC.VENDOR_RC_SUCCESS,
       answer p
         (if bool_decide (ccd_state w = CCD_STATE_OPENED)
             || bool_decide (ccd_state w = CCD_STATE_UNLOCKED)
          then CCD_PP_DONE
          else match physical_presense_fsm_state (presence w) with
               | PP_AWAITING_PRESS => CCD_PP_AWAITING_PRESS
               | PP_BETWEEN_PRESSES => CCD_PP_BETWEEN_PRESSES
               | PP_OTHER => CCD_PP_CLOSED
               end)).

Definition ccd_pp_poll_unlock : handler (ccd S) := fun p =>
  let* w := gets id in
  if negb (bool_decide (ccd_state w = CCD_STATE_OPENED))
     && negb (bool_decide (ccd_state w = CCD_STATE_UNLOCKED))
  then ccd_pp_poll p
  else ret (RC.VENDOR_RC_SUCCESS, answer p CCD_PP_DONE).

Definition ccd_pp_poll_open : handler (ccd S) := fun p =>
  let* w := gets id in
  if negb (bool_decide (ccd_state w = CCD_STATE_OPENED)) then ccd_pp_poll p
  else ret (RC.VENDOR_RC_SUCCESS, answer p CCD_PP_DONE).

(** The loop that packs the capabilities, two bits each, in two 32-bit words. *)
Definition pack_caps (get : Z -> Z) : Z * Z :=
  fold_left (fun '(w0, w1) i =>
    let shift := (i mod 16) * CCD_CAP_BITS in
    let v := Z.shiftl (get i) shift in
    if i / 16 =? 0 then (Z.lor w0 v, w1) else (w0, Z.lor w1 v)) all_caps (0, 0).

Definition sizeof_ccd_info_response : Z := 23.

Definition ccd_get_info : handler (ccd S) := fun p =>
  let* w := gets id in
  let '(cur0, cur1) := pack_caps (fun i => raw_get_cap (config w) i true) in
  let '(def0, def1) := pack_caps cap_default in
  let response :=
    be_bytes 4 cur0 ++ be_bytes 4 cur1 ++ be_bytes 4 def0 ++ be_bytes 4 def1
    ++ be_bytes 4 (raw_get_flags (config w))
    ++ [ccd_state_code (ccd_state w); b2z (force_disabled w);
        Z.lor (if raw_has_password (config w) then 1 else 0)
              (if raw_check_all_caps_default (config w) then 2 else 0)] in
  ret (RC.VENDOR_RC_SUCCESS,
       set_buffer (set_out_size p sizeof_ccd_info_response)
         (splice 0 response (buffer p))).

(** The subcommand is the first byte of the payload. *)
Definition ccd_vendor : handler (ccd S) := fun p =>
  if out_size p <? sizeof_ccd_info_response + 1
  then ret (RC.VENDOR_RC_RESPONSE_TOO_BIG, set_out_size p 0)
  else
    let p := set_out_size p 0 in
    let subcommand := at_ (buffer p) 0 in
    match
      (if subcommand =? 0 then Some ccd_password
       else if subcommand =? 1 then Some ccd_open
       else if subcommand =? 2 then Some ccd_unlock
       else if subcommand =? 3 then Some ccd_lock
       else if subcommand =? 4 then Some ccd_pp_poll_unlock
       else if subcommand =? 5 then Some ccd_pp_poll_open
       else if subcommand =? 6 then Some ccd_get_info
       else None)
    with
    | None => ret (RC.VENDOR_RC_NO_SUCH_SUBCOMMAND, p)
    | Some h =>
        let* (rc, p') := h (set_in_size (set_buffer p (tl (buffer p)))
                              (u32 (in_size p - 1))) in
        let b := hd 0 (buffer p) :: buffer p' in
        ret (rc, set_buffer (set_in_size p' (u32 (in_size p' + 1)))
                   (splice 0 (sub 1 (Z.to_nat (out_size p')) b) b))
    end.

(** *** Console commands *)

Definition arg (args : list (list Z)) (i : nat) : list Z := nth i args [].

Definition argc (args : list (list Z)) : nat := length args.

Definition command_ccd_reset (args : list (list Z)) : M Z :=
  let* w := gets id in
  if (1 <? argc args)%nat && negb (strcasecmp (arg args 1) (str "factory") =? 0)
  then ret EC.ERROR_PARAM1
  else
    let rflags := if (1 <? argc args)%nat then CCD_RESET_FACTORY else 0 in
    match ccd_state w with
    | CCD_STATE_OPENED => ccd_reset_config rflags
    | CCD_STATE_UNLOCKED => ccd_reset_config CCD_RESET_UNLOCKED_ONLY
    | CCD_STATE_LOCKED => ret EC.ERROR_ACCESS_DENIED
    end.

(** The index of the first matching state name, or [CCD_CAP_STATE_COUNT]. *)
Fixpoint cap_state_from_name (name : list Z) (names : list (list Z)) (i : Z) : Z :=
  match names with
  | [] => CCD_CAP_STATE_COUNT
  | n :: names => if strcasecmp name n =? 0 then i
                  else cap_state_from_name name names (i + 1)
  end.

Definition command_ccd_set (args : list (list Z)) : M Z :=
  let* w := gets id in
  if bool_decide (ccd_state w = CCD_STATE_LOCKED) then ret EC.ERROR_ACCESS_DENIED
  else if (argc args <? 3)%nat then ret EC.ERROR_PARAM_COUNT
  else
    let cap := ccd_cap_from_name (arg args 1) in
    if cap =? CCD_CAP_COUNT then ret EC.ERROR_PARAM1
    else
      let new := cap_state_from_name (arg args 2) ccd_cap_state_names 0 in
      if new =? CCD_CAP_STATE_COUNT then ret EC.ERROR_PARAM2
      else
        let old := raw_get_cap (config w) cap true in
        if bool_decide (ccd_state w = CCD_STATE_UNLOCKED)
           && ((new =? CCD_CAP_STATE_IF_OPENED) || (old =? CCD_CAP_STATE_IF_OPENED))
        then ret EC.ERROR_ACCESS_DENIED
        else ccd_set_cap cap new.

Definition command_ccd_testlab (args : list (list Z)) : M Z :=
  let* w := gets id in
  if force_disabled w then ret EC.ERROR_ACCESS_DENIED
  else if (argc args <? 2)%nat then ret EC.SUCCESS
  else if strcasecmp (arg args 1) (str "open") =? 0 then
    if negb (get_flag w CCD_FLAG_TEST_LAB) then ret EC.ERROR_ACCESS_DENIED
    else ccd_set_state CCD_STATE_OPENED ;;; ret EC.SUCCESS
  else if negb (bool_decide (ccd_state w = CCD_STATE_OPENED))
  then ret EC.ERROR_ACCESS_DENIED
  else match parse_bool (arg args 1) with
       | None => ret EC.ERROR_PARAM1
       | Some newflag =>
           if newflag =? b2z (get_flag w CCD_FLAG_TEST_LAB) then ret EC.SUCCESS
           else on_presence (physical_detect_start false ccd_testlab_toggle_cb)
       end.

(** A command passed through the TPM task: the subcommand and the password make the
    payload of a vendor command that comes from the alternative interface; the result
    is the error code the handler left in the first byte. *)
Definition ccd_command_wrapper (nargs : nat) (password : list Z) (subcmd : Z) : M Z :=
  if (1 <? nargs)%nat && (CCD_MAX_PASSWORD_SIZE <? Z.of_nat (length password))
  then ret EC.ERROR_PARAM1
  else
    let password := if (1 <? nargs)%nat then password else [] in
    let room := Z.to_nat (1 + CCD_MAX_PASSWORD_SIZE) in
    let body := take room (subcmd :: password ++ zeros room) in
    let n := sizeof_tpm_cmd_header + 1 + Z.of_nat (length password) in
    let* (_, tpmh) := call_extension_command [(CC.CCD, ccd_vendor)]
      (board_id_is_mismatched E) (fun p => ret (0, p))
      (mkCmd n TPM_CC_VENDOR_CR50 CC.CCD body)
      (sizeof_tpm_cmd_header + Z.of_nat room) VENDOR_CMD_FROM_ALT_IF TPM_CC_VENDOR_CR50 in
    let return_code := command_code tpmh in
    if negb (return_code =? RC.VENDOR_RC_SUCCESS)
       && negb (return_code =? Z.lor RC.VENDOR_RC_IN_PROGRESS RC.VENDOR_RC_ERR)
    then ret (at_ (payload tpmh) 0)
    else ret EC.SUCCESS.

Definition command_ccd_body (args : list (list Z)) : M Z :=
  let named s := strcasecmp (arg args 1) (str s) =? 0 in
  let* w := gets id in
  if (argc args <? 2)%nat || named "get"%string then ret EC.SUCCESS
  else if named "testlab"%string then command_ccd_testlab (tl args)
  else if named "lock"%string then ccd_command_wrapper 0 [] 3
  else if named "unlock"%string then
    if negb (raw_has_password (config w)) then ret EC.ERROR_ACCESS_DENIED
    else ccd_command_wrapper (argc args - 1) (arg args 2) 2
  else if named "open"%string then ccd_command_wrapper (argc args - 1) (arg args 2) 1
  else if named "set"%string then command_ccd_set (tl args)
  else if named "password"%string then
    if negb (argc args =? 3)%nat then ret EC.ERROR_PARAM_COUNT
    else ccd_command_wrapper (argc args - 1) (arg args 2) 0
  else if named "reset"%string then command_ccd_reset (tl args)
  else ret EC.SUCCESS.

Definition command_ccd (args : list (list Z)) : M Z :=
  set_console_active true ;;;
  let* rv := command_ccd_body args in
  set_console_active false ;;;
  ret rv.

(** *** Leaving factory mode *)

(** The capabilities without which physical presence would be needed to open. *)
Definition required_capabilities : list Z :=
  [CCD_CAP_OPEN_WITHOUT_TPM_WIPE; CCD_CAP_UNLOCK_WITHOUT_AP_REBOOT;
   CCD_CAP_OPEN_WITHOUT_LONG_PP; CCD_CAP_UNLOCK_WITHOUT_SHORT_PP].

Definition factory_error (p : vendor_cmd_params) (rv : Z) : M (Z * vendor_cmd_params) :=
  ret (RC.VENDOR_RC_INTERNAL_ERROR, answer p rv).

Definition ccd_disable_factory_mode : handler (ccd S) := fun p =>
  let* w := gets id in
  if raw_has_password (config w) then factory_error p EC.ERROR_ACCESS_DENIED
  else if (negb (cap_enabled w CCD_CAP_REMOVE_BATTERY_BYPASSES_PP)
           || board_battery_is_present E)
          && negb (forallb (cap_enabled w) required_capabilities)
  then factory_error p EC.ERROR_ACCESS_DENIED
  else
    ccd_set_state CCD_STATE_OPENED ;;;
    let* rv := command_ccd_reset [] in
    if negb (rv =? EC.SUCCESS) then factory_error p rv
    else
      ccd_lock p ;;;
      act board_wp_follow_ccd_config ;;;
      update_config (fun c => raw_set_flag c CCD_FLAG_FACTORY_MODE_ENABLED false) ;;;
      ret (RC.VENDOR_RC_SUCCESS, set_out_size p 0).

End Ops.
