(* ===== verification/CcdSafety.v ===== *)
(** * Case-closed debugging: what the configuration and the state machine guarantee *)

From S2P Require Import Prelude Util NvStore PhysPresence Vendor CcdConfig.

(** ** Configuration accessors *)

(** The arrays of the structure have their sizes. *)
Definition config_wf (c : ccd_config) : Prop :=
  length (flags c) = 3%nat /\ length (capabilities c) = 8%nat /\
  length (password_salt c) = 4%nat /\ length (password_digest c) = 16%nat.

Definition valid_cap (cap : Z) : Prop := 0 <= cap < CCD_CAP_COUNT.

Lemma field_testbit x s t :
  0 <= s -> 0 <= t < 2 -> Z.testbit (Z.land (Z.shiftr x s) 3) t = Z.testbit x (t + s).
Proof.
  intros. rewrite Z.land_spec, Z.shiftr_spec by lia.
  change 3 with (Z.ones 2). rewrite Z.ones_spec_low by lia. apply andb_true_r.
Qed.

Lemma field_high x s t : 2 <= t -> Z.testbit (Z.land (Z.shiftr x s) 3) t = false.
Proof.
  intros. rewrite Z.land_spec. change 3 with (Z.ones 2).
  rewrite (Z.ones_spec_high 2) by lia. apply andb_false_r.
Qed.

Lemma mask_testbit v s i :
  0 <= s -> Z.testbit (Z.shiftl (Z.land v 3) s) i =
  (s <=? i) && (i <? s + 2) && Z.testbit v (i - s).
Proof.
  intros Hs. destruct (Z.ltb_spec i 0).
  { rewrite Z.testbit_neg_r by done. destruct (Z.leb_spec s i); [lia|done]. }
  rewrite Z.shiftl_spec by done. destruct (Z.leb_spec s i); cbn [andb].
  - rewrite Z.land_spec. change 3 with (Z.ones 2).
    destruct (Z.ltb_spec i (s + 2)); cbn [andb].
    + rewrite Z.ones_spec_low by lia. apply andb_true_r.
    + rewrite Z.ones_spec_high by lia. apply andb_false_r.
  - by rewrite Z.testbit_neg_r by lia.
Qed.

(** A two-bit field after another field of the same byte was written. *)
Lemma set_field b v s s' :
  0 <= s < 8 -> 0 <= s' < 8 -> s mod 2 = 0 -> s' mod 2 = 0 -> 0 <= v < 4 ->
  Z.land (Z.shiftr (u8 (Z.lor (clear_bits 8 b (Z.shiftl 3 s))
                              (Z.shiftl (Z.land v 3) s))) s') 3 =
  if s =? s' then v else Z.land (Z.shiftr b s') 3.
Proof.
  intros Hs Hs' Hm Hm' Hv. apply Z.bits_inj'. intros t Ht.
  assert (s = s' \/ s + 2 <= s' \/ s' + 2 <= s) as Hd by (Z.div_mod_to_equations; lia).
  destruct (Z.ltb_spec t 2) as [Ht2|Ht2].
  - rewrite field_testbit by lia. rewrite uN_testbit by (Z.div_mod_to_equations; lia).
    rewrite Z.lor_spec. unfold clear_bits. rewrite Z.land_spec, Z.lxor_spec.
    rewrite Z.ones_spec_low by (Z.div_mod_to_equations; lia).
    rewrite mask_testbit by lia. change (Z.shiftl 3 s) with (Z.shiftl (Z.land 3 3) s).
    rewrite mask_testbit by lia.
    destruct (Z.eqb_spec s s') as [->|Hn].
    + replace (s' <=? t + s') with true by lia. replace (t + s' <? s' + 2) with true by lia.
      replace (t + s' - s') with t by lia.
      replace (Z.testbit 3 t) with true; [by destruct (Z.testbit b (t + s'))|].
      assert (t = 0 \/ t = 1) as [->| ->] by lia; done.
    + rewrite field_testbit by lia.
      replace ((s <=? t + s') && (t + s' <? s + 2))%bool with false
        by (symmetry; apply andb_false_iff; lia).
      cbn. by rewrite andb_true_r, orb_false_r.
  - rewrite field_high by lia. destruct (s =? s').
    + symmetry. apply Z.bits_above_log2; [lia|].
      destruct (decide (v = 0)) as [->|]; [cbn; lia|].
      apply Z.log2_lt_pow2; [lia|]. apply Z.lt_le_trans with (2 ^ 2); [lia|].
      apply Z.pow_le_mono_r; lia.
    + by rewrite field_high by lia.
Qed.

Lemma at_insert (l : list Z) i j x :
  0 <= i -> 0 <= j -> (Z.to_nat i < length l)%nat ->
  at_ (<[Z.to_nat i := x]> l) j = if i =? j then x else at_ l j.
Proof.
  intros Hi Hj Hl. unfold at_. rewrite !nth_lookup.
  destruct (Z.eqb_spec i j) as [->|Hn].
  - by rewrite list_lookup_insert_eq.
  - rewrite list_lookup_insert_ne by lia. done.
Qed.

Lemma cap_index cap : valid_cap cap -> 0 <= cap / 4 < 8 /\ 0 <= cap mod 4 * 2 < 8.
Proof. unfold valid_cap, CCD_CAP_COUNT. intros. Z.div_mod_to_equations. lia. Qed.

Lemma raw_get_set_cap_eq c cap cap' st translate :
  config_wf c -> valid_cap cap -> valid_cap cap' -> 0 <= st < CCD_CAP_STATE_COUNT ->
  raw_get_cap (raw_set_cap c cap st) cap' translate =
  if cap =? cap'
  then (if (st =? CCD_CAP_STATE_DEFAULT) && translate then cap_default cap else st)
  else raw_get_cap c cap' translate.
Proof.
  intros (_ & Hlen & _) Hc Hc' Hst. unfold CCD_CAP_STATE_COUNT in Hst.
  destruct (cap_index cap Hc) as [Hi Hs], (cap_index cap' Hc') as [Hi' Hs'].
  unfold raw_get_cap, raw_set_cap, CCD_CAPS_PER_BYTE, CCD_CAP_BITS, CCD_CAP_BITMASK.
  cbn [capabilities]. rewrite at_insert by lia.
  destruct (Z.eqb_spec (cap / 4) (cap' / 4)) as [E|E].
  - rewrite set_field by (try lia; apply Z_mod_mult).
    replace (cap mod 4 * 2 =? cap' mod 4 * 2) with (cap =? cap').
    + destruct (Z.eqb_spec cap cap') as [->|]; [done|]. by rewrite <- E.
    + apply Bool.eq_iff_eq_true. rewrite !Z.eqb_eq. Z.div_mod_to_equations. lia.
  - destruct (Z.eqb_spec cap cap') as [->|]; [done|]. done.
Qed.

(** Reading a capability after writing one gives the value written if it is the
    same capability (translated to the capability's default when asked), and the old
    value for every other capability: the two-bit fields do not interfere. *)
Theorem raw_get_set_cap c cap cap' st translate :
  config_wf c -> valid_cap cap -> valid_cap cap' -> 0 <= st < CCD_CAP_STATE_COUNT ->
  raw_get_cap (raw_set_cap c cap st) cap' translate =
  if cap =? cap'
  then (if (st =? CCD_CAP_STATE_DEFAULT) && translate then cap_default cap else st)
  else raw_get_cap c cap' translate.
Proof. apply raw_get_set_cap_eq. Qed.

Example raw_get_set_cap_witness :
  raw_get_cap (raw_set_cap zero_config 11 1) 11 true = 1 /\
  raw_get_cap (raw_set_cap zero_config 11 1) 10 true = 1 /\
  raw_get_cap (raw_set_cap zero_config 11 0) 11 true = 3.
Proof.
  split; [|split]; (etransitivity;
    [apply raw_get_set_cap; vm_compute; split_and!; (reflexivity || discriminate)
    |reflexivity]).
Defined.

(** *** Flags *)

Lemma byte3_testbit f i :
  0 <= i < 24 ->
  Z.testbit (Z.lor (u8 f) (Z.lor (Z.shiftl (u8 (Z.shiftr f 8)) 8)
                                 (Z.shiftl (u8 (Z.shiftr f 16)) 16))) i = Z.testbit f i.
Proof.
  intros Hi. rewrite !Z.lor_spec, !Z.shiftl_spec by lia.
  assert (forall x j, 8 <= j -> Z.testbit (u8 x) j = false) as Hhigh.
  { intros x j Hj. apply Z.mod_pow2_bits_high. lia. }
  assert (forall x j, j < 0 -> Z.testbit (u8 x) j = false) as Hneg.
  { intros x j Hj. by apply Z.testbit_neg_r. }
  destruct (Z.ltb_spec i 8); [|destruct (Z.ltb_spec i 16)].
  - rewrite (Hneg _ (i - 8)), (Hneg _ (i - 16)), uN_testbit by lia. by rewrite !orb_false_r.
  - rewrite Hhigh, (Hneg _ (i - 16)), uN_testbit, Z.shiftr_spec by lia.
    rewrite orb_false_r. cbn [orb]. f_equal. lia.
  - rewrite !Hhigh, uN_testbit, Z.shiftr_spec by lia. cbn [orb]. f_equal. lia.
Qed.

(** The flags after one flag word was set or cleared. *)
Lemma raw_set_flag_testbit c m v i :
  0 <= i < 24 ->
  Z.testbit (raw_get_flags (raw_set_flag c m v)) i =
  if Z.testbit m i then v else Z.testbit (raw_get_flags c) i.
Proof.
  intros Hi. unfold raw_set_flag. set (f := raw_get_flags c).
  unfold raw_get_flags at 1. cbn [flags with_flags at_ nth].
  change (Z.to_nat 0) with 0%nat. change (Z.to_nat 1) with 1%nat.
  change (Z.to_nat 2) with 2%nat. cbn [nth]. rewrite byte3_testbit by done.
  destruct v.
  - rewrite Z.lor_spec. destruct (Z.testbit m i); [apply orb_true_r|apply orb_false_r].
  - unfold clear_bits. rewrite Z.land_spec, Z.lxor_spec, Z.ones_spec_low by lia.
    destruct (Z.testbit m i); [apply andb_false_r|apply andb_true_r].
Qed.

Lemma nz_land_pow2 x i : 0 <= i -> nz (Z.land x (2 ^ i)) = Z.testbit x i.
Proof.
  intros Hi. destruct (Z.testbit x i) eqn:E.
  - apply nz_true. intros H. apply (f_equal (fun y => Z.testbit y i)) in H.
    rewrite Z.land_spec, E, Z.pow2_bits_true, Z.bits_0 in H by done. discriminate.
  - apply nz_false. apply Z.bits_inj'. intros j Hj.
    rewrite Z.land_spec, Z.bits_0. destruct (decide (j = i)) as [->|]; [by rewrite E|].
    by rewrite Z.pow2_bits_false by lia; apply andb_false_r.
Qed.

Lemma raw_set_flag_cap c m v cap tr :
  raw_get_cap (raw_set_flag c m v) cap tr = raw_get_cap c cap tr.
Proof. done. Qed.

Lemma raw_set_flag_password c m v :
  raw_has_password (raw_set_flag c m v) = raw_has_password c.
Proof. done. Qed.

(** *** Well-formedness *)

Lemma wf_set_cap c cap st : config_wf c -> config_wf (raw_set_cap c cap st).
Proof.
  intros (H1 & H2 & H3 & H4). unfold config_wf. cbn. by rewrite length_insert.
Qed.

Lemma wf_set_flag c m v : config_wf c -> config_wf (raw_set_flag c m v).
Proof. intros (H1 & H2 & H3 & H4). done. Qed.

Lemma wf_reset_password c : config_wf c -> config_wf (raw_reset_password c).
Proof. intros (H1 & H2 & H3 & H4). done. Qed.

(** ** Loops over the capabilities *)

Lemma all_caps_spec cap : In cap all_caps <-> valid_cap cap.
Proof.
  unfold all_caps, valid_cap. rewrite in_map_iff. split.
  - intros (n & <- & Hn%in_seq). unfold CCD_CAP_COUNT in *. lia.
  - intros H. exists (Z.to_nat cap). unfold CCD_CAP_COUNT in *.
    split; [lia|]. apply in_seq. lia.
Qed.

Section CapLoop.
Context (f : ccd_config -> Z -> ccd_config).
Context (get : ccd_config -> Z -> Z).

(** A loop that treats each capability independently of the others. *)
Lemma cap_loop (P : ccd_config -> Prop) (V : Z -> Prop) (g : ccd_config -> Z -> Z) l :
  (forall c i, In i l -> P c -> P (f c i)) ->
  (forall c i, In i l -> P c -> get (f c i) i = g c i) ->
  (forall c i j, In i l -> V j -> P c -> i <> j -> get (f c i) j = get c j /\ g (f c i) j = g c j) ->
  NoDup l -> forall c, P c ->
  P (fold_left f l c) /\
  forall j, V j -> get (fold_left f l c) j = if decide (j ∈ l) then g c j else get c j.
Proof.
  induction l as [|i l IH]; intros HP Hsame Hother Hnd c Hc; cbn [fold_left].
  { split; [done|]. intros j _. destruct (decide (j ∈ [])) as [H|]; [|done].
    by apply not_elem_of_nil in H. }
  apply NoDup_cons in Hnd as [Hi Hnd].
  destruct (IH ltac:(intros; apply HP; [by right|done])
               ltac:(intros; apply Hsame; [by right|done])
               ltac:(intros; apply Hother; [by right|done|done|done])
               Hnd (f c i) ltac:(apply HP; [by left|done])) as [H1 H2].
  split; [done|]. intros j Hj. rewrite H2 by done.
  destruct (decide (i = j)) as [->|Hij].
  - rewrite decide_False by done. rewrite decide_True by left.
    apply Hsame; [by left|done].
  - destruct (Hother c i j ltac:(by left) Hj Hc Hij) as [-> ->].
    destruct (decide (j ∈ l)) as [Hin|Hin].
    + by rewrite decide_True by (by right).
    + rewrite decide_False; [done|]. intros [->|?]%elem_of_cons; done.
Qed.
End CapLoop.

Lemma all_caps_nodup : NoDup all_caps.
Proof. apply NoDup_fmap; [apply _|]. apply NoDup_seq. Qed.

Lemma reset_unlocked_caps_spec c cap :
  config_wf c -> valid_cap cap ->
  config_wf (reset_unlocked_caps c) /\
  raw_get_cap (reset_unlocked_caps c) cap false =
  if raw_get_cap c cap true =? CCD_CAP_STATE_IF_OPENED
  then raw_get_cap c cap false else CCD_CAP_STATE_DEFAULT.
Proof.
  intros Hc Hcap. unfold reset_unlocked_caps. set (f := fun _ _ => _).
  destruct (cap_loop f (fun c i => raw_get_cap c i false) config_wf valid_cap
    (fun c i => if raw_get_cap c i true =? CCD_CAP_STATE_IF_OPENED
                then raw_get_cap c i false else CCD_CAP_STATE_DEFAULT) all_caps)
    with (c := c) as [Hwf H]; try done.
  - intros c0 i Hi H0. unfold f. split_if; [done|]. by apply wf_set_cap.
  - intros c0 i Hi%all_caps_spec H0. unfold f. destruct (_ =? _); [done|].
    rewrite raw_get_set_cap_eq by (done || lia). by rewrite Z.eqb_refl.
  - intros c0 i j Hi%all_caps_spec Hj H0 Hij. unfold f.
    destruct (raw_get_cap c0 i true =? _); [done|].
    rewrite !raw_get_set_cap_eq by (done || lia).
    by destruct (Z.eqb_spec i j).
  - apply all_caps_nodup.
  - split; [done|]. rewrite H by done. rewrite decide_True; [done|].
    apply list_elem_of_In. by apply all_caps_spec.
Qed.

Lemma allow_all_caps_spec c cap :
  config_wf c -> valid_cap cap ->
  config_wf (allow_all_caps c) /\
  raw_get_cap (allow_all_caps c) cap false = CCD_CAP_STATE_ALWAYS.
Proof.
  intros Hc Hcap. unfold allow_all_caps. set (f := fun _ _ => _).
  destruct (cap_loop f (fun c i => raw_get_cap c i false) config_wf valid_cap
    (fun _ _ => CCD_CAP_STATE_ALWAYS) all_caps) with (c := c) as [Hwf H]; try done.
  - intros c0 i Hi H0. by apply wf_set_cap.
  - intros c0 i Hi%all_caps_spec H0. unfold f.
    rewrite raw_get_set_cap_eq by (done || lia). by rewrite Z.eqb_refl.
  - intros c0 i j Hi%all_caps_spec Hj H0 Hij. unfold f.
    rewrite !raw_get_set_cap_eq by (done || lia).
    by destruct (Z.eqb_spec i j).
  - apply all_caps_nodup.
  - split; [done|]. rewrite H by done. rewrite decide_True; [done|].
    apply list_elem_of_In. by apply all_caps_spec.
Qed.

Lemma raw_get_cap_translate c cap :
  raw_get_cap c cap true =
  if raw_get_cap c cap false =? CCD_CAP_STATE_DEFAULT
  then cap_default cap else raw_get_cap c cap false.
Proof.
  unfold raw_get_cap. set (s := Z.land _ _). rewrite andb_false_r, andb_true_r. done.
Qed.

Lemma raw_set_cap_frame c cap st :
  flags (raw_set_cap c cap st) = flags c /\
  password_salt (raw_set_cap c cap st) = password_salt c /\
  password_digest (raw_set_cap c cap st) = password_digest c.
Proof. done. Qed.

Lemma reset_unlocked_caps_frame c :
  flags (reset_unlocked_caps c) = flags c /\
  password_salt (reset_unlocked_caps c) = password_salt c /\
  password_digest (reset_unlocked_caps c) = password_digest c.
Proof.
  unfold reset_unlocked_caps. generalize all_caps. intros l. revert c.
  induction l as [|i l IH]; intros c; cbn [fold_left]; [done|].
  destruct (raw_get_cap c i true =? _); [apply IH|].
  destruct (IH (raw_set_cap c i CCD_CAP_STATE_DEFAULT)) as (-> & -> & ->). done.
Qed.

(** ** Resetting the configuration *)

(** The configuration [ccd_reset_config] leaves in RAM. *)
Definition reset_result (c : ccd_config) (lab set_when_unlocked : bool) (rflags : Z)
    : ccd_config :=
  let c :=
    if nz (Z.land rflags CCD_RESET_UNLOCKED_ONLY)
    then reset_unlocked_caps (if set_when_unlocked then raw_reset_password c else c)
    else mkConfig CCD_CONFIG_VERSION (zeros 3) (zeros 8) (zeros 4) (zeros 16) in
  let c :=
    if nz (Z.land rflags CCD_RESET_FACTORY)
    then raw_set_flag (raw_set_flag (raw_set_flag (allow_all_caps c)
           CCD_FLAG_FACTORY_MODE_ENABLED true) CCD_FLAG_OVERRIDE_WP_AT_BOOT true)
           CCD_FLAG_OVERRIDE_WP_STATE_ENABLED false
    else c in
  if nz (Z.land rflags CCD_RESET_TEST_LAB) then c else raw_set_flag c CCD_FLAG_TEST_LAB lab.

Lemma reset_result_unlocked c lab b :
  reset_result c lab b CCD_RESET_UNLOCKED_ONLY =
  raw_set_flag (reset_unlocked_caps (if b then raw_reset_password c else c))
    CCD_FLAG_TEST_LAB lab.
Proof.
  unfold reset_result.
  assert (nz (Z.land CCD_RESET_UNLOCKED_ONLY CCD_RESET_UNLOCKED_ONLY) = true) as -> by done.
  assert (nz (Z.land CCD_RESET_UNLOCKED_ONLY CCD_RESET_FACTORY) = false) as -> by done.
  assert (nz (Z.land CCD_RESET_UNLOCKED_ONLY CCD_RESET_TEST_LAB) = false) as -> by done.
  reflexivity.
Qed.

Lemma raw_set_flag_frame c m v :
  password_salt (raw_set_flag c m v) = password_salt c /\
  password_digest (raw_set_flag c m v) = password_digest c.
Proof. split; reflexivity. Qed.

Lemma raw_get_flags_frame c c' : flags c = flags c' -> raw_get_flags c = raw_get_flags c'.
Proof. unfold raw_get_flags. by intros ->. Qed.

Section Reset.
Context {S : Type} `{!NvStore S}.
Implicit Types w : ccd S.

Lemma save_config_frame w :
  let w' := (ccd_save_config w).2 in
  config w' = config w /\ ccd_state w' = ccd_state w /\
  ccd_config_loaded w' = ccd_config_loaded w /\ force_disabled w' = force_disabled w /\
  presence w' = presence w.
Proof.
  unfold ccd_save_config, bind, gets, id, set_store, upd, modify, ret, act.
  destruct (setvar _ _ _) as [rv s]. destruct (nz rv); [done|].
  by destruct (ccd_config_loaded w).
Qed.

Lemma reset_config_frame rflags w :
  let w' := (ccd_reset_config rflags w).2 in
  config w' = reset_result (config w) (get_flag w CCD_FLAG_TEST_LAB)
                (get_flag w CCD_FLAG_PASSWORD_SET_WHEN_UNLOCKED) rflags /\
  ccd_state w' = ccd_state w /\
  ccd_config_loaded w' = ccd_config_loaded w /\ force_disabled w' = force_disabled w.
Proof.
  unfold ccd_reset_config, reset_result, ccd_get_flag, update_config, set_config, act, upd.
  set (lab := get_flag w CCD_FLAG_TEST_LAB).
  set (pw := get_flag w CCD_FLAG_PASSWORD_SET_WHEN_UNLOCKED).
  destruct w as [st c ld fd ca lt pr sto ac]. 
  unfold bind, gets, modify, ret. fold lab. cbn [config].
  generalize (nz (Z.land rflags CCD_RESET_UNLOCKED_ONLY)),
    (nz (Z.land rflags CCD_RESET_FACTORY)), (nz (Z.land rflags CCD_RESET_TEST_LAB)).
  intros unlocked factory testlab.
  destruct unlocked; cbn beta iota zeta; fold pw; [destruct pw|];
    destruct factory; destruct testlab;
    cbn [config ccd_state ccd_config_loaded force_disabled presence
         ccd_console_active last_password_time store actions];
    match goal with |- context [ccd_save_config ?w0] =>
      destruct (save_config_frame w0) as (H1 & H2 & H3 & H4 & _) end;
    rewrite H1, H2, H3, H4; split_and!; reflexivity.
Qed.

Lemma ccd_reset_config_0 w :
  config (ccd_reset_config 0 w).2 =
    mkConfig CCD_CONFIG_VERSION [b2z (get_flag w CCD_FLAG_TEST_LAB); 0; 0]
      (zeros 8) (zeros 4) (zeros 16) /\
  ccd_state (ccd_reset_config 0 w).2 = ccd_state w.
Proof.
  destruct (reset_config_frame 0 w) as (Hc & Hs & _). split; [|done].
  rewrite Hc. by destruct (get_flag w CCD_FLAG_TEST_LAB).
Qed.

(** A full reset (by the owner of an opened device) leaves exactly the default
    configuration: current version, no password, every capability at its default and
    no flag set, except the test lab flag, which keeps its value; whether the write
    to flash succeeds or not. *)
Theorem ccd_reset_config_full w :
  let w' := (ccd_reset_config 0 w).2 in
  config w' = mkConfig CCD_CONFIG_VERSION [b2z (get_flag w CCD_FLAG_TEST_LAB); 0; 0]
                (zeros 8) (zeros 4) (zeros 16) /\
  get_flag w' CCD_FLAG_TEST_LAB = get_flag w CCD_FLAG_TEST_LAB /\
  ccd_state w' = ccd_state w.
Proof.
  destruct (reset_config_frame 0 w) as (Hc & Hs & Hl & Hf). cbn zeta.
  destruct (ccd_reset_config_0 w) as [E _].
  split; [done|]. split; [|done]. unfold get_flag at 1. rewrite E, Hl, Hf.
  destruct (negb (ccd_config_loaded w) || force_disabled w)%bool eqn:Hd.
  - unfold get_flag. by rewrite Hd.
  - by destruct (get_flag w CCD_FLAG_TEST_LAB).
Qed.

(** A reset from the unlocked state only touches what may change when unlocked:
    a capability whose effective setting is IfOpened keeps it, every other
    capability goes to its default, the password is removed exactly if it was set
    while unlocked, and no flag other than the one recording that changes. *)
Theorem ccd_reset_config_unlocked w cap i :
  config_wf (config w) -> valid_cap cap -> 0 <= i < 24 -> i <> 1 ->
  ccd_config_loaded w = true -> force_disabled w = false ->
  let w' := (ccd_reset_config CCD_RESET_UNLOCKED_ONLY w).2 in
  raw_get_cap (config w') cap true =
    (if raw_get_cap (config w) cap true =? CCD_CAP_STATE_IF_OPENED
     then CCD_CAP_STATE_IF_OPENED else cap_default cap) /\
  (password_digest (config w'), password_salt (config w')) =
    (if get_flag w CCD_FLAG_PASSWORD_SET_WHEN_UNLOCKED then (zeros 16, zeros 4)
     else (password_digest (config w), password_salt (config w))) /\
  Z.testbit (raw_get_flags (config w')) i = Z.testbit (raw_get_flags (config w)) i.
Proof.
  intros Hwf Hcap Hi Hi1 Hl Hf. cbn zeta.
  destruct (reset_config_frame CCD_RESET_UNLOCKED_ONLY w) as (Hc & _). cbn zeta in Hc.
  rewrite Hc. clear Hc. rewrite reset_result_unlocked.
  set (c0 := if get_flag w _ then _ else _).
  assert (config_wf c0) as Hwf0
    by (unfold c0; destruct (get_flag w _); [by apply wf_reset_password|done]).
  assert (forall tr, raw_get_cap c0 cap tr = raw_get_cap (config w) cap tr) as Hcap0
    by (intros; unfold c0; destruct (get_flag w _); done).
  destruct (reset_unlocked_caps_spec c0 cap Hwf0 Hcap) as [Hwf1 Hget].
  destruct (reset_unlocked_caps_frame c0) as (Hflags & Hsalt & Hdigest).
  split; [|split].
  - rewrite raw_set_flag_cap, raw_get_cap_translate, Hget, Hcap0.
    destruct (Z.eqb_spec (raw_get_cap (config w) cap true) CCD_CAP_STATE_IF_OPENED) as [E|E].
    + rewrite Hcap0, <- raw_get_cap_translate. exact E.
    + done.
  - destruct (raw_set_flag_frame (reset_unlocked_caps c0) CCD_FLAG_TEST_LAB
                (get_flag w CCD_FLAG_TEST_LAB)) as [-> ->].
    rewrite Hsalt, Hdigest. unfold c0. by destruct (get_flag w _).
  - rewrite raw_set_flag_testbit by done. unfold CCD_FLAG_TEST_LAB at 1.
    destruct (decide (i = 0)) as [->|].
    + rewrite Z.pow2_bits_true by lia. unfold get_flag. rewrite Hl, Hf.
      cbn [negb orb]. unfold CCD_FLAG_TEST_LAB. by rewrite nz_land_pow2 by lia.
    + rewrite Z.pow2_bits_false by lia. rewrite (raw_get_flags_frame _ c0) by done.
      unfold c0. destruct (get_flag w _); [|done].
      unfold raw_reset_password. rewrite raw_set_flag_testbit by done.
      unfold CCD_FLAG_PASSWORD_SET_WHEN_UNLOCKED. by rewrite Z.pow2_bits_false by lia.
Qed.
End Reset.

(** A stand-in for SHA-256 in examples: 32 bytes that depend on the input. *)
Definition toy_hash (l : list Z) : list Z := take 32 (l ++ zeros 32).

Lemma toy_hash_length l : length (toy_hash l) = 32%nat.
Proof.
  unfold toy_hash, zeros. rewrite length_take, length_app, length_replicate. lia.
Qed.

(** A device in the field: battery present, normal boot, services that succeed. *)
Definition sample_board : board :=
  mkBoard true true false false false 0 0 (true, [7; 7; 7; 7]) true
    toy_hash [1; 2].

Definition sample_boot : ccd ram_store := ccd_boot (pp_boot 5000000) ∅.

Definition sample_unlocked : ccd ram_store :=
  (ccd_config_init sample_board 1 sample_boot).2.

Example ccd_reset_config_unlocked_witness :
  raw_get_cap (config (ccd_reset_config CCD_RESET_UNLOCKED_ONLY sample_unlocked).2) 11 true
    = CCD_CAP_STATE_IF_OPENED.
Proof.
  destruct (ccd_reset_config_unlocked sample_unlocked 11 0) as [H _];
    [vm_compute; split_and!; reflexivity|vm_compute; split; [discriminate|reflexivity]
    |vm_compute; split; [discriminate|reflexivity]|discriminate|vm_compute; reflexivity
    |vm_compute; reflexivity|].
  etransitivity; [exact H|]. vm_compute. reflexivity.
Defined.

(** ** The configuration in flash *)

Lemma config_bytes_length c :
  config_wf c -> length (config_bytes c) = sizeof_config.
Proof.
  intros (H1 & H2 & H3 & H4). unfold config_bytes. cbn [length].
  rewrite !length_app, H1, H2, H3, H4. done.
Qed.

Lemma config_of_bytes_config_bytes c :
  config_wf c -> config_of_bytes (config_bytes c) = c.
Proof.
  intros (H1 & H2 & H3 & H4). destruct c as [v f cp sl dg]. cbn in *.
  unfold config_of_bytes, config_bytes. cbn [hd version flags capabilities password_salt
    password_digest]. unfold sub. cbn [drop].
  destruct f as [|f0 [|f1 [|f2 [|]]]]; try discriminate.
  do 8 (destruct cp as [|? cp]; [discriminate|]). destruct cp; [|discriminate].
  do 4 (destruct sl as [|? sl]; [discriminate|]). destruct sl; [|discriminate].
  do 16 (destruct dg as [|? dg]; [discriminate|]). destruct dg; [|discriminate].
  reflexivity.
Qed.

Lemma splice_all {A} (l k : list A) : length l = length k -> splice 0 l k = l.
Proof.
  intros H. unfold splice. rewrite take_0, Nat.add_0_l, H, drop_all, app_nil_r. done.
Qed.

Section Flash.
Context {S : Type} `{!NvStore S} `{!NvStoreLaws S}.
Implicit Types w : ccd S.

(** A configuration that was saved successfully is the one loaded at the next boot,
    byte for byte, whatever the CCD state at that boot. *)
Theorem ccd_config_survives_reboot E w w' st p :
  config_wf (config w) -> version (config w) = CCD_CONFIG_VERSION ->
  ccd_save_config w = (EC.SUCCESS, w') ->
  let w1 := (ccd_config_init E st (ccd_boot p (store w'))).2 in
  config w1 = config w /\ ccd_config_loaded w1 = true.
Proof.
  intros Hwf Hv Hsave.
  assert (getvar (store w') k_ccd_config = Some (config_bytes (config w))) as Hget.
  { unfold ccd_save_config, bind, gets, id, set_store, upd, modify, ret, act in Hsave.
    destruct (setvar (store w) _ _) as [rv s] eqn:Hset.
    destruct (nz rv) eqn:Hrv; [injection Hsave as -> <-; discriminate|].
    bool_to_Prop. subst rv. apply getvar_setvar_same in Hset; [|done].
    destruct (ccd_config_loaded w); injection Hsave as <-; exact Hset. }
  pose proof (config_bytes_length _ Hwf) as Hlen.
  unfold ccd_config_init, ccd_load_config, assign_state, upd, modify, bind, gets, id.
  cbn [ccd_config_loaded ccd_boot config store]. rewrite Hget.
  unfold update_config, bind, gets, set_config, upd, modify. cbn [config].
  rewrite Hlen, Nat.min_id, take_ge by lia.
  rewrite splice_all by (by rewrite Hlen).
  rewrite config_of_bytes_config_bytes by done. rewrite Hv, Z.eqb_refl, Nat.eqb_refl.
  done.
Qed.

(** When the stored configuration is of another version or size, the test lab flag is
    off after boot, even if the stored data held it: it is read back through
    [ccd_get_flag], which answers 0 until the configuration is loaded. *)
Theorem ccd_config_mismatch_loses_test_lab E st p (s : S) val :
  getvar s k_ccd_config = Some val -> (2 <= length val)%nat ->
  hd 0 val <> CCD_CONFIG_VERSION \/ length val <> sizeof_config ->
  let w := (ccd_config_init E st (ccd_boot p s)).2 in
  config w = mkConfig CCD_CONFIG_VERSION (zeros 3) (zeros 8) (zeros 4) (zeros 16) /\
  get_flag w CCD_FLAG_TEST_LAB = false /\ ccd_config_loaded w = true.
Proof.
  intros Hget Hlen Hbad.
  unfold ccd_config_init, ccd_load_config, assign_state, upd, modify, bind, gets, id.
  cbn [ccd_config_loaded ccd_boot config store]. rewrite Hget.
  unfold update_config, bind, gets, set_config, upd, modify. cbn [config].
  set (l := splice 0 _ _).
  assert (version (config_of_bytes l) = hd 0 val) as ->.
  { cbn. unfold l. destruct val as [|b val]; [cbn in Hlen; lia|]. done. }
  assert ((negb (hd 0 val =? CCD_CONFIG_VERSION)
           || negb (length val =? sizeof_config)%nat)%bool = true) as ->.
  { destruct Hbad as [H|H]; apply orb_true_iff; [left|right]; apply negb_true_iff;
      [by apply Z.eqb_neq|by apply Nat.eqb_neq]. }
  replace (length val <? 2)%nat with false by (symmetry; apply Nat.ltb_ge; lia).
  match goal with |- context [ccd_reset_config 0 ?w0] =>
    destruct (reset_config_frame 0 w0) as (Hc & _ & _ & Hf);
    destruct (ccd_reset_config 0 w0) as [rv w1] end.
  cbn zeta in Hc, Hf. cbn [snd config ccd_config_loaded force_disabled] in *.
  unfold get_flag, set_loaded, act, upd, modify, ret, bind.
  cbn [snd config ccd_config_loaded force_disabled]. rewrite Hc, Hf. done.
Qed.
End Flash.

Example ccd_config_survives_reboot_witness :
  config (ccd_config_init sample_board 0
            (ccd_boot (pp_boot 9) (store (ccd_save_config sample_unlocked).2))).2
  = config sample_unlocked.
Proof.
  apply (ccd_config_survives_reboot sample_board sample_unlocked
           (ccd_save_config sample_unlocked).2 0 (pp_boot 9)).
  - vm_compute. split_and!; reflexivity.
  - vm_compute. reflexivity.
  - vm_compute. reflexivity.
Defined.

Example ccd_config_mismatch_loses_test_lab_witness :
  get_flag (ccd_config_init sample_board 0
              (ccd_boot (pp_boot 9) (<[k_ccd_config := [0x0f; 1; 0; 0]]> (∅ : ram_store)))).2
    CCD_FLAG_TEST_LAB = false.
Proof.
  apply (ccd_config_mismatch_loses_test_lab sample_board 0 (pp_boot 9)
           (<[k_ccd_config := [0x0f; 1; 0; 0]]> (∅ : ram_store)) [0x0f; 1; 0; 0]);
    [vm_compute; reflexivity|vm_compute; repeat constructor|left; vm_compute; discriminate].
Defined.

(** ** Operations from outside *)

(** Everything that can change the state between two boots. *)
Inductive ccd_op :=
| OpVendor (p : vendor_cmd_params)          (** VENDOR_CC_CCD *)
| OpDisableFactory (p : vendor_cmd_params)  (** VENDOR_CC_DISABLE_FACTORY *)
| OpConsole (args : list (list Z))          (** the [ccd] console command *)
| OpSetFlag (flag : Z) (value : bool)
| OpReset (rflags : Z)                      (** [ccd_reset_config] by another component *)
| OpDisable
| OpDetectDone                              (** the end of a presence detection *)
| OpPresence (p : pp callback).             (** any other step of physical presence *)

Definition run_op {S} `{!NvStore S} (E : board) (op : ccd_op) : ST (ccd S) unit :=
  match op with
  | OpVendor p => ccd_vendor E p ;;; ret tt
  | OpDisableFactory p => ccd_disable_factory_mode E p ;;; ret tt
  | OpConsole args => command_ccd E args ;;; ret tt
  | OpSetFlag flag value => ccd_set_flag flag value ;;; ret tt
  | OpReset rflags => ccd_reset_config rflags ;;; ret tt
  | OpDisable => ccd_disable
  | OpDetectDone => physical_detect_done E
  | OpPresence p => on_presence (fun _ => (tt, p))
  end.

Section Preserve.
Context {S : Type} `{!NvStore S}.

(** A relation between states that every primitive change respects. *)
Context (R : ccd S -> ccd S -> Prop) `{!Reflexive R} `{!Transitive R}.
Context (E : board).
Hypothesis R_config : forall c, preserves R (set_config (S := S) c).
Hypothesis R_act : forall a, preserves R (act (S := S) a).
Hypothesis R_store : forall s, preserves R (set_store (S := S) s).
Hypothesis R_time : forall t, preserves R (set_password_time (S := S) t).

Lemma pres_update_config f : preserves R (update_config (S := S) f).
Proof using All. unfold update_config. preserves_tac. Qed.
#[local] Hint Resolve pres_update_config : preserves_db.

Lemma pres_save : preserves R (ccd_save_config (S := S)).
Proof using All.
  unfold ccd_save_config. refine (preserves_bind _ _ _ _ _); [preserves_tac|intros w].
  destruct (setvar _ _ _) as [rv s]. preserves_tac.
Qed.
#[local] Hint Resolve pres_save : preserves_db.

Lemma pres_reset_config rflags : preserves R (ccd_reset_config (S := S) rflags).
Proof using All.
  unfold ccd_reset_config, ccd_get_flag.
  preserves_tac.
Qed.
#[local] Hint Resolve pres_reset_config : preserves_db.

Lemma pres_check_password pw : preserves R (raw_check_password (S := S) E pw).
Proof using All. unfold raw_check_password. preserves_tac. Qed.
#[local] Hint Resolve pres_check_password : preserves_db.

Lemma pres_set_password pw : preserves R (ccd_set_password (S := S) E pw).
Proof using All.
  unfold ccd_set_password, raw_set_password.
  preserves_tac.
Qed.
#[local] Hint Resolve pres_set_password : preserves_db.

Lemma pres_do_password pw : preserves R (do_ccd_password (S := S) E pw).
Proof using All.
  unfold do_ccd_password, ccd_reset_password.
  preserves_tac.
Qed.
#[local] Hint Resolve pres_do_password : preserves_db.

Lemma pres_password p : preserves R (ccd_password (S := S) E p).
Proof using All. unfold ccd_password, open_denied. preserves_tac. Qed.
#[local] Hint Resolve pres_password : preserves_db.

Lemma pres_command_set args : preserves R (command_ccd_set (S := S) args).
Proof using All.
  unfold command_ccd_set, ccd_set_cap.
  preserves_tac.
Qed.
#[local] Hint Resolve pres_command_set : preserves_db.

Lemma pres_command_reset args : preserves R (command_ccd_reset (S := S) args).
Proof using All. unfold command_ccd_reset. preserves_tac. Qed.
#[local] Hint Resolve pres_command_reset : preserves_db.

Lemma pres_set_flag flag v : preserves R (ccd_set_flag (S := S) flag v).
Proof using All.
  unfold ccd_set_flag. preserves_tac.
Qed.
#[local] Hint Resolve pres_set_flag : preserves_db.

Lemma pres_testlab_toggle : preserves R (ccd_testlab_toggle (S := S)).
Proof using All.
  unfold ccd_testlab_toggle, ccd_get_flag.
  preserves_tac.
Qed.
#[local] Hint Resolve pres_testlab_toggle : preserves_db.

Lemma pres_get_info p : preserves R (ccd_get_info (S := S) p).
Proof using All. unfold ccd_get_info. preserves_tac. Qed.
#[local] Hint Resolve pres_get_info : preserves_db.

Lemma pres_poll_unlock p : preserves R (ccd_pp_poll_unlock (S := S) p).
Proof using All. unfold ccd_pp_poll_unlock, ccd_pp_poll. preserves_tac. Qed.
#[local] Hint Resolve pres_poll_unlock : preserves_db.

Lemma pres_poll_open p : preserves R (ccd_pp_poll_open (S := S) p).
Proof using All. unfold ccd_pp_poll_open, ccd_pp_poll. preserves_tac. Qed.
#[local] Hint Resolve pres_poll_open : preserves_db.
End Preserve.

(** ** Who can open *)

Section Authorised.
Context {S : Type} `{!NvStore S}.
Implicit Types w : ccd S.

(** The TPM was wiped between two states. *)
Definition wiped w w' : Prop :=
  exists new, actions w' = new ++ actions w /\
    (In (tpm_sync_reset 0) new \/ In (board_wipe_tpm 0) new).

(** A move to the opened state was preceded by a wipe of the TPM, unless the
    configuration exempts from it or the device is in test lab mode. *)
Definition opens w w' : Prop :=
  ccd_state w' = CCD_STATE_OPENED -> ccd_state w <> CCD_STATE_OPENED ->
  wiped w w' \/ cap_enabled w CCD_CAP_OPEN_WITHOUT_TPM_WIPE = true \/
  get_flag w CCD_FLAG_TEST_LAB = true.

(** Nothing that matters to opening changes. *)
Definition quiet w w' : Prop :=
  ccd_state w' = ccd_state w /\ config w' = config w /\
  ccd_config_loaded w' = ccd_config_loaded w /\ force_disabled w' = force_disabled w /\
  actions w' = actions w.

Definition keeps_state w w' : Prop := ccd_state w' = ccd_state w.

#[local] Instance quiet_refl : Reflexive quiet.
Proof. by intros w. Qed.
#[local] Instance quiet_trans : Transitive quiet.
Proof. intros w1 w2 w3 (?&?&?&?&?) (?&?&?&?&?). unfold quiet. split_and!; congruence. Qed.
#[local] Instance keeps_refl : Reflexive keeps_state.
Proof. by intros w. Qed.
#[local] Instance keeps_trans : Transitive keeps_state.
Proof. intros w1 w2 w3. unfold keeps_state. congruence. Qed.

Lemma quiet_cap w w' cap : quiet w w' -> cap_enabled w' cap = cap_enabled w cap.
Proof. intros (H1&H2&H3&H4&_). unfold cap_enabled. by rewrite H1, H2, H3, H4. Qed.

Lemma quiet_flag w w' f : quiet w w' -> get_flag w' f = get_flag w f.
Proof. intros (H1&H2&H3&H4&_). unfold get_flag. by rewrite H2, H3, H4. Qed.

Lemma quiet_opens w1 w2 w3 : quiet w1 w2 -> opens w2 w3 -> opens w1 w3.
Proof.
  intros Hq Ho H3 H1. pose proof Hq as (Hs & _ & _ & _ & Ha).
  destruct (Ho H3) as [(new & Hn & Hi)|[Hc|Hf]]; [congruence| | |].
  - left. exists new. by rewrite <- Ha.
  - right; left. by rewrite <- (quiet_cap _ _ _ Hq).
  - right; right. by rewrite <- (quiet_flag _ _ _ Hq).
Qed.

Lemma opens_quiet w1 w2 w3 : opens w1 w2 -> quiet w2 w3 -> opens w1 w3.
Proof.
  intros Ho (Hs & _ & _ & _ & Ha) H3 H1.
  destruct (Ho ltac:(congruence) H1) as [(new & Hn & Hi)|Hr]; [|by right].
  left. exists new. by rewrite Ha.
Qed.

Lemma keeps_opens {A} (m : ST (ccd S) A) : preserves keeps_state m -> preserves opens m.
Proof. intros Hm w H1 H2. specialize (Hm w). unfold keeps_state in Hm. congruence. Qed.

Lemma opens_bind_l {A B} (m : ST (ccd S) A) (k : A -> ST (ccd S) B) :
  preserves quiet m -> (forall a, preserves opens (k a)) -> preserves opens (bind m k).
Proof.
  intros Hm Hk w. unfold bind. specialize (Hm w). destruct (m w) as [a w1].
  eapply quiet_opens; [exact Hm|apply Hk].
Qed.

Lemma opens_bind_r {A B} (m : ST (ccd S) A) (k : A -> ST (ccd S) B) :
  preserves opens m -> (forall a, preserves quiet (k a)) -> preserves opens (bind m k).
Proof.
  intros Hm Hk w. unfold bind. specialize (Hm w). destruct (m w) as [a w1].
  eapply opens_quiet; [exact Hm|apply Hk].
Qed.

Lemma quiet_presence {A} (m : ST (pp callback) A) : preserves quiet (on_presence (S := S) m).
Proof. intros w. unfold on_presence. by destruct (m (presence w)). Qed.

Lemma quiet_time t : preserves quiet (set_password_time (S := S) t).
Proof. by intros w. Qed.

Lemma quiet_console b : preserves quiet (set_console_active (S := S) b).
Proof. by intros w. Qed.

#[local] Hint Resolve quiet_presence quiet_time quiet_console : preserves_db.

Lemma keeps_config c : preserves keeps_state (set_config (S := S) c).
Proof. by intros w. Qed.
Lemma keeps_act a : preserves keeps_state (act (S := S) a).
Proof. by intros w. Qed.
Lemma keeps_store s : preserves keeps_state (set_store (S := S) s).
Proof. by intros w. Qed.
Lemma keeps_time t : preserves keeps_state (set_password_time (S := S) t).
Proof. by intros w. Qed.
Lemma keeps_presence {A} (m : ST (pp callback) A) :
  preserves keeps_state (on_presence (S := S) m).
Proof. intros w. unfold on_presence. by destruct (m (presence w)). Qed.

#[local] Hint Resolve keeps_config keeps_act keeps_store keeps_time keeps_presence
  : preserves_db.

Context (E : board).

Lemma quiet_check_password pw : preserves quiet (raw_check_password (S := S) E pw).
Proof. unfold raw_check_password. preserves_tac. Qed.

(** A move to a state other than opened. *)
Lemma opens_set_state st :
  st <> CCD_STATE_OPENED -> preserves opens (ccd_set_state (S := S) st).
Proof.
  intros Hst w. unfold ccd_set_state, bind, gets, id, assign_state, act, upd, modify, ret.
  unfold opens. destruct (bool_decide (st = ccd_state w)); cbn; intros H1 H2; congruence.
Qed.

(** The actions only grow. *)
Definition extends w w' : Prop := exists new, actions w' = new ++ actions w.

#[local] Instance extends_refl : Reflexive extends.
Proof. intros w. by exists []. Qed.
#[local] Instance extends_trans : Transitive extends.
Proof.
  intros w1 w2 w3 [n1 H1] [n2 H2]. exists (n2 ++ n1). by rewrite H2, H1, app_assoc.
Qed.

Lemma extends_act a : preserves extends (act (S := S) a).
Proof. intros w. by exists [a]. Qed.

Lemma extends_assign st : preserves extends (assign_state (S := S) st).
Proof. intros w. by exists []. Qed.

#[local] Hint Resolve extends_act extends_assign : preserves_db.

(** [ccd_open_done] once the TPM needs no wiping any more. *)
Definition open_tail (sync : bool) : ST (ccd S) unit :=
  let* no_reboot := ccd_is_cap_enabled CCD_CAP_UNLOCK_WITHOUT_AP_REBOOT in
  let* no_wipe := ccd_is_cap_enabled CCD_CAP_OPEN_WITHOUT_TPM_WIPE in
  (if negb no_reboot || (negb no_wipe && sync) then act board_reboot_ap else ret tt) ;;;
  ccd_set_state CCD_STATE_OPENED.

Lemma extends_open_tail sync : preserves extends (open_tail sync).
Proof. unfold open_tail, ccd_is_cap_enabled, ccd_set_state. preserves_tac. Qed.

Definition wipe_result (sync : bool) : Z :=
  if sync then tpm_sync_reset_result E else board_wipe_tpm_result E.

Lemma open_done_eq sync w :
  ccd_open_done E sync w =
  let w1 := (act delay_sleep_tpm_wipe w).2 in
  if cap_enabled w CCD_CAP_OPEN_WITHOUT_TPM_WIPE then open_tail sync w1
  else
    let w2 := (act (if sync then tpm_sync_reset (wipe_result sync)
                    else board_wipe_tpm (wipe_result sync)) w1).2 in
    if wipe_result sync =? EC.SUCCESS then open_tail sync w2 else (tt, w2).
Proof.
  unfold ccd_open_done, wipe_result. unfold bind at 1.
  change (act delay_sleep_tpm_wipe w) with (tt, (act delay_sleep_tpm_wipe w).2).
  set (w1 := (act delay_sleep_tpm_wipe w).2). cbn beta iota.
  unfold bind at 1. unfold ccd_is_cap_enabled at 1, gets at 1. cbn beta iota.
  change (cap_enabled w1 CCD_CAP_OPEN_WITHOUT_TPM_WIPE)
    with (cap_enabled w CCD_CAP_OPEN_WITHOUT_TPM_WIPE).
  destruct (cap_enabled w CCD_CAP_OPEN_WITHOUT_TPM_WIPE); [reflexivity|].
  destruct sync; unfold bind at 1; unfold bind at 1; unfold ret at 1;
    [destruct (tpm_sync_reset_result E =? EC.SUCCESS) eqn:Hrv
    |destruct (board_wipe_tpm_result E =? EC.SUCCESS) eqn:Hrv];
    cbn -[open_tail]; rewrite Hrv; reflexivity.
Qed.

Lemma opens_open_done sync : preserves opens (ccd_open_done (S := S) E sync).
Proof.
  intros w. rewrite open_done_eq. cbn zeta.
  destruct (cap_enabled w CCD_CAP_OPEN_WITHOUT_TPM_WIPE) eqn:Hcap.
  { intros _ _. right; by left. }
  set (w2 := (act _ _).2).
  destruct (wipe_result sync =? EC.SUCCESS) eqn:Hrv.
  - intros _ _. left. apply Z.eqb_eq in Hrv.
    destruct (extends_open_tail sync w2) as [new Hnew].
    eexists. split; [rewrite Hnew; cbn; rewrite cons_middle, app_assoc;
      rewrite (cons_middle delay_sleep_tpm_wipe), app_assoc; reflexivity|].
    rewrite Hrv. destruct sync; rewrite !in_app_iff; cbn; tauto.
  - intros H1 H2. exfalso. by apply H2.
Qed.

Lemma opens_unlock_done : preserves opens (ccd_unlock_done (S := S)).
Proof.
  intros w. unfold ccd_unlock_done, ccd_is_cap_enabled, gets, bind at 1.
  destruct (cap_enabled w CCD_CAP_UNLOCK_WITHOUT_AP_REBOOT); cbn [negb].
  - by apply opens_set_state.
  - unfold opens, act, upd, modify, ccd_set_state, gets, id, assign_state, ret, bind.
    cbn [ccd_state]. destruct (bool_decide (CCD_STATE_UNLOCKED = ccd_state w));
      cbn; congruence.
Qed.

#[local] Hint Resolve opens_open_done opens_unlock_done : preserves_db.

(** Split a handler at the first call that may open. *)
Ltac opens_step :=
  lazymatch goal with
  | |- preserves opens (bind _ _) =>
      first [ refine (opens_bind_l _ _ _ _); [solve [preserves_tac]|intros ?]
            | refine (opens_bind_r _ _ _ _); [|intros ?; solve [preserves_tac]] ]
  | |- preserves opens (ret _) =>
      apply keeps_opens; solve [preserves_tac]
  | |- preserves _ (let '(_, _) := ?p in _) => destruct p
  | |- preserves _ (match ?x with _ => _ end) => destruct x
  | |- preserves opens _ =>
      first [ solve [auto 2 with preserves_db]
            | apply keeps_opens; solve [preserves_tac] ]
  end.

Ltac opens_tac := repeat opens_step.

#[local] Hint Resolve quiet_check_password : preserves_db.

Lemma opens_open_allowed p : preserves opens (ccd_open_allowed (S := S) E p).
Proof. unfold ccd_open_allowed. opens_tac. Qed.
#[local] Hint Resolve opens_open_allowed : preserves_db.

Lemma opens_ccd_open p : preserves opens (ccd_open (S := S) E p).
Proof. unfold ccd_open, open_denied. opens_tac. Qed.

Lemma opens_ccd_unlock p : preserves opens (ccd_unlock (S := S) E p).
Proof. unfold ccd_unlock, open_denied. opens_tac. Qed.

Lemma opens_ccd_lock p : preserves opens (ccd_lock (S := S) p).
Proof.
  unfold ccd_lock. refine (opens_bind_r _ _ _ _); [|intros ?; preserves_tac].
  by apply opens_set_state.
Qed.

#[local] Hint Resolve opens_ccd_open opens_ccd_unlock opens_ccd_lock : preserves_db.
#[local] Hint Resolve pres_password pres_poll_unlock pres_poll_open pres_get_info
  pres_command_set pres_command_reset pres_set_flag pres_testlab_toggle
  pres_reset_config : preserves_db.

Lemma keeps_ccd_password p : preserves keeps_state (ccd_password (S := S) E p).
Proof. apply pres_password; try apply _; auto with preserves_db. Qed.

Lemma keeps_command_set args : preserves keeps_state (command_ccd_set (S := S) args).
Proof. apply pres_command_set; try apply _; auto with preserves_db. Qed.

Lemma keeps_command_reset args : preserves keeps_state (command_ccd_reset (S := S) args).
Proof. apply pres_command_reset; try apply _; auto with preserves_db. Qed.

Lemma keeps_testlab_toggle : preserves keeps_state (ccd_testlab_toggle (S := S)).
Proof. apply pres_testlab_toggle; try apply _; auto with preserves_db. Qed.

Lemma keeps_set_flag f v : preserves keeps_state (ccd_set_flag (S := S) f v).
Proof. apply pres_set_flag; try apply _; auto with preserves_db. Qed.

Lemma keeps_reset_config f : preserves keeps_state (ccd_reset_config (S := S) f).
Proof. apply pres_reset_config; try apply _; auto with preserves_db. Qed.

Lemma quiet_poll_unlock p : preserves quiet (ccd_pp_poll_unlock (S := S) p).
Proof. unfold ccd_pp_poll_unlock, ccd_pp_poll. preserves_tac. Qed.

Lemma quiet_poll_open p : preserves quiet (ccd_pp_poll_open (S := S) p).
Proof. unfold ccd_pp_poll_open, ccd_pp_poll. preserves_tac. Qed.

Lemma quiet_get_info p : preserves quiet (ccd_get_info (S := S) p).
Proof. unfold ccd_get_info. preserves_tac. Qed.

Lemma quiet_opens_m {A} (m : ST (ccd S) A) : preserves quiet m -> preserves opens m.
Proof. intros Hm. apply keeps_opens. intros w. apply Hm. Qed.

Lemma opens_ccd_vendor p : preserves opens (ccd_vendor (S := S) E p).
Proof.
  unfold ccd_vendor. destruct (_ <? _); [opens_tac|].
  cbn zeta. repeat split_if; try (by apply quiet_opens_m; preserves_tac);
    (refine (opens_bind_r _ _ _ _); [|intros [? ?]; preserves_tac]);
    auto using keeps_opens, quiet_opens_m, keeps_ccd_password, opens_ccd_open,
      opens_ccd_unlock, opens_ccd_lock, quiet_poll_unlock, quiet_poll_open, quiet_get_info.
Qed.
#[local] Hint Resolve opens_ccd_vendor : preserves_db.

Lemma opens_route p :
  preserves opens (extension_route_command [(CC.CCD, ccd_vendor (S := S) E)]
                     (board_id_is_mismatched E) p).
Proof.
  unfold extension_route_command, find_handler. cbn zeta.
  repeat split_if; try (by apply quiet_opens_m; preserves_tac). apply opens_ccd_vendor.
Qed.

Lemma opens_wrapper n pw sub : preserves opens (ccd_command_wrapper (S := S) E n pw sub).
Proof.
  unfold ccd_command_wrapper. top_if; [apply quiet_opens_m; preserves_tac|].
  cbn zeta. refine (opens_bind_r _ _ _ _); [|intros [? ?]; preserves_tac].
  unfold call_extension_command. cbn zeta. top_if; [|apply quiet_opens_m; preserves_tac].
  refine (opens_bind_r _ _ _ _); [|intros [? ?]; preserves_tac].
  refine (opens_bind_r _ _ _ _); [apply opens_route|intros [? ?]; preserves_tac].
Qed.

Lemma opens_gets {A} (k : ccd S -> ST (ccd S) A) :
  (forall w, opens w (k w w).2) -> preserves opens (bind (gets id) k).
Proof. intros H w. apply H. Qed.

Ltac quiet_here :=
  match goal with |- opens ?w (?m ?w).2 => apply (quiet_opens_m m) end; preserves_tac.

Lemma opens_testlab args : preserves opens (command_ccd_testlab (S := S) args).
Proof.
  unfold command_ccd_testlab. apply opens_gets. intros w.
  destruct (force_disabled w); [quiet_here|].
  destruct (argc args <? 2)%nat; [quiet_here|].
  destruct (strcasecmp (arg args 1) (str "open") =? 0).
  - destruct (get_flag w CCD_FLAG_TEST_LAB) eqn:Hlab; cbn [negb]; [|quiet_here].
    intros _ _. right; by right.
  - destruct (bool_decide (ccd_state w = CCD_STATE_OPENED)); cbn [negb]; [|quiet_here].
    destruct (parse_bool (arg args 1)) as [f|]; [destruct (f =? _)|]; quiet_here.
Qed.

Lemma opens_body args : preserves opens (command_ccd_body (S := S) E args).
Proof.
  unfold command_ccd_body. cbn zeta. refine (opens_bind_l _ _ _ _); [preserves_tac|intros w].
  repeat split_if; try (by apply quiet_opens_m; preserves_tac);
    auto using opens_testlab, opens_wrapper, keeps_opens, keeps_command_set,
      keeps_command_reset.
Qed.

Lemma opens_console args : preserves opens (command_ccd (S := S) E args).
Proof.
  unfold command_ccd. refine (opens_bind_l _ _ _ _); [preserves_tac|intros ?].
  refine (opens_bind_r _ _ _ _); [apply opens_body|intros ?; preserves_tac].
Qed.

Lemma opens_detect_done : preserves opens (physical_detect_done (S := S) E).
Proof.
  unfold physical_detect_done. refine (opens_bind_l _ _ _ _); [preserves_tac|intros cb].
  refine (opens_bind_r _ _ _ _); [|intros ?; preserves_tac].
  destruct cb as [[]|]; cbn [run_callback];
    [apply opens_open_done|apply opens_unlock_done
    |apply keeps_opens, keeps_testlab_toggle|apply quiet_opens_m; preserves_tac].
Qed.

Lemma opens_disable : preserves opens (ccd_disable (S := S)).
Proof.
  intros w0. unfold ccd_disable, set_force_disabled, upd, modify, bind.
  intros H3 H4. exfalso. revert H3. unfold ccd_set_state, bind, gets, id, assign_state,
    act, upd, modify, ret. cbn [ccd_state].
  destruct (bool_decide (CCD_STATE_LOCKED = ccd_state w0)); cbn; congruence.
Qed.

(** What leaving factory mode requires: no password, and either the battery removed
    (when that bypasses presence) or all four opening exemptions granted. *)
Definition may_leave_factory w : Prop :=
  raw_has_password (config w) = false /\
  (cap_enabled w CCD_CAP_REMOVE_BATTERY_BYPASSES_PP = true /\
     board_battery_is_present E = false \/
   forallb (cap_enabled w) required_capabilities = true).

Lemma disable_factory_state p w :
  ccd_state (ccd_disable_factory_mode E p w).2 = CCD_STATE_OPENED ->
  ccd_state w = CCD_STATE_OPENED \/ may_leave_factory w.
Proof.
  unfold ccd_disable_factory_mode, factory_error, may_leave_factory.
  unfold bind at 1, gets at 1, id.
  destruct (raw_has_password (config w)); [by left|].
  destruct (cap_enabled w CCD_CAP_REMOVE_BATTERY_BYPASSES_PP),
    (board_battery_is_present E), (forallb (cap_enabled w) required_capabilities);
    cbn [negb orb andb]; intros H;
    first [ solve [right; auto] | left; exact H ].
Qed.

(** C1. The only ways to the opened state: an operation that opens the device has
    wiped the TPM first, or the configuration exempts from the wipe, or the device
    was in test lab mode, or the operation is the one that leaves factory mode and
    its conditions hold.  This covers every vendor command, console command,
    deferred presence callback and call by other components. *)
Theorem opened_only_authorised op w :
  ccd_state w <> CCD_STATE_OPENED ->
  ccd_state (run_op E op w).2 = CCD_STATE_OPENED ->
  wiped w (run_op E op w).2 \/
  cap_enabled w CCD_CAP_OPEN_WITHOUT_TPM_WIPE = true \/
  get_flag w CCD_FLAG_TEST_LAB = true \/
  (exists p, op = OpDisableFactory p /\ may_leave_factory w).
Proof.
  intros H1 H2.
  assert (preserves opens (run_op (S := S) E op) \/ exists p, op = OpDisableFactory p)
    as [Ho|[p ->]].
  - destruct op; [left|right; eauto|left..]; cbn [run_op].
    1-4: refine (opens_bind_r _ _ _ _); [|intros ?; preserves_tac].
    + apply opens_ccd_vendor.
    + apply opens_console.
    + apply keeps_opens, keeps_set_flag.
    + apply keeps_opens, keeps_reset_config.
    + apply opens_disable.
    + apply opens_detect_done.
    + apply quiet_opens_m, quiet_presence.
  - destruct (Ho w H2 H1) as [H|[H|H]]; auto.
  - right; right; right. exists p. split; [done|]. cbn [run_op] in H2.
    destruct (disable_factory_state p w) as [H|H]; [|done|done].
    revert H2. unfold bind. by destruct (ccd_disable_factory_mode E p w) as [[] ?].
Qed.
End Authorised.

(** The owner opens from the AP in developer mode with the battery removed. *)
Definition dev_board : board :=
  mkBoard false true true false false 0 0 (true, [7; 7; 7; 7]) true
    toy_hash [1; 2].

Definition open_command : ccd_op :=
  OpVendor (mkParams CC.CCD (1 :: zeros 40) 1 100 0).

Definition sample_locked : ccd ram_store :=
  (ccd_config_init sample_board 0 sample_boot).2.

Example opened_only_authorised_witness :
  ccd_state (run_op dev_board open_command sample_locked).2 = CCD_STATE_OPENED /\
  (wiped sample_locked (run_op dev_board open_command sample_locked).2 \/
   cap_enabled sample_locked CCD_CAP_OPEN_WITHOUT_TPM_WIPE = true \/
   get_flag sample_locked CCD_FLAG_TEST_LAB = true \/
   (exists p, open_command = OpDisableFactory p /\ may_leave_factory dev_board sample_locked)).
Proof.
  split; [vm_compute; reflexivity|].
  apply (opened_only_authorised dev_board open_command sample_locked);
    vm_compute; [discriminate|reflexivity].
Defined.
