(* ===== verification/CcdPolicy.v ===== *)
(** * Case-closed debugging: who may open, passwords, and the disabled state *)

From S2P Require Import Prelude Util NvStore PhysPresence Vendor CcdConfig CcdSafety.

(** ** Opening *)

Section Open.
Context {S : Type} `{!NvStore S}.
Context (E : board).
Implicit Types w : ccd S.

(** The password given with the command, if one is needed. *)
Definition given_password (p : vendor_cmd_params) : list Z :=
  cstring (buffer (terminate p)).

(** What has to hold for an open command to be accepted. *)
Definition may_open (p : vendor_cmd_params) w : Prop :=
  force_disabled w = false /\ board_fwmp_allows_unlock E = true /\
  physical_detect_busy (presence w) = false /\
  if raw_has_password (config w)
  then in_size p <> 0 /\ (raw_check_password E (given_password p) w).1 = EC.SUCCESS
  else board_battery_is_present E = false \/
       (cap_enabled w CCD_CAP_OPEN_WITHOUT_DEV_MODE = true \/
        board_vboot_dev_mode_enabled E = true) /\
       (cap_enabled w CCD_CAP_OPEN_FROM_USB = true \/ from_usb_or_alt p = false).

(** Whether the configuration lets the opening happen without physical presence. *)
Definition presence_bypassed w : bool :=
  (cap_enabled w CCD_CAP_OPEN_WITHOUT_LONG_PP
     && cap_enabled w CCD_CAP_UNLOCK_WITHOUT_SHORT_PP)
  || (cap_enabled w CCD_CAP_REMOVE_BATTERY_BYPASSES_PP
        && negb (board_battery_is_present E)).

(** The answer to an accepted or refused open. *)
Definition open_result w (r : Z * vendor_cmd_params) w' : Prop :=
  (r.1 = RC.VENDOR_RC_SUCCESS /\ presence_bypassed w = true) \/
  (r.1 = RC.VENDOR_RC_IN_PROGRESS /\ presence_bypassed w = false /\
   ccd_state w' = ccd_state w /\
   pp_detect_callback (presence w') = Some ccd_open_done_async /\
   pp_press_count_needed (presence w') =
     (if cap_enabled w CCD_CAP_OPEN_WITHOUT_LONG_PP then 5 else 9)) \/
  (r.1 <> RC.VENDOR_RC_SUCCESS /\ r.1 <> RC.VENDOR_RC_IN_PROGRESS /\
   ccd_state w' = ccd_state w).

Lemma detect_start_idle is_long cb (s : pp callback) :
  physical_detect_busy s = false ->
  exists s', physical_detect_start is_long cb s = (EC.SUCCESS, s') /\
    pp_detect_callback s' = Some cb /\
    pp_press_count_needed s' = (if is_long : bool then 9 else 5).
Proof.
  unfold physical_detect_busy. intros Hb%negb_false_iff.
  unfold physical_detect_start, physical_detect_start_begin, bind, gets, id.
  rewrite Hb. cbn [negb]. eexists. split; [reflexivity|]. by destruct is_long.
Qed.

Lemma open_allowed_result p w r w' :
  ccd_open_allowed E p w = (r, w') ->
  open_result w r w' /\
  (r.1 = RC.VENDOR_RC_SUCCESS \/ r.1 = RC.VENDOR_RC_IN_PROGRESS ->
   physical_detect_busy (presence w) = false).
Proof.
  unfold ccd_open_allowed. unfold bind at 1, gets at 1, id.
  destruct (physical_detect_busy (presence w)) eqn:Hbusy.
  { unfold on_presence, bind, ret. destruct (physical_detect_abort (presence w)) as [? pr].
    intros [= <- <-]. split; [right; right; split_and!; cbn; done|].
    by intros [H|H]; vm_compute in H. }
  set (need_pp := (negb (negb (negb _) && _) && _)%bool).
  assert (need_pp = negb (presence_bypassed w)) as ->.
  { unfold need_pp, presence_bypassed.
    destruct (cap_enabled w CCD_CAP_OPEN_WITHOUT_LONG_PP),
      (cap_enabled w CCD_CAP_UNLOCK_WITHOUT_SHORT_PP),
      (cap_enabled w CCD_CAP_REMOVE_BATTERY_BYPASSES_PP), (board_battery_is_present E);
      reflexivity. }
  destruct (presence_bypassed w) eqn:Hby; cbn [negb].
  - unfold bind, ret. destruct (ccd_open_done E true w) as [? w1].
    intros [= <- <-]. split; [left; done|done].
  - destruct (detect_start_idle (negb (cap_enabled w CCD_CAP_OPEN_WITHOUT_LONG_PP))
                ccd_open_done_async (presence w) Hbusy) as (s & Hs & Hcb & Hn).
    unfold bind, on_presence, ret. rewrite Hs. cbn. intros [= <- <-].
    split; [|done]. right; left. cbn. split_and!; try done.
    rewrite Hn. by destruct (cap_enabled w CCD_CAP_OPEN_WITHOUT_LONG_PP).
Qed.

Lemma check_password_quiet pw w :
  let w1 := (raw_check_password E pw w).2 in
  quiet w w1 /\ presence w1 = presence w.
Proof.
  split; [apply quiet_check_password|].
  unfold raw_check_password, bind, gets, id, ret, set_password_time, upd, modify.
  destruct (raw_has_password (config w)); [|done]. cbn [negb].
  destruct (_ <? _); [done|]. by destruct (ccd_password_digest _ _ _).
Qed.

Lemma open_refused rc p' w :
  rc <> RC.VENDOR_RC_SUCCESS -> rc <> RC.VENDOR_RC_IN_PROGRESS -> open_result w (rc, p') w.
Proof. intros. by right; right. Qed.

Lemma quiet_bypassed w w1 :
  quiet w w1 -> presence_bypassed w1 = presence_bypassed w.
Proof. intros Hq. unfold presence_bypassed. by rewrite !(quiet_cap _ _ _ Hq). Qed.

Lemma quiet_open_result w w1 r w' : quiet w w1 -> open_result w1 r w' -> open_result w r w'.
Proof.
  intros Hq. pose proof Hq as (Hs & _). unfold open_result.
  by rewrite (quiet_bypassed _ _ Hq), (quiet_cap _ _ _ Hq), Hs.
Qed.

(** A branch of the code that refuses the command. *)
Ltac deny Hdeny Hopen :=
  let Hno := fresh "Hno" in let Hacc := fresh "Hacc" in
  destruct (Hdeny _ _ Hopen ltac:(done) ltac:(done)) as [? Hno];
  split; [done|intros Hacc; destruct (Hno Hacc)].

(** C8. An open command on a device that is not opened is accepted (at once or after
    physical presence) only if CCD is not disabled, the firmware management
    parameters allow it, no presence detection is under way, and either the correct
    password was given, or there is no password and the battery is removed, or
    there is no password and the device is in developer mode with the command coming
    from the AP (each waived only by its capability).  It takes effect at once only
    when the configuration waives physical presence, otherwise a sequence of five or
    nine presses is started and the state stays as it is; a refused command leaves
    the state as it is. *)
Theorem ccd_open_conditions p w r w' :
  ccd_open E p w = (r, w') -> ccd_state w <> CCD_STATE_OPENED ->
  open_result w r w' /\
  (r.1 = RC.VENDOR_RC_SUCCESS \/ r.1 = RC.VENDOR_RC_IN_PROGRESS -> may_open p w).
Proof.
  intros Hopen Hst. unfold ccd_open, open_denied in Hopen.
  unfold bind at 1, gets at 1, id in Hopen. unfold may_open.
  assert (forall rc q, (ret (rc, q) : ST (ccd S) _) w = (r, w') ->
    rc <> RC.VENDOR_RC_SUCCESS -> rc <> RC.VENDOR_RC_IN_PROGRESS ->
    open_result w r w' /\
    (r.1 = RC.VENDOR_RC_SUCCESS \/ r.1 = RC.VENDOR_RC_IN_PROGRESS -> False)) as Hdeny.
  { intros rc q [= <- <-] H1 H2. split; [by apply open_refused|]. cbn. tauto. }
  destruct (force_disabled w); [deny Hdeny Hopen|].
  rewrite bool_decide_false in Hopen by done.
  destruct (board_fwmp_allows_unlock E); cbn [negb] in Hopen;
    [|deny Hdeny Hopen].
  destruct (raw_has_password (config w)).
  - destruct (Z.eqb_spec (in_size p) 0) as [|Hin];
      [deny Hdeny Hopen|].
    unfold given_password. destruct (check_password_quiet (cstring (buffer (terminate p))) w)
      as [Hq Hpr]. unfold bind at 1 in Hopen.
    destruct (raw_check_password _ _ w) as [rv w1]. cbn [fst snd] in *.
    destruct (nz rv) eqn:Hrv.
    + injection Hopen as <- <-. split; [|intros [H|H]; vm_compute in H; discriminate].
      right; right. cbn. split_and!; [done|done|]. apply Hq.
    + bool_to_Prop. subst rv. apply open_allowed_result in Hopen as [Hres Hbusy].
      split; [by eapply quiet_open_result|]. rewrite Hpr in Hbusy. auto.
  - destruct (board_battery_is_present E); cbn [negb] in Hopen.
    + destruct (_ && _)%bool eqn:Hc in Hopen; [|deny Hdeny Hopen].
      apply open_allowed_result in Hopen as [Hres Hbusy]. split; [done|].
      apply andb_true_iff in Hc as [H1%orb_true_iff H2%orb_true_iff].
      rewrite negb_true_iff in H2. intros H. split_and!; auto.
    + apply open_allowed_result in Hopen as [Hres Hbusy]. split; [done|].
      intros H. split_and!; auto.
Qed.
End Open.

Definition open_params : vendor_cmd_params := mkParams CC.CCD (zeros 40) 0 0 0.

Example ccd_open_conditions_witness :
  may_open dev_board open_params sample_locked.
Proof.
  apply (ccd_open_conditions dev_board open_params sample_locked
           (ccd_open dev_board open_params sample_locked).1
           (ccd_open dev_board open_params sample_locked).2).
  - apply surjective_pairing.
  - vm_compute. discriminate.
  - left. vm_compute. reflexivity.
Defined.

(** ** Passwords *)

Section Password.
Context {S : Type} `{!NvStore S}.
Context (E : board).
Implicit Types w : ccd S.

(** The digest stored for a password and a salt. *)
Definition expected_digest (salt password : list Z) : list Z :=
  take 16 (sha256 E (salt ++ chip_unique_id E ++ password)).

(** Checking a password, on every branch: without a password set only the empty one
    matches; within three seconds of the last attempt (as the low 32 bits of the
    clock tell) the check answers "busy" and changes nothing; otherwise the attempt is
    recorded, whatever its outcome, and the password is accepted exactly when its
    salted digest equals the stored one. *)
Theorem raw_check_password_spec w pw :
  length (password_digest (config w)) = 16%nat ->
  (forall l, length (sha256 E l) = 32%nat) ->
  raw_check_password E pw w =
  if negb (raw_has_password (config w))
  then ((if bool_decide (pw = []) then EC.SUCCESS else EC.ERROR_ACCESS_DENIED), w)
  else if (time_lo w - last_password_time w) mod 2 ^ 32 <? 3000000
  then (EC.ERROR_BUSY, w)
  else
    ((if negb (sha256_init_ok E) then EC.ERROR_HW_INTERNAL
      else if bool_decide (expected_digest (password_salt (config w)) pw =
                           password_digest (config w))
      then EC.SUCCESS else EC.ERROR_ACCESS_DENIED),
     (set_password_time (time_lo w) w).2).
Proof.
  intros Hlen Hsha. unfold raw_check_password, bind, gets, id, ret.
  destruct (raw_has_password (config w)); cbn [negb].
  2: { by destruct pw. }
  change PASSWORD_RATE_LIMIT_US with 3000000. unfold uN at 1.
  destruct (_ <? 3000000); [done|]. unfold set_password_time, upd, modify. cbn [snd].
  unfold ccd_password_digest. destruct (sha256_init_ok E); cbn [negb]; [|done].
  unfold CCD_PASSWORD_DIGEST_SIZE.
  fold (expected_digest (password_salt (config w)) pw). f_equal.
  set (d := expected_digest _ _).
  assert (length d = 16%nat) as Hd.
  { unfold d, expected_digest. rewrite length_take, Hsha. done. }
  pose proof (safe_memcmp_zero d (password_digest (config w)) 16 Hd Hlen) as Hz.
  destruct (nz (safe_memcmp d (password_digest (config w)) 16)) eqn:Hnz; bool_to_Prop.
  - rewrite bool_decide_false; [done|]. intros Heq. by apply Hnz, Hz.
  - rewrite bool_decide_true; [done|]. by apply Hz.
Qed.

(** A password that was set is the one that opens: after a successful
    [ccd_set_password], a check made at least three seconds after the last attempt
    succeeds for that password, and succeeds for another one only if the salted
    hashes agree on their first 16 bytes. *)
Theorem set_password_then_check w w1 w2 pw pw' :
  (forall l, length (sha256 E l) = 32%nat) ->
  length (fips_rand_salt E).2 = 4%nat ->
  ccd_set_password E pw w = (EC.SUCCESS, w1) ->
  config w2 = config w1 -> raw_has_password (config w2) = true ->
  3000000 <= (time_lo w2 - last_password_time w2) mod 2 ^ 32 ->
  (raw_check_password E pw' w2).1 = EC.SUCCESS <->
  expected_digest (password_salt (config w1)) pw' =
  expected_digest (password_salt (config w1)) pw.
Proof.
  intros Hsha Hsalt Hset Hc2 Hhas Ht.
  assert (sha256_init_ok E = true /\
          password_digest (config w1) = expected_digest (password_salt (config w1)) pw)
    as [Hok Hd].
  { unfold ccd_set_password, raw_set_password, update_config, bind, gets, set_config,
      upd, modify, ret, ccd_password_digest, id in Hset.
    destruct (fips_rand_salt E) as [ok salt]. destruct ok; cbn [negb] in Hset; [|discriminate].
    destruct (sha256_init_ok E); [|discriminate]. split; [done|].
    cbn -[ccd_save_config raw_set_flag] in Hset.
    match type of Hset with context [ccd_save_config ?w0] =>
      destruct (save_config_frame w0) as (Hc & _); destruct (ccd_save_config w0) as [rv w0'] end.
    cbn zeta in Hc. injection Hset as _ <-. cbn [snd] in Hc. rewrite Hc. done. }
  rewrite raw_check_password_spec; [|rewrite Hc2, Hd; unfold expected_digest;
    rewrite length_take, Hsha; done|done].
  rewrite Hhas, Hok, Hc2, Hd. cbn [negb].
  replace (_ <? 3000000) with false by (symmetry; apply Z.ltb_ge; done). cbn [fst].
  destruct (bool_decide _) eqn:Hb.
  - apply bool_decide_eq_true in Hb. done.
  - apply bool_decide_eq_false in Hb. done.
Qed.
End Password.

(** An unlocked device with a password, three seconds after boot. *)
Definition sample_password : ccd ram_store :=
  (ccd_set_password sample_board (str "secret") sample_unlocked).2.

Example raw_check_password_spec_witness :
  raw_check_password sample_board (str "guess") sample_password =
  (EC.ERROR_ACCESS_DENIED, (set_password_time 5000000 sample_password).2).
Proof.
  etransitivity; [apply (raw_check_password_spec sample_board sample_password (str "guess"));
    [vm_compute; reflexivity|exact toy_hash_length]|].
  vm_compute. reflexivity.
Defined.

Example set_password_then_check_witness :
  (raw_check_password sample_board (str "secret") sample_password).1 = EC.SUCCESS.
Proof.
  apply (set_password_then_check sample_board sample_unlocked sample_password
           sample_password (str "secret") (str "secret"));
    [exact toy_hash_length|reflexivity|vm_compute; reflexivity|reflexivity
    |vm_compute; reflexivity|vm_compute; discriminate|reflexivity].
Defined.

(** ** The disabled state *)

Section Disabled.
Context {S : Type} `{!NvStore S}.
Implicit Types w : ccd S.

(** CCD stays disabled. *)
Definition stays w w' : Prop := force_disabled w = true -> force_disabled w' = true.

#[local] Instance stays_refl : Reflexive stays.
Proof. intros w H; exact H. Qed.
#[local] Instance stays_trans : Transitive stays.
Proof. intros w1 w2 w3 H1 H2 H. auto. Qed.

Lemma stays_config c : preserves stays (set_config (S := S) c).
Proof. intros w H; exact H. Qed.
Lemma stays_act a : preserves stays (act (S := S) a).
Proof. intros w H; exact H. Qed.
Lemma stays_store s : preserves stays (set_store (S := S) s).
Proof. intros w H; exact H. Qed.
Lemma stays_time t : preserves stays (set_password_time (S := S) t).
Proof. intros w H; exact H. Qed.
Lemma stays_presence {A} (m : ST (pp callback) A) : preserves stays (on_presence (S := S) m).
Proof. intros w H. unfold on_presence. by destruct (m (presence w)). Qed.
Lemma stays_console b : preserves stays (set_console_active (S := S) b).
Proof. intros w H; exact H. Qed.
Lemma stays_assign st : preserves stays (assign_state (S := S) st).
Proof. intros w H; exact H. Qed.
Lemma stays_disabled : preserves stays (set_force_disabled (S := S) true).
Proof. by intros w H. Qed.

#[local] Hint Resolve stays_config stays_act stays_store stays_time stays_presence
  stays_console stays_assign stays_disabled : preserves_db.

Context (E : board).

Lemma stays_set_state st : preserves stays (ccd_set_state (S := S) st).
Proof. unfold ccd_set_state. preserves_tac. Qed.
#[local] Hint Resolve stays_set_state : preserves_db.

Lemma stays_open_done sync : preserves stays (ccd_open_done (S := S) E sync).
Proof. unfold ccd_open_done, ccd_is_cap_enabled. preserves_tac. Qed.

Lemma stays_unlock_done : preserves stays (ccd_unlock_done (S := S)).
Proof. unfold ccd_unlock_done, ccd_is_cap_enabled. preserves_tac. Qed.
#[local] Hint Resolve stays_open_done stays_unlock_done : preserves_db.

Lemma stays_check_password pw : preserves stays (raw_check_password (S := S) E pw).
Proof. unfold raw_check_password. preserves_tac. Qed.
#[local] Hint Resolve stays_check_password : preserves_db.

Lemma stays_ccd_password p : preserves stays (ccd_password (S := S) E p).
Proof. apply pres_password; try apply _; auto with preserves_db. Qed.
Lemma stays_command_set args : preserves stays (command_ccd_set (S := S) args).
Proof. apply pres_command_set; try apply _; auto with preserves_db. Qed.
Lemma stays_command_reset args : preserves stays (command_ccd_reset (S := S) args).
Proof. apply pres_command_reset; try apply _; auto with preserves_db. Qed.
Lemma stays_testlab_toggle : preserves stays (ccd_testlab_toggle (S := S)).
Proof. apply pres_testlab_toggle; try apply _; auto with preserves_db. Qed.
Lemma stays_set_flag f v : preserves stays (ccd_set_flag (S := S) f v).
Proof. apply pres_set_flag; try apply _; auto with preserves_db. Qed.
Lemma stays_reset_config f : preserves stays (ccd_reset_config (S := S) f).
Proof. apply pres_reset_config; try apply _; auto with preserves_db. Qed.
Lemma stays_get_info p : preserves stays (ccd_get_info (S := S) p).
Proof. unfold ccd_get_info. preserves_tac. Qed.

#[local] Hint Resolve stays_ccd_password stays_command_set stays_command_reset
  stays_testlab_toggle stays_set_flag stays_reset_config stays_get_info : preserves_db.

Lemma stays_open p : preserves stays (ccd_open (S := S) E p).
Proof. unfold ccd_open, open_denied, ccd_open_allowed. preserves_tac. Qed.
Lemma stays_unlock p : preserves stays (ccd_unlock (S := S) E p).
Proof. unfold ccd_unlock, open_denied. preserves_tac. Qed.
Lemma stays_lock p : preserves stays (ccd_lock (S := S) p).
Proof. unfold ccd_lock. preserves_tac. Qed.
Lemma stays_poll_unlock p : preserves stays (ccd_pp_poll_unlock (S := S) p).
Proof. unfold ccd_pp_poll_unlock, ccd_pp_poll. preserves_tac. Qed.
Lemma stays_poll_open p : preserves stays (ccd_pp_poll_open (S := S) p).
Proof. unfold ccd_pp_poll_open, ccd_pp_poll. preserves_tac. Qed.
#[local] Hint Resolve stays_open stays_unlock stays_lock stays_poll_unlock
  stays_poll_open : preserves_db.

Lemma stays_vendor p : preserves stays (ccd_vendor (S := S) E p).
Proof. unfold ccd_vendor. cbn zeta. repeat split_if; preserves_tac. Qed.
#[local] Hint Resolve stays_vendor : preserves_db.

Lemma stays_wrapper n pw sub : preserves stays (ccd_command_wrapper (S := S) E n pw sub).
Proof.
  unfold ccd_command_wrapper. cbn zeta. top_if; [preserves_tac|].
  refine (preserves_bind _ _ _ _ _); [|intros [? ?]; preserves_tac].
  unfold call_extension_command. cbn zeta. top_if; [|preserves_tac].
  refine (preserves_bind _ _ _ _ _); [|intros [? ?]; preserves_tac].
  refine (preserves_bind _ _ _ _ _); [|intros [? ?]; preserves_tac].
  unfold extension_route_command, find_handler. cbn zeta. repeat split_if; preserves_tac.
Qed.
#[local] Hint Resolve stays_wrapper : preserves_db.

Lemma stays_run_op op : preserves stays (run_op (S := S) E op).
Proof.
  destruct op; cbn [run_op].
  - preserves_tac.
  - refine (preserves_bind _ _ _ _ _); [|intros ?; preserves_tac].
    unfold ccd_disable_factory_mode, factory_error. preserves_tac.
    all: unfold update_config; preserves_tac.
  - refine (preserves_bind _ _ _ _ _); [|intros ?; preserves_tac].
    unfold command_ccd, command_ccd_body, command_ccd_testlab. cbn zeta. preserves_tac.
  - preserves_tac.
  - preserves_tac.
  - unfold ccd_disable. preserves_tac.
  - unfold physical_detect_done, run_callback. preserves_tac.
  - preserves_tac.
Qed.
End Disabled.

(** One operation, with whatever the board answers at that moment. *)
Definition op_step {S} `{!NvStore S} (w w' : ccd S) : Prop :=
  exists E op, w' = (run_op E op w).2.

(** ** The state while CCD is disabled *)

Lemma set_state_is {S} st (w : ccd S) : ccd_state (ccd_set_state st w).2 = st.
Proof.
  unfold ccd_set_state, bind, gets, id. destruct (decide (st = ccd_state w)) as [Hs|Hs].
  - by rewrite bool_decide_true.
  - by rewrite bool_decide_false.
Qed.

Section Shut.
Context {S : Type} `{!NvStore S}.
Context (E : board).
Implicit Types w : ccd S.

(** CCD stays disabled and locked. *)
Definition shut w : Prop := force_disabled w = true /\ ccd_state w = CCD_STATE_LOCKED.
Definition stays_shut w w' : Prop := shut w -> shut w'.

#[local] Instance stays_shut_refl : Reflexive stays_shut.
Proof. intros w H; exact H. Qed.
#[local] Instance stays_shut_trans : Transitive stays_shut.
Proof. intros w1 w2 w3 H1 H2 H. unfold stays_shut in *. auto. Qed.

Lemma shut_of {A} (m : ST (ccd S) A) :
  preserves stays m -> preserves keeps_state m -> preserves stays_shut m.
Proof. intros H1 H2 w [Hd Hs]. split; [by apply H1|]. by rewrite (H2 w). Qed.

Lemma shut_quiet {A} (m : ST (ccd S) A) : preserves quiet m -> preserves stays_shut m.
Proof. intros H w [Hd Hs]. destruct (H w) as (H1 & _ & _ & H2 & _). split; congruence. Qed.

(** A refusal that changes nothing. *)
Lemma shut_refused {A} (m : ST (ccd S) A) :
  (forall w, force_disabled w = true -> (m w).2 = w) -> preserves stays_shut m.
Proof. intros H w Hs. rewrite H by apply Hs. exact Hs. Qed.

Lemma shut_set_locked : preserves stays_shut (ccd_set_state (S := S) CCD_STATE_LOCKED).
Proof.
  intros w [Hd Hs]. unfold ccd_set_state, bind, gets, id. rewrite Hs. by split.
Qed.

Lemma shut_password p : preserves stays_shut (ccd_password (S := S) E p).
Proof. apply shut_of; [apply stays_ccd_password|apply keeps_ccd_password]. Qed.
Lemma shut_open p : preserves stays_shut (ccd_open (S := S) E p).
Proof. apply shut_refused. intros w Hd. unfold ccd_open, open_denied, bind, gets, id. by rewrite Hd. Qed.
Lemma shut_unlock p : preserves stays_shut (ccd_unlock (S := S) E p).
Proof. apply shut_refused. intros w Hd. unfold ccd_unlock, open_denied, bind, gets, id. by rewrite Hd. Qed.
Lemma shut_testlab args : preserves stays_shut (command_ccd_testlab (S := S) args).
Proof. apply shut_refused. intros w Hd. unfold command_ccd_testlab, bind, gets, id. by rewrite Hd. Qed.
Lemma shut_lock p : preserves stays_shut (ccd_lock (S := S) p).
Proof. unfold ccd_lock. pose proof shut_set_locked. preserves_tac. Qed.
Lemma shut_poll_unlock p : preserves stays_shut (ccd_pp_poll_unlock (S := S) p).
Proof. apply shut_quiet, quiet_poll_unlock. Qed.
Lemma shut_poll_open p : preserves stays_shut (ccd_pp_poll_open (S := S) p).
Proof. apply shut_quiet, quiet_poll_open. Qed.
Lemma shut_get_info p : preserves stays_shut (ccd_get_info (S := S) p).
Proof. apply shut_quiet, quiet_get_info. Qed.
Lemma shut_command_set args : preserves stays_shut (command_ccd_set (S := S) args).
Proof. apply shut_of; [apply (stays_command_set E)|apply (keeps_command_set E)]. Qed.
Lemma shut_command_reset args : preserves stays_shut (command_ccd_reset (S := S) args).
Proof. apply shut_of; [apply (stays_command_reset E)|apply (keeps_command_reset E)]. Qed.
Lemma shut_console_active b : preserves stays_shut (set_console_active (S := S) b).
Proof. apply shut_quiet, quiet_console. Qed.
Lemma shut_presence {A} (m : ST (pp callback) A) : preserves stays_shut (on_presence (S := S) m).
Proof. apply shut_quiet, quiet_presence. Qed.
#[local] Hint Resolve shut_password shut_open shut_unlock shut_testlab shut_lock shut_poll_unlock
  shut_poll_open shut_get_info shut_command_set shut_command_reset shut_console_active
  shut_presence : preserves_db.

Lemma shut_vendor p : preserves stays_shut (ccd_vendor (S := S) E p).
Proof. unfold ccd_vendor. cbn zeta. repeat split_if; preserves_tac. Qed.
#[local] Hint Resolve shut_vendor : preserves_db.

Lemma shut_wrapper n pw sub : preserves stays_shut (ccd_command_wrapper (S := S) E n pw sub).
Proof.
  unfold ccd_command_wrapper. cbn zeta. top_if; [preserves_tac|].
  refine (preserves_bind _ _ _ _ _); [|intros [? ?]; preserves_tac].
  unfold call_extension_command. cbn zeta. top_if; [|preserves_tac].
  refine (preserves_bind _ _ _ _ _); [|intros [? ?]; preserves_tac].
  refine (preserves_bind _ _ _ _ _); [|intros [? ?]; preserves_tac].
  unfold extension_route_command, find_handler. cbn zeta. repeat split_if; preserves_tac.
Qed.
#[local] Hint Resolve shut_wrapper : preserves_db.

Lemma shut_console args : preserves stays_shut (command_ccd (S := S) E args).
Proof. unfold command_ccd, command_ccd_body. cbn zeta. preserves_tac. Qed.

(** The operations that can change the state of a disabled device: the end of a presence
    detection that an open or unlock command started, and the end of factory mode. *)
Definition leaves_shut w (op : ccd_op) : Prop :=
  match op with
  | OpDisableFactory _ => True
  | OpDetectDone =>
      pp_detect_callback (presence w) = Some ccd_open_done_async \/
      pp_detect_callback (presence w) = Some ccd_unlock_done_cb
  | _ => False
  end.

Lemma shut_detect_done w :
  ~ leaves_shut w OpDetectDone -> shut w -> shut (physical_detect_done E w).2.
Proof.
  intros Hno Hs. unfold physical_detect_done.
  assert (forall w1, shut w1 -> shut (on_presence physical_detect_done_end w1).2) as Hend
    by (intros w1; apply shut_presence).
  destruct (on_presence physical_detect_done_begin w) as [cb w1] eqn:E1.
  assert (shut w1) as Hs1.
  { change w1 with (cb, w1).2. rewrite <-E1. by apply shut_presence. }
  rewrite (bind_run (on_presence physical_detect_done_begin) _ w cb w1 E1).
  destruct cb as [[| |]|]; unfold bind.
  1, 2: exfalso; apply Hno; unfold on_presence in E1;
    destruct (physical_detect_done_begin (presence w)) as [c q] eqn:Eb; injection E1 as -> _;
    apply done_begin_eq in Eb as (_ & _ & _ & Hc); destruct (Hc _ eq_refl) as (_ & _ & Hcb);
    cbn; auto.
  - cbn [run_callback].
    assert (shut (ccd_testlab_toggle w1).2) as H.
    { apply shut_of; [apply (stays_testlab_toggle E)|apply (keeps_testlab_toggle E)|done]. }
    destruct (ccd_testlab_toggle w1) as [[] w2]. by apply Hend.
  - cbn [ret]. by apply Hend.
Qed.

Lemma shut_run_op op w : ~ leaves_shut w op -> shut w -> shut (run_op E op w).2.
Proof.
  intros Hno. change (stays_shut w (run_op E op w).2).
  destruct op; cbn [run_op]; [| |..]; try (exfalso; exact (Hno I)).
  - refine (preserves_bind _ _ _ _ _ _); [apply shut_vendor|intros ?; preserves_tac].
  - refine (preserves_bind _ _ _ _ _ _); [apply shut_console|intros ?; preserves_tac].
  - refine (preserves_bind _ _ _ _ _ _); [|intros ?; preserves_tac].
    apply shut_of; [apply (stays_set_flag E)|apply (keeps_set_flag E)].
  - refine (preserves_bind _ _ _ _ _ _); [|intros ?; preserves_tac].
    apply shut_of; [apply (stays_reset_config E)|apply (keeps_reset_config E)].
  - intros [Hd Hs]. unfold ccd_disable, ccd_set_state, bind, gets, id. cbn. by rewrite Hs.
  - intros Hs. by apply shut_detect_done.
  - apply shut_presence.
Qed.
End Shut.

(** A step that is not one of those. *)
Definition shut_step {S} `{!NvStore S} (w w' : ccd S) : Prop :=
  exists E op, w' = (run_op E op w).2 /\ ~ leaves_shut w op.

(** C21. Once CCD was disabled it stays so until reboot: after any further sequence of
    commands, callbacks and calls, with any answers of the board, every capability
    and every flag reads as off, and open and unlock commands are refused without
    any effect.  The state itself stays locked as long as no presence detection that an
    open or unlock command had started ends, and the command that ends factory mode is not
    given: these two do not look at the disabled flag. *)
Theorem disabled_until_reboot {S} `{!NvStore S} (w w' : ccd S) cap flag E p :
  star op_step (ccd_disable w).2 w' ->
  cap_enabled w' cap = false /\ get_flag w' flag = false /\
  ccd_open E p w' =
    ((RC.VENDOR_RC_NOT_ALLOWED, answer p EC.ERROR_ACCESS_DENIED), w') /\
  ccd_unlock E p w' =
    ((RC.VENDOR_RC_NOT_ALLOWED, answer p EC.ERROR_ACCESS_DENIED), w') /\
  (star shut_step (ccd_disable w).2 w' -> ccd_state w' = CCD_STATE_LOCKED).
Proof.
  intros Hstar. assert (force_disabled w' = true) as Hd.
  { eapply (star_invariant _ (fun w => force_disabled w = true)); [|exact Hstar|].
    - intros s s' Hs (E' & op & ->). by apply stays_run_op.
    - exact (stays_set_state CCD_STATE_LOCKED (set_force_disabled true w).2 eq_refl). }
  unfold cap_enabled, get_flag, ccd_open, ccd_unlock, open_denied, bind, gets, id.
  rewrite Hd, orb_true_r. do 4 (split; [reflexivity|]). intros Hshut.
  enough (shut w') as [_ Hs] by exact Hs.
  eapply (star_invariant _ shut); [|exact Hshut|].
  - intros s s' Hs (E' & op & -> & Hno). by apply shut_run_op.
  - split; [exact (stays_set_state CCD_STATE_LOCKED (set_force_disabled true w).2 eq_refl)|].
    exact (set_state_is CCD_STATE_LOCKED (set_force_disabled true w).2).
Qed.

Example disabled_until_reboot_witness :
  let w := (run_op dev_board open_command (ccd_disable sample_locked).2).2 in
  cap_enabled w CCD_CAP_UNLOCK_WITHOUT_SHORT_PP = false /\
  ccd_state w = CCD_STATE_LOCKED.
Proof.
  destruct (disabled_until_reboot sample_locked
    (run_op dev_board open_command (ccd_disable sample_locked).2).2
    CCD_CAP_UNLOCK_WITHOUT_SHORT_PP 1 dev_board open_params) as (H1 & _ & _ & _ & H2).
  - eapply star_step; [exists dev_board, open_command; reflexivity|apply star_refl].
  - split; [exact H1|]. apply H2.
    eapply star_step; [exists dev_board, open_command; split; [reflexivity|]|apply star_refl].
    intros [].
Defined.

(** An open that was accepted before opens the disabled device when its presses have been
    made, if the TPM is wiped. *)
Lemma pending_open_opens {S} `{!NvStore S} E (w : ccd S) :
  pp_detect_in_progress (presence w) = true ->
  pp_press_count_needed (presence w) <= pp_press_count (presence w) ->
  pp_detect_callback (presence w) = Some ccd_open_done_async ->
  board_wipe_tpm_result E = EC.SUCCESS -> force_disabled w = true ->
  ccd_state (run_op E OpDetectDone w).2 = CCD_STATE_OPENED /\
  force_disabled (run_op E OpDetectDone w).2 = true.
Proof.
  intros Hp Hn Hc Hw Hd. split; [|by apply stays_run_op]. cbn [run_op]. unfold physical_detect_done.
  assert (exists q, on_presence physical_detect_done_begin w =
    (Some ccd_open_done_async, (on_presence (S := S) (fun _ => (tt, q)) w).2)) as [q E1].
  { unfold on_presence, physical_detect_done_begin, bind, gets, modify, ret, id.
    rewrite Hp. cbn [negb]. apply Z.ltb_ge in Hn. rewrite Hn. cbn. rewrite Hc. eauto. }
  rewrite (bind_run (on_presence physical_detect_done_begin) _ w _ _ E1).
  set (w1 := (on_presence _ w).2). cbn [run_callback].
  assert (forall (u : ccd S) c, force_disabled u = true -> cap_enabled u c = false) as Hcap.
  { intros u c Hu. unfold cap_enabled. by rewrite Hu, orb_true_r. }
  assert (ccd_state (ccd_open_done E false w1).2 = CCD_STATE_OPENED) as Ho.
  { unfold ccd_open_done, ccd_is_cap_enabled, bind, gets, act, upd, modify, ret.
    cbn -[ccd_set_state cap_enabled w1]. rewrite Hcap by exact Hd.
    cbn -[ccd_set_state cap_enabled w1]. rewrite Hw. cbn -[ccd_set_state cap_enabled w1].
    repeat case_match; apply set_state_is. }
  unfold bind. destruct (ccd_open_done E false w1) as [[] w2]. exact Ho.
Qed.

(** ** Leaving factory mode *)

Section Factory.
Context {S : Type} `{!NvStore S}.
Context (E : board).
Implicit Types w : ccd S.

(** The state in which [ccd_disable_factory_mode] resets the configuration. *)
Definition factory_opened w : ccd S := (ccd_set_state CCD_STATE_OPENED w).2.

Lemma disable_factory_eq p w :
  may_leave_factory E w ->
  ccd_disable_factory_mode E p w =
  let '(rv, w1) := ccd_reset_config 0 (factory_opened w) in
  if rv =? EC.SUCCESS
  then
    let w2 := (ccd_set_state CCD_STATE_LOCKED w1).2 in
    ((RC.VENDOR_RC_SUCCESS, set_out_size p 0),
     (update_config (fun c => raw_set_flag c CCD_FLAG_FACTORY_MODE_ENABLED false)
        (act board_wp_follow_ccd_config w2).2).2)
  else ((RC.VENDOR_RC_INTERNAL_ERROR, answer p rv), w1).
Proof.
  intros (Hpw & Hcond). unfold ccd_disable_factory_mode. unfold bind at 1, gets at 1, id.
  rewrite Hpw.
  replace (_ && _)%bool with false.
  2: { symmetry. apply andb_false_iff. destruct Hcond as [[-> ->]| ->]; auto. }
  unfold bind at 1.
  assert (ccd_state (factory_opened w) = CCD_STATE_OPENED) as Hop.
  { unfold factory_opened, ccd_set_state, bind, gets, id.
    destruct (bool_decide (CCD_STATE_OPENED = ccd_state w)) eqn:Hb; [|done].
    by apply bool_decide_eq_true in Hb. }
  rewrite (surjective_pairing (ccd_set_state CCD_STATE_OPENED w)).
  fold (factory_opened w). cbn beta iota.
  unfold bind at 1. unfold command_ccd_reset at 1. unfold bind at 1, gets at 1, id.
  rewrite Hop. cbn [argc length Nat.ltb Nat.leb andb].
  destruct (ccd_reset_config 0 (factory_opened w)) as [rv w1].
  destruct (rv =? EC.SUCCESS); cbn [negb]; [|done].
  unfold ccd_lock, bind, ret.
  by destruct (ccd_set_state CCD_STATE_LOCKED w1) as [[] w2].
Qed.

(** Leaving factory mode, when its conditions hold: if the default configuration is
    saved, the device ends locked, with every capability at its default and only the
    test lab flag kept.  If saving fails, the command reports an internal error and
    leaves the device opened. *)
Theorem disable_factory_outcome p w r w' :
  may_leave_factory E w -> ccd_disable_factory_mode E p w = (r, w') ->
  (r.1 = RC.VENDOR_RC_SUCCESS /\ ccd_state w' = CCD_STATE_LOCKED /\
   config w' = mkConfig CCD_CONFIG_VERSION [b2z (get_flag w CCD_FLAG_TEST_LAB); 0; 0]
                 (zeros 8) (zeros 4) (zeros 16) /\
   (ccd_reset_config 0 (factory_opened w)).1 = EC.SUCCESS) \/
  (r.1 = RC.VENDOR_RC_INTERNAL_ERROR /\ ccd_state w' = CCD_STATE_OPENED /\
   (ccd_reset_config 0 (factory_opened w)).1 <> EC.SUCCESS).
Proof.
  intros Hmay. rewrite disable_factory_eq by done.
  assert (ccd_state (factory_opened w) = CCD_STATE_OPENED /\
          get_flag (factory_opened w) CCD_FLAG_TEST_LAB = get_flag w CCD_FLAG_TEST_LAB)
    as [Hop Hlab].
  { unfold factory_opened, ccd_set_state, bind, gets, id.
    destruct (bool_decide (CCD_STATE_OPENED = ccd_state w)) eqn:Hb; [|done].
    by apply bool_decide_eq_true in Hb. }
  destruct (ccd_reset_config_0 (factory_opened w)) as [Hc Hst].
  destruct (ccd_reset_config 0 (factory_opened w)) as [rv w1]. cbn [fst snd] in *.
  destruct (Z.eqb_spec rv EC.SUCCESS) as [->|Hrv]; intros [= <- <-].
  - left. split; [done|].
    assert (config (ccd_set_state CCD_STATE_LOCKED w1).2 = config w1 /\
            ccd_state (ccd_set_state CCD_STATE_LOCKED w1).2 = CCD_STATE_LOCKED) as [H1 H2].
    { unfold ccd_set_state, bind, gets, id. rewrite Hst, Hop. done. }
    unfold update_config, bind, gets, set_config, act, upd, modify. cbn [snd ccd_state config].
    rewrite H1, H2, Hc, Hlab. by destruct (get_flag w CCD_FLAG_TEST_LAB).
  - right. split; [done|]. split; [congruence|done].
Qed.
End Factory.

(** A store without room for the configuration. *)
Definition full_store : ram_store :=
  <[[10] := zeros 245]> (<[[11] := zeros 245]> (<[[12] := zeros 245]>
    (<[[13] := zeros 245]> ∅))).

Definition sample_full : ccd ram_store :=
  (ccd_config_init sample_board 0 (ccd_boot (pp_boot 5000000) full_store)).2.

Example disable_factory_outcome_witness :
  ccd_state (ccd_disable_factory_mode dev_board open_params sample_locked).2
    = CCD_STATE_LOCKED /\
  ccd_state (ccd_disable_factory_mode dev_board open_params sample_full).2
    = CCD_STATE_OPENED.
Proof.
  split.
  - destruct (disable_factory_outcome dev_board open_params sample_locked _ _
      ltac:(vm_compute; auto) (surjective_pairing _)) as [(_ & H & _)|(_ & _ & H)].
    + exact H.
    + destruct H. vm_compute. reflexivity.
  - destruct (disable_factory_outcome dev_board open_params sample_full _ _
      ltac:(vm_compute; auto) (surjective_pairing _)) as [(_ & _ & _ & H)|(_ & H & _)].
    + vm_compute in H. discriminate H.
    + exact H.
Defined.

(** ** Changing capabilities while unlocked *)

Section SetCap.
Context {S : Type} `{!NvStore S}.
Implicit Types w : ccd S.

Lemma cap_from_name_range name infos i :
  0 <= i -> i + Z.of_nat (length infos) <= CCD_CAP_COUNT ->
  cap_from_name name infos i <> CCD_CAP_COUNT -> valid_cap (cap_from_name name infos i).
Proof.
  revert i; induction infos as [|[n d] infos IH]; intros i Hi Hl Hne; cbn in *; [done|].
  destruct (strcasecmp name n =? 0); [unfold valid_cap; lia|]. apply IH; (done || lia).
Qed.

Lemma cap_state_from_name_range name names i :
  0 <= i -> i + Z.of_nat (length names) <= CCD_CAP_STATE_COUNT ->
  0 <= cap_state_from_name name names i <= CCD_CAP_STATE_COUNT.
Proof.
  unfold CCD_CAP_STATE_COUNT.
  revert i; induction names as [|n names IH]; intros i Hi Hl; cbn in *;
    [unfold CCD_CAP_STATE_COUNT; lia|].
  destruct (strcasecmp name n =? 0); [lia|]. apply IH; lia.
Qed.

(** What [command_ccd_set] does to the configuration. *)
Lemma command_set_config args w :
  let w' := (command_ccd_set args w).2 in
  config w' = config w \/
  exists cap new, valid_cap cap /\ 0 <= new < CCD_CAP_STATE_COUNT /\
    config w' = raw_set_cap (config w) cap new /\ ccd_state w <> CCD_STATE_LOCKED /\
    (ccd_state w = CCD_STATE_UNLOCKED ->
     new <> CCD_CAP_STATE_IF_OPENED /\
     raw_get_cap (config w) cap true <> CCD_CAP_STATE_IF_OPENED).
Proof.
  cbn zeta. unfold command_ccd_set, ccd_set_cap, bind, gets, id.
  destruct (decide (ccd_state w = CCD_STATE_LOCKED)) as [Hl|Hl];
    [rewrite bool_decide_true by done; by left|rewrite bool_decide_false by done].
  destruct (argc args <? 3)%nat; [by left|]. cbn zeta.
  set (cap := ccd_cap_from_name (arg args 1)).
  set (new := cap_state_from_name (arg args 2) ccd_cap_state_names 0).
  destruct (Z.eqb_spec cap CCD_CAP_COUNT) as [|Hcap]; [by left|].
  destruct (Z.eqb_spec new CCD_CAP_STATE_COUNT) as [|Hnew]; [by left|].
  destruct (_ && _)%bool eqn:Hcond; [by left|].
  destruct (ccd_config_loaded w); cbn [negb]; [|by left].
  destruct (new =? raw_get_cap (config w) cap false); [by left|].
  right. exists cap, new.
  assert (valid_cap cap) by (apply cap_from_name_range; [lia|vm_compute; discriminate|done]).
  pose proof (cap_state_from_name_range (arg args 2) ccd_cap_state_names 0
                ltac:(lia) ltac:(vm_compute; discriminate)) as Hr. fold new in Hr.
  split_and!; try done; try lia.
  - set (w1 := (update_config (fun c => raw_set_cap c cap new) w).2).
    transitivity (config (ccd_save_config w1).2); [reflexivity|].
    destruct (save_config_frame w1) as (-> & _). reflexivity.
  - intros Hu. rewrite bool_decide_true in Hcond by done.
    cbn [andb] in Hcond. bool_to_Prop. tauto.
Qed.

(** While the device is only unlocked, no [ccd set] command changes a capability
    whose effective setting is IfOpened, and none changes anything while it is
    locked. *)
Theorem command_set_keeps_if_opened args w cap :
  config_wf (config w) -> valid_cap cap ->
  ccd_state w = CCD_STATE_LOCKED \/
  (ccd_state w = CCD_STATE_UNLOCKED /\
   raw_get_cap (config w) cap true = CCD_CAP_STATE_IF_OPENED) ->
  raw_get_cap (config (command_ccd_set args w).2) cap true =
  raw_get_cap (config w) cap true.
Proof.
  intros Hwf Hcap Hst.
  destruct (command_set_config args w) as [->|(c & new & Hc & Hn & -> & Hl & Hu)]; [done|].
  destruct Hst as [?|[Hst Hold]]; [done|]. destruct (Hu Hst) as [_ Ho].
  rewrite raw_get_set_cap_eq by done.
  destruct (Z.eqb_spec c cap) as [->|]; [done|done].
Qed.
End SetCap.

Example command_set_keeps_if_opened_witness :
  raw_get_cap (config (command_ccd_set [str "set"; str "flashap"; str "always"]
                         sample_unlocked).2) 4 true = CCD_CAP_STATE_IF_OPENED.
Proof.
  etransitivity;
    [apply (command_set_keeps_if_opened [str "set"; str "flashap"; str "always"]
              sample_unlocked 4)|vm_compute; reflexivity];
    [vm_compute; split_and!; reflexivity|vm_compute; split; [discriminate|reflexivity]
    |right; split; vm_compute; reflexivity].
Defined.

(** The other direction does not hold: a capability set to UnlessLocked goes back to its
    default, which may be IfOpened, by a command accepted while unlocked. *)
Example set_to_default_while_unlocked :
  let w := (command_ccd_set [str "set"; str "flashap"; str "unlesslocked"]
              (ccd_config_init sample_board 2 sample_boot).2).2 in
  let w := (ccd_unlock sample_board open_params w).2 in
  let '(rv, w') := command_ccd_set [str "set"; str "flashap"; str "default"] w in
  ccd_state w = CCD_STATE_UNLOCKED /\ raw_get_cap (config w) 4 true = 2 /\
  rv = EC.SUCCESS /\ raw_get_cap (config w') 4 true = CCD_CAP_STATE_IF_OPENED.
Proof. vm_compute. auto. Qed.

(** Polling for the end of an open reports "done" as soon as the device is unlocked. *)
Lemma poll_open_done_when_unlocked {S} (w : ccd S) p :
  ccd_state w = CCD_STATE_UNLOCKED ->
  ccd_pp_poll_open p w = ((RC.VENDOR_RC_SUCCESS, answer p CCD_PP_DONE), w).
Proof.
  intros H. unfold ccd_pp_poll_open, ccd_pp_poll, bind, gets, id, ret.
  rewrite H, bool_decide_false by done. cbn [negb]. rewrite H. reflexivity.
Qed.
