(* ===== verification/PwTypes.v ===== *)
(** * PinWeaver: constants and data (include/pinweaver_cr50_types.h,
    include/pinweaver_cr50.h)

    The packed structures of the PinWeaver protocol and of its storage are records
    with an encoder to the bytes they occupy; requests are decoded at the offsets
    of the packed layout.  A variable-length tail ([payload], [path_hashes]) is the
    memory that follows. *)

From S2P Require Import Prelude.

Module PW.
Definition PROTOCOL_VERSION : Z := 1.
Definition LEAF_MAJOR_VERSION : Z := 0.
Definition LEAF_MINOR_VERSION : Z := 1.
Definition STORAGE_VERSION : Z := 0.
Definition ERR_VERSION_MISMATCH : Z := 0x10000.
Definition ERR_TREE_INVALID : Z := 0x10001.
Definition ERR_LENGTH_INVALID : Z := 0x10002.
Definition ERR_TYPE_INVALID : Z := 0x10003.
Definition ERR_BITS_PER_LEVEL_INVALID : Z := 0x10004.
Definition ERR_HEIGHT_INVALID : Z := 0x10005.
Definition ERR_LABEL_INVALID : Z := 0x10006.
Definition ERR_DELAY_SCHEDULE_INVALID : Z := 0x10007.
Definition ERR_PATH_AUTH_FAILED : Z := 0x10008.
Definition ERR_LEAF_VERSION_MISMATCH : Z := 0x10009.
Definition ERR_HMAC_AUTH_FAILED : Z := 0x1000a.
Definition ERR_LOWENT_AUTH_FAILED : Z := 0x1000b.
Definition ERR_RESET_AUTH_FAILED : Z := 0x1000c.
Definition ERR_CRYPTO_FAILURE : Z := 0x1000d.
Definition ERR_RATE_LIMIT_REACHED : Z := 0x1000e.
Definition ERR_ROOT_NOT_FOUND : Z := 0x1000f.
Definition ERR_NV_EMPTY : Z := 0x10010.
Definition ERR_NV_LENGTH_MISMATCH : Z := 0x10011.
Definition ERR_NV_VERSION_MISMATCH : Z := 0x10012.
Definition ERR_PCR_NOT_MATCH : Z := 0x10013.
Definition MT_INVALID : Z := 0.
Definition RESET_TREE : Z := 1.
Definition INSERT_LEAF : Z := 2.
Definition REMOVE_LEAF : Z := 3.
Definition TRY_AUTH : Z := 4.
Definition RESET_AUTH : Z := 5.
Definition GET_LOG : Z := 6.
Definition LOG_REPLAY : Z := 7.
Definition BLOCK_ATTEMPTS : Z := UINT32_MAX.
Definition HASH_SIZE : nat := 32.
Definition SECRET_SIZE : nat := 32.
Definition WRAP_BLOCK_SIZE : nat := 16.
Definition SCHED_COUNT : nat := 16.
Definition MAX_PCR_CRITERIA_COUNT : nat := 2.
Definition MAX_PATH_SIZE : Z := 1024.
Definition LOG_ENTRY_COUNT : nat := 2.
Definition TREE_VAR : list Z := [112; 119; 84; 48].    (* "pwT0" *)
Definition LOG_VAR0 : list Z := [112; 119; 76; 48].    (* "pwL0" *)
End PW.

Definition BITS_PER_LEVEL_MIN : Z := 1.
Definition BITS_PER_LEVEL_MAX : Z := 5.
Definition HEIGHT_MIN : Z := 1.
Definition HEIGHT_MAX (logk : Z) : Z := (8 * 8) / logk.

(** ** Arrays of packed structures *)

Definition pack {A} (enc : A -> list Z) (l : list A) : list Z := concat (map enc l).

Fixpoint unpack {A} (dec : list Z -> A) (sz n : nat) (l : list Z) : list A :=
  match n with
  | O => []
  | S n => dec (take sz l) :: unpack dec sz n (drop sz l)
  end.

(** An unsigned little-endian field of [n] bytes at [off]. *)
Definition get (off n : nat) (l : list Z) : Z := le_val (sub off n l).

(** ** Leaves *)

Record delay_schedule_entry_t := mkSched {
  sched_attempt_count : Z;
  time_diff : Z
}.

Definition sched_bytes (e : delay_schedule_entry_t) : list Z :=
  le_bytes 4 (sched_attempt_count e) ++ le_bytes 4 (time_diff e).
Definition sched_of_bytes (l : list Z) : delay_schedule_entry_t :=
  mkSched (get 0 4 l) (get 4 4 l).

Record valid_pcr_value_t := mkPcr {
  bitmask : list Z;      (* 2 bytes *)
  digest : list Z        (* 32 bytes *)
}.

Definition pcr_bytes (v : valid_pcr_value_t) : list Z := bitmask v ++ digest v.
Definition pcr_of_bytes (l : list Z) : valid_pcr_value_t :=
  mkPcr (sub 0 2 l) (sub 2 32 l).

Record pw_timestamp_t := mkStamp {
  boot_count : Z;
  timer_value : Z
}.

Definition stamp_bytes (t : pw_timestamp_t) : list Z :=
  le_bytes 4 (boot_count t) ++ le_bytes 8 (timer_value t).
Definition stamp_of_bytes (l : list Z) : pw_timestamp_t :=
  mkStamp (get 0 4 l) (get 4 8 l).

Record leaf_public_data_t := mkPub {
  label : Z;
  delay_schedule : list delay_schedule_entry_t;
  timestamp : pw_timestamp_t;
  attempt_count : Z;
  valid_pcr_criteria : list valid_pcr_value_t
}.

Definition sizeof_pub : nat := 220.
Definition sizeof_pcr_criteria : nat := 68.

Definition sched_of (l : list Z) : list delay_schedule_entry_t :=
  unpack sched_of_bytes 8 PW.SCHED_COUNT l.
Definition criteria_of (l : list Z) : list valid_pcr_value_t :=
  unpack pcr_of_bytes 34 PW.MAX_PCR_CRITERIA_COUNT l.

Definition pub_bytes (p : leaf_public_data_t) : list Z :=
  le_bytes 8 (label p) ++ pack sched_bytes (delay_schedule p) ++
  stamp_bytes (timestamp p) ++ le_bytes 4 (attempt_count p) ++
  pack pcr_bytes (valid_pcr_criteria p).
Definition pub_of_bytes (l : list Z) : leaf_public_data_t :=
  mkPub (get 0 8 l) (sched_of (sub 8 128 l)) (stamp_of_bytes (sub 136 12 l))
    (get 148 4 l) (criteria_of (sub 152 68 l)).

Record leaf_sensitive_data_t := mkSec {
  low_entropy_secret : list Z;
  high_entropy_secret : list Z;
  reset_secret : list Z
}.

Definition sizeof_sec : nat := 96.

Definition sec_bytes (s : leaf_sensitive_data_t) : list Z :=
  low_entropy_secret s ++ high_entropy_secret s ++ reset_secret s.
Definition sec_of_bytes (l : list Z) : leaf_sensitive_data_t :=
  mkSec (sub 0 32 l) (sub 32 32 l) (sub 64 32 l).

Record leaf_data_t := mkLeaf { pub : leaf_public_data_t; sec : leaf_sensitive_data_t }.

Definition set_pub (f : leaf_public_data_t -> leaf_public_data_t) (d : leaf_data_t) :=
  mkLeaf (f (pub d)) (sec d).
Definition set_timestamp t p :=
  mkPub (label p) (delay_schedule p) t (attempt_count p) (valid_pcr_criteria p).
Definition set_attempt_count n p :=
  mkPub (label p) (delay_schedule p) (timestamp p) n (valid_pcr_criteria p).
Definition set_criteria c p :=
  mkPub (label p) (delay_schedule p) (timestamp p) (attempt_count p) c.

Record leaf_header_t := mkHead { minor : Z; major : Z; pub_len : Z; sec_len : Z }.

Definition head_bytes (h : leaf_header_t) : list Z :=
  le_bytes 2 (minor h) ++ le_bytes 2 (major h) ++
  le_bytes 2 (pub_len h) ++ le_bytes 2 (sec_len h).
Definition head_of_bytes (l : list Z) : leaf_header_t :=
  mkHead (get 0 2 l) (get 2 2 l) (get 4 2 l) (get 6 2 l).

Record wrapped_leaf_data_t := mkWrapped {
  w_head : leaf_header_t;
  w_hmac : list Z;
  w_iv : list Z;
  w_pub : leaf_public_data_t;
  w_cipher_text : list Z
}.

Definition wrapped_bytes (w : wrapped_leaf_data_t) : list Z :=
  head_bytes (w_head w) ++ w_hmac w ++ w_iv w ++ pub_bytes (w_pub w) ++
  w_cipher_text w.

(** The structure without its payload, and with it. *)
Definition sizeof_unimported : Z := 56.
Definition sizeof_wrapped : Z := 372.
Definition LEAF_PAYLOAD_SIZE : Z := sizeof_wrapped - sizeof_unimported.
Definition VALID_PCR_CRITERIA_SIZE : Z := 68.

Record unimported_leaf_data_t := mkUnimported {
  head : leaf_header_t;
  hmac : list Z;
  iv : list Z;
  payload : list Z
}.

Definition unimported_of_bytes (l : list Z) : unimported_leaf_data_t :=
  mkUnimported (head_of_bytes (sub 0 8 l)) (sub 8 32 l) (sub 40 16 l) (drop 56 l).

(** The cast of a wrapped leaf to an unimported one. *)
Definition unimported_of_wrapped (w : wrapped_leaf_data_t) (rest : list Z) :=
  mkUnimported (w_head w) (w_hmac w) (w_iv w)
    (pub_bytes (w_pub w) ++ w_cipher_text w ++ rest).

(** Pointers into an unimported leaf: the memory from each of them on. *)
Record imported_leaf_data_t := mkImported {
  i_head : leaf_header_t;
  i_hmac : list Z;
  i_iv : list Z;
  i_pub : list Z;
  i_cipher_text : list Z;
  i_hashes : list Z
}.

Definition import_leaf (u : unimported_leaf_data_t) : imported_leaf_data_t :=
  let cipher := drop (Z.to_nat (pub_len (head u))) (payload u) in
  mkImported (head u) (hmac u) (iv u) (payload u) cipher
    (drop (Z.to_nat (sec_len (head u))) cipher).

(** ** Storage *)

(** The union of the fields that depend on the type is its 32 bytes. *)
Record pw_get_log_entry_t := mkEntry {
  e_root : list Z;
  e_label : Z;
  e_type : Z;
  e_union : list Z
}.

Definition sizeof_log_entry : nat := 73.

Definition zero_entry : pw_get_log_entry_t := mkEntry (zeros 32) 0 0 (zeros 32).

Definition entry_timestamp (e : pw_get_log_entry_t) : pw_timestamp_t :=
  stamp_of_bytes (sub 0 12 (e_union e)).
Definition entry_return_code (e : pw_get_log_entry_t) : Z :=
  i32 (get 12 4 (e_union e)).
Definition leaf_hmac_union (h : list Z) : list Z := h.
Definition auth_union (t : pw_timestamp_t) (code : Z) : list Z :=
  stamp_bytes t ++ le_bytes 4 code ++ zeros 16.

Definition entry_bytes (e : pw_get_log_entry_t) : list Z :=
  e_root e ++ le_bytes 8 (e_label e) ++ le_bytes 1 (e_type e) ++ e_union e.
Definition entry_of_bytes (l : list Z) : pw_get_log_entry_t :=
  mkEntry (sub 0 32 l) (get 32 8 l) (get 40 1 l) (sub 41 32 l).

Record pw_log_storage_t := mkLog {
  log_version : Z;
  log_restart_count : Z;
  entries : list pw_get_log_entry_t
}.

Definition sizeof_log : nat := 152.

Definition log_bytes (g : pw_log_storage_t) : list Z :=
  le_bytes 2 (log_version g) ++ le_bytes 4 (log_restart_count g) ++
  pack entry_bytes (entries g).
Definition log_of_bytes (l : list Z) : pw_log_storage_t :=
  mkLog (get 0 2 l) (get 2 4 l)
    (unpack entry_of_bytes sizeof_log_entry PW.LOG_ENTRY_COUNT (drop 6 l)).

Record pw_long_term_storage_t := mkLongTerm {
  lt_version : Z;
  lt_bits_per_level : Z;
  lt_height : Z;
  lt_nonce : list Z
}.

Definition sizeof_long_term : nat := 20.

Definition long_term_bytes (d : pw_long_term_storage_t) : list Z :=
  le_bytes 2 (lt_version d) ++ le_bytes 1 (lt_bits_per_level d) ++
  le_bytes 1 (lt_height d) ++ lt_nonce d.
Definition long_term_of_bytes (l : list Z) : pw_long_term_storage_t :=
  mkLongTerm (get 0 2 l) (get 2 1 l) (get 3 1 l) (sub 4 16 l).

Record merkle_tree_t := mkTree {
  bits_per_level : Z;
  height : Z;
  root : list Z;
  key_derivation_nonce : list Z;
  hmac_key : list Z;
  wrap_key : list Z
}.

Definition zero_tree : merkle_tree_t :=
  mkTree 0 0 (zeros 32) (zeros 16) (zeros 32) (zeros 32).

Definition set_root r t :=
  mkTree (bits_per_level t) (height t) r (key_derivation_nonce t) (hmac_key t)
    (wrap_key t).
Definition set_keys hk wk t :=
  mkTree (bits_per_level t) (height t) (root t) (key_derivation_nonce t) hk wk.
Definition set_params b h nonce t :=
  mkTree b h (root t) nonce (hmac_key t) (wrap_key t).

(** ** Requests: the memory of the request's data, seen as each structure *)

Definition sizeof_insert_leaf : Z := 300.
Record pw_request_insert_leaf_t := mkInsert {
  in_label : Z;
  in_delay_schedule : list delay_schedule_entry_t;
  in_sec : leaf_sensitive_data_t;
  in_criteria : list valid_pcr_value_t;
  in_path_hashes : list Z
}.
Definition insert_of_bytes (l : list Z) : pw_request_insert_leaf_t :=
  mkInsert (get 0 8 l) (sched_of (sub 8 128 l)) (sec_of_bytes (sub 136 96 l))
    (criteria_of (sub 232 68 l)) (drop 300 l).

Definition sizeof_remove_leaf : Z := 40.
Record pw_request_remove_leaf_t := mkRemove {
  rm_location : Z;
  rm_hmac : list Z;
  rm_path_hashes : list Z
}.
Definition remove_of_bytes (l : list Z) : pw_request_remove_leaf_t :=
  mkRemove (get 0 8 l) (sub 8 32 l) (drop 40 l).

(** try_auth, reset_auth and log_replay: 32 bytes (the low-entropy secret, the reset
    secret or the root of the log entry) and a leaf. *)
Definition sizeof_leaf_request : Z := 88.
Record pw_leaf_request := mkLeafReq {
  lr_secret : list Z;
  lr_leaf : unimported_leaf_data_t
}.
Definition leaf_request_of_bytes (l : list Z) : pw_leaf_request :=
  mkLeafReq (sub 0 32 l) (unimported_of_bytes (drop 32 l)).

(** ** Reading back what was encoded *)

Lemma le_val_bytes_mod n x : le_val (le_bytes n x) = x mod 256 ^ Z.of_nat n.
Proof.
  revert x; induction n as [|n IH]; intros x; cbn [le_bytes le_val].
  - change (256 ^ Z.of_nat 0) with 1. by rewrite Z.mod_1_r.
  - rewrite IH, pow256_S.
    assert (0 < 256 ^ Z.of_nat n) by (apply Z.pow_pos_nonneg; lia).
    rewrite Z.rem_mul_r by lia. done.
Qed.

(** A field of a concatenation of chunks of known lengths. *)
Lemma sub_here {A} n (l k : list A) : length l = n -> sub 0 n (l ++ k) = l.
Proof. apply sub_app_l. Qed.

Lemma sub_all {A} n (l : list A) : length l = n -> sub 0 n l = l.
Proof. intros <-. unfold sub. rewrite drop_0. apply firstn_all. Qed.

Lemma sub_skip {A} off n m (l k : list A) :
  length l = m -> (m <= off)%nat -> sub off n (l ++ k) = sub (off - m) n k.
Proof. intros <-. apply sub_app_r. Qed.

Lemma drop_skip {A} n m (l k : list A) :
  length l = m -> (m <= n)%nat -> drop n (l ++ k) = drop (n - m) k.
Proof. intros <- ?. by rewrite drop_app_ge. Qed.

(** Read the field at the head of an encoding, or step over [n] bytes of it. *)
Ltac field_len := first [ done | apply length_le_bytes | assumption ].
Ltac read_field := rewrite sub_here by field_len.
Ltac skip_field n :=
  repeat match goal with
  | |- context [sub ?o ?c (?l ++ ?k)] => rewrite (sub_skip o c n l k) by (field_len || lia)
  | |- context [drop ?o (?l ++ ?k)] => rewrite (drop_skip o n l k) by (field_len || lia)
  end; cbn [Nat.sub].
Ltac read_ints := rewrite !le_val_bytes by (cbn; lia).

Lemma length_pack {A} (enc : A -> list Z) sz l :
  Forall (fun a => length (enc a) = sz) l -> length (pack enc l) = (length l * sz)%nat.
Proof.
  unfold pack. induction 1 as [|a l Ha _ IH]; [done|].
  cbn [map concat length]. rewrite length_app, Ha, IH. lia.
Qed.

Lemma unpack_pack {A} (enc : A -> list Z) dec sz n l tl :
  length l = n -> Forall (fun a => length (enc a) = sz) l ->
  Forall (fun a => dec (enc a) = a) l ->
  unpack dec sz n (pack enc l ++ tl) = l.
Proof.
  intros <-. unfold pack. induction l as [|a l IH]; intros Hl Hd; [done|].
  apply Forall_cons_iff in Hl as [Ha Hl]. apply Forall_cons_iff in Hd as [Hda Hd].
  cbn [map concat length unpack]. rewrite <-app_assoc.
  rewrite take_app_length' by done. rewrite drop_app_length' by done.
  by rewrite Hda, IH.
Qed.

Lemma length_unpack {A} (dec : list Z -> A) sz n l : length (unpack dec sz n l) = n.
Proof. revert l; induction n; intros; cbn; auto. Qed.

Definition wf_sched (e : delay_schedule_entry_t) : Prop :=
  0 <= sched_attempt_count e < 2 ^ 32 /\ 0 <= time_diff e < 2 ^ 32.

Definition wf_pcr (v : valid_pcr_value_t) : Prop :=
  length (bitmask v) = 2%nat /\ length (digest v) = 32%nat.

Definition wf_stamp (t : pw_timestamp_t) : Prop :=
  0 <= boot_count t < 2 ^ 32 /\ 0 <= timer_value t < 2 ^ 64.

(** The fields of a leaf are in the ranges of their types. *)
Record wf_pub (p : leaf_public_data_t) : Prop := {
  wf_label : 0 <= label p < 2 ^ 64;
  wf_schedule : Forall wf_sched (delay_schedule p);
  wf_schedule_length : length (delay_schedule p) = PW.SCHED_COUNT;
  wf_timestamp : wf_stamp (timestamp p);
  wf_attempt_count : 0 <= attempt_count p < 2 ^ 32;
  wf_criteria : Forall wf_pcr (valid_pcr_criteria p);
  wf_criteria_length : length (valid_pcr_criteria p) = PW.MAX_PCR_CRITERIA_COUNT
}.

Definition wf_sec (s : leaf_sensitive_data_t) : Prop :=
  length (low_entropy_secret s) = 32%nat /\
  length (high_entropy_secret s) = 32%nat /\ length (reset_secret s) = 32%nat.

Lemma length_sched_bytes e : length (sched_bytes e) = 8%nat.
Proof. done. Qed.

Lemma length_stamp_bytes e : length (stamp_bytes e) = 12%nat.
Proof. done. Qed.

Lemma length_head_bytes e : length (head_bytes e) = 8%nat.
Proof. done. Qed.

Lemma length_pcr_bytes v : wf_pcr v -> length (pcr_bytes v) = 34%nat.
Proof. intros [H1 H2]. unfold pcr_bytes. by rewrite length_app, H1, H2. Qed.

Lemma sched_roundtrip e : wf_sched e -> sched_of_bytes (sched_bytes e) = e.
Proof.
  destruct e. intros [H1 H2]. cbn in H1, H2. unfold sched_of_bytes, sched_bytes.
  cbn [sched_attempt_count time_diff]. unfold get.
  read_field.
  rewrite (sub_skip 4 4 4), sub_all by (apply length_le_bytes || lia).
  by rewrite !le_val_bytes by (cbn; lia).
Qed.

Lemma stamp_roundtrip t : wf_stamp t -> stamp_of_bytes (stamp_bytes t) = t.
Proof.
  destruct t. intros [H1 H2]. cbn in H1, H2. unfold stamp_of_bytes, stamp_bytes.
  cbn [boot_count timer_value]. unfold get.
  read_field.
  rewrite (sub_skip 4 8 4), sub_all by (apply length_le_bytes || lia).
  by rewrite !le_val_bytes by (cbn; lia).
Qed.

Lemma pcr_roundtrip v : wf_pcr v -> pcr_of_bytes (pcr_bytes v) = v.
Proof.
  destruct v as [m d]. intros [H1 H2]. cbn in H1, H2. unfold pcr_of_bytes, pcr_bytes.
  cbn [bitmask digest]. read_field.
  by rewrite (sub_skip 2 32 2), sub_all.
Qed.

Lemma length_pack_sched l : length (pack sched_bytes l) = (length l * 8)%nat.
Proof. apply length_pack. by apply Forall_true. Qed.

Lemma length_pack_pcr l :
  Forall wf_pcr l -> length (pack pcr_bytes l) = (length l * 34)%nat.
Proof. intros H. apply length_pack. eapply Forall_impl; eauto using length_pcr_bytes. Qed.

Lemma length_pub_bytes p : wf_pub p -> length (pub_bytes p) = sizeof_pub.
Proof.
  intros H. unfold pub_bytes. rewrite !length_app, !length_le_bytes.
  rewrite length_pack_sched, length_stamp_bytes, length_pack_pcr by apply H.
  by rewrite (wf_schedule_length _ H), (wf_criteria_length _ H).
Qed.

Lemma unpack_sched l tl :
  Forall wf_sched l -> length l = PW.SCHED_COUNT ->
  sched_of (pack sched_bytes l ++ tl) = l.
Proof.
  intros Hl Hn. apply unpack_pack; [done| |].
  - by apply Forall_true.
  - eapply Forall_impl; eauto using sched_roundtrip.
Qed.

Lemma unpack_criteria l tl :
  Forall wf_pcr l -> length l = PW.MAX_PCR_CRITERIA_COUNT ->
  criteria_of (pack pcr_bytes l ++ tl) = l.
Proof.
  intros Hl Hn. apply unpack_pack; [done| |];
    eapply Forall_impl; eauto using pcr_roundtrip, length_pcr_bytes.
Qed.

Lemma pub_roundtrip p : wf_pub p -> pub_of_bytes (pub_bytes p) = p.
Proof.
  intros H. destruct p as [l s t a c]. unfold pub_of_bytes, pub_bytes.
  cbn [label delay_schedule timestamp attempt_count valid_pcr_criteria].
  destruct H as [Hl Hs Hsl Ht Ha Hc Hcl]; cbn in Hl, Hs, Hsl, Ht, Ha, Hc, Hcl.
  assert (Ls : length (pack sched_bytes s) = 128%nat)
    by (rewrite length_pack_sched, Hsl; done).
  assert (Lc : length (pack pcr_bytes c) = 68%nat)
    by (rewrite length_pack_pcr, Hcl; done).
  unfold get. read_field.
  skip_field 8%nat.
  read_field.
  skip_field 128%nat.
  read_field.
  skip_field 12%nat.
  read_field.
  skip_field 4%nat.
  rewrite sub_all by exact Lc.
  rewrite !le_val_bytes by (cbn; lia). rewrite stamp_roundtrip by done.
  rewrite <-(app_nil_r (pack sched_bytes s)), unpack_sched by done.
  by rewrite <-(app_nil_r (pack pcr_bytes c)), unpack_criteria by done.
Qed.

Lemma sec_roundtrip s : wf_sec s -> sec_of_bytes (sec_bytes s) = s.
Proof.
  destruct s as [a b c]. intros (H1 & H2 & H3). cbn in H1, H2, H3.
  unfold sec_of_bytes, sec_bytes.
  cbn [low_entropy_secret high_entropy_secret reset_secret].
  read_field. skip_field 32%nat. read_field. skip_field 32%nat.
  by rewrite sub_all.
Qed.

Lemma length_sec_bytes s : wf_sec s -> length (sec_bytes s) = sizeof_sec.
Proof. intros (H1 & H2 & H3). unfold sec_bytes. by rewrite !length_app, H1, H2, H3. Qed.

(** *** Log entries *)

Record wf_entry (e : pw_get_log_entry_t) : Prop := {
  wf_e_root : length (e_root e) = 32%nat;
  wf_e_label : 0 <= e_label e < 2 ^ 64;
  wf_e_type : 0 <= e_type e < 2 ^ 8;
  wf_e_union : length (e_union e) = 32%nat
}.

Record wf_log (g : pw_log_storage_t) : Prop := {
  wf_log_version : 0 <= log_version g < 2 ^ 16;
  wf_log_restart : 0 <= log_restart_count g < 2 ^ 32;
  wf_log_entries : Forall wf_entry (entries g);
  wf_log_length : length (entries g) = PW.LOG_ENTRY_COUNT
}.

Lemma length_entry_bytes e : wf_entry e -> length (entry_bytes e) = sizeof_log_entry.
Proof.
  intros [H1 _ _ H2]. unfold entry_bytes.
  by rewrite !length_app, !length_le_bytes, H1, H2.
Qed.

Lemma entry_roundtrip e : wf_entry e -> entry_of_bytes (entry_bytes e) = e.
Proof.
  destruct e as [r l t u]. intros [Hr Hl Ht Hu]. cbn in Hr, Hl, Ht, Hu.
  unfold entry_of_bytes, entry_bytes. cbn [e_root e_label e_type e_union]. unfold get.
  read_field. skip_field 32%nat.
  read_field.
  skip_field 8%nat.
  read_field.
  skip_field 1%nat.
  rewrite sub_all by done. by rewrite !le_val_bytes by (cbn; lia).
Qed.

Lemma length_log_bytes g : wf_log g -> length (log_bytes g) = sizeof_log.
Proof.
  intros [H1 H2 H3 H4]. unfold log_bytes. rewrite !length_app, !length_le_bytes.
  rewrite (length_pack _ sizeof_log_entry), H4; [done|].
  eapply Forall_impl; eauto using length_entry_bytes.
Qed.

Lemma log_roundtrip g : wf_log g -> log_of_bytes (log_bytes g) = g.
Proof.
  destruct g as [v r es]. intros [H1 H2 H3 H4]. cbn in H1, H2, H3, H4.
  unfold log_of_bytes, log_bytes. cbn [log_version log_restart_count entries]. unfold get.
  read_field.
  skip_field 2%nat.
  read_field.
  skip_field 2%nat.
  skip_field 4%nat.
  rewrite drop_0, !le_val_bytes by (cbn; lia).
  rewrite <-(app_nil_r (pack _ _)), unpack_pack; [done|done| |];
    eapply Forall_impl; eauto using entry_roundtrip, length_entry_bytes.
Qed.

Lemma long_term_roundtrip d :
  0 <= lt_version d < 2 ^ 16 -> 0 <= lt_bits_per_level d < 2 ^ 8 ->
  0 <= lt_height d < 2 ^ 8 -> length (lt_nonce d) = 16%nat ->
  long_term_of_bytes (long_term_bytes d) = d.
Proof.
  destruct d as [v b h n].
  cbn [lt_version lt_bits_per_level lt_height lt_nonce]. intros Hv Hb Hh Hn.
  unfold long_term_of_bytes, long_term_bytes.
  cbn [lt_version lt_bits_per_level lt_height lt_nonce]. unfold get.
  read_field.
  skip_field 2%nat.
  read_field.
  skip_field 1%nat.
  read_field.
  skip_field 1%nat.
  rewrite sub_all by done. by rewrite !le_val_bytes by (cbn; lia).
Qed.

(** The fields of an authentication entry, read back from the union. *)
Lemma auth_union_timestamp t code r l ty :
  wf_stamp t -> entry_timestamp (mkEntry r l ty (auth_union t code)) = t.
Proof.
  intros. unfold entry_timestamp, auth_union. cbn [e_union].
  read_field. by apply stamp_roundtrip.
Qed.

Lemma auth_union_code t code r l ty :
  0 <= code < 2 ^ 31 -> entry_return_code (mkEntry r l ty (auth_union t code)) = code.
Proof.
  intros. unfold entry_return_code, auth_union, get. cbn [e_union].
  rewrite (sub_skip _ _ 12) by (done || lia). cbn [Nat.sub].
  read_field. rewrite le_val_bytes by (cbn; lia).
  apply i32_small. lia.
Qed.
