(* ===== verification/Pinweaver.v ===== *)
(** * PinWeaver: rate-limited secrets kept outside the chip
    (common/pinweaver_cr50.c, include/pinweaver_cr50.h)

    The leaves of a Merkle tree are stored by the host; the chip keeps the root of
    the tree, its keys, and a log of the last two operations in the variable store.
    The functions of the source are state transformers over [pw_state]: the tree in
    memory, the cached restart count, the store and the hardware services.  The
    services ([PinweaverHw]) are the cryptographic library, the random generator, the
    TPM seed and PCRs and the clock; each may fail, and may answer differently at
    every call.  The hash functions and the cipher themselves are pure. *)

From S2P Require Import Prelude NvStore Vendor PwTypes.

Class PinweaverHw (H : Type) := {
  sha256 : list Z -> list Z;
  hmac_sha256 : list Z -> list Z -> list Z;
  aes_ctr : list Z -> list Z -> list Z -> list Z;
  sha256_init : ST H bool;
  hmac_sha256_init : ST H bool;
  aes_ctr_ok : ST H bool;
  fips_rand_bytes : Z -> ST H (option (list Z));
  appkey_init : ST H bool;
  appkey_derive : list Z -> ST H (option (list Z));
  appkey_finish : ST H unit;
  get_storage_seed : ST H (list Z);
  get_current_pcr_digest : list Z -> ST H (option (list Z));
  get_time : ST H Z
}.

Definition SECOND : Z := 1000000.
Definition RESTART_TIMER_THRESHOLD : Z := 10 * SECOND.

(** The word [input.v[6]] with [mask] xored into it. *)
Definition xor_word6 (input : list Z) (mask : Z) : list Z :=
  splice 24 (le_bytes 4 (Z.lxor (get 24 4 input) mask)) input.

Definition KEY_TYPE_AES : Z := 0x0.
Definition KEY_TYPE_HMAC : Z := 0xffffffff.

(** [input.bytes[x] ^= nonce[x]] for the bytes both have. *)
Fixpoint xor_prefix (input nonce : list Z) : list Z :=
  match input, nonce with
  | b :: input, n :: nonce => Z.lxor b n :: xor_prefix input nonce
  | _, _ => input
  end.

Definition get_path_auxiliary_hash_count (t : merkle_tree_t) : Z :=
  (Z.shiftl 1 (bits_per_level t) - 1) * height t.

Definition validate_tree_parameters (b h : Z) : Z :=
  let fan_out := u8 (Z.shiftl 1 b) in
  if (b <? BITS_PER_LEVEL_MIN) || (BITS_PER_LEVEL_MAX <? b)
  then PW.ERR_BITS_PER_LEVEL_INVALID
  else if (h <? HEIGHT_MIN) || (HEIGHT_MAX b <? h)
          || (PW.MAX_PATH_SIZE <? ((fan_out - 1) * h) * Z.of_nat PW.HASH_SIZE)
  then PW.ERR_HEIGHT_INVALID
  else EC.SUCCESS.

Definition validate_tree (t : merkle_tree_t) : Z :=
  if validate_tree_parameters (bits_per_level t) (height t) =? EC.SUCCESS
  then EC.SUCCESS else PW.ERR_TREE_INVALID.

Definition validate_label (t : merkle_tree_t) (path : Z) : Z :=
  let shift_by := u8 (bits_per_level t * height t) in
  if Z.shiftr path shift_by =? 0 then EC.SUCCESS else PW.ERR_LABEL_INVALID.

(** The loop runs from the last entry down to entry 1; [prev] is entry [x - 1]. *)
Definition sched_step_ok (prev e : delay_schedule_entry_t) : bool :=
  if sched_attempt_count e =? 0 then time_diff e =? 0
  else negb ((sched_attempt_count e <=? sched_attempt_count prev)
             || (time_diff e <=? time_diff prev)).

Fixpoint sched_loop (prev : delay_schedule_entry_t) (l : list delay_schedule_entry_t)
    : bool :=
  match l with
  | [] => true
  | e :: l => sched_loop e l && sched_step_ok prev e
  end.

Definition validate_delay_schedule (s : list delay_schedule_entry_t) : Z :=
  match s with
  | [] => PW.ERR_DELAY_SCHEDULE_INVALID
  | e :: l =>
      if time_diff e =? 0 then PW.ERR_DELAY_SCHEDULE_INVALID
      else if sched_loop e l then EC.SUCCESS else PW.ERR_DELAY_SCHEDULE_INVALID
  end.

Definition expected_payload_len (minor_version : Z) : Z :=
  if minor_version =? 0 then LEAF_PAYLOAD_SIZE - VALID_PCR_CRITERIA_SIZE
  else if minor_version =? PW.LEAF_MINOR_VERSION then LEAF_PAYLOAD_SIZE
  else 0.

Definition validate_leaf_header (h : leaf_header_t) (payload_len aux_hash_len : Z) : Z :=
  let leaf_payload_len := pub_len h + sec_len h in
  if negb (major h =? PW.LEAF_MAJOR_VERSION) then PW.ERR_LEAF_VERSION_MISMATCH
  else if (minor h <=? PW.LEAF_MINOR_VERSION)
          && negb (leaf_payload_len =? expected_payload_len (minor h))
  then PW.ERR_LENGTH_INVALID
  else if negb (payload_len =? leaf_payload_len + aux_hash_len * Z.of_nat PW.HASH_SIZE)
  then PW.ERR_LENGTH_INVALID
  else EC.SUCCESS.

(** The first loop of [test_rate_limit]: the number of entries whose threshold is
    reached, up to the first null entry. *)
Fixpoint sched_index (attempts : Z) (s : list delay_schedule_entry_t) : nat :=
  match s with
  | [] => 0
  | e :: s =>
      if sched_attempt_count e =? 0 then 0
      else if attempts <? sched_attempt_count e then 0
      else S (sched_index attempts s)
  end.

Definition schedule_delay (attempts : Z) (s : list delay_schedule_entry_t) : Z :=
  match sched_index attempts s with
  | O => 0
  | S x => time_diff (nth x s (mkSched 0 0))
  end.

(** The entry a log request refers to: [inl] its index, or [inr] the index of the
    last valid entry (-1 when there is none). *)
Fixpoint find_entry (i : Z) (es : list pw_get_log_entry_t) (r : list Z) : Z + Z :=
  match es with
  | [] => inr (i - 1)
  | e :: es =>
      if e_type e =? PW.MT_INVALID then inr (i - 1)
      else if mem_eq r (e_root e) then inl i
      else find_entry (i + 1) es r
  end.

Definition find_relevant_entry (g : pw_log_storage_t) (r : list Z) : Z + Z :=
  find_entry 0 (entries g) r.

Section Pinweaver.
Context {S H : Type} `{!NvStore S} `{!PinweaverHw H}.

Record pw_state := mkPw {
  pw_merkle_tree : merkle_tree_t;
  pw_restart_count : Z;
  store : S;
  hw : H
}.

Definition on_hw {A} (m : ST H A) : ST pw_state A := fun w =>
  let '(a, h) := m (hw w) in
  (a, mkPw (pw_merkle_tree w) (pw_restart_count w) (store w) h).

Definition pw_setvar (k v : list Z) : ST pw_state Z := fun w =>
  let '(rv, s) := setvar (store w) k v in
  (rv, mkPw (pw_merkle_tree w) (pw_restart_count w) s (hw w)).

Definition set_restart_count (n : Z) : ST pw_state unit := modify (fun w =>
  mkPw (pw_merkle_tree w) n (store w) (hw w)).

Definition update_tree (f : merkle_tree_t -> merkle_tree_t) : ST pw_state unit :=
  modify (fun w => mkPw (f (pw_merkle_tree w)) (pw_restart_count w) (store w) (hw w)).

(** A step that ends the function with [PW_ERR_CRYPTO_FAILURE] when it fails. *)
Definition crypto (m : ST H bool) : EST pw_state unit :=
  let* ok := on_hw m in fail_if (negb ok) PW.ERR_CRYPTO_FAILURE.

Definition crypto_some {A} (m : ST H (option A)) : EST pw_state A :=
  let* r := on_hw m in
  match r with Some a => eret a | None => throw PW.ERR_CRYPTO_FAILURE end.

(** A check that returns an error code. *)
Definition ensure (rv : Z) : EST pw_state unit := try_ (ret rv).

(** ** The Merkle tree *)

(** Returns the code and the tree with the keys that were derived. *)
Definition derive_keys (t : merkle_tree_t) : ST pw_state (Z * merkle_tree_t) :=
  let* seed := on_hw get_storage_seed in
  let input := xor_prefix seed (key_derivation_nonce t) in
  let* ok := on_hw appkey_init in
  if negb ok then ret (PW.ERR_CRYPTO_FAILURE, t) else
  let* wk := on_hw (appkey_derive (xor_word6 input KEY_TYPE_AES)) in
  match wk with
  | None => on_hw appkey_finish ;;; ret (PW.ERR_CRYPTO_FAILURE, t)
  | Some wk =>
      let t := set_keys (hmac_key t) wk t in
      let* hk := on_hw (appkey_derive (xor_word6 input KEY_TYPE_HMAC)) in
      on_hw appkey_finish ;;;
      match hk with
      | None => ret (PW.ERR_CRYPTO_FAILURE, t)
      | Some hk => ret (EC.SUCCESS, set_keys hk wk t)
      end
  end.

(** The hash of the root of an empty tree, level by level. *)
Fixpoint empty_root (fan_out levels : nat) (temp_hash : list Z) : EST pw_state (list Z) :=
  match levels with
  | O => eret temp_hash
  | Datatypes.S n =>
      crypto sha256_init ;;?
      empty_root fan_out n (sha256 (concat (replicate fan_out temp_hash)))
  end.

Definition create_merkle_tree (b h : Z) : EST pw_state merkle_tree_t :=
  let fan_out := Z.to_nat (u16 (Z.shiftl 1 b)) in
  let? r := empty_root fan_out (Z.to_nat h) (zeros PW.HASH_SIZE) in
  let? nonce := crypto_some (fips_rand_bytes 16) in
  let t := set_root r (set_params b h nonce zero_tree) in
  let* (rv, t) := derive_keys t in
  if rv =? EC.SUCCESS then eret t else throw rv.

(** [sizeof(PW_WRAP_BLOCK_SIZE)]: the size of an [int]. *)
Definition hmac_iv_len : nat := 4.

Definition hmac_input (i : imported_leaf_data_t) : list Z :=
  head_bytes (i_head i) ++ take hmac_iv_len (i_iv i) ++
  take (Z.to_nat (pub_len (i_head i))) (i_pub i) ++
  take (Z.to_nat (sec_len (i_head i))) (i_cipher_text i).

Definition compute_hmac (t : merkle_tree_t) (i : imported_leaf_data_t)
    : EST pw_state (list Z) :=
  crypto hmac_sha256_init ;;? eret (hmac_sha256 (hmac_key t) (hmac_input i)).

Definition compute_hash (hashes : list Z) (num_hashes location : Z)
    (child_hash : list Z) : EST pw_state (list Z) :=
  crypto sha256_init ;;?
  eret (sha256
    ((if 0 <? location then take (PW.HASH_SIZE * Z.to_nat location) hashes else []) ++
     child_hash ++
     (if location <? num_hashes
      then sub (PW.HASH_SIZE * Z.to_nat location)
             (PW.HASH_SIZE * Z.to_nat (num_hashes - location)) hashes
      else []))).

(** The [index_t] of a level: an 8-bit value. *)
Definition level_index (index mask : Z) : Z := u8 (Z.land index mask).

Fixpoint root_loop (levels : nat) (b num_aux : Z) (hashes : list Z) (index : Z)
    (temp_hash : list Z) : EST pw_state (list Z) :=
  match levels with
  | O => eret temp_hash
  | Datatypes.S n =>
      let hashes := drop (PW.HASH_SIZE * Z.to_nat num_aux) hashes in
      let index := Z.shiftr index b in
      let? temp_hash :=
        compute_hash hashes num_aux (level_index index num_aux) temp_hash in
      root_loop n b num_aux hashes index temp_hash
  end.

Definition compute_root_hash (t : merkle_tree_t) (path : Z) (hashes child_hash : list Z)
    : EST pw_state (list Z) :=
  let num_aux := u16 (Z.shiftl 1 (bits_per_level t) - 1) in
  let? temp_hash := compute_hash hashes num_aux (level_index path num_aux) child_hash in
  root_loop (Z.to_nat (height t) - 1) (bits_per_level t) num_aux hashes path temp_hash.

Definition authenticate_path (t : merkle_tree_t) (path : Z) (hashes child_hash : list Z)
    : EST pw_state unit :=
  let? parent := compute_root_hash t path hashes child_hash in
  fail_if (negb (mem_eq parent (root t))) PW.ERR_PATH_AUTH_FAILED.

(** ** Leaves *)

Definition wrapped_head : leaf_header_t :=
  mkHead PW.LEAF_MINOR_VERSION PW.LEAF_MAJOR_VERSION
    (Z.of_nat sizeof_pub) (Z.of_nat sizeof_sec).

(** Returns the initialisation vector and the cipher text. *)
Definition encrypt_leaf_data (t : merkle_tree_t) (d : leaf_data_t)
    : EST pw_state (list Z * list Z) :=
  let? iv := crypto_some (fips_rand_bytes (Z.of_nat PW.WRAP_BLOCK_SIZE)) in
  crypto aes_ctr_ok ;;? eret (iv, aes_ctr (wrap_key t) iv (sec_bytes (sec d))).

(** The public data is copied over a zeroed structure. *)
Definition decrypt_leaf_data (t : merkle_tree_t) (i : imported_leaf_data_t)
    : EST pw_state leaf_data_t :=
  let n := Nat.min (Z.to_nat (pub_len (i_head i))) sizeof_pub in
  let p := pub_of_bytes (splice 0 (take n (i_pub i)) (zeros sizeof_pub)) in
  crypto aes_ctr_ok ;;?
  eret (mkLeaf p (sec_of_bytes
    (aes_ctr (wrap_key t) (i_iv i) (take sizeof_sec (i_cipher_text i))))).

(** Returns the wrapped leaf and the new root. *)
Definition handle_leaf_update (t : merkle_tree_t) (d : leaf_data_t) (hashes : list Z)
    (old : option imported_leaf_data_t)
    : EST pw_state (wrapped_leaf_data_t * list Z) :=
  let? (iv, cipher) :=
    match old with
    | None => encrypt_leaf_data t d
    | Some i => eret (i_iv i, take sizeof_sec (i_cipher_text i))
    end in
  let w := mkWrapped wrapped_head (zeros PW.HASH_SIZE) iv (pub d) cipher in
  let? h := compute_hmac t (import_leaf (unimported_of_wrapped w [])) in
  let? r := compute_root_hash t (label (pub d)) hashes h in
  eret (mkWrapped wrapped_head h iv (pub d) cipher, r).

Definition zero_pcr : valid_pcr_value_t := mkPcr (zeros 2) (zeros 32).

(** [safe_memcmp] is a comparison whose time does not depend on the data. *)
Definition validate_request_with_path (t : merkle_tree_t) (path : Z)
    (hashes hm : list Z) : EST pw_state unit :=
  ensure (validate_tree t) ;;?
  ensure (validate_label t path) ;;?
  authenticate_path t path hashes hm.

Definition imported_label (i : imported_leaf_data_t) : Z := get 0 8 (i_pub i).

(** Leaves of version 0:0 have no PCR criteria. *)
Definition upgrade_leaf (h : leaf_header_t) (d : leaf_data_t) : leaf_data_t :=
  if (minor h =? 0) && (major h =? 0)
  then set_pub (set_criteria (replicate PW.MAX_PCR_CRITERIA_COUNT zero_pcr)) d else d.

Definition validate_request_with_wrapped_leaf (t : merkle_tree_t) (payload_len : Z)
    (u : unimported_leaf_data_t) : EST pw_state (imported_leaf_data_t * leaf_data_t) :=
  ensure (validate_leaf_header (head u) payload_len
            (u16 (get_path_auxiliary_hash_count t))) ;;?
  let i := import_leaf u in
  validate_request_with_path t (imported_label i) (i_hashes i) (i_hmac i) ;;?
  let? h := compute_hmac t i in
  fail_if (negb (mem_eq h (hmac u))) PW.ERR_HMAC_AUTH_FAILED ;;?
  let? d := decrypt_leaf_data t i in
  eret (i, upgrade_leaf (head u) d).

Definition null_criterion (c : valid_pcr_value_t) : bool :=
  (at_ (bitmask c) 0 =? 0) && (at_ (bitmask c) 1 =? 0).

Fixpoint pcr_loop (index : nat) (cs : list valid_pcr_value_t) : EST pw_state unit :=
  match cs with
  | [] => throw PW.ERR_PCR_NOT_MATCH
  | c :: cs =>
      if null_criterion c then fail_if (negb (index =? 0)%nat) PW.ERR_PCR_NOT_MATCH else
      let* r := on_hw (get_current_pcr_digest (bitmask c)) in
      match r with
      | None => throw PW.ERR_PCR_NOT_MATCH
      | Some d => if mem_eq d (digest c) then eret tt else pcr_loop (Datatypes.S index) cs
      end
  end.

Definition validate_pcr_value (cs : list valid_pcr_value_t) : EST pw_state unit :=
  pcr_loop 0 cs.

Definition current_timestamp : ST pw_state pw_timestamp_t :=
  let* now := on_hw get_time in
  let* n := gets pw_restart_count in
  ret (mkStamp n (u64 (now / SECOND))).

(** The code and the seconds to wait. *)
Definition test_rate_limit (d : leaf_data_t) : ST pw_state (Z * Z) :=
  let delay := schedule_delay (attempt_count (pub d)) (delay_schedule (pub d)) in
  if delay =? 0 then ret (EC.SUCCESS, 0)
  else if delay =? PW.BLOCK_ATTEMPTS
  then ret (PW.ERR_RATE_LIMIT_REACHED, PW.BLOCK_ATTEMPTS)
  else
    let* now := current_timestamp in
    let ready_time :=
      if boot_count (timestamp (pub d)) =? boot_count now
      then u64 (delay + timer_value (timestamp (pub d))) else delay in
    if ready_time <=? timer_value now then ret (EC.SUCCESS, 0)
    else ret (PW.ERR_RATE_LIMIT_REACHED, u32 (ready_time - timer_value now)).

(** ** The log *)

(** A variable of [size] bytes that starts with a storage version. *)
Definition load_var (k : list Z) (size : nat) : EST pw_state (list Z) :=
  let* s := gets store in
  match getvar s k with
  | None => throw PW.ERR_NV_EMPTY
  | Some v =>
      if negb (length v =? size)%nat then throw PW.ERR_NV_LENGTH_MISMATCH
      else if negb (get 0 2 v =? PW.STORAGE_VERSION) then throw PW.ERR_NV_VERSION_MISMATCH
      else eret v
  end.

Definition load_log_data : EST pw_state pw_log_storage_t :=
  let? v := load_var PW.LOG_VAR0 sizeof_log in eret (log_of_bytes v).

Definition store_log_data (g : pw_log_storage_t) : ST pw_state Z :=
  pw_setvar PW.LOG_VAR0 (log_bytes g).

Definition set_log_restart_count (n : Z) (g : pw_log_storage_t) : pw_log_storage_t :=
  mkLog (log_version g) n (entries g).

(** The tree in memory is filled in as the data is read, also when a later step
    fails. *)
Definition load_merkle_tree : EST pw_state unit :=
  let? v := load_var PW.TREE_VAR sizeof_long_term in
  let tree := long_term_of_bytes v in
  lift (update_tree (set_params (lt_bits_per_level tree) (lt_height tree) (lt_nonce tree)))
  ;;?
  let* t := gets pw_merkle_tree in
  let* (rv, t) := derive_keys t in
  update_tree (fun _ => t) ;;;
  ensure rv ;;?
  let? log := load_log_data in
  lift (update_tree (set_root (e_root (nth 0 (entries log) zero_entry)))) ;;?
  let* now := on_hw get_time in
  let? log :=
    if now <? RESTART_TIMER_THRESHOLD then
      let log := set_log_restart_count (u32 (log_restart_count log + 1)) log in
      try_ (store_log_data log) ;;? eret log
    else eret log in
  lift (set_restart_count (log_restart_count log)).

Definition store_merkle_tree (t : merkle_tree_t) : EST pw_state unit :=
  try_ (pw_setvar PW.TREE_VAR (long_term_bytes
    (mkLongTerm PW.STORAGE_VERSION (bits_per_level t) (height t)
       (key_derivation_nonce t)))) ;;?
  try_ (store_log_data (mkLog PW.STORAGE_VERSION 0
    [mkEntry (root t) 0 PW.RESET_TREE (zeros 32); zero_entry])) ;;?
  lift (set_restart_count 0).

(** The log with its entries moved down by one and the first one replaced. *)
Definition roll_log (e : pw_get_log_entry_t) (g : pw_log_storage_t) : pw_log_storage_t :=
  mkLog (log_version g) (log_restart_count g)
    (e :: take (PW.LOG_ENTRY_COUNT - 1) (entries g)).

Definition log_append (e : pw_get_log_entry_t) : EST pw_state unit :=
  let? log := load_log_data in
  try_ (store_log_data (roll_log e log)).

Definition log_insert_leaf (l : Z) (r hm : list Z) : EST pw_state unit :=
  log_append (mkEntry r l PW.INSERT_LEAF (leaf_hmac_union hm)).

Definition log_remove_leaf (l : Z) (r : list Z) : EST pw_state unit :=
  log_append (mkEntry r l PW.REMOVE_LEAF (zeros 32)).

Definition log_auth (l : Z) (r : list Z) (code : Z) (ts : pw_timestamp_t)
    : EST pw_state unit :=
  log_append (mkEntry r l PW.TRY_AUTH (auth_union ts code)).

(** ** Request handlers

    A handler takes the memory of the request's data and its size, and returns a code
    and the bytes of the response's data; it writes exactly as many as it reports. *)

(** An error that ends a handler early comes with no data. *)
Definition reply (m : EST pw_state (Z * list Z)) : ST pw_state (Z * list Z) :=
  let* r := m in
  match r with Ok out => ret out | Err c => ret (c, []) end.

Definition update_root (r : list Z) : EST pw_state unit := lift (update_tree (set_root r)).

Definition path_len (t : merkle_tree_t) : Z :=
  get_path_auxiliary_hash_count t * Z.of_nat PW.HASH_SIZE.

Definition empty_hash : list Z := zeros PW.HASH_SIZE.

Definition pw_handle_reset_tree (req : list Z) (req_size : Z)
    : EST pw_state (Z * list Z) :=
  let b := at_ req 0 in
  let h := at_ req 1 in
  fail_if (negb (req_size =? 2)) PW.ERR_LENGTH_INVALID ;;?
  ensure (validate_tree_parameters b h) ;;?
  let? t := create_merkle_tree b h in
  store_merkle_tree t ;;?
  lift (update_tree (fun _ => t)) ;;?
  eret (EC.SUCCESS, []).

(** The leaf an insertion makes. *)
Definition new_leaf (r : pw_request_insert_leaf_t) : leaf_data_t :=
  mkLeaf (mkPub (in_label r) (in_delay_schedule r) (mkStamp 0 0) 0 (in_criteria r))
    (in_sec r).

Definition pw_handle_insert_leaf (req : list Z) (req_size : Z)
    : EST pw_state (Z * list Z) :=
  let request := insert_of_bytes req in
  let* t := gets pw_merkle_tree in
  fail_if (negb (req_size =? sizeof_insert_leaf + path_len t)) PW.ERR_LENGTH_INVALID ;;?
  validate_request_with_path t (in_label request) (in_path_hashes request) empty_hash ;;?
  ensure (validate_delay_schedule (in_delay_schedule request)) ;;?
  let? (w, new_root) :=
    handle_leaf_update t (new_leaf request) (in_path_hashes request) None in
  log_insert_leaf (in_label request) new_root (w_hmac w) ;;?
  update_root new_root ;;?
  eret (EC.SUCCESS, wrapped_bytes w).

Definition pw_handle_remove_leaf (req : list Z) (req_size : Z)
    : EST pw_state (Z * list Z) :=
  let request := remove_of_bytes req in
  let* t := gets pw_merkle_tree in
  fail_if (negb (req_size =? sizeof_remove_leaf + path_len t)) PW.ERR_LENGTH_INVALID ;;?
  validate_request_with_path t (rm_location request) (rm_path_hashes request)
    (rm_hmac request) ;;?
  let? new_root :=
    compute_root_hash t (rm_location request) (rm_path_hashes request) empty_hash in
  log_remove_leaf (rm_location request) new_root ;;?
  update_root new_root ;;?
  eret (EC.SUCCESS, []).

(** [struct pw_response_try_auth_t] *)
Definition try_auth_response (seconds_to_wait : Z) (secret reset_secret leaf : list Z) :=
  le_bytes 4 seconds_to_wait ++ secret ++ reset_secret ++ leaf.

Definition next_attempts (n : Z) : Z := if n =? UINT32_MAX then n else n + 1.

(** [results_table[auth_result]]: the attempts, the code and the two secrets. *)
Definition results_table (d : leaf_data_t) (auth_result : bool)
    : Z * Z * list Z * list Z :=
  if auth_result
  then (0, EC.SUCCESS, high_entropy_secret (sec d), reset_secret (sec d))
  else (next_attempts (attempt_count (pub d)), PW.ERR_LOWENT_AUTH_FAILED,
        zeros PW.SECRET_SIZE, zeros PW.SECRET_SIZE).

Definition try_auth_attempt (t : merkle_tree_t) (request : pw_leaf_request)
    (i : imported_leaf_data_t) (d : leaf_data_t) : EST pw_state (Z * list Z) :=
  let* ts := current_timestamp in
  let auth_result := mem_eq (lr_secret request) (low_entropy_secret (sec d)) in
  let '(attempts, code, secret, rs) := results_table d auth_result in
  let d' := set_pub (fun p => set_attempt_count attempts (set_timestamp ts p)) d in
  let? (w, new_root) := handle_leaf_update t d' (i_hashes i) (Some i) in
  log_auth (label (w_pub w)) new_root code ts ;;?
  update_root new_root ;;?
  eret (code, try_auth_response 0 secret rs (wrapped_bytes w)).

Definition pw_handle_try_auth (req : list Z) (req_size : Z)
    : EST pw_state (Z * list Z) :=
  let request := leaf_request_of_bytes req in
  let* t := gets pw_merkle_tree in
  fail_if (req_size <? sizeof_leaf_request) PW.ERR_LENGTH_INVALID ;;?
  let? (i, d) := validate_request_with_wrapped_leaf t
    (u16 (req_size - sizeof_leaf_request)) (lr_leaf request) in
  validate_pcr_value (valid_pcr_criteria (pub d)) ;;?
  let* (rv, wait) := test_rate_limit d in
  if negb (rv =? EC.SUCCESS)
  then eret (rv, try_auth_response wait (zeros 32) (zeros 32)
                   (zeros (Z.to_nat sizeof_wrapped)))
  else try_auth_attempt t request i d.

Definition pw_handle_reset_auth (req : list Z) (req_size : Z)
    : EST pw_state (Z * list Z) :=
  let request := leaf_request_of_bytes req in
  let* t := gets pw_merkle_tree in
  fail_if (req_size <? sizeof_leaf_request) PW.ERR_LENGTH_INVALID ;;?
  let? (i, d) := validate_request_with_wrapped_leaf t
    (u16 (req_size - sizeof_leaf_request)) (lr_leaf request) in
  fail_if (negb (mem_eq (lr_secret request) (reset_secret (sec d))))
    PW.ERR_RESET_AUTH_FAILED ;;?
  let d' := set_pub (set_attempt_count 0) d in
  let? (w, new_root) := handle_leaf_update t d' (i_hashes i) (Some i) in
  log_auth (label (pub d')) new_root EC.SUCCESS (timestamp (pub d')) ;;?
  update_root new_root ;;?
  eret (EC.SUCCESS, high_entropy_secret (sec d) ++ wrapped_bytes w).

(** The last entry an answer to [PW_GET_LOG] holds. *)
Definition last_entry (r : Z + Z) : Z := match r with inl x => x | inr x => x end.

Definition pw_handle_get_log (req : list Z) (req_size : Z) : EST pw_state (Z * list Z) :=
  let* t := gets pw_merkle_tree in
  fail_if (negb (req_size =? Z.of_nat PW.HASH_SIZE)) PW.ERR_LENGTH_INVALID ;;?
  ensure (validate_tree t) ;;?
  let? log := load_log_data in
  let x := last_entry (find_relevant_entry log (take PW.HASH_SIZE req)) in
  if x <? 0 then eret (EC.SUCCESS, [])
  else eret (EC.SUCCESS, pack entry_bytes (take (Z.to_nat (x + 1)) (entries log))).

(** The state of the leaf after the logged attempt. *)
Definition replay_leaf (e : pw_get_log_entry_t) (d : leaf_data_t) : leaf_data_t :=
  set_pub (fun p =>
    set_timestamp (entry_timestamp e)
      (set_attempt_count
         (if entry_return_code e =? EC.SUCCESS then 0 else u32 (attempt_count p + 1)) p)) d.

Definition pw_handle_log_replay (req : list Z) (req_size : Z)
    : EST pw_state (Z * list Z) :=
  let request := leaf_request_of_bytes req in
  let u := lr_leaf request in
  let* t := gets pw_merkle_tree in
  fail_if (req_size <? sizeof_leaf_request) PW.ERR_LENGTH_INVALID ;;?
  ensure (validate_tree t) ;;?
  ensure (validate_leaf_header (head u) (u16 (req_size - sizeof_leaf_request))
            (u16 (get_path_auxiliary_hash_count t))) ;;?
  let i := import_leaf u in
  let? log := load_log_data in
  match find_relevant_entry log (lr_secret request) with
  | inr _ => throw PW.ERR_ROOT_NOT_FOUND
  | inl x =>
      let e := nth (Z.to_nat x) (entries log) zero_entry in
      fail_if (negb (e_type e =? PW.TRY_AUTH)) PW.ERR_TYPE_INVALID ;;?
      let? h := compute_hmac t i in
      fail_if (negb (mem_eq h (hmac u))) PW.ERR_HMAC_AUTH_FAILED ;;?
      let? d := decrypt_leaf_data t i in
      fail_if (negb (label (pub d) =? e_label e)) PW.ERR_LABEL_INVALID ;;?
      let? (w, r) := handle_leaf_update t (replay_leaf e d) (i_hashes i) (Some i) in
      fail_if (negb (mem_eq r (e_root e))) PW.ERR_PATH_AUTH_FAILED ;;?
      eret (EC.SUCCESS, wrapped_bytes w)
  end.

(** ** Messages

    Request and response share the buffer [buf]: a request header of 4 bytes or a
    response header of 39 bytes, followed by the data. *)

Definition sizeof_request_header : nat := 4.
Definition sizeof_response_header : nat := 39.

(** The offsets of [path_hashes] in insert_leaf requests of both versions. *)
Definition insert00_hashes : nat := sizeof_request_header + 232.
Definition insert_hashes : nat := sizeof_request_header + 300.

(** The request as the current protocol has it, or [None] for an unknown version. *)
Definition make_compatible_request (t : merkle_tree_t) (buf : list Z) : option (list Z) :=
  if at_ buf 0 =? 0 then
    if at_ buf 1 =? PW.INSERT_LEAF then
      let n := Z.to_nat (u16 (path_len t)) in
      let buf := splice insert_hashes (sub insert00_hashes n buf) buf in
      let buf := splice insert00_hashes (zeros sizeof_pcr_criteria) buf in
      Some (splice 2 (le_bytes 2 (get 2 2 buf + VALID_PCR_CRITERIA_SIZE)) buf)
    else Some buf
  else if at_ buf 0 =? PW.PROTOCOL_VERSION then Some buf
  else None.

(** The offsets of the leaf in try_auth responses of both versions. *)
Definition try_auth00_leaf : nat := sizeof_response_header + 36.
Definition try_auth_leaf : nat := sizeof_response_header + 68.

Definition make_compatible_response (version req_type : Z) (buf : list Z) : list Z :=
  if PW.PROTOCOL_VERSION <=? version then buf else
  let buf := splice 0 [version] buf in
  if (version =? 0) && (req_type =? PW.TRY_AUTH) then
    let buf := splice try_auth00_leaf
                 (sub try_auth_leaf (Z.to_nat sizeof_wrapped) buf) buf in
    splice 1 (le_bytes 2 (u16 (get 1 2 buf - Z.of_nat PW.SECRET_SIZE))) buf
  else buf.

Definition dispatch (type : Z) (req : list Z) (req_size : Z)
    : EST pw_state (Z * list Z) :=
  if type =? PW.RESET_TREE then pw_handle_reset_tree req req_size
  else if type =? PW.INSERT_LEAF then pw_handle_insert_leaf req req_size
  else if type =? PW.REMOVE_LEAF then pw_handle_remove_leaf req req_size
  else if type =? PW.TRY_AUTH then pw_handle_try_auth req req_size
  else if type =? PW.RESET_AUTH then pw_handle_reset_auth req req_size
  else if type =? PW.GET_LOG then pw_handle_get_log req req_size
  else if type =? PW.LOG_REPLAY then pw_handle_log_replay req req_size
  else throw PW.ERR_TYPE_INVALID.

Definition response_header (resp_length code : Z) (r : list Z) : list Z :=
  PW.PROTOCOL_VERSION :: le_bytes 2 resp_length ++ le_bytes 4 code ++ r.

(** Returns the code and the buffer with the response. *)
Definition pw_handle_request (buf : list Z) : ST pw_state (Z * list Z) :=
  let type := at_ buf 1 in
  let version := at_ buf 0 in
  let* t := gets pw_merkle_tree in
  let* (code, out, buf) :=
    match make_compatible_request t buf with
    | None => ret (PW.ERR_VERSION_MISMATCH, [], buf)
    | Some buf =>
        let* (code, out) :=
          reply (dispatch type (drop sizeof_request_header buf) (get 2 2 buf)) in
        ret (code, out, buf)
    end in
  let* t := gets pw_merkle_tree in
  let buf := splice sizeof_response_header out buf in
  let buf := splice 0 (response_header (Z.of_nat (length out)) code (root t)) buf in
  ret (code, make_compatible_response version type buf).

Definition pw_vendor_specific_command : handler pw_state := fun p =>
  if in_size p <? Z.of_nat sizeof_request_header
  then ret (RC.VENDOR_RC_INTERNAL_ERROR, p)
  else if negb (in_size p =? get 2 2 (buffer p) + Z.of_nat sizeof_request_header)
  then ret (RC.VENDOR_RC_REQUEST_TOO_BIG, p)
  else
    let* (_, buf) := pw_handle_request (buffer p) in
    ret (RC.VENDOR_RC_SUCCESS,
         set_out_size (set_buffer p buf)
           (get 1 2 buf + Z.of_nat sizeof_response_header)).

Definition pinweaver_init : ST pw_state unit :=
  load_merkle_tree ;;; ret tt.
End Pinweaver.

Arguments pw_state S H : clear implicits.
