(* ===== verification/PwTree.v ===== *)
(** * PinWeaver: the Merkle tree that the stored root stands for

    An abstract tree is a function from labels to the hashes of its leaves; its root
    is computed level by level.  The lemmas relate [compute_root_hash] and
    [authenticate_path], which only see the hashes of one path, to that tree. *)

From S2P Require Import Prelude NvStore PwTypes Pinweaver.

(** What the clients of the cryptographic library rely on. *)
Class PinweaverHwLaws (H : Type) `{!PinweaverHw H} : Prop := {
  length_sha256 m : length (sha256 m) = 32%nat;
  length_hmac_sha256 k m : length (hmac_sha256 k m) = 32%nat;
  length_aes_ctr k iv d : length (aes_ctr k iv d) = length d;
  aes_ctr_involutive k iv d : aes_ctr k iv (aes_ctr k iv d) = d;
  length_rand n h r h' : fips_rand_bytes n h = (Some r, h') -> length r = Z.to_nat n
}.

(** ** The abstract tree *)

Section Tree.
Context {H : Type} `{!PinweaverHw H}.
Variable b : Z.    (* bits per level *)

Definition fan_out : nat := Z.to_nat (2 ^ b).

(** The hash of the node of height [n] above the leaves whose labels start with
    [p]. *)
Fixpoint node_hash (n : nat) (leaves : Z -> list Z) (p : Z) : list Z :=
  match n with
  | O => leaves p
  | S n => sha256 (concat (map (fun i => node_hash n leaves (p * 2 ^ b + Z.of_nat i))
                             (seq 0 fan_out)))
  end.

Definition tree_root (h : nat) (leaves : Z -> list Z) : list Z := node_hash h leaves 0.

Definition set_leaf (l : Z) (c : list Z) (leaves : Z -> list Z) : Z -> list Z :=
  fun l' => if l' =? l then c else leaves l'.

(** The hashes of the children of node [p] of height [n + 1] from [i] on, [k] of
    them. *)
Definition children (n : nat) (leaves : Z -> list Z) (p : Z) (i k : nat) : list Z :=
  concat (map (fun i => node_hash n leaves (p * 2 ^ b + Z.of_nat i)) (seq i k)).

(** The number of the child on the path to [l] at height [n]. *)
Definition child_index (n : nat) (l : Z) : nat :=
  Z.to_nat (Z.shiftr l (Z.of_nat n * b) mod 2 ^ b).

Definition ancestor (n : nat) (l : Z) : Z := Z.shiftr l (Z.of_nat n * b).

(** The hashes of the siblings along the path to [l], from height [n] on. *)
Fixpoint path_hashes (n levels : nat) (leaves : Z -> list Z) (l : Z) : list Z :=
  match levels with
  | O => []
  | S k =>
      let x := child_index n l in
      (children n leaves (ancestor (S n) l) 0 x ++
       children n leaves (ancestor (S n) l) (S x) (fan_out - S x)) ++
      path_hashes (S n) k leaves l
  end.

(** Two messages of one length with the same digest. *)
Definition collision : Prop :=
  exists x y : list Z, x <> y /\ length x = length y /\ sha256 x = sha256 y.

Hypothesis Hb : 0 < b.

Lemma ancestor_S n l : ancestor (S n) l = Z.shiftr (ancestor n l) b.
Proof. unfold ancestor. rewrite Z.shiftr_shiftr by lia. f_equal. lia. Qed.

Lemma ancestor_split n l :
  ancestor n l = ancestor (S n) l * 2 ^ b + Z.of_nat (child_index n l).
Proof.
  rewrite ancestor_S. unfold child_index. fold (ancestor n l).
  rewrite Z.shiftr_div_pow2 by lia.
  assert (0 < 2 ^ b) by (apply Z.pow_pos_nonneg; lia).
  rewrite Z2Nat.id by (apply Z.mod_pos_bound; lia).
  rewrite Z.mul_comm. by apply Z_div_mod_eq_full.
Qed.

Lemma child_index_lt n l : (child_index n l < fan_out)%nat.
Proof.
  unfold child_index, fan_out.
  assert (0 < 2 ^ b) by (apply Z.pow_pos_nonneg; lia).
  pose proof (Z.mod_pos_bound (Z.shiftr l (Z.of_nat n * b)) (2 ^ b)). lia.
Qed.

Lemma child_ancestor p i :
  (i < fan_out)%nat -> Z.shiftr (p * 2 ^ b + Z.of_nat i) b = p.
Proof.
  unfold fan_out. intros Hi. rewrite Z.shiftr_div_pow2 by lia.
  assert (0 < 2 ^ b) by (apply Z.pow_pos_nonneg; lia).
  rewrite Z.div_add_l by lia. rewrite Z.div_small by lia. lia.
Qed.

(** A node that is not above [l] does not depend on its leaf. *)
Lemma node_hash_other n leaves l c p :
  p <> ancestor n l -> node_hash n (set_leaf l c leaves) p = node_hash n leaves p.
Proof.
  revert p. induction n as [|n IH]; intros p Hp; cbn [node_hash].
  - unfold set_leaf, ancestor in *. rewrite Z.mul_0_l, Z.shiftr_0_r in Hp.
    by rewrite (proj2 (Z.eqb_neq p l)).
  - do 2 f_equal. apply map_ext_in. intros i Hi. apply in_seq in Hi. apply IH.
    intros E. apply Hp. rewrite ancestor_S, <-E. rewrite child_ancestor; [done|lia].
Qed.

Lemma children_other n leaves l c p i k :
  (i + k <= fan_out)%nat ->
  (p = ancestor (S n) l -> (i + k <= child_index n l)%nat \/ (child_index n l < i)%nat) ->
  children n (set_leaf l c leaves) p i k = children n leaves p i k.
Proof.
  intros Hk Hp. unfold children. f_equal. apply map_ext_in.
  intros j Hj. apply in_seq in Hj. apply node_hash_other. intros E.
  assert (p = ancestor (S n) l) as Hpe.
  { rewrite ancestor_S, <-E. rewrite child_ancestor; [done|lia]. }
  rewrite ancestor_split, <-Hpe in E. specialize (Hp Hpe). lia.
Qed.

Lemma path_hashes_set_leaf n k leaves l c :
  path_hashes n k (set_leaf l c leaves) l = path_hashes n k leaves l.
Proof.
  revert n. induction k as [|k IH]; intros n; [done|]. cbn [path_hashes].
  pose proof (child_index_lt n l).
  rewrite IH, !children_other by (lia || (intros; right; lia) || (intros; left; lia)).
  done.
Qed.

Lemma children_app n leaves p i j k :
  children n leaves p i (j + k) =
  children n leaves p i j ++ children n leaves p (i + j) k.
Proof. unfold children. by rewrite seq_app, map_app, concat_app. Qed.

(** The node above [l] hashes the siblings with the node below it. *)
Lemma node_hash_path n leaves l :
  node_hash (S n) leaves (ancestor (S n) l) =
  sha256 (children n leaves (ancestor (S n) l) 0 (child_index n l) ++
          node_hash n leaves (ancestor n l) ++
          children n leaves (ancestor (S n) l) (S (child_index n l))
            (fan_out - S (child_index n l))).
Proof.
  cbn [node_hash]. f_equal. change (concat _) with
    (children n leaves (ancestor (S n) l) 0 fan_out).
  pose proof (child_index_lt n l) as Hx. set (x := child_index n l) in *.
  replace fan_out with (x + (1 + (fan_out - S x)))%nat at 1 by lia.
  rewrite !children_app. do 2 f_equal.
  - unfold children. cbn [seq map concat Nat.add]. rewrite app_nil_r.
    unfold x. by rewrite <-ancestor_split.
  - by rewrite Nat.add_1_r.
Qed.

Context `{!PinweaverHwLaws H}.

Lemma length_node_hash n leaves p :
  (forall l, length (leaves l) = 32%nat) -> length (node_hash n leaves p) = 32%nat.
Proof. intros Hl. destruct n; [apply Hl|apply length_sha256]. Qed.

Lemma length_children n leaves p i k :
  (forall l, length (leaves l) = 32%nat) ->
  length (children n leaves p i k) = (32 * k)%nat.
Proof.
  intros Hl. unfold children. revert i. induction k as [|k IH]; intros i; [done|].
  cbn [seq map concat]. rewrite length_app, length_node_hash, IH by done. lia.
Qed.

Lemma length_path_hashes n k leaves l :
  (forall l, length (leaves l) = 32%nat) ->
  length (path_hashes n k leaves l) = (32 * (fan_out - 1) * k)%nat.
Proof.
  intros Hl. revert n. induction k as [|k IH]; intros n; cbn [path_hashes]; [cbn; lia|].
  rewrite !length_app, !length_children, IH by done.
  pose proof (child_index_lt n l). nia.
Qed.

(** The root of a tree whose leaves are all the same. *)
Lemma node_hash_const n c p :
  node_hash (S n) (fun _ => c) p = node_hash n (fun _ => sha256 (concat (replicate fan_out c))) p.
Proof.
  revert p. induction n as [|n IH]; intros p.
  - cbn [node_hash]. do 2 f_equal.
    generalize fan_out. intros m. generalize 0%nat.
    induction m as [|m IHm]; intros i; [done|]. cbn. by rewrite IHm.
  - cbn [node_hash] in *. do 2 f_equal. apply map_ext. intros i.
    rewrite <-IH. done.
Qed.
End Tree.

(** ** The root along a path, as a pure function *)

Section Fold.
Context {H : Type} `{!PinweaverHw H} `{!PinweaverHwLaws H}.
Variable b : Z.
Hypothesis Hb : 0 < b.
Local Abbreviation num_aux := (fan_out b - 1)%nat.

(** The digest of one level: [child] among the sibling hashes. *)
Definition level_hash (n : nat) (l : Z) (hashes child : list Z) : list Z :=
  let x := child_index b n l in
  sha256 (take (32 * x) hashes ++ child ++ sub (32 * x) (32 * (num_aux - x)) hashes).

Fixpoint fold_root (k : nat) (hashes : list Z) (n : nat) (l : Z) (child : list Z)
    : list Z :=
  match k with
  | O => child
  | S k => fold_root k (drop (32 * num_aux) hashes) (S n) l (level_hash n l hashes child)
  end.

(** The path hashes of a tree lead to its root. *)
Lemma fold_root_complete k n leaves l rest :
  (forall l', length (leaves l') = 32%nat) ->
  fold_root k (path_hashes b n k leaves l ++ rest) n l
    (node_hash b n leaves (ancestor b n l)) =
  node_hash b (n + k) leaves (ancestor b (n + k) l).
Proof.
  intros Hl. revert n. induction k as [|k IH]; intros n; [by rewrite Nat.add_0_r|].
  cbn [fold_root path_hashes]. pose proof (child_index_lt b Hb n l) as Hx.
  rewrite <-Nat.add_succ_comm. rewrite <-IH. f_equal.
  - rewrite <-!app_assoc, app_assoc.
    rewrite drop_skip with (m := (32 * num_aux)%nat), Nat.sub_diag, drop_0; [done| |lia].
    rewrite length_app, !length_children by done. lia.
  - rewrite node_hash_path by done. unfold level_hash. f_equal.
    rewrite <-!app_assoc. f_equal; [|f_equal].
    + rewrite take_app_length'; [done|by rewrite length_children].
    + rewrite sub_skip with (m := (32 * child_index b n l)%nat), Nat.sub_diag by
        (by rewrite ?length_children).
      rewrite sub_here; [f_equal; lia|]. rewrite length_children by done. lia.
Qed.

Lemma app_eq_lengths {A} (x y x' y' : list A) :
  x ++ y = x' ++ y' -> length x = length x' -> x = x' /\ y = y'.
Proof. intros E L. by apply app_inj_1 in E. Qed.

(** A level that hashes to a node of the tree was made of its children. *)
Lemma level_hash_sound n leaves l hashes child :
  (forall l', length (leaves l') = 32%nat) -> length child = 32%nat ->
  (32 * num_aux <= length hashes)%nat ->
  level_hash n l hashes child = node_hash b (S n) leaves (ancestor b (S n) l) ->
  (child = node_hash b n leaves (ancestor b n l) /\
   take (32 * num_aux) hashes =
     children b n leaves (ancestor b (S n) l) 0 (child_index b n l) ++
     children b n leaves (ancestor b (S n) l) (S (child_index b n l))
       (fan_out b - S (child_index b n l))) \/
  collision (H := H).
Proof.
  intros Hl Hc Hlen E. pose proof (child_index_lt b Hb n l) as Hx.
  rewrite node_hash_path in E by done. unfold level_hash in E.
  set (x := child_index b n l) in *.
  match type of E with sha256 ?u = sha256 ?v => destruct (decide (u = v)) as [Heq|Hne] end.
  - left. apply app_eq_lengths in Heq as [H1 Heq].
    2:{ rewrite length_take, length_children by done. lia. }
    apply app_eq_lengths in Heq as [H2 H3].
    2:{ by rewrite length_node_hash. }
    split; [done|]. rewrite <-H1, <-H3. unfold sub.
    replace (32 * num_aux)%nat with (32 * x + 32 * (num_aux - x))%nat by lia.
    by rewrite take_take_drop.
  - right. eexists _, _. split; [exact Hne|]. split; [|exact E].
    rewrite !length_app, !length_children, length_node_hash by done.
    rewrite length_take, length_sub by lia. lia.
Qed.

(** Hashes that lead to the root of a tree are those of the tree. *)
Lemma fold_root_sound k n leaves l hashes child :
  (forall l', length (leaves l') = 32%nat) -> length child = 32%nat ->
  (32 * num_aux * k <= length hashes)%nat ->
  fold_root k hashes n l child = node_hash b (n + k) leaves (ancestor b (n + k) l) ->
  (child = node_hash b n leaves (ancestor b n l) /\
   take (32 * num_aux * k) hashes = path_hashes b n k leaves l) \/
  collision (H := H).
Proof.
  intros Hl. revert n hashes child. induction k as [|k IH]; intros n hashes child Hc Hlen E.
  - left. rewrite Nat.add_0_r in E. rewrite Nat.mul_0_r. done.
  - cbn [fold_root] in E. rewrite <-Nat.add_succ_comm in E. apply IH in E.
    2:{ apply length_sha256. }
    2:{ rewrite length_drop. rewrite Nat.mul_succ_r in Hlen. lia. }
    rewrite Nat.mul_succ_r in Hlen |- *.
    destruct E as [[E Hrest]|?]; [|by right].
    apply level_hash_sound in E; [|done|done|nia].
    destruct E as [[E Hlevel]|?]; [left|by right].
    split; [done|]. cbn [path_hashes]. rewrite <-Hlevel, <-Hrest.
    by rewrite Nat.add_comm, take_take_drop.
Qed.

(** Only the hashes of the path matter. *)
Lemma fold_root_take k n l hashes child :
  fold_root k (take (32 * num_aux * k) hashes) n l child = fold_root k hashes n l child.
Proof.
  revert n hashes child. induction k as [|k IH]; intros n hashes child; [done|].
  cbn [fold_root]. pose proof (child_index_lt b Hb n l) as Hx.
  rewrite Nat.mul_succ_r, (Nat.add_comm (32 * num_aux * k)).
  replace (level_hash n l (take _ hashes) child) with (level_hash n l hashes child).
  - rewrite <-(IH (S n) (drop _ hashes)), <-take_drop_commute. done.
  - unfold level_hash, sub. do 2 f_equal.
    + rewrite take_take. f_equal. lia.
    + f_equal. rewrite skipn_firstn_comm, take_take. f_equal. lia.
Qed.
End Fold.

(** ** Tree parameters and labels *)

(** What [validate_tree_parameters] accepts. *)
Record tree_params_ok (b h : Z) : Prop := {
  bits_ok : 1 <= b <= 5;
  height_ok : 1 <= h;
  path_ok : (2 ^ b - 1) * h <= 32
}.

Lemma bits_cases b : 1 <= b <= 5 -> b = 1 \/ b = 2 \/ b = 3 \/ b = 4 \/ b = 5.
Proof. lia. Qed.

Ltac bits_case H :=
  destruct (bits_cases _ H) as [->|[->|[->|[->| ->]]]].

Lemma fan_out_u8 b : 1 <= b <= 5 -> u8 (Z.shiftl 1 b) = 2 ^ b.
Proof. intros Hb. by bits_case Hb. Qed.

Lemma height_max_ok b h :
  1 <= b <= 5 -> (2 ^ b - 1) * h * 32 <= 1024 <-> (2 ^ b - 1) * h <= 32.
Proof. lia. Qed.

Lemma height_bound b h : 1 <= b <= 5 -> (2 ^ b - 1) * h <= 32 -> h <= 8 * 8 / b.
Proof.
  intros Hb Hh. apply Z.div_le_lower_bound; [lia|]. bits_case Hb; lia.
Qed.

Lemma validate_tree_parameters_ok b h :
  validate_tree_parameters b h = EC.SUCCESS <-> tree_params_ok b h.
Proof.
  unfold validate_tree_parameters, BITS_PER_LEVEL_MIN, BITS_PER_LEVEL_MAX, HEIGHT_MIN,
    HEIGHT_MAX, PW.MAX_PATH_SIZE, PW.HASH_SIZE.
  destruct (decide (1 <= b <= 5)) as [Hb|Hb].
  - rewrite (proj2 (Z.ltb_ge b 1)), (proj2 (Z.ltb_ge 5 b)) by lia. cbn [orb].
    rewrite fan_out_u8 by done. change (Z.of_nat 32) with 32. split.
    + repeat split_if; [discriminate|]. bool_to_Prop. intros _.
      split; [done|done|]. by apply height_max_ok.
    + intros [_ Hh Hp]. pose proof (height_bound b h Hb Hp).
      rewrite !(proj2 (Z.ltb_ge _ _)); [done| |done|done].
      by apply height_max_ok.
  - split; [|intros []; lia].
    repeat split_if; bool_to_Prop; try discriminate; lia.
Qed.

Lemma validate_tree_ok t :
  validate_tree t = EC.SUCCESS <-> tree_params_ok (bits_per_level t) (height t).
Proof.
  rewrite <-validate_tree_parameters_ok. unfold validate_tree.
  destruct (_ =? _) eqn:E; bool_to_Prop; split; intros; try done; try discriminate.
Qed.

(** The depth of a valid tree, in bits, fits the 8-bit shift count and the label. *)
Lemma tree_depth b h : tree_params_ok b h -> 1 <= b * h <= 32.
Proof. intros [Hb Hh Hp]. bits_case Hb; lia. Qed.

Lemma validate_label_ok t path :
  tree_params_ok (bits_per_level t) (height t) -> 0 <= path ->
  validate_label t path = EC.SUCCESS <-> path < 2 ^ (bits_per_level t * height t).
Proof.
  intros Ht Hp. unfold validate_label. pose proof (tree_depth _ _ Ht).
  rewrite (uN_small 8) by lia. rewrite Z.shiftr_div_pow2 by lia.
  assert (0 < 2 ^ (bits_per_level t * height t)) by (apply Z.pow_pos_nonneg; lia).
  destruct (_ =? _) eqn:E; bool_to_Prop; split; intros; try done; try discriminate.
  - apply Z.div_small_iff in E; lia.
  - rewrite Z.div_small in E by lia. done.
Qed.

Lemma num_aux_ok b : 1 <= b <= 5 -> u16 (Z.shiftl 1 b - 1) = 2 ^ b - 1.
Proof. intros Hb. by bits_case Hb. Qed.

Lemma level_index_ok b n l :
  1 <= b <= 5 ->
  level_index (ancestor b n l) (2 ^ b - 1) = Z.of_nat (child_index b n l).
Proof.
  intros Hb. unfold level_index, child_index. fold (ancestor b n l).
  replace (2 ^ b - 1) with (Z.ones b) by (rewrite Z.ones_equiv; lia).
  rewrite Z.land_ones by lia.
  pose proof (Z.mod_pos_bound (ancestor b n l) (2 ^ b)) as Hm.
  assert (2 <= 2 ^ b <= 32) by (bits_case Hb; lia).
  rewrite uN_small, Z2Nat.id by lia. done.
Qed.

Lemma fan_out_ok b : 1 <= b <= 5 -> Z.of_nat (fan_out b) = 2 ^ b.
Proof. intros Hb. by bits_case Hb. Qed.

(** ** What the code computes *)

Section Code.
Context {S H : Type} `{!NvStore S} `{!PinweaverHw H} `{!PinweaverHwLaws H}.
Implicit Types w : pw_state S H.

(** Only the hardware was used. *)
Definition hw_only w w' : Prop :=
  pw_merkle_tree w' = pw_merkle_tree w /\ pw_restart_count w' = pw_restart_count w /\
  store w' = store w.

#[export] Instance hw_only_refl : Reflexive hw_only.
Proof. done. Qed.

#[export] Instance hw_only_trans : Transitive hw_only.
Proof. intros w1 w2 w3 (?&?&?) (?&?&?). split_and!; congruence. Qed.

Lemma on_hw_hw {A} (m : ST H A) : preserves hw_only (on_hw m).
Proof. intros w. unfold on_hw. destruct (m (hw w)). done. Qed.
#[local] Hint Resolve on_hw_hw : preserves_db.

Lemma crypto_hw m : preserves hw_only (crypto m).
Proof. unfold crypto. preserves_tac. Qed.

Lemma crypto_some_hw {A} (m : ST H (option A)) : preserves hw_only (crypto_some m).
Proof. unfold crypto_some. preserves_tac. Qed.
#[local] Hint Resolve crypto_hw crypto_some_hw : preserves_db.

Lemma compute_hash_hw hashes n l c : preserves hw_only (compute_hash hashes n l c).
Proof. unfold compute_hash. preserves_tac. Qed.
#[local] Hint Resolve compute_hash_hw : preserves_db.

Lemma root_loop_hw n b x hashes i c : preserves hw_only (root_loop n b x hashes i c).
Proof.
  revert hashes i c. induction n as [|n IH]; intros; cbn [root_loop]; preserves_tac.
Qed.
#[local] Hint Resolve root_loop_hw : preserves_db.

Lemma compute_root_hash_hw t l hashes c : preserves hw_only (compute_root_hash t l hashes c).
Proof. unfold compute_root_hash. preserves_tac. Qed.

Lemma compute_hmac_hw t i : preserves hw_only (compute_hmac t i).
Proof. unfold compute_hmac. preserves_tac. Qed.

(** These steps fail only when the hardware does. *)
Definition only_crypto {A} (m : EST (pw_state S H) A) : Prop :=
  forall w c w', m w = (Err c, w') -> c = PW.ERR_CRYPTO_FAILURE.

Lemma only_crypto_bind {A B} (m : EST (pw_state S H) A) (k : A -> EST _ B) :
  only_crypto m -> (forall a, only_crypto (k a)) -> only_crypto (ebind m k).
Proof.
  intros Hm Hk w c w' E. apply ebind_err_inv in E as [E|(a & w1 & _ & E)].
  - by eapply Hm.
  - by eapply Hk.
Qed.

Lemma only_crypto_ret {A} (a : A) : only_crypto (eret a).
Proof. intros w c w' E. discriminate. Qed.

Lemma only_crypto_crypto m : only_crypto (crypto m).
Proof.
  intros w c w' E. unfold crypto in E. repeat inv_step. destruct a; cbn in *; congruence.
Qed.

Lemma compute_hash_only hashes n l c : only_crypto (compute_hash hashes n l c).
Proof.
  apply only_crypto_bind; [apply only_crypto_crypto|]. intros; apply only_crypto_ret.
Qed.

Lemma compute_root_hash_only t l hashes c : only_crypto (compute_root_hash t l hashes c).
Proof.
  apply only_crypto_bind; [apply compute_hash_only|]. intros a.
  generalize (bits_per_level t) (u16 (Z.shiftl 1 (bits_per_level t) - 1)).
  intros b x. revert hashes l a.
  induction (Z.to_nat (height t) - 1)%nat as [|n IH]; intros; cbn [root_loop];
    [apply only_crypto_ret|].
  apply only_crypto_bind; [apply compute_hash_only|]. intros; apply IH.
Qed.

Variable b : Z.
Hypothesis Hb : 1 <= b <= 5.

Lemma compute_hash_ok n l hashes child w r w' :
  compute_hash hashes (2 ^ b - 1) (level_index (ancestor b n l) (2 ^ b - 1)) child w =
    (Ok r, w') ->
  r = level_hash b n l hashes child.
Proof using Hb.
  unfold compute_hash. intros E. apply ebind_ok_inv in E as (u & w1 & _ & E).
  injection E as <- _. rewrite level_index_ok by done.
  pose proof (child_index_lt b ltac:(lia) n l) as Hx.
  pose proof (fan_out_ok b Hb) as Hf. unfold level_hash, PW.HASH_SIZE.
  set (x := child_index b n l) in *. f_equal. f_equal; [|f_equal].
  - rewrite Nat2Z.id. split_if; [done|]. bool_to_Prop. by replace x with 0%nat by lia.
  - rewrite Nat2Z.id. split_if; bool_to_Prop.
    + do 2 f_equal. lia.
    + unfold sub. replace (fan_out b - 1 - x)%nat with 0%nat by lia. done.
Qed.

Lemma root_loop_ok k n l hashes child w r w' :
  root_loop k b (2 ^ b - 1) hashes (ancestor b n l) child w = (Ok r, w') ->
  r = fold_root b k (drop (32 * (fan_out b - 1)) hashes) (Datatypes.S n) l child.
Proof using Hb.
  revert n hashes child w. induction k as [|k IH]; intros n hashes child w E;
    cbn [root_loop fold_root] in *; [by injection E|].
  replace (PW.HASH_SIZE * Z.to_nat (2 ^ b - 1))%nat with (32 * (fan_out b - 1))%nat in E
    by (unfold PW.HASH_SIZE, fan_out; lia).
  inv_step. rewrite <-ancestor_S in * by lia.
  apply compute_hash_ok in Hm as ->. by apply IH in E.
Qed.
End Code.

Section Paths.
Context {S H : Type} `{!NvStore S} `{!PinweaverHw H} `{!PinweaverHwLaws H}.
Implicit Types w : pw_state S H.

Lemma ancestor_0 b l : ancestor b 0 l = l.
Proof. unfold ancestor. by rewrite Z.mul_0_l, Z.shiftr_0_r. Qed.

(** The top of the tree is above every valid label. *)
Lemma ancestor_top b h l :
  tree_params_ok b h -> 0 <= l < 2 ^ (b * h) -> ancestor b (Z.to_nat h) l = 0.
Proof.
  intros [Hb Hh Hp] Hl. unfold ancestor. rewrite Z2Nat.id by lia.
  rewrite Z.shiftr_div_pow2 by nia. rewrite (Z.mul_comm h b).
  by apply Z.div_small.
Qed.

Lemma compute_root_hash_ok t l hashes child w r w' :
  tree_params_ok (bits_per_level t) (height t) ->
  compute_root_hash t l hashes child w = (Ok r, w') ->
  r = fold_root (bits_per_level t) (Z.to_nat (height t)) hashes 0 l child.
Proof.
  intros [Hb Hh _]. unfold compute_root_hash. rewrite num_aux_ok by done. intros E.
  apply ebind_ok_inv in E as (c & w1 & Hm & E).
  rewrite <-(ancestor_0 (bits_per_level t) l) in Hm, E.
  apply compute_hash_ok in Hm as ->; [|done]. apply root_loop_ok in E as ->; [|done].
  by destruct (Z.to_nat (height t)) as [|n] eqn:En; [lia|]; rewrite Nat.sub_1_r.
Qed.

(** The root the tree in memory stands for. *)
Definition root_of (t : merkle_tree_t) (leaves : Z -> list Z) : list Z :=
  tree_root (bits_per_level t) (Z.to_nat (height t)) leaves.

(** The sibling hashes a request has to hold, as one block of memory. *)
Definition path_of (t : merkle_tree_t) (leaves : Z -> list Z) (l : Z) : list Z :=
  path_hashes (bits_per_level t) 0 (Z.to_nat (height t)) leaves l.

Definition valid_label (t : merkle_tree_t) (l : Z) : Prop :=
  tree_params_ok (bits_per_level t) (height t) /\
  0 <= l < 2 ^ (bits_per_level t * height t).

Definition well_sized (leaves : Z -> list Z) : Prop :=
  forall l, length (leaves l) = 32%nat.

Lemma set_leaf_well_sized l c leaves :
  well_sized leaves -> length c = 32%nat -> well_sized (set_leaf l c leaves).
Proof. intros Hl Hc l'. unfold set_leaf. by destruct (l' =? l). Qed.

(** The path hashes of a tree lead to the root with the leaf replaced. *)
Lemma fold_root_path t l leaves c :
  valid_label t l -> well_sized leaves -> length c = 32%nat ->
  fold_root (bits_per_level t) (Z.to_nat (height t)) (path_of t leaves l) 0 l c =
  root_of t (set_leaf l c leaves).
Proof.
  intros [Ht Hl] Hsz Hc. pose proof (bits_ok _ _ Ht) as Hb.
  unfold root_of, tree_root, path_of.
  rewrite <-(path_hashes_set_leaf (bits_per_level t) ltac:(lia) 0 _ leaves l c).
  replace c with (node_hash (bits_per_level t) 0 (set_leaf l c leaves)
                    (ancestor (bits_per_level t) 0 l)) at 2.
  2:{ cbn [node_hash]. rewrite ancestor_0. unfold set_leaf. by rewrite Z.eqb_refl. }
  rewrite <-(app_nil_r (path_hashes _ _ _ _ _)).
  rewrite fold_root_complete; [|lia|by apply set_leaf_well_sized].
  cbn [Nat.add]. by rewrite ancestor_top.
Qed.

(** How many bytes of path hashes a request holds. *)
Lemma path_len_ok t :
  tree_params_ok (bits_per_level t) (height t) ->
  path_len t = Z.of_nat (32 * (fan_out (bits_per_level t) - 1) * Z.to_nat (height t)) /\
  0 <= get_path_auxiliary_hash_count t <= 32.
Proof.
  intros [Hb Hh Hp]. pose proof (fan_out_ok _ Hb).
  unfold path_len, get_path_auxiliary_hash_count, PW.HASH_SIZE.
  rewrite Z.shiftl_1_l. split; [|nia]. nia.
Qed.

Lemma authenticate_sound t l leaves hashes c w w' :
  valid_label t l -> well_sized leaves -> length c = 32%nat ->
  path_len t <= Z.of_nat (length hashes) -> root t = root_of t leaves ->
  authenticate_path t l hashes c w = (Ok tt, w') ->
  (c = leaves l /\ take (Z.to_nat (path_len t)) hashes = path_of t leaves l) \/
  collision (H := H).
Proof.
  intros [Ht Hl] Hsz Hc Hlen Hr E. pose proof (bits_ok _ _ Ht) as Hb.
  unfold authenticate_path in E. apply ebind_ok_inv in E as (r & w1 & Hm & E).
  apply fail_if_inv in E as [-> E]. destruct (mem_eq r (root t)) eqn:Em; [|discriminate].
  bool_to_Prop. subst r. apply compute_root_hash_ok in Hm; [|done].
  rewrite Hr in Hm. unfold root_of, tree_root in Hm. symmetry in Hm.
  rewrite <-(ancestor_top (bits_per_level t) (height t) l) in Hm by done.
  destruct (path_len_ok t Ht) as [Hp _]. rewrite Hp in Hlen |- *.
  apply Nat2Z.inj_le in Hlen.
  apply (fold_root_sound (bits_per_level t) ltac:(lia) _ 0) in Hm; [|done|done|done].
  rewrite Nat2Z.id. cbn [node_hash] in Hm. by rewrite ancestor_0 in Hm.
Qed.

(** [compute_root_hash] reads the path hashes only. *)
Lemma compute_root_hash_path t l hashes c w r w' :
  tree_params_ok (bits_per_level t) (height t) ->
  compute_root_hash t l hashes c w = (Ok r, w') ->
  r = fold_root (bits_per_level t) (Z.to_nat (height t))
        (take (Z.to_nat (path_len t)) hashes) 0 l c.
Proof.
  intros Ht E. apply compute_root_hash_ok in E as ->; [|done].
  destruct (path_len_ok t Ht) as [-> _]. rewrite Nat2Z.id.
  pose proof (bits_ok _ _ Ht). rewrite fold_root_take; [done|lia].
Qed.

(** Given the hashes of the siblings along the path to a label in any tree,
    [compute_root_hash] returns the root of that tree with the leaf at the label
    replaced by the given hash; it changes neither tree nor store, and the only error
    it can return is a failure of the hash engine. *)
Theorem root_of_path t l leaves c rest w :
  valid_label t l -> well_sized leaves -> length c = 32%nat ->
  match compute_root_hash t l (path_of t leaves l ++ rest) c w with
  | (Ok r, w') => r = root_of t (set_leaf l c leaves) /\ hw_only w w'
  | (Err code, w') => code = PW.ERR_CRYPTO_FAILURE /\ hw_only w w'
  end.
Proof.
  intros Hl Hsz Hc. pose proof Hl as [Ht _].
  pose proof (compute_root_hash_hw t l (path_of t leaves l ++ rest) c w) as Hw.
  destruct (compute_root_hash t l _ c w) as [[r|code] w'] eqn:E; (split; [|exact Hw]).
  - apply compute_root_hash_path in E as ->; [|done].
    destruct (path_len_ok t Ht) as [-> _]. rewrite Nat2Z.id.
    pose proof (bits_ok _ _ Ht).
    rewrite take_app_length' by (unfold path_of; rewrite length_path_hashes by (done || lia); lia).
    by apply fold_root_path.
  - by apply compute_root_hash_only in E.
Qed.

Lemma empty_root_ok f n c w r w' b :
  fan_out b = f -> empty_root f n c w = (Ok r, w') ->
  r = node_hash b n (fun _ => c) 0.
Proof.
  intros Hf. revert c w. induction n as [|n IH]; intros c w E; cbn [empty_root] in E.
  - by injection E.
  - apply ebind_ok_inv in E as (? & w1 & _ & E). apply IH in E as ->.
    by rewrite node_hash_const, Hf.
Qed.
End Paths.

#[export] Hint Resolve on_hw_hw crypto_hw crypto_some_hw compute_hash_hw
  compute_root_hash_hw compute_hmac_hw : preserves_db.
