(* ===== verification/PwToy.v ===== *)
(** * PinWeaver: an instance of the hardware interface

    A small executable instance of [PinweaverHw] that satisfies its laws: the digest
    is a polynomial of the bytes modulo 2^64, the cipher xors with the repeated key,
    the clock and the random bytes are fields of the state, and [broken] makes every
    fallible operation fail.  The concrete examples run on it. *)

From S2P Require Import Prelude NvStore PwTypes Pinweaver PwTree.

Record toy := mkToy { now : Z; entropy : Z; broken : bool; pcrs : list Z }.

Definition toy_hash (m : list Z) : list Z :=
  be_bytes 32 (fold_left (fun a b => (a * 257 + b + 1) mod 2 ^ 64) m 7).

Definition toy_ctr (k iv d : list Z) : list Z :=
  imap (fun i b => Z.lxor b (nth (Nat.modulo i 32) k 0)) d.

Definition toy_ok : ST toy bool := fun s => (negb (broken s), s).

Definition toy_some {A} (a : A) : ST toy (option A) := fun s =>
  (if broken s then None else Some a, s).

#[global] Instance toy_hw : PinweaverHw toy := {
  sha256 := toy_hash;
  hmac_sha256 k m := toy_hash (k ++ m);
  aes_ctr := toy_ctr;
  sha256_init := toy_ok;
  hmac_sha256_init := toy_ok;
  aes_ctr_ok := toy_ok;
  fips_rand_bytes n := fun s =>
    (if broken s then None else Some (replicate (Z.to_nat n) (entropy s)),
     mkToy (now s) (entropy s + 1) (broken s) (pcrs s));
  appkey_init := toy_ok;
  appkey_derive i := toy_some (toy_hash i);
  appkey_finish := ret tt;
  get_storage_seed := ret (replicate 32 0x5a);
  get_current_pcr_digest m := fun s => (Some (toy_hash (m ++ pcrs s)), s);
  get_time := gets now
}.

Lemma toy_ctr_involutive k iv d : toy_ctr k iv (toy_ctr k iv d) = d.
Proof.
  unfold toy_ctr. apply list_eq. intros i. rewrite !list_lookup_imap.
  destruct (d !! i) as [b|]; [|done]. cbn. f_equal.
  by rewrite Z.lxor_assoc, Z.lxor_nilpotent, Z.lxor_0_r.
Qed.

#[global] Instance toy_laws : PinweaverHwLaws toy.
Proof.
  split.
  - intros. apply length_be_bytes.
  - intros. apply length_be_bytes.
  - intros. apply length_imap.
  - apply toy_ctr_involutive.
  - intros n h r h'. cbn. destruct (broken h); [discriminate|].
    intros [= <- <-]. by rewrite length_replicate.
Qed.

(** ** A concrete run *)

Abbreviation toy_state := (pw_state ram_store toy).

Definition blank : toy_state := mkPw zero_tree 0 ∅ (mkToy (100 * SECOND) 1 false []).

(** A tree of two levels with two children each. *)
Definition toy_tree : toy_state := (pw_handle_reset_tree [1; 2] 2 blank).2.

Definition no_leaves : Z -> list Z := fun _ => empty_hash.

Definition toy_path (l : Z) (leaves : Z -> list Z) : list Z :=
  path_of (pw_merkle_tree toy_tree) leaves l.

(** After five failed attempts ten seconds have to pass, after twenty none is
    allowed. *)
Definition toy_schedule : list delay_schedule_entry_t :=
  [mkSched 5 10; mkSched 20 PW.BLOCK_ATTEMPTS] ++ replicate 14 (mkSched 0 0).

Definition toy_sec : leaf_sensitive_data_t :=
  mkSec (replicate 32 11) (replicate 32 22) (replicate 32 33).

(** An insert_leaf request for label 2. *)
Definition toy_insert : list Z :=
  le_bytes 8 2 ++ pack sched_bytes toy_schedule ++ sec_bytes toy_sec ++
  zeros 68 ++ toy_path 2 no_leaves.

Definition toy_inserted : result (Z * list Z) * toy_state :=
  pw_handle_insert_leaf toy_insert (Z.of_nat (length toy_insert)) toy_tree.

(** The leaf the insertion returned. *)
Definition toy_leaf : list Z :=
  match toy_inserted.1 with Ok (_, out) => out | Err _ => [] end.

(** An authentication request with [secret]. *)
Definition toy_request (secret : list Z) : list Z :=
  secret ++ toy_leaf ++ toy_path 2 no_leaves.

Definition toy_auth (secret : list Z) : result (Z * list Z) * toy_state :=
  pw_handle_try_auth (toy_request secret) (Z.of_nat (length (toy_request secret)))
    toy_inserted.2.

Example toy_run :
  (toy_inserted.1 = Ok (EC.SUCCESS, toy_leaf)) /\ length toy_leaf = 372%nat /\
  (exists leaf, (toy_auth (replicate 32 11)).1 =
     Ok (EC.SUCCESS, try_auth_response 0 (replicate 32 22) (replicate 32 33) leaf)) /\
  (exists leaf, (toy_auth (replicate 32 12)).1 =
     Ok (PW.ERR_LOWENT_AUTH_FAILED, try_auth_response 0 (zeros 32) (zeros 32) leaf)).
Proof.
  split_and!; [vm_compute; reflexivity|vm_compute; reflexivity| |];
    eexists; vm_compute; reflexivity.
Qed.

Example root_of_path_witness :
  (compute_root_hash (pw_merkle_tree toy_tree) 3
     (toy_path 3 no_leaves) (zeros 32) toy_tree).1 = Ok (root (pw_merkle_tree toy_tree)) /\
  root (pw_merkle_tree toy_tree) =
    root_of (pw_merkle_tree toy_tree) (set_leaf 3 (zeros 32) no_leaves).
Proof.
  assert (Hl : valid_label (pw_merkle_tree toy_tree) 3).
  { vm_compute. repeat split; intros; discriminate. }
  pose proof (root_of_path (pw_merkle_tree toy_tree) 3 no_leaves (zeros 32) [] toy_tree
                Hl (fun _ => eq_refl) eq_refl) as Hroot.
  rewrite app_nil_r in Hroot.
  assert (E : (compute_root_hash (pw_merkle_tree toy_tree) 3
     (toy_path 3 no_leaves) (zeros 32) toy_tree).1 = Ok (root (pw_merkle_tree toy_tree)))
    by (vm_compute; reflexivity).
  split; [exact E|]. revert Hroot E. unfold toy_path.
  generalize (root (pw_merkle_tree toy_tree)).
  generalize (root_of (pw_merkle_tree toy_tree) (set_leaf 3 (zeros 32) no_leaves)).
  intros r0 r1.
  destruct (compute_root_hash _ _ _ _ _) as [[r|c] w']; cbn [fst].
  - intros [Hr _] E. by injection E as <-.
  - intros _ E. discriminate E.
Defined.
