(* ===== verification/PwRequest.v ===== *)
(** * PinWeaver: what the requests do

    The lemmas on the steps the request handlers share, and the theorems on the
    handlers: every request acts on the abstract tree the root stands for as one
    insertion, removal or replacement of a leaf; a secret is released only to a
    request that passed every check; a leaf that was issued is accepted again. *)

From S2P Require Import Prelude NvStore Vendor PwTypes Pinweaver PwTree PwToy.

Section Steps.
Context {S H : Type} `{!NvStore S} `{!PinweaverHw H} `{!PinweaverHwLaws H}.
Implicit Types w : pw_state S H.

(** ** Steps that use the hardware only *)

Lemma ensure_hw rv : preserves (hw_only (S := S) (H := H)) (ensure rv).
Proof. unfold ensure. preserves_tac. Qed.
#[local] Hint Resolve ensure_hw : preserves_db.

Lemma authenticate_path_hw t l hashes c :
  preserves (hw_only (S := S)) (authenticate_path t l hashes c).
Proof. unfold authenticate_path. preserves_tac. Qed.
#[local] Hint Resolve authenticate_path_hw : preserves_db.

Lemma validate_path_hw t l hashes c :
  preserves (hw_only (S := S)) (validate_request_with_path t l hashes c).
Proof. unfold validate_request_with_path. preserves_tac. Qed.
#[local] Hint Resolve validate_path_hw : preserves_db.

Lemma decrypt_hw t i : preserves (hw_only (S := S)) (decrypt_leaf_data t i).
Proof. unfold decrypt_leaf_data. preserves_tac. Qed.

Lemma encrypt_hw t d : preserves (hw_only (S := S)) (encrypt_leaf_data t d).
Proof. unfold encrypt_leaf_data. preserves_tac. Qed.
#[local] Hint Resolve decrypt_hw encrypt_hw : preserves_db.

Lemma validate_leaf_hw t n u :
  preserves (hw_only (S := S)) (validate_request_with_wrapped_leaf t n u).
Proof. unfold validate_request_with_wrapped_leaf. preserves_tac. Qed.

Lemma handle_leaf_update_hw t d hashes old :
  preserves (hw_only (S := S)) (handle_leaf_update t d hashes old).
Proof. unfold handle_leaf_update. preserves_tac. Qed.

Lemma pcr_hw cs : preserves (hw_only (S := S)) (validate_pcr_value cs).
Proof.
  unfold validate_pcr_value. generalize 0%nat.
  induction cs as [|c cs IH]; intros n; cbn [pcr_loop]; preserves_tac.
Qed.

Lemma timestamp_hw : preserves (hw_only (S := S) (H := H)) current_timestamp.
Proof. unfold current_timestamp. preserves_tac. Qed.
#[local] Hint Resolve timestamp_hw : preserves_db.

Lemma rate_limit_hw d : preserves (hw_only (S := S) (H := H)) (test_rate_limit d).
Proof. unfold test_rate_limit. preserves_tac. Qed.

Lemma empty_root_hw f n c : preserves (hw_only (S := S)) (empty_root f n c).
Proof. revert c. induction n; intros c; cbn [empty_root]; preserves_tac. Qed.

Lemma derive_keys_hw t : preserves (hw_only (S := S)) (derive_keys t).
Proof. unfold derive_keys. preserves_tac. Qed.
#[local] Hint Resolve empty_root_hw derive_keys_hw : preserves_db.

Lemma create_hw b h : preserves (hw_only (S := S)) (create_merkle_tree b h).
Proof. unfold create_merkle_tree. preserves_tac. Qed.

(** Reading an equation [m w = (r, w')] as a step that used the hardware only. *)
Lemma hw_step {A} (m : ST (pw_state S H) A) w r w' :
  preserves hw_only m -> m w = (r, w') -> hw_only w w'.
Proof. intros Hm E. specialize (Hm w). by rewrite E in Hm. Qed.

(** ** The log *)

(** Neither the tree nor the restart count changed. *)
Definition same_tree w w' : Prop :=
  pw_merkle_tree w' = pw_merkle_tree w /\ pw_restart_count w' = pw_restart_count w.

#[export] Instance same_tree_refl : Reflexive same_tree.
Proof. done. Qed.

#[export] Instance same_tree_trans : Transitive same_tree.
Proof. intros ??? [] []. split; congruence. Qed.

Lemma load_var_same k n w : (load_var k n w).2 = w.
Proof.
  unfold load_var, bind, gets. cbn. destruct (getvar (store w) k); [|done].
  by repeat split_if.
Qed.

Lemma load_var_inv k n w r w' :
  load_var k n w = (r, w') ->
  w' = w /\
  match r with
  | Ok v => getvar (store w) k = Some v /\ length v = n /\ get 0 2 v = 0
  | Err c => PW.ERR_NV_EMPTY <= c <= PW.ERR_NV_VERSION_MISMATCH
  end.
Proof.
  unfold load_var, bind, gets. cbn. destruct (getvar (store w) k) as [v|].
  - repeat split_if; intros [= <- <-]; try (split; [done|]; done).
    bool_to_Prop. apply Nat.eqb_eq in E. done.
  - by intros [= <- <-].
Qed.

Lemma load_log_inv w r w' :
  load_log_data w = (r, w') ->
  w' = w /\
  match r with
  | Ok g => exists v, getvar (store w) PW.LOG_VAR0 = Some v /\ length v = sizeof_log /\
                      get 0 2 v = 0 /\ g = log_of_bytes v
  | Err c => PW.ERR_NV_EMPTY <= c <= PW.ERR_NV_VERSION_MISMATCH
  end.
Proof.
  unfold load_log_data, ebind, bind.
  destruct (load_var PW.LOG_VAR0 sizeof_log w) as [[v|c] w1] eqn:E;
    apply load_var_inv in E as [-> E]; cbn; intros [= <- <-]; split; try done.
  destruct E as (?&?&?). by exists v.
Qed.

Lemma pw_setvar_same k v : preserves same_tree (pw_setvar (H := H) k v).
Proof. intros w. unfold pw_setvar. by destruct (setvar (store w) k v). Qed.

Lemma log_append_same e : preserves same_tree (log_append (H := H) e).
Proof.
  unfold log_append. refine (preserves_ebind _ _ _ _ _).
  - intros w. pose proof (load_log_inv w) as Hl. destruct (load_log_data w) as [r w'].
    by destruct (Hl _ _ eq_refl) as [-> _].
  - intros g. apply preserves_try; [apply _..|]. apply pw_setvar_same.
Qed.

Lemma hw_same_tree w w' : hw_only w w' -> same_tree w w'.
Proof. by intros (?&?&?). Qed.
End Steps.

#[export] Hint Resolve ensure_hw authenticate_path_hw validate_path_hw decrypt_hw
  encrypt_hw validate_leaf_hw handle_leaf_update_hw pcr_hw timestamp_hw rate_limit_hw
  create_hw derive_keys_hw empty_root_hw : preserves_db.

(** ** What a successful step established *)

(** The HMAC of a leaf as the chip wraps it. *)
Definition leaf_hmac {H} `{!PinweaverHw H} (t : merkle_tree_t) (iv : list Z)
    (p : leaf_public_data_t) (cipher : list Z) : list Z :=
  hmac_sha256 (hmac_key t)
    (hmac_input (import_leaf (unimported_of_wrapped
       (mkWrapped wrapped_head (zeros PW.HASH_SIZE) iv p cipher) []))).

(** The leaf data an imported leaf decrypts to. *)
Definition decrypted {H} `{!PinweaverHw H} (t : merkle_tree_t) (i : imported_leaf_data_t)
    : leaf_data_t :=
  mkLeaf
    (pub_of_bytes (splice 0 (take (Nat.min (Z.to_nat (pub_len (i_head i))) sizeof_pub)
                               (i_pub i)) (zeros sizeof_pub)))
    (sec_of_bytes (aes_ctr (wrap_key t) (i_iv i) (take sizeof_sec (i_cipher_text i)))).

Section Inversion.
Context {S H : Type} `{!NvStore S} `{!PinweaverHw H} `{!PinweaverHwLaws H}.
Implicit Types w : pw_state S H.

Lemma ensure_ok rv w w' u : ensure rv w = (Ok u, w') -> rv = EC.SUCCESS /\ w' = w.
Proof.
  intros E. apply try_inv in E as (r & E & Er). injection E as -> <-.
  destruct (r =? 0) eqn:E0; [|discriminate]. by bool_to_Prop.
Qed.

Lemma compute_hmac_ok t i w h w' :
  compute_hmac t i w = (Ok h, w') -> h = hmac_sha256 (hmac_key t) (hmac_input i).
Proof. intros E. apply ebind_ok_inv in E as (u & w1 & _ & E). by injection E. Qed.

Lemma decrypt_ok t i w d w' :
  decrypt_leaf_data t i w = (Ok d, w') -> d = decrypted t i.
Proof. intros E. apply ebind_ok_inv in E as (u & w1 & _ & E). by injection E. Qed.

Lemma fail_if_ok b c w w' u : fail_if b c w = (Ok u, w') -> b = false /\ w' = w.
Proof. intros E. apply fail_if_inv in E as [-> E]. by destruct b. Qed.

(** The conditions under which a request's leaf is accepted. *)
Record leaf_accepted (t : merkle_tree_t) (n : Z) (u : unimported_leaf_data_t) : Prop := {
  acc_header : validate_leaf_header (head u) n (u16 (get_path_auxiliary_hash_count t))
               = EC.SUCCESS;
  acc_tree : tree_params_ok (bits_per_level t) (height t);
  acc_label : validate_label t (imported_label (import_leaf u)) = EC.SUCCESS;
  acc_path : exists w1 w2 : pw_state S H,
    authenticate_path t (imported_label (import_leaf u)) (i_hashes (import_leaf u))
      (hmac u) w1 = (Ok tt, w2);
  acc_hmac : hmac u = hmac_sha256 (hmac_key t) (hmac_input (import_leaf u))
}.

Lemma validate_path_ok t l hashes c w w' :
  validate_request_with_path t l hashes c w = (Ok tt, w') ->
  tree_params_ok (bits_per_level t) (height t) /\ validate_label t l = EC.SUCCESS /\
  authenticate_path t l hashes c w = (Ok tt, w').
Proof.
  intros E. apply ebind_ok_inv in E as (u & w1 & E1 & E).
  apply ensure_ok in E1 as [E1 ->]. apply validate_tree_ok in E1.
  apply ebind_ok_inv in E as (u' & w1 & E2 & E). by apply ensure_ok in E2 as [? ->].
Qed.

Lemma validate_leaf_ok t n u w i d w' :
  validate_request_with_wrapped_leaf t n u w = (Ok (i, d), w') ->
  leaf_accepted t n u /\ i = import_leaf u /\ d = upgrade_leaf (head u) (decrypted t i).
Proof.
  intros E. apply ebind_ok_inv in E as (u1 & w1 & E1 & E).
  apply ensure_ok in E1 as [Hhead ->].
  apply ebind_ok_inv in E as ([] & w2 & E2 & E).
  apply validate_path_ok in E2 as (Ht & Hl & Ha).
  apply ebind_ok_inv in E as (h & w3 & E3 & E). apply compute_hmac_ok in E3.
  apply ebind_ok_inv in E as (u2 & w4 & E4 & E). apply fail_if_ok in E4 as [E4 ->].
  apply ebind_ok_inv in E as (d' & w5 & E5 & E). apply decrypt_ok in E5.
  injection E as <- <- _. subst d'. bool_to_Prop.
  split; [|done]. split; try done; [by exists w, w2|congruence].
Qed.

(** What a leaf update returns. *)
Lemma handle_leaf_update_ok t d hashes old w wl r w' :
  handle_leaf_update t d hashes old w = (Ok (wl, r), w') ->
  exists iv cipher w1,
    wl = mkWrapped wrapped_head (leaf_hmac t iv (pub d) cipher) iv (pub d) cipher /\
    match old with
    | None => length iv = 16%nat /\ cipher = aes_ctr (wrap_key t) iv (sec_bytes (sec d))
    | Some i => iv = i_iv i /\ cipher = take sizeof_sec (i_cipher_text i)
    end /\
    compute_root_hash t (label (pub d)) hashes (w_hmac wl) w1 = (Ok r, w').
Proof.
  intros E. apply ebind_ok_inv in E as ([iv cipher] & w1 & E1 & E).
  apply ebind_ok_inv in E as (h & w2 & E2 & E). apply compute_hmac_ok in E2 as ->.
  apply ebind_ok_inv in E as (r' & w3 & E3 & E). injection E as <- <- <-.
  exists iv, cipher, w2. split; [done|]. split; [|done].
  destruct old as [i|].
  - by injection E1 as <- <- _.
  - apply ebind_ok_inv in E1 as (iv' & w4 & E4 & E1).
    apply ebind_ok_inv in E1 as (u & w5 & _ & E1). injection E1 as <- <- _.
    split; [|done]. unfold crypto_some in E4.
    apply bind_inv in E4 as (o & w6 & E4 & E5).
    destruct o as [x|]; [|discriminate]. injection E5 as -> _.
    unfold on_hw in E4. destruct (fips_rand_bytes _ _) as [o h] eqn:E6.
    injection E4 as -> _. by apply length_rand in E6.
Qed.

(** A path that was authenticated leads to the root of the tree with the leaf
    replaced. *)
Lemma replace_leaf t leaves l hashes c c' w1 w2 w3 r w4 :
  valid_label t l -> well_sized leaves -> length c = 32%nat -> length c' = 32%nat ->
  path_len t <= Z.of_nat (length hashes) -> root t = root_of t leaves ->
  authenticate_path t l hashes c w1 = (Ok tt, w2) ->
  compute_root_hash t l hashes c' w3 = (Ok r, w4) ->
  (c = leaves l /\ r = root_of t (set_leaf l c' leaves)) \/ collision (H := H).
Proof.
  intros Hl Hsz Hc Hc' Hlen Hr Ha Hcr.
  apply (authenticate_sound t l leaves) in Ha; try done.
  destruct Ha as [[Hcl Hpath]|?]; [left|by right]. split; [done|].
  apply compute_root_hash_path in Hcr; [|apply Hl]. rewrite Hpath in Hcr.
  rewrite Hcr. by apply fold_root_path.
Qed.

Lemma derive_keys_params t w rv t' w' :
  derive_keys t w = ((rv, t'), w') ->
  bits_per_level t' = bits_per_level t /\ height t' = height t /\ root t' = root t /\
  key_derivation_nonce t' = key_derivation_nonce t.
Proof.
  unfold derive_keys. intros E. apply bind_inv in E as (seed & w1 & _ & E).
  apply bind_inv in E as (ok & w2 & _ & E). destruct ok; [|by injection E as <- <-].
  cbn [negb] in E. apply bind_inv in E as (wk & w3 & _ & E).
  destruct wk as [wk|]; apply bind_inv in E as (hk & w4 & _ & E).
  - apply bind_inv in E as (u & w5 & _ & E).
    destruct hk; by injection E as _ <- _.
  - by injection E as _ <- _.
Qed.

Lemma label_valid t l :
  tree_params_ok (bits_per_level t) (height t) -> 0 <= l ->
  validate_label t l = EC.SUCCESS -> valid_label t l.
Proof. intros Ht Hl E. apply validate_label_ok in E; [|done..]. split; [done|lia]. Qed.
End Inversion.

(** ** Errors leave the tree alone *)

Section Errors.
Context {S H : Type} `{!NvStore S} `{!PinweaverHw H} `{!PinweaverHwLaws H}.
Implicit Types w : pw_state S H.

Definition same_mt w w' : Prop := pw_merkle_tree w' = pw_merkle_tree w.

#[export] Instance same_mt_refl : Reflexive same_mt.
Proof. done. Qed.

#[export] Instance same_mt_trans : Transitive same_mt.
Proof. intros ??? ??. unfold same_mt in *. congruence. Qed.

Lemma hw_same_mt {A} (m : ST (pw_state S H) A) :
  preserves hw_only m -> preserves same_mt m.
Proof. intros Hm w. apply Hm. Qed.

Lemma tree_same_mt {A} (m : ST (pw_state S H) A) :
  preserves same_tree m -> preserves same_mt m.
Proof. intros Hm w. apply Hm. Qed.

Definition errs_same {A} (m : EST (pw_state S H) A) : Prop :=
  forall w c w', m w = (Err c, w') -> pw_merkle_tree w' = pw_merkle_tree w.

Lemma errs_same_ebind {A B} (m : EST (pw_state S H) A) (k : A -> EST _ B) :
  preserves same_mt m -> (forall a, errs_same (k a)) -> errs_same (ebind m k).
Proof.
  intros Hm Hk w c w' E. specialize (Hm w). apply ebind_err_inv in E as [E|(a & w1 & E1 & E)].
  - by rewrite E in Hm.
  - apply Hk in E. rewrite E1 in Hm. unfold same_mt in Hm. cbn in Hm. congruence.
Qed.

Lemma errs_same_bind {A B} (m : ST (pw_state S H) A) (k : A -> EST _ B) :
  preserves same_mt m -> (forall a, errs_same (k a)) -> errs_same (bind m k).
Proof.
  intros Hm Hk w c w' E. specialize (Hm w). apply bind_inv in E as (a & w1 & E1 & E).
  apply Hk in E. rewrite E1 in Hm. unfold same_mt in Hm. cbn in Hm. congruence.
Qed.

Lemma errs_same_update {A} f (a : A) : errs_same (lift (update_tree f) ;;? eret a).
Proof. intros w c w' E. discriminate. Qed.

Lemma errs_same_throw {A} c : errs_same (throw c : EST _ A).
Proof. intros w c' w' E. by injection E as _ <-. Qed.

Lemma errs_same_ret {A} (a : A) : errs_same (eret a).
Proof. intros w c w' E. discriminate. Qed.

Lemma load_log_same : preserves same_mt (load_log_data (S := S) (H := H)).
Proof.
  intros w. pose proof (load_log_inv w) as Hl. destruct (load_log_data w) as [r w'].
  by destruct (Hl _ _ eq_refl) as [-> _].
Qed.

Lemma store_merkle_tree_same t : preserves same_mt (store_merkle_tree (H := H) t).
Proof.
  unfold store_merkle_tree, store_log_data.
  pose proof (fun k v => tree_same_mt _ (pw_setvar_same k v)) as Hs.
  repeat (refine (preserves_ebind _ _ _ _ _); [apply preserves_try, Hs; apply _|intros _]).
  apply preserves_lift; [apply _..|]. apply preserves_modify. done.
Qed.

Lemma errs_same_attempt t r i d : errs_same (try_auth_attempt (S := S) t r i d).
Proof.
  unfold try_auth_attempt, update_root, log_auth.
  apply errs_same_bind; [apply hw_same_mt, timestamp_hw|]. intros ts.
  destruct (results_table d _) as [[[a c] s] rs].
  apply errs_same_ebind; [apply hw_same_mt, handle_leaf_update_hw|]. intros [wl nr].
  apply errs_same_ebind; [apply tree_same_mt, log_append_same|]. intros _.
  apply errs_same_update.
Qed.

Ltac errs_step :=
  lazymatch goal with
  | |- errs_same (ebind (lift (update_tree _)) _) => apply errs_same_update
  | |- errs_same (ebind _ _) => apply errs_same_ebind; [|intros ?]
  | |- errs_same (bind _ _) => apply errs_same_bind; [|intros ?]
  | |- errs_same (throw _) => apply errs_same_throw
  | |- errs_same (eret _) => apply errs_same_ret
  | |- errs_same (try_auth_attempt _ _ _ _) => apply errs_same_attempt
  | |- errs_same (let '(_, _) := ?p in _) => destruct p
  | |- errs_same (match ?x with _ => _ end) => destruct x
  | |- preserves same_mt (log_append _) => apply tree_same_mt, log_append_same
  | |- preserves same_mt load_log_data => apply load_log_same
  | |- preserves same_mt (store_merkle_tree _) => apply store_merkle_tree_same
  | |- preserves same_mt (fail_if _ _) => apply hw_same_mt, preserves_fail_if; apply _
  | |- preserves same_mt (gets _) => intros ?; done
  | |- preserves same_mt _ => apply hw_same_mt; solve [auto 2 with preserves_db]
  end.

Lemma dispatch_errs_same ty req n : errs_same (dispatch (S := S) (H := H) ty req n).
Proof.
  unfold dispatch, pw_handle_reset_tree, pw_handle_insert_leaf, pw_handle_remove_leaf,
    pw_handle_try_auth, pw_handle_reset_auth, pw_handle_get_log, pw_handle_log_replay,
    update_root, log_insert_leaf, log_remove_leaf, log_auth.
  repeat errs_step.
Qed.
End Errors.

(** ** Fields of a request *)

Lemma get_range off n l : bytes l -> 0 <= get off n l < 256 ^ Z.of_nat n.
Proof.
  intros Hl. pose proof (le_val_range (sub off n l) (bytes_sub off n l Hl)) as Hr.
  unfold get. split; [lia|]. eapply Z.lt_le_trans; [apply Hr|].
  apply Z.pow_le_mono_r; [lia|]. unfold sub. rewrite length_take. lia.
Qed.

(** The memory of a request's data and its size, as the dispatcher gets them. *)
Record request_ok (ty : Z) (req : list Z) (n : Z) : Prop := {
  req_bytes : bytes req;
  req_size_range : 0 <= n < 2 ^ 16;
  req_memory : n <= Z.of_nat (length req);
  (* the leaf holds at least its label in clear *)
  req_leaf : ty = PW.TRY_AUTH \/ ty = PW.RESET_AUTH ->
             8 <= pub_len (head (lr_leaf (leaf_request_of_bytes req)))
}.

Lemma validate_leaf_header_ok h n a :
  validate_leaf_header h n a = EC.SUCCESS ->
  major h = 0 /\ n = pub_len h + sec_len h + a * 32 /\
  (minor h <= 1 -> pub_len h + sec_len h = expected_payload_len (minor h)).
Proof.
  unfold validate_leaf_header, PW.LEAF_MAJOR_VERSION, PW.LEAF_MINOR_VERSION, PW.HASH_SIZE.
  repeat split_if; try discriminate. bool_to_Prop. intros _.
  change (Z.of_nat 32) with 32 in *. split_and!; [done|done|]. intros Hm.
  destruct E0 as [E0|E0]; bool_to_Prop; [lia|done].
Qed.

Section Fields.
Context (req : list Z) (n : Z) (t : merkle_tree_t).
Hypothesis Hbytes : bytes req.
Hypothesis Hn : sizeof_leaf_request <= n < 2 ^ 16.
Hypothesis Hmem : n <= Z.of_nat (length req).
Hypothesis Ht : tree_params_ok (bits_per_level t) (height t).
Local Abbreviation u := (lr_leaf (leaf_request_of_bytes req)).
Hypothesis Hhead : validate_leaf_header (head u) (u16 (n - sizeof_leaf_request))
                     (u16 (get_path_auxiliary_hash_count t)) = EC.SUCCESS.

Lemma leaf_lengths :
  0 <= pub_len (head u) /\ 0 <= sec_len (head u) /\
  n = 88 + pub_len (head u) + sec_len (head u) + path_len t.
Proof using Hbytes Hn Hhead Ht.
  assert (Hb' : bytes (sub 0 8 (drop 32 req))) by by apply bytes_sub, Forall_drop.
  apply validate_leaf_header_ok in Hhead as (_ & Hlen & _).
  destruct (path_len_ok t Ht) as [_ Ha]. rewrite !uN_small in Hlen.
  2, 3: unfold sizeof_leaf_request in *; cbn; lia.
  pose proof (get_range 4 2 _ Hb'). pose proof (get_range 6 2 _ Hb').
  unfold path_len, PW.HASH_SIZE, sizeof_leaf_request in *.
  split_and!; [cbn; lia|cbn; lia|lia].
Qed.

Lemma leaf_hashes_length : path_len t <= Z.of_nat (length (i_hashes (import_leaf u))).
Proof using Hbytes Hn Hhead Ht Hmem.
  destruct leaf_lengths as (Hp & Hs & Hlen).
  change (i_hashes (import_leaf u)) with
    (drop (Z.to_nat (sec_len (head u)))
       (drop (Z.to_nat (pub_len (head u))) (drop 56 (drop 32 req)))).
  rewrite !length_drop. lia.
Qed.

Lemma leaf_hmac_length : length (hmac u) = 32%nat.
Proof using Hn Hmem.
  cbn [hmac lr_leaf leaf_request_of_bytes unimported_of_bytes].
  apply length_sub. rewrite length_drop. unfold sizeof_leaf_request in *. lia.
Qed.

Lemma leaf_label_nonneg : 0 <= imported_label (import_leaf u).
Proof using Hbytes. apply get_range. by apply Forall_drop, Forall_drop. Qed.

Lemma decrypted_label {H} `{!PinweaverHw H} :
  8 <= pub_len (head u) ->
  label (pub (decrypted t (import_leaf u))) = imported_label (import_leaf u).
Proof using Hbytes Hn Hhead Ht Hmem.
  intros Hp. destruct leaf_lengths as (_ & Hs & Hlen).
  destruct (path_len_ok t Ht) as [Hpl _]. assert (0 <= path_len t) by (rewrite Hpl; apply Nat2Z.is_nonneg).
  cbn [decrypted pub pub_of_bytes label]. unfold imported_label, get, splice, sub.
  rewrite take_0, !drop_0. cbn [app]. f_equal.
  change (i_pub (import_leaf u)) with (drop 56 (drop 32 req)).
  change (i_head (import_leaf u)) with (head u).
  set (k := Nat.min _ _). assert (8 <= k)%nat by (unfold k, sizeof_pub; lia).
  rewrite take_app_le, take_take.
  - by replace (Nat.min 8 k) with 8%nat by lia.
  - rewrite length_take, !length_drop. unfold sizeof_leaf_request in *. lia.
Qed.
End Fields.

Lemma upgrade_label h d : label (pub (upgrade_leaf h d)) = label (pub d).
Proof. unfold upgrade_leaf. by destruct (_ && _)%bool. Qed.

(** ** The root always stands for a tree that changes one leaf at a time *)

Section Refinement.
Context {S H : Type} `{!NvStore S} `{!PinweaverHw H} `{!PinweaverHwLaws H}.
Implicit Types w : pw_state S H.

(** The abstract specification: what a request of type [ty] may do to a tree. *)
Inductive tree_update (ty : Z) (t : merkle_tree_t) (leaves : Z -> list Z) :
    merkle_tree_t -> (Z -> list Z) -> Prop :=
| upd_none : tree_update ty t leaves t leaves
| upd_reset t' :
    ty = PW.RESET_TREE -> tree_params_ok (bits_per_level t') (height t') ->
    tree_update ty t leaves t' (fun _ => empty_hash)
| upd_insert l hm r :
    ty = PW.INSERT_LEAF -> valid_label t l -> leaves l = empty_hash ->
    tree_update ty t leaves (set_root r t) (set_leaf l hm leaves)
| upd_remove l r :
    ty = PW.REMOVE_LEAF -> valid_label t l ->
    tree_update ty t leaves (set_root r t) (set_leaf l empty_hash leaves)
| upd_auth l m hm r :
    ty = PW.TRY_AUTH \/ ty = PW.RESET_AUTH -> valid_label t l ->
    leaves l = hmac_sha256 (hmac_key t) m ->
    tree_update ty t leaves (set_root r t) (set_leaf l hm leaves).

(** The tree in memory stands for [leaves]. *)
Definition stands_for w (leaves : Z -> list Z) : Prop :=
  well_sized leaves /\ root (pw_merkle_tree w) = root_of (pw_merkle_tree w) leaves.

Definition refines ty w w' (leaves : Z -> list Z) : Prop :=
  (exists leaves', tree_update ty (pw_merkle_tree w) leaves (pw_merkle_tree w') leaves' /\
                   stands_for w' leaves') \/
  collision (H := H).

Lemma refines_same ty w w' leaves :
  stands_for w leaves -> pw_merkle_tree w' = pw_merkle_tree w -> refines ty w w' leaves.
Proof.
  intros [Hs Hr] E. left. exists leaves. unfold stands_for. rewrite E.
  split; [constructor|done].
Qed.

Lemma gets_bind {A B} (f : pw_state S H -> A) (k : A -> ST _ B) w :
  (let* x := gets f in k x) w = k (f w) w.
Proof. done. Qed.

Lemma preserved {A} (R : pw_state S H -> pw_state S H -> Prop)
    (m : ST (pw_state S H) A) w r w' : preserves R m -> m w = (r, w') -> R w w'.
Proof. intros Hm E. specialize (Hm w). by rewrite E in Hm. Qed.

Lemma log_append_mt e w r w' :
  log_append e w = (r, w') -> pw_merkle_tree w' = pw_merkle_tree w.
Proof. intros E. by apply (preserved _ _ _ _ _ (log_append_same e)) in E as [? _]. Qed.

(** The end of a handler that logs an operation and installs the new root. *)
Lemma log_and_update e r (out : Z * list Z) w x w' :
  (log_append e ;;? update_root r ;;? eret out) w = (Ok x, w') ->
  x = out /\ pw_merkle_tree w' = set_root r (pw_merkle_tree w) /\
  exists w1, log_append e w = (Ok tt, w1).
Proof.
  intros E. apply ebind_ok_inv in E as ([] & w1 & E1 & E).
  injection E as <- <-. pose proof (log_append_mt _ _ _ _ E1) as Hm. cbn.
  rewrite Hm. eauto.
Qed.

Lemma stands_for_set w w' leaves l c r :
  well_sized leaves -> length c = 32%nat ->
  pw_merkle_tree w' = set_root r (pw_merkle_tree w) ->
  r = root_of (pw_merkle_tree w) (set_leaf l c leaves) ->
  stands_for w' (set_leaf l c leaves).
Proof.
  intros Hs Hc E Hr. split; [by apply set_leaf_well_sized|]. rewrite E. exact Hr.
Qed.

Lemma empty_hash_length : length empty_hash = 32%nat.
Proof. done. Qed.

Lemma reset_refines req n w x w' leaves :
  pw_handle_reset_tree req n w = (Ok x, w') -> refines PW.RESET_TREE w w' leaves.
Proof.
  intros E. apply ebind_ok_inv in E as (u1 & w1 & _ & E).
  apply ebind_ok_inv in E as (u2 & w2 & E2 & E).
  apply ensure_ok in E2 as [Hp ->]. apply validate_tree_parameters_ok in Hp.
  apply ebind_ok_inv in E as (t & w3 & E3 & E).
  apply ebind_ok_inv in E as (u4 & w4 & _ & E). injection E as _ <-. cbn.
  apply ebind_ok_inv in E3 as (r & w5 & E5 & E3).
  apply ebind_ok_inv in E3 as (nonce & w6 & _ & E3).
  apply bind_inv in E3 as ([rv t'] & w7 & E7 & E3).
  destruct (rv =? EC.SUCCESS) eqn:Erv; [|discriminate]. injection E3 as <- _.
  apply derive_keys_params in E7 as (Hb & Hh & Hr & _). cbn in Hb, Hh, Hr.
  left. exists (fun _ => empty_hash). split.
  - apply upd_reset; [done|]. cbn. by rewrite Hb, Hh.
  - split; [done|]. cbn. rewrite Hr. unfold root_of, tree_root. rewrite Hb, Hh.
    eapply empty_root_ok; [|exact E5]. unfold fan_out. f_equal.
    pose proof (bits_ok _ _ Hp) as Hbits. rewrite Z.shiftl_1_l. rewrite uN_small; [done|].
    split; [apply Z.pow_nonneg; lia|]. apply Z.pow_lt_mono_r; lia.
Qed.

Lemma insert_refines req n w x w' leaves :
  request_ok PW.INSERT_LEAF req n -> stands_for w leaves ->
  pw_handle_insert_leaf req n w = (Ok x, w') -> refines PW.INSERT_LEAF w w' leaves.
Proof.
  intros Hreq [Hs Hr] E. unfold pw_handle_insert_leaf in E. rewrite gets_bind in E.
  set (t := pw_merkle_tree w) in *.
  apply ebind_ok_inv in E as (u1 & w1 & E1 & E). apply fail_if_ok in E1 as [E1 ->].
  apply ebind_ok_inv in E as ([] & w2 & E2 & E).
  pose proof (preserved _ _ _ _ _ (validate_path_hw _ _ _ _) E2) as (H2 & _).
  apply validate_path_ok in E2 as (Ht & Hl & Ha).
  apply ebind_ok_inv in E as (u3 & w3 & E3 & E). apply ensure_ok in E3 as [_ ->].
  apply ebind_ok_inv in E as ([wl r] & w4 & E4 & E).
  pose proof (preserved _ _ _ _ _ (handle_leaf_update_hw _ _ _ _) E4) as (H4 & _).
  apply handle_leaf_update_ok in E4 as (iv & cipher & w5 & -> & _ & Hcr).
  apply log_and_update in E as (_ & Hw' & _). rewrite H4, H2 in Hw'.
  bool_to_Prop.
  assert (Hv : valid_label t (in_label (insert_of_bytes req))).
  { apply label_valid; [done| |done]. apply get_range, Hreq. }
  assert (Hlen : path_len t <= Z.of_nat (length (in_path_hashes (insert_of_bytes req)))).
  { pose proof (req_memory _ _ _ Hreq). cbn [in_path_hashes insert_of_bytes].
    rewrite length_drop. unfold sizeof_insert_leaf in *. lia. }
  destruct (replace_leaf t leaves _ _ _ _ _ _ _ _ _ Hv Hs empty_hash_length
              (length_hmac_sha256 _ _) Hlen Hr Ha Hcr) as [[Hl0 Hr']|?]; [|by right].
  left. eexists. split.
  - rewrite Hw'. by apply upd_insert.
  - eapply stands_for_set; [done| |exact Hw'|exact Hr']. apply length_hmac_sha256.
Qed.

Lemma remove_refines req n w x w' leaves :
  request_ok PW.REMOVE_LEAF req n -> stands_for w leaves ->
  pw_handle_remove_leaf req n w = (Ok x, w') -> refines PW.REMOVE_LEAF w w' leaves.
Proof.
  intros Hreq [Hs Hr] E. unfold pw_handle_remove_leaf in E. rewrite gets_bind in E.
  set (t := pw_merkle_tree w) in *.
  apply ebind_ok_inv in E as (u1 & w1 & E1 & E). apply fail_if_ok in E1 as [E1 ->].
  apply ebind_ok_inv in E as ([] & w2 & E2 & E).
  pose proof (preserved _ _ _ _ _ (validate_path_hw _ _ _ _) E2) as (H2 & _).
  apply validate_path_ok in E2 as (Ht & Hl & Ha).
  apply ebind_ok_inv in E as (r & w3 & Hcr & E).
  pose proof (preserved _ _ _ _ _ (compute_root_hash_hw _ _ _ _) Hcr) as (H3 & _).
  apply log_and_update in E as (_ & Hw' & _). rewrite H3, H2 in Hw'.
  bool_to_Prop. pose proof (req_memory _ _ _ Hreq) as Hmem.
  destruct (path_len_ok t Ht) as [Hpl _]. assert (0 <= path_len t) by
    (rewrite Hpl; apply Nat2Z.is_nonneg). unfold sizeof_remove_leaf in *.
  assert (Hv : valid_label t (rm_location (remove_of_bytes req))).
  { apply label_valid; [done| |done]. apply get_range, Hreq. }
  assert (Hlen : path_len t <= Z.of_nat (length (rm_path_hashes (remove_of_bytes req)))).
  { cbn [rm_path_hashes remove_of_bytes]. rewrite length_drop. lia. }
  assert (Hh : length (rm_hmac (remove_of_bytes req)) = 32%nat).
  { apply length_sub. lia. }
  destruct (replace_leaf t leaves _ _ _ _ _ _ _ _ _ Hv Hs Hh empty_hash_length
              Hlen Hr Ha Hcr) as [[Hl0 Hr']|?]; [|by right].
  left. eexists. split.
  - rewrite Hw'. by apply upd_remove.
  - by eapply stands_for_set.
Qed.

(** The leaf update of an authentication request. *)
Lemma auth_update_refines ty req n w leaves d wl r w3 w4 w' :
  ty = PW.TRY_AUTH \/ ty = PW.RESET_AUTH ->
  request_ok ty req n -> sizeof_leaf_request <= n -> stands_for w leaves ->
  leaf_accepted (S := S) (pw_merkle_tree w) (u16 (n - sizeof_leaf_request))
    (lr_leaf (leaf_request_of_bytes req)) ->
  let i := import_leaf (lr_leaf (leaf_request_of_bytes req)) in
  label (pub d) = label (pub (decrypted (pw_merkle_tree w) i)) ->
  handle_leaf_update (pw_merkle_tree w) d (i_hashes i) (Some i) w3 = (Ok (wl, r), w4) ->
  pw_merkle_tree w' = set_root r (pw_merkle_tree w) ->
  refines ty w w' leaves.
Proof.
  intros Hty Hreq Hn [Hs Hr] Hacc i Hd E Hw'. set (t := pw_merkle_tree w) in *.
  destruct Hreq as [Hbytes Hrange Hmem Hpub]. specialize (Hpub Hty).
  assert (Hn' : sizeof_leaf_request <= n < 2 ^ 16) by lia.
  destruct Hacc as [Hhead Ht Hl (w1 & w2 & Ha) Hm].
  rewrite (decrypted_label req n t Hbytes Hn' Hmem Ht Hhead Hpub) in Hd.
  apply handle_leaf_update_ok in E as (iv & cipher & w5 & -> & _ & Hcr).
  rewrite Hd in Hcr. fold i in Hl, Ha, Hcr.
  assert (Hv : valid_label t (imported_label i)).
  { apply label_valid; [done| |done]. by apply leaf_label_nonneg. }
  pose proof (leaf_hashes_length req n t Hbytes Hn' Hmem Ht Hhead) as Hlen.
  pose proof (leaf_hmac_length req n Hn' Hmem) as Hh.
  destruct (replace_leaf t leaves _ _ _ _ _ _ _ _ _ Hv Hs Hh (length_hmac_sha256 _ _)
              Hlen Hr Ha Hcr) as [[Hl0 Hr']|?]; [|by right].
  left. eexists. split.
  - rewrite Hw'. eapply upd_auth; [done|done|]. rewrite <-Hl0. exact Hm.
  - eapply stands_for_set; [done| |exact Hw'|exact Hr']. apply length_hmac_sha256.
Qed.

(** The leaf after an attempt. *)
Definition attempted (attempts : Z) (ts : pw_timestamp_t) (d : leaf_data_t) : leaf_data_t :=
  set_pub (fun p => set_attempt_count attempts (set_timestamp ts p)) d.

Lemma try_auth_attempt_ok t req i d w x w' :
  try_auth_attempt t req i d w = (Ok x, w') ->
  exists ts attempts code secret rs wl r w1 w2 w3,
    current_timestamp w = (ts, w1) /\
    results_table d (mem_eq (lr_secret req) (low_entropy_secret (sec d))) =
      (attempts, code, secret, rs) /\
    handle_leaf_update t (attempted attempts ts d) (i_hashes i) (Some i) w1 =
      (Ok (wl, r), w2) /\
    log_auth (label (w_pub wl)) r code ts w2 = (Ok tt, w3) /\
    x = (code, try_auth_response 0 secret rs (wrapped_bytes wl)) /\
    pw_merkle_tree w' = set_root r (pw_merkle_tree w) /\ store w' = store w3 /\
    store w2 = store w.
Proof.
  intros E. apply bind_inv in E as (ts & w1 & E1 & E).
  pose proof (preserved _ _ _ _ _ timestamp_hw E1) as (H1 & _ & S1).
  cbv zeta in E. destruct (results_table _ _) as [[[a c] s] rs] eqn:Er.
  apply ebind_ok_inv in E as ([wl r] & w2 & E2 & E).
  pose proof (preserved _ _ _ _ _ (handle_leaf_update_hw _ _ _ _) E2) as (H2 & _ & S2).
  apply ebind_ok_inv in E as ([] & w3 & E3 & E).
  pose proof (log_append_mt _ _ _ _ E3) as H3.
  injection E as <- <-. exists ts, a, c, s, rs, wl, r, w1, w2, w3.
  split_and!; try done; [cbn|]; congruence.
Qed.

Lemma try_auth_refines req n w x w' leaves :
  request_ok PW.TRY_AUTH req n -> stands_for w leaves ->
  pw_handle_try_auth req n w = (Ok x, w') -> refines PW.TRY_AUTH w w' leaves.
Proof.
  intros Hreq Hst E. unfold pw_handle_try_auth in E. rewrite gets_bind in E.
  apply ebind_ok_inv in E as (u1 & w1 & E1 & E). apply fail_if_ok in E1 as [E1 ->].
  apply ebind_ok_inv in E as ([i d] & w2 & E2 & E).
  pose proof (preserved _ _ _ _ _ (validate_leaf_hw _ _ _) E2) as (H2 & _).
  apply validate_leaf_ok in E2 as (Hacc & -> & ->).
  apply ebind_ok_inv in E as (u3 & w3 & E3 & E).
  pose proof (preserved _ _ _ _ _ (pcr_hw _) E3) as (H3 & _).
  apply bind_inv in E as ([rv wait] & w4 & E4 & E).
  pose proof (preserved _ _ _ _ _ (rate_limit_hw _) E4) as (H4 & _).
  destruct (rv =? EC.SUCCESS); cbn [negb] in E.
  2:{ injection E as _ <-. apply refines_same; [done|congruence]. }
  apply try_auth_attempt_ok in E as (ts & a & c & s & rs & wl & r & w5 & w6 & w7 &
    _ & _ & E6 & _ & _ & Hw' & _). rewrite H4, H3, H2 in Hw'. bool_to_Prop.
  eapply auth_update_refines; [by left|done|done|done|exact Hacc| |exact E6|done].
  apply upgrade_label.
Qed.

Lemma reset_auth_refines req n w x w' leaves :
  request_ok PW.RESET_AUTH req n -> stands_for w leaves ->
  pw_handle_reset_auth req n w = (Ok x, w') -> refines PW.RESET_AUTH w w' leaves.
Proof.
  intros Hreq Hst E. unfold pw_handle_reset_auth in E. rewrite gets_bind in E.
  apply ebind_ok_inv in E as (u1 & w1 & E1 & E). apply fail_if_ok in E1 as [E1 ->].
  apply ebind_ok_inv in E as ([i d] & w2 & E2 & E).
  pose proof (preserved _ _ _ _ _ (validate_leaf_hw _ _ _) E2) as (H2 & _).
  apply validate_leaf_ok in E2 as (Hacc & -> & ->).
  apply ebind_ok_inv in E as (u3 & w3 & E3 & E). apply fail_if_ok in E3 as [_ ->].
  apply ebind_ok_inv in E as ([wl r] & w6 & E6 & E).
  pose proof (preserved _ _ _ _ _ (handle_leaf_update_hw _ _ _ _) E6) as (H6 & _).
  apply log_and_update in E as (_ & Hw' & _). rewrite H6, H2 in Hw'.
  bool_to_Prop. eapply auth_update_refines; [by right|done|done|done|exact Hacc| |exact E6|done].
  apply upgrade_label.
Qed.

Lemma get_log_mt req n w x w' :
  pw_handle_get_log req n w = (Ok x, w') -> pw_merkle_tree w' = pw_merkle_tree w.
Proof.
  intros E. unfold pw_handle_get_log in E. rewrite gets_bind in E.
  apply ebind_ok_inv in E as (u1 & w1 & E1 & E). apply fail_if_ok in E1 as [_ ->].
  apply ebind_ok_inv in E as (u2 & w2 & E2 & E). apply ensure_ok in E2 as [_ ->].
  apply ebind_ok_inv in E as (g & w3 & E3 & E). apply load_log_inv in E3 as [-> _].
  destruct (_ <? 0); by injection E as _ <-.
Qed.

Lemma log_replay_mt req n w x w' :
  pw_handle_log_replay req n w = (Ok x, w') -> pw_merkle_tree w' = pw_merkle_tree w.
Proof.
  intros E. cut (preserves same_mt (pw_handle_log_replay (S := S) (H := H) req n)).
  { intros Hp. by apply (preserved _ _ _ _ _ Hp) in E. }
  clear E. unfold pw_handle_log_replay.
  assert (forall A (m : ST (pw_state S H) A), preserves hw_only m -> preserves same_mt m)
    by (intros; by apply hw_same_mt).
  assert (preserves same_mt (load_log_data (S := S) (H := H))) by apply load_log_same.
  refine (preserves_bind _ _ _ _ _); [by intros ?|intros t].
  refine (preserves_ebind _ _ _ _ _); [auto 3 using preserves_fail_if with typeclass_instances|intros _].
  preserves_tac; auto 4 with preserves_db.
Qed.

(** C4. Whatever requests the host sends, the root of the chip remains the root of a
    tree that evolves as an abstract tree does: a reset empties it, an insertion
    fills an empty place, a removal empties a place, an authentication replaces a
    leaf whose HMAC was made with the key of the chip, and every error and every
    other request leaves it alone.  The only alternative is that the host has found
    two messages with one SHA-256 digest. *)
Theorem requests_refine_tree ty req n w r w' leaves :
  request_ok ty req n -> stands_for w leaves ->
  dispatch ty req n w = (r, w') -> refines ty w w' leaves.
Proof.
  intros Hreq Hst E. destruct r as [x|c].
  2:{ apply dispatch_errs_same in E. by apply refines_same. }
  unfold dispatch in E.
  repeat match type of E with
  | (if ?ty =? ?k then _ else _) _ = _ =>
      destruct (Z.eqb_spec ty k) as [->|?]
  end.
  - by eapply reset_refines.
  - by eapply insert_refines.
  - by eapply remove_refines.
  - by eapply try_auth_refines.
  - by eapply reset_auth_refines.
  - apply get_log_mt in E. by apply refines_same.
  - apply log_replay_mt in E. by apply refines_same.
  - discriminate.
Qed.
End Refinement.

(** ** What the HMAC of a leaf covers *)

(** The leaf with another initialisation vector. *)
Definition set_iv (v : list Z) (u : unimported_leaf_data_t) : unimported_leaf_data_t :=
  mkUnimported (head u) (hmac u) v (payload u).

(** The HMAC covers only the first four bytes of the initialisation vector: an
    accepted leaf whose other twelve bytes were changed is accepted as well, and its
    secrets are those the cipher makes of the same cipher text with the changed
    vector. *)
Theorem iv_tail_not_authenticated {S H} `{!NvStore S} `{!PinweaverHw H}
    `{!PinweaverHwLaws H} (t : merkle_tree_t) n u v :
  take 4 v = take 4 (iv u) -> leaf_accepted (S := S) (H := H) t n u ->
  leaf_accepted (S := S) (H := H) t n (set_iv v u) /\
  sec (decrypted t (import_leaf (set_iv v u))) =
    sec_of_bytes (aes_ctr (wrap_key t) v
                    (take sizeof_sec (i_cipher_text (import_leaf u)))).
Proof.
  intros Hv [Hh Ht Hl Hp Hm]. split; [|done].
  split; [exact Hh|exact Ht|exact Hl|exact Hp|].
  cbn [hmac set_iv]. rewrite Hm. f_equal. unfold hmac_input, hmac_iv_len.
  cbn [import_leaf i_head i_iv i_pub i_cipher_text set_iv head iv payload]. by rewrite Hv.
Qed.

(** ** A concrete request *)

Lemma toy_tree_stands : stands_for toy_tree no_leaves.
Proof. split; [done|]. vm_compute. reflexivity. Qed.

Lemma toy_insert_ok : request_ok PW.INSERT_LEAF toy_insert 364.
Proof.
  split; [|lia|vm_compute; discriminate|intros [H|H]; discriminate H].
  apply (bool_decide_unpack (bytes toy_insert)). vm_compute. exact I.
Qed.

Example requests_refine_tree_witness :
  toy_inserted.1 = Ok (EC.SUCCESS, toy_leaf) /\
  refines PW.INSERT_LEAF toy_tree toy_inserted.2 no_leaves.
Proof.
  split; [apply toy_run|].
  refine (requests_refine_tree PW.INSERT_LEAF toy_insert 364 toy_tree toy_inserted.1
            toy_inserted.2 no_leaves toy_insert_ok toy_tree_stands _).
  vm_compute. reflexivity.
Defined.

(** The inserted leaf, with the last twelve bytes of its vector flipped. *)
Example iv_tail_not_authenticated_witness :
  exists i d, (validate_request_with_wrapped_leaf (pw_merkle_tree toy_inserted.2) 380
     (lr_leaf (leaf_request_of_bytes (toy_request (replicate 32 11)))) toy_inserted.2).1 =
    Ok (i, d) /\
  leaf_accepted (S := ram_store) (H := toy) (pw_merkle_tree toy_inserted.2) 380
    (set_iv (take 4 (iv (lr_leaf (leaf_request_of_bytes (toy_request (replicate 32 11)))))
             ++ replicate 12 255)
       (lr_leaf (leaf_request_of_bytes (toy_request (replicate 32 11))))).
Proof.
  set (u := lr_leaf (leaf_request_of_bytes (toy_request (replicate 32 11)))).
  set (t := pw_merkle_tree toy_inserted.2).
  assert (Hok : match (validate_request_with_wrapped_leaf t 380 u toy_inserted.2).1 with
                | Ok _ => True | Err _ => False end) by (vm_compute; exact I).
  destruct (validate_request_with_wrapped_leaf t 380 u toy_inserted.2)
    as [[[i d]|c] w'] eqn:E; [|destruct Hok].
  exists i, d. split; [reflexivity|]. apply validate_leaf_ok in E as [Hacc _].
  apply (iv_tail_not_authenticated t 380 u); [|exact Hacc].
  vm_compute. reflexivity.
Defined.
