(* ===== verification/PwAuth.v ===== *)
(** * PinWeaver: authentication

    What the delay schedule means, when an attempt is let through, and what the
    answers to try_auth and reset_auth requests reveal. *)

From S2P Require Import Prelude NvStore Vendor PwTypes Pinweaver PwTree PwToy PwRequest.

(** ** The delay schedule *)

(** The delay the schedule asks for after [attempts] failures: that of the last entry
    whose threshold is reached. *)
Definition reach (attempts d : Z) (e : delay_schedule_entry_t) : Z :=
  if negb (sched_attempt_count e =? 0) && (sched_attempt_count e <=? attempts)
  then time_diff e else d.

Definition spec_delay (attempts : Z) (s : list delay_schedule_entry_t) : Z :=
  fold_left (reach attempts) s 0.

Definition null_entry (e : delay_schedule_entry_t) : Prop :=
  sched_attempt_count e = 0 /\ time_diff e = 0.

(** Strictly increasing columns, with null entries only at the end. *)
Inductive sched_sorted : list delay_schedule_entry_t -> Prop :=
| sorted_nulls s : Forall null_entry s -> sched_sorted s
| sorted_one e s :
    sched_attempt_count e <> 0 -> Forall null_entry s -> sched_sorted (e :: s)
| sorted_cons e e' s :
    sched_attempt_count e <> 0 -> sched_attempt_count e < sched_attempt_count e' ->
    time_diff e < time_diff e' -> sched_sorted (e' :: s) -> sched_sorted (e :: e' :: s).

Lemma sched_loop_spec prev l :
  sched_loop prev l = true <->
  forall x e e', (prev :: l) !! x = Some e -> (prev :: l) !! (S x) = Some e' ->
  null_entry e' \/
  sched_attempt_count e' <> 0 /\ sched_attempt_count e < sched_attempt_count e' /\
  time_diff e < time_diff e'.
Proof.
  assert (Hstep : forall a b, sched_step_ok a b = true <->
    null_entry b \/ sched_attempt_count b <> 0 /\
      sched_attempt_count a < sched_attempt_count b /\ time_diff a < time_diff b).
  { intros a b. unfold sched_step_ok, null_entry.
    destruct (Z.eqb_spec (sched_attempt_count b) 0).
    - rewrite Z.eqb_eq. tauto.
    - rewrite negb_true_iff, orb_false_iff, !Z.leb_gt. tauto. }
  revert prev. induction l as [|e l IH]; intros prev; cbn [sched_loop].
  - split; [|done]. intros _ x a b Ha Hb. by destruct x.
  - rewrite andb_true_iff, IH, Hstep. split.
    + intros [H1 H2] [|x] a b Ha Hb; [by simplify_eq/=|by eapply (H1 x)].
    + intros H1. split; [|by apply (H1 0%nat)].
      intros x a b Ha Hb. by apply (H1 (S x)).
Qed.

(** [validate_delay_schedule] accepts a schedule exactly when its first entry has a
    delay and every later entry is null or exceeds the entry before it in both
    columns. *)
Theorem validate_delay_schedule_spec e l :
  validate_delay_schedule (e :: l) = EC.SUCCESS <->
  time_diff e <> 0 /\
  forall x a b, (e :: l) !! x = Some a -> (e :: l) !! (S x) = Some b ->
  null_entry b \/
  sched_attempt_count b <> 0 /\ sched_attempt_count a < sched_attempt_count b /\
  time_diff a < time_diff b.
Proof.
  rewrite <-sched_loop_spec. unfold validate_delay_schedule.
  destruct (Z.eqb_spec (time_diff e) 0) as [He|He]; [split; [discriminate|tauto]|].
  destruct (sched_loop e l); split; try discriminate; try tauto.
  intros [_ ?]. discriminate.
Qed.

Lemma reach_not n d e : n < sched_attempt_count e -> reach n d e = d.
Proof.
  intros. unfold reach. rewrite (proj2 (Z.leb_gt _ n)) by lia. by rewrite andb_false_r.
Qed.

Lemma spec_delay_nulls n d s : Forall null_entry s -> fold_left (reach n) s d = d.
Proof.
  intros Hs. revert d. induction Hs as [|e s [He _] _ IH]; intros d; [done|].
  cbn [fold_left]. rewrite IH. unfold reach. by rewrite He.
Qed.

(** Past an entry that is not reached no later one is. *)
Lemma spec_delay_unreached n d e s :
  sched_sorted (e :: s) -> n < sched_attempt_count e -> fold_left (reach n) (e :: s) d = d.
Proof.
  intros Hs. remember (e :: s) as l eqn:El. revert e s El d.
  induction Hs as [l Hl|e1 l He Hl|e1 e2 l He Hlt _ Hs IH]; intros e s El d Hn.
  - by apply spec_delay_nulls.
  - injection El as -> ->. cbn [fold_left]. rewrite reach_not by done.
    by apply spec_delay_nulls.
  - injection El as -> <-. cbn [fold_left]. rewrite (reach_not n d e) by done.
    apply (IH _ _ eq_refl). lia.
Qed.

Lemma schedule_delay_cons n e s d :
  match sched_index n (e :: s) with
  | O => d | S x => time_diff (nth x (e :: s) (mkSched 0 0))
  end =
  if (sched_attempt_count e =? 0) || (n <? sched_attempt_count e) then d
  else match sched_index n s with
       | O => time_diff e | S x => time_diff (nth x s (mkSched 0 0))
       end.
Proof.
  cbn [sched_index]. destruct (sched_attempt_count e =? 0); [done|].
  destruct (n <? sched_attempt_count e); [done|]. by destruct (sched_index n s).
Qed.

Lemma reach_cons n e d :
  sched_attempt_count e <> 0 ->
  reach n d e = if n <? sched_attempt_count e then d else time_diff e.
Proof.
  intros He. unfold reach. rewrite (proj2 (Z.eqb_neq _ 0)), Z.ltb_antisym by done.
  by destruct (_ <=? _).
Qed.

Lemma sched_index_nulls n s : Forall null_entry s -> sched_index n s = 0%nat.
Proof. intros [|e s' [He _] _]; [done|]. cbn [sched_index]. by rewrite He. Qed.

(** On a sorted schedule the delay that [test_rate_limit] picks is the one of the
    last entry whose threshold is reached. *)
Theorem schedule_delay_spec n s :
  sched_sorted s -> schedule_delay n s = spec_delay n s.
Proof.
  intros Hs. unfold schedule_delay, spec_delay.
  enough (forall d, match sched_index n s with
                    | O => d | S x => time_diff (nth x s (mkSched 0 0))
                    end = fold_left (reach n) s d) as Hd by apply Hd.
  induction Hs as [s Hs|e s He Hs|e e' s He Hlt Ht Hs IH]; intros d.
  - by rewrite spec_delay_nulls, sched_index_nulls.
  - rewrite schedule_delay_cons, sched_index_nulls by done. cbn [fold_left].
    rewrite spec_delay_nulls, reach_cons by done.
    by rewrite (proj2 (Z.eqb_neq _ 0)).
  - rewrite schedule_delay_cons. rewrite (proj2 (Z.eqb_neq _ 0)) by done.
    change (fold_left (reach n) (e :: e' :: s) d)
      with (fold_left (reach n) (e' :: s) (reach n d e)).
    rewrite reach_cons by done. cbn [orb].
    destruct (Z.ltb_spec n (sched_attempt_count e)); [|apply IH].
    symmetry. apply spec_delay_unreached; [done|lia].
Qed.

(** [validate_delay_schedule] accepts schedules that [test_rate_limit] does not
    apply: a null entry in the middle hides the entries behind it, and a first entry
    whose threshold is zero hides the whole schedule. *)
Theorem accepted_schedule_ignored n a d tl :
  Forall null_entry tl ->
  let gap := [mkSched a d; mkSched 0 0; mkSched 1 PW.BLOCK_ATTEMPTS] ++ tl in
  let first := [mkSched 0 PW.BLOCK_ATTEMPTS] ++ tl in
  d <> 0 -> a <> 0 -> 0 <= a <= n ->
  validate_delay_schedule gap = EC.SUCCESS /\ schedule_delay n gap = d /\
  validate_delay_schedule first = EC.SUCCESS /\ schedule_delay n first = 0.
Proof.
  intros Htl gap first Hd Ha Hn. unfold gap, first. cbn [app].
  assert (Hnull : forall x e, tl !! x = Some e -> null_entry e).
  { intros x e He. by eapply Forall_lookup_1 in Htl. }
  split_and!.
  - apply validate_delay_schedule_spec. split; [done|].
    intros [|[|[|x]]] e e' E E'; simplify_eq/=.
    + by left.
    + right. cbn. unfold PW.BLOCK_ATTEMPTS, UINT32_MAX. lia.
    + left. exact (Hnull 0%nat _ E').
    + left. exact (Hnull (S x) _ E').
  - unfold schedule_delay. cbn. rewrite (proj2 (Z.eqb_neq _ 0)) by done.
    by rewrite (proj2 (Z.ltb_ge _ _)) by lia.
  - apply validate_delay_schedule_spec. split; [done|].
    intros [|x] e e' _ E'; left; [exact (Hnull 0%nat _ E')|exact (Hnull (S x) _ E')].
  - done.
Qed.

(** ** The rate limit *)

Section Auth.
Context {S H : Type} `{!NvStore S} `{!PinweaverHw H} `{!PinweaverHwLaws H}.
Implicit Types w : pw_state S H.

(** The time from which the next attempt is allowed. *)
Definition ready_time (p : leaf_public_data_t) (now : pw_timestamp_t) : Z :=
  let delay := schedule_delay (attempt_count p) (delay_schedule p) in
  if boot_count (timestamp p) =? boot_count now
  then u64 (delay + timer_value (timestamp p)) else delay.

(** An attempt may be made at [now]. *)
Definition rate_allows (p : leaf_public_data_t) (now : pw_timestamp_t) : Prop :=
  let delay := schedule_delay (attempt_count p) (delay_schedule p) in
  delay = 0 \/ delay <> PW.BLOCK_ATTEMPTS /\ ready_time p now <= timer_value now.

(** The time stamp the chip would make in state [w]. *)
Definition stamp_of w : pw_timestamp_t := (current_timestamp w).1.

Lemma test_rate_limit_code d w rv wait w' :
  test_rate_limit d w = ((rv, wait), w') ->
  rv = EC.SUCCESS \/ rv = PW.ERR_RATE_LIMIT_REACHED.
Proof.
  unfold test_rate_limit. repeat split_if; [by intros [= <- _ _]; left|
    by intros [= <- _ _]; right|].
  intros E2. apply bind_inv in E2 as (now & w1 & _ & E2).
  destruct (_ <=? _) in E2; injection E2 as <- _ _; auto.
Qed.

(** [test_rate_limit] lets an attempt through exactly when the delay of the
    schedule has passed since the last one, or since boot when the chip has rebooted
    in between; otherwise it reports how long to wait, and an attempt made that many
    seconds later in the same boot is let through. *)
Theorem test_rate_limit_spec d w rv wait w' :
  test_rate_limit d w = ((rv, wait), w') ->
  (rv = EC.SUCCESS /\ rate_allows (pub d) (stamp_of w)) \/
  (rv = PW.ERR_RATE_LIMIT_REACHED /\ ~ rate_allows (pub d) (stamp_of w) /\
   (schedule_delay (attempt_count (pub d)) (delay_schedule (pub d)) = PW.BLOCK_ATTEMPTS /\
    wait = PW.BLOCK_ATTEMPTS \/
    (ready_time (pub d) (stamp_of w) - timer_value (stamp_of w) < 2 ^ 32 ->
     rate_allows (pub d) (mkStamp (boot_count (stamp_of w))
                            (timer_value (stamp_of w) + wait))))).
Proof.
  unfold test_rate_limit, rate_allows. unfold stamp_of.
  set (delay := schedule_delay _ _).
  destruct (Z.eqb_spec delay 0) as [Hd|Hd]; [intros [= <- <-]; by left; auto|].
  destruct (Z.eqb_spec delay PW.BLOCK_ATTEMPTS) as [Hb|Hb].
  { intros [= <- <-]. right. split_and!; [done| |by left]. intros [?|[? _]]; done. }
  intros E. apply bind_inv in E as (now & w1 & -> & E). cbn [fst].
  change (if boot_count (timestamp (pub d)) =? boot_count now then _ else delay)
    with (ready_time (pub d) now) in E.
  destruct (Z.leb_spec (ready_time (pub d) now) (timer_value now)) as [Hle|Hgt];
    injection E as <- <- <-; [left; auto|right].
  split_and!; [done|intros [?|[_ ?]]; [done|lia]|]. right. intros Hlt. right.
  split; [done|]. rewrite uN_small by lia.
  assert (forall x, ready_time (pub d) (mkStamp (boot_count now) x) = ready_time (pub d) now)
    as -> by done. cbn. lia.
Qed.

(** ** PCR criteria *)

(** The PCRs of the device had a value that satisfies one of the criteria. *)
Definition pcr_satisfied (cs : list valid_pcr_value_t) : Prop :=
  match cs with
  | c :: _ => null_criterion c = true
  | [] => False
  end \/
  exists c h h', c ∈ cs /\ null_criterion c = false /\
    get_current_pcr_digest (bitmask c) h = (Some (digest c), h' : H).

Lemma pcr_loop_ok k cs w u w' :
  pcr_loop (Datatypes.S k) cs w = (Ok u, w') ->
  exists c h h', c ∈ cs /\ null_criterion c = false /\
    get_current_pcr_digest (bitmask c) h = (Some (digest c), h' : H).
Proof.
  revert k w. induction cs as [|c cs IH]; intros k w E; cbn [pcr_loop] in E;
    [discriminate|].
  destruct (null_criterion c) eqn:Hc; [discriminate|].
  apply bind_inv in E as (r & w1 & E1 & E). unfold on_hw in E1.
  destruct (get_current_pcr_digest (bitmask c) (hw w)) as [r' h'] eqn:Eg.
  injection E1 as -> <-. destruct r as [dg|]; [|discriminate].
  destruct (mem_eq dg (digest c)) eqn:Em.
  - bool_to_Prop. subst. exists c, (hw w), h'. split_and!; [by left|done|done].
  - apply IH in E as (c' & h1 & h2 & Hin & ? & ?). exists c', h1, h2.
    split_and!; [by right|done|done].
Qed.

Lemma validate_pcr_ok cs w u w' :
  validate_pcr_value cs w = (Ok u, w') -> pcr_satisfied cs.
Proof.
  unfold validate_pcr_value. destruct cs as [|c cs]; intros E; cbn [pcr_loop] in E;
    [discriminate|].
  destruct (null_criterion c) eqn:Hc; [by left|]. right.
  apply bind_inv in E as (r & w1 & E1 & E). unfold on_hw in E1.
  destruct (get_current_pcr_digest (bitmask c) (hw w)) as [r' h'] eqn:Eg.
  injection E1 as -> <-. destruct r as [dg|]; [|discriminate].
  destruct (mem_eq dg (digest c)) eqn:Em.
  - bool_to_Prop. subst. exists c, (hw w), h'. split_and!; [by left|done|done].
  - apply pcr_loop_ok in E as (c' & h1 & h2 & Hin & ? & ?). exists c', h1, h2.
    split_and!; [by right|done|done].
Qed.

(** ** try_auth *)

(** The leaf a try_auth or reset_auth request presents. *)
Definition presented w (req : list Z) : leaf_data_t :=
  let u := lr_leaf (leaf_request_of_bytes req) in
  upgrade_leaf (head u) (decrypted (pw_merkle_tree w) (import_leaf u)).

(** What has been checked when a try_auth request gets as far as its rate limit. *)
Definition presented_ok w (req : list Z) (n : Z) : Prop :=
  leaf_accepted (S := S) (pw_merkle_tree w) (u16 (n - sizeof_leaf_request))
    (lr_leaf (leaf_request_of_bytes req)) /\
  pcr_satisfied (valid_pcr_criteria (pub (presented w req))).

Lemma try_auth_cases req n w x w' :
  pw_handle_try_auth req n w = (Ok x, w') ->
  presented_ok w req n /\
  exists w1 rv wait w2, hw_only w w1 /\ hw_only w w2 /\
    test_rate_limit (presented w req) w1 = ((rv, wait), w2) /\
    if rv =? EC.SUCCESS
    then try_auth_attempt (pw_merkle_tree w) (leaf_request_of_bytes req)
           (import_leaf (lr_leaf (leaf_request_of_bytes req))) (presented w req) w2 =
         (Ok x, w')
    else w' = w2 /\ x = (rv, try_auth_response wait (zeros 32) (zeros 32)
                               (zeros (Z.to_nat sizeof_wrapped))).
Proof.
  intros E. unfold pw_handle_try_auth in E. rewrite gets_bind in E.
  apply ebind_ok_inv in E as (u1 & w1 & E1 & E). apply fail_if_ok in E1 as [_ ->].
  apply ebind_ok_inv in E as ([i d] & w2 & E2 & E).
  pose proof (preserved _ _ _ _ _ (validate_leaf_hw _ _ _) E2) as H2.
  apply validate_leaf_ok in E2 as (Hacc & -> & ->). fold (presented w req) in E.
  apply ebind_ok_inv in E as (u3 & w3 & E3 & E).
  pose proof (preserved _ _ _ _ _ (pcr_hw _) E3) as H3. apply validate_pcr_ok in E3.
  apply bind_inv in E as ([rv wait] & w4 & E4 & E).
  pose proof (preserved _ _ _ _ _ (rate_limit_hw _) E4) as H4.
  split; [done|]. exists w3, rv, wait, w4.
  split_and!; [by etrans|by do 2 (etrans; [eassumption|])|done|].
  destruct (rv =? EC.SUCCESS); [exact E|]. cbn [negb] in E. by injection E as <- <-.
Qed.

Lemma reply_ok (m : EST (pw_state S H) (Z * list Z)) w code out w' :
  reply m w = ((code, out), w') ->
  (m w = (Ok (code, out), w')) \/ (m w = (Err code, w') /\ out = []).
Proof.
  intros E. apply bind_inv in E as (r & w1 & E1 & E). destruct r as [x|c];
    injection E; intros; subst; auto.
Qed.

(** What an answer to try_auth holds, and when. *)
Inductive try_auth_answer w (req : list Z) (n : Z) (w' : pw_state S H) : Z -> list Z -> Prop :=
| answer_success w1 leaf :
    presented_ok w req n -> hw_only w w1 ->
    rate_allows (pub (presented w req)) (stamp_of w1) ->
    lr_secret (leaf_request_of_bytes req) = low_entropy_secret (sec (presented w req)) ->
    attempt_count (w_pub leaf) = 0 ->
    try_auth_answer w req n w' EC.SUCCESS
      (try_auth_response 0 (high_entropy_secret (sec (presented w req)))
         (reset_secret (sec (presented w req))) (wrapped_bytes leaf))
| answer_wrong_secret w1 leaf :
    presented_ok w req n -> hw_only w w1 ->
    rate_allows (pub (presented w req)) (stamp_of w1) ->
    lr_secret (leaf_request_of_bytes req) <> low_entropy_secret (sec (presented w req)) ->
    attempt_count (w_pub leaf) = next_attempts (attempt_count (pub (presented w req))) ->
    try_auth_answer w req n w' PW.ERR_LOWENT_AUTH_FAILED
      (try_auth_response 0 (zeros 32) (zeros 32) (wrapped_bytes leaf))
| answer_wait w1 wait :
    presented_ok w req n -> hw_only w w1 -> hw_only w w' ->
    ~ rate_allows (pub (presented w req)) (stamp_of w1) ->
    try_auth_answer w req n w' PW.ERR_RATE_LIMIT_REACHED
      (try_auth_response wait (zeros 32) (zeros 32) (zeros (Z.to_nat sizeof_wrapped)))
| answer_error code :
    pw_merkle_tree w' = pw_merkle_tree w -> try_auth_answer w req n w' code [].

(** C3. A try_auth request gets the secrets of a leaf only when the leaf has the HMAC of
    the chip and lies on an authenticated path, the PCRs satisfy one of its criteria,
    the delay schedule allows an attempt, and the low-entropy secret is the right one;
    its counter of attempts is then cleared.  With a wrong secret the counter goes up
    and the answer holds zeros, and while the rate limit holds the state does not
    change. *)
Theorem try_auth_releases req n w code out w' :
  reply (pw_handle_try_auth req n) w = ((code, out), w') ->
  try_auth_answer w req n w' code out.
Proof.
  intros E. apply reply_ok in E as [E|[E ->]].
  2:{ apply answer_error.
      by apply (dispatch_errs_same PW.TRY_AUTH req n w code w'). }
  apply try_auth_cases in E as (Hp & w1 & rv & wait & w2 & H1 & H2 & Er & E).
  apply test_rate_limit_spec in Er as [[-> Hr]|(-> & Hr & _)].
  - apply try_auth_attempt_ok in E as (ts & a & c & s & rs & wl & r & w3 & w4 & w5 &
      _ & Et & Eu & _ & Ex & _). injection Ex as -> ->.
    apply handle_leaf_update_ok in Eu as (iv & ct & w6 & -> & _ & _).
    unfold results_table in Et. destruct (mem_eq _ _) eqn:Em;
      injection Et as <- <- <- <-; bool_to_Prop.
    + by eapply (answer_success _ _ _ _ w1).
    + by eapply (answer_wrong_secret _ _ _ _ w1).
  - destruct E as [-> Ex]. injection Ex as -> ->. by eapply (answer_wait _ _ _ _ w1).
Qed.

(** A reset_auth request gets the high-entropy secret of an authenticated leaf only
    with its reset secret, and the leaf it returns has no failed attempts and the other
    public data it had. *)
Theorem reset_auth_releases req n w code out w' :
  reply (pw_handle_reset_auth req n) w = ((code, out), w') ->
  (out = [] /\ pw_merkle_tree w' = pw_merkle_tree w) \/
  exists leaf, code = EC.SUCCESS /\
    leaf_accepted (S := S) (pw_merkle_tree w) (u16 (n - sizeof_leaf_request))
      (lr_leaf (leaf_request_of_bytes req)) /\
    lr_secret (leaf_request_of_bytes req) = reset_secret (sec (presented w req)) /\
    out = high_entropy_secret (sec (presented w req)) ++ wrapped_bytes leaf /\
    w_pub leaf = set_attempt_count 0 (pub (presented w req)).
Proof.
  intros E. apply reply_ok in E as [E|[E ->]]; [right|left].
  2:{ split; [done|]. by apply (dispatch_errs_same PW.RESET_AUTH req n w code w'). }
  unfold pw_handle_reset_auth in E. rewrite gets_bind in E.
  apply ebind_ok_inv in E as (u1 & w1 & E1 & E). apply fail_if_ok in E1 as [_ ->].
  apply ebind_ok_inv in E as ([i d] & w2 & E2 & E).
  apply validate_leaf_ok in E2 as (Hacc & -> & ->). fold (presented w req) in E.
  apply ebind_ok_inv in E as (u3 & w3 & E3 & E). apply fail_if_ok in E3 as [Em ->].
  apply ebind_ok_inv in E as ([wl r] & w6 & E6 & E).
  apply handle_leaf_update_ok in E6 as (iv & ct & w7 & -> & _ & _).
  apply log_and_update in E as (Ex & _ & _). injection Ex as -> ->. bool_to_Prop.
  eexists. split_and!; try done.
Qed.
End Auth.

(** ** Concrete runs *)

Lemma toy_schedule_sorted : sched_sorted toy_schedule.
Proof.
  apply sorted_cons; [done|done|done|]. apply sorted_one; [done|].
  repeat constructor.
Qed.

Example schedule_delay_spec_witness :
  schedule_delay 7 toy_schedule = 10 /\ spec_delay 7 toy_schedule = 10.
Proof.
  rewrite <-(schedule_delay_spec 7 toy_schedule toy_schedule_sorted).
  split; vm_compute; reflexivity.
Defined.

Example accepted_schedule_ignored_witness :
  schedule_delay 100 [mkSched 5 10; mkSched 0 0; mkSched 1 PW.BLOCK_ATTEMPTS] = 10 /\
  schedule_delay 100 [mkSched 0 PW.BLOCK_ATTEMPTS] = 0.
Proof.
  assert (H10 : 10 <> 0) by discriminate. assert (H5 : 5 <> 0) by discriminate.
  assert (H : 0 <= 5 <= 100) by lia.
  destruct (accepted_schedule_ignored 100 5 10 [] (List.Forall_nil _) H10 H5 H)
    as (_ & H1 & _ & H2). exact (conj H1 H2).
Defined.

(** A leaf with five failures, the last one at second 95; the clock stands at 100. *)
Definition toy_locked : leaf_data_t :=
  mkLeaf (mkPub 2 toy_schedule (mkStamp 0 95) 5 (replicate 2 zero_pcr)) toy_sec.

Example test_rate_limit_spec_witness :
  (test_rate_limit toy_locked toy_tree).1 = (PW.ERR_RATE_LIMIT_REACHED, 5) /\
  rate_allows (pub toy_locked) (mkStamp 0 105).
Proof.
  split; [vm_compute; reflexivity|].
  assert (E : test_rate_limit toy_locked toy_tree =
    ((PW.ERR_RATE_LIMIT_REACHED, 5), (test_rate_limit toy_locked toy_tree).2))
    by (vm_compute; reflexivity).
  apply test_rate_limit_spec in E as [[E _]|(_ & _ & [[E _]|E])].
  - discriminate E.
  - vm_compute in E. discriminate E.
  - apply E. vm_compute. reflexivity.
Defined.

(** The answer to an attempt with [secret]. *)
Abbreviation toy_answer secret :=
  (reply (pw_handle_try_auth (toy_request secret) 468) toy_inserted.2).

Lemma split_pair {A B C} (p : A * B * C) : p = ((p.1.1, p.1.2), p.2).
Proof. by destruct p as [[]]. Qed.

Example try_auth_releases_witness :
  (toy_answer (replicate 32 11)).1.1 = EC.SUCCESS /\
  try_auth_answer toy_inserted.2 (toy_request (replicate 32 11)) 468
    (toy_answer (replicate 32 11)).2
    (toy_answer (replicate 32 11)).1.1 (toy_answer (replicate 32 11)).1.2.
Proof.
  split; [vm_compute; reflexivity|].
  exact (try_auth_releases (toy_request (replicate 32 11)) 468 toy_inserted.2 _ _ _
           (split_pair (toy_answer (replicate 32 11)))).
Defined.

(** A reset_auth request for the leaf of [toy_leaf]. *)
Abbreviation toy_reset_auth secret :=
  (reply (pw_handle_reset_auth (toy_request secret) 468) toy_inserted.2).

Example reset_auth_releases_witness :
  (toy_reset_auth (replicate 32 33)).1.1 = EC.SUCCESS /\
  (toy_reset_auth (replicate 32 12)).1 = (PW.ERR_RESET_AUTH_FAILED, []) /\
  exists leaf, (toy_reset_auth (replicate 32 33)).1.2 =
    high_entropy_secret (sec (presented toy_inserted.2 (toy_request (replicate 32 33)))) ++
    wrapped_bytes leaf.
Proof.
  split; [vm_compute; reflexivity|]. split; [vm_compute; reflexivity|].
  pose proof (reset_auth_releases (toy_request (replicate 32 33)) 468 toy_inserted.2
    _ _ _ (split_pair (toy_reset_auth (replicate 32 33)))) as [[E _]|(leaf & _ & _ & _ & E & _)].
  - vm_compute in E. discriminate E.
  - exists leaf. exact E.
Defined.
