(* ===== verification/PwLog.v ===== *)
(** * PinWeaver: the log and what survives a reboot

    The root in memory is always the root of the first entry of the stored log, so
    that a reboot restores it; an attempt is logged before its outcome is revealed,
    and its log entry brings a stale copy of the leaf up to date. *)

From S2P Require Import Prelude NvStore Vendor PwTypes Pinweaver PwTree PwToy.
From S2P Require Import PwRequest PwAuth.

(** A write that fails leaves the variables as they were. *)
Class NvStoreAtomic (S : Type) `{!NvStore S} : Prop :=
  setvar_failed s k v rv s' k' :
    setvar s k v = (rv, s') -> rv <> EC.SUCCESS -> getvar s' k' = getvar s k'.

#[global] Instance ram_nvstore_atomic : NvStoreAtomic ram_store.
Proof.
  intros s k v rv s' k'. cbn [setvar getvar ram_nvstore]. unfold ram_setvar.
  repeat split_if; intros [= <- <-] Hrv; done.
Qed.

Section Log.
Context {S H : Type} `{!NvStore S} `{!NvStoreLaws S} `{!NvStoreAtomic S}.
Context `{!PinweaverHw H} `{!PinweaverHwLaws H}.
Implicit Types w : pw_state S H.

(** The log in the store. *)
Definition log_stored w (g : pw_log_storage_t) : Prop :=
  getvar (store w) PW.LOG_VAR0 = Some (log_bytes g) /\ wf_log g /\ log_version g = 0.

(** The root in memory is the one in the store. *)
Definition root_stored w : Prop :=
  exists g, log_stored w g /\
    e_root (nth 0 (entries g) zero_entry) = root (pw_merkle_tree w).

(** The parameters of the tree in memory are the ones in the store. *)
Definition params_stored w : Prop :=
  let t := pw_merkle_tree w in
  getvar (store w) PW.TREE_VAR =
    Some (long_term_bytes (mkLongTerm 0 (bits_per_level t) (height t)
                             (key_derivation_nonce t))) /\
  0 <= bits_per_level t < 2 ^ 8 /\ 0 <= height t < 2 ^ 8 /\
  length (key_derivation_nonce t) = 16%nat.

Lemma log_version_bytes g : wf_log g -> get 0 2 (log_bytes g) = log_version g.
Proof.
  intros Hg. pose proof (log_roundtrip g Hg) as Hr. transitivity (log_version (log_of_bytes (log_bytes g))); [done|by rewrite Hr].
Qed.

Lemma load_log_stored w g : log_stored w g -> load_log_data w = (Ok g, w).
Proof.
  intros (Hv & Hg & H0). unfold load_log_data, load_var, ebind, bind, gets. cbn [store].
  rewrite Hv, length_log_bytes, log_version_bytes, H0 by done.
  cbn -[log_of_bytes log_bytes]. by rewrite log_roundtrip.
Qed.

Lemma pw_setvar_cases k v w rv w' :
  v <> [] -> pw_setvar k v w = (rv, w') ->
  if rv =? EC.SUCCESS
  then getvar (store w') k = Some v /\
       forall k', k <> k' -> getvar (store w') k' = getvar (store w) k'
  else forall k', getvar (store w') k' = getvar (store w) k'.
Proof.
  intros Hv. unfold pw_setvar. destruct (setvar (store w) k v) as [rv' s] eqn:E.
  intros [= <- <-]. cbn [store]. destruct (Z.eqb_spec rv' EC.SUCCESS) as [->|Hn].
  - split; [by eapply getvar_setvar_same|]. intros. by eapply getvar_setvar_other.
  - intros. by eapply setvar_failed.
Qed.

Lemma pw_setvar_mt k v w rv w' :
  pw_setvar k v w = (rv, w') -> pw_merkle_tree w' = pw_merkle_tree w.
Proof. intros E. by apply (preserved _ _ _ _ _ (pw_setvar_same k v)) in E as [? _]. Qed.

Lemma log_bytes_nonempty g : log_bytes g <> [].
Proof. discriminate. Qed.

Lemma log_tree_keys : PW.LOG_VAR0 <> PW.TREE_VAR.
Proof. discriminate. Qed.

Lemma wf_zero_entry : wf_entry zero_entry.
Proof. by split. Qed.

Lemma wf_roll e g : wf_entry e -> wf_log g -> wf_log (roll_log e g).
Proof.
  intros He [Hv Hr He' Hl]. split; [done|done| |].
  - constructor; [done|]. by apply Forall_take.
  - cbn [roll_log entries length]. rewrite length_take, Hl. done.
Qed.

(** Appending to the log either stores the rolled log or changes nothing. *)
Lemma log_append_cases e w g r w' :
  wf_entry e -> log_stored w g -> log_append e w = (r, w') ->
  pw_merkle_tree w' = pw_merkle_tree w /\
  getvar (store w') PW.TREE_VAR = getvar (store w) PW.TREE_VAR /\
  match r with
  | Ok _ => log_stored w' (roll_log e g)
  | Err _ => log_stored w' g
  end.
Proof.
  intros He Hg E. split; [by eapply log_append_mt|].
  unfold log_append in E. rewrite (ebind_ok _ _ _ _ _ (load_log_stored w g Hg)) in E.
  apply try_inv in E as (rv & E & ->). unfold store_log_data in E.
  apply pw_setvar_cases in E; [|apply log_bytes_nonempty].
  destruct Hg as (Hv & Hg & H0). unfold EC.SUCCESS in E.
  destruct (rv =? 0).
  - destruct E as [E1 E2]. split; [by apply E2|]. split_and!; [done|by apply wf_roll|done].
  - split; [apply E|]. split_and!; [by rewrite E|done|done].
Qed.

Lemma hw_log_stored w w' g : hw_only w w' -> log_stored w g -> log_stored w' g.
Proof. intros (_ & _ & Hs). unfold log_stored. by rewrite Hs. Qed.

Lemma hw_params w w' : hw_only w w' -> params_stored w -> params_stored w'.
Proof. intros (Ht & _ & Hs). unfold params_stored. by rewrite Ht, Hs. Qed.

Lemma hw_root w w' : hw_only w w' -> root_stored w -> root_stored w'.
Proof.
  intros Hw (g & Hg & Hr). exists g. split; [by eapply hw_log_stored|].
  destruct Hw as (Ht & _). congruence.
Qed.

Lemma compute_root_hash_length t l hashes c w r w' :
  compute_root_hash t l hashes c w = (Ok r, w') -> length r = 32%nat.
Proof.
  intros E. apply ebind_ok_inv in E as (h & w1 & Eh & E).
  assert (Hh : length h = 32%nat).
  { apply ebind_ok_inv in Eh as (u & w2 & _ & Eh). injection Eh as <- _.
    apply length_sha256. }
  clear Eh. revert hashes l h Hh w1 E.
  induction (Z.to_nat (height t) - 1)%nat as [|n IH]; intros hashes l h Hh w1 E;
    cbn [root_loop] in E; [by injection E as <- _|].
  apply ebind_ok_inv in E as (h' & w2 & Eh & E). apply IH in E; [done|].
  apply ebind_ok_inv in Eh as (u & w3 & _ & Eh). injection Eh as <- _.
  apply length_sha256.
Qed.

(** An operation after which memory and store agree when they did before. *)
Definition keeps {A} (m : ST (pw_state S H) A) : Prop :=
  forall w r w', root_stored w -> m w = (r, w') ->
    root_stored w' /\ (params_stored w -> params_stored w').

Lemma keeps_hw {A} (m : ST (pw_state S H) A) : preserves hw_only m -> keeps m.
Proof.
  intros Hm w r w' Hr E. apply (preserved _ _ _ _ _ Hm) in E.
  split; [by eapply hw_root|by apply hw_params].
Qed.

Lemma keeps_ebind {A B} (m : EST (pw_state S H) A) (k : A -> EST _ B) :
  keeps m -> (forall a w w', m w = (Ok a, w') -> keeps (k a)) -> keeps (ebind m k).
Proof.
  intros Hm Hk w r w' Hr E. apply bind_inv in E as (x & w1 & E1 & E).
  destruct (Hm _ _ _ Hr E1) as [Hr1 Hp1]. destruct x as [a|c].
  - destruct (Hk _ _ _ E1 _ _ _ Hr1 E) as [Hr2 Hp2]. auto.
  - by injection E as <- <-.
Qed.

Lemma keeps_bind {A B} (m : ST (pw_state S H) A) (k : A -> ST _ B) :
  keeps m -> (forall a w w', m w = (a, w') -> keeps (k a)) -> keeps (bind m k).
Proof.
  intros Hm Hk w r w' Hr E. apply bind_inv in E as (x & w1 & E1 & E).
  destruct (Hm _ _ _ Hr E1) as [Hr1 Hp1].
  destruct (Hk _ _ _ E1 _ _ _ Hr1 E) as [Hr2 Hp2]. auto.
Qed.

Lemma keeps_log e rt (out : Z * list Z) :
  wf_entry e -> e_root e = rt ->
  keeps (log_append e ;;? update_root rt ;;? eret out).
Proof.
  intros He Hrt w r w' (g & Hg & Hr) E.
  assert (Hparams : forall w1 f, pw_merkle_tree w1 = pw_merkle_tree w ->
    getvar (store w1) PW.TREE_VAR = getvar (store w) PW.TREE_VAR ->
    (f = id \/ f = set_root rt) -> params_stored w ->
    params_stored (mkPw (f (pw_merkle_tree w1)) (pw_restart_count w1) (store w1) (hw w1))).
  { intros w1 f Ht Hv Hf. unfold params_stored. cbn [pw_merkle_tree store].
    rewrite Ht, Hv. by destruct Hf as [->| ->]. }
  destruct r as [x|c].
  - apply ebind_ok_inv in E as ([] & w1 & E1 & E).
    apply (log_append_cases e w g) in E1 as (Ht & Hv & Hl); [|done|done].
    injection E as _ <-. split; [|apply Hparams; auto].
    exists (roll_log e g). split; [exact Hl|]. done.
  - apply ebind_err_inv in E as [E|([] & w1 & _ & E)]; [|discriminate].
    apply (log_append_cases e w g) in E as (Ht & Hv & Hl); [|done|done].
    split; [exists g; split; [done|congruence]|].
    pose proof (Hparams w' id Ht Hv (or_introl eq_refl)) as Hp. by destruct w'.
Qed.

Lemma keeps_gets {A} (f : pw_state S H -> A) : keeps (gets f).
Proof. apply keeps_hw. apply preserves_gets. apply _. Qed.

Lemma keeps_load : keeps load_log_data.
Proof. intros w r w' Hr E. by apply load_log_inv in E as [-> _]. Qed.

Lemma wf_insert_entry r l hm :
  length r = 32%nat -> 0 <= l < 2 ^ 64 -> length hm = 32%nat ->
  wf_entry (mkEntry r l PW.INSERT_LEAF (leaf_hmac_union hm)).
Proof. by split. Qed.

Lemma wf_remove_entry r l :
  length r = 32%nat -> 0 <= l < 2 ^ 64 ->
  wf_entry (mkEntry r l PW.REMOVE_LEAF (zeros 32)).
Proof. by split. Qed.

Lemma wf_auth_entry r l c ts :
  length r = 32%nat -> 0 <= l < 2 ^ 64 ->
  wf_entry (mkEntry r l PW.TRY_AUTH (auth_union ts c)).
Proof. by split. Qed.

Lemma decrypted_label_range t req u :
  bytes req -> u = lr_leaf (leaf_request_of_bytes req) ->
  0 <= label (pub (decrypted t (import_leaf u))) < 2 ^ 64.
Proof.
  intros Hb ->. apply (get_range 0 8). apply bytes_splice; [|apply bytes_zeros].
  by apply Forall_take, Forall_drop, Forall_drop.
Qed.

Ltac keeps_step :=
  lazymatch goal with
  | |- keeps (log_append _ ;;? _) => apply keeps_log
  | |- keeps (ebind (handle_leaf_update _ _ _ (Some _)) _) => fail
  | |- keeps (ebind _ _) => apply keeps_ebind; [|intros ? ? ? ?]
  | |- keeps (bind _ _) => apply keeps_bind; [|intros ? ? ? ?]
  | |- keeps (gets _) => apply keeps_gets
  | |- keeps load_log_data => apply keeps_load
  | |- keeps (fail_if _ _) => apply keeps_hw, preserves_fail_if; apply _
  | |- keeps (eret _) => apply keeps_hw, preserves_eret; apply _
  | |- keeps (throw _) => apply keeps_hw, preserves_throw; apply _
  | |- keeps (let '(_, _) := ?p in _) => destruct p
  | |- keeps (if ?b then _ else _) => destruct b
  | |- keeps (match ?x with _ => _ end) => destruct x
  | |- keeps _ => apply keeps_hw; solve [auto 2 with preserves_db]
  end.

Lemma insert_keeps req n : bytes req -> keeps (pw_handle_insert_leaf (S := S) (H := H) req n).
Proof.
  intros Hb. unfold pw_handle_insert_leaf, log_insert_leaf. repeat keeps_step; [|done].
  match goal with E : handle_leaf_update _ _ _ _ _ = _ |- _ =>
    apply handle_leaf_update_ok in E as (iv & ct & wx & -> & _ & E);
    apply compute_root_hash_length in E end.
  apply wf_insert_entry; [done|by apply get_range|apply length_hmac_sha256].
Qed.

Lemma remove_keeps req n : bytes req -> keeps (pw_handle_remove_leaf (S := S) (H := H) req n).
Proof.
  intros Hb. unfold pw_handle_remove_leaf, log_remove_leaf. repeat keeps_step; [|done].
  match goal with E : compute_root_hash _ _ _ _ _ = _ |- _ =>
    apply compute_root_hash_length in E end.
  apply wf_remove_entry; [done|by apply get_range].
Qed.

(** The end of both authentication requests. *)
Lemma keeps_auth_end t d hashes i (l : wrapped_leaf_data_t -> Z) c ts
    (f : wrapped_leaf_data_t -> Z * list Z) :
  (forall h iv ct, 0 <= l (mkWrapped wrapped_head h iv (pub d) ct) < 2 ^ 64) ->
  keeps (let? (wl, r) := handle_leaf_update (S := S) t d hashes (Some i) in
         log_auth (l wl) r c ts ;;? update_root r ;;? eret (f wl)).
Proof.
  intros Hl. apply keeps_ebind; [keeps_step|]. intros [wl r] w w' E.
  apply handle_leaf_update_ok in E as (iv & ct & wx & -> & _ & E).
  apply compute_root_hash_length in E. apply keeps_log; [|done].
  by apply wf_auth_entry.
Qed.

Lemma presented_label_range t req n w i d w' :
  bytes req ->
  validate_request_with_wrapped_leaf t n (lr_leaf (leaf_request_of_bytes req)) w =
    (Ok (i, d), w') ->
  0 <= label (pub d) < 2 ^ 64.
Proof.
  intros Hb E. apply validate_leaf_ok in E as (_ & -> & ->). rewrite upgrade_label.
  by eapply decrypted_label_range.
Qed.

Lemma attempt_keeps t request i d :
  0 <= label (pub d) < 2 ^ 64 ->
  keeps (try_auth_attempt (S := S) t request i d).
Proof.
  intros Hl. unfold try_auth_attempt. keeps_step; [keeps_step|]. cbv zeta.
  destruct (results_table d _) as [[[at_ c] s] rs].
  by apply (keeps_auth_end _ _ _ _ (fun wl => label (w_pub wl))
              _ _ (fun wl => (c, try_auth_response 0 s rs (wrapped_bytes wl)))).
Qed.

Lemma try_auth_keeps req n : bytes req -> keeps (pw_handle_try_auth (S := S) (H := H) req n).
Proof.
  intros Hb. unfold pw_handle_try_auth. repeat keeps_step.
  match goal with E : validate_request_with_wrapped_leaf _ _ _ _ = _ |- _ =>
    apply presented_label_range in E; [|done] end.
  by apply attempt_keeps.
Qed.

Lemma reset_auth_keeps req n :
  bytes req -> keeps (pw_handle_reset_auth (S := S) (H := H) req n).
Proof.
  intros Hb. unfold pw_handle_reset_auth. repeat keeps_step.
  match goal with E : validate_request_with_wrapped_leaf _ _ _ _ = (Ok (_, ?d), _) |- _ =>
    apply presented_label_range in E; [|done];
    by apply (keeps_auth_end _ _ _ _
      (fun _ => label (pub (set_pub (set_attempt_count 0) d))) _ _
      (fun wl => (EC.SUCCESS, high_entropy_secret (sec d) ++ wrapped_bytes wl))) end.
Qed.

Lemma get_log_keeps req n : keeps (pw_handle_get_log (S := S) (H := H) req n).
Proof. unfold pw_handle_get_log. repeat keeps_step. Qed.

Lemma log_replay_keeps req n : keeps (pw_handle_log_replay (S := S) (H := H) req n).
Proof.
  unfold pw_handle_log_replay. repeat keeps_step.
  apply keeps_ebind; [keeps_step|]. intros [wl r] wa wb _. repeat keeps_step.
Qed.

(** A new tree is stored, or the old log is still there. *)
Lemma store_merkle_tree_cases t w g r w' :
  length (root t) = 32%nat -> log_stored w g -> store_merkle_tree t w = (r, w') ->
  pw_merkle_tree w' = pw_merkle_tree w /\
  match r with
  | Ok _ =>
      getvar (store w') PW.TREE_VAR =
        Some (long_term_bytes (mkLongTerm 0 (bits_per_level t) (height t)
                                 (key_derivation_nonce t))) /\
      log_stored w' (mkLog 0 0 [mkEntry (root t) 0 PW.RESET_TREE (zeros 32); zero_entry])
  | Err _ => log_stored w' g
  end.
Proof.
  intros Hlen Hg E. split.
  { by apply (preserved _ _ _ _ _ (store_merkle_tree_same t)) in E. }
  apply bind_inv in E as (r1 & w1 & E1 & E). apply try_inv in E1 as (rv & E1 & ->).
  apply pw_setvar_cases in E1; [|discriminate]. unfold EC.SUCCESS in E1.
  destruct Hg as (Hv & Hg & H0).
  assert (Hg1 : log_stored w1 g).
  { destruct (rv =? 0); [destruct E1 as [_ E1]|];
      (split; [rewrite E1; done|done]). }
  destruct (rv =? 0); [destruct E1 as [Et _]|by injection E as <- <-].
  apply bind_inv in E as (r2 & w2 & E2 & E). apply try_inv in E2 as (rv2 & E2 & ->).
  apply pw_setvar_cases in E2; [|apply log_bytes_nonempty]. unfold EC.SUCCESS in E2.
  destruct (rv2 =? 0).
  - destruct E2 as [El E2]. injection E as <- <-. cbn [store].
    rewrite E2 by done. split; [done|]. split; [done|]. split; [|done].
    split; [done|done| |done]. repeat constructor; done.
  - injection E as <- <-. split; [by rewrite E2; apply Hg1|]. apply Hg1.
Qed.

Lemma at_byte_range l i : bytes l -> 0 <= at_ l i < 2 ^ 8.
Proof.
  intros Hl. unfold at_. destruct (nth_in_or_default (Z.to_nat i) l 0) as [Hi| ->].
  - apply list_elem_of_In in Hi. by eapply Forall_forall in Hl.
  - lia.
Qed.

(** The tree that [create_merkle_tree] returns. *)
Lemma create_ok b h w t w' :
  create_merkle_tree b h w = (Ok t, w') ->
  bits_per_level t = b /\ height t = h /\ length (root t) = 32%nat /\
  length (key_derivation_nonce t) = 16%nat.
Proof.
  intros E. apply ebind_ok_inv in E as (r & w1 & E1 & E).
  assert (Hr : length r = 32%nat).
  { clear E. assert (Hz : length (zeros PW.HASH_SIZE) = 32%nat) by done.
    revert Hz w E1. generalize (zeros PW.HASH_SIZE).
    induction (Z.to_nat h) as [|n IH]; intros c Hc w0 E; cbn [empty_root] in E.
    - by injection E as <- _.
    - apply ebind_ok_inv in E as (u & w2 & _ & E). apply IH in E; [done|].
      apply length_sha256. }
  apply ebind_ok_inv in E as (nonce & w2 & E2 & E).
  assert (Hn : length nonce = 16%nat).
  { apply bind_inv in E2 as (o & w3 & E2 & E3). destruct o as [x|]; [|discriminate].
    injection E3 as -> _. unfold on_hw in E2.
    destruct (fips_rand_bytes _ _) as [o hx] eqn:E6. injection E2 as -> _.
    by apply length_rand in E6. }
  apply bind_inv in E as ([rv t'] & w3 & E3 & E).
  destruct (rv =? EC.SUCCESS); [|discriminate]. injection E as <- _.
  by apply derive_keys_params in E3 as (-> & -> & -> & ->).
Qed.

Lemma reset_keeps req n w r w' :
  bytes req -> root_stored w -> pw_handle_reset_tree req n w = (r, w') ->
  root_stored w' /\ (forall x, r = Ok x -> params_stored w').
Proof.
  intros Hb (g & Hg & Hr) E.
  apply bind_inv in E as (r1 & w1 & E1 & E). apply fail_if_inv in E1 as [-> ->].
  destruct (negb _); [injection E as <- <-; split; [by exists g|done]|].
  apply bind_inv in E as (r2 & w2 & E2 & E). apply try_inv in E2 as (rv & E2 & ->).
  injection E2 as <- <-.
  destruct (_ =? 0); [|injection E as <- <-; split; [by exists g|done]].
  apply bind_inv in E as (r3 & w3 & E3 & E).
  pose proof (preserved _ _ _ _ _ (create_hw _ _) E3) as H3.
  assert (Hroot : root_stored w3) by (eapply hw_root; [exact H3|by exists g]).
  apply (hw_log_stored _ _ _ H3) in Hg.
  destruct r3 as [t|c]; [|by injection E as <- <-].
  apply create_ok in E3 as (Hbits & Hh & Hlen & Hnonce).
  apply bind_inv in E as (r4 & w4 & E4 & E).
  destruct (store_merkle_tree_cases t w3 g r4 w4 Hlen Hg E4) as [Ht Hst].
  destruct r4 as [u|c].
  - destruct Hst as [Htv Hlog]. injection E as <- <-. split.
    + eexists. split; [exact Hlog|done].
    + intros _ _. unfold params_stored. cbn [pw_merkle_tree store].
      rewrite Hbits, Hh in *. split; [done|].
      split; [by apply at_byte_range|]. split; [by apply at_byte_range|done].
  - injection E as <- <-. split; [|done]. exists g. split; [done|].
    destruct H3 as (H3 & _). congruence.
Qed.

(** C7. After every request, also one that fails, the root in memory is the root of the first
    entry of the stored log. The stored parameters are those of the tree in memory too, as long
    as they were before and the request is not a reset_tree that fails: such a request may
    store parameters that differ from those in memory. *)
Theorem requests_keep_root_stored ty req n w r w' :
  bytes req -> root_stored w -> dispatch ty req n w = (r, w') ->
  root_stored w' /\
  (params_stored w -> (ty = PW.RESET_TREE -> exists x, r = Ok x) -> params_stored w').
Proof.
  intros Hb Hr E. unfold dispatch in E.
  destruct (Z.eqb_spec ty PW.RESET_TREE) as [->|_].
  { apply reset_keeps in E as [Hr' Hp]; [|done|done]. split; [done|].
    intros _ Hx. by destruct (Hx eq_refl) as [x ->]; eapply Hp. }
  assert (Hk : forall m : EST (pw_state S H) (Z * list Z),
    keeps m -> m w = (r, w') -> root_stored w' /\ (params_stored w ->
      (ty = PW.RESET_TREE -> exists x, r = Ok x) -> params_stored w')).
  { intros m Hm Em. destruct (Hm _ _ _ Hr Em). auto. }
  repeat match type of E with
  | (if ?b then _ else _) _ = _ => destruct b
  end; (eapply Hk; [|exact E]).
  - by apply insert_keeps.
  - by apply remove_keeps.
  - by apply try_auth_keeps.
  - by apply reset_auth_keeps.
  - apply get_log_keeps.
  - apply log_replay_keeps.
  - keeps_step.
Qed.

(** ** Reboot *)

Lemma load_var_stored k n v w :
  getvar (store w) k = Some v -> length v = n -> get 0 2 v = 0 ->
  load_var k n w = (Ok v, w).
Proof.
  intros Hv Hn H0. unfold load_var, bind, gets. cbn [store]. rewrite Hv, H0.
  by rewrite (proj2 (Nat.eqb_eq _ _) Hn).
Qed.

Lemma long_term_stored w :
  params_stored w ->
  let t := pw_merkle_tree w in
  let d := mkLongTerm 0 (bits_per_level t) (height t) (key_derivation_nonce t) in
  long_term_of_bytes (long_term_bytes d) = d /\
  length (long_term_bytes d) = sizeof_long_term /\ get 0 2 (long_term_bytes d) = 0.
Proof.
  intros (_ & Hb & Hh & Hn) t d. split_and!.
  - by apply long_term_roundtrip.
  - unfold long_term_bytes, d. rewrite !length_app, !length_le_bytes. cbn [lt_nonce].
    unfold t. by rewrite Hn.
  - done.
Qed.

(** What memory and store agreed on before a reboot is what pinweaver_init loads:
    the parameters and the root of the tree come back, the restart count is the stored
    one, advanced when the chip has been up for less than ten seconds, and memory and
    store agree again. *)
Theorem reboot_restores_tree w w0 g w' :
  log_stored w g -> e_root (nth 0 (entries g) zero_entry) = root (pw_merkle_tree w) ->
  params_stored w -> store w0 = store w ->
  load_merkle_tree w0 = (Ok tt, w') ->
  let t := pw_merkle_tree w in
  let t' := pw_merkle_tree w' in
  bits_per_level t' = bits_per_level t /\ height t' = height t /\ root t' = root t /\
  key_derivation_nonce t' = key_derivation_nonce t /\
  (pw_restart_count w' = log_restart_count g \/
   pw_restart_count w' = u32 (log_restart_count g + 1)) /\
  exists g', log_stored w' g' /\ log_restart_count g' = pw_restart_count w' /\
             entries g' = entries g.
Proof.
  intros Hg Hroot Hparams Hs E t t'. pose proof (long_term_stored w Hparams) as Hlt.
  cbv zeta in Hlt. fold t in Hlt. destruct Hlt as (Hlt & Hlen & H0).
  set (d := mkLongTerm 0 (bits_per_level t) (height t) (key_derivation_nonce t)) in *.
  unfold load_merkle_tree in E.
  rewrite (ebind_ok _ _ _ (long_term_bytes d) w0) in E.
  2:{ apply load_var_stored; [|done|done]. rewrite Hs. apply Hparams. }
  cbv zeta in E. rewrite Hlt in E.
  apply ebind_ok_inv in E as (u1 & w1 & E1 & E). injection E1 as _ <-.
  rewrite gets_bind in E. cbn [pw_merkle_tree] in E.
  apply bind_inv in E as ([rv t1] & w2 & E2 & E).
  pose proof (preserved _ _ _ _ _ (derive_keys_hw _) E2) as (_ & _ & S2).
  apply derive_keys_params in E2 as (Hb2 & Hh2 & _ & Hn2).
  apply bind_inv in E as (u3 & w3 & E3 & E). injection E3 as _ <-.
  apply ebind_ok_inv in E as (u4 & w4 & E4 & E). apply ensure_ok in E4 as [_ ->].
  cbn [store] in S2. rewrite Hs in S2.
  match type of E with _ ?w3 = _ =>
    assert (Hg3 : log_stored w3 g) by (unfold log_stored in *; cbn [store]; by rewrite S2);
    rewrite (ebind_ok _ _ _ _ _ (load_log_stored w3 g Hg3)) in E
  end.
  apply ebind_ok_inv in E as (u5 & w5 & E5 & E). injection E5 as _ <-.
  cbn [pw_merkle_tree pw_restart_count store hw] in E.
  apply bind_inv in E as (now & w6 & E6 & E).
  pose proof (preserved _ _ _ _ _ (on_hw_hw _) E6) as (T6 & _ & S6).
  cbn [pw_merkle_tree store] in T6, S6. rewrite S2 in S6.
  assert (Hg6 : log_stored w6 g) by (unfold log_stored in *; by rewrite S6).
  assert (Ht' : forall t2, t2 = set_root (e_root (nth 0 (entries g) zero_entry)) t1 ->
    bits_per_level t2 = bits_per_level t /\ height t2 = height t /\ root t2 = root t /\
    key_derivation_nonce t2 = key_derivation_nonce t).
  { intros t2 ->. cbn. split_and!; [exact Hb2|exact Hh2|exact Hroot|exact Hn2]. }
  apply ebind_ok_inv in E as (g' & w7 & E7 & E). injection E as <-.
  cbn [pw_restart_count]. destruct (now <? RESTART_TIMER_THRESHOLD).
  - apply ebind_ok_inv in E7 as (u7 & w8 & E8 & E7). injection E7 as <- <-.
    apply try_inv in E8 as (rv8 & E8 & Erv).
    pose proof (pw_setvar_mt _ _ _ _ _ E8) as T8. apply pw_setvar_cases in E8;
      [|apply log_bytes_nonempty]. unfold EC.SUCCESS in E8.
    destruct (rv8 =? 0); [|discriminate]. destruct E8 as [E8 _].
    unfold t'. cbn [pw_merkle_tree]. destruct (Ht' (pw_merkle_tree w8)) as (?&?&?&?);
      [congruence|]. split_and!; try done; [by right|].
    eexists. split; [|split; reflexivity]. split; [exact E8|].
    destruct Hg as (_ & [Hv Hr He Hl] & Hz). split; [|done].
    split; [done| |done|done]. cbn. by apply uN_range.
  - injection E7 as <- <-. unfold t'. cbn [pw_merkle_tree].
    destruct (Ht' (pw_merkle_tree w6)) as (?&?&?&?); [done|].
    split_and!; try done; [by left|]. exists g. done.
Qed.

(** ** Attempts are logged before they are answered *)

(** When try_auth answers an attempt, the log entry of the attempt, with its
    outcome and the new root, is already in the store. *)
Theorem attempt_is_logged req n w g code out w' :
  bytes req -> log_stored w g ->
  pw_handle_try_auth req n w = (Ok (code, out), w') ->
  code <> PW.ERR_RATE_LIMIT_REACHED ->
  exists ts, log_stored w'
    (roll_log (mkEntry (root (pw_merkle_tree w'))
                 (label (pub (presented w req)))
                 PW.TRY_AUTH (auth_union ts code)) g).
Proof.
  intros Hb Hg E Hc. apply try_auth_cases in E as (_ & w1 & rv & wait & w2 & _ & H2 & Er & E).
  apply test_rate_limit_code in Er. destruct (Z.eqb_spec rv EC.SUCCESS) as [->|Hrv].
  2:{ destruct E as [_ E]. injection E as -> _. by destruct Er. }
  apply try_auth_attempt_ok in E as (ts & a & c & s & rs & wl & r & w3 & w4 & w5 &
    _ & _ & Eu & El & Ex & Ht & S5 & S4). injection Ex as -> _.
  apply handle_leaf_update_ok in Eu as (iv & ct & w6 & -> & _ & Hcr).
  apply compute_root_hash_length in Hcr. cbn [w_pub] in El.
  apply (log_append_cases _ _ g) in El as (_ & _ & Hl).
  - exists ts. destruct Hl as (Hl & Hwf & Hv). rewrite Ht. cbn [root set_root].
    split; [by rewrite S5|]. split; [exact Hwf|exact Hv].
  - apply wf_auth_entry; [done|]. cbn. unfold presented. rewrite upgrade_label.
    by eapply decrypted_label_range.
  - destruct H2 as (_ & _ & S2). unfold log_stored in *. by rewrite S4, S2.
Qed.
End Log.

(** ** Concrete runs *)

(** The log in a store, for evaluation. *)
Definition stored_log (w : toy_state) : pw_log_storage_t :=
  match getvar (store w) PW.LOG_VAR0 with
  | Some v => log_of_bytes v
  | None => mkLog 1 0 []
  end.

Definition wf_entry_b (e : pw_get_log_entry_t) : bool :=
  (length (e_root e) =? 32)%nat && (0 <=? e_label e) && (e_label e <? 2 ^ 64)
  && (0 <=? e_type e) && (e_type e <? 2 ^ 8) && (length (e_union e) =? 32)%nat.

(** A decision procedure for [log_stored]. *)
Definition log_stored_b (w : toy_state) : bool :=
  let g := stored_log w in
  bool_decide (getvar (store w) PW.LOG_VAR0 = Some (log_bytes g))
  && (log_version g =? 0) && (0 <=? log_restart_count g) && (log_restart_count g <? 2 ^ 32)
  && forallb wf_entry_b (entries g) && (length (entries g) =? 2)%nat.

Lemma log_stored_b_ok w : log_stored_b w = true -> log_stored w (stored_log w).
Proof.
  unfold log_stored_b. rewrite !andb_true_iff.
  intros [[[[[H1 H2] H3] H4] H5] H6].
  apply bool_decide_eq_true in H1. bool_to_Prop. apply Nat.eqb_eq in H6.
  split; [done|]. split; [|done]. split; [lia|lia| |done].
  apply Forall_forall. intros e He. rewrite forallb_forall in H5.
  specialize (H5 e ltac:(by apply list_elem_of_In)). unfold wf_entry_b in H5.
  rewrite !andb_true_iff in H5. destruct H5 as [[[[[E1 E2] E3] E4] E5] E6].
  bool_to_Prop. apply Nat.eqb_eq in E1, E6. by split.
Qed.

Lemma toy_root_stored : root_stored toy_tree.
Proof.
  exists (stored_log toy_tree). split; [apply log_stored_b_ok|]; vm_compute; reflexivity.
Qed.

Lemma toy_params_stored : params_stored toy_tree.
Proof.
  split; [vm_compute; reflexivity|]. vm_compute.
  split; [split; [discriminate|reflexivity]|]. split; [split; [discriminate|reflexivity]|].
  reflexivity.
Qed.

Example requests_keep_root_stored_witness :
  toy_inserted.1 = Ok (EC.SUCCESS, toy_leaf) /\
  root_stored toy_inserted.2 /\ params_stored toy_inserted.2.
Proof.
  split; [apply toy_run|].
  assert (Hb : bytes toy_insert).
  { apply (bool_decide_unpack (bytes toy_insert)). vm_compute. exact I. }
  assert (E : dispatch PW.INSERT_LEAF toy_insert 364 toy_tree =
              (toy_inserted.1, toy_inserted.2)) by (vm_compute; reflexivity).
  destruct (requests_keep_root_stored PW.INSERT_LEAF toy_insert 364 toy_tree _ _ Hb
              toy_root_stored E) as [Hr Hp].
  split; [exact Hr|]. apply Hp; [exact toy_params_stored|].
  intros Habs. discriminate Habs.
Defined.

(** The chip after a reboot, five seconds up. *)
Definition toy_boot : toy_state :=
  mkPw zero_tree 0 (store toy_tree) (mkToy (5 * SECOND) 9 false []).

Example reboot_restores_tree_witness :
  root (pw_merkle_tree (load_merkle_tree toy_boot).2) = root (pw_merkle_tree toy_tree) /\
  pw_restart_count (load_merkle_tree toy_boot).2 = 1.
Proof.
  assert (Hg : log_stored toy_tree (stored_log toy_tree))
    by (apply log_stored_b_ok; vm_compute; reflexivity).
  assert (Hr : e_root (nth 0 (entries (stored_log toy_tree)) zero_entry) =
               root (pw_merkle_tree toy_tree)) by (vm_compute; reflexivity).
  assert (E : load_merkle_tree toy_boot = (Ok tt, (load_merkle_tree toy_boot).2))
    by (vm_compute; reflexivity).
  destruct (reboot_restores_tree toy_tree toy_boot _ _ Hg Hr toy_params_stored eq_refl E)
    as (_ & _ & H & _).
  split; [exact H|]. vm_compute. reflexivity.
Defined.

Example attempt_is_logged_witness :
  exists ts, log_stored (toy_auth (replicate 32 12)).2
    (roll_log (mkEntry (root (pw_merkle_tree (toy_auth (replicate 32 12)).2))
                 (label (pub (presented toy_inserted.2 (toy_request (replicate 32 12)))))
                 PW.TRY_AUTH (auth_union ts PW.ERR_LOWENT_AUTH_FAILED))
       (stored_log toy_inserted.2)).
Proof.
  assert (Hb : bytes (toy_request (replicate 32 12))).
  { apply (bool_decide_unpack (bytes (toy_request (replicate 32 12)))). vm_compute. exact I. }
  assert (Hg : log_stored toy_inserted.2 (stored_log toy_inserted.2))
    by (apply log_stored_b_ok; vm_compute; reflexivity).
  assert (E : pw_handle_try_auth (toy_request (replicate 32 12)) 468 toy_inserted.2 =
    (Ok (PW.ERR_LOWENT_AUTH_FAILED,
         match (toy_auth (replicate 32 12)).1 with Ok x => x.2 | Err _ => [] end),
     (toy_auth (replicate 32 12)).2)) by (vm_compute; reflexivity).
  assert (Hc : PW.ERR_LOWENT_AUTH_FAILED <> PW.ERR_RATE_LIMIT_REACHED) by discriminate.
  exact (attempt_is_logged (toy_request (replicate 32 12)) 468 toy_inserted.2
    (stored_log toy_inserted.2) PW.ERR_LOWENT_AUTH_FAILED
    (match (toy_auth (replicate 32 12)).1 with Ok x => x.2 | Err _ => [] end)
    (toy_auth (replicate 32 12)).2 Hb Hg E Hc).
Defined.
