(* ===== verification/PwLeaf.v ===== *)
(** * PinWeaver: the life of a leaf

    A leaf that an insertion returned is accepted and decrypted to what was inserted;
    when the host loses the leaf an attempt returned, the log replays the attempt on
    the old one. *)

From S2P Require Import Prelude NvStore Vendor PwTypes Pinweaver PwTree PwToy.
From S2P Require Import PwRequest PwAuth PwLog.

Section Leaf.
Context {S H : Type} `{!NvStore S} `{!NvStoreLaws S} `{!NvStoreAtomic S}.
Context `{!PinweaverHw H} `{!PinweaverHwLaws H}.
Implicit Types w : pw_state S H.

(** ** Steps that can only fail with the hardware *)

Lemma crypto_step {A B} (m : EST (pw_state S H) A) (k : A -> EST _ B) w (P : B -> Prop) :
  only_crypto m ->
  (forall a w1, m w = (Ok a, w1) ->
     match k a w1 with
     | (Ok x, _) => P x | (Err c, _) => c = PW.ERR_CRYPTO_FAILURE
     end) ->
  match ebind m k w with
  | (Ok x, _) => P x | (Err c, _) => c = PW.ERR_CRYPTO_FAILURE
  end.
Proof.
  intros Hm Hk. unfold ebind, bind. specialize (Hm w).
  destruct (m w) as [[a|c] w1]; [by apply Hk|]. by eapply Hm.
Qed.

Lemma compute_hmac_only t i : only_crypto (S := S) (compute_hmac t i).
Proof.
  apply only_crypto_bind; [apply only_crypto_crypto|]. intros a. apply only_crypto_ret.
Qed.

Lemma decrypt_only t i : only_crypto (S := S) (decrypt_leaf_data t i).
Proof.
  apply only_crypto_bind; [apply only_crypto_crypto|]. intros a. apply only_crypto_ret.
Qed.

Lemma update_only t d hashes i :
  only_crypto (S := S) (handle_leaf_update t d hashes (Some i)).
Proof.
  apply only_crypto_bind; [apply only_crypto_ret|]. intros [iv ct].
  apply only_crypto_bind; [apply compute_hmac_only|]. intros h.
  apply only_crypto_bind; [apply compute_root_hash_only|]. intros r. apply only_crypto_ret.
Qed.

Lemma ensure_pass {A} rv (m : EST (pw_state S H) A) w :
  rv = EC.SUCCESS -> (ensure rv ;;? m) w = m w.
Proof. by intros ->. Qed.

Lemma fail_if_pass {A} b c (m : EST (pw_state S H) A) w :
  b = false -> (fail_if b c ;;? m) w = m w.
Proof. by intros ->. Qed.

(** A path that leads to the root is accepted, from any state of the hardware. *)
Lemma path_step {A} t l path c (m : EST (pw_state S H) A) w w1 w2 (P : A -> Prop) :
  tree_params_ok (bits_per_level t) (height t) -> validate_label t l = EC.SUCCESS ->
  compute_root_hash t l path c w1 = (Ok (root t), w2) ->
  (forall w3, match m w3 with
              | (Ok x, _) => P x | (Err code, _) => code = PW.ERR_CRYPTO_FAILURE
              end) ->
  match (validate_request_with_path t l path c ;;? m) w with
  | (Ok x, _) => P x | (Err code, _) => code = PW.ERR_CRYPTO_FAILURE
  end.
Proof.
  intros Ht Hl Hcr Hm. apply compute_root_hash_ok in Hcr; [|done].
  assert (Hv : only_crypto (S := S) (validate_request_with_path t l path c)).
  { intros w' code w3 E. unfold validate_request_with_path in E.
    rewrite ensure_pass in E by (by apply validate_tree_ok).
    rewrite ensure_pass in E by done.
    apply ebind_err_inv in E as [E|(r & w4 & E1 & E)];
      [by apply compute_root_hash_only in E|].
    apply compute_root_hash_ok in E1; [|done]. rewrite E1, <-Hcr, mem_eq_refl in E.
    discriminate. }
  apply crypto_step; [exact Hv|]. intros a w3 _. apply Hm.
Qed.

(** ** A leaf that was issued is accepted *)

Lemma unimported_wrapped wl rest :
  length (w_hmac wl) = 32%nat -> length (w_iv wl) = 16%nat ->
  w_head wl = wrapped_head ->
  unimported_of_bytes (wrapped_bytes wl ++ rest) = unimported_of_wrapped wl rest.
Proof.
  destruct wl as [h m v p ct]. cbn [w_head w_hmac w_iv w_pub w_cipher_text].
  intros Hm Hi ->. unfold unimported_of_bytes, wrapped_bytes, unimported_of_wrapped.
  cbn [w_head w_hmac w_iv w_pub w_cipher_text]. rewrite <-!app_assoc.
  rewrite sub_here by done. skip_field 8%nat. read_field. skip_field 32%nat. read_field.
  skip_field 16%nat. by rewrite drop_0.
Qed.

(** The parts of an issued leaf, as [import_leaf] finds them. *)
Lemma import_wrapped wl rest :
  wf_pub (w_pub wl) -> length (w_cipher_text wl) = sizeof_sec -> w_head wl = wrapped_head ->
  import_leaf (unimported_of_wrapped wl rest) =
  mkImported wrapped_head (w_hmac wl) (w_iv wl)
    (pub_bytes (w_pub wl) ++ w_cipher_text wl ++ rest) (w_cipher_text wl ++ rest) rest.
Proof.
  destruct wl as [h m v p ct]. cbn [w_head w_hmac w_iv w_pub w_cipher_text].
  intros Hp Hct ->. unfold import_leaf, unimported_of_wrapped.
  cbn [w_head w_hmac w_iv w_pub w_cipher_text head hmac iv payload].
  change (Z.to_nat (pub_len wrapped_head)) with sizeof_pub.
  change (Z.to_nat (sec_len wrapped_head)) with sizeof_sec.
  rewrite (drop_skip sizeof_pub sizeof_pub) by (by rewrite ?length_pub_bytes).
  rewrite Nat.sub_diag, drop_0.
  rewrite (drop_skip sizeof_sec sizeof_sec) by done.
  by rewrite Nat.sub_diag, drop_0.
Qed.

(** The HMAC does not cover what follows the leaf. *)
Lemma hmac_input_wrapped wl m' rest :
  wf_pub (w_pub wl) -> length (w_cipher_text wl) = sizeof_sec -> w_head wl = wrapped_head ->
  hmac_input (import_leaf (unimported_of_wrapped wl rest)) =
  hmac_input (import_leaf (unimported_of_wrapped
    (mkWrapped wrapped_head m' (w_iv wl) (w_pub wl) (w_cipher_text wl)) [])).
Proof.
  intros Hp Hct Hh. rewrite import_wrapped by done.
  rewrite import_wrapped by done. unfold hmac_input.
  cbn [i_head i_iv i_pub i_cipher_text w_pub w_iv w_cipher_text].
  change (Z.to_nat (pub_len wrapped_head)) with sizeof_pub.
  change (Z.to_nat (sec_len wrapped_head)) with sizeof_sec.
  rewrite !take_app_length' by (by rewrite ?length_pub_bytes). done.
Qed.

Lemma decrypted_wrapped t wl s rest :
  wf_pub (w_pub wl) -> wf_sec s -> w_head wl = wrapped_head ->
  w_cipher_text wl = aes_ctr (wrap_key t) (w_iv wl) (sec_bytes s) ->
  decrypted t (import_leaf (unimported_of_wrapped wl rest)) = mkLeaf (w_pub wl) s.
Proof.
  intros Hp Hs Hh Hct.
  assert (Hlen : length (w_cipher_text wl) = sizeof_sec)
    by (rewrite Hct, length_aes_ctr; by apply length_sec_bytes).
  rewrite import_wrapped by done. unfold decrypted.
  cbn [i_head i_iv i_pub i_cipher_text].
  change (Nat.min (Z.to_nat (pub_len wrapped_head)) sizeof_pub) with sizeof_pub.
  rewrite !take_app_length' by (by rewrite ?length_pub_bytes). f_equal.
  - unfold splice. rewrite take_0, length_pub_bytes by done.
    change (drop (0 + sizeof_pub) (zeros sizeof_pub)) with (@nil Z).
    rewrite app_nil_r. by apply pub_roundtrip.
  - rewrite Hct, aes_ctr_involutive. by apply sec_roundtrip.
Qed.

Lemma wrapped_not_v0 d : upgrade_leaf wrapped_head d = d.
Proof. done. Qed.

Lemma validate_header_wrapped a :
  validate_leaf_header wrapped_head (316 + a * 32) a = EC.SUCCESS.
Proof.
  unfold validate_leaf_header. cbn [major minor pub_len sec_len wrapped_head].
  change (Z.of_nat sizeof_pub + Z.of_nat sizeof_sec) with 316. cbn -[Z.add Z.mul].
  by rewrite Z.eqb_refl.
Qed.

(** A leaf and its path as a request brings them. *)
Definition request_leaf (wl : wrapped_leaf_data_t) (path : list Z) :=
  unimported_of_bytes (wrapped_bytes wl ++ path).

Lemma issued_accepted t wl d path w1 w2 w :
  tree_params_ok (bits_per_level t) (height t) ->
  wf_pub (pub d) -> wf_sec (sec d) -> length (w_iv wl) = 16%nat ->
  validate_label t (label (pub d)) = EC.SUCCESS ->
  wl = mkWrapped wrapped_head
         (leaf_hmac t (w_iv wl) (pub d) (aes_ctr (wrap_key t) (w_iv wl) (sec_bytes (sec d))))
         (w_iv wl) (pub d) (aes_ctr (wrap_key t) (w_iv wl) (sec_bytes (sec d))) ->
  compute_root_hash t (label (pub d)) path (w_hmac wl) w1 = (Ok (root t), w2) ->
  match validate_request_with_wrapped_leaf t
          (316 + get_path_auxiliary_hash_count t * 32) (request_leaf wl path) w with
  | (Ok x, _) => x.2 = d
  | (Err c, _) => c = PW.ERR_CRYPTO_FAILURE
  end.
Proof.
  intros Ht Hp Hs Hiv Hl Hwl Hcr. destruct (path_len_ok t Ht) as [_ Ha].
  assert (Hpub : w_pub wl = pub d) by by rewrite Hwl.
  assert (Hhead : w_head wl = wrapped_head) by by rewrite Hwl.
  assert (Hct : w_cipher_text wl = aes_ctr (wrap_key t) (w_iv wl) (sec_bytes (sec d)))
    by by rewrite Hwl at 1.
  assert (Hhm : w_hmac wl = leaf_hmac t (w_iv wl) (w_pub wl) (w_cipher_text wl)).
  { rewrite Hct, Hpub. by rewrite Hwl at 1. }
  assert (Hlen : length (w_cipher_text wl) = sizeof_sec)
    by (rewrite Hct, length_aes_ctr; by apply length_sec_bytes).
  assert (Hmlen : length (w_hmac wl) = 32%nat) by (rewrite Hhm; apply length_hmac_sha256).
  rewrite <-Hpub in Hp, Hl, Hcr. clear Hwl.
  unfold request_leaf. rewrite unimported_wrapped by done.
  unfold validate_request_with_wrapped_leaf. rewrite ensure_pass.
  2:{ cbn [head unimported_of_wrapped]. rewrite Hhead, uN_small by lia.
      apply validate_header_wrapped. }
  cbv zeta.
  assert (Hlabel : imported_label (import_leaf (unimported_of_wrapped wl path)) =
                   label (w_pub wl)).
  { rewrite import_wrapped by done. unfold imported_label, get. cbn [i_pub].
    unfold pub_bytes. rewrite <-!app_assoc. read_field.
    apply le_val_bytes. apply Hp. }
  assert (Hhashes : i_hashes (import_leaf (unimported_of_wrapped wl path)) = path)
    by by rewrite import_wrapped.
  rewrite Hlabel, Hhashes.
  change (i_hmac (import_leaf (unimported_of_wrapped wl path))) with (w_hmac wl).
  eapply path_step; [done|done|exact Hcr|]. intros w3.
  apply (crypto_step _ _ _ (fun x => x.2 = d)); [apply compute_hmac_only|].
  intros h w4 Eh. apply compute_hmac_ok in Eh. rewrite fail_if_pass.
  2:{ cbn [hmac unimported_of_wrapped]. rewrite Eh, Hhm. unfold leaf_hmac.
      rewrite <-(hmac_input_wrapped wl _ path) by done. by rewrite mem_eq_refl. }
  apply (crypto_step _ _ _ (fun x => x.2 = d)); [apply decrypt_only|].
  intros d' w5 Ed. apply decrypt_ok in Ed.
  rewrite (decrypted_wrapped t wl (sec d) path) in Ed by done.
  cbn [head unimported_of_wrapped]. rewrite Hhead, wrapped_not_v0, Ed, Hpub.
  by destruct d.
Qed.

Lemma Forall_unpack {A} (P : A -> Prop) (dec : list Z -> A) sz n l :
  bytes l -> (n * sz <= length l)%nat ->
  (forall k, bytes k -> length k = sz -> P (dec k)) -> Forall P (unpack dec sz n l).
Proof.
  intros Hl Hn Hd. revert l Hl Hn. induction n as [|n IH]; intros l Hl Hn;
    cbn [unpack]; constructor.
  - apply Hd; [by apply Forall_take|]. rewrite length_take. lia.
  - apply IH; [by apply Forall_drop|]. rewrite length_drop. lia.
Qed.

Lemma wf_new_leaf req :
  bytes req -> (300 <= length req)%nat ->
  wf_pub (pub (new_leaf (insert_of_bytes req))) /\
  wf_sec (sec (new_leaf (insert_of_bytes req))).
Proof.
  intros Hb Hlen. split.
  - split; cbn [pub new_leaf insert_of_bytes in_label in_delay_schedule in_criteria
      label delay_schedule timestamp attempt_count valid_pcr_criteria].
    + by apply get_range.
    + apply Forall_unpack; [by apply bytes_sub|rewrite length_sub by lia; cbn; lia|].
      intros k Hk _. by split; apply get_range.
    + apply length_unpack.
    + done.
    + done.
    + apply Forall_unpack; [by apply bytes_sub|rewrite length_sub by lia; cbn; lia|].
      intros k Hk Hlk. by split; apply length_sub; lia.
    + apply length_unpack.
  - cbn [sec new_leaf insert_of_bytes in_sec]. unfold wf_sec, sec_of_bytes.
    cbn [low_entropy_secret high_entropy_secret reset_secret].
    assert (length (sub 136 96 req) = 96%nat) by (apply length_sub; lia).
    split_and!; apply length_sub; lia.
Qed.

(** The leaf that an insertion returns, presented again with the path it was inserted
    on, is accepted by the tree the insertion left and decrypts to exactly what was
    inserted; only a failure of the cryptographic hardware can prevent it. *)
Theorem inserted_leaf_accepted req n w code out w' w3 :
  bytes req -> n <= Z.of_nat (length req) ->
  pw_handle_insert_leaf req n w = (Ok (code, out), w') ->
  match validate_request_with_wrapped_leaf (pw_merkle_tree w')
          (316 + get_path_auxiliary_hash_count (pw_merkle_tree w') * 32)
          (unimported_of_bytes (out ++ in_path_hashes (insert_of_bytes req))) w3 with
  | (Ok x, _) => x.2 = new_leaf (insert_of_bytes req)
  | (Err c, _) => c = PW.ERR_CRYPTO_FAILURE
  end.
Proof.
  intros Hb Hn E. unfold pw_handle_insert_leaf in E. rewrite gets_bind in E.
  set (t := pw_merkle_tree w) in *.
  apply ebind_ok_inv in E as (u1 & w1 & E1 & E). apply fail_if_ok in E1 as [E1 ->].
  apply ebind_ok_inv in E as ([] & w2 & E2 & E).
  pose proof (preserved _ _ _ _ _ (validate_path_hw _ _ _ _) E2) as (H2 & _).
  apply validate_path_ok in E2 as (Ht & Hl & _).
  apply ebind_ok_inv in E as (u3 & wa & E3 & E). apply ensure_ok in E3 as [_ ->].
  apply ebind_ok_inv in E as ([wl r] & w4 & E4 & E).
  pose proof (preserved _ _ _ _ _ (handle_leaf_update_hw _ _ _ _) E4) as (H4 & _).
  apply handle_leaf_update_ok in E4 as (v & cipher & w5 & Hwl & [Hv ->] & Hcr).
  apply log_and_update in E as (Ex & Hw' & _). injection Ex as -> ->.
  rewrite H4, H2 in Hw'. fold t in Hw'. rewrite Hw'. bool_to_Prop.
  destruct (path_len_ok t Ht) as [Hpl _].
  assert (0 <= path_len t) by (rewrite Hpl; apply Nat2Z.is_nonneg).
  destruct (wf_new_leaf req Hb) as [Hp Hs].
  { unfold sizeof_insert_leaf in *. lia. }
  apply (issued_accepted (set_root r t) wl _ _ w5 w4); try done.
  - by rewrite Hwl.
  - by rewrite Hwl at 1; rewrite Hwl.
Qed.

(** ** Replaying the log *)

Lemma stamp_of_wf w ts w' :
  0 <= pw_restart_count w < 2 ^ 32 -> current_timestamp w = (ts, w') -> wf_stamp ts.
Proof.
  intros Hc E. apply bind_inv in E as (now & w1 & E1 & E).
  pose proof (preserved _ _ _ _ _ (on_hw_hw _) E1) as (_ & H1 & _).
  apply bind_inv in E as (m & w2 & E2 & E). injection E2 as <- <-. injection E as <- _.
  rewrite H1. split; [done|]. by apply uN_range.
Qed.

(** The log entry of an attempt turns the old leaf into the new one. *)
Lemma replay_is_attempt d auth a c s rs ts r l :
  results_table d auth = (a, c, s, rs) -> wf_stamp ts ->
  0 <= attempt_count (pub d) ->
  (c = PW.ERR_LOWENT_AUTH_FAILED -> attempt_count (pub d) < UINT32_MAX) ->
  replay_leaf (mkEntry r l PW.TRY_AUTH (auth_union ts c)) d = attempted a ts d.
Proof.
  intros Er Hts Hpos Hmax. unfold replay_leaf, attempted, set_pub. f_equal.
  unfold results_table in Er. rewrite auth_union_timestamp by done.
  unfold set_timestamp, set_attempt_count.
  cbn [label delay_schedule timestamp attempt_count valid_pcr_criteria]. f_equal.
  destruct auth; injection Er as <- <- _ _; rewrite auth_union_code by (unfold EC.SUCCESS, PW.ERR_LOWENT_AUTH_FAILED; lia).
  - done.
  - specialize (Hmax eq_refl). cbn [Z.eqb PW.ERR_LOWENT_AUTH_FAILED EC.SUCCESS].
    unfold next_attempts, UINT32_MAX in *. rewrite (proj2 (Z.eqb_neq (attempt_count (pub d)) 4294967295)) by lia.
    apply uN_small. lia.
Qed.

(** The same leaf update from another state of the hardware gives the same leaf. *)
Lemma update_deterministic t r d hashes i w wl nr w1 w2 wl' nr' w3 :
  tree_params_ok (bits_per_level t) (height t) ->
  handle_leaf_update t d hashes (Some i) w = (Ok (wl, nr), w1) ->
  handle_leaf_update (set_root r t) d hashes (Some i) w2 = (Ok (wl', nr'), w3) ->
  wl' = wl /\ nr' = nr.
Proof.
  intros Ht E E'.
  apply handle_leaf_update_ok in E as (v & ct & w4 & -> & [-> ->] & Hcr).
  apply handle_leaf_update_ok in E' as (v' & ct' & w5 & -> & [-> ->] & Hcr').
  split; [done|].
  apply compute_root_hash_ok in Hcr; [|done]. by apply compute_root_hash_ok in Hcr' as ->.
Qed.

(** C31. When the host loses the leaf that an accepted try_auth request returned, it can send
    the leaf it had before with the root of the chip in a log_replay request, and gets exactly
    the lost leaf, or a failure of the cryptography. This holds while the log of the memory is
    the stored one, the leaf has the current minor version, the restart counter fits 32 bits,
    the request was not refused by the rate limit, and the counter of attempts was below its
    maximum, at which it wraps. *)
Theorem log_replay_restores req n w g code out w' w3 :
  bytes req -> sizeof_leaf_request <= n < 2 ^ 16 -> n <= Z.of_nat (length req) ->
  log_stored w g -> 0 <= pw_restart_count w < 2 ^ 32 ->
  minor (head (lr_leaf (leaf_request_of_bytes req))) = PW.LEAF_MINOR_VERSION ->
  attempt_count (pub (presented w req)) < UINT32_MAX ->
  pw_handle_try_auth req n w = (Ok (code, out), w') ->
  code <> PW.ERR_RATE_LIMIT_REACHED -> hw_only w' w3 ->
  exists wl s rs, out = try_auth_response 0 s rs (wrapped_bytes wl) /\
    match pw_handle_log_replay (root (pw_merkle_tree w') ++ drop 32 req) n w3 with
    | (Ok x, _) => x = (EC.SUCCESS, wrapped_bytes wl)
    | (Err c, _) => c = PW.ERR_CRYPTO_FAILURE
    end.
Proof.
  intros Hb Hn Hmem Hg Hcount Hminor Hmax E Hc Hhw.
  apply try_auth_cases in E as ([Hacc _] & w1 & rv & wait & w2 & _ & H2 & Er & E).
  apply test_rate_limit_code in Er. destruct (Z.eqb_spec rv EC.SUCCESS) as [->|Hrv].
  2:{ destruct E as [_ E]. injection E as -> _. by destruct Er. }
  set (t := pw_merkle_tree w) in *. set (u := lr_leaf (leaf_request_of_bytes req)) in *.
  apply try_auth_attempt_ok in E as (ts & a & c & s & rs & wl & r & wb & w4 & w5 &
    Ets & Et & Eu & El & Ex & Hw' & S5 & S4). injection Ex as -> ->.
  exists wl, s, rs. split; [done|].
  assert (Hroot : length r = 32%nat).
  { apply handle_leaf_update_ok in Eu as (? & ? & ? & _ & _ & Hcr).
    by apply compute_root_hash_length in Hcr. }
  assert (Hwl : w_pub wl = pub (attempted a ts (presented w req))).
  { by apply handle_leaf_update_ok in Eu as (? & ? & ? & -> & _). }
  assert (Hd : presented w req = decrypted t (import_leaf u)).
  { unfold presented, upgrade_leaf. fold u t. by rewrite Hminor. }
  destruct H2 as (T2 & C2 & S2). rewrite T2 in Hw'. fold t in Hw'.
  assert (Hts : wf_stamp ts) by (eapply stamp_of_wf; [|exact Ets]; by rewrite C2).
  set (e := mkEntry r (label (w_pub wl)) PW.TRY_AUTH (auth_union ts c)) in *.
  assert (Hlog : log_stored w3 (roll_log e g)).
  { apply (log_append_cases _ _ g) in El as (_ & _ & Hl).
    - destruct Hhw as (_ & _ & S3). unfold log_stored in *. by rewrite S3, S5.
    - apply wf_auth_entry; [done|]. rewrite Hwl, Hd. by eapply decrypted_label_range.
    - unfold log_stored in *. by rewrite S4, S2. }
  unfold pw_handle_log_replay. rewrite gets_bind.
  replace (pw_merkle_tree w3) with (set_root r t) by (destruct Hhw as (-> & _); by rewrite Hw').
  replace (root (pw_merkle_tree w')) with r by by rewrite Hw'.
  replace (leaf_request_of_bytes (r ++ drop 32 req)) with (mkLeafReq r u).
  2:{ unfold leaf_request_of_bytes. rewrite sub_here by done.
      by rewrite drop_app_length' by done. }
  cbn [lr_leaf lr_secret].
  rewrite fail_if_pass by (apply Z.ltb_ge; lia).
  rewrite ensure_pass by (apply validate_tree_ok, Hacc).
  rewrite ensure_pass by apply Hacc. cbv zeta.
  rewrite (ebind_ok _ _ _ _ _ (load_log_stored _ _ Hlog)).
  replace (find_relevant_entry (roll_log e g) r) with (inl 0 : Z + Z).
  2:{ unfold find_relevant_entry. cbn [roll_log entries find_entry e e_type e_root].
      by rewrite mem_eq_refl. }
  change (nth (Z.to_nat 0) (entries (roll_log e g)) zero_entry) with e.
  rewrite fail_if_pass by done.
  apply (crypto_step _ _ _ (fun x => x = (EC.SUCCESS, wrapped_bytes wl)));
    [apply compute_hmac_only|].
  intros h w6 Eh. apply compute_hmac_ok in Eh as ->. rewrite fail_if_pass.
  2:{ rewrite (acc_hmac _ _ _ Hacc). by rewrite mem_eq_refl. }
  apply (crypto_step _ _ _ (fun x => x = (EC.SUCCESS, wrapped_bytes wl)));
    [apply decrypt_only|].
  intros d w7 Ed. apply decrypt_ok in Ed.
  change (decrypted (set_root r t) (import_leaf u)) with (decrypted t (import_leaf u)) in Ed.
  rewrite <-Hd in Ed. subst d. rewrite fail_if_pass.
  2:{ cbn [e e_label]. rewrite Hwl. cbn. by rewrite Z.eqb_refl. }
  unfold e at 1. rewrite (replay_is_attempt _ _ _ _ _ _ _ _ _ Et Hts); [| |done].
  2:{ rewrite Hd. apply (get_range 148 4). apply bytes_splice; [|apply bytes_zeros].
      by apply Forall_take, Forall_drop, Forall_drop. }
  apply (crypto_step _ _ _ (fun x => x = (EC.SUCCESS, wrapped_bytes wl)));
    [apply update_only|].
  intros [wl' r'] w8 Eu'.
  destruct (update_deterministic _ _ _ _ _ _ _ _ _ _ _ _ _ (acc_tree _ _ _ Hacc) Eu Eu')
    as [-> ->].
  rewrite fail_if_pass by (cbn [e e_root]; by rewrite mem_eq_refl). done.
Qed.
End Leaf.

(** ** Messages *)

Section Messages.
Context {S H : Type} `{!NvStore S} `{!PinweaverHw H}.
Implicit Types w : pw_state S H.

(** The vendor command got a message as long as its header says. *)
Definition well_formed_message (p : vendor_cmd_params) : Prop :=
  in_size p = get 2 2 (buffer p) + Z.of_nat sizeof_request_header /\
  Z.of_nat sizeof_request_header <= in_size p.

Lemma vendor_command_runs p w code buf w' :
  well_formed_message p -> pw_handle_request (buffer p) w = ((code, buf), w') ->
  pw_vendor_specific_command p w =
  ((RC.VENDOR_RC_SUCCESS,
    set_out_size (set_buffer p buf) (get 1 2 buf + Z.of_nat sizeof_response_header)), w').
Proof.
  intros [Hin Hmin] E. unfold pw_vendor_specific_command.
  rewrite (proj2 (Z.ltb_ge _ _)) by done. rewrite (proj2 (Z.eqb_eq _ _)) by done.
  cbn [negb]. unfold bind. by rewrite E.
Qed.

Lemma length_response_header n c r :
  length r = 32%nat -> length (response_header n c r) = sizeof_response_header.
Proof.
  intros Hr. unfold response_header. cbn [length].
  by rewrite !length_app, !length_le_bytes, Hr.
Qed.

(** The response as it lies at the start of the buffer. *)
Lemma response_prefix (buf hd out : list Z) :
  length hd = sizeof_response_header ->
  (sizeof_response_header + length out <= length buf)%nat ->
  take (sizeof_response_header + length out)
    (splice 0 hd (splice sizeof_response_header out buf)) = hd ++ out.
Proof.
  intros Hh Hlen. set (k := sizeof_response_header) in *.
  unfold splice. rewrite take_0, Nat.add_0_l. cbn [app].
  rewrite Hh, drop_app_length' by (rewrite length_take; lia).
  rewrite app_assoc. rewrite take_app_length'; [done|]. rewrite length_app. lia.
Qed.

Lemma get_prefix off n k l :
  (off + n <= k)%nat -> get off n l = get off n (take k l).
Proof.
  intros Hk. unfold get, sub. rewrite skipn_firstn_comm, take_take. do 2 f_equal. lia.
Qed.

Lemma get_response_length n c r out :
  0 <= n < 2 ^ 16 -> length r = 32%nat -> get 1 2 (response_header n c r ++ out) = n.
Proof.
  intros Hn Hr. unfold get, response_header.
  change (PW.PROTOCOL_VERSION :: _) with
    ([PW.PROTOCOL_VERSION] ++ (le_bytes 2 n ++ le_bytes 4 c ++ r)).
  rewrite <-!app_assoc. skip_field 1%nat. read_field. by rewrite le_val_bytes.
Qed.

(** A well-formed message of the current protocol is answered with the header, the
    code and the root the handler left, followed by the data of the handler, and the
    reported size is exactly that of header and data. *)
Theorem current_protocol_answer p w code out w' :
  well_formed_message p -> at_ (buffer p) 0 = PW.PROTOCOL_VERSION ->
  reply (dispatch (at_ (buffer p) 1) (drop sizeof_request_header (buffer p))
           (get 2 2 (buffer p))) w = ((code, out), w') ->
  length (root (pw_merkle_tree w')) = 32%nat ->
  (sizeof_response_header + length out <= length (buffer p))%nat ->
  Z.of_nat (length out) < 2 ^ 16 ->
  exists p',
    pw_vendor_specific_command p w = ((RC.VENDOR_RC_SUCCESS, p'), w') /\
    out_size p' = Z.of_nat (sizeof_response_header + length out) /\
    take (sizeof_response_header + length out) (buffer p') =
      response_header (Z.of_nat (length out)) code (root (pw_merkle_tree w')) ++ out.
Proof.
  intros Hwf Hv E Hr Hlen Hout.
  set (hd := response_header (Z.of_nat (length out)) code (root (pw_merkle_tree w'))).
  set (buf := splice 0 hd (splice sizeof_response_header out (buffer p))).
  assert (Hreq : pw_handle_request (buffer p) w = ((code, buf), w')).
  { unfold pw_handle_request. cbv zeta. rewrite gets_bind.
    unfold make_compatible_request. rewrite Hv. cbn [Z.eqb Pos.eqb PW.PROTOCOL_VERSION].
    unfold bind. rewrite E. done. }
  assert (Hhd : length hd = sizeof_response_header) by by apply length_response_header.
  pose proof (response_prefix (buffer p) hd out Hhd Hlen) as Hpre. fold buf in Hpre.
  eexists. split; [exact (vendor_command_runs p w _ _ _ Hwf Hreq)|]. cbn [out_size buffer set_out_size set_buffer].
  split; [|exact Hpre].
  rewrite (get_prefix 1 2 (sizeof_response_header + length out)) by (cbn; lia).
  rewrite Hpre. unfold hd. rewrite get_response_length by (lia || done). lia.
Qed.

(** The length of an empty try_auth response after the conversion. *)
Lemma old_response_length buf :
  (600 <= length buf)%nat -> get 1 2 buf = 0 ->
  get 1 2 (make_compatible_response 0 PW.TRY_AUTH buf) = 65504.
Proof.
  intros Hlen H0. unfold make_compatible_response.
  cbn [Z.leb Z.compare Z.eqb Pos.eqb PW.PROTOCOL_VERSION andb PW.TRY_AUTH].
  set (b1 := splice 0 [0] buf).
  assert (H1 : length b1 = length buf) by (apply length_splice; cbn; lia).
  assert (Hs : length (sub try_auth_leaf (Z.to_nat sizeof_wrapped) b1) = 372%nat)
    by (apply length_sub; rewrite H1; cbn; lia).
  set (b2 := splice try_auth00_leaf _ b1).
  assert (H2 : length b2 = length buf)
    by (unfold b2; rewrite length_splice; rewrite ?Hs, ?H1; [done|cbn; lia]).
  assert (Hget : get 1 2 b2 = 0).
  { unfold get, b2. rewrite sub_splice_other by (rewrite Hs, ?H1; cbn; lia).
    unfold b1. rewrite sub_splice_other by (cbn; lia). exact H0. }
  rewrite Hget. set (len := le_bytes 2 _).
  assert (Hl : length len = 2%nat) by done.
  unfold get. rewrite <-Hl, sub_splice_same by lia.
  unfold len. by rewrite le_val_bytes.
Qed.

(** When a try_auth request of the old protocol fails early, its response has no data
    and the length of the old response format is still subtracted from it: the 16-bit
    length wraps and the command reports 65543 bytes of response, far more than the
    message buffer holds. *)
Theorem old_protocol_length_wraps p w code w' :
  well_formed_message p -> at_ (buffer p) 0 = 0 -> at_ (buffer p) 1 = PW.TRY_AUTH ->
  reply (dispatch PW.TRY_AUTH (drop sizeof_request_header (buffer p))
           (get 2 2 (buffer p))) w = ((code, []), w') ->
  length (root (pw_merkle_tree w')) = 32%nat -> (600 <= length (buffer p))%nat ->
  exists p',
    pw_vendor_specific_command p w = ((RC.VENDOR_RC_SUCCESS, p'), w') /\
    out_size p' = 65543.
Proof.
  intros Hwf Hv Hty E Hr Hlen.
  set (hd := response_header 0 code (root (pw_merkle_tree w'))).
  set (buf := splice 0 hd (splice sizeof_response_header [] (buffer p))).
  assert (Hreq : pw_handle_request (buffer p) w =
                 ((code, make_compatible_response 0 PW.TRY_AUTH buf), w')).
  { unfold pw_handle_request. cbv zeta. rewrite gets_bind.
    unfold make_compatible_request. rewrite Hv, Hty. cbn [Z.eqb Pos.eqb PW.TRY_AUTH PW.INSERT_LEAF].
    unfold bind. rewrite E. done. }
  assert (Hhd : length hd = sizeof_response_header) by by apply length_response_header.
  assert (Hpre := response_prefix (buffer p) hd [] Hhd ltac:(cbn in *; lia)).
  fold buf in Hpre.
  assert (Hbuf : length buf = length (buffer p)).
  { unfold buf. rewrite length_splice; rewrite length_splice; cbn in *; lia. }
  eexists. split; [exact (vendor_command_runs p w _ _ _ Hwf Hreq)|].
  cbn [out_size set_out_size]. rewrite old_response_length; [done|lia|].
  rewrite (get_prefix 1 2 (sizeof_response_header + 0)) by (cbn; lia).
  cbn [length] in Hpre. rewrite Hpre. by apply get_response_length.
Qed.
End Messages.

(** ** Concrete runs *)

(** What validation decrypts the inserted leaf of the toy tree to. *)
Definition toy_presented : result (imported_leaf_data_t * leaf_data_t) :=
  (validate_request_with_wrapped_leaf (pw_merkle_tree toy_inserted.2) 380
     (unimported_of_bytes (toy_leaf ++ in_path_hashes (insert_of_bytes toy_insert)))
     toy_inserted.2).1.

Lemma toy_insert_bytes : bytes toy_insert.
Proof. apply (bool_decide_unpack (bytes toy_insert)). vm_compute. exact I. Qed.

Example inserted_leaf_accepted_witness :
  match toy_presented with
  | Ok x => x.2 = new_leaf (insert_of_bytes toy_insert)
  | Err _ => False
  end.
Proof.
  assert (E : pw_handle_insert_leaf toy_insert 364 toy_tree =
    (Ok (EC.SUCCESS, toy_leaf), toy_inserted.2)) by (vm_compute; reflexivity).
  assert (Hn : 364 <= Z.of_nat (length toy_insert)) by (vm_compute; discriminate).
  pose proof (inserted_leaf_accepted toy_insert 364 toy_tree EC.SUCCESS toy_leaf
    toy_inserted.2 toy_inserted.2 toy_insert_bytes Hn E) as Hacc.
  assert (Hok : match toy_presented with Ok _ => True | Err _ => False end)
    by (vm_compute; exact I).
  revert Hacc Hok. unfold toy_presented.
  change (316 + get_path_auxiliary_hash_count (pw_merkle_tree toy_inserted.2) * 32)
    with 380.
  destruct (validate_request_with_wrapped_leaf _ _ _ _) as [[x|c] w3]; cbn [fst].
  - intros Hx _. exact Hx.
  - intros _ Hf. exact Hf.
Defined.

(** A wrong attempt, and the replay of its log entry on the old leaf. *)
Abbreviation toy_wrong := (toy_request (replicate 32 12)).

Definition toy_wrong_out : list Z :=
  match (toy_auth (replicate 32 12)).1 with Ok x => x.2 | Err _ => [] end.

Definition toy_replay : result (Z * list Z) :=
  (pw_handle_log_replay
     (root (pw_merkle_tree (toy_auth (replicate 32 12)).2) ++ drop 32 toy_wrong) 468
     (toy_auth (replicate 32 12)).2).1.

Example log_replay_restores_witness :
  exists wl s rs, toy_wrong_out = try_auth_response 0 s rs (wrapped_bytes wl) /\
    match toy_replay with
    | Ok x => x = (EC.SUCCESS, wrapped_bytes wl) | Err c => c = PW.ERR_CRYPTO_FAILURE
    end.
Proof.
  assert (Hb : bytes toy_wrong).
  { apply (bool_decide_unpack (bytes toy_wrong)). vm_compute. exact I. }
  assert (Hn : sizeof_leaf_request <= 468 < 2 ^ 16) by (split; [discriminate|reflexivity]).
  assert (Hlen : 468 <= Z.of_nat (length toy_wrong)) by (vm_compute; discriminate).
  assert (Hg : log_stored toy_inserted.2 (stored_log toy_inserted.2))
    by (apply log_stored_b_ok; vm_compute; reflexivity).
  assert (Hcount : 0 <= pw_restart_count toy_inserted.2 < 2 ^ 32)
    by (vm_compute; split; [discriminate|reflexivity]).
  assert (Hminor : minor (head (lr_leaf (leaf_request_of_bytes toy_wrong))) =
                   PW.LEAF_MINOR_VERSION) by (vm_compute; reflexivity).
  assert (Hmax : attempt_count (pub (presented toy_inserted.2 toy_wrong)) < UINT32_MAX)
    by (vm_compute; reflexivity).
  assert (E : pw_handle_try_auth toy_wrong 468 toy_inserted.2 =
    (Ok (PW.ERR_LOWENT_AUTH_FAILED, toy_wrong_out), (toy_auth (replicate 32 12)).2))
    by (vm_compute; reflexivity).
  assert (Hc : PW.ERR_LOWENT_AUTH_FAILED <> PW.ERR_RATE_LIMIT_REACHED) by discriminate.
  destruct (log_replay_restores toy_wrong 468 toy_inserted.2 (stored_log toy_inserted.2)
    PW.ERR_LOWENT_AUTH_FAILED toy_wrong_out (toy_auth (replicate 32 12)).2
    (toy_auth (replicate 32 12)).2 Hb Hn Hlen Hg Hcount Hminor Hmax E Hc
    (hw_only_refl (toy_auth (replicate 32 12)).2)) as (wl & s & rs & Hout & Hr).
  exists wl, s, rs. split; [exact Hout|]. revert Hr. unfold toy_replay.
  destruct (pw_handle_log_replay _ _ _) as [[x|c] w3]; cbn [fst]; intros Hr; exact Hr.
Defined.

(** A GET_LOG message of the current protocol, and a try_auth message of version 0 that
    is too short, in a buffer of 700 bytes. *)
Definition toy_get_log : vendor_cmd_params :=
  mkParams CC.PINWEAVER
    (([1; PW.GET_LOG] ++ le_bytes 2 32 ++ zeros 32) ++ zeros 664) 36 2036 0.

Definition toy_old_try : vendor_cmd_params :=
  mkParams CC.PINWEAVER (([0; PW.TRY_AUTH] ++ le_bytes 2 4) ++ zeros 696) 8 2036 0.

Example current_protocol_answer_witness :
  exists p', pw_vendor_specific_command toy_get_log toy_tree =
             ((RC.VENDOR_RC_SUCCESS, p'), toy_tree) /\ out_size p' = 112.
Proof.
  assert (Hwf : well_formed_message toy_get_log)
    by (split; [vm_compute; reflexivity|vm_compute; discriminate]).
  set (out := pack entry_bytes (take 1 (entries (stored_log toy_tree)))).
  assert (E : reply (dispatch (at_ (buffer toy_get_log) 1)
      (drop sizeof_request_header (buffer toy_get_log)) (get 2 2 (buffer toy_get_log)))
      toy_tree = ((EC.SUCCESS, out), toy_tree)) by (vm_compute; reflexivity).
  assert (Hr : length (root (pw_merkle_tree toy_tree)) = 32%nat) by (vm_compute; reflexivity).
  assert (Hlen : (sizeof_response_header + length out <= length (buffer toy_get_log))%nat).
  { apply Nat.leb_le. vm_compute. reflexivity. }
  assert (Hout : Z.of_nat (length out) < 2 ^ 16) by (vm_compute; reflexivity).
  destruct (current_protocol_answer toy_get_log toy_tree EC.SUCCESS out toy_tree Hwf
              eq_refl E Hr Hlen Hout) as (p' & Hp & Hs & _).
  exists p'. split; [exact Hp|]. rewrite Hs. vm_compute. reflexivity.
Defined.

Example old_protocol_length_wraps_witness :
  exists p', pw_vendor_specific_command toy_old_try toy_tree =
             ((RC.VENDOR_RC_SUCCESS, p'), toy_tree) /\ out_size p' = 65543.
Proof.
  assert (Hwf : well_formed_message toy_old_try)
    by (split; [vm_compute; reflexivity|vm_compute; discriminate]).
  assert (E : reply (dispatch PW.TRY_AUTH
      (drop sizeof_request_header (buffer toy_old_try)) (get 2 2 (buffer toy_old_try)))
      toy_tree = ((PW.ERR_LENGTH_INVALID, []), toy_tree)) by (vm_compute; reflexivity).
  assert (Hr : length (root (pw_merkle_tree toy_tree)) = 32%nat) by (vm_compute; reflexivity).
  assert (Hlen : (600 <= length (buffer toy_old_try))%nat).
  { apply Nat.leb_le. vm_compute. reflexivity. }
  exact (old_protocol_length_wraps toy_old_try toy_tree PW.ERR_LENGTH_INVALID toy_tree Hwf
           eq_refl eq_refl E Hr Hlen).
Defined.
