(* ===== verification/TpmRegs.v ===== *)
(** * The TPM register interface and the TPM task
    (common/tpm_registers.c, include/tpm_registers.h)

    The host reads and writes registers, in interrupt context, to put a command into
    the FIFO, start it, and fetch the response; the TPM task executes one command at a
    time and can be reset.  A register access runs in interrupt context and is one step,
    and so is a request of another task; the task itself can be interrupted between the
    writes of its end of a command and between the parts of a reset ([task_step]).  The
    TPM library, the flash and the board are operations on an abstract state [W]; the
    vendor commands go through [call_extension_command]. *)

From S2P Require Import Prelude Vendor.

(** ** Registers *)

Definition TPM_ACCESS : Z := 0.
Definition TPM_INTF_CAPABILITY : Z := 0x14.
Definition TPM_STS : Z := 0x18.
Definition TPM_DATA_FIFO : Z := 0x24.
Definition TPM_DID_VID : Z := 0xf00.
Definition TPM_RID : Z := 0xf04.
Definition TPM_FW_VER : Z := 0xf90.
Definition TPM_BOARD_CFG : Z := 0xfe0.
Definition CR50_RID : Z := 0.
Definition GOOGLE_DID_VID : Z := 0x281ae0.
Definition IF_CAPABILITY_REG : Z := 0x30000615.

Inductive tpm_states :=
| tpm_state_idle
| tpm_state_ready
| tpm_state_receiving_cmd
| tpm_state_executing_cmd
| tpm_state_completing_cmd.

#[global] Instance tpm_states_dec : EqDecision tpm_states.
Proof. solve_decision. Defined.

(** The numbers of the enumeration. *)
Definition tpm_state_code (s : tpm_states) : Z :=
  match s with
  | tpm_state_idle => 0
  | tpm_state_ready => 1
  | tpm_state_receiving_cmd => 2
  | tpm_state_executing_cmd => 3
  | tpm_state_completing_cmd => 4
  end.

Definition tpm_reg_valid_sts : Z := 2 ^ 7.
Definition active_locality : Z := 2 ^ 5.
Definition request_use : Z := 2 ^ 1.

Definition command_cancel : Z := 2 ^ 24.
Definition burst_count_shift : Z := 8.
Definition burst_count_mask : Z := 0xffff.
Definition sts_valid : Z := 2 ^ 7.
Definition command_ready : Z := 2 ^ 6.
Definition tpm_go : Z := 2 ^ 5.
Definition data_avail : Z := 2 ^ 4.
Definition expect : Z := 2 ^ 3.
Definition response_retry : Z := 2 ^ 1.
Definition tpm_family_bits : Z := Z.shiftl 1 26.

Definition burst_field : Z := Z.shiftl burst_count_mask burst_count_shift.
Definition burst (n : Z) : Z := Z.shiftl n burst_count_shift.

Definition FIFO_SIZE : nat := 2048.
Definition FW_VER_SIZE : nat := 80.

(** [memory_after] is what lies behind the FIFO in memory; what the rest of the firmware
    does to it is not modelled. *)
Record tpm_regs := mkRegs {
  state : tpm_states;
  fifo_read_index : Z;
  fifo_write_index : Z;
  access : Z;
  sts : Z;
  data_fifo : list Z;
  tpm_fw_ver_index : Z;
  tpm_fw_ver : list Z;
  memory_after : list Z
}.

Definition set_state s r := mkRegs s (fifo_read_index r) (fifo_write_index r) (access r)
  (sts r) (data_fifo r) (tpm_fw_ver_index r) (tpm_fw_ver r) (memory_after r).
Definition set_read_index i r := mkRegs (state r) i (fifo_write_index r) (access r)
  (sts r) (data_fifo r) (tpm_fw_ver_index r) (tpm_fw_ver r) (memory_after r).
Definition set_write_index i r := mkRegs (state r) (fifo_read_index r) i (access r)
  (sts r) (data_fifo r) (tpm_fw_ver_index r) (tpm_fw_ver r) (memory_after r).
Definition set_access a r := mkRegs (state r) (fifo_read_index r) (fifo_write_index r) a
  (sts r) (data_fifo r) (tpm_fw_ver_index r) (tpm_fw_ver r) (memory_after r).
Definition set_sts x r := mkRegs (state r) (fifo_read_index r) (fifo_write_index r)
  (access r) x (data_fifo r) (tpm_fw_ver_index r) (tpm_fw_ver r) (memory_after r).
Definition set_fifo f r := mkRegs (state r) (fifo_read_index r) (fifo_write_index r)
  (access r) (sts r) f (tpm_fw_ver_index r) (tpm_fw_ver r) (memory_after r).
Definition set_ver_index i r := mkRegs (state r) (fifo_read_index r) (fifo_write_index r)
  (access r) (sts r) (data_fifo r) i (tpm_fw_ver r) (memory_after r).
Definition set_ver v r := mkRegs (state r) (fifo_read_index r) (fifo_write_index r)
  (access r) (sts r) (data_fifo r) (tpm_fw_ver_index r) v (memory_after r).

(** [sts |= bits] and [sts &= ~bits] *)
Definition sts_set (bits : Z) r := set_sts (Z.lor (sts r) bits) r.
Definition sts_clear (bits : Z) r := set_sts (clear_bits 32 (sts r) bits) r.

Definition set_tpm_state (s : tpm_states) (r : tpm_regs) : tpm_regs :=
  let r := set_state s r in
  match s with
  | tpm_state_idle =>
      let r := set_write_index 0 (set_read_index 0 r) in
      let r := sts_clear (Z.lor burst_field (Z.lor command_ready data_avail)) r in
      sts_set (burst 63) r
  | _ => r
  end.

(** [value && !(value & (value - 1))] *)
Definition single_bit_set (value : Z) : bool :=
  nz value && (Z.land value (value - 1) =? 0).

(** The bytes written to [dest]. *)
Definition copy_bytes (data_size value : Z) : list Z :=
  le_bytes (Z.to_nat (Z.min data_size 4)) value.

Definition access_reg_write (data : Z) (r : tpm_regs) : tpm_regs :=
  if negb (single_bit_set data) then r
  else if data =? request_use then set_access (Z.lor (access r) active_locality) r
  else if data =? active_locality then
    set_tpm_state tpm_state_idle (set_access (clear_bits 8 (access r) active_locality) r)
  else r.

Definition sts_reg_write_cr (r : tpm_regs) : tpm_regs :=
  match state r with
  | tpm_state_idle => sts_set command_ready (set_tpm_state tpm_state_ready r)
  | tpm_state_ready => sts_set command_ready r
  | tpm_state_completing_cmd | tpm_state_executing_cmd | tpm_state_receiving_cmd =>
      set_tpm_state tpm_state_idle r
  end.

(** Returns whether the TPM task is woken. *)
Definition sts_reg_write_tg (r : tpm_regs) : tpm_regs * bool :=
  match state r with
  | tpm_state_receiving_cmd =>
      if negb (nz (Z.land (tpm_state_code (state r)) expect))
      then (set_tpm_state tpm_state_executing_cmd r, true)
      else (r, false)
  | _ => (r, false)
  end.

Definition sts_reg_write_rr (r : tpm_regs) : tpm_regs :=
  match state r with
  | tpm_state_completing_cmd => set_read_index 0 r
  | _ => r
  end.

Definition sts_reg_write (data : list Z) (r : tpm_regs) : tpm_regs * bool :=
  let value := le_val (take 4 data) in
  if negb (single_bit_set value) then (r, false)
  else if value =? command_ready then (sts_reg_write_cr r, false)
  else if value =? tpm_go then sts_reg_write_tg r
  else if value =? response_retry then (sts_reg_write_rr r, false)
  else (r, false).

(** The size field of the command in the FIFO. *)
Definition packet_size (r : tpm_regs) : Z := be_val (sub 2 4 (data_fifo r)).

Definition fifo_reg_write (data : list Z) (r : tpm_regs) : tpm_regs :=
  let data_size := Z.of_nat (length data) in
  let r :=
    if bool_decide (state r = tpm_state_ready) && (fifo_write_index r =? 0)
    then set_tpm_state tpm_state_receiving_cmd r else r in
  if bool_decide (state r <> tpm_state_receiving_cmd) then r
  else if Z.of_nat FIFO_SIZE <? u32 (fifo_write_index r + data_size)
  then set_tpm_state tpm_state_ready (set_write_index 0 r)
  else
    let r := set_fifo (splice (Z.to_nat (fifo_write_index r)) data (data_fifo r)) r in
    let r := set_write_index (u32 (fifo_write_index r + data_size)) r in
    if fifo_write_index r <? 6 then sts_set expect r
    else if fifo_write_index r <? packet_size r then sts_set expect r
    else sts_clear expect r.

(** The bytes read, and the registers after. *)
Definition fifo_reg_read (data_size : Z) (r : tpm_regs) : list Z * tpm_regs :=
  let still_in_fifo := u32 (fifo_write_index r - fifo_read_index r) in
  let data_size := Z.min data_size still_in_fifo in
  let dest := sub (Z.to_nat (fifo_read_index r)) (Z.to_nat data_size)
                (data_fifo r ++ memory_after r) in
  let r := set_read_index (u32 (fifo_read_index r + data_size)) r in
  let tpm_sts := clear_bits 32 (sts r) burst_field in
  let tpm_sts :=
    if fifo_write_index r =? fifo_read_index r
    then Z.lor (clear_bits 32 tpm_sts (Z.lor data_avail command_ready)) (burst 63)
    else Z.lor tpm_sts
           (burst (Z.min (u32 (fifo_write_index r - fifo_read_index r)) 63)) in
  (dest, set_sts tpm_sts r).

(** The version string, a byte at a time: past its end the terminator is repeated. *)
Fixpoint read_version (n : nat) (r : tpm_regs) : list Z * tpm_regs :=
  match n with
  | O => ([], r)
  | S n =>
      let '(b, r) :=
        if tpm_fw_ver_index r <? Z.of_nat FW_VER_SIZE then
          let b := at_ (tpm_fw_ver r) (tpm_fw_ver_index r) in
          (b, if nz b then set_ver_index (tpm_fw_ver_index r + 1) r else r)
        else (0, r) in
      let '(bs, r) := read_version n r in
      (b :: bs, r)
  end.

Definition tpm_get_burst_size (r : tpm_regs) : Z :=
  Z.land (Z.shiftr (sts r) burst_count_shift) burst_count_mask.

(** ** The rest of the device *)

Class Device (W : Type) := {
  extension_cmds : list (Z * handler W);
  extension_route_strongbox_command : handler W;
  board_id_is_mismatched : bool;
  ExecuteCommand : Z -> list Z -> ST W (Z * list Z);
  system_process_retry_counter : ST W unit;
  board_cfg_reg_write_disable : ST W unit;
  board_cfg_reg_write : Z -> ST W unit;
  board_cfg_reg_read : ST W Z;
  nvmem_erase_tpm_data : ST W Z;
  nvmem_enable_commits : ST W unit;
  nvmem_disable_commits : ST W unit;
  tpm_orderly_state_capture : ST W (list Z);
  tpm_orderly_state_restore : list Z -> ST W unit;
  tpm_library_reset : ST W unit;          (* zeroes the library's variables *)
  tpm_library_init : ST W unit;           (* power on, _TPM_Init, manufacture *)
  system_rolling_reboot_suspected : bool;
  version_string : list Z;                (* what set_version_string prints *)
  if_start : ST W unit;
  if_stop : ST W unit
}.

(** ** The whole component *)

Definition TPM_EVENT_RESET : Z := 2 ^ 1.
Definition TPM_EVENT_COMMIT : Z := 2 ^ 2.
Definition TPM_EVENT_ALT_EXTENSION : Z := 2 ^ 3.
Definition TASK_EVENT_WAKE : Z := 2 ^ 29.

Inductive alt_process_result :=
| ALT_PROCESS_WAITING | ALT_PROCESS_DONE | ALT_PROCESS_INTERRUPTED.

(** What the task is executing between the two halves of a command: the response
    size, the command code, whether it was a vendor command, and whether it came from
    the alternative interface, with the room for the response. *)
Record execution := mkExec {
  response_size : Z;
  exec_code : Z;
  exec_custom : bool;
  exec_alt : bool;
  buffer_size : Z;
  response : list Z
}.

Section Task.
Context {W : Type} {D : Device W}.

Record tpm := mkTpm {
  regs : tpm_regs;
  reset_in_progress : bool;
  wipe_requested : bool;
  wipe_result : Z;
  task_waiting_for_reset : option Z;
  notified : list Z;                 (* tasks told that the reset is complete *)
  pending : Z;                       (* events of the TPM task *)
  evt : Z;                           (* the task's copy of the events *)
  alt_buffer : list Z;
  alt_result : alt_process_result;
  executing : option execution;
  other : W
}.

Definition upd_regs f t := mkTpm (f (regs t)) (reset_in_progress t) (wipe_requested t)
  (wipe_result t) (task_waiting_for_reset t) (notified t) (pending t) (evt t)
  (alt_buffer t) (alt_result t) (executing t) (other t).
Definition set_reset_in_progress b t := mkTpm (regs t) b (wipe_requested t)
  (wipe_result t) (task_waiting_for_reset t) (notified t) (pending t) (evt t)
  (alt_buffer t) (alt_result t) (executing t) (other t).
Definition set_wipe_requested b t := mkTpm (regs t) (reset_in_progress t) b
  (wipe_result t) (task_waiting_for_reset t) (notified t) (pending t) (evt t)
  (alt_buffer t) (alt_result t) (executing t) (other t).
Definition set_wipe_result r t := mkTpm (regs t) (reset_in_progress t)
  (wipe_requested t) r (task_waiting_for_reset t) (notified t) (pending t) (evt t)
  (alt_buffer t) (alt_result t) (executing t) (other t).
Definition set_waiting w n t := mkTpm (regs t) (reset_in_progress t) (wipe_requested t)
  (wipe_result t) w n (pending t) (evt t)
  (alt_buffer t) (alt_result t) (executing t) (other t).
Definition set_pending e t := mkTpm (regs t) (reset_in_progress t) (wipe_requested t)
  (wipe_result t) (task_waiting_for_reset t) (notified t) e (evt t)
  (alt_buffer t) (alt_result t) (executing t) (other t).
Definition set_evt e t := mkTpm (regs t) (reset_in_progress t) (wipe_requested t)
  (wipe_result t) (task_waiting_for_reset t) (notified t) (pending t) e
  (alt_buffer t) (alt_result t) (executing t) (other t).
Definition set_alt b r t := mkTpm (regs t) (reset_in_progress t) (wipe_requested t)
  (wipe_result t) (task_waiting_for_reset t) (notified t) (pending t) (evt t)
  b r (executing t) (other t).
Definition set_executing e t := mkTpm (regs t) (reset_in_progress t) (wipe_requested t)
  (wipe_result t) (task_waiting_for_reset t) (notified t) (pending t) (evt t)
  (alt_buffer t) (alt_result t) e (other t).
Definition set_other w t := mkTpm (regs t) (reset_in_progress t) (wipe_requested t)
  (wipe_result t) (task_waiting_for_reset t) (notified t) (pending t) (evt t)
  (alt_buffer t) (alt_result t) (executing t) w.

Definition on_other {A} (m : ST W A) : ST tpm A := fun t =>
  let '(a, w) := m (other t) in (a, set_other w t).

(** [task_set_event(TASK_ID_TPM, e, 0)] *)
Definition task_set_event (e : Z) (t : tpm) : tpm := set_pending (Z.lor (pending t) e) t.

(** *** Register accesses of the host *)

Definition tpm_register_put (regaddr : Z) (data : list Z) : ST tpm unit :=
  if regaddr =? TPM_ACCESS then modify (upd_regs (access_reg_write (at_ data 0)))
  else if regaddr =? TPM_STS then
    modify (fun t =>
      let '(r, wake) := sts_reg_write data (regs t) in
      let t := upd_regs (fun _ => r) t in
      if wake then task_set_event TASK_EVENT_WAKE t else t)
  else if regaddr =? TPM_DATA_FIFO then modify (upd_regs (fifo_reg_write data))
  else if regaddr =? TPM_FW_VER then modify (upd_regs (set_ver_index 0))
  else if regaddr =? TPM_BOARD_CFG then
    on_other (board_cfg_reg_write (le_val (take 4 data)))
  else ret tt.

(** The bytes stored to [dest]; the rest of it is left alone. *)
Definition tpm_register_get (regaddr data_size : Z) : ST tpm (list Z) :=
  modify (set_reset_in_progress false) ;;;
  if regaddr =? TPM_DID_VID then ret (copy_bytes data_size GOOGLE_DID_VID)
  else if regaddr =? TPM_RID then ret (copy_bytes data_size CR50_RID)
  else if regaddr =? TPM_INTF_CAPABILITY then ret (copy_bytes data_size IF_CAPABILITY_REG)
  else if regaddr =? TPM_ACCESS then
    gets (fun t => copy_bytes data_size (access (regs t)))
  else if regaddr =? TPM_STS then gets (fun t => copy_bytes data_size (sts (regs t)))
  else if regaddr =? TPM_DATA_FIFO then fun t =>
    let '(dest, r) := fifo_reg_read data_size (regs t) in (dest, upd_regs (fun _ => r) t)
  else if regaddr =? TPM_FW_VER then fun t =>
    let '(dest, r) := read_version (Z.to_nat data_size) (regs t) in
    (dest, upd_regs (fun _ => r) t)
  else if regaddr =? TPM_BOARD_CFG then
    let* v := on_other board_cfg_reg_read in ret (copy_bytes data_size v)
  else ret [].

(** *** Execution of a command *)

Definition TPM_CC_VENDOR_BIT_MASK : Z := 0x20000000.
Definition TPM2_PCR_Read : Z := 0x17e.
Definition TPM2_PCR_Extend : Z := 0x182.

Definition IS_CUSTOM_CODE (code : Z) : bool :=
  (code =? CONFIG_EXTENSION_COMMAND) || nz (Z.land code TPM_CC_VENDOR_BIT_MASK).

(** [struct tpm_cmd_header] at the start of a buffer, and the payload behind it. *)
Definition cmd_of_buffer (b : list Z) : tpm_cmd :=
  mkCmd (be_val (sub 2 4 b)) (be_val (sub 6 4 b)) (be_val (sub 10 2 b)) (drop 12 b).

(** The header fields that are rewritten, and the payload. *)
Definition buffer_of_cmd (b : list Z) (c : tpm_cmd) : list Z :=
  sub 0 2 b ++ be_bytes 4 (size c) ++ be_bytes 4 (command_code c) ++ sub 10 2 b ++ payload c.

Definition tpm_broken_response : list Z := [0x80; 0x01; 0; 0; 0; 10; 0; 0; 9; 0x21].

(** The first half of a command: [buffer] is executed.  Returns what the second half
    needs and the buffer as the command left it. *)
Definition execute_command (buffer : list Z) (room : Z) (alt : bool) (write_index : Z)
    : ST W (execution * list Z) :=
  let command_code := be_val (sub 6 4 buffer) in
  if IS_CUSTOM_CODE command_code then
    let cmd := cmd_of_buffer buffer in
    let* (total, cmd') :=
      call_extension_command extension_cmds board_id_is_mismatched
        extension_route_strongbox_command cmd room
        (if alt then VENDOR_CMD_FROM_ALT_IF else 0) command_code in
    let buffer :=
      if sizeof_tpm_cmd_header <=? size cmd then buffer_of_cmd buffer cmd' else buffer in
    ret (mkExec total command_code true alt room [], buffer)
  else if board_id_is_mismatched then
    ret (mkExec (Z.of_nat (length tpm_broken_response)) command_code false alt room
           tpm_broken_response,
         splice 0 tpm_broken_response buffer)
  else
    let* (n, resp) := ExecuteCommand write_index buffer in
    ret (mkExec n command_code false alt room resp, buffer).

(** The second half: the response is made available. *)
Definition finish_regs (n : Z) (r : tpm_regs) : tpm_regs :=
  let r := set_write_index n (set_read_index 0 r) in
  let r := set_tpm_state tpm_state_completing_cmd r in
  let r := sts_clear burst_field r in
  sts_set (Z.lor (burst (Z.min n 63)) data_avail) r.

(** The hooks of two commands and the copy of the response; returns its size when the
    registers are to be set. *)
Definition finish_copy (x : execution) : ST tpm (option Z) :=
  modify (set_executing None) ;;;
  if nz (response_size x) && (response_size x <=? buffer_size x) then
    (if exec_code x =? TPM2_PCR_Read then on_other system_process_retry_counter
     else if exec_code x =? TPM2_PCR_Extend then on_other board_cfg_reg_write_disable
     else ret tt) ;;;
    let copy b :=
      if exec_custom x then b
      else splice 0 (take (Z.to_nat (response_size x)) (response x)) b in
    if exec_alt x
    then modify (fun t => set_alt (copy (alt_buffer t)) ALT_PROCESS_DONE t) ;;; ret None
    else modify (upd_regs (fun r => set_fifo (copy (data_fifo r)) r)) ;;;
         ret (Some (response_size x))
  else ret None.

(** The end of a command that nothing interrupts. *)
Definition finish_command (x : execution) : ST tpm unit :=
  let* n := finish_copy x in
  match n with
  | Some n => modify (upd_regs (finish_regs n))
  | None => ret tt
  end.

(** *** Reset *)

Definition tpm_init_regs (r : tpm_regs) : tpm_regs :=
  let r := set_tpm_state tpm_state_idle r in
  let r := set_access tpm_reg_valid_sts r in
  let r := set_sts (Z.lor tpm_family_bits (Z.lor (burst 63) sts_valid)) r in
  set_ver version_string r.

Definition tpm_init : ST tpm unit :=
  if system_rolling_reboot_suspected then ret tt
  else modify (upd_regs tpm_init_regs) ;;; on_other tpm_library_init.

Definition zero_regs (r : tpm_regs) : tpm_regs :=
  mkRegs tpm_state_idle 0 0 0 0 (zeros FIFO_SIZE) 0 (zeros FW_VER_SIZE) (memory_after r).

(** The waiting task is told, and forgotten. *)
Definition notify_waiting : ST tpm unit := modify (fun t =>
  match task_waiting_for_reset t with
  | Some task => set_waiting (Some task) (task :: notified t) t
  | None => t
  end).
Definition forget_waiting : ST tpm unit := modify (fun t => set_waiting None (notified t) t).

(** Up to the [memset]: the wipe, whose result is recorded, and the copy of the orderly
    state. *)
Definition reset_prepare (wipe_first can_preserve_orderly : bool) : ST tpm (list Z) :=
  on_other if_stop ;;;
  let* rv := if wipe_first then on_other nvmem_erase_tpm_data else ret EC.SUCCESS in
  modify (set_wipe_result rv) ;;;
  on_other nvmem_enable_commits ;;;
  if can_preserve_orderly && negb wipe_first
  then on_other tpm_orderly_state_capture else ret [].

(** The [memset] over the library's variables, which include those of this file. *)
Definition reset_clear : ST tpm unit :=
  modify (upd_regs zero_regs) ;;;
  modify (set_wipe_requested false) ;;;
  on_other tpm_library_reset.

Definition reset_reinit (wipe_first can_preserve_orderly : bool) (copy : list Z) : ST tpm unit :=
  on_other nvmem_disable_commits ;;;
  tpm_init ;;;
  (if can_preserve_orderly && negb wipe_first
   then on_other (tpm_orderly_state_restore copy) else ret tt).

(** A reset that nothing interrupts. *)
Definition tpm_reset_now (wipe_first can_preserve_orderly : bool) : ST tpm unit :=
  let* copy := reset_prepare wipe_first can_preserve_orderly in
  reset_clear ;;;
  reset_reinit wipe_first can_preserve_orderly copy ;;;
  notify_waiting ;;;
  forget_waiting ;;;
  on_other if_start.

Definition tpm_sync_reset (wipe_first : bool) : ST tpm Z :=
  tpm_reset_now wipe_first true ;;; gets wipe_result.

(** [current] is the calling task.  A caller that has to wait is given no result yet:
    it resumes in [tpm_reset_resume]. *)
Definition tpm_reset_request (current : Z) (wait_until_done wipe_nvmem_first : bool)
    (cannot_sleep : bool) : ST tpm (option Z) :=
  let* busy := gets reset_in_progress in
  if busy then ret (Some EC.ERROR_BUSY) else
  modify (set_reset_in_progress true) ;;;
  modify (set_wipe_result EC.SUCCESS) ;;;
  modify (fun t => set_wipe_requested (wipe_requested t || wipe_nvmem_first) t) ;;;
  (if wait_until_done then modify (fun t => set_waiting (Some current) (notified t) t)
   else ret tt) ;;;
  modify (task_set_event TPM_EVENT_RESET) ;;;
  if negb wait_until_done then ret (Some EC.SUCCESS)
  else if cannot_sleep then
    modify (fun t => set_waiting None (notified t) t) ;;; ret (Some EC.ERROR_BUSY)
  else ret None.

(** The waiting caller goes on, woken or after five seconds. *)
Definition tpm_reset_resume (current : Z) : ST tpm Z := fun t =>
  if bool_decide (current ∈ notified t)
  then (wipe_result t, set_waiting (task_waiting_for_reset t)
          (List.filter (fun x => negb (x =? current)) (notified t)) t)
  else (EC.ERROR_TIMEOUT, t).

(** [if_initialized] tells whether the interface functions have been registered. *)
Definition tpm_stop (if_initialized : bool) : ST tpm unit :=
  (if if_initialized then on_other if_stop else ret tt) ;;;
  modify (set_reset_in_progress false).

Definition tpm_reinstate_nvmem_commits : ST tpm unit :=
  modify (task_set_event TPM_EVENT_COMMIT).

(** A command on the alternative interface is submitted; the caller waits until
    [alt_result] changes, and submits it again when it was interrupted. *)
Definition tpm_alt_submit (command : list Z) : ST tpm unit :=
  modify (set_alt command ALT_PROCESS_WAITING) ;;;
  modify (task_set_event TPM_EVENT_ALT_EXTENSION).

(** *** The TPM task: one round of its loop, up to the execution of a command *)

(** Events left over from the last round, or those that are pending. *)
Definition take_events : ST tpm Z := fun t =>
  if evt t =? 0 then (pending t, set_pending 0 (set_evt (pending t) t)) else (evt t, t).

Definition drop_event (e : Z) : ST tpm unit :=
  modify (fun t => set_evt (clear_bits 32 (evt t) e) t).

Definition start_command (alt : bool) : ST tpm unit := fun t =>
  let buffer := if alt then alt_buffer t else data_fifo (regs t) in
  let room := Z.of_nat (length buffer) in
  let '((x, b), w) := execute_command buffer room alt (fifo_write_index (regs t)) (other t) in
  let t := set_other w (set_executing (Some x) t) in
  (tt, if alt then set_alt b (alt_result t) t else upd_regs (set_fifo b) t).

(** While the AP is off the task waits for a reset or an alternative command; returns
    whether it goes on. *)
Definition tpm_task_wait : ST tpm bool := fun t =>
  let e := pending t in
  let t := set_pending 0 t in
  if nz (Z.land e (Z.lor TPM_EVENT_RESET TPM_EVENT_ALT_EXTENSION))
  then (true, set_evt (Z.land e TPM_EVENT_ALT_EXTENSION) t)
  else (false, set_evt e t).

(** The start of the task, when the AP is on. *)
Definition tpm_task_start : ST tpm unit := tpm_reset_now false false.

(** A round without a request for a reset, up to the execution of a command. *)
Definition round_commands (e : Z) : ST tpm unit :=
  (if nz (Z.land e TPM_EVENT_COMMIT)
   then drop_event TPM_EVENT_COMMIT ;;; on_other nvmem_enable_commits
   else ret tt) ;;;
  if nz (Z.land e TASK_EVENT_WAKE) then
    drop_event TASK_EVENT_WAKE ;;; start_command false
  else if nz (Z.land e TPM_EVENT_ALT_EXTENSION) then
    drop_event TPM_EVENT_ALT_EXTENSION ;;; start_command true
  else modify (set_evt 0).

(** A waiting alternative command is told that the reset has interrupted it. *)
Definition interrupt_waiting (e : Z) : ST tpm unit :=
  if nz (Z.land e TPM_EVENT_ALT_EXTENSION)
  then modify (fun t => set_alt (alt_buffer t) ALT_PROCESS_INTERRUPTED t)
  else ret tt.

(** A round that nothing interrupts. *)
Definition tpm_task_round : ST tpm unit :=
  let* e := take_events in
  if nz (Z.land e TPM_EVENT_RESET) then
    let* wipe := gets wipe_requested in
    tpm_reset_now wipe true ;;;
    interrupt_waiting e ;;;
    modify (set_evt 0)
  else round_commands e.

(** *** Where the task can be interrupted *)

(** At the head of its loop, or with a command between its halves; between the writes at
    the end of a command of [n] bytes; between the parts of a reset. *)
Inductive task_stage :=
| at_loop
| response_copied (n : Z)
| read_index_set (n : Z)
| write_index_set (n : Z)
| state_set (n : Z)
| sts_read (tpm_sts : Z)
| reset_taken (e : Z)
| reset_begun (wipe orderly : bool) (e : Z)
| reset_prepared (wipe orderly : bool) (copy : list Z) (e : Z)
| reset_cleared (wipe orderly : bool) (copy : list Z) (e : Z)
| reset_reinitialized (e : Z)
| reset_notified (e : Z)
| reset_told (e : Z).

(** Whether the interface to the host is stopped. *)
Definition interface_stopped (p : task_stage) : bool :=
  match p with
  | reset_prepared _ _ _ _ | reset_cleared _ _ _ _ | reset_reinitialized _
  | reset_notified _ | reset_told _ => true
  | _ => false
  end.

Definition in_reset (p : task_stage) : bool :=
  match p with reset_taken _ | reset_begun _ _ _ => true | _ => interface_stopped p end.

(** The task goes on from a stage to the next. *)
Definition from_loop : ST tpm task_stage := fun t =>
  match executing t with
  | Some x =>
      let '(n, t) := finish_copy x t in
      (match n with Some n => response_copied n | None => at_loop end, t)
  | None =>
      let '(e, t) := take_events t in
      if nz (Z.land e TPM_EVENT_RESET) then (reset_taken e, t)
      else (at_loop, (round_commands e t).2)
  end.

Definition go (f : tpm_regs -> tpm_regs) (p : task_stage) : ST tpm task_stage :=
  modify (upd_regs f) ;;; ret p.

Definition task_step (p : task_stage) : ST tpm task_stage :=
  match p with
  | at_loop => from_loop
  | response_copied n => go (set_read_index 0) (read_index_set n)
  | read_index_set n => go (set_write_index n) (write_index_set n)
  | write_index_set n => go (set_tpm_state tpm_state_completing_cmd) (state_set n)
  | state_set n =>
      let* v := gets (fun t => sts (regs t)) in
      ret (sts_read (Z.lor (clear_bits 32 v burst_field) (Z.lor (burst (Z.min n 63)) data_avail)))
  | sts_read v => go (set_sts v) at_loop
  | reset_taken e => let* wipe := gets wipe_requested in ret (reset_begun wipe true e)
  | reset_begun wipe orderly e =>
      let* copy := reset_prepare wipe orderly in ret (reset_prepared wipe orderly copy e)
  | reset_prepared wipe orderly copy e => reset_clear ;;; ret (reset_cleared wipe orderly copy e)
  | reset_cleared wipe orderly copy e =>
      reset_reinit wipe orderly copy ;;; ret (reset_reinitialized e)
  | reset_reinitialized e =>
      let* waiting := gets task_waiting_for_reset in
      match waiting with
      | Some _ => notify_waiting ;;; ret (reset_notified e)
      | None => ret (reset_told e)
      end
  | reset_notified e => forget_waiting ;;; ret (reset_told e)
  | reset_told e =>
      on_other if_start ;;; interrupt_waiting e ;;; modify (set_evt 0) ;;; ret at_loop
  end.

(** *** Steps of the system: the host, the task, and the other tasks, interleaved *)

Record system := mkSystem { sys_tpm : tpm; sys_stage : task_stage }.

Inductive action :=
| act_put (regaddr : Z) (data : list Z)
| act_get (regaddr n : Z)
| act_task
| act_request (current : Z) (wait wipe cannot_sleep : bool)
| act_resume (current : Z)
| act_stop (if_initialized : bool)
| act_commits
| act_alt (command : list Z).

(** The host reaches the registers only while the interface runs. *)
Definition enabled (a : action) (s : system) : Prop :=
  match a with
  | act_put _ data =>
      interface_stopped (sys_stage s) = false /\ (1 <= length data <= 64)%nat /\ bytes data
  | act_get _ n => interface_stopped (sys_stage s) = false /\ 1 <= n <= 64
  | _ => True
  end.

Definition act (a : action) (s : system) : system :=
  let other_step {A} (m : ST tpm A) := mkSystem (m (sys_tpm s)).2 (sys_stage s) in
  match a with
  | act_put regaddr data => other_step (tpm_register_put regaddr data)
  | act_get regaddr n => other_step (tpm_register_get regaddr n)
  | act_task =>
      let '(p, t) := task_step (sys_stage s) (sys_tpm s) in mkSystem t p
  | act_request current wait wipe cannot => other_step (tpm_reset_request current wait wipe cannot)
  | act_resume current => other_step (tpm_reset_resume current)
  | act_stop i => other_step (tpm_stop i)
  | act_commits => other_step tpm_reinstate_nvmem_commits
  | act_alt command => other_step (tpm_alt_submit command)
  end.

Definition tpm_step (a : action) (s s' : system) : Prop := enabled a s /\ s' = act a s.
End Task.

Arguments tpm W : clear implicits.
Arguments system W : clear implicits.
