(* ===== verification/TpmProps.v ===== *)
(** * The TPM register interface: what the host sees

    Commands arrive as they were written and responses are read as they were made,
    in any partition into register accesses; the FIFO indices stay inside the buffer,
    except after one sequence of accesses, which lets the host read the memory behind
    it; a reset request is served by the next round of the task. *)

From S2P Require Import Prelude Vendor TpmRegs.

(** ** Bits of the status register *)

Lemma clear_bits_testbit x m i :
  0 <= i < 32 -> Z.testbit (clear_bits 32 x m) i = Z.testbit x i && negb (Z.testbit m i).
Proof.
  intros Hi. unfold clear_bits. rewrite Z.land_spec, Z.lxor_spec, Z.ones_spec_low by lia.
  by destruct (Z.testbit m i).
Qed.

Definition sts_bit (i : Z) (r : tpm_regs) : bool := Z.testbit (sts r) i.

(** Bit 3: more data is expected; bit 4: data can be read. *)
Definition expects (r : tpm_regs) : bool := sts_bit 3 r.
Definition data_available (r : tpm_regs) : bool := sts_bit 4 r.

Lemma expects_set r : expects (sts_set expect r) = true.
Proof. unfold expects, sts_bit, sts_set, expect. cbn [sts set_sts]. by rewrite Z.lor_spec, orb_true_r. Qed.

Lemma expects_clear r : expects (sts_clear expect r) = false.
Proof.
  unfold expects, sts_bit, sts_clear. cbn [sts set_sts].
  rewrite clear_bits_testbit by lia. by rewrite andb_false_r.
Qed.

(** ** A command arrives *)

(** The registers hold the first bytes of a command. *)
Record receiving (r : tpm_regs) (cmd : list Z) : Prop := {
  rcv_state : state r = tpm_state_receiving_cmd;
  rcv_index : fifo_write_index r = Z.of_nat (length cmd);
  rcv_room : (length cmd <= FIFO_SIZE)%nat;
  rcv_length : length (data_fifo r) = FIFO_SIZE;
  rcv_data : take (length cmd) (data_fifo r) = cmd
}.

(** More bytes are needed: for the size field or for the size it states. *)
Definition incomplete (cmd : list Z) : bool :=
  (length cmd <? 6)%nat || (Z.of_nat (length cmd) <? be_val (sub 2 4 cmd)).

Lemma sub_of_prefix {A} n (l p : list A) off k :
  take n l = p -> (off + k <= n)%nat -> sub off k l = sub off k p.
Proof.
  intros <- H. unfold sub. rewrite skipn_firstn_comm, take_take. f_equal. lia.
Qed.

Lemma packet_size_prefix r cmd :
  (6 <= length cmd)%nat -> take (length cmd) (data_fifo r) = cmd ->
  packet_size r = be_val (sub 2 4 cmd).
Proof.
  intros Hl Hd. unfold packet_size. f_equal.
  apply (sub_of_prefix (length cmd)); [done|lia].
Qed.

Lemma splice_append {A} (l new : list A) n :
  (n + length new <= length l)%nat ->
  take (n + length new) (splice n new l) = take n l ++ new.
Proof.
  intros H. unfold splice. rewrite app_assoc. apply take_app_length'.
  rewrite length_app, length_take. lia.
Qed.

(** Resolves the tests of the state in [fifo_reg_write]. *)
Ltac in_receiving Hs :=
  rewrite Hs, (bool_decide_eq_false_2 (tpm_state_receiving_cmd = tpm_state_ready)) by done;
  cbn [andb]; rewrite Hs, bool_decide_eq_false_2 by (intros Hne; by apply Hne).

(** One write appends its bytes and keeps the expect bit up to date. *)
Lemma fifo_write_step r cmd data :
  receiving r cmd -> (length cmd + length data <= FIFO_SIZE)%nat ->
  receiving (fifo_reg_write data r) (cmd ++ data) /\
  expects (fifo_reg_write data r) = incomplete (cmd ++ data).
Proof.
  intros [Hs Hi Hroom Hlen Hd] Hfit. set (c := cmd ++ data).
  assert (Hc : length c = (length cmd + length data)%nat) by apply length_app.
  unfold fifo_reg_write. in_receiving Hs.
  rewrite Hi, (uN_small 32) by (unfold FIFO_SIZE in *; lia).
  rewrite (proj2 (Z.ltb_ge _ _)) by lia. rewrite Nat2Z.id.
  set (r1 := set_write_index _ _).
  assert (H1 : receiving r1 c).
  { split; cbn [r1 state fifo_write_index data_fifo set_write_index set_fifo].
    - done.
    - rewrite Hi, (uN_small 32) by (unfold FIFO_SIZE in *; lia); lia.
    - lia.
    - rewrite length_splice by lia. done.
    - rewrite Hc, splice_append by lia. by rewrite Hd. }
  assert (Hx : forall f, sts_set expect = f \/ sts_clear expect = f ->
               receiving (f r1) c) by (intros f [<-|<-]; destruct H1; split; assumption).
  unfold incomplete. rewrite (rcv_index _ _ H1).
  destruct (Nat.ltb_spec (length c) 6) as [Hlt|Hge].
  - rewrite (proj2 (Z.ltb_lt _ _)) by lia. split; [apply Hx; auto|apply expects_set].
  - rewrite (proj2 (Z.ltb_ge _ 6)) by lia.
    rewrite (packet_size_prefix r1 c Hge (rcv_data _ _ H1)). cbn [orb].
    destruct (_ <? _); split; (apply Hx; auto) || apply expects_set || apply expects_clear.
Qed.

(** The writes of a command, in any partition. *)
Definition fifo_writes (chunks : list (list Z)) (r : tpm_regs) : tpm_regs :=
  fold_left (fun r data => fifo_reg_write data r) chunks r.

Lemma fifo_writes_receiving chunks r cmd :
  receiving r cmd -> (length cmd + length (concat chunks) <= FIFO_SIZE)%nat ->
  receiving (fifo_writes chunks r) (cmd ++ concat chunks) /\
  (chunks <> [] -> expects (fifo_writes chunks r) = incomplete (cmd ++ concat chunks)).
Proof.
  revert r cmd. induction chunks as [|d chunks IH]; intros r cmd Hr Hfit.
  - cbn. by rewrite app_nil_r.
  - cbn [concat fifo_writes fold_left] in *. rewrite length_app in Hfit.
    destruct (fifo_write_step r cmd d Hr) as [H1 H2]; [lia|].
    destruct (IH _ _ H1) as [H3 H4]; [rewrite length_app; lia|].
    rewrite <-app_assoc in H3, H4. split; [exact H3|]. intros _.
    destruct chunks as [|d' chunks].
    + cbn. by rewrite app_nil_r.
    + by apply H4.
Qed.

(** A command written to the FIFO of a ready interface, in register accesses of any
    sizes, is the content of the FIFO when it is complete: the write index is its
    length, the expect bit says exactly whether bytes are missing, and a write of the
    go bit then starts its execution and wakes the TPM task. *)
Theorem command_delivered d chunks r :
  state r = tpm_state_ready -> fifo_write_index r = 0 -> length (data_fifo r) = FIFO_SIZE ->
  (length (concat (d :: chunks)) <= FIFO_SIZE)%nat ->
  let r' := fifo_writes (d :: chunks) r in
  let cmd := concat (d :: chunks) in
  take (length cmd) (data_fifo r') = cmd /\
  fifo_write_index r' = Z.of_nat (length cmd) /\
  expects r' = incomplete cmd /\
  sts_reg_write (le_bytes 4 tpm_go) r' = (set_state tpm_state_executing_cmd r', true).
Proof.
  intros Hs Hi Hlen Hfit r' cmd.
  set (r0 := set_state tpm_state_receiving_cmd r).
  assert (H0 : receiving r0 []) by (split; [done|exact Hi|cbn; lia|exact Hlen|done]).
  assert (Hr' : r' = fifo_writes (d :: chunks) r0).
  { unfold r'. cbn [fifo_writes fold_left]. f_equal. unfold fifo_reg_write.
    rewrite Hs, Hi. done. }
  destruct (fifo_writes_receiving (d :: chunks) r0 [] H0 Hfit) as [H1 H2].
  rewrite Hr'. destruct H1 as [H1s H1i _ _ H1d]. split_and!; [exact H1d|exact H1i| |].
  - by apply H2.
  - unfold sts_reg_write. change (le_val (take 4 (le_bytes 4 tpm_go))) with tpm_go.
    cbn [single_bit_set tpm_go]. change (single_bit_set (2 ^ 5)) with true. cbn [negb].
    change (2 ^ 5 =? command_ready) with false. change (2 ^ 5 =? 2 ^ 5) with true.
    unfold sts_reg_write_tg. by rewrite H1s.
Qed.

(** ** A response is read *)

(** The registers hold the bytes of a response from [read] on. *)
Record completing (r : tpm_regs) (resp : list Z) (read : nat) : Prop := {
  cpl_write : fifo_write_index r = Z.of_nat (length resp);
  cpl_read : fifo_read_index r = Z.of_nat read;
  cpl_le : (read <= length resp)%nat;
  cpl_room : (length resp <= FIFO_SIZE)%nat;
  cpl_length : length (data_fifo r) = FIFO_SIZE;
  cpl_data : take (length resp) (data_fifo r) = resp
}.

Lemma data_available_burst r x n :
  Z.testbit x 4 = false ->
  data_available (set_sts (Z.lor x (burst n)) r) = false.
Proof.
  intros Hx. unfold data_available, sts_bit. cbn [sts set_sts].
  rewrite Z.lor_spec, Hx. unfold burst, burst_count_shift. by rewrite Z.shiftl_spec_low.
Qed.

Lemma fifo_read_step r resp read n :
  completing r resp read -> 0 <= n ->
  let k := Nat.min (Z.to_nat n) (length resp - read) in
  (fifo_reg_read n r).1 = sub read k resp /\
  completing (fifo_reg_read n r).2 resp (read + k) /\
  state (fifo_reg_read n r).2 = state r /\
  data_available (fifo_reg_read n r).2 =
    if (read + k =? length resp)%nat then false else data_available r.
Proof.
  intros [Hw Hr Hle Hroom Hlen Hd] Hn k. unfold fifo_reg_read.
  rewrite Hw, Hr. unfold FIFO_SIZE in *.
  rewrite (uN_small 32 (Z.of_nat (length resp) - Z.of_nat read)) by lia.
  set (m := Z.min n (Z.of_nat (length resp) - Z.of_nat read)).
  assert (Hm : Z.to_nat m = k) by (unfold m, k; lia).
  assert (Hm0 : Z.of_nat read + m = Z.of_nat (read + k)) by (unfold m, k; lia).
  rewrite (uN_small 32) by lia. rewrite Hm0, Hm, !Nat2Z.id.
  cbn [fst snd fifo_write_index fifo_read_index set_read_index]. rewrite Hw.
  assert (Hk : (read + k <= length resp)%nat) by lia.
  split; [|split; [|split]].
  - unfold sub. rewrite drop_app_le by lia. rewrite take_app_le by (rewrite length_drop; lia).
    by apply (sub_of_prefix (length resp)).
  - split; try done.
  - done.
  - destruct (Nat.eqb_spec (read + k) (length resp)) as [He|He].
    + rewrite (proj2 (Z.eqb_eq _ _)) by lia. apply data_available_burst.
      rewrite clear_bits_testbit by lia. by rewrite andb_false_r.
    + rewrite (proj2 (Z.eqb_neq _ _)) by lia. unfold data_available, sts_bit.
      cbn [sts set_sts]. rewrite Z.lor_spec. unfold burst, burst_count_shift.
      rewrite Z.shiftl_spec_low, orb_false_r by lia.
      rewrite clear_bits_testbit by lia. by rewrite andb_true_r.
Qed.

(** The reads of a response: the bytes of each, and the registers after. *)
Fixpoint fifo_reads (ns : list Z) (r : tpm_regs) : list Z * tpm_regs :=
  match ns with
  | [] => ([], r)
  | n :: ns =>
      let '(b, r) := fifo_reg_read n r in
      let '(bs, r) := fifo_reads ns r in
      (b ++ bs, r)
  end.

Lemma fifo_reads_completing ns r resp read :
  completing r resp read -> Forall (fun n => 0 <= n) ns ->
  let k := Nat.min (Z.to_nat (foldr Z.add 0 ns)) (length resp - read) in
  (fifo_reads ns r).1 = sub read k resp /\ completing (fifo_reads ns r).2 resp (read + k).
Proof.
  intros Hc Hns. revert r read Hc. induction Hns as [|n ns Hn Hns IH]; intros r read Hc.
  - cbn. rewrite Nat.add_0_r. by destruct (length resp - read)%nat.
  - cbn [fifo_reads foldr]. destruct (fifo_read_step r resp read n Hc Hn) as (H1 & H2 & _).
    destruct (fifo_reg_read n r) as [b r1]. cbn [fst snd] in H1, H2.
    destruct (IH r1 _ H2) as [H3 H4]. destruct (fifo_reads ns r1) as [bs r2].
    cbn [fst snd] in *. pose proof (cpl_le _ _ _ Hc).
    assert (0 <= foldr Z.add 0 ns) by (clear -Hns; induction Hns; cbn; lia).
    set (k1 := Nat.min (Z.to_nat n) _) in *. set (k2 := Nat.min _ _) in H3, H4.
    assert (Hk : Nat.min (Z.to_nat (n + foldr Z.add 0 ns)) (length resp - read) = (k1 + k2)%nat)
      by (unfold k1, k2; lia).
    rewrite Hk, H1, H3. split; [|by rewrite Nat.add_assoc].
    unfold sub. rewrite <-drop_drop. apply take_take_drop.
Qed.

(** C29. The response of a command is what the host reads from the FIFO, whatever the
    sizes of its reads: together they return its first bytes, as many as were asked
    for, and never a byte more than the response has. *)
Theorem response_delivered n r ns :
  0 < n <= Z.of_nat FIFO_SIZE -> length (data_fifo r) = FIFO_SIZE ->
  Forall (fun n => 0 <= n) ns ->
  let r' := finish_regs n r in
  state r' = tpm_state_completing_cmd /\ data_available r' = true /\
  (fifo_reads ns r').1 = take (Z.to_nat (Z.min (foldr Z.add 0 ns) n)) (data_fifo r).
Proof.
  intros Hn Hlen Hns r'. split; [done|]. split.
  { unfold data_available, sts_bit, r', finish_regs, sts_set. cbn [sts set_sts].
    rewrite !Z.lor_spec. by rewrite !orb_true_r. }
  set (resp := take (Z.to_nat n) (data_fifo r)). unfold FIFO_SIZE in *.
  assert (Hl : length resp = Z.to_nat n) by (unfold resp; rewrite length_take; lia).
  assert (Hc : completing r' resp 0).
  { split; [change (n = Z.of_nat (length resp))|..]; rewrite ?Hl; done || (unfold FIFO_SIZE; lia). }
  destruct (fifo_reads_completing ns r' resp 0 Hc Hns) as [-> _].
  assert (0 <= foldr Z.add 0 ns) by (clear -Hns; induction Hns; cbn; lia).
  rewrite Hl. unfold sub, resp. rewrite drop_0, take_take. f_equal. lia.
Qed.

(** ** Reads past the end of the FIFO *)

(** The read index is past the write index. *)
Record overrun (r : tpm_regs) (k : nat) : Prop := {
  ovr_write : fifo_write_index r = 0;
  ovr_read : fifo_read_index r = Z.of_nat k;
  ovr_pos : (0 < k)%nat
}.

Definition memory (r : tpm_regs) : list Z := data_fifo r ++ memory_after r.

Lemma fifo_read_overrun r k n :
  overrun r k -> 0 <= n -> Z.of_nat k + n < 2 ^ 32 ->
  (fifo_reg_read n r).1 = sub k (Z.to_nat n) (memory r) /\
  overrun (fifo_reg_read n r).2 (k + Z.to_nat n) /\
  memory (fifo_reg_read n r).2 = memory r.
Proof.
  intros [Hw Hr Hk] Hn Hlt. unfold fifo_reg_read. rewrite Hw, Hr.
  assert (Hs : u32 (0 - Z.of_nat k) = 2 ^ 32 - Z.of_nat k).
  { unfold uN. symmetry. apply (Z.mod_unique _ _ (-1)); lia. }
  rewrite Hs, Z.min_l, Nat2Z.id by lia. rewrite (uN_small 32) by lia.
  split; [done|]. split; [|done]. split; cbn; [done|lia|lia].
Qed.

Lemma fifo_reads_overrun ns r k :
  overrun r k -> Forall (fun n => 0 <= n) ns -> Z.of_nat k + foldr Z.add 0 ns < 2 ^ 32 ->
  (fifo_reads ns r).1 = sub k (Z.to_nat (foldr Z.add 0 ns)) (memory r).
Proof.
  intros Ho Hns. revert r k Ho. induction Hns as [|n ns Hn Hns IH]; intros r k Ho Hlt; [done|].
  cbn [foldr fifo_reads] in *.
  assert (0 <= foldr Z.add 0 ns) by (clear -Hns; induction Hns; cbn; lia).
  destruct (fifo_read_overrun r k n Ho Hn) as (H1 & H2 & H3); [lia|].
  destruct (fifo_reg_read n r) as [b r1]. cbn [fst snd] in H1, H2, H3.
  specialize (IH r1 _ H2). destruct (fifo_reads ns r1) as [bs r2].
  cbn [fst snd] in *. rewrite IH, H1, H3, Z2Nat.inj_add by lia.
  unfold sub. rewrite <-drop_drop. apply take_take_drop.
Qed.

(** The host can read memory behind the FIFO.  While a command is being received it
    may read from the FIFO, which moves the read index; when it then writes more than
    the FIFO holds, only the write index is reset, and the reads that follow return
    what is stored from the read index on, without end. *)
Theorem fifo_leaks_memory r cmd n data ns :
  receiving r cmd -> (0 < length cmd)%nat -> fifo_read_index r = 0 ->
  1 <= n <= 64 -> (length data <= 64)%nat ->
  (FIFO_SIZE < length cmd + length data)%nat ->
  Forall (fun n => 0 <= n) ns ->
  let k := Nat.min (Z.to_nat n) (length cmd) in
  Z.of_nat k + foldr Z.add 0 ns < 2 ^ 32 ->
  let r' := fifo_reg_write data (fifo_reg_read n r).2 in
  state r' = tpm_state_ready /\
  (fifo_reads ns r').1 =
    sub k (Z.to_nat (foldr Z.add 0 ns)) (data_fifo r ++ memory_after r).
Proof.
  intros [Hs Hi Hroom Hlen Hd] Hpos Hr0 Hn Hdl Hover Hns k Hk r'.
  assert (Hc : completing r cmd 0) by (split; [done|done|lia|done|done|done]).
  destruct (fifo_read_step r cmd 0 n Hc) as (_ & [Hw1 Hr1 _ _ _ _] & Hs1 & _); [lia|].
  assert (Hm1 : memory (fifo_reg_read n r).2 = memory r) by done.
  set (r1 := (fifo_reg_read n r).2) in *. unfold FIFO_SIZE in *.
  assert (Hr' : r' = set_tpm_state tpm_state_ready (set_write_index 0 r1)).
  { rewrite Hs in Hs1. unfold r', fifo_reg_write. in_receiving Hs1. rewrite Hw1, (uN_small 32) by lia. unfold FIFO_SIZE.
    by rewrite (proj2 (Z.ltb_lt _ _)) by lia. }
  split; [by rewrite Hr'|].
  assert (Ho : overrun r' k).
  { rewrite Hr'. split; [done| |unfold k; lia].
    change (fifo_read_index r1 = Z.of_nat k). rewrite Hr1. unfold k. f_equal. lia. }
  rewrite (fifo_reads_overrun ns r' k Ho Hns Hk), Hr'. exact (f_equal _ Hm1).
Qed.

(** ** Examples *)

(** An interface that is ready, with a secret behind its FIFO. *)
Definition ready_regs : tpm_regs :=
  mkRegs tpm_state_ready 0 0 0xa0 0x04003f80 (zeros FIFO_SIZE) 0 (zeros FW_VER_SIZE)
    (repeat 0xee 64).

Definition get_random : list Z := [0x80; 1; 0; 0; 0; 12; 0; 0; 1; 0x7b; 0; 8].

Example command_delivered_witness :
  let r' := fifo_writes [take 5 get_random; drop 5 get_random] ready_regs in
  expects r' = false /\ (sts_reg_write (le_bytes 4 tpm_go) r').2 = true.
Proof.
  destruct (command_delivered (take 5 get_random) [drop 5 get_random] ready_regs)
    as (_ & _ & H1 & H2); [done|done|done|vm_compute; lia|].
  split; [exact H1|]. by rewrite H2.
Defined.

Example response_delivered_witness :
  (fifo_reads [10; 64] (finish_regs 12 (set_fifo (splice 0 get_random (zeros FIFO_SIZE))
                                          ready_regs))).1 = get_random.
Proof.
  apply (response_delivered 12 (set_fifo (splice 0 get_random (zeros FIFO_SIZE))
                                  ready_regs) [10; 64]);
    [done|done|repeat constructor; lia].
Defined.

(** 2048 bytes are written, one is read, one more is written: reading 2047 more bytes
    and then 64 gives the memory behind the FIFO. *)
Example fifo_leaks_memory_witness :
  let r := set_state tpm_state_receiving_cmd (set_write_index 2048 ready_regs) in
  let r' := fifo_reg_write [0] (fifo_reg_read 1 r).2 in
  state r' = tpm_state_ready /\
  drop 2047 (fifo_reads (repeat 64 33) r').1 = repeat 0xee 64.
Proof.
  destruct (fifo_leaks_memory
    (set_state tpm_state_receiving_cmd (set_write_index 2048 ready_regs))
    (zeros FIFO_SIZE) 1 [0] (repeat 64 33)) as [H1 H2].
  - split; vm_compute; reflexivity || lia.
  - vm_compute; lia.
  - reflexivity.
  - lia.
  - vm_compute; lia.
  - vm_compute; lia.
  - repeat constructor; lia.
  - vm_compute; reflexivity.
  - split; [exact H1|]. rewrite H2. vm_compute. reflexivity.
Defined.
