(* ===== verification/TpmInv.v ===== *)
(** * The TPM task: invariants and the service of reset requests

    The steps of the system ([TpmRegs.tpm_step]) interleave the accesses of the host, the
    stages of the task and the requests of other tasks.  The FIFO indices stay in the buffer
    through every step but two. *)

From S2P Require Import Prelude Vendor TpmRegs TpmProps.

(** ** What the interface relies on *)

(** A handler works inside the buffer it is given. *)
Definition keeps_buffer {W} (h : handler W) : Prop := forall p w,
  bytes (buffer p) ->
  bytes (buffer (h p w).1.2) /\ length (buffer (h p w).1.2) = length (buffer p).

Class DeviceLaws (W : Type) {D : Device W} : Prop := {
  extension_keeps : Forall (fun c => keeps_buffer c.2) extension_cmds;
  strongbox_keeps : keeps_buffer extension_route_strongbox_command;
  ExecuteCommand_response n b w :
    0 <= (ExecuteCommand n b w).1.1 /\ bytes (ExecuteCommand n b w).1.2
}.

(** ** The invariant *)

Record regs_ok (r : tpm_regs) : Prop := {
  ok_length : length (data_fifo r) = FIFO_SIZE;
  ok_bytes : bytes (data_fifo r);
  ok_index : 0 <= fifo_read_index r <= fifo_write_index r;
  ok_write : fifo_write_index r <= Z.of_nat FIFO_SIZE
}.

Definition exec_ok (x : execution) : Prop :=
  exec_alt x = false ->
  0 <= response_size x /\ bytes (response x) /\ buffer_size x = Z.of_nat FIFO_SIZE.

Record tpm_ok {W} (t : tpm W) : Prop := {
  ok_regs : regs_ok (regs t);
  ok_exec x : executing t = Some x -> exec_ok x
}.

(** The response whose size is about to be stored fits the FIFO. *)
Definition stage_ok (p : task_stage) : Prop :=
  match p with
  | response_copied n | read_index_set n => 0 <= n <= Z.of_nat FIFO_SIZE
  | _ => True
  end.

Definition sys_ok {W} (s : system W) : Prop := tpm_ok (sys_tpm s) /\ stage_ok (sys_stage s).

(** The end of a command of [n] bytes, when the host has read more than [n] bytes since the
    read index was reset. *)
Definition overtaken_end {W} (s s' : system W) : Prop :=
  exists n, sys_stage s = read_index_set n /\ n < fifo_read_index (regs (sys_tpm s)) /\
    sys_tpm s' = upd_regs (set_write_index n) (sys_tpm s).

(** The overflow of the FIFO after a read in the middle of a command. *)
Definition overflow_after_read (r r' : tpm_regs) : Prop :=
  state r = tpm_state_receiving_cmd /\ 0 < fifo_read_index r /\
  r' = set_tpm_state tpm_state_ready (set_write_index 0 r).

(** *** Registers *)

Lemma ok_same r r' :
  data_fifo r' = data_fifo r -> fifo_read_index r' = fifo_read_index r ->
  fifo_write_index r' = fifo_write_index r -> regs_ok r -> regs_ok r'.
Proof. intros H1 H2 H3 []. split; by rewrite ?H1, ?H2, ?H3. Qed.

Lemma ok_indices r r' :
  data_fifo r' = data_fifo r ->
  0 <= fifo_read_index r' <= fifo_write_index r' ->
  fifo_write_index r' <= Z.of_nat FIFO_SIZE -> regs_ok r -> regs_ok r'.
Proof. intros H1 H2 H3 []. split; rewrite ?H1; done. Qed.

Lemma set_fifo_ok f r :
  length f = FIFO_SIZE -> bytes f -> regs_ok r -> regs_ok (set_fifo f r).
Proof. intros ? ? []. by split. Qed.

Lemma set_tpm_state_ok s r : regs_ok r -> regs_ok (set_tpm_state s r).
Proof.
  intros H. destruct s; try (by apply (ok_same r)).
  apply (ok_indices r); cbn; done || lia.
Qed.

Lemma access_reg_write_ok d r : regs_ok r -> regs_ok (access_reg_write d r).
Proof.
  intros H. unfold access_reg_write. repeat case_match; try done.
  - by apply (ok_same r).
  - apply set_tpm_state_ok. by apply (ok_same r).
Qed.

Lemma sts_reg_write_ok data r : regs_ok r -> regs_ok (sts_reg_write data r).1.
Proof.
  intros H. unfold sts_reg_write, sts_reg_write_cr, sts_reg_write_tg, sts_reg_write_rr.
  repeat case_match; cbn [fst]; try done; try (by apply set_tpm_state_ok);
    try (by apply (ok_same r)).
  apply (ok_indices r); try done; destruct H; cbn; lia.
Qed.

Lemma fifo_reg_write_ok data r :
  regs_ok r -> bytes data -> (length data <= 64)%nat ->
  regs_ok (fifo_reg_write data r) \/ overflow_after_read r (fifo_reg_write data r).
Proof.
  intros H Hb Hl. unfold fifo_reg_write.
  set (r0 := if _ && _ then _ else r).
  assert (H0 : regs_ok r0) by (unfold r0; case_match; auto using set_tpm_state_ok).
  assert (Hr0 : 0 < fifo_read_index r0 -> r0 = r).
  { unfold r0. destruct (_ && _) eqn:E; [|done]. apply andb_prop in E as [_ E].
    apply Z.eqb_eq in E. cbn. pose proof (ok_index _ H). lia. }
  clearbody r0. case_bool_decide as Hs; [by left|].
  assert (Hs0 : state r0 = tpm_state_receiving_cmd)
    by (destruct (state r0); by try (exfalso; apply Hs)).
  pose proof (ok_index _ H0). pose proof (ok_write _ H0).
  rewrite (uN_small 32) by (unfold FIFO_SIZE in *; lia).
  destruct (Z.ltb_spec (Z.of_nat FIFO_SIZE) (fifo_write_index r0 + Z.of_nat (length data))).
  - destruct (Z.eq_dec (fifo_read_index r0) 0) as [He|He].
    + left. apply (ok_indices r0); cbn; rewrite ?He; unfold FIFO_SIZE; done || lia.
    + right. rewrite <-Hr0 by lia. by split; [|split; [lia|]].
  - left. set (r1 := set_write_index _ _).
    assert (regs_ok r1).
    { unfold r1. set (r2 := set_fifo _ r0). assert (H2' : regs_ok r2).
      { destruct H0. apply set_fifo_ok; [|by apply bytes_splice|done].
        rewrite length_splice; [done|]. unfold FIFO_SIZE in *. lia. }
      change (fifo_write_index r2) with (fifo_write_index r0).
      rewrite (uN_small 32) by (unfold FIFO_SIZE in *; lia).
      apply (ok_indices r2); cbn; unfold FIFO_SIZE in *; done || lia. }
    repeat case_match; by apply (ok_same r1).
Qed.

Lemma fifo_reg_read_ok n r : 0 <= n -> regs_ok r -> regs_ok (fifo_reg_read n r).2.
Proof.
  intros Hn H. pose proof (ok_index _ H). pose proof (ok_write _ H).
  unfold FIFO_SIZE in *. apply (ok_indices r); [done| | |done];
    cbn [fifo_reg_read snd fifo_read_index fifo_write_index set_sts set_read_index].
  - rewrite (uN_small 32 (_ - _)) by lia. rewrite (uN_small 32) by lia. lia.
  - unfold FIFO_SIZE. lia.
Qed.

Lemma read_version_ok n r : regs_ok r -> regs_ok (read_version n r).2.
Proof.
  revert r. induction n as [|n IH]; intros r H; [done|]. cbn [read_version].
  destruct (if _ <? _ then _ else _) as [b r1] eqn:E.
  assert (H1 : regs_ok r1).
  { repeat case_match; simplify_eq; try done. by apply (ok_same r). }
  specialize (IH r1 H1). by destruct (read_version n r1).
Qed.

(** *** Commands *)

Section Laws.
Context {W : Type} {D : Device W} {L : DeviceLaws W}.

Lemma find_handler_keeps c h :
  find_handler extension_cmds c = Some h -> keeps_buffer h.
Proof.
  pose proof extension_keeps as HF. induction HF as [|[c' h'] cmds Hh _ IH]; [done|].
  cbn. case_match; [|done]. by intros [= <-].
Qed.

Lemma extension_route_keeps : keeps_buffer
  (extension_route_command extension_cmds board_id_is_mismatched).
Proof.
  intros p w Hb. unfold extension_route_command. case_match; [done|]. case_match; [done|].
  destruct (find_handler _ _) as [h|] eqn:E; [|done]. by apply (find_handler_keeps _ _ E).
Qed.

Lemma call_extension_keeps cmd room fl code w :
  bytes (payload cmd) -> 0 <= size cmd ->
  let '(total, cmd') := (call_extension_command extension_cmds board_id_is_mismatched
    extension_route_strongbox_command cmd room fl code w).1 in
  0 <= total /\ bytes (payload cmd') /\ length (payload cmd') = length (payload cmd).
Proof.
  intros Hb Hs. unfold call_extension_command.
  destruct (_ <=? size cmd); [|by cbn].
  set (p := mkParams _ _ _ _ _). unfold bind.
  pose proof (extension_route_keeps p w Hb) as Hr.
  pose proof (strongbox_keeps p w Hb) as Hx.
  destruct (_ || _).
  - destruct (extension_route_command _ _ p w) as [[rc p'] w'].
    cbn in *. split; [apply uN_range; lia|exact Hr].
  - destruct (_ =? TPM_CC_VENDOR_STRONGBOX).
    + destruct (extension_route_strongbox_command p w) as [[rc p'] w'].
      cbn in *. split; [apply uN_range; lia|exact Hx].
    + cbn. split; [apply uN_range; lia|done].
Qed.

Lemma execute_command_ok b room alt wi w :
  bytes b -> (12 <= length b)%nat ->
  let '(x, b') := (execute_command b room alt wi w).1 in
  exec_alt x = alt /\ buffer_size x = room /\ 0 <= response_size x /\
  bytes (response x) /\ bytes b' /\ length b' = length b.
Proof.
  intros Hb Hl. unfold execute_command.
  destruct (IS_CUSTOM_CODE _); [|destruct board_id_is_mismatched].
  - pose proof (call_extension_keeps (cmd_of_buffer b) room
      (if alt then VENDOR_CMD_FROM_ALT_IF else 0) (be_val (sub 6 4 b)) w) as HC.
    unfold bind. destruct (call_extension_command _ _ _ _ _ _ _ w) as [[total c] w'].
    cbn [fst] in *. destruct HC as (H1 & H2 & H3).
    { by apply Forall_drop. }
    { by apply be_val_nonneg, bytes_sub. }
    split_and!; try done.
    + constructor.
    + case_match; [|done]. unfold buffer_of_cmd. eauto 10 with bytes_db.
    + case_match; [|done]. unfold buffer_of_cmd.
      rewrite !length_app, !length_be_bytes, !length_sub, H3 by lia.
      cbn [cmd_of_buffer payload]. rewrite length_drop. lia.
  - assert (bytes tpm_broken_response) by (repeat constructor; unfold is_byte; lia).
    cbn [ret fst]. split_and!; try done; [by apply bytes_splice|].
    apply length_splice. cbn. lia.
  - pose proof (ExecuteCommand_response wi b w) as [H1 H2].
    unfold bind. destruct (ExecuteCommand wi b w) as [[n resp] w']. by split_and!.
Qed.

(** *** Reset *)

Definition reset_regs (r : tpm_regs) : tpm_regs :=
  if system_rolling_reboot_suspected then zero_regs r else tpm_init_regs (zero_regs r).

Lemma reset_regs_ok r : regs_ok (reset_regs r).
Proof.
  assert (regs_ok (zero_regs r)).
  { split; [apply length_replicate|apply Forall_replicate; unfold is_byte| |]; cbn; lia. }
  unfold reset_regs, tpm_init_regs. case_match; [done|].
  by apply (ok_same (set_tpm_state tpm_state_idle (zero_regs r))), set_tpm_state_ok.
Qed.

Lemma bind_on_other {A B} (m : ST W A) (k : A -> ST (tpm W) B) t :
  bind (on_other m) k t = k (m (other t)).1 (set_other (m (other t)).2 t).
Proof. unfold bind, on_other. by destruct (m (other t)). Qed.

Lemma on_other_spec {A} (m : ST W A) (t : tpm W) :
  on_other m t = ((m (other t)).1, set_other (m (other t)).2 t).
Proof. unfold on_other. by destruct (m (other t)). Qed.

Lemma bind_modify {B} f (k : unit -> ST (tpm W) B) t : bind (modify f) k t = k tt (f t).
Proof. done. Qed.

Lemma bind_ret {A B} (a : A) (k : A -> ST (tpm W) B) t : bind (ret a) k t = k a t.
Proof. done. Qed.

Lemma bind_assoc {A B C} (m : ST (tpm W) A) (k : A -> ST (tpm W) B)
    (l : B -> ST (tpm W) C) t :
  bind (bind m k) l t = bind m (fun a => bind (k a) l) t.
Proof. unfold bind. by destruct (m t). Qed.

Hint Rewrite @bind_assoc @bind_on_other @bind_modify @bind_ret @on_other_spec : tpm.

(** What the parts of a reset leave, but for the rest of the device. *)
Lemma reset_prepare_spec wipe orderly t : exists c w,
  reset_prepare wipe orderly t =
    (c, set_other w (set_wipe_result
      (if wipe then (nvmem_erase_tpm_data (if_stop (other t)).2).1 else EC.SUCCESS) t)).
Proof.
  unfold reset_prepare. destruct wipe, orderly; cbn [negb andb]; autorewrite with tpm;
    destruct t; cbn; eauto.
Qed.

Lemma reset_clear_spec t : exists w,
  reset_clear t = (tt, set_other w (set_wipe_requested false (upd_regs zero_regs t))).
Proof.
  unfold reset_clear. autorewrite with tpm. destruct (tpm_library_reset _).1. eauto.
Qed.

Lemma reset_reinit_spec wipe orderly c t : exists w,
  (reset_reinit wipe orderly c t).2 = set_other w
    (upd_regs (fun r => if system_rolling_reboot_suspected then r else tpm_init_regs r) t).
Proof.
  unfold reset_reinit, tpm_init.
  destruct wipe, orderly, system_rolling_reboot_suspected; cbn [negb andb]; autorewrite with tpm;
    destruct t; eexists; reflexivity.
Qed.

(** *** One round of the task *)

Lemma execute_command_alt b room alt wi w :
  exec_alt (execute_command b room alt wi w).1.1 = alt.
Proof.
  unfold execute_command, bind, ret.
  destruct (IS_CUSTOM_CODE _); [|destruct board_id_is_mismatched; [done|]].
  - by destruct (call_extension_command _ _ _ _ _ _ _ w) as [[]].
  - by destruct (ExecuteCommand wi b w) as [[]].
Qed.

Lemma start_command_spec alt t : exists x b w,
  (start_command alt t).2 =
    (let t' := set_other w (set_executing (Some x) t) in
     if alt then set_alt b (alt_result t') t' else upd_regs (set_fifo b) t') /\
  (regs_ok (regs t) -> exec_ok x /\ (alt = false -> bytes b /\ length b = FIFO_SIZE)).
Proof.
  unfold start_command. set (buf := if alt then _ else _).
  set (room := Z.of_nat (length buf)). set (wi := fifo_write_index (regs t)).
  pose proof (execute_command_alt buf room alt wi (other t)) as Ha.
  pose proof (execute_command_ok buf room alt wi (other t)) as Hok.
  destruct (execute_command buf room alt wi (other t)) as [[x b] w]. cbn [fst] in *.
  exists x, b, w. split; [by destruct alt|]. intros [Hl Hb _ _].
  destruct alt; [by split; [intros He; congruence|]|].
  destruct Hok as (_ & H2 & H3 & H4 & H5 & H6);
    [exact Hb|unfold buf; rewrite Hl; unfold FIFO_SIZE; lia|].
  unfold buf in H6. rewrite Hl in H6. split; [|done]. intros _. split_and!; try done.
  unfold room in H2. rewrite H2. unfold buf. by rewrite Hl.
Qed.

Definition after_commit (e : Z) (t : tpm W) : tpm W :=
  if nz (Z.land e TPM_EVENT_COMMIT)
  then set_other (nvmem_enable_commits (other t)).2
         (set_evt (clear_bits 32 (evt t) TPM_EVENT_COMMIT) t)
  else t.

Definition interrupt_alt (e : Z) (t : tpm W) : tpm W :=
  if nz (Z.land e TPM_EVENT_ALT_EXTENSION)
  then set_alt (alt_buffer t) ALT_PROCESS_INTERRUPTED t else t.

Definition without_event (e : Z) (t : tpm W) : tpm W :=
  set_evt (clear_bits 32 (evt t) e) t.

(** The events that a round handles, and the state it starts from. *)
Definition round_events (t : tpm W) : Z := if evt t =? 0 then pending t else evt t.

Definition round_start (t : tpm W) : tpm W :=
  if evt t =? 0 then set_pending 0 (set_evt (pending t) t) else t.

Lemma take_events_spec t : take_events t = (round_events t, round_start t).
Proof. unfold take_events, round_events, round_start. by destruct (evt t =? 0). Qed.

Lemma round_commands_spec e t :
  (round_commands e t).2 =
    let t2 := after_commit e t in
    if nz (Z.land e TASK_EVENT_WAKE)
    then (start_command false (without_event TASK_EVENT_WAKE t2)).2
    else if nz (Z.land e TPM_EVENT_ALT_EXTENSION)
    then (start_command true (without_event TPM_EVENT_ALT_EXTENSION t2)).2
    else set_evt 0 t2.
Proof.
  unfold round_commands, after_commit, without_event, drop_event, on_other, bind, modify, ret.
  destruct (nz (Z.land e TPM_EVENT_COMMIT)); cbn [other set_evt];
    [destruct (nvmem_enable_commits (other t)) as [[] w]|];
    destruct (nz (Z.land e TASK_EVENT_WAKE)), (nz (Z.land e TPM_EVENT_ALT_EXTENSION)); done.
Qed.

(** ** The FIFO indices *)

Lemma same_ok (t t' : tpm W) :
  regs t' = regs t -> executing t' = executing t -> tpm_ok t -> tpm_ok t'.
Proof. intros H1 H2 []. split; by rewrite ?H1, ?H2. Qed.

Lemma upd_regs_ok f (t : tpm W) :
  (regs_ok (regs t) -> regs_ok (f (regs t))) -> tpm_ok t -> tpm_ok (upd_regs f t).
Proof. intros Hf []. split; [by apply Hf|done]. Qed.

Lemma round_commands_ok e t :
  executing t = None -> tpm_ok t -> tpm_ok (round_commands e t).2.
Proof.
  intros Hx H. rewrite round_commands_spec. cbn zeta.
  assert (H2 : tpm_ok (after_commit e t)) by (unfold after_commit; case_match; by apply (same_ok t)).
  set (t2 := after_commit _ _) in *. repeat case_match; [..|by apply (same_ok t2)].
  all: match goal with |- tpm_ok (start_command ?alt ?u).2 =>
    destruct (start_command_spec alt u) as (x & b & w & -> & Hs);
    destruct (Hs (ok_regs _ H2)) as [Hx' Hb] end.
  - destruct (Hb eq_refl). split; [by apply set_fifo_ok, H2|]. by intros ? [= <-].
  - split; [apply H2|]. by intros ? [= <-].
Qed.

(** The first half of the end of a command. *)
Lemma finish_copy_spec x t : exists w,
  let t0 := set_other w (set_executing None t) in
  let copy b := if exec_custom x then b
    else splice 0 (take (Z.to_nat (response_size x)) (response x)) b in
  finish_copy x t =
    if nz (response_size x) && (response_size x <=? buffer_size x) then
      if exec_alt x then (None, set_alt (copy (alt_buffer t)) ALT_PROCESS_DONE t0)
      else (Some (response_size x), upd_regs (fun r => set_fifo (copy (data_fifo r)) r) t0)
    else (None, t0).
Proof.
  unfold finish_copy. rewrite bind_modify.
  destruct (nz (response_size x) && _); [|exists (other t); by destruct t].
  set (hook := if _ =? TPM2_PCR_Read then _ else _).
  assert (Hh : exists w, hook (set_executing None t) = (tt, set_other w (set_executing None t))).
  { unfold hook. repeat case_match; [rewrite on_other_spec..|].
    - destruct (system_process_retry_counter _).1; eauto.
    - destruct (board_cfg_reg_write_disable _).1; eauto.
    - exists (other t). by destruct t. }
  destruct Hh as [w Hh]. exists w. unfold bind at 1. rewrite Hh. by destruct (exec_alt x).
Qed.

Lemma finish_command_spec x t : exists w,
  let t0 := set_other w (set_executing None t) in
  let copy b := if exec_custom x then b
    else splice 0 (take (Z.to_nat (response_size x)) (response x)) b in
  (finish_command x t).2 =
    if nz (response_size x) && (response_size x <=? buffer_size x) then
      if exec_alt x then set_alt (copy (alt_buffer t)) ALT_PROCESS_DONE t0
      else upd_regs (fun r => finish_regs (response_size x) (set_fifo (copy (data_fifo r)) r)) t0
    else t0.
Proof.
  destruct (finish_copy_spec x t) as (w & E). exists w. cbv zeta in *. unfold finish_command, bind.
  rewrite E. by repeat case_match.
Qed.

Lemma finish_copy_ok t x : executing t = Some x -> tpm_ok t ->
  tpm_ok (finish_copy x t).2 /\
  forall n, (finish_copy x t).1 = Some n -> 0 <= n <= Z.of_nat FIFO_SIZE.
Proof.
  intros Hx H. pose proof (ok_exec _ H x Hx) as Hox. destruct H as [H _].
  destruct (finish_copy_spec x t) as (w & E). cbv zeta in E. rewrite E. clear E.
  destruct (nz (response_size x) && _) eqn:E; [|by split].
  destruct (exec_alt x) eqn:Ha; [by split|].
  destruct (Hox Ha) as (H0 & Hb & Hr). apply andb_prop in E as [_ E].
  apply Z.leb_le in E. split; [|intros n [= <-]; lia]. split; [|done].
  cbn [snd upd_regs regs set_other set_executing]. destruct (exec_custom x).
  - by apply set_fifo_ok; try apply H.
  - apply set_fifo_ok; [|apply bytes_splice; [by apply Forall_take|apply H]|done].
    rewrite length_splice; [apply H|]. rewrite length_take, (ok_length _ H).
    unfold FIFO_SIZE in *. lia.
Qed.

Lemma zero_regs_ok r : regs_ok (zero_regs r).
Proof.
  split; [apply length_replicate|apply Forall_replicate; unfold is_byte| |]; cbn; lia.
Qed.

Lemma init_regs_ok r : regs_ok r -> regs_ok (tpm_init_regs r).
Proof. intros H. by apply (ok_same (set_tpm_state tpm_state_idle r)), set_tpm_state_ok. Qed.

Lemma task_step_ok s : sys_ok s -> sys_ok (act act_task s) \/ overtaken_end s (act act_task s).
Proof.
  destruct s as [t p]. intros [H Hp]. cbn [sys_tpm sys_stage] in *. unfold act. cbn [sys_tpm sys_stage].
  destruct p as [ |n|n|n|n|v|e|wp o e|wp o c e|wp o c e|e|e|e]; cbn [task_step stage_ok] in *;
    unfold go, bind, modify, ret, gets.
  - left. unfold from_loop. destruct (executing t) as [x|] eqn:Hx.
    + destruct (finish_copy_ok t x Hx H) as [H1 H2].
      destruct (finish_copy x t) as [[n|] t']; split; try done. cbn. by apply H2.
    + rewrite take_events_spec. assert (tpm_ok (round_start t) /\ executing (round_start t) = None)
        as [H1 Hx1] by (unfold round_start; case_match; [split; [by apply (same_ok t)|]|]; done).
      destruct (nz _); split; try done. by apply round_commands_ok.
  - left. split; [|done]. apply upd_regs_ok; [|done]. intros Hr. pose proof (ok_index _ Hr).
    pose proof (ok_write _ Hr). by apply (ok_indices (regs t)); cbn; try lia.
  - destruct (Z.ltb_spec n (fifo_read_index (regs t))) as [Hl|Hl]; [right; by exists n|left].
    split; [|done]. apply upd_regs_ok; [|done]. intros Hr. pose proof (ok_index _ Hr).
    apply (ok_indices (regs t)); cbn; done || lia.
  - left. split; [|done]. apply upd_regs_ok; [|done]. apply set_tpm_state_ok.
  - by left.
  - left. split; [|done]. apply upd_regs_ok; [|done]. by apply ok_same.
  - by left.
  - left. destruct (reset_prepare_spec wp o t) as (c & w & ->). split; [|done]. by apply (same_ok t).
  - left. destruct (reset_clear_spec t) as (w & ->). split; [|done]. cbn [sys_tpm].
    apply (same_ok (upd_regs zero_regs t)); [done|done|].
    apply upd_regs_ok; [intros _; apply zero_regs_ok|done].
  - left. destruct (reset_reinit_spec wp o c t) as (w & Hs).
    destruct (reset_reinit wp o c t) as [[] t'] eqn:E. cbn [snd] in Hs. subst t'. split; [|done].
    cbn [sys_tpm]. apply (same_ok (upd_regs (fun r => if system_rolling_reboot_suspected then r
      else tpm_init_regs r) t)); [done|done|].
    apply upd_regs_ok; [|done]. intros Hr. case_match; [done|by apply init_regs_ok].
  - left. unfold notify_waiting, modify. destruct (task_waiting_for_reset t) as [c|] eqn:Ew;
      (split; [|done]); [|done]. cbn [sys_tpm]. rewrite Ew. by apply (same_ok t).
  - left. split; [|done]. by apply (same_ok t).
  - left. rewrite on_other_spec. destruct (if_start (other t)) as [[] w]. cbn [fst snd].
    unfold interrupt_waiting, modify, ret. destruct (nz _); (split; [|done]); by apply (same_ok t).
Qed.

(** C34. Through every step of the system the FIFO keeps its size and its indices are in
    order and inside it, so that the host reads bytes of the FIFO only, but for two steps:
    a write that overflows the FIFO after the host has read from it in the middle of a
    command, and the store of the write index at the end of a command, when the host has
    read more than the response holds since the task reset the read index.  A register
    access and a request are one step; the end of a command and a reset are cut into the
    steps of the task between which the others come. *)
Theorem fifo_indices_bounded a s s' :
  tpm_step a s s' -> sys_ok s ->
  sys_ok s' \/
  (executing (sys_tpm s') = executing (sys_tpm s) /\
   overflow_after_read (regs (sys_tpm s)) (regs (sys_tpm s'))) \/
  overtaken_end s s'.
Proof.
  intros [Hen ->] [H Hp]. assert (Hr := ok_regs _ H). destruct s as [t p].
  cbn [sys_tpm sys_stage] in *.
  destruct a as [a data|a n| |cur wait wipe cannot|cur|i| |c]; cbn [enabled] in Hen;
    [|left|destruct (task_step_ok (mkSystem t p)); [done|by left|by right; right]|left..];
    cbn [act sys_tpm sys_stage].
  - destruct Hen as (_ & Hl & Hb). cbn [sys_stage] in *.
    enough (tpm_ok (tpm_register_put a data t).2 \/
      (executing (tpm_register_put a data t).2 = executing t /\
       overflow_after_read (regs t) (regs (tpm_register_put a data t).2))) as [Ho|Ho];
      [by left; split|by right; left|].
    unfold tpm_register_put. repeat case_match; rewrite ?on_other_spec;
      try (left; by apply (same_ok t)).
    + left. split; [by apply access_reg_write_ok|apply H].
    + left. unfold modify. pose proof (sts_reg_write_ok data _ Hr) as Hs.
      destruct (sts_reg_write data (regs t)) as [r []]; split; done || apply H.
    + destruct (fifo_reg_write_ok data _ Hr Hb) as [Ho|Ho]; [lia|left; split|by right];
        [done|apply H].
    + left. split; [by apply (ok_same (regs t))|apply H].
  - destruct Hen as (_ & Hn). split; [|done]. cbn [sys_tpm].
    unfold tpm_register_get. rewrite bind_modify.
    set (t0 := set_reset_in_progress false t).
    assert (H0 : tpm_ok t0) by by apply (same_ok t).
    repeat case_match; rewrite ?bind_on_other; try (by apply (same_ok t0)).
    + pose proof (fifo_reg_read_ok n (regs t0)) as Ho.
      destruct (fifo_reg_read n (regs t0)) as [bs r].
      simplify_eq. split; [apply Ho; done || lia|apply H].
    + pose proof (read_version_ok (Z.to_nat n) (regs t0) Hr) as Ho.
      destruct (read_version (Z.to_nat n) (regs t0)) as [bs r].
      simplify_eq. split; [done|apply H].
  - split; [|done]. cbn [sys_tpm]. unfold tpm_reset_request, bind, gets, modify, ret.
    destruct (reset_in_progress t), wait, cannot; by apply (same_ok t).
  - split; [|done]. cbn [sys_tpm]. unfold tpm_reset_resume. case_match; by apply (same_ok t).
  - split; [|done]. cbn [sys_tpm]. unfold tpm_stop.
    destruct i; autorewrite with tpm; by apply (same_ok t).
  - split; [|done]. by apply (same_ok t).
  - split; [|done]. by apply (same_ok t).
Qed.

(** ** What nothing interrupts *)

Lemma finish_uninterrupted x t : executing t = Some x -> exists k,
  Nat.iter k (act act_task) (mkSystem t at_loop) = mkSystem (finish_command x t).2 at_loop.
Proof.
  intros Hx. assert (act act_task (mkSystem t at_loop) =
    mkSystem (finish_copy x t).2
      match (finish_copy x t).1 with Some n => response_copied n | None => at_loop end) as E1.
  { unfold act, task_step, from_loop. cbn [sys_tpm sys_stage]. rewrite Hx.
    by destruct (finish_copy x t). }
  unfold finish_command, bind. destruct (finish_copy x t) as [[n|] t']; cbn [fst snd] in E1.
  - exists 6%nat. rewrite !Nat.iter_succ_r, E1. by destruct t'.
  - exists 1%nat. exact E1.
Qed.

Lemma reset_uninterrupted wipe orderly e t : exists k,
  Nat.iter k (act act_task) (mkSystem t (reset_begun wipe orderly e)) =
    mkSystem (set_evt 0 (interrupt_alt e (tpm_reset_now wipe orderly t).2)) at_loop.
Proof.
  destruct (reset_prepare_spec wipe orderly t) as (c & w1 & E1).
  set (t1 := set_other w1 _) in E1. destruct (reset_clear_spec t1) as (w2 & E2).
  set (t2 := set_other w2 _) in E2. destruct (reset_reinit_spec wipe orderly c t2) as (w3 & E3).
  destruct (reset_reinit wipe orderly c t2) as [[] t3] eqn:Er. cbn [snd] in E3.
  assert (Nat.iter 3 (act act_task) (mkSystem t (reset_begun wipe orderly e))
    = mkSystem t3 (reset_reinitialized e)) as E.
  { assert (act act_task (mkSystem t (reset_begun wipe orderly e)) =
      mkSystem t1 (reset_prepared wipe orderly c e)) as H1.
    { unfold act, task_step, bind. cbn [sys_tpm sys_stage]. by rewrite E1. }
    assert (act act_task (mkSystem t1 (reset_prepared wipe orderly c e)) =
      mkSystem t2 (reset_cleared wipe orderly c e)) as H2.
    { unfold act, task_step, bind. cbn [sys_tpm sys_stage]. by rewrite E2. }
    rewrite !Nat.iter_succ_r, H1, H2. unfold act, task_step, bind. cbn [Nat.iter nat_rect sys_tpm sys_stage].
    by rewrite Er. }
  assert ((tpm_reset_now wipe orderly t).2 =
    (bind notify_waiting (fun _ => bind forget_waiting (fun _ => on_other if_start)) t3).2) as En.
  { unfold tpm_reset_now. unfold bind at 1. rewrite E1. unfold bind at 1. rewrite E2.
    unfold bind at 1. by rewrite Er. }
  assert (forall u, act act_task (mkSystem u (reset_told e)) =
    mkSystem (set_evt 0 (interrupt_alt e (on_other if_start u).2)) at_loop) as Et.
  { intros u. unfold act. cbn [sys_tpm sys_stage task_step]. rewrite !bind_on_other, on_other_spec.
    unfold interrupt_waiting, interrupt_alt, bind, modify, ret.
    destruct (nz _); [|destruct (if_start (other u)).1]; done. }
  destruct (task_waiting_for_reset t3) as [c'|] eqn:Ew.
  - exists 6%nat. change 6%nat with (3 + 3)%nat. rewrite Nat.iter_add, E, !Nat.iter_succ_r.
    assert (act act_task (mkSystem t3 (reset_reinitialized e)) =
      mkSystem (notify_waiting t3).2 (reset_notified e)) as ->.
    { unfold act, task_step, bind, gets. cbn [sys_tpm sys_stage]. by rewrite Ew. }
    change (act act_task (mkSystem (notify_waiting t3).2 (reset_notified e))) with
      (mkSystem (forget_waiting (notify_waiting t3).2).2 (reset_told e)).
    cbn [Nat.iter nat_rect]. by rewrite Et, En.
  - exists 5%nat. change 5%nat with (2 + 3)%nat. rewrite Nat.iter_add, E, !Nat.iter_succ_r.
    assert (act act_task (mkSystem t3 (reset_reinitialized e)) = mkSystem t3 (reset_told e)) as ->.
    { unfold act, task_step, bind, gets. cbn [sys_tpm sys_stage]. by rewrite Ew. }
    cbn [Nat.iter nat_rect]. rewrite Et, En. unfold bind, notify_waiting, forget_waiting, modify.
    rewrite Ew. cbn [snd]. rewrite <-Ew. by destruct t3.
Qed.

(** A round of the task is the steps of its stages. *)
Lemma round_uninterrupted t : executing t = None -> exists k,
  Nat.iter k (act act_task) (mkSystem t at_loop) = mkSystem (tpm_task_round t).2 at_loop.
Proof.
  intros Hx. assert (executing (round_start t) = None) as Hs
    by (unfold round_start; by case_match).
  assert (act act_task (mkSystem t at_loop) =
    if nz (Z.land (round_events t) TPM_EVENT_RESET)
    then mkSystem (round_start t) (reset_taken (round_events t))
    else mkSystem (round_commands (round_events t) (round_start t)).2 at_loop) as E1.
  { unfold act, task_step, from_loop. cbn [sys_tpm sys_stage]. rewrite Hx, take_events_spec.
    by destruct (nz _). }
  unfold tpm_task_round, bind at 1. rewrite take_events_spec. destruct (nz _) eqn:He.
  - destruct (reset_uninterrupted (wipe_requested (round_start t)) true (round_events t)
      (round_start t)) as [k Hk].
    exists (S (S k)). rewrite !Nat.iter_succ_r, E1.
    change (act act_task (mkSystem (round_start t) (reset_taken (round_events t)))) with
      (mkSystem (round_start t)
        (reset_begun (wipe_requested (round_start t)) true (round_events t))).
    rewrite Hk. f_equal.
    unfold bind, gets, interrupt_waiting, interrupt_alt, modify, ret.
    destruct (tpm_reset_now _ true (round_start t)) as [[] u]. by destruct (nz (Z.land (round_events t) TPM_EVENT_ALT_EXTENSION)).
  - exists 1%nat. exact E1.
Qed.

End Laws.

(** ** An example device

    Its TPM library answers every command with success and counts them; the counter
    is erased by a wipe. *)

Definition success_response : list Z := [0x80; 1; 0; 0; 0; 10; 0; 0; 0; 0].

Definition toy_device (mismatched : bool) : Device Z := {|
  extension_cmds := [];
  extension_route_strongbox_command p := ret (0, p);
  board_id_is_mismatched := mismatched;
  ExecuteCommand n b := fun w => ((10, success_response), w + 1);
  system_process_retry_counter := ret tt;
  board_cfg_reg_write_disable := ret tt;
  board_cfg_reg_write v := ret tt;
  board_cfg_reg_read := ret 0;
  nvmem_erase_tpm_data := fun w => (EC.SUCCESS, 0);
  nvmem_enable_commits := ret tt;
  nvmem_disable_commits := ret tt;
  tpm_orderly_state_capture := ret [];
  tpm_orderly_state_restore c := ret tt;
  tpm_library_reset := ret tt;
  tpm_library_init := ret tt;
  system_rolling_reboot_suspected := false;
  version_string := [0x30; 0x3a; 0x30] ++ zeros 77;
  if_start := ret tt;
  if_stop := ret tt
|}.

#[global] Instance toy_device_laws m : @DeviceLaws Z (toy_device m).
Proof.
  split.
  - constructor.
  - done.
  - intros n b w. cbn. split; [lia|]. repeat constructor; unfold is_byte; lia.
Qed.

(** The interface after a reset, and with a command being executed. *)
Abbreviation toy_regs := (@reset_regs Z (toy_device false) ready_regs).

Abbreviation toy_tpm r x :=
  (mkTpm r false false EC.SUCCESS None [] 0 0 [] ALT_PROCESS_DONE x 0).

Abbreviation toy_execution :=
  (mkExec 10 0x17b false false 2048 success_response).

Lemma toy_tpm_ok : tpm_ok (toy_tpm toy_regs (Some toy_execution)).
Proof.
  split; [apply reset_regs_ok|]. intros x [= <-] _. cbn.
  split; [lia|]. split; [repeat constructor; unfold is_byte; lia|done].
Qed.

Abbreviation toy_act := (@act Z (toy_device false)).

Example fifo_indices_bounded_witness :
  let s := mkSystem (toy_tpm toy_regs (Some toy_execution)) at_loop in
  let s' := toy_act act_task s in
  sys_ok s' \/ (executing (sys_tpm s') = executing (sys_tpm s) /\
    overflow_after_read (regs (sys_tpm s)) (regs (sys_tpm s'))) \/ overtaken_end s s'.
Proof.
  exact (@fifo_indices_bounded Z (toy_device false) (toy_device_laws false) act_task
    (mkSystem (toy_tpm toy_regs (Some toy_execution)) at_loop)
    (toy_act act_task (mkSystem (toy_tpm toy_regs (Some toy_execution)) at_loop))
    (conj I eq_refl) (conj toy_tpm_ok I)).
Defined.

(** The host sends a command of twelve bytes, and reads the FIFO between the two stores at
    the end of its execution: the read index ends up behind the response of ten bytes. *)
Definition overtaking : list action :=
  [act_put TPM_STS (le_bytes 4 command_ready); act_put TPM_DATA_FIFO get_random;
   act_put TPM_STS (le_bytes 4 tpm_go); act_task; act_task; act_task;
   act_get TPM_DATA_FIFO 12; act_task; act_task; act_task; act_task].

Example overtaken_reached :
  let s := foldl (fun s a => toy_act a s) (mkSystem (toy_tpm toy_regs None) at_loop) overtaking in
  sys_stage s = at_loop /\ state (regs (sys_tpm s)) = tpm_state_completing_cmd /\
  fifo_read_index (regs (sys_tpm s)) = 12 /\ fifo_write_index (regs (sys_tpm s)) = 10.
Proof. by vm_compute. Qed.
