(* ===== verification/TpmReset.v ===== *)
(** * The TPM task: reset requests, refused commands, lost and late responses

    The steps of a reset are interleaved with the host and the other tasks: a request that
    comes while no reset runs is served ([reset_served]); a wipe asked for while one runs can
    be lost ([wipe_lost]). *)

From S2P Require Import Prelude Vendor TpmRegs TpmProps TpmInv.

(** ** Events *)

Lemma nz_land_bit e i : 0 <= i -> nz (Z.land e (2 ^ i)) = Z.testbit e i.
Proof.
  intros Hi. assert (Hb : Z.land e (2 ^ i) = if Z.testbit e i then 2 ^ i else 0).
  { apply Z.bits_inj'. intros j Hj. rewrite Z.land_spec, Z.pow2_bits_eqb by lia.
    destruct (Z.eqb_spec i j) as [->|Hne].
    - destruct (Z.testbit e j); [by rewrite Z.pow2_bits_true|by rewrite Z.bits_0].
    - rewrite andb_false_r. destruct (Z.testbit e i); [|by rewrite Z.bits_0].
      by rewrite Z.pow2_bits_false. }
  rewrite Hb. destruct (Z.testbit e i); [|done]. apply nz_pos, Z.pow_pos_nonneg; lia.
Qed.

Lemma clear_event e i j :
  0 <= i < 32 -> 0 <= j < 32 ->
  Z.testbit (clear_bits 32 e (2 ^ j)) i = Z.testbit e i && negb (i =? j).
Proof.
  intros Hi Hj. rewrite clear_bits_testbit, Z.pow2_bits_eqb by lia. by rewrite (Z.eqb_sym j).
Qed.

Definition reset_event (e : Z) : bool := Z.testbit e 1.
Definition alt_event (e : Z) : bool := Z.testbit e 3.
Definition wake_event (e : Z) : bool := Z.testbit e 29.

Lemma reset_event_spec e : nz (Z.land e TPM_EVENT_RESET) = reset_event e.
Proof. by apply nz_land_bit. Qed.

Lemma alt_event_spec e : nz (Z.land e TPM_EVENT_ALT_EXTENSION) = alt_event e.
Proof. by apply nz_land_bit. Qed.

Lemma wake_event_spec e : nz (Z.land e TASK_EVENT_WAKE) = wake_event e.
Proof. by apply nz_land_bit. Qed.

Lemma reset_event_lor a b : reset_event (Z.lor a b) = reset_event a || reset_event b.
Proof. apply Z.lor_spec. Qed.

Section Reset.
Context {W : Type} {D : Device W}.
Implicit Types (t : tpm W) (s : system W).

(** ** Runs *)

Definition run (acts : list action) s : system W := foldl (fun s a => act a s) s acts.

Fixpoint all_enabled (acts : list action) s : Prop :=
  match acts with
  | [] => True
  | a :: acts => enabled a s /\ all_enabled acts (act a s)
  end.

Definition is_task (a : action) : bool := match a with act_task => true | _ => false end.
Definition is_request (a : action) : bool :=
  match a with act_request _ _ _ _ => true | _ => false end.

Definition tasks (acts : list action) : nat := length (List.filter is_task acts).

(** The states in which the task takes its steps. *)
Fixpoint task_trace (acts : list action) s : list (system W) :=
  match acts with
  | [] => []
  | a :: acts => (if is_task a then [s] else []) ++ task_trace acts (act a s)
  end.

Definition quiet (acts : list action) : bool := forallb (fun a => negb (is_request a)) acts.

(** ** A requested reset takes place *)

(** A reset has been requested, and its event has not been taken. *)
Definition reset_due t : bool := reset_event (pending t) || reset_event (evt t).

(** What a request leaves for the reset. *)
Definition requested t : bool * Z * option Z :=
  (wipe_requested t, wipe_result t, task_waiting_for_reset t).

(** Steps of the task until the event is taken, at most. *)
Definition stage_left (p : task_stage) : nat :=
  match p with
  | response_copied _ => 5 | read_index_set _ => 4 | write_index_set _ => 3
  | state_set _ => 2 | sts_read _ => 1 | _ => 0
  end.
Definition events_left (e : Z) : nat :=
  if (e =? 0) || reset_event e then 1
  else 2 + 7 * Nat.b2n (wake_event e) + 7 * Nat.b2n (alt_event e).
Definition steps_left s : nat :=
  stage_left (sys_stage s) + (if executing (sys_tpm s) then 6 else 0)
  + events_left (evt (sys_tpm s)).

Lemma events_left_le e :
  (1 <= events_left e <= 2 + 7 * Nat.b2n (wake_event e) + 7 * Nat.b2n (alt_event e))%nat.
Proof. unfold events_left. case_match; lia. Qed.

Lemma steps_left_bound s : (steps_left s <= 27)%nat.
Proof.
  unfold steps_left. pose proof (events_left_le (evt (sys_tpm s))) as He.
  destruct (sys_stage s), (executing (sys_tpm s)), (wake_event _), (alt_event _); cbn in *; lia.
Qed.

Lemma after_commit_frame e t :
  let t' := after_commit e t in
  pending t' = pending t /\ requested t' = requested t /\ executing t' = executing t /\
  reset_event (evt t') = reset_event (evt t) /\
  alt_event (evt t') = alt_event (evt t) /\ wake_event (evt t') = wake_event (evt t).
Proof.
  unfold after_commit. case_match; [|done].
  unfold reset_event, alt_event, wake_event, TPM_EVENT_COMMIT. cbn [pending evt executing
    set_other set_evt]. rewrite !clear_event by lia. by rewrite !andb_true_r.
Qed.

Lemma start_command_frame alt t :
  let t' := (start_command alt t).2 in
  pending t' = pending t /\ evt t' = evt t /\ requested t' = requested t.
Proof.
  unfold start_command. destruct (execute_command _ _ _ _ _) as [[x b] w].
  by destruct alt.
Qed.

Lemma finish_copy_frame x t :
  let t' := (finish_copy x t).2 in
  pending t' = pending t /\ evt t' = evt t /\ requested t' = requested t /\ executing t' = None.
Proof.
  destruct (finish_copy_spec x t) as (w & E). cbv zeta in E. rewrite E. by repeat case_match.
Qed.

(** The commands of a round, when an event is left over from the last one. *)
Lemma round_commands_left t :
  evt t <> 0 -> reset_event (evt t) = false ->
  let t' := (round_commands (evt t) t).2 in
  pending t' = pending t /\ requested t' = requested t /\
  ((if executing t' then 6 else 0) + events_left (evt t')
     < (if executing t then 6 else 0) + events_left (evt t) + if executing t then 7 else 0)%nat.
Proof.
  intros Hne Hr. cbv zeta. rewrite round_commands_spec. cbv zeta.
  rewrite alt_event_spec, wake_event_spec.
  destruct (after_commit_frame (evt t) t) as (Hp & Hw & Hx & He & Ha & Hk).
  set (t2 := after_commit (evt t) t) in *.
  unfold events_left at 2. rewrite (proj2 (Z.eqb_neq _ _) Hne), Hr. cbn [orb].
  destruct (wake_event (evt t)) eqn:Ew; [|destruct (alt_event (evt t)) eqn:Ea].
  - destruct (start_command_frame false (without_event TASK_EVENT_WAKE t2)) as (Hp' & He' & Hw').
    set (t' := (start_command _ _).2) in *. rewrite Hp', Hw'. split; [done|]. split; [done|].
    pose proof (events_left_le (evt t')) as Hl. rewrite He' in *.
    cbn [evt without_event set_evt] in *. unfold wake_event, alt_event, TASK_EVENT_WAKE in *.
    rewrite !clear_event in Hl by lia. rewrite Ha, Z.eqb_refl, andb_false_r, andb_true_r in Hl.
    cbn [Nat.b2n] in *. destruct (executing t'), (executing t); lia.
  - destruct (start_command_frame true (without_event TPM_EVENT_ALT_EXTENSION t2))
      as (Hp' & He' & Hw').
    set (t' := (start_command _ _).2) in *. rewrite Hp', Hw'. split; [done|]. split; [done|].
    pose proof (events_left_le (evt t')) as Hl. rewrite He' in *.
    cbn [evt without_event set_evt] in *. unfold wake_event, alt_event, TPM_EVENT_ALT_EXTENSION in *.
    rewrite !clear_event in Hl by lia. rewrite Hk, Z.eqb_refl, andb_false_r, andb_true_r in Hl.
    cbn [Nat.b2n] in *. destruct (executing t'), (executing t); lia.
  - cbn [pending evt executing set_evt].
    change (requested (set_evt 0 t2)) with (requested t2). rewrite Hp, Hw, Hx.
    split; [done|]. split; [done|]. cbn. destruct (executing t); lia.
Qed.

(** A step of the task outside of a reset brings the reset nearer, or takes its event. *)
Lemma task_progress s :
  in_reset (sys_stage s) = false -> reset_due (sys_tpm s) = true ->
  let s' := act act_task s in
  requested (sys_tpm s') = requested (sys_tpm s) /\
  ((exists e, sys_stage s' = reset_taken e) \/
   (in_reset (sys_stage s') = false /\ reset_due (sys_tpm s') = true /\
    (steps_left s' < steps_left s)%nat)).
Proof.
  destruct s as [t p]. cbn [sys_tpm sys_stage]. intros Hp Hdue. unfold act, steps_left.
  cbn [sys_tpm sys_stage].
  destruct p as [ |n|n|n|n|v|e|wp o e|wp o c e|wp o c e|e|e|e]; try done; cbn [task_step];
    unfold go, bind, modify, ret, gets; cbn [sys_tpm sys_stage stage_left];
    try (split; [done|]; right; split; [done|]; split; [done|cbn; lia]).
  unfold from_loop. destruct (executing t) as [x|] eqn:Hx.
  - destruct (finish_copy_frame x t) as (H1 & H2 & H3 & H4).
    destruct (finish_copy x t) as [n t']. cbn [snd] in *. split; [done|]. right.
    cbn [sys_tpm sys_stage]. unfold reset_due in *. rewrite H1, H2, H4.
    split; [by destruct n|]. split; [done|].
    destruct n; cbn; lia.
  - rewrite take_events_spec, reset_event_spec.
    destruct (reset_event (round_events t)) eqn:Hr.
    { split; [unfold round_start; by case_match|]. by left; eexists. }
    unfold reset_due, round_events, round_start in *.
    destruct (Z.eqb_spec (evt t) 0) as [E|E].
    { by rewrite E, Hr in Hdue. }
    destruct (round_commands_left t E Hr) as (H1 & H2 & H3).
    split; [done|]. right. split; [done|]. rewrite Hr, orb_false_r in Hdue.
    rewrite Hx in H3. cbn [sys_tpm sys_stage stage_left]. split; [by rewrite H1, Hdue|lia].
Qed.

(** The other steps leave the task where it is. *)
Lemma put_frame a data t :
  let t' := (tpm_register_put a data t).2 in
  evt t' = evt t /\ wipe_requested t' = wipe_requested t /\
  (reset_event (pending t) = true -> reset_event (pending t') = true) /\
  executing t' = executing t /\ wipe_result t' = wipe_result t /\
  task_waiting_for_reset t' = task_waiting_for_reset t.
Proof.
  unfold tpm_register_put, modify. repeat case_match; rewrite ?on_other_spec;
    cbn -[Z.lor reset_event]; try done.
  split_and!; try done. intros Hr. by rewrite reset_event_lor, Hr.
Qed.

Lemma get_frame a n t :
  let t' := (tpm_register_get a n t).2 in
  evt t' = evt t /\ wipe_requested t' = wipe_requested t /\ pending t' = pending t /\
  executing t' = executing t /\ wipe_result t' = wipe_result t /\
  task_waiting_for_reset t' = task_waiting_for_reset t.
Proof.
  unfold tpm_register_get. rewrite bind_modify. repeat case_match; rewrite ?bind_on_other; done.
Qed.

(** What the other steps do not do to a state; [told] says that no request is made. *)
Record others_frame (told : bool) s s' : Prop := {
  of_stage : sys_stage s' = sys_stage s;
  of_evt : evt (sys_tpm s') = evt (sys_tpm s);
  of_executing : executing (sys_tpm s') = executing (sys_tpm s);
  of_wipe : wipe_requested (sys_tpm s) = true -> wipe_requested (sys_tpm s') = true;
  of_due : reset_due (sys_tpm s) = true -> reset_due (sys_tpm s') = true;
  of_regs : interface_stopped (sys_stage s) = true -> regs (sys_tpm s') = regs (sys_tpm s);
  of_told : told = true -> wipe_result (sys_tpm s') = wipe_result (sys_tpm s) /\
    task_waiting_for_reset (sys_tpm s') = task_waiting_for_reset (sys_tpm s)
}.

Lemma others_refl b s : others_frame b s s.
Proof. by split. Qed.

Lemma others_trans b s1 s2 s3 :
  others_frame b s1 s2 -> others_frame b s2 s3 -> others_frame b s1 s3.
Proof.
  intros [] []. split; try congruence; try auto.
  - intros Hs. transitivity (regs (sys_tpm s2)); [|auto]. apply of_regs1. congruence.
  - intros Hb. destruct (of_told0 Hb), (of_told1 Hb). split; congruence.
Qed.

Lemma others_act a s :
  is_task a = false -> enabled a s -> others_frame (negb (is_request a)) s (act a s).
Proof.
  destruct s as [t p]. intros Ht He. unfold enabled in He.
  destruct a as [a data|a n| |cur wait wipe cannot|cur|i| |c]; try done; cbn [sys_stage] in He.
  - destruct (put_frame a data t) as (H1 & H2 & H3 & H4 & H5 & H6), He as [He _].
    split; cbn [act sys_tpm sys_stage]; try done.
    + by rewrite H2.
    + unfold reset_due. rewrite H1. intros Hd. apply orb_true_iff in Hd as [Hd|Hd];
        [by rewrite H3|by rewrite Hd, orb_true_r].
    + by rewrite He.
  - destruct (get_frame a n t) as (H1 & H2 & H3 & H4 & H5 & H6), He as [He _].
    split; cbn [act sys_tpm sys_stage]; try done.
    + by rewrite H2.
    + unfold reset_due. by rewrite H1, H3.
    + by rewrite He.
  - unfold act, tpm_reset_request, bind, gets, modify, ret. cbn [sys_tpm sys_stage].
    destruct (reset_in_progress t), wait, cannot; split; cbn -[Z.lor reset_event]; try done;
      try (by intros ->); unfold reset_due; cbn -[Z.lor reset_event]; rewrite reset_event_lor;
      intros Hd; apply orb_true_iff in Hd as [Hd|Hd]; by rewrite Hd, ?orb_true_r.
  - unfold act, tpm_reset_resume. cbn [sys_tpm sys_stage]. case_match; by split.
  - unfold act, tpm_stop. cbn [sys_tpm sys_stage].
    destruct i; rewrite ?bind_on_other, ?bind_ret; by split.
  - split; cbn -[Z.lor reset_event]; try done. unfold reset_due. cbn -[Z.lor reset_event].
    rewrite reset_event_lor. intros Hd. apply orb_true_iff in Hd as [Hd|Hd]; by rewrite Hd, ?orb_true_r.
  - split; cbn -[Z.lor reset_event]; try done. unfold reset_due. cbn -[Z.lor reset_event].
    rewrite reset_event_lor. intros Hd. apply orb_true_iff in Hd as [Hd|Hd]; by rewrite Hd, ?orb_true_r.
Qed.

Lemma others_weaken b b' s s' : (b' = true -> b = true) -> others_frame b s s' -> others_frame b' s s'.
Proof. intros Hb []. split; auto. Qed.

(** The next step of the task. *)
Lemma next_task acts s :
  all_enabled acts s -> (0 < tasks acts)%nat -> exists u acts',
    others_frame (quiet acts) s u /\ all_enabled acts' (act act_task u) /\
    tasks acts = S (tasks acts') /\ (quiet acts = true -> quiet acts' = true) /\
    task_trace acts s = u :: task_trace acts' (act act_task u).
Proof.
  revert s. induction acts as [|a acts IH]; intros s He Ht; [cbn in Ht; lia|].
  destruct He as [He Hes]. destruct (is_task a) eqn:Ea.
  - destruct a; try done. exists s, acts. split_and!; try done; apply others_refl.
  - destruct (IH (act a s)) as (u & acts' & H1 & H2 & H3 & H4 & H5); [done| |].
    { unfold tasks in *. cbn [List.filter] in Ht. by rewrite Ea in Ht. }
    exists u, acts'. split_and!; [|done| | |].
    + apply (others_trans _ _ (act a s)).
      * apply (others_weaken (negb (is_request a))); [|by apply others_act].
        unfold quiet. cbn [forallb]. intros Hq. by apply andb_true_iff in Hq as [Hq _].
      * apply (others_weaken (quiet acts)); [|done].
        unfold quiet. cbn [forallb]. intros Hq. by apply andb_true_iff in Hq as [_ Hq].
    + unfold tasks. cbn [List.filter]. by rewrite Ea.
    + unfold quiet in *. cbn [forallb]. intros Hq. apply andb_true_iff in Hq as [_ Hq]. auto.
    + cbn [task_trace]. by rewrite Ea.
Qed.

Lemma others_left b s u : others_frame b s u -> steps_left u = steps_left s.
Proof. intros [Hs He Hx _ _ _ _]. unfold steps_left. by rewrite Hs, He, Hx. Qed.

(** The task takes the event within its next 28 steps. *)
Lemma reset_taken_soon n : forall acts s,
  (steps_left s <= n)%nat ->
  all_enabled acts s -> in_reset (sys_stage s) = false -> reset_due (sys_tpm s) = true ->
  (n < tasks acts)%nat ->
  exists i e u acts',
    (i <= n)%nat /\ sys_stage u = reset_taken e /\
    (wipe_requested (sys_tpm s) = true -> wipe_requested (sys_tpm u) = true) /\
    all_enabled acts' u /\ (tasks acts <= tasks acts' + S n)%nat /\
    (quiet acts = true -> quiet acts' = true /\
      task_waiting_for_reset (sys_tpm u) = task_waiting_for_reset (sys_tpm s)) /\
    drop (S i) (task_trace acts s) = task_trace acts' u.
Proof.
  induction n as [|n IH]; intros acts s Hn He Hs Hd Ht;
    (destruct (next_task acts s He) as (v & acts1 & Hf & He1 & Ht1 & Hq1 & Htr); [lia|]);
    pose proof (others_left _ _ _ Hf) as Hl; destruct Hf;
    destruct (task_progress v) as (Hreq & Hp); [by rewrite of_stage0|auto| |by rewrite of_stage0|auto|];
    set (v' := act act_task v) in *; clearbody v';
    unfold requested in Hreq; injection Hreq as Hw Hres Hwait.
  all: destruct Hp as [[e Hp]|(Hs' & Hd' & Hlt)].
  1, 3: exists 0%nat, e, v', acts1; split_and!;
    first [done|lia|rewrite Hw; auto; fail|by rewrite Htr|
           intros Hq; split; [auto|rewrite Hwait; by apply of_told0]].
  - exfalso. lia.
  - destruct (IH acts1 v') as (i & e & u & acts' & H1 & H2 & H3 & H4 & H5 & H6 & H7);
      try done; try lia.
    exists (S i), e, u, acts'. split_and!; try done; [lia|rewrite Hw in H3; auto|lia| |by rewrite Htr].
    intros Hq. destruct (H6 (Hq1 Hq)) as [H8 H9]. split; [done|]. rewrite H9, Hwait. by apply of_told0.
Qed.

(** C5. An accepted reset request is served.  When it comes while no reset runs, in every
    run in which the task takes 33 steps more, whatever the host and the other tasks do
    between its steps, the task takes the event within the first 28 and goes through a
    reset: the TPM's data is erased first when the request (or an earlier one that was not
    served) asked for it, and the registers are initialised.  When no other request is made
    in the run, a caller that waits is told, and the result it then finds is that of the
    erasure.  A request made while another is in progress is refused and changes nothing.
    The request itself is taken as one step. *)
Theorem reset_served current wait wipe cannot acts s :
  let a := act_request current wait wipe cannot in
  let s0 := act a s in
  in_reset (sys_stage s) = false -> all_enabled acts s0 -> (33 <= tasks acts)%nat ->
  if reset_in_progress (sys_tpm s)
  then (tpm_reset_request current wait wipe cannot (sys_tpm s)).1 = Some EC.ERROR_BUSY /\ s0 = s
  else exists (i : nat) (wq : bool) (e : Z) (c : list Z) (u1 u2 u3 u4 : system W),
    let result := if wq then (nvmem_erase_tpm_data (if_stop (other (sys_tpm u1))).2).1
                  else EC.SUCCESS in
    (i <= 29)%nat /\ take 4 (drop i (task_trace acts s0)) = [u1; u2; u3; u4] /\
    sys_stage u1 = reset_begun wq true e /\ sys_stage u2 = reset_prepared wq true c e /\
    sys_stage u3 = reset_cleared wq true c e /\ sys_stage u4 = reset_reinitialized e /\
    (wipe_requested (sys_tpm s) || wipe = true -> wq = true) /\
    wipe_result (sys_tpm (act act_task u1)) = result /\
    regs (sys_tpm u4) = reset_regs (regs (sys_tpm u2)) /\
    (quiet acts = true -> wait && negb cannot = true ->
      let t' := sys_tpm (act act_task u4) in
      current ∈ notified t' /\ wipe_result t' = result).
Proof.
  intros a s0 Hs He Ht. destruct s as [t p]. cbn [sys_tpm sys_stage] in *.
  destruct (reset_in_progress t) eqn:Hb.
  { unfold s0, a, act, tpm_reset_request, bind, gets, ret. cbn [sys_tpm sys_stage]. by rewrite Hb. }
  assert (reset_due (sys_tpm s0) = true /\ sys_stage s0 = p /\
    (wipe_requested t || wipe = true -> wipe_requested (sys_tpm s0) = true) /\
    (wait && negb cannot = true -> task_waiting_for_reset (sys_tpm s0) = Some current))
    as (Hdue & Hp & Hw & Hwait).
  { unfold s0, a, act, tpm_reset_request, bind, gets, ret, modify. cbn [sys_tpm sys_stage].
    rewrite Hb. destruct wait, cannot; cbn -[Z.lor reset_event]; unfold reset_due;
      cbn -[Z.lor reset_event]; rewrite reset_event_lor, (orb_comm (reset_event (pending t)));
      by split_and!. }
  destruct (reset_taken_soon 27 acts s0) as (i & e & u & acts0 & Hi & Hu & Hwu & He0 & Ht0 & Hq0 & Htr);
    [apply steps_left_bound|done|by rewrite Hp|done|lia|].
  destruct u as [tu pu]. cbn [sys_tpm sys_stage] in *. subst pu.
  destruct (next_task acts0 _ He0) as (v0 & acts1 & F0 & He1 & Ht1 & Hq1 & Htr1); [lia|].
  destruct v0 as [t0 p0]. pose proof (of_stage _ _ _ F0) as Hp0. cbn [sys_stage] in Hp0. subst p0.
  set (wq := wipe_requested t0).
  change (act act_task (mkSystem t0 (reset_taken e))) with (mkSystem t0 (reset_begun wq true e)) in *.
  destruct (next_task acts1 _ He1) as (v1 & acts2 & F1 & He2 & Ht2 & Hq2 & Htr2); [lia|].
  destruct v1 as [t1 p1]. pose proof (of_stage _ _ _ F1) as Hp1. cbn [sys_stage] in Hp1. subst p1.
  destruct (reset_prepare_spec wq true t1) as (c & w1 & E1).
  assert (act act_task (mkSystem t1 (reset_begun wq true e)) =
    mkSystem (reset_prepare wq true t1).2 (reset_prepared wq true c e)) as A1.
  { unfold act, task_step, bind. cbn [sys_tpm sys_stage]. by rewrite E1. }
  rewrite A1, E1 in He2, Htr2. cbn [snd] in He2, Htr2.
  destruct (next_task acts2 _ He2) as (v2 & acts3 & F2 & He3 & Ht3 & Hq3 & Htr3); [lia|].
  destruct v2 as [t2 p2]. pose proof (of_stage _ _ _ F2) as Hp2. cbn [sys_stage] in Hp2. subst p2.
  destruct (reset_clear_spec t2) as (w2 & E2).
  assert (act act_task (mkSystem t2 (reset_prepared wq true c e)) =
    mkSystem (reset_clear t2).2 (reset_cleared wq true c e)) as A2.
  { unfold act, task_step, bind. cbn [sys_tpm sys_stage]. by rewrite E2. }
  rewrite A2, E2 in He3, Htr3. cbn [snd] in He3, Htr3.
  destruct (next_task acts3 _ He3) as (v3 & acts4 & F3 & He4 & Ht4 & Hq4 & Htr4); [lia|].
  destruct v3 as [t3 p3]. pose proof (of_stage _ _ _ F3) as Hp3. cbn [sys_stage] in Hp3. subst p3.
  destruct (reset_reinit_spec wq true c t3) as (w3 & E3).
  assert (act act_task (mkSystem t3 (reset_cleared wq true c e)) =
    mkSystem (reset_reinit wq true c t3).2 (reset_reinitialized e)) as A3.
  { unfold act, task_step, bind. cbn [sys_tpm sys_stage]. by destruct (reset_reinit wq true c t3). }
  rewrite A3, E3 in He4, Htr4.
  destruct (next_task acts4 _ He4) as (v4 & acts5 & F4 & He5 & Ht5 & Hq5 & Htr5); [lia|].
  destruct v4 as [t4 p4]. pose proof (of_stage _ _ _ F4) as Hp4. cbn [sys_stage] in Hp4. subst p4.
  exists (S (S i)), wq, e, c, (mkSystem t1 (reset_begun wq true e)),
    (mkSystem t2 (reset_prepared wq true c e)), (mkSystem t3 (reset_cleared wq true c e)),
    (mkSystem t4 (reset_reinitialized e)). cbn [sys_tpm sys_stage].
  split; [lia|]. split.
  { replace (S (S i)) with (S i + 1)%nat by lia. rewrite <-drop_drop, Htr, Htr1.
    cbn [drop]. rewrite Htr2, Htr3, Htr4, Htr5. done. }
  do 4 (split; [done|]). split.
  { intros Hx. unfold wq. apply (of_wipe _ _ _ F0). by apply Hwu, Hw. }
  split; [by rewrite A1, E1|]. split.
  { pose proof (of_regs _ _ _ F4 eq_refl) as G4. pose proof (of_regs _ _ _ F3 eq_refl) as G3.
    cbn [sys_tpm regs upd_regs set_other set_wipe_requested] in G3, G4. by rewrite G4, G3. }
  intros Hq Hwt. destruct (Hq0 Hq) as [Hq0' Hwu0].
  destruct (of_told _ _ _ F0 Hq0') as [_ W0], (of_told _ _ _ F1 (Hq1 Hq0')) as [_ W1],
    (of_told _ _ _ F2 (Hq2 (Hq1 Hq0'))) as [R2 W2],
    (of_told _ _ _ F3 (Hq3 (Hq2 (Hq1 Hq0')))) as [R3 W3],
    (of_told _ _ _ F4 (Hq4 (Hq3 (Hq2 (Hq1 Hq0'))))) as [R4 W4].
  cbn [sys_tpm set_other set_wipe_result set_wipe_requested upd_regs wipe_result
    task_waiting_for_reset] in W0, W1, R2, W2, R3, W3, R4, W4.
  assert (task_waiting_for_reset t4 = Some current) as Hc by (rewrite W4, W3, W2, W1, W0, Hwu0; auto).
  unfold act, task_step, bind, gets, notify_waiting, modify, ret. cbn [sys_tpm sys_stage].
  rewrite Hc. cbn [sys_tpm notified set_waiting wipe_result]. rewrite Hc.
  split; [by left|]. cbn [wipe_result set_waiting]. by rewrite R4, R3, R2.
Qed.

(** ** A wipe that is requested while a reset runs *)

(** What a reset does to the rest of the device depends on the rest of the device. *)
Lemma reset_parts_other wipe orderly c t t' : other t = other t' ->
  (reset_prepare wipe orderly t).1 = (reset_prepare wipe orderly t').1 /\
  other (reset_prepare wipe orderly t).2 = other (reset_prepare wipe orderly t').2 /\
  other (reset_clear t).2 = other (reset_clear t').2 /\
  other (reset_reinit wipe orderly c t).2 = other (reset_reinit wipe orderly c t').2.
Proof.
  intros E. unfold reset_prepare, reset_clear, reset_reinit, tpm_init.
  destruct wipe, orderly, system_rolling_reboot_suspected; cbn [negb andb];
    repeat rewrite ?bind_assoc, ?bind_on_other, ?bind_modify, ?bind_ret, ?on_other_spec;
    cbn [other set_other upd_regs set_wipe_result set_wipe_requested snd fst]; rewrite E;
    split_and!; reflexivity.
Qed.

(** The task goes on from the [memset] to the notification. *)
Lemma from_prepared o c e t :
  let t2 := (reset_reinit false o c (reset_clear t).2).2 in
  Nat.iter 2 (act act_task) (mkSystem t (reset_prepared false o c e)) =
    mkSystem t2 (reset_reinitialized e) /\
  wipe_requested t2 = false /\ requested t2 = (false, wipe_result t, task_waiting_for_reset t) /\
  notified t2 = notified t.
Proof.
  destruct (reset_clear_spec t) as (w1 & E1). rewrite E1. cbn [snd]. set (t1 := set_other w1 _).
  destruct (reset_reinit_spec false o c t1) as (w2 & E2). cbv zeta.
  split; [|by rewrite E2].
  rewrite !Nat.iter_succ_r. assert (act act_task (mkSystem t (reset_prepared false o c e)) =
    mkSystem t1 (reset_cleared false o c e)) as ->.
  { unfold act, task_step, bind. cbn [sys_tpm sys_stage]. by rewrite E1. }
  cbn [Nat.iter nat_rect]. unfold act, task_step, bind. cbn [sys_tpm sys_stage].
  by destruct (reset_reinit false o c t1).
Qed.

Lemma from_reinitialized e t :
  act act_task (mkSystem t (reset_reinitialized e)) =
  mkSystem (notify_waiting t).2
    (if task_waiting_for_reset t then reset_notified e else reset_told e).
Proof.
  unfold act, task_step, bind, gets, notify_waiting, modify. cbn [sys_tpm sys_stage].
  by destruct (task_waiting_for_reset t) eqn:E; rewrite ?E.
Qed.

Lemma other_notify t : other (notify_waiting t).2 = other t.
Proof. unfold notify_waiting, modify. cbn [snd]. by case_match. Qed.

Lemma lost_from_prepared current o c e t t0 :
  task_waiting_for_reset t0 = Some current -> wipe_result t0 = EC.SUCCESS -> other t0 = other t ->
  let s1 := Nat.iter 3 (act act_task) (mkSystem t0 (reset_prepared false o c e)) in
  sys_stage s1 = reset_notified e /\ (tpm_reset_resume current (sys_tpm s1)).1 = EC.SUCCESS /\
  wipe_requested (sys_tpm s1) = false /\
  other (sys_tpm s1) =
    other (sys_tpm (Nat.iter 3 (act act_task) (mkSystem t (reset_prepared false o c e)))).
Proof.
  intros Hc Hr Ho. cbv zeta. rewrite !Nat.iter_succ.
  destruct (from_prepared o c e t0) as (E0 & Hw & Hq & _), (from_prepared o c e t) as (E & _).
  destruct (reset_parts_other false o c t0 t Ho) as (_ & _ & H1 & _).
  destruct (reset_parts_other false o c (reset_clear t0).2 (reset_clear t).2 H1) as (_ & _ & _ & H2).
  cbn [Nat.iter nat_rect] in E0, E. cbn [Nat.iter nat_rect]. rewrite E0, E.
  set (t2 := (reset_reinit false o c (reset_clear t0).2).2) in *. unfold requested in Hq.
  injection Hq as Hq1 Hq2 Hq3. rewrite !from_reinitialized. cbn [sys_tpm sys_stage].
  rewrite !other_notify, H2. split; [by rewrite Hq3, Hc|].
  unfold notify_waiting, modify, tpm_reset_resume. rewrite Hq3, Hc. cbn [snd notified set_waiting].
  rewrite bool_decide_eq_true_2 by (by left). cbn. by rewrite Hq2.
Qed.

(** A wipe can be lost.  A task that asks for a wipe while a reset without a wipe is
    running (as the one at the start of the task), before the reset has cleared the
    library's variables, is told that the wipe is done, with the result of success, after
    three or four steps of the TPM task: its request is forgotten, and the rest of the
    device, the stored data with it, is what it is without the request. *)
Theorem wipe_lost current o c e t p :
  reset_in_progress t = false ->
  p = reset_begun false o e \/ p = reset_prepared false o c e ->
  let s0 := act (act_request current true true false) (mkSystem t p) in
  exists k, (3 <= k <= 4)%nat /\ let s1 := Nat.iter k (act act_task) s0 in
    sys_stage s1 = reset_notified e /\ (tpm_reset_resume current (sys_tpm s1)).1 = EC.SUCCESS /\
    wipe_requested (sys_tpm s1) = false /\
    other (sys_tpm s1) = other (sys_tpm (Nat.iter k (act act_task) (mkSystem t p))).
Proof.
  intros Hb Hp. cbv zeta.
  set (t0 := (tpm_reset_request current true true false t).2).
  change (act (act_request current true true false) (mkSystem t p)) with (mkSystem t0 p).
  assert (task_waiting_for_reset t0 = Some current /\ wipe_result t0 = EC.SUCCESS /\
    other t0 = other t) as (Hc & Hr & Ho).
  { unfold t0, tpm_reset_request, bind, gets. rewrite Hb. done. }
  destruct Hp as [-> | ->].
  - exists 4%nat. split; [lia|]. rewrite !(Nat.iter_succ_r 3).
    assert (forall u, act act_task (mkSystem u (reset_begun false o e)) =
      mkSystem (reset_prepare false o u).2 (reset_prepared false o (reset_prepare false o u).1 e)) as E.
    { intros u. unfold act, task_step, bind. cbn [sys_tpm sys_stage].
      by destruct (reset_prepare false o u). }
    rewrite !E. destruct (reset_parts_other false o [] t0 t Ho) as (H1 & H2 & _). rewrite H1.
    apply lost_from_prepared; [..|done];
      destruct (reset_prepare_spec false o t0) as (c' & w & ->); [exact Hc|done].
  - exists 3%nat. split; [lia|]. by apply lost_from_prepared.
Qed.

(** ** Refused commands *)

(** The first ten bytes of the FIFO and the registers of a refusal. *)
Definition refused_regs (r : tpm_regs) : tpm_regs :=
  finish_regs 10 (set_fifo (splice 0 tpm_broken_response (data_fifo r)) r).

(** While the board ID is mismatched no TPM command reaches the TPM library: it is
    answered with the ten bytes of the lockout response, and until the response is
    handed out nothing else of the device has changed. *)
Theorem mismatched_command_refused t :
  board_id_is_mismatched = true ->
  IS_CUSTOM_CODE (be_val (sub 6 4 (data_fifo (regs t)))) = false ->
  length (data_fifo (regs t)) = FIFO_SIZE ->
  let t1 := (start_command false t).2 in
  exists x, executing t1 = Some x /\ other t1 = other t /\
    regs (finish_command x t1).2 = refused_regs (regs t) /\
    take 10 (data_fifo (refused_regs (regs t))) = tpm_broken_response.
Proof.
  intros Hm Hc Hl t1. unfold t1, start_command, execute_command.
  rewrite Hc, Hm. cbn [ret]. eexists. split; [done|]. split; [done|].
  split; [|done].
  match goal with |- regs (finish_command ?x ?u).2 = _ =>
    destruct (finish_command_spec x u) as (w & ->) end.
  cbn [response_size buffer_size exec_alt exec_custom response]. rewrite Hl.
  cbn [nz Z.eqb length tpm_broken_response negb andb Z.leb].
  change (Z.of_nat 10 <=? Z.of_nat FIFO_SIZE) with true.
  change (nz (Z.of_nat 10)) with true. cbn [andb].
  unfold refused_regs. rewrite <-(splice_twice tpm_broken_response). done.
Qed.

(** ** Responses that are lost or late *)

(** A response that is empty or does not fit in the buffer is dropped, and with it
    the end of the command: the registers stay as they were. *)
Lemma finish_drops x t :
  nz (response_size x) && (response_size x <=? buffer_size x) = false ->
  (finish_command x t).2 = set_executing None t.
Proof. intros H. unfold finish_command, finish_copy. by rewrite bind_assoc, bind_modify, H. Qed.

(** A vendor command whose answer does not fit in the FIFO. *)
Lemma vendor_command_lost h p rc p' w' t :
  let b := data_fifo (regs t) in
  be_val (sub 6 4 b) = TPM_CC_VENDOR_CR50 ->
  p = mkParams (be_val (sub 10 2 b)) (drop 12 b)
        (be_val (sub 2 4 b) - sizeof_tpm_cmd_header)
        (Z.of_nat FIFO_SIZE - sizeof_tpm_cmd_header) 0 ->
  12 <= be_val (sub 2 4 b) -> length b = FIFO_SIZE ->
  find_handler extension_cmds (be_val (sub 10 2 b)) = Some h ->
  board_id_is_mismatched = false ->
  h p (other t) = ((rc, p'), w') ->
  Z.of_nat FIFO_SIZE - sizeof_tpm_cmd_header < out_size p' < 2 ^ 32 - 12 ->
  let t1 := (start_command false t).2 in
  exists x, executing t1 = Some x /\
    let t2 := (finish_command x t1).2 in
    executing t2 = None /\ other t2 = w' /\
    state (regs t2) = state (regs t) /\ sts (regs t2) = sts (regs t).
Proof.
  intros b Hcode Hp Hsz Hlen Hfind Hm Hh Hout t1.
  set (n := out_size p' + sizeof_tpm_cmd_header).
  assert (Hn : u32 n = n) by (apply uN_small; unfold n, sizeof_tpm_cmd_header in *;
                               unfold FIFO_SIZE in *; lia).
  assert (He : exists b', execute_command b (Z.of_nat (length b)) false
    (fifo_write_index (regs t)) (other t) =
    ((mkExec n TPM_CC_VENDOR_CR50 true false (Z.of_nat (length b)) [], b'), w')).
  { unfold execute_command. rewrite Hcode.
    change (IS_CUSTOM_CODE TPM_CC_VENDOR_CR50) with true. cbn iota.
    unfold call_extension_command, cmd_of_buffer.
    cbn [size subcommand_code payload command_code].
    unfold sizeof_tpm_cmd_header in *. rewrite (proj2 (Z.leb_le 12 _) Hsz).
    change (TPM_CC_VENDOR_CR50 =? CONFIG_EXTENSION_COMMAND) with false.
    change (TPM_CC_VENDOR_CR50 =? TPM_CC_VENDOR_CR50) with true. cbn [orb].
    unfold bind at 1 2 3. unfold extension_route_command. cbn [code flags].
    change (nz (Z.land 0 (Z.lor VENDOR_CMD_FROM_USB VENDOR_CMD_FROM_ALT_IF))) with false.
    rewrite Hm, Hfind, Hlen, (uN_small 32 (_ - 12)) by (unfold FIFO_SIZE; lia).
    cbn [andb]. rewrite <-Hp, Hh.
    cbn [ret]. change (out_size p' + 12) with n. rewrite Hn. eauto. }
  destruct He as [b' He]. unfold t1, start_command. fold b. rewrite He.
  eexists. split; [done|]. cbn zeta. rewrite finish_drops; [done|].
  cbn [response_size buffer_size]. rewrite Hlen.
  rewrite (proj2 (Z.leb_gt n _)), andb_false_r; [done|].
  unfold n, sizeof_tpm_cmd_header in *. lia.
Qed.

(** A write of the command-ready bit. *)
Definition put_command_ready (t : tpm W) : tpm W :=
  (tpm_register_put TPM_STS (le_bytes 4 command_ready) t).2.

Lemma put_command_ready_spec t :
  put_command_ready t = upd_regs sts_reg_write_cr t.
Proof.
  assert (Hw : forall r, sts_reg_write (le_bytes 4 command_ready) r =
                         (sts_reg_write_cr r, false)) by reflexivity.
  unfold put_command_ready, tpm_register_put, modify.
  change (TPM_STS =? TPM_ACCESS) with false. change (TPM_STS =? TPM_STS) with true.
  cbn [snd]. by rewrite Hw.
Qed.

Lemma data_available_finish n r : data_available (finish_regs n r) = true.
Proof.
  unfold data_available, sts_bit, finish_regs, sts_set. cbn [sts set_sts].
  by rewrite !Z.lor_spec, !orb_true_r.
Qed.

Lemma fifo_write_first data r :
  state r = tpm_state_ready -> fifo_write_index r = 0 -> (length data <= 64)%nat ->
  let r' := fifo_reg_write data r in
  state r' = tpm_state_receiving_cmd /\ data_fifo r' = splice 0 data (data_fifo r).
Proof.
  intros Hs Hi Hl. unfold fifo_reg_write. rewrite Hs, Hi. cbn [andb].
  rewrite (bool_decide_eq_true_2 (tpm_state_ready = tpm_state_ready)) by done. cbn [Z.eqb andb].
  rewrite bool_decide_eq_false_2 by (intros Hne; by apply Hne).
  cbn [set_tpm_state set_state fifo_write_index]. rewrite Hi.
  rewrite (uN_small 32) by lia.
  rewrite (proj2 (Z.ltb_ge (Z.of_nat FIFO_SIZE) _)) by (unfold FIFO_SIZE; lia).
  by repeat case_match.
Qed.

(** The host cannot take a command back: when it cancels a command that is being
    executed and starts to send another one, the end of the first command breaks off
    the transfer, overwrites the bytes sent and offers its response as the answer. *)
Theorem cancelled_command_answers x t data :
  executing t = Some x -> exec_alt x = false -> exec_custom x = false ->
  state (regs t) = tpm_state_executing_cmd ->
  nz (response_size x) && (response_size x <=? buffer_size x) = true ->
  (1 <= length data <= 64)%nat ->
  let t1 := (tpm_register_put TPM_DATA_FIFO data
               (put_command_ready (put_command_ready t))).2 in
  state (regs t1) = tpm_state_receiving_cmd /\ executing t1 = Some x /\
  let r2 := regs (finish_command x t1).2 in
  state r2 = tpm_state_completing_cmd /\ data_available r2 = true /\
  fifo_write_index r2 = response_size x /\
  data_fifo r2 = splice 0 (take (Z.to_nat (response_size x)) (response x))
                   (splice 0 data (data_fifo (regs t))).
Proof.
  intros Hx Ha Hc Hs He Hl t1.
  assert (Hr : regs t1 = fifo_reg_write data
            (sts_reg_write_cr (sts_reg_write_cr (regs t)))).
  { unfold t1. rewrite !put_command_ready_spec. done. }
  unfold sts_reg_write_cr in Hr. rewrite Hs in Hr.
  cbn [set_tpm_state state sts_set sts_clear set_sts set_state set_read_index
    set_write_index] in Hr.
  destruct (fifo_write_first data (sts_set command_ready (set_tpm_state tpm_state_ready
    (set_tpm_state tpm_state_idle (regs t))))) as [H1 H2]; [done|done|lia|].
  assert (Hr' : regs t1 = fifo_reg_write data (sts_set command_ready
    (set_tpm_state tpm_state_ready (set_tpm_state tpm_state_idle (regs t))))) by exact Hr.
  rewrite Hr'. split; [exact H1|].
  split; [unfold t1; by rewrite !put_command_ready_spec|].
  assert (Hf : regs (finish_command x t1).2 =
    finish_regs (response_size x) (set_fifo (splice 0
      (take (Z.to_nat (response_size x)) (response x)) (data_fifo (regs t1))) (regs t1))).
  { destruct (finish_command_spec x t1) as (w & ->). by rewrite He, Ha, Hc. }
  rewrite Hf. split; [done|]. split; [apply data_available_finish|]. split; [done|].
  cbn [finish_regs data_fifo sts_set sts_clear set_sts set_tpm_state set_state
    set_write_index set_read_index set_fifo]. by rewrite Hr', H2.
Qed.
End Reset.

(** ** Examples *)

(** A reset with a wipe is requested while an event is left over and the host reads a
    register; the data, 5, is erased. *)
Definition toy_asked : tpm Z :=
  mkTpm ready_regs false false EC.SUCCESS None [] 0 TPM_EVENT_COMMIT [] ALT_PROCESS_DONE None 5.

Definition toy_acts : list action :=
  act_task :: act_get TPM_STS 4 :: act_commits :: repeat act_task 33.

Abbreviation toy_run := (@run Z (toy_device false)).

Example reset_served_witness :
  let s := mkSystem toy_asked at_loop in
  let s0 := toy_act (act_request 7 true true false) s in
  (exists (i : nat) (u1 u2 u4 : system Z), take 1 (drop i (@task_trace Z (toy_device false) toy_acts s0)) = [u1] /\
     regs (sys_tpm u4) = @reset_regs Z (toy_device false) (regs (sys_tpm u2)) /\ 7 ∈ notified (sys_tpm (toy_act act_task u4))) /\
  other (sys_tpm (toy_run toy_acts s0)) = 0.
Proof.
  split; [|by vm_compute].
  destruct (@reset_served Z (toy_device false) 7 true true false toy_acts
    (mkSystem toy_asked at_loop) eq_refl) as
    (i & wq & e & c & u1 & u2 & u3 & u4 & _ & Ht & _ & _ & _ & _ & _ & _ & Hr & Hn).
  - repeat (split; [try exact I; try (split; [reflexivity|lia])|]). exact I.
  - cbv; lia.
  - exists i, u1, u2, u4. split; [|split; [exact Hr|apply Hn; reflexivity]].
    transitivity (take 1 [u1; u2; u3; u4]); [rewrite <-Ht|reflexivity].
    by rewrite take_take.
Defined.

(** The first reset of the task runs, and a task asks for a wipe: 5 is kept. *)
Example wipe_lost_witness :
  exists k, (3 <= k <= 4)%nat /\
    other (sys_tpm (Nat.iter k (toy_act act_task) (toy_act (act_request 7 true true false)
      (mkSystem toy_asked (reset_begun false false 0))))) = 5.
Proof.
  destruct (@wipe_lost Z (toy_device false) 7 false [] 0 toy_asked
    (reset_begun false false 0) eq_refl (or_introl eq_refl)) as (k & Hk & _ & _ & _ & H).
  exists k. split; [exact Hk|]. rewrite H. destruct k as [|[|[|[|[|k]]]]]; try reflexivity; lia.
Defined.

(** A TPM2_GetRandom command in the FIFO. *)
Abbreviation toy_command_regs :=
  (set_state tpm_state_executing_cmd
     (set_fifo (splice 0 get_random (zeros FIFO_SIZE)) ready_regs)).

Example mismatched_command_refused_witness :
  let t1 := (@start_command Z (toy_device true) false (toy_tpm toy_command_regs None)).2 in
  exists x, executing t1 = Some x /\ other t1 = 0 /\
    regs (@finish_command Z (toy_device true) x t1).2 = refused_regs toy_command_regs /\
    take 10 (data_fifo (refused_regs toy_command_regs)) = tpm_broken_response.
Proof.
  exact (@mismatched_command_refused Z (toy_device true) (toy_tpm toy_command_regs None)
    eq_refl eq_refl eq_refl).
Defined.

Example cancelled_command_answers_witness :
  let t1 := (@tpm_register_put Z (toy_device false) TPM_DATA_FIFO [0x80; 1; 0; 0]
    (@put_command_ready Z (toy_device false)
       (@put_command_ready Z (toy_device false)
          (toy_tpm toy_command_regs (Some toy_execution))))).2 in
  state (regs t1) = tpm_state_receiving_cmd /\
  state (regs (@finish_command Z (toy_device false) toy_execution t1).2) =
    tpm_state_completing_cmd.
Proof.
  destruct (@cancelled_command_answers Z (toy_device false) toy_execution
    (toy_tpm toy_command_regs (Some toy_execution)) [0x80; 1; 0; 0]
    eq_refl eq_refl eq_refl eq_refl eq_refl ltac:(cbn; lia)) as (H1 & _ & H2 & _).
  split; [exact H1|exact H2].
Defined.
