(* ===== verification/PwTpm.v ===== *)
(** * PinWeaver behind the TPM interface

    A PinWeaver message arrives in a vendor command; its answer is handed to the host
    by the TPM task.  The wrapped response length of old try_auth requests
    ([PwLeaf.old_protocol_length_wraps]) is what the task then refuses to deliver. *)

From S2P Require Import Prelude NvStore Vendor PwTypes Pinweaver PwTree PwToy PwLeaf.
From S2P Require Import TpmRegs TpmProps TpmInv TpmReset.

(** The vendor command whose payload is a message. *)
Definition pinweaver_command (message : list Z) : list Z :=
  [0x80; 1] ++ be_bytes 4 (12 + Z.of_nat (length message)) ++
  be_bytes 4 TPM_CC_VENDOR_CR50 ++ be_bytes 2 CC.PINWEAVER ++ message.

Lemma length_pinweaver_command m : length (pinweaver_command m) = (12 + length m)%nat.
Proof. unfold pinweaver_command. rewrite !length_app, !length_be_bytes. done. Qed.

(** Reading its fields where it stands at the start of a buffer. *)
Lemma pinweaver_command_fields m rest :
  Z.of_nat (length m) < 2 ^ 31 ->
  let b := pinweaver_command m ++ rest in
  be_val (sub 2 4 b) = 12 + Z.of_nat (length m) /\
  be_val (sub 6 4 b) = TPM_CC_VENDOR_CR50 /\
  be_val (sub 10 2 b) = CC.PINWEAVER /\ drop 12 b = m ++ rest.
Proof.
  intros Hm b.
  assert (H4 : forall x, exists a0 a1 a2 a3, be_bytes 4 x = [a0; a1; a2; a3])
    by (intros x; unfold be_bytes; cbn; eauto).
  assert (Hv := be_val_bytes 4 (12 + Z.of_nat (length m)) ltac:(lia)).
  unfold b, pinweaver_command.
  destruct (H4 (12 + Z.of_nat (length m))) as (a0 & a1 & a2 & a3 & E). rewrite E in *.
  split; [exact Hv|]. split; [reflexivity|]. split; reflexivity.
Qed.

Section PwTpm.
Context {S H : Type} `{!NvStore S} `{!PinweaverHw H} {D : Device (pw_state S H)}.
Hypothesis pinweaver_declared :
  find_handler extension_cmds CC.PINWEAVER = Some pw_vendor_specific_command.
Hypothesis board_id_matches : board_id_is_mismatched = false.

(** C35. A try_auth request of the old protocol that fails early is never answered: its
    response length wraps, the task drops the response as too long, and the interface
    stays in the executing state with no data available, although the request was
    processed. *)
Theorem old_try_auth_hangs message rest (t : tpm (pw_state S H)) code w' :
  let m := message ++ rest in
  data_fifo (regs t) = pinweaver_command message ++ rest ->
  length (data_fifo (regs t)) = FIFO_SIZE ->
  (sizeof_request_header <= length message)%nat ->
  Z.of_nat (length message) = get 2 2 m + Z.of_nat sizeof_request_header ->
  at_ m 0 = 0 -> at_ m 1 = PW.TRY_AUTH ->
  reply (dispatch PW.TRY_AUTH (drop sizeof_request_header m) (get 2 2 m)) (other t) =
    ((code, []), w') ->
  length (root (pw_merkle_tree w')) = 32%nat ->
  state (regs t) = tpm_state_executing_cmd ->
  exists x, executing (start_command false t).2 = Some x /\
    let t' := (finish_command x (start_command false t).2).2 in
    executing t' = None /\ other t' = w' /\
    state (regs t') = tpm_state_executing_cmd /\
    data_available (regs t') = data_available (regs t).
Proof.
  intros m Hb Hlen Hmsg Hsize Hv Hty Hr Hroot Hst.
  assert (Hl : (12 + length message + length rest = FIFO_SIZE)%nat)
    by (rewrite <-Hlen, Hb, length_app, length_pinweaver_command; done).
  assert (Hl' : length m = (length message + length rest)%nat) by apply length_app.
  unfold FIFO_SIZE in Hl.
  destruct (pinweaver_command_fields message rest) as (H1 & H2 & H3 & H4); [lia|].
  rewrite <-Hb in H1, H2, H3, H4.
  set (p := mkParams CC.PINWEAVER m (Z.of_nat (length message)) 2036 0).
  assert (Hwf : well_formed_message p) by (split; [exact Hsize|cbn in *; lia]).
  destruct (old_protocol_length_wraps p (other t) code w' Hwf Hv Hty Hr Hroot)
    as (p' & Hh & Hout); [cbn [p buffer]; lia|].
  destruct (vendor_command_lost pw_vendor_specific_command p RC.VENDOR_RC_SUCCESS p' w' t)
    as (x & Hx & Hx2 & Ho & Hs & Hsts); try done.
  - unfold p. rewrite H1, H3, H4. unfold sizeof_tpm_cmd_header. f_equal. lia.
  - rewrite H1. lia.
  - by rewrite H3.
  - rewrite Hout. unfold sizeof_tpm_cmd_header. unfold FIFO_SIZE. lia.
  - exists x. split; [done|]. split_and!; try done.
    + by rewrite Hs.
    + unfold data_available, sts_bit. by rewrite Hsts.
Qed.
End PwTpm.

(** ** An example *)

Definition pw_device : Device toy_state := {|
  extension_cmds := [(CC.PINWEAVER, pw_vendor_specific_command)];
  extension_route_strongbox_command p := ret (0, p);
  board_id_is_mismatched := false;
  ExecuteCommand n b := ret (10, success_response);
  system_process_retry_counter := ret tt;
  board_cfg_reg_write_disable := ret tt;
  board_cfg_reg_write v := ret tt;
  board_cfg_reg_read := ret 0;
  nvmem_erase_tpm_data := ret EC.SUCCESS;
  nvmem_enable_commits := ret tt;
  nvmem_disable_commits := ret tt;
  tpm_orderly_state_capture := ret [];
  tpm_orderly_state_restore c := ret tt;
  tpm_library_reset := ret tt;
  tpm_library_init := ret tt;
  system_rolling_reboot_suspected := false;
  version_string := zeros 80;
  if_start := ret tt;
  if_stop := ret tt
|}.

(** A try_auth request of the old protocol whose length is wrong. *)
Abbreviation old_message := [0; PW.TRY_AUTH; 4; 0; 0; 0; 0; 0].

Abbreviation old_fifo := (pinweaver_command old_message ++ zeros 2028).

Abbreviation pw_tpm :=
  (mkTpm (set_state tpm_state_executing_cmd (set_fifo old_fifo ready_regs))
     false false EC.SUCCESS None [] 0 0 [] ALT_PROCESS_DONE None toy_tree).

Example old_try_auth_hangs_witness :
  exists x, executing (@start_command toy_state pw_device false pw_tpm).2 = Some x /\
    state (regs (@finish_command toy_state pw_device x
      (@start_command toy_state pw_device false pw_tpm).2).2) = tpm_state_executing_cmd.
Proof.
  assert (E : reply (dispatch PW.TRY_AUTH
      (drop sizeof_request_header (old_message ++ zeros 2028))
      (get 2 2 (old_message ++ zeros 2028)))
      toy_tree = ((PW.ERR_LENGTH_INVALID, []), toy_tree)) by (vm_compute; reflexivity).
  assert (Hr : length (root (pw_merkle_tree toy_tree)) = 32%nat) by (vm_compute; reflexivity).
  destruct (@old_try_auth_hangs _ _ _ _ pw_device eq_refl eq_refl old_message (zeros 2028)
    pw_tpm PW.ERR_LENGTH_INVALID toy_tree) as (x & H1 & _ & _ & H2 & _).
  - reflexivity.
  - vm_compute; reflexivity.
  - apply Nat.leb_le; vm_compute; reflexivity.
  - vm_compute; reflexivity.
  - reflexivity.
  - reflexivity.
  - exact E.
  - exact Hr.
  - reflexivity.
  - exists x. split; [exact H1|exact H2].
Defined.
