(* ===== verification/Flash.v ===== *)
(** * The flash driver (chip/g/flash.c)

    [FlashDev] is what the driver offers to the rest of the firmware, with its laws;
    the driver itself runs over a [FlashController], the registers of the hardware.
    The main array holds two halves of 256 KB and is memory-mapped; the INFO page has
    2 KB.  The locks around each operation are not modelled. *)

From S2P Require Import Prelude.

(** ** Memory: the byte at each address *)

Definition memory : Type := Z -> Z.

#[global] Instance memory_equiv : Equiv memory := fun m m' => forall a, m a = m' a.

#[global] Instance memory_equivalence : Equivalence (≡@{memory}).
Proof.
  split.
  - intros m a. done.
  - intros m m' H a. by rewrite H.
  - intros m1 m2 m3 H1 H2 a. by rewrite H1, H2.
Qed.

Definition read_bytes (m : memory) (off : Z) (n : nat) : list Z :=
  map (fun i => m (off + Z.of_nat i)) (seq 0 n).

(** A little-endian word. *)
Definition read_word (m : memory) (off : Z) : Z := le_val (read_bytes m off 4).

Definition in_range (off len a : Z) : bool := (off <=? a) && (a <? off + len).

(** Programming clears bits, erasing sets them all. *)
Definition programmed (off : Z) (data : list Z) (m : memory) : memory := fun a =>
  if in_range off (Z.of_nat (length data)) a then Z.land (m a) (at_ data (a - off)) else m a.

Definition erased (off len : Z) (m : memory) : memory := fun a =>
  if in_range off len a then 255 else m a.

(** After an operation that failed: outside the range nothing has changed, and
    programming has only cleared bits that it was to clear. *)
Definition only_in (off len : Z) (m m' : memory) : Prop :=
  forall a, in_range off len a = false -> m' a = m a.

Definition partly_programmed (off : Z) (data : list Z) (m m' : memory) : Prop :=
  only_in off (Z.of_nat (length data)) m m' /\
  forall a, in_range off (Z.of_nat (length data)) a = true ->
    Z.land (m' a) (at_ data (a - off)) = Z.land (m a) (at_ data (a - off)) /\
    Z.land (m a) (m' a) = m' a.

(** ** Constants *)

Definition FLASH_SIZE : Z := 512 * 1024.
Definition FLASH_HALF : Z := Z.shiftr FLASH_SIZE 1.
Definition FLASH_ERASE_SIZE : Z := 0x800.
Definition FLASH_WRITE_SIZE : Z := 4.
Definition FLASH_WRITE_IDEAL_SIZE : Z := 128.
Definition FLASH_ROW_SIZE : Z := 256.
Definition FLASH_INFO_SIZE : Z := 2 * 1024.
Definition PROGRAM_MEMORY_BASE : Z := 0x40000.

(** The page of the flash log, at the end of the second RO section
    ([CONFIG_FLASH_LOG_BASE - CONFIG_PROGRAM_MEMORY_BASE], [CONFIG_FLASH_LOG_SPACE]). *)
Definition FLASH_LOG_SPACE : Z := FLASH_ERASE_SIZE.
Definition FLASH_LOG_OFFSET : Z := FLASH_HALF + 0x4000 - FLASH_LOG_SPACE.

(** An error that is logged may change the page of the flash log, by an event that is added or
    a compaction, and nothing else. *)
Definition logged (m m' : memory) : Prop := only_in FLASH_LOG_OFFSET FLASH_LOG_SPACE m m'.

(** An operation on the main array, and then perhaps the log of its error. *)
Definition then_logged (op : memory -> Prop) (m' : memory) : Prop :=
  exists m1, op m1 /\ logged m1 m'.

(** ** The interface *)

Class FlashDev (F : Type) := {
  flash_main : F -> memory;
  flash_info : F -> memory;
  flash_physical_erase : Z -> Z -> ST F Z;
  flash_physical_write : Z -> list Z -> ST F Z;
  flash_physical_info_read_word : Z -> ST F (Z * Z);  (* result code and word *)
  flash_info_physical_write : Z -> list Z -> ST F Z;
  flash_info_write_enable : ST F unit;
  flash_info_write_disable : ST F unit;
  flash_open_ro_window : Z -> Z -> ST F unit;
  flash_close_ro_window : ST F unit
}.

(** What it promises: success means that the whole operation took place, and in any
    case nothing outside its range changes but the flash log, into which an operation that
    failed may have put an event. *)
Class FlashDevLaws (F : Type) `{!FlashDev F} : Prop := {
  flash_write_ok off data f f' :
    bytes data -> 0 <= off -> off + Z.of_nat (length data) <= FLASH_SIZE ->
    flash_physical_write off data f = (EC.SUCCESS, f') ->
    flash_main f' ≡ programmed off data (flash_main f) /\ flash_info f' ≡ flash_info f;
  flash_write_any off data f rv f' :
    bytes data -> 0 <= off -> off + Z.of_nat (length data) <= FLASH_SIZE ->
    flash_physical_write off data f = (rv, f') ->
    then_logged (partly_programmed off data (flash_main f)) (flash_main f') /\
    flash_info f' ≡ flash_info f;
  flash_erase_ok off len f f' :
    0 <= off -> 0 <= len -> off + len <= FLASH_SIZE ->
    flash_physical_erase off len f = (EC.SUCCESS, f') ->
    flash_main f' ≡ erased off len (flash_main f) /\ flash_info f' ≡ flash_info f;
  flash_erase_any off len f rv f' :
    0 <= off -> 0 <= len -> off + len <= FLASH_SIZE ->
    flash_physical_erase off len f = (rv, f') ->
    then_logged (only_in off len (flash_main f)) (flash_main f') /\
    flash_info f' ≡ flash_info f;
  flash_info_read_any off f rv w f' :
    0 <= off -> off + 4 <= FLASH_INFO_SIZE ->
    flash_physical_info_read_word off f = ((rv, w), f') ->
    (rv = EC.SUCCESS -> w = read_word (flash_info f) off /\ flash_main f' ≡ flash_main f) /\
    0 <= rv < 256 /\ logged (flash_main f) (flash_main f') /\ flash_info f' ≡ flash_info f;
  flash_info_write_ok off data f f' :
    bytes data ->
    flash_info_physical_write off data f = (EC.SUCCESS, f') ->
    flash_info f' ≡ programmed off data (flash_info f) /\ flash_main f' ≡ flash_main f;
  flash_info_write_any off data f rv f' :
    bytes data ->
    flash_info_physical_write off data f = (rv, f') ->
    partly_programmed off data (flash_info f) (flash_info f') /\ 0 <= rv < 256 /\
    logged (flash_main f) (flash_main f');
  flash_control_same (m : ST F unit) f :
    m ∈ [flash_info_write_enable; flash_info_write_disable; flash_close_ro_window] \/
    (exists off n, m = flash_open_ro_window off n) ->
    flash_main (m f).2 ≡ flash_main f /\ flash_info (m f).2 ≡ flash_info f
}.

(** ** The controller *)

Inductive flash_op := OP_ERASE_BLOCK | OP_WRITE_BLOCK | OP_READ_BLOCK.

#[global] Instance flash_op_dec : EqDecision flash_op.
Proof. solve_decision. Defined.

Definition flash_op_code (op : flash_op) : Z :=
  match op with OP_ERASE_BLOCK => 0 | OP_WRITE_BLOCK => 1 | OP_READ_BLOCK => 2 end.

(** The registers that take part in an operation: FSH_TRANS, the write buffer, and
    the windows in which writing is enabled. *)
Record flash_regs := mkFlashRegs {
  trans_offset : Z;
  trans_mainb : Z;
  trans_size : Z;
  wr_data : list Z;
  info_wr_en : bool;
  ro_window : Z * Z;                 (* base and size *)
  ro_window_wr_en : bool
}.

Class FlashController (H : Type) := {
  main_array : H -> memory;
  info_array : H -> memory;
  smart_algo_on : ST H bool;                       (* both *_SMART_ALGO_ON *)
  fsh_error : ST H Z;                              (* FSH_ERROR *)
  fsh_start : flash_regs -> Z -> Z -> ST H unit;   (* FSH_PE_EN, FSH_PE_CONTROL<n> *)
  fsh_pe_control : Z -> ST H Z;
  fsh_stop : Z -> ST H unit;
  fsh_dout : ST H Z;                               (* FSH_DOUT_VAL1 *)
  flash_log_add_event : Z -> ST H unit
}.

Section Driver.
Context {H : Type} `{!FlashController H}.

(** [pwrdn_scratch24] counts errors in its low bits. *)
Record flash := mkFlash { hw : H; fregs : flash_regs; pwrdn_scratch24 : Z }.

Definition on_hw {A} (m : ST H A) : ST flash A := fun f =>
  let '(a, h) := m (hw f) in (a, mkFlash h (fregs f) (pwrdn_scratch24 f)).

Definition set_fregs (g : flash_regs -> flash_regs) : ST flash unit :=
  modify (fun f => mkFlash (hw f) (g (fregs f)) (pwrdn_scratch24 f)).

(** [GWRITE_FIELD(FLASH, FSH_TRANS, ...)]: the fields have 16, 1 and 5 bits. *)
Definition set_trans (offset mainb size : Z) (r : flash_regs) : flash_regs :=
  mkFlashRegs (Z.land offset 0xffff) (Z.land mainb 1) (Z.land size 0x1f) (wr_data r)
    (info_wr_en r) (ro_window r) (ro_window_wr_en r).

Definition set_wr_data (words : list Z) (r : flash_regs) : flash_regs :=
  mkFlashRegs (trans_offset r) (trans_mainb r) (trans_size r)
    (splice 0 words (wr_data r)) (info_wr_en r) (ro_window r) (ro_window_wr_en r).

(** Reads the register up to [n] times, until it is zero; the last value read. *)
Fixpoint poll (read : ST flash Z) (n : nat) (last : Z) : ST flash Z :=
  match n with
  | O => ret last
  | S n => let* tmp := read in if tmp =? 0 then ret 0 else poll read n tmp
  end.

(** One attempt: its error bits, or [None] when the controller has to be given up. *)
Definition attempt (ctl opcode : Z) : ST flash (option Z) :=
  let* r := gets fregs in
  on_hw (fsh_start r ctl opcode) ;;;
  let* tmp := poll (on_hw (fsh_pe_control ctl)) 1500 0 in
  if nz tmp then on_hw (fsh_stop ctl) ;;; ret None
  else
    let* errors := on_hw fsh_error in
    let* tmp := poll (on_hw fsh_error) 50 0 in
    if nz tmp then ret None else ret (Some errors).

(** A write needs one more pulse after the one that succeeded. *)
Fixpoint attempts (fuel : nat) (op : flash_op) (ctl opcode : Z)
    (retry_count max_attempts : Z) (extra_prog_pulse : bool) : ST flash Z :=
  match fuel with
  | O => ret EC.ERROR_UNKNOWN
  | S fuel =>
      if retry_count <? max_attempts then
        let* e := attempt ctl opcode in
        match e with
        | None => ret EC.ERROR_UNKNOWN
        | Some errors =>
            if errors =? 0 then
              if bool_decide (op = OP_WRITE_BLOCK) && negb extra_prog_pulse
              then attempts fuel op ctl opcode (retry_count + 1) (max_attempts + 1) true
              else ret EC.SUCCESS
            else attempts fuel op ctl opcode (retry_count + 1) max_attempts extra_prog_pulse
        end
      else ret EC.ERROR_UNKNOWN
  end.

(** Enough for every operation ([attempts_fuel]). *)
Definition attempts_fuel_max : nat := 47.

(** The opcode, the size and the number of attempts; [None] when it is unsupported. *)
Definition op_params (op : flash_op) (is_info_bank : bool) (words : Z) : option (Z * Z * Z) :=
  match op with
  | OP_ERASE_BLOCK => if is_info_bank then None else Some (0x31415927, 0, 45)
  | OP_WRITE_BLOCK => Some (0x27182818, words - 1, 9)
  | OP_READ_BLOCK => if is_info_bank then Some (0x16021765, 1, 9) else None
  end.

Definition do_flash_op (op : flash_op) (is_info_bank : bool) (byte_offset words : Z)
    : ST flash Z :=
  let* smart := on_hw smart_algo_on in
  if negb smart then ret EC.ERROR_UNIMPLEMENTED else
  let* tmp := poll (on_hw fsh_error) 50 0 in
  if nz tmp then ret EC.ERROR_UNKNOWN else
  let '(ctl, byte_offset) :=
    if is_info_bank then (1, byte_offset)
    else if FLASH_HALF <=? byte_offset then (1, byte_offset - FLASH_HALF)
    else (0, byte_offset) in
  match op_params op is_info_bank words with
  | None => ret EC.ERROR_INVAL
  | Some (opcode, size, max_attempts) =>
      set_fregs (set_trans (Z.quot byte_offset 4) (if is_info_bank then 1 else 0) size) ;;;
      attempts attempts_fuel_max op ctl opcode 0 max_attempts false
  end.

Definition FLASH_ERROR_MASK : Z := 0xfff.

(** The event goes to common/flash_log.c ([FlashLog]), which calls this driver: here it is a
    step of the hardware, of which the laws say that it changes only the page of the log
    ([FlashLogPage.add_event_page] proves this of the model of the log).  It sets the registers
    of the operation, as every operation does first. *)
Definition log_do_flash_op_errors (op : flash_op) : ST flash unit :=
  let* s := gets pwrdn_scratch24 in
  let count := Z.land (Z.land s FLASH_ERROR_MASK + 1) FLASH_ERROR_MASK in
  modify (fun f => mkFlash (hw f) (fregs f) (Z.lor (clear_bits 32 s FLASH_ERROR_MASK) count)) ;;;
  if Z.land count 63 =? 1 then on_hw (flash_log_add_event (flash_op_code op)) else ret tt.

(** The words of the write buffer. *)
Fixpoint words_of (n : nat) (data : list Z) : list Z :=
  match n with
  | O => []
  | S n => le_val (take 4 data) :: words_of n (drop 4 data)
  end.

Definition write_batch (byte_offset : Z) (is_info_bank : bool) (words : Z) (data : list Z)
    : ST flash Z :=
  set_fregs (set_wr_data (words_of (Z.to_nat words) data)) ;;;
  let* rv := do_flash_op OP_WRITE_BLOCK is_info_bank byte_offset words in
  (if nz rv then log_do_flash_op_errors OP_WRITE_BLOCK else ret tt) ;;;
  ret rv.

(** The size of the next batch: not past the end of a row. *)
Definition batch_size (byte_offset num_bytes : Z) : Z :=
  Z.min (Z.min num_bytes FLASH_WRITE_IDEAL_SIZE)
    (FLASH_ROW_SIZE - Z.rem byte_offset FLASH_ROW_SIZE).

Fixpoint write_loop (fuel : nat) (byte_offset : Z) (is_info_bank : bool) (data : list Z)
    : ST flash Z :=
  match fuel with
  | O => ret EC.SUCCESS
  | S fuel =>
      match data with
      | [] => ret EC.SUCCESS
      | _ =>
          let num := batch_size byte_offset (Z.of_nat (length data)) in
          let* rv := write_batch byte_offset is_info_bank (Z.quot num 4) data in
          if nz rv then ret rv
          else write_loop fuel (byte_offset + num) is_info_bank (drop (Z.to_nat num) data)
      end
  end.

(** Each batch takes a byte at least, so the length is enough fuel. *)
Definition flash_physical_write_internal (byte_offset : Z) (is_info_bank : bool)
    (data : list Z) : ST flash Z :=
  if nz (Z.rem byte_offset FLASH_WRITE_SIZE)
     || nz (Z.rem (Z.of_nat (length data)) FLASH_WRITE_SIZE)
  then ret EC.ERROR_INVAL
  else write_loop (length data) byte_offset is_info_bank data.

Definition physical_write (byte_offset : Z) (data : list Z) : ST flash Z :=
  flash_physical_write_internal byte_offset false data.

Definition physical_info_read_word (byte_offset : Z) : ST flash (Z * Z) :=
  if nz (Z.rem byte_offset FLASH_WRITE_SIZE) then ret (EC.ERROR_INVAL, 0) else
  let* rv := do_flash_op OP_READ_BLOCK true byte_offset 1 in
  if nz rv then log_do_flash_op_errors OP_READ_BLOCK ;;; ret (rv, 0)
  else let* w := on_hw fsh_dout in ret (rv, w).

Definition info_physical_write (byte_offset : Z) (data : list Z) : ST flash Z :=
  let num_bytes := Z.of_nat (length data) in
  if (byte_offset <? 0) || (num_bytes <? 0)
     || (FLASH_INFO_SIZE <? byte_offset + num_bytes)
     || nz (Z.land (Z.lor byte_offset num_bytes) (FLASH_WRITE_SIZE - 1))
  then ret EC.ERROR_INVAL
  else flash_physical_write_internal byte_offset true data.

Fixpoint erase_loop (blocks : nat) (byte_offset num_bytes : Z) : ST flash Z :=
  match blocks with
  | O => ret EC.SUCCESS
  | S blocks =>
      let* rv := do_flash_op OP_ERASE_BLOCK false byte_offset (Z.quot num_bytes 4) in
      if nz rv then log_do_flash_op_errors OP_ERASE_BLOCK ;;; ret rv
      else erase_loop blocks (byte_offset + FLASH_ERASE_SIZE) (num_bytes - FLASH_ERASE_SIZE)
  end.

Definition physical_erase (byte_offset num_bytes : Z) : ST flash Z :=
  if nz (Z.rem byte_offset FLASH_ERASE_SIZE) || nz (Z.rem num_bytes FLASH_ERASE_SIZE)
  then ret EC.ERROR_INVAL
  else erase_loop (Z.to_nat (num_bytes / FLASH_ERASE_SIZE)) byte_offset num_bytes.

Definition set_info_wr_en (b : bool) (r : flash_regs) : flash_regs :=
  mkFlashRegs (trans_offset r) (trans_mainb r) (trans_size r) (wr_data r) b
    (ro_window r) (ro_window_wr_en r).

Definition info_write_enable : ST flash unit := set_fregs (set_info_wr_en true).
Definition info_write_disable : ST flash unit := set_fregs (set_info_wr_en false).

Definition open_ro_window (offset size_b : Z) : ST flash unit :=
  set_fregs (fun r => mkFlashRegs (trans_offset r) (trans_mainb r) (trans_size r) (wr_data r)
    (info_wr_en r) (offset + PROGRAM_MEMORY_BASE, size_b - 1) true).

Definition close_ro_window : ST flash unit :=
  set_fregs (fun r => mkFlashRegs (trans_offset r) (trans_mainb r) (trans_size r) (wr_data r)
    (info_wr_en r) (ro_window r) false).

#[export] Instance flash_driver : FlashDev flash := {
  flash_main f := main_array (hw f);
  flash_info f := info_array (hw f);
  flash_physical_erase := physical_erase;
  flash_physical_write := physical_write;
  flash_physical_info_read_word := physical_info_read_word;
  flash_info_physical_write := info_physical_write;
  flash_info_write_enable := info_write_enable;
  flash_info_write_disable := info_write_disable;
  flash_open_ro_window := open_ro_window;
  flash_close_ro_window := close_ro_window
}.
End Driver.

Arguments flash H : clear implicits.
