(* ===== verification/FlashProps.v ===== *)
(** * The flash driver implements its interface

    The controller does an operation a batch at a time and may fail; the driver's loops
    compose the batches into one operation, as [FlashDevLaws] states it. *)

From S2P Require Import Prelude Flash.

(** ** What the driver relies on *)

Section Controller.
Context {H : Type} `{!FlashController H}.

(** The control register is read until it is zero. *)
Inductive finished (ctl : Z) : H -> H -> Prop :=
| finished_now h h' : fsh_pe_control ctl h = (0, h') -> finished ctl h h'
| finished_later v h h1 h' :
    fsh_pe_control ctl h = (v, h1) -> finished ctl h1 h' -> finished ctl h h'.

(** Accesses that start nothing. *)
Inductive access1 : H -> H -> Prop :=
| access_error h : access1 h (fsh_error h).2
| access_control ctl h : access1 h (fsh_pe_control ctl h).2
| access_stop ctl h : access1 h (fsh_stop ctl h).2
| access_smart h : access1 h (smart_algo_on h).2
| access_dout h : access1 h (fsh_dout h).2.

(** Where an operation takes place. *)
Definition main_offset (r : flash_regs) (ctl : Z) : Z := ctl * FLASH_HALF + 4 * trans_offset r.
Definition info_offset (r : flash_regs) : Z := 4 * trans_offset r.

(** The bytes of the first words of the write buffer, as many as are to be written. *)
Definition buffer_bytes (r : flash_regs) : list Z :=
  concat (map (le_bytes 4) (take (Z.to_nat (trans_size r + 1)) (wr_data r))).

(** A write inside a row. *)
Definition row_write (r : flash_regs) : Prop :=
  0 <= trans_offset r /\ 0 <= trans_size r < 32 /\
  4 * trans_offset r mod FLASH_ROW_SIZE + 4 * (trans_size r + 1) <= FLASH_ROW_SIZE.
End Controller.

Abbreviation write_opcode := 0x27182818.
Abbreviation erase_opcode := 0x31415927.
Abbreviation read_opcode := 0x16021765.

(** An operation has its effect, whole or in part, when it is started; it is whole when
    the control register clears and no error is reported. *)
Class FlashControllerLaws (H : Type) `{!FlashController H} : Prop := {
  access_same h h' : access1 h h' ->
    main_array h' ≡ main_array h /\ info_array h' ≡ info_array h;
  event_page e h :
    logged (main_array h) (main_array (flash_log_add_event e h).2) /\
    info_array (flash_log_add_event e h).2 ≡ info_array h;
  main_write r ctl h h1 : fsh_start r ctl write_opcode h = (tt, h1) ->
    trans_mainb r = 0 -> ctl = 0 \/ ctl = 1 -> row_write r ->
    let off := main_offset r ctl in
    partly_programmed off (buffer_bytes r) (main_array h) (main_array h1) /\
    info_array h1 ≡ info_array h /\
    forall h2, finished ctl h1 h2 -> (fsh_error h2).1 = 0 ->
      main_array h1 ≡ programmed off (buffer_bytes r) (main_array h);
  info_write r h h1 : fsh_start r 1 write_opcode h = (tt, h1) ->
    trans_mainb r = 1 -> row_write r ->
    let off := info_offset r in
    partly_programmed off (buffer_bytes r) (info_array h) (info_array h1) /\
    main_array h1 ≡ main_array h /\
    forall h2, finished 1 h1 h2 -> (fsh_error h2).1 = 0 ->
      info_array h1 ≡ programmed off (buffer_bytes r) (info_array h);
  main_erase r ctl h h1 : fsh_start r ctl erase_opcode h = (tt, h1) ->
    trans_mainb r = 0 -> ctl = 0 \/ ctl = 1 -> 0 <= trans_offset r ->
    4 * trans_offset r mod FLASH_ERASE_SIZE = 0 ->
    let off := main_offset r ctl in
    only_in off FLASH_ERASE_SIZE (main_array h) (main_array h1) /\
    info_array h1 ≡ info_array h /\
    forall h2, finished ctl h1 h2 -> (fsh_error h2).1 = 0 ->
      main_array h1 ≡ erased off FLASH_ERASE_SIZE (main_array h);
  info_read r h h1 : fsh_start r 1 read_opcode h = (tt, h1) -> trans_mainb r = 1 ->
    main_array h1 ≡ main_array h /\ info_array h1 ≡ info_array h /\
    forall h2 h3, finished 1 h1 h2 -> (fsh_error h2).1 = 0 -> rtc access1 h2 h3 ->
      (fsh_dout h3).1 = read_word (info_array h) (info_offset r)
}.

(** ** Programming, in parts *)

Lemma in_range_spec off len a : in_range off len a = true <-> off <= a < off + len.
Proof. unfold in_range. rewrite andb_true_iff, Z.leb_le, Z.ltb_lt. done. Qed.

Lemma in_range_false off len a : in_range off len a = false <-> a < off \/ off + len <= a.
Proof. unfold in_range. rewrite andb_false_iff, Z.leb_gt, Z.ltb_ge. done. Qed.

Ltac range_cases a :=
  repeat match goal with
  | |- context [in_range ?o ?l a] =>
      let E := fresh "E" in destruct (in_range o l a) eqn:E;
      [apply in_range_spec in E | apply in_range_false in E]
  | H : context [in_range ?o ?l a] |- _ =>
      let E := fresh "E" in destruct (in_range o l a) eqn:E;
      [apply in_range_spec in E | apply in_range_false in E]
  end.

#[global] Instance programmed_proper off data :
  Proper ((≡@{memory}) ==> (≡@{memory})) (programmed off data).
Proof. intros m m' Hm a. unfold programmed. by rewrite Hm. Qed.

#[global] Instance erased_proper off len :
  Proper ((≡@{memory}) ==> (≡@{memory})) (erased off len).
Proof. intros m m' Hm a. unfold erased. by rewrite Hm. Qed.

#[global] Instance only_in_proper off len :
  Proper ((≡@{memory}) ==> (≡@{memory}) ==> iff) (only_in off len).
Proof.
  intros m1 m1' H1 m2 m2' H2. unfold only_in.
  split; intros Ha a; specialize (Ha a); by rewrite H1, H2 in *.
Qed.

#[global] Instance partly_programmed_proper off data :
  Proper ((≡@{memory}) ==> (≡@{memory}) ==> iff) (partly_programmed off data).
Proof.
  intros m1 m1' H1 m2 m2' H2. unfold partly_programmed. rewrite H1, H2.
  split; intros [Ho Ha]; (split; [done|]); intros a; specialize (Ha a);
    by rewrite ?(H1 a), ?(H2 a) in *.
Qed.

Lemma partly_refl off data m : partly_programmed off data m m.
Proof. split; [done|]. intros a _. split; [done|]. apply Z.land_diag. Qed.

Lemma partly_trans off data m1 m2 m3 :
  partly_programmed off data m1 m2 -> partly_programmed off data m2 m3 ->
  partly_programmed off data m1 m3.
Proof.
  intros [Ho1 H1] [Ho2 H2]. split.
  - intros a Ha. by rewrite Ho2, Ho1.
  - intros a Ha. destruct (H1 a Ha) as [E1 F1], (H2 a Ha) as [E2 F2].
    split; [by rewrite E2|]. rewrite <-F2, Z.land_assoc. by rewrite F1.
Qed.

(** Programming after some of it has taken place gives the same as at once. *)
Lemma programmed_partly off data m m' :
  partly_programmed off data m m' -> programmed off data m' ≡ programmed off data m.
Proof.
  intros [Ho Hp] a. unfold programmed. destruct (in_range off _ a) eqn:E.
  - by apply Hp.
  - by apply Ho.
Qed.

Lemma programmed_is_partly off data m m' :
  m' ≡ programmed off data m -> partly_programmed off data m m'.
Proof.
  intros E. rewrite E. split.
  - intros a Ha. unfold programmed. by rewrite Ha.
  - intros a Ha. unfold programmed. rewrite Ha. split.
    + by rewrite <-Z.land_assoc, Z.land_diag.
    + by rewrite Z.land_assoc, Z.land_diag.
Qed.

Lemma at_app_l l k i : 0 <= i < Z.of_nat (length l) -> at_ (l ++ k) i = at_ l i.
Proof. intros. unfold at_. apply app_nth1. lia. Qed.

Lemma at_app_r l k i : Z.of_nat (length l) <= i ->
  at_ (l ++ k) i = at_ k (i - Z.of_nat (length l)).
Proof. intros. unfold at_. rewrite app_nth2 by lia. f_equal. lia. Qed.

(** *** Reading *)

Lemma read_bytes_ext (m m' : memory) off n : m ≡ m' -> read_bytes m off n = read_bytes m' off n.
Proof. intros E. apply map_ext. intros i. apply E. Qed.

#[global] Instance read_word_proper : Proper ((≡@{memory}) ==> eq ==> eq) read_word.
Proof. intros m m' Hm off _ <-. unfold read_word. by rewrite (read_bytes_ext m m'). Qed.

Definition byte_memory (m : memory) : Prop := forall a, is_byte (m a).

Lemma bytes_read_bytes m off n : byte_memory m -> bytes (read_bytes m off n).
Proof. intros Hm. apply Forall_map, Forall_true. intros i. apply Hm. Qed.

Lemma land_255 b : is_byte b -> Z.land 255 b = b.
Proof.
  intros Hb. rewrite Z.land_comm. change 255 with (Z.ones 8).
  rewrite Z.land_ones by lia. by apply Z.mod_small.
Qed.

Lemma at_read_bytes m off n i : (i < n)%nat ->
  at_ (read_bytes m off n) (Z.of_nat i) = m (off + Z.of_nat i).
Proof.
  intros Hi. unfold at_, read_bytes. rewrite Nat2Z.id.
  rewrite (nth_indep _ 0 (m (off + Z.of_nat 0))) by (by rewrite length_map, length_seq).
  rewrite (map_nth (fun i => m (off + Z.of_nat i))), seq_nth by done. done.
Qed.

Lemma read_bytes_eq m off l :
  read_bytes m off (length l) = l <->
  forall i, (i < length l)%nat -> m (off + Z.of_nat i) = at_ l (Z.of_nat i).
Proof.
  split.
  - intros E i Hi. rewrite <- E. by rewrite at_read_bytes.
  - intros E. apply (nth_ext _ _ 0 0); unfold read_bytes; [by rewrite length_map, length_seq|].
    rewrite length_map, length_seq. intros i Hi. specialize (E i Hi).
    pose proof (at_read_bytes m off (length l) i Hi) as A. unfold at_ in *.
    rewrite Nat2Z.id in *. unfold read_bytes in A. by rewrite A.
Qed.

Lemma sub_read_bytes m off k n N :
  (k + n <= N)%nat -> sub k n (read_bytes m off N) = read_bytes m (off + Z.of_nat k) n.
Proof.
  intros Hk. unfold sub, read_bytes. rewrite skipn_map, firstn_map, drop_seq, take_seq.
  replace (n `min` (N - k))%nat with n by lia.
  rewrite Nat.add_0_l, <- (Nat.add_0_r k), <- fmap_add_seq, map_map, Nat.add_0_r.
  apply map_ext. intros i. f_equal. lia.
Qed.

(** *** Programming in parts *)

Lemma programmed_app off d1 d2 m :
  programmed off (d1 ++ d2) m ≡
  programmed (off + Z.of_nat (length d1)) d2 (programmed off d1 m).
Proof.
  intros a. unfold programmed. rewrite length_app, Nat2Z.inj_add.
  range_cases a; try lia; try done.
  - rewrite at_app_r by lia. f_equal. f_equal. lia.
  - by rewrite at_app_l by lia.
Qed.

Lemma programmed_nil off m : programmed off [] m ≡ m.
Proof. intros a. unfold programmed. cbn [length]. range_cases a; [lia|done]. Qed.

Lemma partly_app_l off d1 d2 m m' :
  partly_programmed off d1 m m' -> partly_programmed off (d1 ++ d2) m m'.
Proof.
  intros [Ho Hp]. split.
  - intros a Ha. rewrite length_app in Ha. apply in_range_false in Ha.
    apply Ho, in_range_false. lia.
  - intros a Ha. rewrite in_range_spec, length_app in Ha.
    destruct (in_range off (Z.of_nat (length d1)) a) eqn:E.
    + pose proof (Hp a E). rewrite in_range_spec in E. by rewrite at_app_l by lia.
    + rewrite (Ho a E). split; [done|apply Z.land_diag].
Qed.

Lemma partly_app_r off d1 d2 m m' :
  partly_programmed (off + Z.of_nat (length d1)) d2 m m' ->
  partly_programmed off (d1 ++ d2) m m'.
Proof.
  intros [Ho Hp]. split.
  - intros a Ha. rewrite length_app in Ha. apply in_range_false in Ha.
    apply Ho, in_range_false. lia.
  - intros a Ha. rewrite in_range_spec, length_app in Ha.
    destruct (in_range (off + Z.of_nat (length d1)) (Z.of_nat (length d2)) a) eqn:E.
    + pose proof (Hp a E) as Hpa. rewrite in_range_spec in E.
      rewrite at_app_r by lia. by replace (a - off - Z.of_nat (length d1))
        with (a - (off + Z.of_nat (length d1))) by lia.
    + rewrite (Ho a E). split; [done|apply Z.land_diag].
Qed.

Lemma only_in_refl off len m : only_in off len m m.
Proof. by intros a _. Qed.

Lemma only_in_trans off len m1 m2 m3 :
  only_in off len m1 m2 -> only_in off len m2 m3 -> only_in off len m1 m3.
Proof. intros H1 H2 a Ha. by rewrite H2, H1. Qed.

Lemma only_in_weaken off len off' len' m m' :
  off' <= off -> off + len <= off' + len' ->
  only_in off len m m' -> only_in off' len' m m'.
Proof. intros H1 H2 Ho a Ha. apply in_range_false in Ha. apply Ho, in_range_false. lia. Qed.

Lemma erased_is_only_in off len m m' : m' ≡ erased off len m -> only_in off len m m'.
Proof. intros E a Ha. rewrite (E a). unfold erased. by rewrite Ha. Qed.

Lemma erased_partly off len m m' :
  only_in off len m m' -> erased off len m' ≡ erased off len m.
Proof. intros Ho a. unfold erased. destruct (in_range off len a) eqn:E; auto. Qed.

Lemma erased_app off l1 l2 m : 0 <= l1 -> 0 <= l2 ->
  erased off (l1 + l2) m ≡ erased (off + l1) l2 (erased off l1 m).
Proof. intros ? ? a. unfold erased. range_cases a; lia || done. Qed.

(** *** The flash log *)

#[global] Instance logged_preorder : PreOrder logged.
Proof.
  split; [intros m; apply only_in_refl|]. intros m1 m2 m3. apply only_in_trans.
Qed.

#[global] Instance logged_proper : Proper ((≡@{memory}) ==> (≡@{memory}) ==> iff) logged.
Proof. unfold logged. intros m1 m1' H1 m2 m2' H2. by rewrite H1, H2. Qed.

#[global] Instance then_logged_proper op : Proper ((≡@{memory}) ==> iff) (then_logged op).
Proof. intros m m' Hm. split; intros (m1 & Ho & Hl); exists m1; (split; [done|]); by rewrite Hm in *. Qed.

Lemma same_logged m m' : m' ≡ m -> logged m m'.
Proof. intros E. by rewrite E. Qed.

Lemma then_logged_now (op : memory -> Prop) m : op m -> then_logged op m.
Proof. intros Ho. by exists m. Qed.

Lemma then_logged_mono (op op' : memory -> Prop) m :
  (forall m1, op m1 -> op' m1) -> then_logged op m -> then_logged op' m.
Proof. intros Ho (m1 & H1 & H2). exists m1. auto. Qed.

(** ** Attempts *)

Section Driver.
Context {H : Type} `{!FlashController H} `{!FlashControllerLaws H}.

Lemma accesses_same h h' : rtc access1 h h' ->
  main_array h' ≡ main_array h /\ info_array h' ≡ info_array h.
Proof.
  induction 1 as [h|h h1 h' Hs _ [IH1 IH2]]; [done|].
  destruct (access_same h h1 Hs) as [E1 E2]. by rewrite IH1, IH2, E1, E2.
Qed.

Lemma poll_accesses (m : ST H Z) n last f v f' :
  (forall h, access1 h (m h).2) -> poll (on_hw m) n last f = (v, f') ->
  rtc access1 (hw f) (hw f') /\ fregs f' = fregs f.
Proof.
  intros Hm. revert last f. induction n as [|n IH]; intros last f.
  { cbn. by intros [= <- <-]. }
  cbn [poll]. unfold bind, on_hw at 1. specialize (Hm (hw f)).
  destruct (m (hw f)) as [x h1]. cbn [fst snd] in *. destruct (x =? 0).
  - intros [= <- <-]. cbn. split; [by apply rtc_once|done].
  - intros E. apply IH in E as [E1 E2]. split; [|done]. by eapply rtc_l.
Qed.

Lemma poll_finished ctl n last f f' :
  poll (on_hw (fsh_pe_control ctl)) (S n) last f = (0, f') ->
  finished ctl (hw f) (hw f').
Proof.
  revert last f. induction n as [|n IH]; intros last f E;
    cbn [poll] in E; unfold bind, on_hw at 1 in E;
    destruct (fsh_pe_control ctl (hw f)) as [x h1] eqn:Ex; cbn in E;
    destruct (Z.eqb_spec x 0) as [->|Hx].
  - unfold ret in E. simplify_eq. by apply finished_now.
  - unfold ret in E. simplify_eq.
  - unfold ret in E. simplify_eq. by apply finished_now.
  - apply (IH 0) in E. exact (finished_later ctl x _ _ _ Ex E).
Qed.

Lemma attempt_inv ctl opcode f e f' :
  attempt ctl opcode f = (e, f') ->
  exists h1, fsh_start (fregs f) ctl opcode (hw f) = (tt, h1) /\
    rtc access1 h1 (hw f') /\ fregs f' = fregs f /\
    (e = Some 0 -> exists h2,
       finished ctl h1 h2 /\ (fsh_error h2).1 = 0 /\ rtc access1 h2 (hw f')).
Proof.
  unfold attempt, bind at 1, gets. unfold bind at 1, on_hw at 1.
  destruct (fsh_start (fregs f) ctl opcode (hw f)) as [[] h1].
  set (f1 := mkFlash h1 (fregs f) (pwrdn_scratch24 f)). unfold bind at 1.
  destruct (poll (on_hw (fsh_pe_control ctl)) 1500 0 f1) as [v f2] eqn:E2.
  destruct (poll_accesses _ _ _ _ _ _ (access_control ctl) E2) as [A2 R2].
  intros E. exists h1. split; [done|]. destruct (nz v) eqn:Hv.
  - unfold bind, on_hw, ret in E. pose proof (access_stop ctl (hw f2)) as A3.
    destruct (fsh_stop ctl (hw f2)) as [u h3]. simplify_eq. cbn.
    split; [by eapply rtc_r|]. by rewrite R2.
  - apply nz_false in Hv as ->. apply poll_finished in E2.
    unfold bind at 1, on_hw at 1 in E. pose proof (access_error (hw f2)) as A3.
    destruct (fsh_error (hw f2)) as [errors h3] eqn:Ee. cbn [snd] in A3.
    set (f3 := mkFlash h3 _ _) in E. unfold bind at 1 in E.
    destruct (poll (on_hw fsh_error) 50 0 f3) as [v f4] eqn:E4.
    destruct (poll_accesses _ _ _ _ _ _ access_error E4) as [A4 R4].
    assert (Hf : f' = f4 /\ (e = Some 0 -> errors = 0))
      by (destruct (nz v); unfold ret in E; simplify_eq; (split; [done|by intros [= ?]])).
    destruct Hf as [-> He]. assert (A : rtc access1 (hw f2) (hw f4)) by exact (rtc_l _ _ _ _ A3 A4).
    split; [by etrans|]. split; [by rewrite R4|].
    intros He0. exists (hw f2). by rewrite Ee, He.
Qed.

(** The operation was given up. *)
Ltac given_up E := cbn in E; unfold ret in E; simplify_eq; split; [done|by intros [=]].

(** What holds of the hardware after every attempt, and after a successful one. *)
Lemma attempts_spec (Inv Done : H -> Prop) op ctl opcode r :
  (forall f e f', fregs f = r -> Inv (hw f) -> attempt ctl opcode f = (e, f') ->
     Inv (hw f') /\ (e = Some 0 -> Done (hw f'))) ->
  forall fuel n max extra f rv f',
    fregs f = r -> Inv (hw f) -> attempts fuel op ctl opcode n max extra f = (rv, f') ->
    Inv (hw f') /\ (rv = EC.SUCCESS -> Done (hw f')).
Proof.
  intros Ha fuel. induction fuel as [|fuel IH]; intros n max extra f rv f' Hr Hi E.
  { given_up E. }
  cbn [attempts] in E. destruct (n <? max); [|given_up E].
  unfold bind at 1 in E. destruct (attempt ctl opcode f) as [e f1] eqn:E1.
  destruct (Ha f e f1 Hr Hi E1) as [Hi1 Hd1].
  assert (Hr1 : fregs f1 = r) by (apply attempt_inv in E1 as (? & ? & ? & -> & ?); done).
  destruct e as [errors|]; [|given_up E].
  destruct (Z.eqb_spec errors 0) as [->|]; [|by eapply IH].
  destruct (_ && _); [by eapply IH|]. unfold ret in E. simplify_eq. auto.
Qed.

(** What is left alone, and the registers an operation starts from. *)
Definition op_regs (op : flash_op) (is_info : bool) (byte_offset words : Z)
    (r : flash_regs) : flash_regs :=
  set_trans (Z.quot byte_offset 4) (if is_info then 1 else 0)
    (match op with OP_ERASE_BLOCK => 0 | OP_WRITE_BLOCK => words - 1 | OP_READ_BLOCK => 1 end) r.

Definition op_opcode (op : flash_op) : Z :=
  match op with
  | OP_ERASE_BLOCK => erase_opcode | OP_WRITE_BLOCK => write_opcode
  | OP_READ_BLOCK => read_opcode
  end.

Lemma do_flash_op_spec (Inv Done : H -> Prop) op (is_info : bool) byte_offset words
    (f : flash H) rv f' :
  let ctl := if is_info then 1 else if FLASH_HALF <=? byte_offset then 1 else 0 in
  let off := if is_info then byte_offset
             else if FLASH_HALF <=? byte_offset then byte_offset - FLASH_HALF
             else byte_offset in
  let r := op_regs op is_info off words (fregs f) in
  (forall h h' : H, rtc access1 h h' -> Inv h -> Inv h') ->
  (forall (f : flash H) e f', fregs f = r -> Inv (hw f) -> attempt ctl (op_opcode op) f = (e, f') ->
     Inv (hw f') /\ (e = Some 0 -> Done (hw f'))) ->
  Inv (hw f) -> do_flash_op op is_info byte_offset words f = (rv, f') ->
  Inv (hw f') /\ (rv = EC.SUCCESS -> Done (hw f')).
Proof.
  intros ctl off r Hacc Hatt Hi. unfold do_flash_op, bind at 1, on_hw at 1.
  pose proof (access_smart (hw f)) as A1. destruct (smart_algo_on (hw f)) as [smart h1].
  set (f1 := mkFlash h1 _ _). assert (Hi1 : Inv (hw f1)) by (eapply Hacc, Hi; by apply rtc_once).
  destruct smart; cbn [negb]; [|intros E; given_up E].
  unfold bind at 1. destruct (poll (on_hw fsh_error) 50 0 f1) as [v f2] eqn:E2.
  destruct (poll_accesses _ _ _ _ _ _ access_error E2) as [A2 R2].
  assert (Hi2 : Inv (hw f2)) by (eapply Hacc, Hi1; exact A2).
  destruct (nz v); [intros E; given_up E|].
  assert (Hpair : (if is_info then (1, byte_offset) else
    if FLASH_HALF <=? byte_offset then (1, byte_offset - FLASH_HALF) else (0, byte_offset))
    = (ctl, off)) by (unfold ctl, off; by repeat case_match).
  rewrite Hpair. destruct (op_params op is_info words) as [[[opcode size] max]|] eqn:Ep;
    [|intros E; given_up E].
  unfold set_fregs, bind at 1, modify. intros E.
  eapply attempts_spec in E; [exact E| |reflexivity|exact Hi2].
  intros g e g' Hg. cbn in Hg. rewrite R2 in Hg. cbn [fregs f1] in Hg.
  assert (Ho : opcode = op_opcode op /\ size =
    match op with OP_ERASE_BLOCK => 0 | OP_WRITE_BLOCK => words - 1 | OP_READ_BLOCK => 1 end)
    by (destruct op, is_info; cbn in Ep; by simplify_eq).
  destruct Ho as [-> Hs]. apply Hatt. rewrite Hg. unfold r, op_regs. by rewrite <-Hs.
Qed.
End Driver.
