(* ===== verification/FlashOps.v ===== *)
(** * The flash driver: writes and erasures of any size

    The loops over batches and blocks implement [FlashDevLaws]. *)

From S2P Require Import Prelude Flash FlashProps.

(** ** The write buffer *)

Lemma length_words_of n data : length (words_of n data) = n.
Proof. revert data. induction n; intros; cbn; auto. Qed.

Lemma words_of_bytes n data :
  bytes data -> (4 * n <= length data)%nat ->
  concat (map (le_bytes 4) (words_of n data)) = take (4 * n) data.
Proof.
  revert data. induction n as [|n IH]; intros data Hb Hl; [done|].
  cbn [words_of map concat].
  rewrite IH by (rewrite ?length_drop; (by apply Forall_drop) || lia).
  assert (H4 : length (take 4 data) = 4%nat) by (rewrite length_take; lia).
  rewrite <-H4 at 1. rewrite le_bytes_val by (by apply Forall_take).
  replace (4 * S n)%nat with (4 + 4 * n)%nat by lia. apply take_take_drop.
Qed.

(** What a batch writes. *)
Lemma batch_buffer n data r :
  bytes data -> (1 <= n <= 32)%nat -> (4 * n <= length data)%nat ->
  trans_size r = Z.of_nat n - 1 ->
  wr_data r = splice 0 (words_of n data) (wr_data r) ->
  buffer_bytes r = take (4 * n) data.
Proof.
  intros Hb Hn Hl Hs Hw. unfold buffer_bytes. rewrite Hw, Hs.
  replace (Z.to_nat (Z.of_nat n - 1 + 1)) with n by lia.
  unfold splice. rewrite take_0. cbn [app].
  rewrite <-(length_words_of n data) at 1. rewrite take_app_length. by apply words_of_bytes.
Qed.

(** Where the controller finds a byte of the main array. *)
Definition bank (off : Z) : Z := if FLASH_HALF <=? off then 1 else 0.
Definition bank_offset (off : Z) : Z := if FLASH_HALF <=? off then off - FLASH_HALF else off.

Lemma bank_offset_range off :
  0 <= off < FLASH_SIZE -> 0 <= bank_offset off < FLASH_HALF /\
  bank off * FLASH_HALF + bank_offset off = off /\ (bank off = 0 \/ bank off = 1) /\
  bank_offset off mod FLASH_ERASE_SIZE = off mod FLASH_ERASE_SIZE /\
  bank_offset off mod FLASH_ROW_SIZE = off mod FLASH_ROW_SIZE /\
  bank_offset off mod 4 = off mod 4.
Proof.
  intros Hoff. unfold bank, bank_offset. change FLASH_HALF with 262144.
  change FLASH_SIZE with 524288 in Hoff. unfold FLASH_ERASE_SIZE, FLASH_ROW_SIZE.
  destruct (Z.leb_spec 262144 off); [|split_and!; auto; lia].
  split_and!; try lia; Z.div_mod_to_equations; lia.
Qed.

(** The word offset survives the 16-bit field. *)
Lemma trans_word off : 0 <= off < FLASH_HALF -> off mod 4 = 0 ->
  4 * Z.land (Z.quot off 4) 0xffff = off.
Proof.
  change FLASH_HALF with 262144. intros Hoff Hm. change 0xffff with (Z.ones 16).
  rewrite Z.land_ones, Z.quot_div_nonneg by lia.
  rewrite Z.mod_small; Z.div_mod_to_equations; lia.
Qed.

Lemma size_field n : (1 <= n <= 32)%nat -> Z.land (Z.of_nat n - 1) 0x1f = Z.of_nat n - 1.
Proof.
  intros Hn. change 0x1f with (Z.ones 5). rewrite Z.land_ones by lia.
  apply Z.mod_small. lia.
Qed.

Section Driver.
Context {H : Type} `{!FlashController H} `{!FlashControllerLaws H}.

(** What the log of an error changes. *)
Definition hw_logged (h h' : H) : Prop :=
  logged (main_array h) (main_array h') /\ info_array h' ≡ info_array h.

Lemma log_errors_logged op (f : flash H) :
  hw_logged (hw f) (hw (log_do_flash_op_errors op f).2).
Proof.
  unfold log_do_flash_op_errors, bind, gets, modify.
  destruct (_ =? 1); [|done]. unfold on_hw. cbn [hw].
  pose proof (event_page (flash_op_code op) (hw f)) as Ha. unfold hw_logged.
  by destruct (flash_log_add_event _ (hw f)).
Qed.

(** The arrays as an operation on the main array leaves them. *)
Definition main_part (data : list Z) off (m i : memory) (h : H) : Prop :=
  partly_programmed off data m (main_array h) /\ info_array h ≡ i.
Definition main_done (data : list Z) off (m i : memory) (h : H) : Prop :=
  main_array h ≡ programmed off data m /\ info_array h ≡ i.

Definition info_part (data : list Z) off (m i : memory) (h : H) : Prop :=
  partly_programmed off data i (info_array h) /\ main_array h ≡ m.
Definition info_done (data : list Z) off (m i : memory) (h : H) : Prop :=
  info_array h ≡ programmed off data i /\ main_array h ≡ m.

Lemma main_part_access data off m i h h' :
  rtc access1 h h' -> main_part data off m i h -> main_part data off m i h'.
Proof.
  intros Ha [Hp Hi]. destruct (accesses_same _ _ Ha) as [E1 E2].
  split; [by rewrite E1|by rewrite E2].
Qed.

Lemma info_part_access data off m i h h' :
  rtc access1 h h' -> info_part data off m i h -> info_part data off m i h'.
Proof.
  intros Ha [Hp Hi]. destruct (accesses_same _ _ Ha) as [E1 E2].
  split; [by rewrite E2|by rewrite E1].
Qed.

(** One attempt at a batch. *)
Lemma main_attempt data off m i ctl r f e f' :
  trans_mainb r = 0 -> ctl = 0 \/ ctl = 1 -> row_write r ->
  main_offset r ctl = off -> buffer_bytes r = data ->
  fregs f = r -> main_part data off m i (hw f) ->
  attempt ctl write_opcode f = (e, f') ->
  main_part data off m i (hw f') /\ (e = Some 0 -> main_done data off m i (hw f')).
Proof.
  intros Hb Hc Hrow <- <- Hr [Hp Hi] E.
  destruct (attempt_inv _ _ _ _ _ E) as (h1 & Hs & Ha & _ & Hok). rewrite Hr in Hs.
  destruct (main_write _ _ _ _ Hs Hb Hc Hrow) as (Hp1 & Hi1 & Hd).
  assert (H1 : main_part (buffer_bytes r) (main_offset r ctl) m i h1)
    by (split; [by eapply partly_trans|by rewrite Hi1]).
  split; [by eapply main_part_access|]. intros He.
  destruct (Hok He) as (h2 & Hf & He2 & _). specialize (Hd h2 Hf He2).
  destruct (accesses_same _ _ Ha) as [E1 E2]. split; [|by rewrite E2, Hi1].
  rewrite E1, Hd. by apply programmed_partly.
Qed.

Lemma info_attempt data off m i r f e f' :
  trans_mainb r = 1 -> row_write r -> info_offset r = off -> buffer_bytes r = data ->
  fregs f = r -> info_part data off m i (hw f) ->
  attempt 1 write_opcode f = (e, f') ->
  info_part data off m i (hw f') /\ (e = Some 0 -> info_done data off m i (hw f')).
Proof.
  intros Hb Hrow <- <- Hr [Hp Hi] E.
  destruct (attempt_inv _ _ _ _ _ E) as (h1 & Hs & Ha & _ & Hok). rewrite Hr in Hs.
  destruct (info_write _ _ _ Hs Hb Hrow) as (Hp1 & Hi1 & Hd).
  assert (H1 : info_part (buffer_bytes r) (info_offset r) m i h1)
    by (split; [by eapply partly_trans|by rewrite Hi1]).
  split; [by eapply info_part_access|]. intros He.
  destruct (Hok He) as (h2 & Hf & He2 & _). specialize (Hd h2 Hf He2).
  destruct (accesses_same _ _ Ha) as [E1 E2]. split; [|by rewrite E1, Hi1].
  rewrite E2, Hd. by apply programmed_partly.
Qed.

(** *** Both arrays alike *)

Definition op_part (is_info : bool) := if is_info then info_part else main_part.
Definition op_done (is_info : bool) := if is_info then info_done else main_done.

Definition fits (is_info : bool) (off len : Z) : Prop :=
  0 <= off /\ off + len <= if is_info then FLASH_INFO_SIZE else FLASH_SIZE.

Lemma op_part_access is_info data off m i h h' :
  rtc access1 h h' -> op_part is_info data off m i h -> op_part is_info data off m i h'.
Proof. destruct is_info; [apply info_part_access|apply main_part_access]. Qed.

Lemma op_part_start is_info data off (h : H) :
  op_part is_info data off (main_array h) (info_array h) h.
Proof. destruct is_info; split; auto using partly_refl. Qed.

Lemma op_done_part is_info data off m i h :
  op_done is_info data off m i h -> op_part is_info data off m i h.
Proof. destruct is_info; intros [E1 E2]; (split; [by apply programmed_is_partly|done]). Qed.

Lemma op_done_nil is_info off (h : H) :
  op_done is_info [] off (main_array h) (info_array h) h.
Proof. destruct is_info; (split; [by rewrite programmed_nil|done]). Qed.

(** A first part done, then the rest in part or done. *)
Lemma op_part_l is_info d1 d2 off m i h :
  op_part is_info d1 off m i h -> op_part is_info (d1 ++ d2) off m i h.
Proof. destruct is_info; intros [E1 E2]; (split; [by apply partly_app_l|done]). Qed.

Lemma op_part_r is_info d1 d2 off m i h h' :
  op_done is_info d1 off m i h ->
  op_part is_info d2 (off + Z.of_nat (length d1)) (main_array h) (info_array h) h' ->
  op_part is_info (d1 ++ d2) off m i h'.
Proof.
  destruct is_info; intros [E1 E2] [F1 F2]; (split; [|by rewrite F2]);
    (eapply partly_trans; [apply programmed_is_partly in E1; by apply partly_app_l, E1|]);
    by apply partly_app_r.
Qed.

Lemma op_done_r is_info d1 d2 off m i h h' :
  op_done is_info d1 off m i h ->
  op_done is_info d2 (off + Z.of_nat (length d1)) (main_array h) (info_array h) h' ->
  op_done is_info (d1 ++ d2) off m i h'.
Proof.
  destruct is_info; intros [E1 E2] [F1 F2];
    (split; [by rewrite programmed_app, F1, E1|by rewrite F2]).
Qed.

(** In part, and perhaps the log of an error. *)
Definition op_after (is_info : bool) data off (m i : memory) (h : H) : Prop :=
  exists h1, op_part is_info data off m i h1 /\ hw_logged h1 h.

Lemma op_part_after is_info data off m i h :
  op_part is_info data off m i h -> op_after is_info data off m i h.
Proof. intros Hp. by exists h. Qed.

Lemma op_after_l is_info d1 d2 off m i h :
  op_after is_info d1 off m i h -> op_after is_info (d1 ++ d2) off m i h.
Proof. intros (h1 & Hp & Hl). exists h1. split; [by apply op_part_l|done]. Qed.

Lemma op_after_r is_info d1 d2 off m i h h' :
  op_done is_info d1 off m i h ->
  op_after is_info d2 (off + Z.of_nat (length d1)) (main_array h) (info_array h) h' ->
  op_after is_info (d1 ++ d2) off m i h'.
Proof. intros Hd (h1 & Hp & Hl). exists h1. split; [by eapply op_part_r|done]. Qed.

(** What the interface says of it. *)
Lemma main_after data off m i h :
  op_after false data off m i h ->
  then_logged (partly_programmed off data m) (main_array h) /\ info_array h ≡ i.
Proof.
  intros (h1 & [Hp Hi] & [Hl Hj]). split; [by exists (main_array h1)|by rewrite Hj].
Qed.

Lemma info_after data off m i h :
  op_after true data off m i h ->
  partly_programmed off data i (info_array h) /\ logged m (main_array h).
Proof.
  intros (h1 & [Hp Hm] & [Hl Hj]). split; [by rewrite Hj|by rewrite <- Hm].
Qed.

(** *** A batch *)

(** Where the batch goes is what the 16-bit field of the controller holds. *)
Lemma batch_at (is_info : bool) (off dst : Z) n data f rv f' :
  let field := 4 * Z.land (Z.quot (if is_info then off else bank_offset off) 4) 0xffff in
  bytes data -> (1 <= n <= 32)%nat -> (4 * n <= length data)%nat ->
  field mod FLASH_ROW_SIZE + 4 * Z.of_nat n <= FLASH_ROW_SIZE ->
  dst = (if is_info then field else bank off * FLASH_HALF + field) ->
  write_batch off is_info (Z.of_nat n) data f = (rv, f') ->
  let m := main_array (hw f) in let i := info_array (hw f) in
  op_after is_info (take (4 * n) data) dst m i (hw f') /\
  (rv = EC.SUCCESS -> op_done is_info (take (4 * n) data) dst m i (hw f')).
Proof.
  intros field Hb Hn Hl Hrow Hdst E m i. unfold write_batch in E.
  rewrite Nat2Z.id in E. unfold bind at 1, set_fregs, modify in E.
  set (f0 := mkFlash (hw f) _ _) in E. unfold bind at 1 in E.
  destruct (do_flash_op OP_WRITE_BLOCK is_info off (Z.of_nat n) f0) as [rv1 f1] eqn:E1.
  apply (do_flash_op_spec (op_part is_info (take (4 * n) data) dst m i)
    (op_done is_info (take (4 * n) data) dst m i) _ _ _ _ _ _ _) in E1 as [Hp Hd];
    [|intros h h'; apply op_part_access| |apply op_part_start].
  - destruct (nz rv1) eqn:Hrv.
    + unfold bind in E. pose proof (log_errors_logged OP_WRITE_BLOCK f1) as L.
      destruct (log_do_flash_op_errors OP_WRITE_BLOCK f1) as [u f2].
      unfold ret in E. simplify_eq. cbn [snd] in *. apply nz_true in Hrv. split; [|done].
      by exists (hw f1).
    + unfold bind, ret in E. simplify_eq. auto using op_part_after.
  - intros g e g' Hg Hi Ha.
    set (r := op_regs OP_WRITE_BLOCK is_info _ _ _) in Hg.
    assert (Hbuf : buffer_bytes r = take (4 * n) data).
    { apply batch_buffer; try done; cbn; [by apply size_field|].
      exact (eq_sym (splice_twice _ _)). }
    assert (Hsz : trans_size r = Z.of_nat n - 1) by by apply size_field.
    assert (Hf : 4 * trans_offset r = field) by (unfold field, bank_offset; by destruct is_info).
    assert (Hr : row_write r).
    { split; [cbn; apply Z.land_nonneg; by right|]. split; [lia|]. rewrite Hf. lia. }
    destruct is_info.
    + by apply (info_attempt _ _ _ _ r g e g'); try (unfold info_offset; lia).
    + apply (main_attempt _ _ _ _ (bank off) r g e g'); try done.
      unfold bank. destruct (_ <=? _); auto.
Qed.

Lemma batch_spec is_info off n data f rv f' :
  bytes data -> (1 <= n <= 32)%nat -> (4 * n <= length data)%nat ->
  fits is_info off (4 * Z.of_nat n) -> off mod 4 = 0 ->
  off mod FLASH_ROW_SIZE + 4 * Z.of_nat n <= FLASH_ROW_SIZE ->
  write_batch off is_info (Z.of_nat n) data f = (rv, f') ->
  let m := main_array (hw f) in let i := info_array (hw f) in
  op_after is_info (take (4 * n) data) off m i (hw f') /\
  (rv = EC.SUCCESS -> op_done is_info (take (4 * n) data) off m i (hw f')).
Proof.
  intros Hb Hn Hl [Hoff Hfit] H4 Hrow E. destruct is_info.
  - unfold FLASH_INFO_SIZE in Hfit.
    assert (Ho : 4 * Z.land (Z.quot off 4) 0xffff = off)
      by (apply trans_word; [change FLASH_HALF with 262144; lia|done]).
    apply (batch_at true off off n data f rv f'); try done; by rewrite Ho.
  - destruct (bank_offset_range off ltac:(lia)) as (Hr & Hs & Hc & _ & Hrow' & H4').
    assert (Ho : 4 * Z.land (Z.quot (bank_offset off) 4) 0xffff = bank_offset off)
      by (apply trans_word; [done|lia]).
    apply (batch_at false off off n data f rv f'); try done; rewrite Ho; [|done].
    by rewrite Hrow'.
Qed.

(** *** Writes *)

Lemma batch_size_spec off len :
  0 <= off -> off mod 4 = 0 -> 0 < len -> len mod 4 = 0 ->
  let num := batch_size off len in
  exists n, num = 4 * Z.of_nat n /\ (1 <= n <= 32)%nat /\ num <= len /\
    off mod FLASH_ROW_SIZE + num <= FLASH_ROW_SIZE /\ (off + num) mod 4 = 0 /\
    (len - num) mod 4 = 0.
Proof.
  intros Ho H4 Hl Hl4 num. unfold num, batch_size, FLASH_WRITE_IDEAL_SIZE, FLASH_ROW_SIZE.
  rewrite Z.rem_mod_nonneg by lia.
  set (k := Z.min _ _).
  assert (Hk : k mod 4 = 0).
  { unfold k. assert ((256 - off mod 256) mod 4 = 0) by (Z.div_mod_to_equations; lia).
    destruct (Z.min_spec (Z.min len 128) (256 - off mod 256)) as [[_ ->]|[_ ->]]; [|done].
    by destruct (Z.min_spec len 128) as [[_ ->]|[_ ->]]. }
  assert (0 < k <= 128 /\ k <= len /\ k <= 256 - off mod 256).
  { unfold k. pose proof (Z.mod_pos_bound off 256). lia. }
  exists (Z.to_nat (k / 4)). split_and!; try lia; Z.div_mod_to_equations; lia.
Qed.

Lemma write_loop_spec is_info fuel off data f rv f' :
  (length data <= fuel)%nat -> bytes data -> Z.of_nat (length data) mod 4 = 0 ->
  off mod 4 = 0 -> fits is_info off (Z.of_nat (length data)) ->
  write_loop fuel off is_info data f = (rv, f') ->
  let m := main_array (hw f) in let i := info_array (hw f) in
  op_after is_info data off m i (hw f') /\
  (rv = EC.SUCCESS -> op_done is_info data off m i (hw f')).
Proof.
  revert off data f. induction fuel as [|fuel IH]; intros off data f Hf Hb Hl H4 Hfit E m i.
  { destruct data; [|cbn in Hf; lia]. cbn in E. unfold ret in E. simplify_eq.
    split; intros; [apply op_part_after, op_done_part|]; apply op_done_nil. }
  destruct (decide (data = [])) as [->|Hne].
  { cbn in E. unfold ret in E. simplify_eq.
    split; intros; [apply op_part_after, op_done_part|]; apply op_done_nil. }
  assert (Hpos : (0 < length data)%nat) by (destruct data; [done|cbn; lia]).
  cbn [write_loop] in E. destruct data as [|b0 data0]; [done|]. set (data := b0 :: data0) in *.
  destruct (batch_size_spec off (Z.of_nat (length data)))
    as (n & Hnum & Hn & Hle & Hrow & H4' & Hl'); [apply Hfit|done|lia|done|].
  rewrite Hnum in *. replace (Z.quot (4 * Z.of_nat n) 4) with (Z.of_nat n) in E
    by (rewrite Z.mul_comm, Z.quot_mul; lia).
  unfold bind in E. destruct (write_batch off is_info (Z.of_nat n) data f) as [rv1 f1] eqn:E1.
  assert (Hsplit : data = take (4 * n) data ++ drop (4 * n) data) by by rewrite take_drop.
  assert (Hlt : length (take (4 * n) data) = (4 * n)%nat) by (rewrite length_take; lia).
  destruct (batch_spec is_info off n data f rv1 f1) as [Hp Hd]; try done; [lia| |].
  { split; [apply Hfit|]. etrans; [|apply Hfit]. lia. }
  destruct (nz rv1) eqn:Hrv.
  - unfold ret in E. simplify_eq. apply nz_true in Hrv. split; [|done].
    rewrite Hsplit. by apply op_after_l.
  - apply nz_false in Hrv. specialize (Hd Hrv).
    replace (Z.to_nat (4 * Z.of_nat n)) with (4 * n)%nat in E by lia.
    replace (off + 4 * Z.of_nat n) with (off + Z.of_nat (length (take (4 * n) data))) in E
      by lia.
    assert (Hld : length (drop (4 * n) data) = (length data - 4 * n)%nat)
      by apply length_drop.
    apply IH in E as [Hp2 Hd2].
    + rewrite Hsplit. split; [by eapply op_after_r|]. intros Hs.
      by eapply op_done_r, Hd2, Hs.
    + lia.
    + by apply Forall_drop.
    + rewrite Hld. rewrite <-Hl'. f_equal. lia.
    + rewrite Hlt, <-H4'. f_equal. lia.
    + destruct Hfit as [F1 F2]. split; lia.
Qed.

Lemma write_internal_spec is_info off data f rv f' :
  fits is_info off (Z.of_nat (length data)) -> bytes data ->
  flash_physical_write_internal off is_info data f = (rv, f') ->
  let m := main_array (hw f) in let i := info_array (hw f) in
  op_after is_info data off m i (hw f') /\
  (rv = EC.SUCCESS -> op_done is_info data off m i (hw f')).
Proof.
  intros Hfit Hb E m i. unfold flash_physical_write_internal, FLASH_WRITE_SIZE in E.
  pose proof (proj1 Hfit). rewrite !Z.rem_mod_nonneg in E by lia.
  destruct (nz (off mod 4)) eqn:H1;
    [|destruct (nz (Z.of_nat (length data) mod 4)) eqn:H2]; cbn [orb] in E.
  1,2: unfold ret in E; simplify_eq; split; [apply op_part_after, op_part_start|done].
  apply nz_false in H1, H2. by eapply write_loop_spec in E.
Qed.

(** *** Erasures *)

Definition erase_part len off (m i : memory) (h : H) : Prop :=
  only_in off len m (main_array h) /\ info_array h ≡ i.
Definition erase_done len off (m i : memory) (h : H) : Prop :=
  main_array h ≡ erased off len m /\ info_array h ≡ i.

Lemma erase_part_access len off m i h h' :
  rtc access1 h h' -> erase_part len off m i h -> erase_part len off m i h'.
Proof.
  intros Ha [Hp Hi]. destruct (accesses_same _ _ Ha) as [E1 E2].
  split; [by rewrite E1|by rewrite E2].
Qed.

(** In part, and perhaps the log of an error. *)
Definition erase_after len off (m i : memory) (h : H) : Prop :=
  then_logged (only_in off len m) (main_array h) /\ info_array h ≡ i.

Lemma erase_attempt off m i ctl r f e f' :
  trans_mainb r = 0 -> ctl = 0 \/ ctl = 1 -> 0 <= trans_offset r ->
  4 * trans_offset r mod FLASH_ERASE_SIZE = 0 -> main_offset r ctl = off ->
  fregs f = r -> erase_part FLASH_ERASE_SIZE off m i (hw f) ->
  attempt ctl erase_opcode f = (e, f') ->
  erase_part FLASH_ERASE_SIZE off m i (hw f') /\
  (e = Some 0 -> erase_done FLASH_ERASE_SIZE off m i (hw f')).
Proof.
  intros Hb Hc H0 Hal <- Hr [Hp Hi] E.
  destruct (attempt_inv _ _ _ _ _ E) as (h1 & Hs & Ha & _ & Hok). rewrite Hr in Hs.
  destruct (main_erase _ _ _ _ Hs Hb Hc H0 Hal) as (Hp1 & Hi1 & Hd).
  assert (H1 : erase_part FLASH_ERASE_SIZE (main_offset r ctl) m i h1)
    by (split; [by eapply only_in_trans|by rewrite Hi1]).
  split; [by eapply erase_part_access|]. intros He.
  destruct (Hok He) as (h2 & Hf & He2 & _). specialize (Hd h2 Hf He2).
  destruct (accesses_same _ _ Ha) as [E1 E2]. split; [|by rewrite E2, Hi1].
  rewrite E1, Hd. by apply erased_partly.
Qed.

Lemma erase_block_spec off words f rv f' :
  0 <= off < FLASH_SIZE -> off mod FLASH_ERASE_SIZE = 0 ->
  do_flash_op OP_ERASE_BLOCK false off words f = (rv, f') ->
  let m := main_array (hw f) in let i := info_array (hw f) in
  erase_part FLASH_ERASE_SIZE off m i (hw f') /\
  (rv = EC.SUCCESS -> erase_done FLASH_ERASE_SIZE off m i (hw f')).
Proof.
  intros Hoff Hal E m i.
  apply (do_flash_op_spec (erase_part FLASH_ERASE_SIZE off m i)
    (erase_done FLASH_ERASE_SIZE off m i) _ _ _ _ _ _ _) in E; [exact E| | |].
  - intros h h'. apply erase_part_access.
  - intros g e g' Hg Hi Ha. set (r := op_regs _ _ _ _ _) in Hg.
    destruct (bank_offset_range off Hoff) as (Hr & Hs & Hc & Hal' & _).
    assert (H4 : bank_offset off mod 4 = 0)
      by (rewrite Hal in Hal'; unfold FLASH_ERASE_SIZE in Hal'; Z.div_mod_to_equations; lia).
    assert (Ho : 4 * trans_offset r = bank_offset off) by (by apply trans_word).
    apply (erase_attempt _ _ _ (bank off) r g e g'); try done; [lia| |].
    + rewrite Ho. by rewrite Hal'.
    + unfold main_offset. by rewrite Ho.
  - split; [apply only_in_refl|done].
Qed.

Lemma erase_loop_spec blocks off nb f rv f' :
  0 <= off -> off + Z.of_nat blocks * FLASH_ERASE_SIZE <= FLASH_SIZE ->
  off mod FLASH_ERASE_SIZE = 0 -> erase_loop blocks off nb f = (rv, f') ->
  let m := main_array (hw f) in let i := info_array (hw f) in
  let len := Z.of_nat blocks * FLASH_ERASE_SIZE in
  erase_after len off m i (hw f') /\ (rv = EC.SUCCESS -> erase_done len off m i (hw f')).
Proof.
  revert off nb f. induction blocks as [|blocks IH]; intros off nb f H0 Hfit Hal E m i len.
  { cbn in E. unfold ret in E. simplify_eq.
    split; [split; [apply then_logged_now, only_in_refl|done]|].
    intros _. split; [|done]. intros a. unfold erased.
    change len with 0. by range_cases a; [lia|]. }
  assert (HE : FLASH_ERASE_SIZE = 2048) by done.
  cbn [erase_loop] in E. unfold bind at 1 in E.
  destruct (do_flash_op OP_ERASE_BLOCK false off (Z.quot nb 4) f) as [rv1 f1] eqn:E1.
  destruct (erase_block_spec off (Z.quot nb 4) f rv1 f1) as [[P1 P2] Hd]; try done; [lia|].
  assert (Hlen : len = FLASH_ERASE_SIZE + Z.of_nat blocks * FLASH_ERASE_SIZE)
    by (unfold len; lia).
  destruct (nz rv1) eqn:Hrv.
  - unfold bind in E. pose proof (log_errors_logged OP_ERASE_BLOCK f1) as [L1 L2].
    destruct (log_do_flash_op_errors OP_ERASE_BLOCK f1) as [u f2].
    unfold ret in E. simplify_eq. cbn [snd] in *. apply nz_true in Hrv. split; [|done].
    split; [|by rewrite L2]. exists (main_array (hw f1)). split; [|done].
    eapply only_in_weaken, P1; lia.
  - apply nz_false in Hrv. destruct (Hd Hrv) as [D1 D2].
    apply IH in E as [[Q1 Q2] Hd2]; [|lia|lia|].
    + split.
      * split; [|by rewrite Q2]. revert Q1. apply then_logged_mono. intros m1 Q1.
        eapply only_in_trans.
        -- eapply only_in_weaken, P1; lia.
        -- eapply only_in_weaken, Q1; lia.
      * intros Hs. destruct (Hd2 Hs) as [F1 F2]. split; [|by rewrite F2].
        rewrite F1, D1, Hlen. symmetry. apply erased_app; lia.
    + rewrite HE in *. Z.div_mod_to_equations; lia.
Qed.

Lemma erase_spec off len f rv f' :
  0 <= off -> 0 <= len -> off + len <= FLASH_SIZE ->
  physical_erase off len f = (rv, f') ->
  let m := main_array (hw f) in let i := info_array (hw f) in
  erase_after len off m i (hw f') /\ (rv = EC.SUCCESS -> erase_done len off m i (hw f')).
Proof.
  intros H0 Hl Hfit E m i. unfold physical_erase in E.
  assert (HE : FLASH_ERASE_SIZE = 2048) by done.
  rewrite !Z.rem_mod_nonneg in E by lia.
  destruct (nz (off mod FLASH_ERASE_SIZE)) eqn:H1;
    [|destruct (nz (len mod FLASH_ERASE_SIZE)) eqn:H2]; cbn [orb] in E.
  1,2: unfold ret in E; simplify_eq; split; [split; [apply then_logged_now, only_in_refl|done]|done].
  apply nz_false in H1, H2.
  assert (Hk : Z.of_nat (Z.to_nat (len / FLASH_ERASE_SIZE)) * FLASH_ERASE_SIZE = len)
    by (rewrite HE in *; Z.div_mod_to_equations; lia).
  apply erase_loop_spec in E; [|done|lia|done]. rewrite Hk in E. exact E.
Qed.

(** *** Result codes *)

(** The code of a function is a byte. *)
Definition codes (m : ST (flash H) Z) : Prop := forall f, 0 <= (m f).1 < 256.

Lemma codes_ret c : 0 <= c < 256 -> codes (ret c).
Proof. by intros Hc f. Qed.

Lemma codes_bind {A} (m : ST (flash H) A) k : (forall a, codes (k a)) -> codes (bind m k).
Proof. intros Hk f. unfold bind. destruct (m f) as [a f1]. apply Hk. Qed.

Lemma codes_then (m : ST (flash H) Z) k :
  codes m -> (forall c, 0 <= c < 256 -> codes (k c)) -> codes (bind m k).
Proof.
  intros Hm Hk f. unfold bind. specialize (Hm f). destruct (m f) as [c f1]. by apply Hk.
Qed.

Ltac code_step :=
  match goal with
  | |- codes (bind _ _) => apply codes_bind; intros ?
  | |- codes (ret _) => apply codes_ret; done || (vm_compute; intuition discriminate)
  | |- codes (if ?b then _ else _) => destruct b
  | |- codes (match ?x with _ => _ end) => destruct x
  end.

Lemma attempts_codes fuel op ctl opcode n max extra :
  codes (attempts fuel op ctl opcode n max extra).
Proof.
  revert n max extra. induction fuel as [|fuel IH]; intros n max extra; cbn [attempts];
    repeat code_step; apply IH.
Qed.

Lemma do_flash_op_codes op is_info off words : codes (do_flash_op op is_info off words).
Proof.
  unfold do_flash_op.
  destruct (if is_info then _ else _) as [ctl off']. repeat code_step. apply attempts_codes.
Qed.

Lemma write_codes off is_info data : codes (flash_physical_write_internal off is_info data).
Proof.
  unfold flash_physical_write_internal. code_step; [by code_step|].
  generalize (length data) at 1. intros fuel.
  revert off data. induction fuel as [|fuel IH]; intros off data; cbn [write_loop]; [by code_step|].
  destruct data; [by code_step|]. apply codes_then.
  - unfold write_batch. code_step. apply codes_then; [apply do_flash_op_codes|].
    intros c Hc. by repeat code_step.
  - intros c Hc. code_step; [by code_step|apply IH].
Qed.

(** *** Reads of the INFO page *)

Lemma read_info_spec off f rv w f' :
  0 <= off -> off + 4 <= FLASH_INFO_SIZE ->
  physical_info_read_word off f = ((rv, w), f') ->
  (rv = EC.SUCCESS ->
     w = read_word (info_array (hw f)) off /\ main_array (hw f') ≡ main_array (hw f)) /\
  0 <= rv < 256 /\ hw_logged (hw f) (hw f').
Proof.
  intros H0 Hfit E. unfold physical_info_read_word, FLASH_WRITE_SIZE in E.
  assert (HI : FLASH_INFO_SIZE = 2048) by done.
  rewrite Z.rem_mod_nonneg in E by lia. destruct (nz (off mod 4)) eqn:H1.
  { unfold ret in E. simplify_eq. split; [done|]. by split; [vm_compute|]. }
  apply nz_false in H1. unfold bind at 1 in E.
  pose proof (do_flash_op_codes OP_READ_BLOCK true off 1 f) as Hcode.
  destruct (do_flash_op OP_READ_BLOCK true off 1 f) as [rv1 f1] eqn:E1. cbn [fst] in Hcode.
  set (Inv := fun h : H => main_array h ≡ main_array (hw f) /\ info_array h ≡ info_array (hw f)).
  assert (Hacc : forall h h', rtc access1 h h' -> Inv h -> Inv h').
  { intros h h' Ha [I1 I2]. destruct (accesses_same _ _ Ha) as [A1 A2].
    split; [by rewrite A1|by rewrite A2]. }
  apply (do_flash_op_spec Inv (fun h => (fsh_dout h).1 = read_word (info_array (hw f)) off)
    _ _ _ _ _ _ _) in E1 as [Hi Hd].
  - destruct (nz rv1) eqn:Hrv.
    + unfold bind in E. pose proof (log_errors_logged OP_READ_BLOCK f1) as [L1 L2].
      destruct (log_do_flash_op_errors OP_READ_BLOCK f1) as [u f2].
      unfold ret in E. simplify_eq. cbn [snd] in *. apply nz_true in Hrv.
      destruct Hi as [I1 I2]. split; [done|]. split; [done|]. split; [by rewrite <- I1|by rewrite L2].
    + apply nz_false in Hrv. specialize (Hd Hrv).
      unfold bind, on_hw in E. pose proof (access_dout (hw f1)) as Ha.
      destruct (fsh_dout (hw f1)) as [w1 h2]. unfold ret in E. simplify_eq.
      destruct (Hacc (hw f1) h2 (rtc_once _ _ Ha) Hi) as [A1 A2].
      split; [done|]. split; [done|]. split; [by apply same_logged|done].
  - exact Hacc.
  - intros g e g' Hg [I1 I2] Ha.
    destruct (attempt_inv _ _ _ _ _ Ha) as (h1 & Hs & Hr & _ & Hok). rewrite Hg in Hs.
    destruct (info_read _ _ _ Hs eq_refl) as (M1 & M2 & Hv). split.
    + apply (Hacc h1); [done|]. split; [by rewrite M1|by rewrite M2].
    + intros He. destruct (Hok He) as (h2 & Hf & He2 & Hr2).
      rewrite (Hv h2 (hw g') Hf He2 Hr2). unfold info_offset.
      change (trans_offset (op_regs OP_READ_BLOCK true off 1 (fregs f)))
        with (Z.land (Z.quot off 4) 0xffff).
      rewrite trans_word by (change FLASH_HALF with 262144; lia || done).
      unfold read_word, read_bytes. f_equal. apply map_ext. intros a. apply I2.
  - done.
Qed.

(** *** The driver implements the interface *)

#[export] Instance flash_driver_laws : FlashDevLaws (flash H).
Proof.
  split.
  - intros off data f f' Hb H0 Hl E.
    by apply (write_internal_spec false off data f _ f' (conj H0 Hl) Hb E).
  - intros off data f rv f' Hb H0 Hl E. eapply main_after.
    by apply (write_internal_spec false off data f _ f' (conj H0 Hl) Hb E).
  - intros off len f f' H0 Hl Hfit E. by apply (erase_spec off len f _ f' H0 Hl Hfit E).
  - intros off len f rv f' H0 Hl Hfit E. by apply (erase_spec off len f _ f' H0 Hl Hfit E).
  - apply read_info_spec.
  - intros off data f f' Hb. cbn. unfold info_physical_write.
    destruct (_ || nz _) eqn:Ec; [discriminate|]. intros E.
    apply (write_internal_spec true off data f EC.SUCCESS f'); [|done..].
    rewrite !orb_false_iff, !Z.ltb_ge in Ec. split; lia.
  - intros off data f rv f' Hb. cbn. unfold info_physical_write.
    destruct (_ || nz _) eqn:Ec.
    + unfold ret. intros [= <- <-]. split; [apply partly_refl|]. by split; [vm_compute|].
    + intros E. pose proof (write_codes off true data f) as Hcode. rewrite E in Hcode.
      destruct (write_internal_spec true off data f rv f') as [[P1 P2]%info_after _]; [|done..].
      rewrite !orb_false_iff, !Z.ltb_ge in Ec. split; lia.
  - intros m f [Hm|(off & n & ->)]; [|done].
    rewrite !elem_of_cons, elem_of_nil in Hm. by destruct Hm as [->|[->|[->|[]]]].
Qed.

(** C6. A write to the flash of any size and alignment to words is one operation: when it
    succeeds the bytes of its range have been programmed, in whatever batches and with
    however many attempts the controller needed; when it fails only bits that were to
    be cleared in its range have been cleared, and then the page of the flash log may have
    changed, into which the error is logged; the INFO page stays, and a misaligned write
    changes nothing at all. *)
Theorem flash_write_refines off data (f : flash H) :
  bytes data -> 0 <= off -> off + Z.of_nat (length data) <= FLASH_SIZE ->
  let '(rv, f') := physical_write off data f in
  (rv = EC.SUCCESS -> main_array (hw f') ≡ programmed off data (main_array (hw f))) /\
  then_logged (partly_programmed off data (main_array (hw f))) (main_array (hw f')) /\
  info_array (hw f') ≡ info_array (hw f) /\
  (off mod 4 <> 0 \/ Z.of_nat (length data) mod 4 <> 0 -> rv = EC.ERROR_INVAL /\ f' = f).
Proof.
  intros Hb H0 Hfit. destruct (physical_write off data f) as [rv f'] eqn:E.
  destruct (write_internal_spec false off data f rv f' (conj H0 Hfit) Hb E)
    as [[Hp Hi]%main_after Hd].
  split; [intros Hs; apply (Hd Hs)|]. split; [done|]. split; [done|]. intros Hal.
  unfold physical_write, flash_physical_write_internal, FLASH_WRITE_SIZE in E.
  rewrite !Z.rem_mod_nonneg in E by lia.
  assert (Hnz : nz (off mod 4) || nz (Z.of_nat (length data) mod 4) = true)
    by (destruct Hal as [Hal|Hal]; apply nz_true in Hal; rewrite Hal; auto using orb_true_r).
  rewrite Hnz in E. unfold ret in E. by simplify_eq.
Qed.

(** *** Termination of the attempts *)

Lemma attempts_fuel fuel fuel' op ctl opcode n max (extra : bool) (f : flash H) :
  let left := max - n + if extra then 0 else 1 in
  left < Z.of_nat fuel -> left < Z.of_nat fuel' -> n <= max ->
  attempts fuel op ctl opcode n max extra f = attempts fuel' op ctl opcode n max extra f.
Proof.
  revert fuel' n max extra f. induction fuel as [|fuel IH]; intros fuel' n max extra f left H1 H2 Hn.
  { unfold left in H1. destruct extra; lia. }
  destruct fuel' as [|fuel']; [unfold left in H2; destruct extra; lia|].
  cbn [attempts]. destruct (Z.ltb_spec n max) as [Hlt|]; [|done].
  unfold bind. destruct (attempt ctl opcode f) as [[e|] f1]; [|done].
  destruct (e =? 0).
  - destruct (bool_decide (op = OP_WRITE_BLOCK)), extra; cbn [andb negb]; try done.
    apply IH; unfold left in *; lia.
  - apply IH; unfold left in *; destruct extra; lia.
Qed.

(** C33. The retry loop of an operation ends whatever the controller reports: more fuel than
    the model has never changes its result, so that running out of attempts is the only
    way out of it besides success and a controller that is given up. *)
Theorem flash_op_terminates op is_info words opcode size max fuel ctl (f : flash H) :
  op_params op is_info words = Some (opcode, size, max) ->
  (attempts_fuel_max <= fuel)%nat ->
  attempts fuel op ctl opcode 0 max false f =
  attempts attempts_fuel_max op ctl opcode 0 max false f.
Proof.
  intros Hp Hf. assert (Hmax : 0 <= max <= 45)
    by (destruct op, is_info; cbn in Hp; simplify_eq; lia).
  unfold attempts_fuel_max in *. apply attempts_fuel; lia.
Qed.
End Driver.

(** ** A controller *)

(** Its first [tfails] operations do nothing and report an error; an event is one byte at the
    start of the page of the log. *)
Record toy_flash := mkToyFlash {
  tm : memory; ti : memory; terr : Z; tdout : Z; tfails : nat; tevents : list Z
}.

Definition toy_start (r : flash_regs) (ctl opcode : Z) : ST toy_flash unit := fun h =>
  (tt, match tfails h with
       | S n => mkToyFlash (tm h) (ti h) 8 (tdout h) n (tevents h)
       | O =>
           if opcode =? write_opcode then
             if trans_mainb r =? 0
             then mkToyFlash (programmed (main_offset r ctl) (buffer_bytes r) (tm h)) (ti h)
                    0 (tdout h) 0 (tevents h)
             else mkToyFlash (tm h) (programmed (info_offset r) (buffer_bytes r) (ti h))
                    0 (tdout h) 0 (tevents h)
           else if opcode =? erase_opcode
           then mkToyFlash (erased (main_offset r ctl) FLASH_ERASE_SIZE (tm h)) (ti h)
                  0 (tdout h) 0 (tevents h)
           else mkToyFlash (tm h) (ti h) 0 (read_word (ti h) (info_offset r)) 0 (tevents h)
       end).

#[global] Instance toy_controller : FlashController toy_flash := {
  main_array := tm;
  info_array := ti;
  smart_algo_on := ret true;
  fsh_error h := (terr h, mkToyFlash (tm h) (ti h) 0 (tdout h) (tfails h) (tevents h));
  fsh_start := toy_start;
  fsh_pe_control ctl := ret 0;
  fsh_stop ctl := ret tt;
  fsh_dout := gets tdout;
  flash_log_add_event e h :=
    (tt, mkToyFlash (programmed FLASH_LOG_OFFSET [e] (tm h)) (ti h) (terr h) (tdout h) (tfails h)
           (e :: tevents h))
}.

Lemma toy_finished ctl h h' : finished ctl h h' -> h' = h.
Proof. by induction 1 as [h h' [= <-]|v h h1 h' [= <- <-] _ IH]. Qed.

Lemma toy_access h h' : access1 h h' ->
  tm h' = tm h /\ ti h' = ti h /\ tdout h' = tdout h.
Proof. by destruct 1. Qed.

Lemma toy_accesses h h' : rtc access1 h h' -> tdout h' = tdout h.
Proof.
  induction 1 as [h|h h1 h' Ha _ IH]; [done|]. rewrite IH. by apply toy_access.
Qed.

#[global] Instance toy_controller_laws : FlashControllerLaws toy_flash.
Proof.
  split.
  - intros h h' Ha. apply toy_access in Ha as (E1 & E2 & _). cbn. by rewrite E1, E2.
  - intros e h. cbn. split; [|done]. intros a Ha. unfold programmed. apply in_range_false in Ha.
    destruct (in_range _ _ a) eqn:Ea; [|done]. apply in_range_spec in Ea.
    change (Z.of_nat (length [e])) with 1 in Ea. unfold FLASH_LOG_SPACE, FLASH_ERASE_SIZE in Ha. lia.
  - intros r ctl h h1 [= <-] Hb _ _ off. cbn. destruct (tfails h); cbn; rewrite ?Hb; cbn.
    + split; [by apply programmed_is_partly|done].
    + split; [apply partly_refl|]. split; [done|].
      intros h2 Hf. by apply toy_finished in Hf as ->.
  - intros r h h1 [= <-] Hb _ off. cbn. destruct (tfails h); cbn; rewrite ?Hb; cbn.
    + split; [by apply programmed_is_partly|done].
    + split; [apply partly_refl|]. split; [done|].
      intros h2 Hf. by apply toy_finished in Hf as ->.
  - intros r ctl h h1 [= <-] _ _ _ _ off. cbn. destruct (tfails h); cbn.
    + split; [by apply erased_is_only_in|done].
    + split; [apply only_in_refl|]. split; [done|].
      intros h2 Hf. by apply toy_finished in Hf as ->.
  - intros r h h1 [= <-] _. cbn. destruct (tfails h); cbn.
    + split; [done|]. split; [done|]. intros h2 h3 Hf _ Ha. apply toy_finished in Hf as ->.
      cbn. by rewrite (toy_accesses _ _ Ha).
    + split; [done|]. split; [done|]. intros h2 h3 Hf. by apply toy_finished in Hf as ->.
Qed.

Definition blank_regs : flash_regs := mkFlashRegs 0 0 0 (zeros 32) false (0, 0) false.

(** An erased flash whose controller fails [n] times first. *)
Definition failing_device (n : nat) : flash toy_flash :=
  mkFlash (mkToyFlash (fun _ => 255) (fun _ => 255) 0 0 n []) blank_regs 0.

(** Twelve bytes across the end of a row; the first three attempts fail. *)
Definition toy_data : list Z := [1; 2; 3; 4; 5; 6; 7; 8; 9; 10; 11; 12].

Example flash_write_refines_witness :
  let '(rv, f') := physical_write 252 toy_data (failing_device 3) in
  rv = EC.SUCCESS /\ read_bytes (main_array (hw f')) 251 14 = 255 :: toy_data ++ [255].
Proof.
  assert (Hb : bytes toy_data) by (repeat constructor; unfold is_byte; lia).
  pose proof (flash_write_refines 252 toy_data (failing_device 3) Hb ltac:(lia)
    ltac:(vm_compute; discriminate)) as Hw.
  destruct (physical_write 252 toy_data (failing_device 3)) as [rv f'] eqn:E.
  assert (Hrv : rv = EC.SUCCESS)
    by (transitivity (physical_write 252 toy_data (failing_device 3)).1;
        [by rewrite E|vm_compute; reflexivity]).
  split; [exact Hrv|]. destruct Hw as (Hw & _). specialize (Hw Hrv).
  unfold read_bytes. transitivity (map (fun i =>
    programmed 252 toy_data (fun _ => 255) (251 + Z.of_nat i)) (seq 0 14)).
  - apply map_ext. intros i. apply Hw.
  - vm_compute. reflexivity.
Defined.

(** A controller that fails for ever: the erasure is given up after 45 attempts. *)
Example flash_op_terminates_witness :
  (attempts 1000 OP_ERASE_BLOCK 0 erase_opcode 0 45 false (failing_device 200)).1 =
  EC.ERROR_UNKNOWN.
Proof.
  assert (Hf : (attempts_fuel_max <= 1000)%nat) by (apply Nat.leb_le; vm_compute; reflexivity).
  rewrite (flash_op_terminates OP_ERASE_BLOCK false 0 erase_opcode 0 45 1000 0
    (failing_device 200) eq_refl Hf).
  vm_compute. reflexivity.
Defined.
