(* ===== verification/BoardId.v ===== *)
(** * Board ID (chip/g/board_id.c), with the image headers it is checked against
    (chip/g/signed_header.h, [get_program_memory_addr] of common/system.c)

    The board ID is three words of the INFO page, which can be programmed but not
    erased.  An image runs only on boards whose ID matches its header. *)

From S2P Require Import Prelude Vendor Flash.

(** ** Images *)

Inductive system_image_copy_t :=
| SYSTEM_IMAGE_UNKNOWN | SYSTEM_IMAGE_RO | SYSTEM_IMAGE_RW
| SYSTEM_IMAGE_RO_B | SYSTEM_IMAGE_RW_B.

#[global] Instance system_image_copy_t_dec : EqDecision system_image_copy_t.
Proof. solve_decision. Defined.

Definition CFG_TOP_SIZE : Z := 0x3000.
Definition RO_SIZE : Z := 0x4000.
Definition RO_MEM_OFF : Z := 0.
Definition RO_B_MEM_OFF : Z := FLASH_HALF.
Definition RW_MEM_OFF : Z := RO_SIZE.
Definition RW_B_MEM_OFF : Z := FLASH_HALF + RW_MEM_OFF.
Definition RW_SIZE : Z := FLASH_HALF - RW_MEM_OFF - CFG_TOP_SIZE.
Definition INVALID_ADDR : Z := 0xffffffff.

Definition get_program_memory_addr (copy : system_image_copy_t) : Z :=
  match copy with
  | SYSTEM_IMAGE_RO => PROGRAM_MEMORY_BASE + RO_MEM_OFF
  | SYSTEM_IMAGE_RW => PROGRAM_MEMORY_BASE + RW_MEM_OFF
  | SYSTEM_IMAGE_RO_B => PROGRAM_MEMORY_BASE + RO_B_MEM_OFF
  | SYSTEM_IMAGE_RW_B => PROGRAM_MEMORY_BASE + RW_B_MEM_OFF
  | SYSTEM_IMAGE_UNKNOWN => INVALID_ADDR
  end.

(** The fields of [struct SignedHeader] that the firmware reads, at their offsets. *)
Record SignedHeader := mkHeader {
  keyid : Z;
  image_size : Z;
  epoch_ : Z;
  major_ : Z;
  minor_ : Z;
  board_id_type : Z;
  board_id_type_mask : Z;
  board_id_flags : Z
}.

Definition sizeof_SignedHeader : nat := 1024.
Definition SIGNED_HEADER_PADDING : Z := 0x33333333.
Definition TOP_IMAGE_SIZE_BIT : Z := 2 ^ 31.
Definition image_size_offset : nat := 808.

Definition header_of_bytes (b : list Z) : SignedHeader :=
  let word off := le_val (sub off 4 b) in
  mkHeader (word 420%nat) (word image_size_offset) (word 860%nat) (word 864%nat)
    (word 868%nat) (word 996%nat) (word 1000%nat) (word 1004%nat).

(** The header at an address of the mapped flash. *)
Definition header_at (m : memory) (addr : Z) : SignedHeader :=
  header_of_bytes (read_bytes m (addr - PROGRAM_MEMORY_BASE) sizeof_SignedHeader).

(** ** The board ID *)

Record board_id := mkBid { bid_type : Z; bid_type_inv : Z; bid_flags : Z }.

#[global] Instance board_id_dec : EqDecision board_id.
Proof. solve_decision. Defined.

Definition BLANK_FIELD : Z := 0xffffffff.
Definition INFO_MAX : Z := 128.
Definition INFO_AREA_SIZE : Z := INFO_MAX * 4.
Definition INFO_BOARD_SPACE_OFFSET : Z := INFO_AREA_SIZE + INFO_AREA_SIZE.
Definition INFO_BOARD_ID_OFFSET : Z := INFO_BOARD_SPACE_OFFSET.

Definition board_id_type_is_blank (id : board_id) : bool :=
  Z.land (bid_type id) (bid_type_inv id) =? BLANK_FIELD.

Definition board_id_flags_are_blank (id : board_id) : bool := bid_flags id =? BLANK_FIELD.

Definition board_id_is_blank (id : board_id) : bool :=
  board_id_type_is_blank id && board_id_flags_are_blank id.

(** [~x] on 32 bits *)
Definition not32 (x : Z) : Z := Z.lxor x UINT32_MAX.

Definition check_board_id_vs_header (id : board_id) (h : SignedHeader) : Z :=
  if board_id_is_blank id then 0 else
  let header_board_id_type := Z.lxor SIGNED_HEADER_PADDING (board_id_type h) in
  let header_board_id_mask := Z.lxor SIGNED_HEADER_PADDING (board_id_type_mask h) in
  let header_board_id_flags := Z.lxor SIGNED_HEADER_PADDING (board_id_flags h) in
  let mismatch :=
    b2z (negb (Z.land header_board_id_flags (bid_flags id) =? header_board_id_flags)) in
  if negb (nz mismatch) && negb (board_id_type_is_blank id) then
    let mismatch := Z.lxor header_board_id_type (bid_type id) in
    let mismatch := Z.lor mismatch (Z.lxor header_board_id_type (not32 (bid_type_inv id))) in
    Z.land mismatch header_board_id_mask
  else mismatch.

(** In memory order. *)
Definition board_id_bytes (id : board_id) : list Z :=
  le_bytes 4 (bid_type id) ++ le_bytes 4 (bid_type_inv id) ++ le_bytes 4 (bid_flags id).

Definition sizeof_board_id : Z := 12.

Section BoardId.
Context {F : Type} `{!FlashDev F}.
Variable system_get_image_copy : system_image_copy_t.

Definition get_current_image_header : ST F SignedHeader :=
  gets (fun f => header_at (flash_main f) (get_program_memory_addr system_get_image_copy)).

Definition read_word_at (off : Z) : EST F Z :=
  let* (rv, w) := flash_physical_info_read_word off in
  if nz rv then throw rv else eret w.

Definition read_board_id : EST F board_id :=
  let? type := read_word_at INFO_BOARD_ID_OFFSET in
  let? type_inv := read_word_at (INFO_BOARD_ID_OFFSET + 4) in
  let? flags := read_word_at (INFO_BOARD_ID_OFFSET + 8) in
  eret (mkBid type type_inv flags).

Definition board_id_is_erased : ST F Z :=
  let* r := read_board_id in
  match r with
  | Err _ => ret 0
  | Ok id => ret (b2z (board_id_is_blank id))
  end.

(** [None] stands for the null pointer. *)
Definition board_id_mismatch (sh : option SignedHeader) : ST F Z :=
  let* sh := match sh with Some h => ret h | None => get_current_image_header end in
  let* r := read_board_id in
  let id := match r with Ok id => id | Err _ => mkBid 0 0 0 end in
  ret (check_board_id_vs_header id sh).

Definition write_board_id (id : board_id) : ST F Z :=
  let* r := read_board_id in
  match r with
  | Err rv => ret rv
  | Ok id_test =>
      if negb (board_id_is_blank id_test) && negb (board_id_type_is_blank id_test)
      then ret EC.ERROR_ACCESS_DENIED
      else
        let id := if negb (board_id_is_blank id_test)
                  then mkBid (bid_type id) (bid_type_inv id) (bid_flags id_test) else id in
        let* h := get_current_image_header in
        if nz (check_board_id_vs_header id h) then ret EC.ERROR_INVAL
        else
          flash_info_write_enable ;;;
          let* rv := flash_info_physical_write INFO_BOARD_ID_OFFSET (board_id_bytes id) in
          flash_info_write_disable ;;;
          ret rv
  end.

(** The ID that a request asks for. *)
Definition requested_id (payload : list Z) : board_id :=
  let type := be_val (sub 0 4 payload) in
  mkBid type (if type =? BLANK_FIELD then BLANK_FIELD else not32 type)
    (be_val (sub 4 4 payload)).

Definition vc_set_board_id : handler F := fun p =>
  if negb (in_size p =? 8)
  then ret (RC.VENDOR_RC_BOGUS_ARGS, answer p RC.VENDOR_RC_BOGUS_ARGS)
  else
    let* rv := write_board_id (requested_id (buffer p)) in
    ret (u8 rv, answer p rv).

Definition vc_get_board_id : handler F := fun p =>
  let* r := read_board_id in
  match r with
  | Err _ => ret (RC.VENDOR_RC_READ_FLASH_FAIL, p)
  | Ok id =>
      let out := be_bytes 4 (bid_type id) ++ be_bytes 4 (bid_type_inv id)
                 ++ be_bytes 4 (bid_flags id) in
      ret (RC.VENDOR_RC_SUCCESS,
           set_out_size (set_buffer p (splice 0 out (buffer p))) sizeof_board_id)
  end.

(** The console command; what it prints is not modelled. *)
Definition command_board_id (argc : Z) : ST F Z :=
  if argc =? 1 then
    let* r := read_board_id in
    match r with Err rv => ret rv | Ok _ => ret EC.SUCCESS end
  else ret EC.ERROR_PARAM_COUNT.
End BoardId.
