(* ===== verification/BoardProps.v ===== *)
(** * Board ID: what is stored, what stays, and which images run *)

From S2P Require Import Prelude Vendor Flash FlashProps FlashOps BoardId.

(** ** Which board IDs match a header *)

Lemma lxor_testbit_not32 x i : 0 <= i < 32 -> Z.testbit (not32 x) i = negb (Z.testbit x i).
Proof.
  intros Hi. unfold not32, UINT32_MAX. change 4294967295 with (Z.ones 32).
  rewrite Z.lxor_spec, Z.ones_spec_low by lia. by destruct (Z.testbit x i).
Qed.

Lemma testbit_high x i : 0 <= x < 2 ^ 32 -> 32 <= i -> Z.testbit x i = false.
Proof.
  intros Hx Hi. destruct (Z.eq_dec x 0) as [->|Hne]; [apply Z.bits_0|].
  apply Z.bits_above_log2; [lia|]. assert (Z.log2 x < 32) by (apply Z.log2_lt_pow2; lia). lia.
Qed.

Lemma land_eq_self a b :
  (Z.land a b =? a) = true <->
  forall i, 0 <= i -> Z.testbit a i = true -> Z.testbit b i = true.
Proof.
  rewrite Z.eqb_eq. split.
  - intros E i Hi Ha. rewrite <-E, Z.land_spec in Ha.
    by apply andb_prop in Ha as [_ Ha].
  - intros Hab. apply Z.bits_inj'. intros i Hi. rewrite Z.land_spec.
    specialize (Hab i Hi). destruct (Z.testbit a i); [by rewrite Hab|done].
Qed.

(** The fields of a header, without the padding. *)
Definition header_type (h : SignedHeader) : Z := Z.lxor SIGNED_HEADER_PADDING (board_id_type h).
Definition header_mask (h : SignedHeader) : Z :=
  Z.lxor SIGNED_HEADER_PADDING (board_id_type_mask h).
Definition header_flags (h : SignedHeader) : Z := Z.lxor SIGNED_HEADER_PADDING (board_id_flags h).

(** Every flag the header asks for is set. *)
Definition flags_match (id : board_id) (h : SignedHeader) : Prop :=
  forall i, 0 <= i -> Z.testbit (header_flags h) i = true -> Z.testbit (bid_flags id) i = true.

(** The type and its inverse agree with the header wherever its mask is set. *)
Definition type_matches (id : board_id) (h : SignedHeader) : Prop :=
  forall i, 0 <= i < 32 -> Z.testbit (header_mask h) i = true ->
    Z.testbit (bid_type id) i = Z.testbit (header_type h) i /\
    Z.testbit (bid_type_inv id) i = negb (Z.testbit (header_type h) i).

Lemma masked_type_zero id h :
  0 <= board_id_type_mask h < 2 ^ 32 ->
  Z.land (Z.lor (Z.lxor (header_type h) (bid_type id))
            (Z.lxor (header_type h) (not32 (bid_type_inv id)))) (header_mask h) = 0 <->
  type_matches id h.
Proof.
  intros Hm. assert (Hhigh : forall i, 32 <= i -> Z.testbit (header_mask h) i = false).
  { intros i Hi. unfold header_mask. rewrite Z.lxor_spec, !testbit_high; try done; lia. }
  split.
  - intros E i Hi Hmask. assert (Hb : Z.testbit 0 i = false) by apply Z.bits_0.
    rewrite <-E, Z.land_spec, Z.lor_spec, !Z.lxor_spec, lxor_testbit_not32, Hmask in Hb by lia.
    by destruct (Z.testbit (header_type h) i), (Z.testbit (bid_type id) i),
      (Z.testbit (bid_type_inv id) i).
  - intros Hmt. apply Z.bits_inj'. intros i Hi. rewrite Z.bits_0, Z.land_spec.
    destruct (Z.testbit (header_mask h) i) eqn:Hmask; [|by rewrite andb_false_r].
    assert (i < 32) by (destruct (Z.lt_ge_cases i 32); [done|by rewrite Hhigh in Hmask]).
    destruct (Hmt i ltac:(lia) Hmask) as [E1 E2].
    rewrite Z.lor_spec, !Z.lxor_spec, lxor_testbit_not32, E1, E2 by lia.
    by destruct (Z.testbit (header_type h) i).
Qed.

(** An image matches a board exactly when the board ID is blank, or all the flags of
    the header are set in it and its type is blank or agrees, with its inverse, on
    every bit of the mask. *)
Theorem check_board_id_vs_header_spec id h :
  0 <= board_id_type_mask h < 2 ^ 32 ->
  check_board_id_vs_header id h = 0 <->
  board_id_is_blank id = true \/
  (flags_match id h /\ (board_id_type_is_blank id = true \/ type_matches id h)).
Proof.
  intros Hm. unfold check_board_id_vs_header.
  destruct (board_id_is_blank id); [tauto|].
  fold (header_type h) (header_mask h) (header_flags h).
  unfold flags_match. rewrite <-land_eq_self.
  destruct (_ =? header_flags h); cbn [negb b2z nz Z.eqb andb]; [|intuition done].
  destruct (board_id_type_is_blank id); cbn [negb]; [intuition done|].
  rewrite (masked_type_zero id h Hm). intuition done.
Qed.

(** ** Reading *)

#[global] Instance header_at_proper : Proper ((≡@{memory}) ==> eq ==> eq) header_at.
Proof. intros m m' Hm off _ <-. unfold header_at. by rewrite (read_bytes_ext m m'). Qed.

(** The board ID in the INFO page. *)
Definition info_id (m : memory) : board_id :=
  mkBid (read_word m INFO_BOARD_ID_OFFSET) (read_word m (INFO_BOARD_ID_OFFSET + 4))
    (read_word m (INFO_BOARD_ID_OFFSET + 8)).

#[global] Instance info_id_proper : Proper ((≡@{memory}) ==> eq) info_id.
Proof. intros m m' Hm. unfold info_id. by rewrite Hm. Qed.

(** ** Programming words *)

Lemma read_bytes_word m off :
  byte_memory m -> read_bytes m off 4 = le_bytes 4 (read_word m off).
Proof.
  intros Hm. symmetry. apply (le_bytes_val (read_bytes m off 4)).
  by apply bytes_read_bytes.
Qed.

Lemma read_word_range m off : byte_memory m -> 0 <= read_word m off < 2 ^ 32.
Proof. intros Hm. by apply (le_val_range (read_bytes m off 4)), bytes_read_bytes. Qed.

Lemma at_le_bytes_byte v i : is_byte (at_ (le_bytes 4 v) (Z.of_nat i)).
Proof.
  unfold at_. rewrite Nat2Z.id. destruct (nth_in_or_default i (le_bytes 4 v) 0) as [Hi| ->].
  - apply (proj1 (List.Forall_forall is_byte (le_bytes 4 v))); [apply bytes_le_bytes|done].
  - unfold is_byte. lia.
Qed.

(** A word that was blank, or had the value already, has the value programmed. *)
Lemma programmed_word base data k v m m' :
  byte_memory m -> m' ≡ programmed base data m -> (k + 4 <= length data)%nat ->
  sub k 4 data = le_bytes 4 v -> 0 <= v < 2 ^ 32 ->
  read_word m (base + Z.of_nat k) = BLANK_FIELD \/ read_word m (base + Z.of_nat k) = v ->
  read_word m' (base + Z.of_nat k) = v.
Proof.
  intros Hm E Hk Hd Hv Hold. set (off := base + Z.of_nat k) in *.
  assert (Hb : read_bytes m' off 4 = le_bytes 4 v).
  { transitivity (map (fun i => at_ (le_bytes 4 v) (Z.of_nat i)) (seq 0 4)); [|done].
    apply map_ext_in. intros i Hi. apply in_seq in Hi.
    assert (Hdi : at_ data (Z.of_nat k + Z.of_nat i) = at_ (le_bytes 4 v) (Z.of_nat i)).
    { rewrite <-Hd. unfold at_, sub. rewrite Nat2Z.id, <-Nat2Z.inj_add, Nat2Z.id.
      rewrite nth_firstn. destruct (Nat.ltb_spec i 4); [|lia]. by rewrite nth_skipn. }
    rewrite (E (off + Z.of_nat i)). unfold programmed, off.
    assert (Hr : in_range base (Z.of_nat (length data)) (base + Z.of_nat k + Z.of_nat i) = true)
      by (apply in_range_spec; lia).
    rewrite Hr. replace (base + Z.of_nat k + Z.of_nat i - base)
      with (Z.of_nat k + Z.of_nat i) by lia. rewrite Hdi.
    fold off. rewrite <-(at_read_bytes m off 4 i) by lia.
    rewrite (read_bytes_word m off Hm).
    destruct Hold as [->| ->]; [|apply Z.land_diag].
    assert (H255 : at_ (le_bytes 4 BLANK_FIELD) (Z.of_nat i) = 255)
      by (destruct i as [|[|[|[|]]]]; [done..|lia]).
    rewrite H255. apply land_255, at_le_bytes_byte. }
  unfold read_word. rewrite Hb. by apply le_val_bytes.
Qed.

(** Two words whose conjunction is all ones are all ones. *)
Lemma land_blank a b :
  0 <= a < 2 ^ 32 -> 0 <= b < 2 ^ 32 -> Z.land a b = BLANK_FIELD -> a = BLANK_FIELD.
Proof.
  intros Ha Hb E. change BLANK_FIELD with (Z.ones 32) in *. apply Z.bits_inj'. intros i Hi.
  destruct (Z.lt_ge_cases i 32).
  - rewrite Z.ones_spec_low by lia. assert (Ht : Z.testbit (Z.land a b) i = true)
      by (by rewrite E, Z.ones_spec_low by lia).
    rewrite Z.land_spec in Ht. by apply andb_prop in Ht as [Ht _].
  - rewrite Z.ones_spec_high, testbit_high by lia. done.
Qed.

Lemma not32_range x : 0 <= x < 2 ^ 32 -> 0 <= not32 x < 2 ^ 32.
Proof.
  intros Hx. unfold not32. split; [apply Z.lxor_nonneg; unfold UINT32_MAX; lia|].
  destruct (Z.eq_dec (Z.lxor x UINT32_MAX) 0) as [->|Hne]; [lia|].
  assert (0 <= Z.lxor x UINT32_MAX) by (apply Z.lxor_nonneg; unfold UINT32_MAX; lia).
  apply Z.log2_lt_pow2; [lia|]. eapply Z.le_lt_trans; [apply Z.log2_lxor; unfold UINT32_MAX; lia|].
  apply Z.max_lub_lt; [|vm_compute; done].
  destruct (Z.eq_dec x 0) as [->|]; [vm_compute; done|]. apply Z.log2_lt_pow2; lia.
Qed.

Section Reading.
Context {F : Type} `{!FlashDev F} `{!FlashDevLaws F}.

(** The arrays are those of [f]. *)
Definition same_flash (f f' : F) : Prop :=
  flash_main f' ≡ flash_main f /\ flash_info f' ≡ flash_info f.

#[global] Instance same_flash_preorder : PreOrder same_flash.
Proof.
  split; [done|]. intros f1 f2 f3 [E1 E2] [F1 F2]. split; [by rewrite F1|by rewrite F2].
Qed.

(** ... but for errors that were logged. *)
Definition flash_logged (f f' : F) : Prop :=
  logged (flash_main f) (flash_main f') /\ flash_info f' ≡ flash_info f.

#[global] Instance flash_logged_preorder : PreOrder flash_logged.
Proof.
  split; [by split|]. intros f1 f2 f3 [E1 E2] [F1 F2]. split; [by etrans|by rewrite F2].
Qed.

Lemma same_flash_logged f f' : same_flash f f' -> flash_logged f f'.
Proof. intros [M I]. split; [by apply same_logged|done]. Qed.

Lemma read_word_at_spec off f r f' :
  0 <= off -> off + 4 <= FLASH_INFO_SIZE -> read_word_at off f = (r, f') ->
  match r with
  | Ok w => same_flash f f' /\ w = read_word (flash_info f) off
  | Err rv => flash_logged f f' /\ 0 < rv < 256
  end.
Proof.
  intros H0 Hl. unfold read_word_at, bind.
  destruct (flash_physical_info_read_word off f) as [[rv w] f1] eqn:E.
  destruct (flash_info_read_any _ _ _ _ _ H0 Hl E) as (Hw & Hr & Hm & Hi).
  destruct (nz rv) eqn:Hn; intros [= <- <-].
  - apply nz_true in Hn. split; [done|lia].
  - apply nz_false in Hn. destruct (Hw Hn) as [-> Hs]. done.
Qed.

Lemma read_board_id_spec f r f' :
  read_board_id f = (r, f') ->
  match r with
  | Ok id => same_flash f f' /\ id = info_id (flash_info f)
  | Err rv => flash_logged f f' /\ 0 < rv < 256
  end.
Proof.
  assert (Hin : forall k, 0 <= k <= 8 ->
    0 <= INFO_BOARD_ID_OFFSET + k /\ INFO_BOARD_ID_OFFSET + k + 4 <= FLASH_INFO_SIZE)
    by (intros k Hk; change INFO_BOARD_ID_OFFSET with 1024; change FLASH_INFO_SIZE with 2048; lia).
  intros E. unfold read_board_id, ebind in E.
  destruct (Hin 0 ltac:(lia)) as [A0 B0]. rewrite Z.add_0_r in A0, B0.
  unfold bind at 1 in E. destruct (read_word_at INFO_BOARD_ID_OFFSET f) as [r1 f1] eqn:E1.
  apply (read_word_at_spec _ _ _ _ A0 B0) in E1.
  destruct r1 as [w1|c]; destruct E1 as [S1 V1]; [|unfold throw, ret in E; by simplify_eq].
  destruct (Hin 4 ltac:(lia)) as [A4 B4].
  unfold bind at 1 in E. destruct (read_word_at (INFO_BOARD_ID_OFFSET + 4) f1) as [r2 f2] eqn:E2.
  apply (read_word_at_spec _ _ _ _ A4 B4) in E2.
  destruct r2 as [w2|c]; destruct E2 as [S2 V2];
    [|unfold throw, ret in E; simplify_eq; split; [etrans; [by apply same_flash_logged|done]|done]].
  assert (S12 : same_flash f f2) by by etrans.
  destruct (Hin 8 ltac:(lia)) as [A8 B8].
  unfold bind at 1 in E. destruct (read_word_at (INFO_BOARD_ID_OFFSET + 8) f2) as [r3 f3] eqn:E3.
  apply (read_word_at_spec _ _ _ _ A8 B8) in E3.
  destruct r3 as [w3|c]; destruct E3 as [S3 V3];
    [|unfold throw, ret in E; simplify_eq; split; [etrans; [by apply same_flash_logged|done]|done]].
  assert (S13 : same_flash f f3) by by etrans.
  unfold eret, ret in E. simplify_eq. split; [done|].
  destruct S1 as [_ I1], S12 as [_ I12]. unfold info_id. by rewrite I1, I12.
Qed.

Lemma read_board_id_logged f : flash_logged f (read_board_id f).2.
Proof.
  destruct (read_board_id f) as [r f'] eqn:E. apply read_board_id_spec in E.
  destruct r; destruct E as [E _]; [by apply same_flash_logged|done].
Qed.

(** ** Setting the ID *)

Variable copy : system_image_copy_t.

Lemma requested_range payload : bytes payload ->
  0 <= bid_type (requested_id payload) < 2 ^ 32 /\
  0 <= bid_type_inv (requested_id payload) < 2 ^ 32 /\
  0 <= bid_flags (requested_id payload) < 2 ^ 32.
Proof.
  intros Hb. assert (Hv : forall off, 0 <= be_val (sub off 4 payload) < 2 ^ 32).
  { intros off. unfold be_val. assert (Hr : bytes (rev (sub off 4 payload)))
      by (apply Forall_rev; by apply bytes_sub).
    pose proof (le_val_range _ Hr) as Hl. rewrite length_rev in Hl.
    assert (length (sub off 4 payload) <= 4)%nat by (unfold sub; rewrite length_take; lia).
    split; [lia|]. eapply Z.lt_le_trans; [apply Hl|].
    change (2 ^ 32) with (256 ^ 4). apply Z.pow_le_mono_r; lia. }
  split; [apply Hv|]. split; [|apply Hv]. cbn.
  destruct (_ =? BLANK_FIELD); [unfold BLANK_FIELD; lia|]. by apply not32_range.
Qed.

(** The ways in which [write_board_id] ends. *)
Lemma write_board_id_cases id f rv f' :
  bytes (board_id_bytes id) -> write_board_id copy id f = (rv, f') ->
  let old := info_id (flash_info f) in
  let new := if negb (board_id_is_blank old)
             then mkBid (bid_type id) (bid_type_inv id) (bid_flags old) else id in
  0 <= rv < 256 /\
  ((rv <> EC.SUCCESS /\ flash_logged f f') \/
   (board_id_type_is_blank old = true /\
    check_board_id_vs_header new
      (header_at (flash_main f) (get_program_memory_addr copy)) = 0 /\
    (rv = EC.SUCCESS -> flash_main f' ≡ flash_main f /\ flash_info f' ≡
       programmed INFO_BOARD_ID_OFFSET (board_id_bytes new) (flash_info f)))).
Proof.
  intros Hbytes E old new. unfold write_board_id in E. unfold bind at 1 in E.
  destruct (read_board_id f) as [r f1] eqn:E1.
  apply read_board_id_spec in E1. destruct r as [id_test|c]; destruct E1 as [S1 Hr];
    [|unfold ret in E; simplify_eq; split; [lia|left; split; [unfold EC.SUCCESS; lia|done]]].
  apply same_flash_logged in S1 as L1. subst id_test. fold old in E. fold new in E.
  destruct (negb (board_id_is_blank old) && _) eqn:Hden.
  { unfold ret in E. simplify_eq. split; [vm_compute; intuition discriminate|].
    left. split; [by vm_compute|done]. }
  assert (Hblank : board_id_type_is_blank old = true).
  { apply andb_false_iff in Hden as [Hd|Hd]; apply negb_false_iff in Hd; [|done].
    unfold board_id_is_blank in Hd. by apply andb_prop in Hd as [Hd _]. }
  unfold bind at 1, get_current_image_header, gets in E. cbv beta iota in E.
  destruct S1 as [M1 I1].
  assert (Hh : forall a, header_at (flash_main f1) a = header_at (flash_main f) a)
    by (intros a; by rewrite M1).
  rewrite Hh in E.
  destruct (nz (check_board_id_vs_header new _)) eqn:Hc.
  { unfold ret in E. simplify_eq. split; [vm_compute; intuition discriminate|].
    left. split; [by vm_compute|done]. }
  apply nz_false in Hc. unfold bind at 1 in E.
  destruct (flash_control_same flash_info_write_enable f1) as [M2 I2];
    [left; apply list_elem_of_here|].
  destruct (flash_info_write_enable f1) as [u2 f2]. cbn [snd] in M2, I2.
  unfold bind at 1 in E.
  destruct (flash_info_physical_write INFO_BOARD_ID_OFFSET (board_id_bytes new) f2)
    as [rv3 f3] eqn:E3.
  assert (Hb' : bytes (board_id_bytes new)).
  { unfold board_id_bytes. eauto 10 with bytes_db. }
  destruct (flash_info_write_any _ _ _ _ _ Hb' E3) as (_ & Hcode & M3).
  unfold bind at 1 in E.
  destruct (flash_control_same flash_info_write_disable f3) as [M4 I4];
    [left; apply list_elem_of_further, list_elem_of_here|].
  destruct (flash_info_write_disable f3) as [u4 f4]. cbn [snd] in M4, I4.
  unfold ret in E. simplify_eq. split; [done|]. right. split; [done|]. split; [done|].
  intros Hs. rewrite Hs in E3. destruct (flash_info_write_ok _ _ _ _ Hb' E3) as [I3 M3'].
  split; [by rewrite M4, M3', M2, M1|by rewrite I4, I3, I2, I1].
Qed.

Lemma bytes_board_id id : bytes (board_id_bytes id).
Proof. unfold board_id_bytes. eauto 10 with bytes_db. Qed.

(** A set request that succeeds stores the type it asks for with its inverse, and
    the flags it asks for unless flags had been stored before; it succeeds only when
    no type was stored, and only when the running image matches the new board ID. *)
Theorem set_board_id_stored p f p' f' :
  byte_memory (flash_info f) -> bytes (buffer p) ->
  vc_set_board_id copy p f = ((RC.VENDOR_RC_SUCCESS, p'), f') ->
  let old := info_id (flash_info f) in
  let new := info_id (flash_info f') in
  in_size p = 8 /\ board_id_type_is_blank old = true /\
  new = mkBid (bid_type (requested_id (buffer p))) (bid_type_inv (requested_id (buffer p)))
          (if board_id_is_blank old then bid_flags (requested_id (buffer p))
           else bid_flags old) /\
  check_board_id_vs_header new (header_at (flash_main f') (get_program_memory_addr copy)) = 0 /\
  flash_main f' ≡ flash_main f.
Proof.
  intros Hm Hb E old new. unfold vc_set_board_id in E.
  destruct (Z.eqb_spec (in_size p) 8) as [Hin|]; cbn [negb] in E; [|discriminate].
  split; [done|]. unfold bind in E.
  destruct (write_board_id copy (requested_id (buffer p)) f) as [rv f1] eqn:Ew.
  unfold ret in E. injection E as Hrv Hp Hf. subst f1.
  destruct (write_board_id_cases _ _ _ _ (bytes_board_id _) Ew) as [Hcode Hcase].
  fold old in Hcase. rewrite (uN_small 8) in Hrv by lia. change EC.SUCCESS with 0 in Hcase.
  destruct Hcase as [[Hne _]|(Hblank & Hchk & Hok)]; [done|]. destruct (Hok Hrv) as [M Hok'].
  clear Hok. rename Hok' into Hok.
  split; [done|]. destruct (requested_range _ Hb) as (R1 & R2 & R3).
  set (req := requested_id (buffer p)) in *.
  set (id := if negb (board_id_is_blank old) then _ else req) in *.
  assert (Hid : id = mkBid (bid_type req) (bid_type_inv req)
    (if board_id_is_blank old then bid_flags req else bid_flags old))
    by (unfold id; destruct (board_id_is_blank old), req; done).
  apply Z.eqb_eq in Hblank as Hbl.
  assert (Ht : bid_type old = BLANK_FIELD)
    by (apply (land_blank _ _ (read_word_range _ _ Hm) (read_word_range _ _ Hm) Hbl)).
  assert (Hti : bid_type_inv old = BLANK_FIELD)
    by (rewrite Z.land_comm in Hbl;
        apply (land_blank _ _ (read_word_range _ _ Hm) (read_word_range _ _ Hm) Hbl)).
  assert (Hfl : 0 <= bid_flags id < 2 ^ 32)
    by (rewrite Hid; cbn; destruct (board_id_is_blank old); [done|by apply read_word_range]).
  assert (Hnew : new = id).
  { assert (W : forall k v, (k + 4 <= 12)%nat ->
      sub k 4 (board_id_bytes id) = le_bytes 4 v -> 0 <= v < 2 ^ 32 ->
      read_word (flash_info f) (INFO_BOARD_ID_OFFSET + Z.of_nat k) = BLANK_FIELD \/
      read_word (flash_info f) (INFO_BOARD_ID_OFFSET + Z.of_nat k) = v ->
      read_word (flash_info f') (INFO_BOARD_ID_OFFSET + Z.of_nat k) = v)
      by (intros k v Hk; exact (programmed_word _ (board_id_bytes id) k v _ _ Hm Hok Hk)).
    destruct id as [t ti fl] eqn:Eid. cbn [bid_flags] in Hfl. injection Hid as E1 E2 E3.
    unfold new, info_id. f_equal.
    - rewrite <-(Z.add_0_r INFO_BOARD_ID_OFFSET). apply (W 0%nat); [lia|done|by rewrite E1|].
      left. rewrite Z.add_0_r. exact Ht.
    - apply (W 4%nat); [lia|done|by rewrite E2|]. left. exact Hti.
    - apply (W 8%nat); [lia|done|done|]. rewrite E3.
      destruct (board_id_is_blank old) eqn:Hbo; [left|right; done].
      unfold board_id_is_blank in Hbo. apply andb_prop in Hbo as [_ Hbo].
      by apply Z.eqb_eq in Hbo. }
  rewrite Hnew. split; [exact Hid|]. by rewrite M.
Qed.

(** Requests one after the other: their result codes. *)
Fixpoint set_requests (ps : list vendor_cmd_params) : ST F (list Z) :=
  match ps with
  | [] => ret []
  | p :: ps =>
      let* (rc, _) := vc_set_board_id copy p in
      let* rcs := set_requests ps in
      ret (rc :: rcs)
  end.

(** C15. A board ID whose type is stored is final: no sequence of set requests, well-formed
    or not, changes it or anything else of the INFO page, each of them is refused, and the main
    array stays as it is but for the page of the flash log, into which a read of the INFO page
    that fails is logged. *)
Theorem board_id_write_once ps f :
  board_id_type_is_blank (info_id (flash_info f)) = false ->
  let '(rcs, f') := set_requests ps f in
  flash_logged f f' /\ Forall (fun rc => rc <> RC.VENDOR_RC_SUCCESS) rcs.
Proof.
  revert f. induction ps as [|p ps IH]; intros f Hset; [by split|].
  cbn [set_requests]. unfold bind at 1.
  assert (Hone : let '(rc, _, f1) := vc_set_board_id copy p f in
                 flash_logged f f1 /\ rc <> RC.VENDOR_RC_SUCCESS).
  { unfold vc_set_board_id. destruct (negb _); [done|]. unfold bind.
    destruct (write_board_id copy (requested_id (buffer p)) f) as [rv f1] eqn:Ew.
    destruct (write_board_id_cases _ _ _ _ (bytes_board_id _) Ew) as [Hc [[Hne S]|Hw]].
    - cbn. split; [done|]. rewrite (uN_small 8) by lia. exact Hne.
    - destruct Hw as [Hw _]. congruence. }
  destruct (vc_set_board_id copy p f) as [[rc p1] f1]. destruct Hone as [S1 Hrc].
  unfold bind. specialize (IH f1). destruct (set_requests ps f1) as [rcs f2].
  assert (Hi : info_id (flash_info f1) = info_id (flash_info f))
    by (destruct S1 as [_ I1]; by rewrite I1).
  rewrite Hi in IH. destruct (IH Hset) as [S2 Hrcs]. cbn.
  split; [by etrans|by constructor].
Qed.
End Reading.

(** ** Examples *)

(** A flash with images for any board; the controller fails once. *)
Definition board_flash (info : memory) : flash toy_flash :=
  mkFlash (mkToyFlash (fun _ => 0x33) info 0 0 1 []) blank_regs 0.

Definition set_request : vendor_cmd_params :=
  mkParams CC.SET_BOARD_ID ([0x5a; 0x5a; 0x43; 0x52] ++ [0; 0; 0x7f; 0x80] ++ zeros 4) 8 100 0.

Example check_board_id_vs_header_spec_witness :
  check_board_id_vs_header (mkBid 0x5a5a4352 0xa5a5bcad 0x7f80)
    (mkHeader 0 0 0 0 0 (Z.lxor 0x5a5a4352 SIGNED_HEADER_PADDING)
       (Z.lxor 0xffffffff SIGNED_HEADER_PADDING) (Z.lxor 0x80 SIGNED_HEADER_PADDING)) = 0.
Proof.
  apply (check_board_id_vs_header_spec (mkBid 0x5a5a4352 0xa5a5bcad 0x7f80)
    (mkHeader 0 0 0 0 0 (Z.lxor 0x5a5a4352 SIGNED_HEADER_PADDING)
       (Z.lxor 0xffffffff SIGNED_HEADER_PADDING) (Z.lxor 0x80 SIGNED_HEADER_PADDING))).
  - vm_compute. split; [discriminate|reflexivity].
  - right. split.
    + intros i Hi Ht. change (header_flags _) with (2 ^ 7) in Ht.
      rewrite Z.pow2_bits_eqb in Ht by lia. apply Z.eqb_eq in Ht as <-. reflexivity.
    + right. intros i Hi _. change (header_type _) with 0x5a5a4352. cbn [bid_type bid_type_inv].
      split; [reflexivity|]. change 0xa5a5bcad with (not32 0x5a5a4352).
      by apply lxor_testbit_not32.
Defined.

Example set_board_id_stored_witness :
  exists p' f', vc_set_board_id SYSTEM_IMAGE_RW set_request (board_flash (fun _ => 255)) =
                ((RC.VENDOR_RC_SUCCESS, p'), f') /\
    info_id (flash_info f') = mkBid 0x5a5a4352 0xa5a5bcad 0x7f80.
Proof.
  assert (Hb : bytes (buffer set_request)) by (repeat constructor; unfold is_byte; lia).
  assert (Hm : byte_memory (flash_info (board_flash (fun _ => 255))))
    by (intros a; cbn; unfold is_byte; lia).
  destruct (vc_set_board_id SYSTEM_IMAGE_RW set_request (board_flash (fun _ => 255)))
    as [[rc p'] f'] eqn:E.
  assert (Hrc : rc = RC.VENDOR_RC_SUCCESS).
  { transitivity (vc_set_board_id SYSTEM_IMAGE_RW set_request (board_flash (fun _ => 255))).1.1;
      [by rewrite E|vm_compute; reflexivity]. }
  rewrite Hrc in E.
  destruct (set_board_id_stored SYSTEM_IMAGE_RW set_request (board_flash (fun _ => 255)) p' f'
    Hm Hb E) as (_ & _ & Hnew & _).
  exists p', f'. split; [by rewrite Hrc|]. rewrite Hnew. vm_compute. reflexivity.
Defined.

Abbreviation stored_board :=
  (board_flash (programmed INFO_BOARD_ID_OFFSET
     (board_id_bytes (mkBid 0x5a5a4352 0xa5a5bcad 0x7f80)) (fun _ => 255))).

Example board_id_write_once_witness :
  let '(rcs, f') := set_requests SYSTEM_IMAGE_RW [set_request; set_request] stored_board in
  flash_logged stored_board f' /\ Forall (fun rc => rc <> RC.VENDOR_RC_SUCCESS) rcs.
Proof.
  assert (H : board_id_type_is_blank (info_id (flash_info stored_board)) = false)
    by (vm_compute; reflexivity).
  exact (board_id_write_once SYSTEM_IMAGE_RW [set_request; set_request] stored_board H).
Defined.
