(* ===== verification/Upgrade.v ===== *)
(** * Firmware update (chip/g/upgrade_fw.c, chip/g/upgrade.c)

    The host sends the images of the inactive RO and RW sections in blocks; the header
    of an image is written with a size that keeps it from running until the host turns
    the update on. *)

From S2P Require Import Prelude Vendor Flash BoardId.

(** ** Constants and messages *)

Definition UPGRADE_SUCCESS : Z := 0.
Definition UPGRADE_BAD_ADDR : Z := 1.
Definition UPGRADE_ERASE_FAILURE : Z := 2.
Definition UPGRADE_DATA_ERROR : Z := 3.
Definition UPGRADE_WRITE_FAILURE : Z := 4.
Definition UPGRADE_VERIFY_ERROR : Z := 5.
Definition UPGRADE_GEN_ERROR : Z := 6.
Definition UPGRADE_ROLLBACK_ERROR : Z := 8.
Definition UPGRADE_RATE_LIMIT_ERROR : Z := 9.
Definition UPGRADE_UNALIGNED_BLOCK_ERROR : Z := 10.
Definition UPGRADE_TRUNCATED_HEADER_ERROR : Z := 11.
Definition UPGRADE_BOARD_ID_ERROR : Z := 12.

Definition UPGRADE_PROTOCOL_VERSION : Z := 6.
Definition SIGNED_TRANSFER_SIZE : Z := 1024.
Definition FLASH_BANK_SIZE : Z := 0x800.
Definition FLASH_LOG_SPACE : Z := FLASH_BANK_SIZE.
Definition AP_RO_DATA_SPACE_SIZE : Z := FLASH_BANK_SIZE.
Definition MAX_RO_CODE_SIZE : Z := RO_SIZE - FLASH_LOG_SPACE - AP_RO_DATA_SPACE_SIZE.
Definition SECOND_US : Z := 1000000.
Definition BACKOFF_TIME : Z := 60 * SECOND_US.
Definition MAX_REBOOT_TIMEOUT_MS : Z := 1000.

(** The update frame: the digest, the block's offset, and the data. *)
Definition sizeof_upgrade_command : Z := 8.

Record valid_sections_t := mkSections {
  ro_base_offset : Z;
  ro_top_offset : Z;
  rw_base_offset : Z;
  rw_top_offset : Z
}.

Class UpgradeHw (F : Type) := {
  get_time : ST F Z;
  DCRYPTO_SHA1_hash : list Z -> ST F (option (list Z));
  reset_flag_hard : ST F bool                   (* EC_RESET_FLAG_HARD *)
}.

Section Upgrade.
Context {F : Type} `{!FlashDev F} `{!UpgradeHw F}.
Variable ro_copy rw_copy : system_image_copy_t.   (* the running images *)

Record upgrade := mkUp {
  dev : F;
  valid_sections : valid_sections_t;
  prev_offset_ro : Z;
  prev_offset_rw : Z;
  prev_timestamp : Z;
  reboot_in : option Z                          (* microseconds *)
}.

Definition set_dev f u := mkUp f (valid_sections u) (prev_offset_ro u) (prev_offset_rw u)
  (prev_timestamp u) (reboot_in u).
Definition set_sections s u := mkUp (dev u) s (prev_offset_ro u) (prev_offset_rw u)
  (prev_timestamp u) (reboot_in u).
Definition set_prev_ro o u := mkUp (dev u) (valid_sections u) o (prev_offset_rw u)
  (prev_timestamp u) (reboot_in u).
Definition set_prev_rw o u := mkUp (dev u) (valid_sections u) (prev_offset_ro u) o
  (prev_timestamp u) (reboot_in u).
Definition set_timestamp t u := mkUp (dev u) (valid_sections u) (prev_offset_ro u)
  (prev_offset_rw u) t (reboot_in u).
Definition set_reboot r u := mkUp (dev u) (valid_sections u) (prev_offset_ro u)
  (prev_offset_rw u) (prev_timestamp u) r.

(** At boot. *)
Definition upgrade_init (f : F) : upgrade :=
  mkUp f (mkSections 0 0 0 0) (- SIGNED_TRANSFER_SIZE) 0 0 None.

Definition on_dev {A} (m : ST F A) : ST upgrade A := fun u =>
  let '(a, f) := m (dev u) in (a, set_dev f u).

Definition current_header (copy : system_image_copy_t) : ST upgrade SignedHeader :=
  gets (fun u => header_at (flash_main (dev u)) (get_program_memory_addr copy)).

(** ** Sections *)

Definition set_valid_sections : ST upgrade unit := fun u =>
  let s := valid_sections u in
  let go ro_base :=
    let s := mkSections ro_base (ro_top_offset s) (rw_base_offset s) (rw_top_offset s) in
    let tops rw_base :=
      mkSections ro_base (u32 (ro_base + MAX_RO_CODE_SIZE)) rw_base (u32 (rw_base + RW_SIZE)) in
    match rw_copy with
    | SYSTEM_IMAGE_RW => (tt, set_sections (tops RW_B_MEM_OFF) u)
    | SYSTEM_IMAGE_RW_B => (tt, set_sections (tops RW_MEM_OFF) u)
    | _ => (tt, set_sections s u)
    end in
  match ro_copy with
  | SYSTEM_IMAGE_RO => go RO_B_MEM_OFF
  | SYSTEM_IMAGE_RO_B => go RO_MEM_OFF
  | _ => (tt, u)
  end.

(** The erasure of a section whose first block arrives. *)
Definition check_update_chunk (block_offset body_size : Z) : ST upgrade Z :=
  let* s := gets valid_sections in
  let last := u32 (block_offset + body_size) in
  if nz (rw_top_offset s) && (rw_base_offset s <=? block_offset)
     && (last <=? rw_top_offset s)
  then
    let base := rw_base_offset s in
    let size := u32 (rw_top_offset s - rw_base_offset s) in
    if block_offset =? base then
      let* rv := on_dev (flash_physical_erase base size) in
      ret (if nz rv then UPGRADE_ERASE_FAILURE else UPGRADE_SUCCESS)
    else ret UPGRADE_SUCCESS
  else if nz (ro_top_offset s) && (ro_base_offset s <=? block_offset)
     && (last <=? ro_top_offset s)
  then
    if block_offset =? ro_base_offset s then
      let base := ro_base_offset s in
      let size := u32 (ro_top_offset s - ro_base_offset s) in
      on_dev (flash_open_ro_window base size) ;;;
      let* rv := on_dev (flash_physical_erase base size) in
      on_dev flash_close_ro_window ;;;
      ret (if nz rv then UPGRADE_ERASE_FAILURE else UPGRADE_SUCCESS)
    else ret UPGRADE_SUCCESS
  else ret UPGRADE_BAD_ADDR.

(** The digest covers the frame from [block_base] on.  A digest that cannot be
    computed is not compared. *)
Definition usb_pdu_valid (body : list Z) (cmd_size : Z) : ST upgrade bool :=
  let* d := on_dev (DCRYPTO_SHA1_hash (sub 4 (Z.to_nat (cmd_size - 4)) body)) in
  ret (match d with
       | Some digest => mem_eq (take 4 digest) (take 4 body)
       | None => true
       end).

Definition new_is_older (new old : SignedHeader) : bool :=
  if negb (epoch_ new =? epoch_ old) then epoch_ new <? epoch_ old
  else if negb (major_ new =? major_ old) then major_ new <? major_ old
  else minor_ new <? minor_ old.

(** Does an end of the block fall in a header? *)
Definition overlaps_header (s : valid_sections_t) (block_offset body_size : Z) : bool :=
  existsb (fun base =>
    existsb (fun x => (base <=? x) && (x <? u32 (base + Z.of_nat sizeof_SignedHeader)))
      [block_offset; u32 (block_offset + body_size)])
    [ro_base_offset s; rw_base_offset s].

(** The error of a block that is refused. *)
Definition contents_allowed (block_offset body_size : Z) (data : list Z)
    : ST upgrade (option Z) :=
  let* s := gets valid_sections in
  let check copy (is_rw_header : bool) :=
    let* header := current_header copy in
    if body_size <? Z.of_nat sizeof_SignedHeader
    then ret (Some UPGRADE_TRUNCATED_HEADER_ERROR)
    else if new_is_older (header_of_bytes data) header
    then ret (Some UPGRADE_ROLLBACK_ERROR)
    else if is_rw_header then
      let* m := on_dev (board_id_mismatch rw_copy (Some (header_of_bytes data))) in
      ret (if nz m then Some UPGRADE_BOARD_ID_ERROR else None)
    else ret None in
  if block_offset =? ro_base_offset s then check ro_copy false
  else if block_offset =? rw_base_offset s then check rw_copy true
  else ret (if overlaps_header s block_offset body_size
            then Some UPGRADE_UNALIGNED_BLOCK_ERROR else None).

(** ** Pacing of the writes *)

Definition is_rw_offset (s : valid_sections_t) (block_offset : Z) : bool :=
  (rw_base_offset s <=? block_offset) && (block_offset <? rw_top_offset s).

Definition prev_offset (block_offset : Z) (u : upgrade) : Z :=
  if is_rw_offset (valid_sections u) block_offset then prev_offset_rw u else prev_offset_ro u.

Definition chunk_came_too_soon (block_offset : Z) : ST upgrade bool :=
  let* now := on_dev get_time in
  let* u := gets id in
  if BACKOFF_TIME <? u64 (now - prev_timestamp u)
  then modify (set_prev_ro (- SIGNED_TRANSFER_SIZE)) ;;; ret false
  else if prev_timestamp u =? 0 then on_dev reset_flag_hard
  else ret (negb (prev_offset block_offset u + SIGNED_TRANSFER_SIZE <=? i32 block_offset)).

Definition new_chunk_written (block_offset : Z) : ST upgrade unit :=
  let* now := on_dev get_time in
  modify (set_timestamp now) ;;;
  modify (fun u =>
    if is_rw_offset (valid_sections u) block_offset
    then set_prev_rw (i32 block_offset) u else set_prev_ro (i32 block_offset) u).

(** ** The update command *)

Definition be32 (x : Z) : list Z := be_bytes 4 x.

Definition version_fields (h : SignedHeader) : list Z :=
  be32 (minor_ h) ++ be32 (major_ h) ++ be32 (epoch_ h).

(** The answer to the connection request. *)
Definition first_response : ST upgrade (list Z) :=
  set_valid_sections ;;;
  let* s := gets valid_sections in
  if negb (nz (ro_top_offset s)) || negb (nz (rw_top_offset s))
  then ret (be32 UPGRADE_GEN_ERROR ++ be32 UPGRADE_PROTOCOL_VERSION ++ zeros 40)
  else
    let* ro := current_header ro_copy in
    let* rw := current_header rw_copy in
    ret (be32 0 ++ be32 UPGRADE_PROTOCOL_VERSION ++
         be32 (ro_base_offset s) ++ be32 (rw_base_offset s) ++
         version_fields ro ++ version_fields rw ++ be32 (keyid ro) ++ be32 (keyid rw)).

(** The header in [data] with the bit that keeps the image from running. *)
Definition corrupt_header (data : list Z) : list Z :=
  splice image_size_offset
    (le_bytes 4 (Z.lor (image_size (header_of_bytes data)) TOP_IMAGE_SIZE_BIT)) data.

(** The write of an accepted block; [data] is what is left in the frame. *)
Definition write_block (block_offset : Z) (data : list Z) : ST upgrade Z :=
  let* s := gets valid_sections in
  let ro := block_offset <? ro_top_offset s in
  (if ro then on_dev (flash_open_ro_window (ro_base_offset s)
                        (u32 (ro_top_offset s - ro_base_offset s)))
   else ret tt) ;;;
  let* rv := on_dev (flash_physical_write (i32 block_offset) data) in
  (if ro then on_dev flash_close_ro_window else ret tt) ;;;
  if nz rv then ret UPGRADE_WRITE_FAILURE
  else
    new_chunk_written block_offset ;;;
    let* m := gets (fun u => flash_main (dev u)) in
    let addr := u32 (block_offset + PROGRAM_MEMORY_BASE) - PROGRAM_MEMORY_BASE in
    ret (if mem_eq data (read_bytes m addr (length data))
         then UPGRADE_SUCCESS else UPGRADE_VERIFY_ERROR).

(** The code for a block, and the data as it is left in the frame. *)
Definition update_block (block_offset body_size : Z) (data : list Z)
    : ST upgrade (Z * list Z) :=
  let* refused := contents_allowed block_offset body_size data in
  match refused with
  | Some e => ret (e, data)
  | None =>
      let* e := check_update_chunk block_offset body_size in
      if nz e then ret (e, data) else
      let* soon := chunk_came_too_soon block_offset in
      if soon then ret (UPGRADE_RATE_LIMIT_ERROR, data) else
      let* s := gets valid_sections in
      if (block_offset =? ro_base_offset s) || (block_offset =? rw_base_offset s) then
        if image_size (header_of_bytes data) <? FLASH_BANK_SIZE
        then ret (UPGRADE_TRUNCATED_HEADER_ERROR, data)
        else
          let data := corrupt_header data in
          let* e := write_block block_offset data in ret (e, data)
      else let* e := write_block block_offset data in ret (e, data)
  end.

(** [body] is the buffer from the frame on; returns it with the response, and the size
    of the response. *)
Definition fw_upgrade_command_handler (body : list Z) (cmd_size : Z)
    : ST upgrade (list Z * Z) :=
  let error e body := (splice 0 [u8 e] body, 1) in
  if cmd_size <? sizeof_upgrade_command then ret (error UPGRADE_GEN_ERROR body)
  else
    let body_size := cmd_size - sizeof_upgrade_command in
    let block_base := be_val (sub 4 4 body) in
    if (block_base =? 0) && (body_size =? 0) then
      let* r := first_response in
      ret (splice 0 r body, Z.of_nat (length r))
    else
      let* valid := usb_pdu_valid body cmd_size in
      if negb valid then ret (error UPGRADE_DATA_ERROR body)
      else
        let data := sub 8 (Z.to_nat body_size) body in
        let* (e, data) := update_block block_base body_size data in
        ret (error e (splice 8 data body)).

(** [DECLARE_EXTENSION_COMMAND(EXTENSION_FW_UPGRADE, ...)] *)
Definition fw_upgrade_wrap : handler upgrade := fun p =>
  let* (body, n) := fw_upgrade_command_handler (buffer p) (in_size p) in
  ret (RC.VENDOR_RC_SUCCESS, set_out_size (set_buffer p body) n).

(** ** Turning the update on *)

Definition header_restored (offset : Z) : ST upgrade Z :=
  let* u := gets id in
  let old_size := image_size (header_at (flash_main (dev u)) (PROGRAM_MEMORY_BASE + offset)) in
  if Z.land old_size TOP_IMAGE_SIZE_BIT =? 0 then ret 0
  else
    let new_size := clear_bits 32 old_size TOP_IMAGE_SIZE_BIT in
    if RW_SIZE <? new_size then ret 0
    else
      let ro_header := (offset =? RO_MEM_OFF) || (offset =? RO_B_MEM_OFF) in
      (if ro_header
       then on_dev (flash_open_ro_window offset (Z.of_nat sizeof_SignedHeader)) else ret tt) ;;;
      let* rv := on_dev (flash_physical_write (offset + Z.of_nat image_size_offset)
                           (le_bytes 4 new_size)) in
      (if ro_header then on_dev flash_close_ro_window else ret tt) ;;;
      ret (b2z (rv =? EC.SUCCESS)).

Definition headers_restored : ST upgrade Z :=
  let* rw := if bool_decide (rw_copy = SYSTEM_IMAGE_RW)
             then header_restored RW_B_MEM_OFF else header_restored RW_MEM_OFF in
  let* ro := if bool_decide (ro_copy = SYSTEM_IMAGE_RO)
             then header_restored RO_B_MEM_OFF else header_restored RO_MEM_OFF in
  ret (u8 (rw + ro)).

Definition turn_update_on : handler upgrade := fun p =>
  let p := set_out_size p 0 in
  if in_size p <? 2 then ret (RC.VENDOR_RC_BOGUS_ARGS, p)
  else
    let timeout := be_val (sub 0 2 (buffer p)) in
    if MAX_REBOOT_TIMEOUT_MS <? timeout then ret (RC.VENDOR_RC_BOGUS_ARGS, p)
    else
      let* n := headers_restored in
      (if nz n && nz timeout then modify (set_reboot (Some (timeout * 1000))) else ret tt) ;;;
      ret (RC.VENDOR_RC_SUCCESS, answer p n).
End Upgrade.

Arguments upgrade F : clear implicits.
