(* ===== verification/UpgradeProps.v ===== *)
(** * Firmware update: where it writes, what it accepts, and how an image is turned on *)

From S2P Require Import Prelude Vendor Flash FlashProps FlashOps BoardId BoardProps Upgrade.

Class UpgradeHwLaws (F : Type) `{!FlashDev F} `{!UpgradeHw F} : Prop := {
  time_same f : same_flash f (get_time f).2;
  sha1_same m f : same_flash f (DCRYPTO_SHA1_hash m f).2;
  reset_flag_same f : same_flash f (reset_flag_hard f).2
}.

Section Upgrade.
Context {F : Type} `{!FlashDev F} `{!FlashDevLaws F} `{!UpgradeHw F} `{!UpgradeHwLaws F}.
Variable ro_copy rw_copy : system_image_copy_t.

Abbreviation main u := (flash_main (dev u)).
Abbreviation info u := (flash_info (dev u)).

(** ** Where it writes *)

(** The sections are those that are not running, or not known yet. *)
Definition sections_ok (s : valid_sections_t) : Prop :=
  (ro_top_offset s = 0 \/ (ro_copy = SYSTEM_IMAGE_RO /\ ro_base_offset s = RO_B_MEM_OFF \/
                           ro_copy = SYSTEM_IMAGE_RO_B /\ ro_base_offset s = RO_MEM_OFF) /\
                          ro_top_offset s = ro_base_offset s + MAX_RO_CODE_SIZE) /\
  (rw_top_offset s = 0 \/ (rw_copy = SYSTEM_IMAGE_RW /\ rw_base_offset s = RW_B_MEM_OFF \/
                           rw_copy = SYSTEM_IMAGE_RW_B /\ rw_base_offset s = RW_MEM_OFF) /\
                          rw_top_offset s = rw_base_offset s + RW_SIZE).

(** The addresses of the sections. *)
Definition in_sections (s : valid_sections_t) (a : Z) : Prop :=
  ro_base_offset s <= a < ro_top_offset s \/ rw_base_offset s <= a < rw_top_offset s.

(** The page of the flash log. *)
Definition in_log (a : Z) : Prop := FLASH_LOG_OFFSET <= a < FLASH_LOG_OFFSET + FLASH_LOG_SPACE.

Lemma logged_at m m' a : logged m m' -> ~ in_log a -> m' a = m a.
Proof. intros Hl Ha. apply Hl, in_range_false. unfold in_log in Ha.
  destruct (Z.lt_ge_cases a FLASH_LOG_OFFSET); [by left|right].
  destruct (Z.lt_ge_cases a (FLASH_LOG_OFFSET + FLASH_LOG_SPACE)); [|done]. by destruct Ha. Qed.

(** An operation keeps the sections and the INFO page, and the main array outside of
    the sections and of the flash log. *)
Definition confined (u u' : upgrade F) : Prop :=
  valid_sections u' = valid_sections u /\ info u' ≡ info u /\
  forall a, ~ in_sections (valid_sections u) a -> ~ in_log a -> main u' a = main u a.

#[global] Instance confined_preorder : PreOrder confined.
Proof.
  split.
  - by split.
  - intros u1 u2 u3 (S1 & I1 & M1) (S2 & I2 & M2). rewrite S1 in S2, M2.
    split; [done|]. split; [by rewrite I2|]. intros a Ha Hl. by rewrite M2, M1.
Qed.

(** ... and all of the flash. *)
Definition unchanged (u u' : upgrade F) : Prop :=
  valid_sections u' = valid_sections u /\ same_flash (dev u) (dev u').

Lemma unchanged_confined u u' : unchanged u u' -> confined u u'.
Proof. intros [S [M I]]. split; [done|]. split; [done|]. intros a _ _. apply M. Qed.

(** ... but for errors that were logged. *)
Definition only_logged (u u' : upgrade F) : Prop :=
  valid_sections u' = valid_sections u /\ flash_logged (dev u) (dev u').

Lemma unchanged_logged u u' : unchanged u u' -> only_logged u u'.
Proof. intros [S E]. split; [done|by apply same_flash_logged]. Qed.

Lemma only_logged_confined u u' : only_logged u u' -> confined u u'.
Proof. intros [S [M I]]. split; [done|]. split; [done|]. intros a _. by apply logged_at. Qed.

Lemma on_dev_logged {A} (m : ST F A) u :
  (forall f, flash_logged f (m f).2) -> only_logged u (on_dev m u).2.
Proof. intros Hm. unfold on_dev. specialize (Hm (dev u)). by destruct (m (dev u)). Qed.

Lemma on_dev_unchanged {A} (m : ST F A) u :
  (forall f, same_flash f (m f).2) -> unchanged u (on_dev m u).2.
Proof. intros Hm. unfold on_dev. specialize (Hm (dev u)). by destruct (m (dev u)). Qed.

Lemma control_unchanged (m : ST F unit) u :
  m ∈ [flash_info_write_enable; flash_info_write_disable; flash_close_ro_window] \/
  (exists off n, m = flash_open_ro_window off n) -> unchanged u (on_dev m u).2.
Proof. intros Hm. apply on_dev_unchanged. intros f. by apply flash_control_same. Qed.

Lemma close_unchanged u : unchanged u (on_dev flash_close_ro_window u).2.
Proof. apply control_unchanged. left. do 2 apply list_elem_of_further. apply list_elem_of_here. Qed.

Lemma open_unchanged off n u : unchanged u (on_dev (flash_open_ro_window off n) u).2.
Proof. apply control_unchanged. right. eauto. Qed.

(** Opening and closing the window, when there is one. *)
Lemma when_unchanged (b : bool) (m : ST (upgrade F) unit) u :
  unchanged u (m u).2 -> unchanged u ((if b then m else ret tt) u).2.
Proof. by destruct b. Qed.

(** The bounds of a section that is known. *)
Lemma rw_section s : sections_ok s -> rw_top_offset s <> 0 ->
  0 <= rw_base_offset s /\ rw_top_offset s = rw_base_offset s + RW_SIZE /\
  rw_top_offset s <= FLASH_SIZE.
Proof.
  intros [_ [H|[Hb ->]]] Hn; [done|].
  assert (0 <= rw_base_offset s <= RW_B_MEM_OFF)
    by (destruct Hb as [[_ ->]|[_ ->]]; vm_compute; intuition discriminate).
  change RW_B_MEM_OFF with 278528 in *. change RW_SIZE with 233472.
  change FLASH_SIZE with 524288. lia.
Qed.

Lemma ro_section s : sections_ok s -> ro_top_offset s <> 0 ->
  0 <= ro_base_offset s /\ ro_top_offset s = ro_base_offset s + MAX_RO_CODE_SIZE /\
  ro_top_offset s <= FLASH_SIZE.
Proof.
  intros [[H|[Hb ->]] _] Hn; [done|].
  assert (0 <= ro_base_offset s <= RO_B_MEM_OFF)
    by (destruct Hb as [[_ ->]|[_ ->]]; vm_compute; intuition discriminate).
  change RO_B_MEM_OFF with 262144 in *. change MAX_RO_CODE_SIZE with 12288.
  change FLASH_SIZE with 524288. lia.
Qed.

(** Erasing inside a section. *)
Lemma erase_confined u base size rv f' :
  0 <= base -> 0 <= size -> base + size <= FLASH_SIZE ->
  (forall a, base <= a < base + size -> in_sections (valid_sections u) a) ->
  flash_physical_erase base size (dev u) = (rv, f') -> confined u (set_dev f' u).
Proof.
  intros H1 H2 H3 Hin E. destruct (flash_erase_any _ _ _ _ _ H1 H2 H3 E) as [(m1 & Ho & Hlg) Hi].
  split; [done|]. split; [done|]. intros a Ha Hl. cbn. rewrite (logged_at _ _ a Hlg Hl).
  apply Ho, in_range_false.
  destruct (Z.lt_ge_cases a base); [by left|].
  destruct (Z.lt_ge_cases a (base + size)); [exfalso; apply Ha, Hin; lia|by right].
Qed.

Lemma check_update_chunk_confined block_offset body_size u :
  sections_ok (valid_sections u) -> confined u (check_update_chunk block_offset body_size u).2.
Proof.
  intros Hs. unfold check_update_chunk, bind at 1, gets. cbn zeta.
  set (s := valid_sections u) in *.
  destruct (nz (rw_top_offset s) && _ && _) eqn:Erw.
  { apply andb_prop in Erw as [Erw _]. apply andb_prop in Erw as [Erw _].
    apply nz_true in Erw. destruct (rw_section s Hs Erw) as (B & T & L).
    assert (Hsz : u32 (rw_top_offset s - rw_base_offset s) = RW_SIZE)
      by (rewrite T; rewrite uN_small; [lia|change RW_SIZE with 233472; lia]).
    rewrite Hsz. destruct (_ =? _); [|by cbn].
    unfold bind, on_dev. destruct (flash_physical_erase _ _ (dev u)) as [rv f'] eqn:E.
    refine (erase_confined u (rw_base_offset s) RW_SIZE rv f' B _ _ _ E);
      [by vm_compute|lia|]. intros a Ha. right. fold s. lia. }
  destruct (nz (ro_top_offset s) && _ && _) eqn:Ero; [|by cbn].
  apply andb_prop in Ero as [Ero _]. apply andb_prop in Ero as [Ero _].
  apply nz_true in Ero. destruct (ro_section s Hs Ero) as (B & T & L).
  assert (Hsz : u32 (ro_top_offset s - ro_base_offset s) = MAX_RO_CODE_SIZE)
    by (rewrite T; rewrite uN_small; [lia|change MAX_RO_CODE_SIZE with 12288; lia]).
  rewrite Hsz. destruct (_ =? _); [|by cbn].
  unfold bind at 1. pose proof (open_unchanged (ro_base_offset s) MAX_RO_CODE_SIZE u) as U1.
  destruct (on_dev (flash_open_ro_window _ _) u) as [[] u1]. cbn [snd] in U1.
  unfold bind at 1, on_dev at 1.
  destruct (flash_physical_erase _ _ (dev u1)) as [rv f'] eqn:E.
  assert (C : confined u1 (set_dev f' u1)).
  { destruct U1 as [V1 _]. fold s in V1.
    refine (erase_confined u1 (ro_base_offset s) MAX_RO_CODE_SIZE rv f' B _ _ _ E);
      [by vm_compute|lia|]. intros a Ha. left. rewrite V1. lia. }
  unfold bind at 1. pose proof (close_unchanged (set_dev f' u1)) as U2.
  destruct (on_dev flash_close_ro_window (set_dev f' u1)) as [[] u2]. cbn.
  etrans; [by apply unchanged_confined|]. etrans; [exact C|]. by apply unchanged_confined.
Qed.

(** Where an accepted chunk lies. *)
Definition chunk_in_section (s : valid_sections_t) (block_offset body_size : Z) : Prop :=
  (rw_base_offset s <= block_offset /\ block_offset + body_size <= rw_top_offset s /\
   rw_top_offset s <= FLASH_SIZE) \/
  (ro_base_offset s <= block_offset /\ block_offset + body_size <= ro_top_offset s /\
   ro_top_offset s <= FLASH_SIZE).

Lemma check_update_chunk_range block_offset body_size u u' :
  sections_ok (valid_sections u) -> 0 <= block_offset -> 0 <= body_size ->
  block_offset + body_size < 2 ^ 32 ->
  check_update_chunk block_offset body_size u = (UPGRADE_SUCCESS, u') ->
  chunk_in_section (valid_sections u) block_offset body_size.
Proof.
  intros Hs H0 H1 Hw. unfold check_update_chunk, bind at 1, gets. cbn zeta.
  set (s := valid_sections u) in *. rewrite (uN_small 32) by lia.
  destruct (nz (rw_top_offset s) && _ && _) eqn:Erw.
  { intros _. apply andb_prop in Erw as [Erw E3]. apply andb_prop in Erw as [E1 E2].
    apply nz_true in E1. destruct (rw_section s Hs E1) as (_ & _ & L).
    apply Z.leb_le in E2, E3. left. lia. }
  destruct (nz (ro_top_offset s) && _ && _) eqn:Ero; [|discriminate].
  intros _. apply andb_prop in Ero as [Ero E3]. apply andb_prop in Ero as [E1 E2].
  apply nz_true in E1. destruct (ro_section s Hs E1) as (_ & _ & L).
  apply Z.leb_le in E2, E3. right. lia.
Qed.

Lemma chunk_in_sections s off size a :
  chunk_in_section s off size -> off <= a < off + size -> in_sections s a.
Proof. intros [H|H] Ha; [right|left]; lia. Qed.

(** ** Checks *)

Lemma board_id_mismatch_logged sh f : flash_logged f (board_id_mismatch rw_copy sh f).2.
Proof.
  pose proof (read_board_id_logged f) as L.
  unfold board_id_mismatch, bind at 1. destruct sh as [h|]; cbn; unfold bind;
    by destruct (read_board_id f).
Qed.

Lemma contents_allowed_logged block_offset body_size data u :
  only_logged u (contents_allowed ro_copy rw_copy block_offset body_size data u).2.
Proof.
  unfold contents_allowed, bind at 1, gets.
  destruct (_ =? ro_base_offset _); [|destruct (_ =? rw_base_offset _)]; [..|done];
    unfold bind, current_header, gets; do 2 (case_match; [done|]); [done|].
  pose proof (on_dev_logged (board_id_mismatch rw_copy (Some (header_of_bytes data))) u
    (board_id_mismatch_logged _)) as Hu.
  by destruct (on_dev _ u).
Qed.

Lemma too_soon_unchanged block_offset u :
  unchanged u (chunk_came_too_soon block_offset u).2.
Proof.
  unfold chunk_came_too_soon, bind at 1.
  pose proof (on_dev_unchanged get_time u time_same) as U1.
  destruct (on_dev get_time u) as [now u1]. cbn [snd] in U1.
  unfold bind at 1, gets. case_match; [done|]. case_match; [|done].
  pose proof (on_dev_unchanged reset_flag_hard u1 reset_flag_same) as [V2 S2].
  destruct (on_dev reset_flag_hard u1) as [b u2]. cbn [snd] in *. destruct U1 as [V1 S1].
  split; [by rewrite V2|by etrans].
Qed.

Lemma new_chunk_unchanged block_offset u :
  unchanged u (new_chunk_written block_offset u).2.
Proof.
  unfold new_chunk_written, bind at 1.
  pose proof (on_dev_unchanged get_time u time_same) as U1.
  destruct (on_dev get_time u) as [now u1]. cbn [snd] in U1.
  unfold bind, modify. cbn. by case_match.
Qed.

(** ** Writing a block *)

Lemma i32_offset x : 0 <= x <= FLASH_SIZE -> i32 x = x.
Proof. change FLASH_SIZE with 524288. intros. apply i32_small. lia. Qed.

Lemma write_block_confined block_offset data u :
  0 <= block_offset -> bytes data ->
  chunk_in_section (valid_sections u) block_offset (Z.of_nat (length data)) ->
  confined u (write_block block_offset data u).2.
Proof.
  intros H0 Hb Hin. assert (Hl : block_offset + Z.of_nat (length data) <= FLASH_SIZE)
    by (destruct Hin; lia).
  unfold write_block, bind at 1, gets. cbn zeta. set (s := valid_sections u) in *.
  set (ro := block_offset <? ro_top_offset s). rewrite (i32_offset block_offset) by lia.
  set (opened := if ro then on_dev (flash_open_ro_window _ _) else ret tt).
  assert (U1 : unchanged u (opened u).2)
    by (apply when_unchanged, open_unchanged).
  set (closed := if ro then on_dev flash_close_ro_window else ret tt).
  unfold bind at 1. destruct (opened u) as [[] u1]. cbn [snd] in U1.
  unfold bind at 1, on_dev at 1.
  destruct (flash_physical_write block_offset data (dev u1)) as [rv f'] eqn:E.
  destruct (flash_write_any _ _ _ _ _ Hb H0 Hl E) as [(m1 & [Ho _] & Hlg) Hi].
  assert (C1 : confined u (set_dev f' u1)).
  { destruct U1 as [V1 [M1 I1]]. split; [done|]. split; [cbn; by rewrite Hi|].
    intros a Ha Hnl. cbn. rewrite (logged_at _ _ a Hlg Hnl), (Ho a); [apply M1|].
    apply in_range_false.
    destruct (Z.lt_ge_cases a block_offset); [by left|].
    destruct (Z.lt_ge_cases a (block_offset + Z.of_nat (length data))); [|by right].
    exfalso. apply Ha. eapply chunk_in_sections; [exact Hin|lia]. }
  assert (U2 : unchanged (set_dev f' u1) (closed (set_dev f' u1)).2)
    by (apply when_unchanged, close_unchanged).
  unfold bind at 1. destruct (closed (set_dev f' u1)) as [[] u2]. cbn [snd] in U2.
  assert (C2 : confined u u2) by (etrans; [exact C1|by apply unchanged_confined]).
  destruct (nz rv); [exact C2|]. unfold bind at 1.
  pose proof (new_chunk_unchanged block_offset u2) as U3.
  destruct (new_chunk_written block_offset u2) as [[] u3]. cbn [snd] in U3.
  etrans; [exact C2|]. by apply unchanged_confined.
Qed.

Lemma length_corrupt_header data :
  (1024 <= length data)%nat -> length (corrupt_header data) = length data.
Proof.
  intros Hl. apply length_splice. rewrite length_le_bytes. unfold image_size_offset. lia.
Qed.

Lemma bytes_corrupt_header data : bytes data -> bytes (corrupt_header data).
Proof. intros. unfold corrupt_header. eauto with bytes_db. Qed.

(** The header block is whole. *)
Lemma contents_allowed_header block_offset body_size data u u' :
  contents_allowed ro_copy rw_copy block_offset body_size data u = (None, u') ->
  (block_offset =? ro_base_offset (valid_sections u))
    || (block_offset =? rw_base_offset (valid_sections u)) = true ->
  Z.of_nat sizeof_SignedHeader <= body_size.
Proof.
  unfold contents_allowed, bind at 1, gets.
  destruct (_ =? ro_base_offset _); [|destruct (_ =? rw_base_offset _); [|done]];
    unfold bind at 1, current_header, gets; intros E _;
    destruct (body_size <? _) eqn:El; (discriminate || by apply Z.ltb_ge).
Qed.

Lemma update_block_confined block_offset body_size data u :
  sections_ok (valid_sections u) -> 0 <= block_offset -> bytes data ->
  body_size = Z.of_nat (length data) -> block_offset + body_size < 2 ^ 32 ->
  confined u (update_block ro_copy rw_copy block_offset body_size data u).2.
Proof.
  intros Hs H0 Hb -> Hw. unfold update_block, bind at 1.
  pose proof (contents_allowed_logged block_offset (Z.of_nat (length data)) data u) as U1.
  pose proof (fun u' => contents_allowed_header block_offset (Z.of_nat (length data)) data u u')
    as Hh.
  destruct (contents_allowed _ _ _ _ _ u) as [[e|] u1]; cbn [snd] in U1.
  { by apply only_logged_confined. }
  specialize (Hh u1 eq_refl). destruct U1 as [V1 S1].
  assert (C1 : confined u u1) by (by apply only_logged_confined).
  unfold bind at 1. rewrite <- V1 in Hs.
  pose proof (check_update_chunk_confined block_offset (Z.of_nat (length data)) u1 Hs) as C2.
  pose proof (fun u' => check_update_chunk_range block_offset (Z.of_nat (length data)) u1 u' Hs H0
    (Zle_0_nat _) Hw) as Hr.
  destruct (check_update_chunk _ _ u1) as [e2 u2]. cbn [snd] in C2. rewrite V1 in Hr.
  assert (C : confined u u2) by (by etrans). clear C1 C2.
  destruct (nz e2) eqn:Ee; [exact C|]. apply nz_false in Ee. subst e2.
  specialize (Hr u2 eq_refl).
  unfold bind at 1. pose proof (too_soon_unchanged block_offset u2) as U3.
  destruct (chunk_came_too_soon _ u2) as [soon u3]. cbn [snd] in U3.
  assert (C3 : confined u u3) by (etrans; [exact C|by apply unchanged_confined]).
  destruct soon; [exact C3|]. unfold bind at 1, gets.
  destruct C3 as (V3 & I3 & M3). rewrite V3.
  assert (W : forall d, bytes d -> length d = length data ->
    confined u (write_block block_offset d u3).2).
  { intros d Hd Hl. etrans; [|apply write_block_confined; [done..|by rewrite V3, Hl]].
    by split. }
  destruct (_ || _) eqn:Eh.
  - destruct (_ <? _); [by split|]. unfold bind.
    assert (Hl : (1024 <= length data)%nat)
      by (specialize (Hh eq_refl); unfold sizeof_SignedHeader in Hh; lia).
    specialize (W (corrupt_header data) (bytes_corrupt_header _ Hb)
      (length_corrupt_header _ Hl)).
    by destruct (write_block _ _ u3).
  - unfold bind. specialize (W data Hb eq_refl). by destruct (write_block _ _ u3).
Qed.

(** The addresses of the images that do not run. *)
Definition inactive_image (a : Z) : Prop :=
  match ro_copy with
  | SYSTEM_IMAGE_RO => RO_B_MEM_OFF <= a < RO_B_MEM_OFF + MAX_RO_CODE_SIZE
  | SYSTEM_IMAGE_RO_B => RO_MEM_OFF <= a < RO_MEM_OFF + MAX_RO_CODE_SIZE
  | _ => False
  end \/
  match rw_copy with
  | SYSTEM_IMAGE_RW => RW_B_MEM_OFF <= a < RW_B_MEM_OFF + RW_SIZE
  | SYSTEM_IMAGE_RW_B => RW_MEM_OFF <= a < RW_MEM_OFF + RW_SIZE
  | _ => False
  end.

Lemma in_sections_inactive s a :
  sections_ok s -> 0 <= a -> in_sections s a -> inactive_image a.
Proof.
  intros [Ro Rw] H0 [H|H]; [left|right].
  - destruct Ro as [R|[[[-> E]|[-> E]] T]]; [lia|rewrite <- E; lia..].
  - destruct Rw as [R|[[[-> E]|[-> E]] T]]; [lia|rewrite <- E; lia..].
Qed.

(** A step of the update keeps the sections known, the INFO page and everything but the
    images that do not run and the flash log. *)
Definition spares_running (u u' : upgrade F) : Prop :=
  sections_ok (valid_sections u') /\ info u' ≡ info u /\
  forall a, 0 <= a -> ~ inactive_image a -> ~ in_log a -> main u' a = main u a.

Lemma confined_spares u u' :
  sections_ok (valid_sections u) -> confined u u' -> spares_running u u'.
Proof.
  intros Hs (V & I & M). split; [by rewrite V|]. split; [done|]. intros a H0 Ha Hl. apply M; [|done].
  intros H. apply Ha. by apply (in_sections_inactive (valid_sections u)).
Qed.

Lemma set_valid_sections_ok (u : upgrade F) :
  sections_ok (valid_sections u) -> sections_ok (valid_sections (set_valid_sections ro_copy rw_copy u).2)
  /\ dev (set_valid_sections ro_copy rw_copy u).2 = dev u.
Proof.
  intros [Ro Rw]. unfold set_valid_sections, sections_ok in *.
  destruct ro_copy, rw_copy; cbn; (split; [|done]); split;
    first [by right; repeat split; auto | intuition (done || congruence)].
Qed.

Lemma first_response_spares (u : upgrade F) :
  sections_ok (valid_sections u) -> spares_running u (first_response ro_copy rw_copy u).2.
Proof.
  intros Hs. destruct (set_valid_sections_ok u Hs) as [Hs' Hd].
  unfold first_response, bind at 1.
  destruct (set_valid_sections _ _ u) as [[] u1]. cbn [snd] in *.
  assert (S : spares_running u u1) by (split; [done|]; by rewrite Hd).
  unfold bind at 1, gets. by destruct (_ || _).
Qed.

(** No block reaches past the 32-bit addresses. *)
Definition no_wrap (body : list Z) (cmd_size : Z) : Prop :=
  be_val (sub 4 4 body) + (cmd_size - sizeof_upgrade_command) < 2 ^ 32.

Lemma command_spares body cmd_size u :
  sections_ok (valid_sections u) -> bytes body -> cmd_size <= Z.of_nat (length body) ->
  no_wrap body cmd_size ->
  spares_running u (fw_upgrade_command_handler ro_copy rw_copy body cmd_size u).2.
Proof.
  intros Hs Hb Hl Hw. unfold fw_upgrade_command_handler.
  destruct (_ <? _) eqn:E1; [by split|]. apply Z.ltb_ge in E1.
  unfold sizeof_upgrade_command, no_wrap in *. destruct (_ && _).
  { unfold bind. pose proof (first_response_spares u Hs).
    by destruct (first_response _ _ u). }
  unfold bind at 1, usb_pdu_valid, bind at 1.
  pose proof (on_dev_unchanged (DCRYPTO_SHA1_hash _) u (sha1_same (sub 4 (Z.to_nat (cmd_size - 4)) body)))
    as U1.
  destruct (on_dev _ u) as [d u1]. cbn [snd] in U1. unfold ret at 1.
  apply unchanged_confined in U1 as C1.
  destruct (negb _); [by apply confined_spares|]. unfold bind.
  pose proof (update_block_confined (be_val (sub 4 4 body)) (cmd_size - 8)
    (sub 8 (Z.to_nat (cmd_size - 8)) body) u1) as C2.
  destruct (update_block _ _ _ _ _ u1) as [[e data] u2].
  apply confined_spares; [done|]. etrans; [exact C1|]. cbn [snd] in C2. apply C2.
  - by rewrite (proj1 U1).
  - apply be_val_nonneg. eauto with bytes_db.
  - eauto with bytes_db.
  - rewrite length_sub by lia. lia.
  - exact Hw.
Qed.

(** ** Turning the update on *)

Abbreviation old_size offset u :=
  (image_size (header_at (main u) (PROGRAM_MEMORY_BASE + offset))).

Lemma header_restored_cases offset u r u' :
  0 <= offset -> offset + Z.of_nat sizeof_SignedHeader <= FLASH_SIZE ->
  header_restored offset u = (r, u') ->
  let size := clear_bits 32 (old_size offset u) TOP_IMAGE_SIZE_BIT in
  let field := offset + Z.of_nat image_size_offset in
  (valid_sections u' = valid_sections u /\ info u' ≡ info u /\
   then_logged (only_in field 4 (main u)) (main u')) /\
  (r = 0 \/ r = 1 /\ size <= RW_SIZE /\
     main u' ≡ programmed field (le_bytes 4 size) (main u)).
Proof.
  intros H0 H1 E size field. unfold header_restored, bind at 1, gets, id in E.
  unfold sizeof_SignedHeader in H1. destruct (_ =? 0) in E.
  { injection E as <- <-. split; [|by left]. split; [done|]. split; [done|].
    apply then_logged_now, only_in_refl. }
  fold size in E. destruct (RW_SIZE <? size) eqn:Es in E.
  { injection E as <- <-. split; [|by left]. split; [done|]. split; [done|].
    apply then_logged_now, only_in_refl. }
  apply Z.ltb_ge in Es. set (ro := (offset =? RO_MEM_OFF) || _) in E.
  set (opened := if ro then on_dev (flash_open_ro_window _ _) else ret tt) in E.
  assert (U1 : unchanged u (opened u).2) by (apply when_unchanged, open_unchanged).
  set (closed := if ro then on_dev flash_close_ro_window else ret tt) in E.
  unfold bind at 1 in E. destruct (opened u) as [[] u1]. cbn [snd] in U1.
  destruct U1 as [V1 [M1 I1]].
  unfold bind at 1, on_dev at 1 in E. fold field in E.
  destruct (flash_physical_write _ _ (dev u1)) as [rv f'] eqn:Ew.
  assert (U2 : unchanged (set_dev f' u1) (closed (set_dev f' u1)).2)
    by (apply when_unchanged, close_unchanged).
  unfold bind at 1 in E. destruct (closed (set_dev f' u1)) as [[] u2]. cbn [snd] in U2.
  destruct U2 as [V2 [M2 I2]]. cbn in V2, M2, I2. injection E as <- <-.
  assert (Hb : bytes (le_bytes 4 size)) by eauto with bytes_db.
  assert (B0 : 0 <= field) by (unfold field; lia).
  assert (B1 : field + Z.of_nat (length (le_bytes 4 size)) <= FLASH_SIZE)
    by (rewrite length_le_bytes; unfold field, image_size_offset; lia).
  destruct (flash_write_any _ _ _ _ _ Hb B0 B1 Ew) as [Hlg Hi].
  split.
  - split; [congruence|]. split; [by rewrite I2, Hi|]. rewrite M2. revert Hlg.
    apply then_logged_mono. intros m1 [Ho _] a Ha.
    rewrite (Ho a); [apply M1|by rewrite length_le_bytes].
  - destruct (rv =? EC.SUCCESS) eqn:Er; [right|by left]. apply Z.eqb_eq in Er. subst rv.
    split; [done|]. split; [done|].
    destruct (flash_write_ok _ _ _ _ Hb B0 B1 Ew) as [Hp _].
    intros a. rewrite (M2 a), (Hp a). unfold programmed. destruct (in_range _ _ a); by rewrite M1.
Qed.

Lemma header_restored_spares offset u :
  0 <= offset -> offset + Z.of_nat sizeof_SignedHeader <= FLASH_SIZE ->
  (forall a, offset <= a < offset + Z.of_nat sizeof_SignedHeader -> inactive_image a) ->
  sections_ok (valid_sections u) -> spares_running u (header_restored offset u).2.
Proof.
  intros H0 H1 Hin Hs. destruct (header_restored offset u) as [r u'] eqn:E.
  destruct (header_restored_cases _ _ _ _ H0 H1 E) as [(V & I & (m1 & Ho & Hlg)) _]. cbn [snd].
  split; [by rewrite V|]. split; [done|]. intros a Ha Hn Hl. rewrite (logged_at _ _ a Hlg Hl).
  apply Ho, in_range_false.
  unfold sizeof_SignedHeader, image_size_offset in *.
  destruct (Z.lt_ge_cases a (offset + 808)); [by left|].
  destruct (Z.lt_ge_cases a (offset + 812)); [|right; lia]. exfalso. apply Hn, Hin. lia.
Qed.

Lemma spares_trans u1 u2 u3 :
  spares_running u1 u2 -> spares_running u2 u3 -> spares_running u1 u3.
Proof.
  intros (S1 & I1 & M1) (S2 & I2 & M2). split; [done|]. split; [by rewrite I2|].
  intros a H0 Ha Hl. by rewrite M2, M1.
Qed.

(** The running images are known. *)
Definition images_known : Prop :=
  (ro_copy = SYSTEM_IMAGE_RO \/ ro_copy = SYSTEM_IMAGE_RO_B) /\
  (rw_copy = SYSTEM_IMAGE_RW \/ rw_copy = SYSTEM_IMAGE_RW_B).

Lemma other_rw_inactive :
  images_known ->
  let off := if bool_decide (rw_copy = SYSTEM_IMAGE_RW) then RW_B_MEM_OFF else RW_MEM_OFF in
  0 <= off /\ off + Z.of_nat sizeof_SignedHeader <= FLASH_SIZE /\
  forall a, off <= a < off + Z.of_nat sizeof_SignedHeader -> inactive_image a.
Proof.
  unfold inactive_image, sizeof_SignedHeader. change RW_SIZE with 233472.
  intros [_ [-> | ->]]; cbn zeta; rewrite ?bool_decide_eq_true_2, ?bool_decide_eq_false_2 by done;
    (split; [done|split; [done|intros a Ha; right; lia]]).
Qed.

Lemma other_ro_inactive :
  images_known ->
  let off := if bool_decide (ro_copy = SYSTEM_IMAGE_RO) then RO_B_MEM_OFF else RO_MEM_OFF in
  0 <= off /\ off + Z.of_nat sizeof_SignedHeader <= FLASH_SIZE /\
  forall a, off <= a < off + Z.of_nat sizeof_SignedHeader -> inactive_image a.
Proof.
  unfold inactive_image, sizeof_SignedHeader. change MAX_RO_CODE_SIZE with 12288.
  intros [[-> | ->] _]; cbn zeta; rewrite ?bool_decide_eq_true_2, ?bool_decide_eq_false_2 by done;
    (split; [done|split; [done|intros a Ha; left; lia]]).
Qed.

Lemma turn_update_on_spares p u :
  images_known -> sections_ok (valid_sections u) ->
  spares_running u (turn_update_on ro_copy rw_copy p u).2.
Proof.
  intros Hk Hs. unfold turn_update_on. destruct (_ <? 2); [by split|].
  destruct (_ <? _); [by split|].
  destruct (other_rw_inactive Hk) as (W0 & W1 & W2).
  destruct (other_ro_inactive Hk) as (R0 & R1 & R2).
  set (rw_off := if bool_decide (rw_copy = _) then _ else _) in *.
  set (ro_off := if bool_decide (ro_copy = _) then _ else _) in *.
  assert (E : headers_restored ro_copy rw_copy =
    ((let* rw := header_restored rw_off in let* ro := header_restored ro_off in
      ret (u8 (rw + ro))) : ST (upgrade F) Z))
    by (unfold headers_restored, rw_off, ro_off; by do 2 case_bool_decide).
  rewrite E. unfold bind at 1, bind at 1.
  pose proof (header_restored_spares rw_off u W0 W1 W2 Hs) as S1.
  destruct (header_restored rw_off u) as [rw u1]. cbn [snd] in S1.
  pose proof (header_restored_spares ro_off u1 R0 R1 R2 (proj1 S1)) as S2.
  unfold bind at 1. destruct (header_restored ro_off u1) as [ro u2]. cbn [snd] in S2.
  pose proof (spares_trans _ _ _ S1 S2) as S. cbv beta iota delta [ret].
  by destruct (nz (u8 (rw + ro)) && _).
Qed.

(** ** Steps of an update *)

Inductive update_step : upgrade F -> upgrade F -> Prop :=
| step_command body cmd_size u :
    bytes body -> cmd_size <= Z.of_nat (length body) -> no_wrap body cmd_size ->
    update_step u (fw_upgrade_command_handler ro_copy rw_copy body cmd_size u).2
| step_turn_on p u : update_step u (turn_update_on ro_copy rw_copy p u).2.

(** C2. Whatever frames a host sends to a firmware that has just started, whose blocks do not
    reach past the end of the 32-bit addresses, and whatever requests to turn the update on, and
    however the flash operations fail: the update never touches the INFO page, and it changes
    the main array only in the images that are not running and, when an operation fails, in
    the page of the flash log, into which the error goes.  The running firmware and the NVRAM
    area survive.  (For blocks that do reach past the end see [wrapped_block_programs_nvram].) *)
Theorem update_spares_running_images f u :
  images_known -> rtc update_step (upgrade_init f) u ->
  flash_info (dev u) ≡ flash_info f /\
  forall a, 0 <= a -> ~ inactive_image a -> ~ in_log a -> flash_main (dev u) a = flash_main f a.
Proof.
  intros Hk Hr. cut (spares_running (upgrade_init f) u); [by intros (_ & I & M)|].
  assert (Hs : sections_ok (valid_sections (upgrade_init f))) by (by split; left).
  revert Hs. induction Hr as [u|u u1 u2 Hstep _ IH]; intros Hs; [by split|].
  assert (S : spares_running u u1).
  { destruct Hstep as [body cmd_size u Hb Hl Hw|p u].
    - by apply command_spares.
    - by apply turn_update_on_spares. }
  apply (spares_trans _ _ _ S), IH, S.
Qed.
End Upgrade.

(** ** Examples *)

(** Every digest is zero, and it is a little over a minute since the start. *)
#[global] Instance toy_hw : UpgradeHw (flash toy_flash) := {
  get_time := ret 61000001;
  DCRYPTO_SHA1_hash _ := ret (Some (zeros 20));
  reset_flag_hard := ret false
}.

#[global] Instance toy_hw_laws : UpgradeHwLaws (flash toy_flash).
Proof. by split. Qed.

(** The first images run. *)
Definition toy_sections : valid_sections_t :=
  mkSections RO_B_MEM_OFF (RO_B_MEM_OFF + MAX_RO_CODE_SIZE) RW_B_MEM_OFF
    (RW_B_MEM_OFF + RW_SIZE).

Lemma toy_sections_ok : sections_ok SYSTEM_IMAGE_RO SYSTEM_IMAGE_RW toy_sections.
Proof. split; right; (split; [by left|done]). Qed.

(** The header block of an image of 4 KB, and the frame that carries it. *)
Definition toy_block : list Z := splice image_size_offset (le_bytes 4 4096) (replicate 1024 0x33).

Definition toy_frame : list Z := zeros 4 ++ be_bytes 4 RW_B_MEM_OFF ++ toy_block.

Lemma toy_block_bytes : bytes toy_block.
Proof.
  apply bytes_splice; [apply bytes_le_bytes|]. apply Forall_replicate. unfold is_byte. lia.
Qed.

Abbreviation toy_command := (fw_upgrade_command_handler SYSTEM_IMAGE_RO SYSTEM_IMAGE_RW).

Example update_spares_running_images_witness :
  let u0 := upgrade_init (board_flash (fun _ => 255)) in
  let u1 := (toy_command (zeros 52) 8 u0).2 in
  let '((body, _), u2) := toy_command toy_frame 1032 u1 in
  take 1 body = [UPGRADE_SUCCESS] /\
  forall a, RO_MEM_OFF <= a < RO_B_MEM_OFF -> flash_main (dev u2) a = 0x33.
Proof.
  intros u0 u1. destruct (toy_command toy_frame 1032 u1) as [[body n] u2] eqn:E.
  assert (Hk : images_known SYSTEM_IMAGE_RO SYSTEM_IMAGE_RW) by (split; by left).
  assert (Hb : take 1 (toy_command toy_frame 1032 u1).1.1 = [UPGRADE_SUCCESS])
    by (vm_compute; reflexivity).
  split; [by rewrite E in Hb|]. intros a Ha.
  assert (Hs : rtc (update_step SYSTEM_IMAGE_RO SYSTEM_IMAGE_RW) u0 u2).
  { apply rtc_l with u1.
    - apply step_command; [apply bytes_zeros|by vm_compute|by vm_compute].
    - apply rtc_once. replace u2 with (toy_command toy_frame 1032 u1).2 by by rewrite E.
      apply step_command; [|by vm_compute|by vm_compute].
      apply bytes_app; [apply bytes_zeros|].
      apply bytes_app; [apply bytes_be_bytes|apply toy_block_bytes]. }
  destruct (update_spares_running_images SYSTEM_IMAGE_RO SYSTEM_IMAGE_RW
    (board_flash (fun _ => 255)) u2 Hk Hs) as [_ Hm].
  change RO_MEM_OFF with 0 in Ha. change RO_B_MEM_OFF with 262144 in Ha.
  apply (Hm a); [lia|unfold inactive_image|unfold in_log].
  - change RO_B_MEM_OFF with 262144. change RW_B_MEM_OFF with 278528. lia.
  - change FLASH_LOG_OFFSET with 276480. lia.
Defined.
