(* ===== verification/UpgradeRound.v ===== *)
(** * Firmware update: the header that is held back, the pacing, and the wrapped block *)

From S2P Require Import Prelude Vendor Flash FlashProps FlashOps BoardId BoardProps Upgrade UpgradeProps.

(** ** Bytes of words, and of buffers with a word replaced *)

Lemma at_le_bytes n x i : (i < n)%nat ->
  at_ (le_bytes n x) (Z.of_nat i) = Z.land (Z.shiftr x (8 * Z.of_nat i)) (Z.ones 8).
Proof.
  unfold at_. rewrite Nat2Z.id, Z.land_ones by lia.
  revert x i. induction n as [|n IH]; intros x [|i] Hi; [lia..| |]; cbn [le_bytes nth].
  - by rewrite Z.shiftr_0_r.
  - rewrite IH by lia. change 256 with (2 ^ 8). rewrite <- (Z.shiftr_div_pow2 x 8) by lia.
    rewrite Z.shiftr_shiftr by lia. do 3 f_equal. lia.
Qed.

Lemma at_le_bytes_land n x y i : (i < n)%nat ->
  Z.land (at_ (le_bytes n x) (Z.of_nat i)) (at_ (le_bytes n y) (Z.of_nat i)) =
  at_ (le_bytes n (Z.land x y)) (Z.of_nat i).
Proof.
  intros Hi. rewrite !at_le_bytes by done. rewrite Z.shiftr_land.
  apply Z.bits_inj'. intros j Hj. rewrite !Z.land_spec.
  by destruct (Z.testbit (Z.shiftr x _) j), (Z.testbit (Z.shiftr y _) j), (Z.testbit (Z.ones 8) j).
Qed.

Lemma at_splice k new l i :
  (k + length new <= length l)%nat -> 
  at_ (splice k new l) (Z.of_nat i) =
  if (k <=? i)%nat && (i <? k + length new)%nat then at_ new (Z.of_nat (i - k))
  else at_ l (Z.of_nat i).
Proof.
  intros Hl. unfold at_, splice. rewrite !Nat2Z.id.
  assert (Ht : length (take k l) = k) by (rewrite length_take; lia).
  destruct (Nat.leb_spec k i) as [H1|H1]; cbn [andb].
  - rewrite app_nth2, Ht by lia. destruct (Nat.ltb_spec i (k + length new)) as [H2|H2].
    + by rewrite app_nth1 by lia.
    + rewrite app_nth2 by lia. rewrite <- (take_drop (k + length new) l) at 2.
      rewrite app_nth2; rewrite length_take; [f_equal; lia|lia].
  - rewrite app_nth1 by lia. rewrite <- (take_drop k l) at 2. by rewrite app_nth1 by lia.
Qed.

Lemma u32_mapped off : 0 <= off <= FLASH_SIZE ->
  u32 (off + PROGRAM_MEMORY_BASE) - PROGRAM_MEMORY_BASE = off.
Proof.
  change FLASH_SIZE with 524288. intros. rewrite uN_small; [lia|].
  change PROGRAM_MEMORY_BASE with 262144. lia.
Qed.

(** *** The size bit *)

Section SizeBit.
Variable x : Z.
Hypothesis Hx : 0 <= x <= RW_SIZE.

Lemma size_no_top : Z.land x TOP_IMAGE_SIZE_BIT = 0.
Proof.
  change RW_SIZE with 233472 in Hx. unfold TOP_IMAGE_SIZE_BIT.
  apply Z.bits_inj'. intros i Hi. rewrite Z.land_spec, Z.bits_0, Z.pow2_bits_eqb by lia.
  destruct (Z.eqb_spec 31 i) as [<-|]; [|apply andb_false_r]. rewrite andb_true_r.
  destruct (Z.eq_dec x 0) as [->|]; [apply Z.bits_0|].
  apply Z.bits_above_log2; [lia|]. apply Z.log2_lt_pow2; lia.
Qed.

Lemma size_with_top : Z.lor x TOP_IMAGE_SIZE_BIT = x + TOP_IMAGE_SIZE_BIT.
Proof. pose proof (Z.add_lor_land x TOP_IMAGE_SIZE_BIT) as E. rewrite size_no_top in E. lia. Qed.

Lemma size_top_range : 0 <= Z.lor x TOP_IMAGE_SIZE_BIT < 256 ^ Z.of_nat 4.
Proof.
  rewrite size_with_top. change RW_SIZE with 233472 in Hx.
  change TOP_IMAGE_SIZE_BIT with 2147483648. lia.
Qed.

Lemma size_top_cleared : clear_bits 32 (Z.lor x TOP_IMAGE_SIZE_BIT) TOP_IMAGE_SIZE_BIT = x.
Proof.
  unfold clear_bits. change (Z.lxor (Z.ones 32) TOP_IMAGE_SIZE_BIT) with (Z.ones 31).
  rewrite Z.land_lor_distr_l. change (Z.land TOP_IMAGE_SIZE_BIT (Z.ones 31)) with 0.
  rewrite Z.lor_0_r, Z.land_ones by lia. apply Z.mod_small.
  change RW_SIZE with 233472 in Hx. lia.
Qed.

Lemma size_top_land : Z.land (Z.lor x TOP_IMAGE_SIZE_BIT) x = x.
Proof.
  rewrite Z.land_lor_distr_l, Z.land_diag, (Z.land_comm TOP_IMAGE_SIZE_BIT), size_no_top.
  apply Z.lor_0_r.
Qed.
End SizeBit.

(** The size field of a block, and of the block with the bit set. *)
Abbreviation size_of data := (image_size (header_of_bytes data)).

Lemma sub_size_field data :
  bytes data -> (sizeof_SignedHeader <= length data)%nat ->
  sub image_size_offset 4 data = le_bytes 4 (size_of data).
Proof.
  unfold sizeof_SignedHeader, image_size_offset. intros Hb Hl. cbn [image_size header_of_bytes].
  assert (E : length (sub 808 4 data) = 4%nat) by (apply length_sub; lia).
  pose proof (le_bytes_val (sub 808 4 data)) as L. rewrite E in L.
  symmetry. apply L. eauto with bytes_db.
Qed.

Lemma size_of_nonneg data : bytes data -> 0 <= size_of data.
Proof. intros Hb. exact (proj1 (le_val_range _ (bytes_sub image_size_offset 4 data Hb))). Qed.

Lemma size_field_corrupt data :
  bytes data -> (sizeof_SignedHeader <= length data)%nat -> size_of data <= RW_SIZE ->
  le_val (sub image_size_offset 4 (corrupt_header data)) =
  Z.lor (size_of data) TOP_IMAGE_SIZE_BIT.
Proof.
  intros Hb Hl Hs. pose proof (size_of_nonneg data Hb).
  unfold sizeof_SignedHeader in Hl. unfold corrupt_header.
  pose proof (sub_splice_same image_size_offset
    (le_bytes 4 (Z.lor (size_of data) TOP_IMAGE_SIZE_BIT)) data) as E.
  rewrite length_le_bytes in E. rewrite E by (unfold image_size_offset; lia).
  by apply le_val_bytes, size_top_range.
Qed.

(** Clearing the bit in the flash gives the block back. *)
Lemma restored_read m m' off data :
  bytes data -> (sizeof_SignedHeader <= length data)%nat -> size_of data <= RW_SIZE ->
  read_bytes m off (length data) = corrupt_header data ->
  m' ≡ programmed (off + Z.of_nat image_size_offset) (le_bytes 4 (size_of data)) m ->
  read_bytes m' off (length data) = data.
Proof.
  intros Hb Hl Hs Hm Hp. pose proof (size_of_nonneg data Hb).
  pose proof (sub_size_field data Hb Hl) as Hf. unfold sizeof_SignedHeader in Hl.
  assert (Hc : length (corrupt_header data) = length data) by (apply length_corrupt_header; lia).
  rewrite <- Hc in Hm. pose proof (proj1 (read_bytes_eq m off (corrupt_header data)) Hm) as Hi.
  apply read_bytes_eq. intros i Hlt. rewrite (Hp _). unfold programmed.
  rewrite Hi by lia. unfold corrupt_header.
  rewrite at_splice by (rewrite length_le_bytes; unfold image_size_offset; lia).
  rewrite !length_le_bytes.
  destruct (in_range _ _ _) eqn:E; unfold image_size_offset in *.
  - apply in_range_spec in E.
    replace (_ && _) with true by (symmetry; apply andb_true_iff;
      rewrite Nat.leb_le, Nat.ltb_lt; lia).
    replace (off + Z.of_nat i - (off + Z.of_nat 808)) with (Z.of_nat (i - 808)) by lia.
    rewrite at_le_bytes_land by lia. rewrite size_top_land by lia. rewrite <- Hf.
    unfold at_, sub. rewrite !Nat2Z.id, nth_firstn, nth_skipn.
    destruct (Nat.ltb_spec (i - 808) 4); [f_equal; lia|lia].
  - apply in_range_false in E.
    replace (_ && _) with false; [done|]. symmetry. apply andb_false_iff.
    rewrite Nat.leb_gt, Nat.ltb_ge. lia.
Qed.

(** ** The header is held back until the update is turned on *)

Section Round.
Context {F : Type} `{!FlashDev F} `{!FlashDevLaws F} `{!UpgradeHw F} `{!UpgradeHwLaws F}.
Variable ro_copy rw_copy : system_image_copy_t.

Abbreviation main u := (flash_main (dev u)).

(** A block that is written is read back. *)
Lemma write_block_stored off data (u u' : upgrade F) :
  0 <= off <= FLASH_SIZE -> write_block off data u = (UPGRADE_SUCCESS, u') ->
  read_bytes (main u') off (length data) = data.
Proof.
  intros Ho. unfold write_block, bind at 1, gets at 1. cbn zeta.
  set (opened := if _ <? _ then on_dev (flash_open_ro_window _ _) else ret tt).
  set (closed := if _ <? _ then on_dev flash_close_ro_window else ret tt).
  unfold bind at 1. destruct (opened u) as [[] u1].
  unfold bind at 1. destruct (on_dev _ u1) as [rv u2].
  unfold bind at 1. destruct (closed u2) as [[] u3].
  destruct (nz rv); [done|]. unfold bind at 1.
  destruct (new_chunk_written off u3) as [[] u4]. unfold bind, gets, ret. cbn zeta.
  rewrite u32_mapped by done. intros E. injection E as E <-.
  destruct (mem_eq _ _) eqn:Em; [|done]. by apply mem_eq_true in Em.
Qed.

Lemma write_block_code off data (u u' : upgrade F) e :
  write_block off data u = (e, u') -> e <> UPGRADE_RATE_LIMIT_ERROR.
Proof.
  unfold write_block, bind at 1, gets at 1. cbn zeta.
  unfold bind at 1. destruct ((if _ <? _ then on_dev (flash_open_ro_window _ _) else ret tt) u) as [[] u1].
  unfold bind at 1. destruct (on_dev _ u1) as [rv u2].
  unfold bind at 1. destruct ((if _ <? _ then _ else ret tt) u2) as [[] u3].
  destruct (nz rv); [unfold ret; intros E; by simplify_eq|]. unfold bind at 1.
  destruct (new_chunk_written off u3) as [[] u4]. unfold bind, gets, ret.
  destruct (mem_eq _ _); intros E; by simplify_eq.
Qed.

(** The size field of the stored header. *)
Lemma stored_old_size (u : upgrade F) base data :
  bytes data -> (sizeof_SignedHeader <= length data)%nat -> size_of data <= RW_SIZE ->
  read_bytes (main u) base (length data) = corrupt_header data ->
  image_size (header_at (main u) (PROGRAM_MEMORY_BASE + base)) =
  Z.lor (size_of data) TOP_IMAGE_SIZE_BIT.
Proof.
  intros Hb Hl Hs E. rewrite <- size_field_corrupt by done. rewrite <- E.
  unfold sizeof_SignedHeader, image_size_offset in *.
  rewrite sub_read_bytes by lia. unfold header_at. cbn [image_size header_of_bytes].
  replace (PROGRAM_MEMORY_BASE + base - PROGRAM_MEMORY_BASE) with base by lia.
  unfold image_size_offset. by rewrite sub_read_bytes by (unfold sizeof_SignedHeader; lia).
Qed.

(** A refusal has the code of an error of its own. *)
Lemma contents_allowed_code off size data (u u' : upgrade F) e :
  contents_allowed ro_copy rw_copy off size data u = (Some e, u') ->
  e <> UPGRADE_SUCCESS /\ e <> UPGRADE_RATE_LIMIT_ERROR.
Proof.
  unfold contents_allowed, bind at 1, gets.
  destruct (_ =? ro_base_offset _); [|destruct (_ =? rw_base_offset _)];
    [..|destruct (overlaps_header _ _ _); unfold ret; intros E; by simplify_eq];
    unfold bind at 1, current_header, gets, ret;
    (destruct (size <? _); [intros E; by simplify_eq|]);
    (destruct (new_is_older _ _); [intros E; by simplify_eq|]); [done|].
  unfold bind. destruct (on_dev _ u) as [m u1].
  destruct (nz m); intros E; by simplify_eq.
Qed.

(** What an accepted header block leaves in the flash. *)
Lemma header_block_stored base data data' (u u' : upgrade F) :
  sections_ok ro_copy rw_copy (valid_sections u) -> 0 <= base ->
  base = ro_base_offset (valid_sections u) \/ base = rw_base_offset (valid_sections u) ->
  base + Z.of_nat (length data) < 2 ^ 32 ->
  update_block ro_copy rw_copy base (Z.of_nat (length data)) data u =
    ((UPGRADE_SUCCESS, data'), u') ->
  read_bytes (main u') base (length data) = corrupt_header data /\
  (sizeof_SignedHeader <= length data)%nat /\
  base + Z.of_nat sizeof_SignedHeader <= FLASH_SIZE.
Proof.
  intros Hs H0 Hbase Hw. unfold update_block, bind at 1.
  assert (Hd : (base =? ro_base_offset (valid_sections u))
    || (base =? rw_base_offset (valid_sections u)) = true)
    by (apply orb_true_iff; rewrite !Z.eqb_eq; tauto).
  pose proof (contents_allowed_logged ro_copy rw_copy base (Z.of_nat (length data)) data u)
    as [V1 _].
  pose proof (fun u' => contents_allowed_header ro_copy rw_copy base (Z.of_nat (length data))
    data u u') as Hh.
  destruct (contents_allowed _ _ _ _ _ u) as [[e|] u1] eqn:Ec; cbn [snd] in V1.
  { unfold ret. intros E. simplify_eq. by apply contents_allowed_code in Ec as []. }
  specialize (Hh u1 eq_refl Hd). unfold bind at 1. rewrite <- V1 in Hs, Hd.
  pose proof (check_update_chunk_confined ro_copy rw_copy base (Z.of_nat (length data)) u1 Hs)
    as [V2 _].
  pose proof (fun u' => check_update_chunk_range ro_copy rw_copy base (Z.of_nat (length data))
    u1 u' Hs H0 (Zle_0_nat _) Hw) as Hr.
  destruct (check_update_chunk _ _ u1) as [e2 u2]. cbn [snd] in V2.
  destruct (nz e2) eqn:Ee; [unfold ret; intros E; by simplify_eq|]. apply nz_false in Ee. subst e2.
  assert (Hl : base + Z.of_nat (length data) <= FLASH_SIZE)
    by (destruct (Hr u2 eq_refl); lia).
  unfold bind at 1. pose proof (too_soon_unchanged base u2) as [V3 _].
  destruct (chunk_came_too_soon _ u2) as [soon u3]. cbn [snd] in V3.
  destruct soon; [unfold ret; intros E; by simplify_eq|]. unfold bind at 1, gets at 1.
  rewrite V3, V2, Hd. destruct (_ <? _); [unfold ret; intros E; by simplify_eq|]. cbn zeta.
  unfold bind at 1. destruct (write_block _ _ u3) as [e u4] eqn:Ew.
  unfold ret. intros E. simplify_eq. unfold sizeof_SignedHeader in *.
  apply write_block_stored in Ew; [|lia].
  rewrite length_corrupt_header in Ew by lia. split; [done|]. lia.
Qed.

(** An update is all or nothing for the boot ROM: the header block that is accepted
    is in the flash with the size bit that keeps the image from running, and the
    header that is turned on later is, byte for byte, the one the host sent. *)
Theorem header_round_trip base data data' (u u1 u2 : upgrade F) r :
  sections_ok ro_copy rw_copy (valid_sections u) -> 0 <= base -> bytes data ->
  base = ro_base_offset (valid_sections u) \/ base = rw_base_offset (valid_sections u) ->
  base + Z.of_nat (length data) < 2 ^ 32 -> image_size (header_of_bytes data) <= RW_SIZE ->
  update_block ro_copy rw_copy base (Z.of_nat (length data)) data u =
    ((UPGRADE_SUCCESS, data'), u1) ->
  header_restored base u1 = (r, u2) ->
  image_size (header_at (main u1) (PROGRAM_MEMORY_BASE + base)) =
    image_size (header_of_bytes data) + TOP_IMAGE_SIZE_BIT /\
  (r = 1 -> read_bytes (main u2) base (length data) = data).
Proof.
  intros Hs H0 Hb Hbase Hw Hsz E1 E2.
  destruct (header_block_stored _ _ _ _ _ Hs H0 Hbase Hw E1) as (Hst & Hl & Hfit).
  pose proof (stored_old_size u1 base data Hb Hl Hsz Hst) as Hold.
  pose proof (size_of_nonneg data Hb).
  split; [by rewrite Hold, size_with_top|]. intros ->.
  destruct (header_restored_cases _ _ _ _ H0 Hfit E2) as [_ [?|(_ & _ & Hp)]]; [done|].
  rewrite Hold, size_top_cleared in Hp by done.
  exact (restored_read _ _ base data Hb Hl Hsz Hst Hp).
Qed.

(** ** The pacing of the blocks *)

(** A known section starts at [base] and ends at [top]. *)
Definition section (s : valid_sections_t) (base top : Z) : Prop :=
  top <> 0 /\ (base = ro_base_offset s /\ top = ro_top_offset s \/
               base = rw_base_offset s /\ top = rw_top_offset s).

Lemma section_erased base top (u u' : upgrade F) f' :
  0 <= base <= top -> top <= FLASH_SIZE ->
  flash_physical_erase base (u32 (top - base)) (dev u) = (EC.SUCCESS, f') ->
  same_flash f' (dev u') -> forall a, base <= a < top -> main u' a = 255.
Proof.
  intros Hb Ht E [Hm _] a Ha. change FLASH_SIZE with 524288 in Ht.
  rewrite uN_small in E by lia.
  destruct (flash_erase_ok base (top - base) (dev u) f') as [He _];
    [lia|lia|change FLASH_SIZE with 524288; lia|exact E|].
  rewrite (Hm a), (He a). unfold erased.
  assert (R : in_range base (top - base) a = true) by (apply in_range_spec; lia).
  by rewrite R.
Qed.

(** The RO and the RW section do not overlap. *)
Lemma sections_apart s :
  sections_ok ro_copy rw_copy s -> rw_top_offset s <> 0 -> ro_top_offset s <> 0 ->
  ro_top_offset s < rw_base_offset s \/ rw_top_offset s < ro_base_offset s.
Proof.
  intros [[?|[Ro Tr]] [?|[Rw Tw]]] H1 H2; [done..|].
  rewrite Tr, Tw. change MAX_RO_CODE_SIZE with 12288. change RW_SIZE with 233472.
  destruct Ro as [[_ ->]|[_ ->]], Rw as [[_ ->]|[_ ->]];
    change RO_B_MEM_OFF with 262144; change RO_MEM_OFF with 0;
    change RW_B_MEM_OFF with 278528; change RW_MEM_OFF with 16384; lia.
Qed.

(** The first block of a section erases it. *)
Lemma check_update_chunk_erases base top size (u u' : upgrade F) rv :
  sections_ok ro_copy rw_copy (valid_sections u) -> section (valid_sections u) base top ->
  0 <= base -> 0 <= size -> base + size < 2 ^ 32 ->
  check_update_chunk base size u = (rv, u') ->
  rv <> UPGRADE_RATE_LIMIT_ERROR /\
  (rv = UPGRADE_SUCCESS -> forall a, base <= a < top -> main u' a = 255).
Proof.
  intros Hs [Ht Hsec] H0 H1 Hw. unfold check_update_chunk, bind at 1, gets. cbn zeta.
  pose proof (rw_section _ _ _ Hs) as Hrw. pose proof (ro_section _ _ _ Hs) as Hro.
  set (s := valid_sections u) in *. rewrite (uN_small 32 (base + size)) by lia.
  destruct (nz (rw_top_offset s) && _ && _) eqn:Erw.
  { apply andb_prop in Erw as [Erw E3]. apply andb_prop in Erw as [E1 E2].
    apply nz_true in E1. apply Z.leb_le in E2, E3. destruct (Hrw E1) as (B & T & L).
    assert (base = rw_base_offset s /\ top = rw_top_offset s) as [-> ->].
    { destruct Hsec as [[-> ->]|?]; [exfalso|done]. destruct (Hro Ht) as (B' & T' & L').
      change MAX_RO_CODE_SIZE with 12288 in T'.
      destruct (sections_apart s Hs E1 Ht); lia. }
    rewrite Z.eqb_refl. unfold bind, on_dev.
    destruct (flash_physical_erase _ _ (dev u)) as [e f'] eqn:E. unfold ret.
    intros [= <- <-]. destruct (nz e) eqn:Ee; [done|]. apply nz_false in Ee as ->.
    split; [done|]. intros _. by apply (section_erased _ _ u (set_dev f' u) f'); [lia|lia|exact E|]. }
  destruct (nz (ro_top_offset s) && _ && _) eqn:Ero; [|unfold ret; intros E; by simplify_eq].
  apply andb_prop in Ero as [Ero E3]. apply andb_prop in Ero as [E1 E2].
  apply nz_true in E1. apply Z.leb_le in E2, E3. destruct (Hro E1) as (B & T & L).
  assert (base = ro_base_offset s /\ top = ro_top_offset s) as [-> ->].
  { destruct Hsec as [?|[-> ->]]; [done|exfalso]. destruct (Hrw Ht) as (B' & T' & L').
    change RW_SIZE with 233472 in T'. destruct (sections_apart s Hs Ht E1); [lia|].
    apply nz_true in Ht. rewrite Ht, Z.leb_refl in Erw. cbn [andb] in Erw.
    apply Z.leb_gt in Erw. lia. }
  rewrite Z.eqb_refl. unfold bind at 1.
  pose proof (open_unchanged (ro_base_offset s) (u32 (ro_top_offset s - ro_base_offset s)) u)
    as [_ U1].
  destruct (on_dev (flash_open_ro_window _ _) u) as [[] u1]. cbn [snd] in U1.
  unfold bind at 1, on_dev at 1.
  destruct (flash_physical_erase _ _ (dev u1)) as [e f'] eqn:E.
  unfold bind at 1. pose proof (close_unchanged (set_dev f' u1)) as [_ U2].
  destruct (on_dev flash_close_ro_window (set_dev f' u1)) as [[] u2]. unfold ret.
  intros [= <- <-]. destruct (nz e) eqn:Ee; [done|]. apply nz_false in Ee as ->.
  split; [done|]. intros _. change MAX_RO_CODE_SIZE with 12288 in T.
  by apply (section_erased _ _ u1 u2 f'); [lia|lia|exact E|].
Qed.

(** The pacing does not protect the image being replaced: the first block of a
    section that is refused because it came too soon has had the section erased. *)
Theorem rate_limited_header_erases base top data data' (u u' : upgrade F) :
  sections_ok ro_copy rw_copy (valid_sections u) -> section (valid_sections u) base top ->
  0 <= base -> base + Z.of_nat (length data) < 2 ^ 32 ->
  update_block ro_copy rw_copy base (Z.of_nat (length data)) data u =
    ((UPGRADE_RATE_LIMIT_ERROR, data'), u') ->
  forall a, base <= a < top -> main u' a = 255.
Proof.
  intros Hs Hsec H0 Hw. unfold update_block, bind at 1.
  pose proof (contents_allowed_logged ro_copy rw_copy base (Z.of_nat (length data)) data u)
    as [V1 _].
  destruct (contents_allowed _ _ _ _ _ u) as [[e|] u1] eqn:Ec; cbn [snd] in V1.
  { unfold ret. intros E. simplify_eq. by apply contents_allowed_code in Ec as []. }
  unfold bind at 1. rewrite <- V1 in Hs, Hsec.
  destruct (check_update_chunk _ _ u1) as [e2 u2] eqn:E2.
  destruct (check_update_chunk_erases _ _ _ _ _ _ Hs Hsec H0 (Zle_0_nat _) Hw E2) as [Hc He].
  destruct (nz e2) eqn:Ee; [unfold ret; intros E; by simplify_eq|]. apply nz_false in Ee.
  unfold bind at 1. pose proof (too_soon_unchanged base u2) as [_ [M3 _]].
  destruct (chunk_came_too_soon _ u2) as [soon u3]. cbn [snd] in M3. destruct soon.
  - unfold ret. intros E a Ha. simplify_eq. rewrite (M3 a). by apply He.
  - unfold bind at 1, gets at 1. destruct (_ || _).
    + destruct (_ <? _); [unfold ret; intros E; by simplify_eq|]. cbn zeta.
      unfold bind, ret. destruct (write_block _ _ u3) as [e u4] eqn:Ew.
      intros E. simplify_eq. by apply write_block_code in Ew.
    + unfold bind, ret. destruct (write_block _ _ u3) as [e u4] eqn:Ew.
      intros E. simplify_eq. by apply write_block_code in Ew.
Qed.
End Round.

(** ** Examples *)

Abbreviation toy_update :=
  (update_block SYSTEM_IMAGE_RO SYSTEM_IMAGE_RW RW_B_MEM_OFF (Z.of_nat (length toy_block))
     toy_block).

Example header_round_trip_witness :
  let u := mkUp (board_flash (fun _ => 255)) toy_sections 0 0 1 None in
  let u1 := (toy_update u).2 in let '(r, u2) := header_restored RW_B_MEM_OFF u1 in
  image_size (header_at (flash_main (dev u1)) (PROGRAM_MEMORY_BASE + RW_B_MEM_OFF)) =
    0x80001000 /\
  r = 1 /\ read_bytes (flash_main (dev u2)) RW_B_MEM_OFF 1024 = toy_block.
Proof.
  intros u u1. destruct (header_restored RW_B_MEM_OFF u1) as [r u2] eqn:E2.
  assert (E1 : toy_update u = ((UPGRADE_SUCCESS, (toy_update u).1.2), u1)).
  { assert (He : (toy_update u).1.1 = UPGRADE_SUCCESS) by (vm_compute; reflexivity).
    unfold u1. rewrite <- He. by destruct (toy_update u) as [[e d] u']. }
  assert (Hr : (header_restored RW_B_MEM_OFF u1).1 = 1) by (vm_compute; reflexivity).
  rewrite E2 in Hr. cbn [fst] in Hr.
  assert (H0 : 0 <= RW_B_MEM_OFF) by by vm_compute.
  assert (Hw : RW_B_MEM_OFF + Z.of_nat (length toy_block) < 2 ^ 32) by by vm_compute.
  assert (Hsize : image_size (header_of_bytes toy_block) <= RW_SIZE) by by vm_compute.
  pose proof (header_round_trip SYSTEM_IMAGE_RO SYSTEM_IMAGE_RW RW_B_MEM_OFF toy_block
    (toy_update u).1.2 u u1 u2 r toy_sections_ok H0 toy_block_bytes (or_intror eq_refl) Hw Hsize
    E1 E2) as [Hsz Hd].
  split; [exact Hsz|]. split; [exact Hr|]. exact (Hd Hr).
Defined.

(** The same block twice. *)
Example rate_limited_header_erases_witness :
  let u := mkUp (board_flash (fun _ => 255)) toy_sections 0 RW_B_MEM_OFF 61000000 None in
  let '((e, _), u') := toy_update u in
  e = UPGRADE_RATE_LIMIT_ERROR /\ flash_main (dev u') RW_B_MEM_OFF = 255.
Proof.
  intros u. destruct (toy_update u) as [[e data'] u'] eqn:E.
  assert (He : (toy_update u).1.1 = UPGRADE_RATE_LIMIT_ERROR) by (vm_compute; reflexivity).
  rewrite E in He. cbn [fst] in He. split; [exact He|]. rewrite He in E.
  assert (H0 : 0 <= RW_B_MEM_OFF) by by vm_compute.
  assert (Hw : RW_B_MEM_OFF + Z.of_nat (length toy_block) < 2 ^ 32) by by vm_compute.
  assert (Hsec : section (valid_sections u) RW_B_MEM_OFF (RW_B_MEM_OFF + RW_SIZE))
    by (split; [discriminate|right; split; reflexivity]).
  pose proof (rate_limited_header_erases SYSTEM_IMAGE_RO SYSTEM_IMAGE_RW RW_B_MEM_OFF
    (RW_B_MEM_OFF + RW_SIZE) toy_block data' u u' toy_sections_ok Hsec H0 Hw E) as Hm.
  exact (Hm RW_B_MEM_OFF (conj (Z.le_refl _) eq_refl)).
Defined.
