(* ===== verification/UpgradeWrap.v ===== *)
(** * Firmware update: the block whose end wraps

    The bounds of a block are checked on 32 bits, its offset reaches the flash driver as
    a signed number, and the controller keeps 16 bits of the word's offset. *)

From S2P Require Import Prelude Vendor Flash FlashProps FlashOps BoardId BoardProps Upgrade UpgradeProps UpgradeRound.

Section Wrapped.
Context {H : Type} `{!FlashController H} `{!FlashControllerLaws H}
  `{!UpgradeHw (flash H)} `{!UpgradeHwLaws (flash H)}.
Variable ro_copy rw_copy : system_image_copy_t.

Abbreviation main u := (main_array (hw (dev u))).

(** A number of words that is one batch. *)
Definition one_batch (k : Z) : Prop := 0 < k <= FLASH_WRITE_IDEAL_SIZE /\ k mod 4 = 0.

(** The words before the start of the flash are those before its middle. *)
Lemma field_before_start n : (1 <= n <= 32)%nat ->
  4 * Z.land (Z.quot (- (4 * Z.of_nat n)) 4) 0xffff = FLASH_HALF - 4 * Z.of_nat n.
Proof.
  intros Hn. change 0xffff with (Z.ones 16). rewrite Z.land_ones, Z.quot_opp_l by lia.
  replace (Z.quot (4 * Z.of_nat n) 4) with (Z.of_nat n) by (rewrite Z.mul_comm, Z.quot_mul; lia).
  change FLASH_HALF with 262144. change (2 ^ 16) with 65536.
  rewrite <- (Z.mod_unique (- Z.of_nat n) 65536 (-1) (65536 - Z.of_nat n)) by lia. lia.
Qed.

Lemma write_before_start data (f : flash H) rv f' :
  bytes data -> one_batch (Z.of_nat (length data)) ->
  physical_write (- Z.of_nat (length data)) data f = (rv, f') -> rv = EC.SUCCESS ->
  main_array (hw f') ≡ programmed (FLASH_HALF - Z.of_nat (length data)) data
                         (main_array (hw f)).
Proof.
  intros Hb [Hk H4] E Hrv. unfold FLASH_WRITE_IDEAL_SIZE in Hk.
  set (n := Z.to_nat (Z.of_nat (length data) / 4)).
  assert (Hn : Z.of_nat (length data) = 4 * Z.of_nat n /\ (1 <= n <= 32)%nat)
    by (unfold n; Z.div_mod_to_equations; lia).
  destruct Hn as [Hlen Hn]. unfold physical_write, flash_physical_write_internal in E.
  assert (Hbs : batch_size (- Z.of_nat (length data)) (Z.of_nat (length data)) =
    Z.of_nat (length data)).
  { unfold batch_size, FLASH_ROW_SIZE, FLASH_WRITE_IDEAL_SIZE.
    rewrite Z.rem_opp_l, Z.rem_small by lia. lia. }
  assert (Hal : nz (Z.rem (- Z.of_nat (length data)) FLASH_WRITE_SIZE) = false /\
    nz (Z.rem (Z.of_nat (length data)) FLASH_WRITE_SIZE) = false).
  { unfold FLASH_WRITE_SIZE. rewrite !nz_false, Z.rem_opp_l, Z.rem_mod_nonneg by lia. lia. }
  destruct Hal as [-> ->] in E. cbn [orb] in E.
  destruct (length data) as [|fuel] eqn:El; [lia|]. cbn [write_loop] in E.
  destruct data as [|b0 rest] eqn:Ed; [done|]. rewrite <- Ed in *. rewrite El, Hbs in E.
  rewrite Hlen in *. replace (Z.quot (4 * Z.of_nat n) 4) with (Z.of_nat n) in E
    by (rewrite Z.mul_comm, Z.quot_mul; lia).
  unfold bind in E. destruct (write_batch _ _ _ _ f) as [rv1 f1] eqn:E1.
  assert (Hbo : bank_offset (- (4 * Z.of_nat n)) = - (4 * Z.of_nat n) /\
    bank (- (4 * Z.of_nat n)) = 0).
  { unfold bank_offset, bank. change FLASH_HALF with 262144.
    by destruct (Z.leb_spec 262144 (- (4 * Z.of_nat n))); [lia|]. }
  destruct Hbo as [Hbo Hb0]. pose proof (field_before_start n Hn) as Hf.
  destruct (batch_at false (- (4 * Z.of_nat n)) (FLASH_HALF - 4 * Z.of_nat n) n data f rv1 f1)
    as [_ Hd]; [done..|lia| | |exact E1|].
  - rewrite Hbo, Hf. change FLASH_HALF with 262144. unfold FLASH_ROW_SIZE.
    Z.div_mod_to_equations. lia.
  - rewrite Hbo, Hf, Hb0. lia.
  - destruct (nz rv1) eqn:Ev; [unfold ret in E; simplify_eq; apply nz_true in Ev; done|].
    apply nz_false in Ev. destruct (Hd Ev) as [Hm _].
    rewrite take_ge in Hm by lia.
    assert (f' = f1) as ->; [|exact Hm].
    destruct fuel as [|fuel]; cbn [write_loop] in E; [unfold ret in E; by simplify_eq|].
    rewrite drop_ge in E by lia. unfold ret in E. by simplify_eq.
Qed.

(** The offset of the wrapped block against the known sections. *)
Lemma wrapped_offset s k :
  0 < k <= 128 -> ro_copy = SYSTEM_IMAGE_RO -> sections_ok ro_copy rw_copy s ->
  ro_top_offset s <> 0 -> rw_top_offset s <> 0 ->
  (2 ^ 32 - k =? ro_base_offset s) = false /\ (2 ^ 32 - k =? rw_base_offset s) = false /\
  (2 ^ 32 - k <? ro_top_offset s) = false /\ overlaps_header s (2 ^ 32 - k) k = false /\
  nz (rw_top_offset s) && (rw_base_offset s <=? 2 ^ 32 - k)
    && (u32 (2 ^ 32 - k + k) <=? rw_top_offset s) = true.
Proof.
  intros K -> Hs Hro Hrw.
  destruct (rw_section _ _ _ Hs Hrw) as (W1 & W2 & W3).
  destruct (ro_section _ _ _ Hs Hro) as (R1 & R2 & R3).
  assert (Hrob : ro_base_offset s = 262144)
    by (destruct Hs as [[?|[[[_ ->]|[? _]] _]] _]; done).
  assert (Hrwb : 16384 <= rw_base_offset s).
  { destruct Hs as [_ [?|[[[_ ->]|[_ ->]] _]]]; [done|by vm_compute..]. }
  change RW_SIZE with 233472 in W2. change FLASH_SIZE with 524288 in *.
  replace (2 ^ 32 - k + k) with (2 ^ 32) by lia. change (u32 (2 ^ 32)) with 0.
  unfold overlaps_header. replace (2 ^ 32 - k + k) with (2 ^ 32) by lia.
  change (u32 (2 ^ 32)) with 0. cbn [existsb].
  rewrite !(uN_small 32 (_ + Z.of_nat sizeof_SignedHeader))
    by (unfold sizeof_SignedHeader; lia).
  unfold sizeof_SignedHeader.
  split_and!; try (apply Z.eqb_neq; lia); try (apply Z.ltb_ge; lia).
  - rewrite !orb_false_iff, !andb_false_iff, !Z.leb_gt, !Z.ltb_ge. lia.
  - rewrite !andb_true_iff, !Z.leb_le, nz_true. lia.
Qed.

Lemma paced off (u : upgrade (flash H)) :
  BACKOFF_TIME < u64 ((get_time (dev u)).1 - prev_timestamp u) ->
  (chunk_came_too_soon off u).1 = false.
Proof.
  intros Ht. unfold chunk_came_too_soon, bind, on_dev, gets, modify.
  destruct (get_time (dev u)) as [now f]. cbn [fst] in Ht. cbn [id prev_timestamp set_dev].
  apply Z.ltb_lt in Ht. by rewrite Ht.
Qed.

Lemma wrapped_write data (u u' : upgrade (flash H)) e :
  let k := Z.of_nat (length data) in
  bytes data -> one_batch k -> (2 ^ 32 - k <? ro_top_offset (valid_sections u)) = false ->
  write_block (2 ^ 32 - k) data u = (e, u') ->
  e ∈ [UPGRADE_SUCCESS; UPGRADE_WRITE_FAILURE; UPGRADE_VERIFY_ERROR] /\
  (e <> UPGRADE_WRITE_FAILURE ->
   main u' ≡ programmed (FLASH_HALF - k) data (main u)).
Proof.
  intros k Hb Hk N E. assert (K : 0 < k <= 128) by apply Hk.
  unfold write_block, bind at 1, gets in E. rewrite N in E.
  assert (Hi : i32 (2 ^ 32 - k) = - k).
  { unfold i32. rewrite <- (Z.mod_unique (2 ^ 32 - k + 2 ^ 31) (2 ^ 32) 1 (2 ^ 31 - k)); lia. }
  rewrite Hi in E. unfold bind at 1, ret at 1, bind at 1, on_dev in E. cbn zeta in E.
  destruct (flash_physical_write (- k) data (dev u)) as [rv f'] eqn:Ew.
  unfold bind at 1, ret at 1 in E. destruct (nz rv) eqn:Erv.
  { unfold ret in E. simplify_eq. split; [|done]. repeat constructor. }
  apply nz_false in Erv. unfold bind at 1 in E.
  pose proof (new_chunk_unchanged (2 ^ 32 - k) (set_dev f' u)) as [_ [M _]].
  destruct (new_chunk_written _ _) as [[] u2]. cbn [snd] in M. unfold bind, ret in E.
  assert (Hm : main u2 ≡ programmed (FLASH_HALF - k) data (main u)).
  { etrans; [exact M|]. by apply (write_before_start data (dev u) rv f'). }
  destruct (mem_eq _ _); simplify_eq; (split; [repeat constructor|done]).
Qed.

(** C32. The bounds check of a block does not keep it inside of the flash. While RO_A runs, a
    block of whole words, at most one batch of 128 bytes, that ends exactly where the 32-bit
    addresses wrap is accepted, and once its pacing allows it its data is programmed just
    before the middle of the flash, where the NVRAM of the running firmware is, and not in any
    image. *)
Theorem wrapped_block_programs_nvram data data' (u u' : upgrade (flash H)) e :
  let s := valid_sections u in let k := Z.of_nat (length data) in
  bytes data -> one_batch k ->
  ro_copy = SYSTEM_IMAGE_RO -> sections_ok ro_copy rw_copy s ->
  ro_top_offset s <> 0 -> rw_top_offset s <> 0 ->
  BACKOFF_TIME < u64 ((get_time (dev u)).1 - prev_timestamp u) ->
  update_block ro_copy rw_copy (2 ^ 32 - k) k data u = ((e, data'), u') ->
  e ∈ [UPGRADE_SUCCESS; UPGRADE_WRITE_FAILURE; UPGRADE_VERIFY_ERROR] /\
  (e <> UPGRADE_WRITE_FAILURE ->
   main u' ≡ programmed (FLASH_HALF - k) data (main u)).
Proof.
  intros s k Hb Hk Hc Hs Hro Hrw Ht.
  destruct (wrapped_offset s k (proj1 Hk) Hc Hs Hro Hrw) as (N1 & N2 & N3 & N4 & N5).
  unfold update_block, bind at 1, contents_allowed, bind at 1, gets. fold s.
  rewrite N1, N2, N4. cbv beta iota delta [ret].
  unfold bind at 1, check_update_chunk, bind at 1, gets. fold s. rewrite N5, N2.
  cbv beta iota delta [ret]. change (nz UPGRADE_SUCCESS) with false. cbv beta iota.
  unfold bind at 1. pose proof (paced (2 ^ 32 - k) u Ht) as Hp.
  pose proof (too_soon_unchanged (2 ^ 32 - k) u) as [V1 [M1 _]].
  destruct (chunk_came_too_soon _ u) as [soon u1]. cbn [fst snd] in *. subst soon.
  unfold bind at 1. rewrite V1. fold s. rewrite N1, N2. cbn [orb].
  unfold bind at 1. destruct (write_block _ _ u1) as [e1 u2] eqn:Ew. unfold ret. intros E. simplify_eq.
  assert (N3' : (2 ^ 32 - k <? ro_top_offset (valid_sections u1)) = false) by (by rewrite V1).
  destruct (wrapped_write _ _ _ _ Hb Hk N3' Ew) as [He Hm].
  split; [exact He|]. intros Hn. etrans; [by apply Hm|].
  intros a. pose proof (M1 a) as Ha. cbn in Ha. unfold programmed.
  by destruct (in_range _ _ a); rewrite Ha.
Qed.
End Wrapped.

(** ** Example *)

(** A minute after the last write. *)
Abbreviation waiting := (mkUp (board_flash (fun _ => 255)) toy_sections 0 0 1).

Abbreviation wrapped_data := [1; 2; 3; 4; 5; 6; 7; 8].
Abbreviation wrapped_update :=
  (update_block SYSTEM_IMAGE_RO SYSTEM_IMAGE_RW (2 ^ 32 - Z.of_nat (length wrapped_data))
     (Z.of_nat (length wrapped_data)) wrapped_data).

Example wrapped_block_programs_nvram_witness :
  let '((e, _), u') := wrapped_update (waiting None) in
  read_bytes (flash_main (dev u')) (FLASH_HALF - 8) 8 = [1; 2; 3; 0; 1; 2; 3; 0].
Proof.
  destruct (wrapped_update (waiting None)) as [[e data'] u'] eqn:E.
  assert (He : e <> UPGRADE_WRITE_FAILURE).
  { assert (Hc : (wrapped_update (waiting None)).1.1 = e) by (rewrite E; reflexivity).
    rewrite <- Hc. vm_compute. discriminate. }
  assert (Hb : bytes wrapped_data) by (repeat constructor; unfold is_byte; lia).
  assert (Hk : one_batch (Z.of_nat (length wrapped_data)))
    by (split; [split; [reflexivity|discriminate]|reflexivity]).
  assert (Ht : BACKOFF_TIME < u64 ((get_time (dev (waiting None))).1 -
    prev_timestamp (waiting None))) by (vm_compute; reflexivity).
  assert (Hro : ro_top_offset (valid_sections (waiting None)) <> 0) by discriminate.
  assert (Hrw : rw_top_offset (valid_sections (waiting None)) <> 0) by discriminate.
  pose proof (wrapped_block_programs_nvram SYSTEM_IMAGE_RO SYSTEM_IMAGE_RW wrapped_data data'
    (waiting None) u' e Hb Hk eq_refl toy_sections_ok Hro Hrw Ht E) as [_ Hm].
  transitivity (read_bytes (programmed (FLASH_HALF - 8) wrapped_data (fun _ => 0x33))
    (FLASH_HALF - 8) 8); [|vm_compute; reflexivity].
  apply map_ext. intros i. exact (Hm He _).
Defined.
