(* ===== verification/Shmalloc.v ===== *)
(** * The shared memory allocator (common/shmalloc.c)

    Each buffer, free or allocated, starts with a header that links it into a chain; the
    headers are in the memory that is handed out.  [hdrs] holds the headers by address,
    [ram] the bytes of the buffers.  The lock makes each operation one step.  Addresses do
    not wrap. *)

From S2P Require Import Prelude.

Definition NULL : Z := 0.

Record shm_buffer := mkBuf { next_buffer : Z; prev_buffer : Z; buffer_size : Z }.

Definition sizeof_shm_buffer : Z := 12.
Definition sizeof_int : Z := 4.

Record shmem := mkShm {
  hdrs : gmap Z shm_buffer;
  ram : Z -> Z;
  free_buf_chain : Z;
  allocced_buf_chain : Z;
  max_allocated_size : Z
}.

(** The header at an address; memory that holds none reads as anything. *)
Definition hdr (s : shmem) (a : Z) : shm_buffer :=
  match hdrs s !! a with Some b => b | None => mkBuf 0 0 0 end.

Definition set_hdr (a : Z) (b : shm_buffer) (s : shmem) : shmem :=
  mkShm (<[a := b]> (hdrs s)) (ram s) (free_buf_chain s) (allocced_buf_chain s)
    (max_allocated_size s).

(** [a->next_buffer = v] and the like *)
Definition set_next (a v : Z) (s : shmem) : shmem :=
  set_hdr a (mkBuf v (prev_buffer (hdr s a)) (buffer_size (hdr s a))) s.
Definition set_prev (a v : Z) (s : shmem) : shmem :=
  set_hdr a (mkBuf (next_buffer (hdr s a)) v (buffer_size (hdr s a))) s.
Definition set_size (a v : Z) (s : shmem) : shmem :=
  set_hdr a (mkBuf (next_buffer (hdr s a)) (prev_buffer (hdr s a)) v) s.

Definition set_free_chain (a : Z) (s : shmem) : shmem :=
  mkShm (hdrs s) (ram s) a (allocced_buf_chain s) (max_allocated_size s).
Definition set_allocced_chain (a : Z) (s : shmem) : shmem :=
  mkShm (hdrs s) (ram s) (free_buf_chain s) a (max_allocated_size s).

(** The memory is one free buffer. *)
Definition shared_mem_init (buf ram_end : Z) (s : shmem) : shmem :=
  let s := set_free_chain buf s in
  let s := set_next buf NULL s in
  let s := set_prev buf NULL s in
  set_size buf (u32 (ram_end - buf)) s.

(** A chain has at most as many buffers as there are headers. *)
Definition chain_fuel (s : shmem) : nat := S (size (hdrs s)).

(** ** Releasing *)

Fixpoint on_chain (fuel : nat) (s : shmem) (pfb ptr : Z) : bool :=
  match fuel with
  | O => false
  | S fuel =>
      if pfb =? NULL then false
      else if pfb =? ptr then true
      else on_chain fuel s (next_buffer (hdr s pfb)) ptr
  end.

(** Takes [ptr] out of the chain of allocated buffers, when it is there. *)
Definition take_allocced (ptr : Z) (s : shmem) : option shmem :=
  if ptr =? allocced_buf_chain s then
    let next := next_buffer (hdr s ptr) in
    let s := if nz next then set_prev next NULL s else s in
    Some (set_allocced_chain (next_buffer (hdr s ptr)) s)
  else if on_chain (chain_fuel s) s (next_buffer (hdr s (allocced_buf_chain s))) ptr then
    let s := set_next (prev_buffer (hdr s ptr)) (next_buffer (hdr s ptr)) s in
    let next := next_buffer (hdr s ptr) in
    Some (if nz next then set_prev next (prev_buffer (hdr s ptr)) s else s)
  else None.

(** The last free buffer below [ptr]. *)
Fixpoint find_below (fuel : nat) (s : shmem) (pfb ptr : Z) : Z :=
  match fuel with
  | O => pfb
  | S fuel =>
      let next := next_buffer (hdr s pfb) in
      if nz next && (next <? ptr) then find_below fuel s next ptr else pfb
  end.

(** Links [ptr] to the buffer that follows it. *)
Definition link_next (ptr : Z) (s : shmem) : shmem :=
  let next := next_buffer (hdr s ptr) in
  if nz next then set_prev next ptr s else s.

(** The chain of free buffers is empty. *)
Definition put_alone (ptr released_size : Z) (s : shmem) : shmem :=
  let s := set_free_chain ptr s in
  let s := set_size ptr released_size s in
  let s := set_next ptr NULL s in
  set_prev ptr NULL s.

(** The buffer is below all the free ones. *)
Definition put_first (ptr released_size : Z) (s : shmem) : shmem :=
  let s :=
    if ptr + released_size =? free_buf_chain s then
      let s := set_size ptr (u32 (buffer_size (hdr s (free_buf_chain s)) + released_size)) s in
      set_next ptr (next_buffer (hdr s (free_buf_chain s))) s
    else
      let s := set_size ptr released_size s in
      let s := set_next ptr (free_buf_chain s) s in
      set_prev (free_buf_chain s) ptr s in
  let s := link_next ptr s in
  let s := set_prev ptr NULL s in
  set_free_chain ptr s.

(** It ends the gap after [pfb], and may be all of the gap. *)
Definition put_into (pfb ptr released_size : Z) (s : shmem) : shmem :=
  let s := set_size pfb (u32 (buffer_size (hdr s pfb) + released_size)) s in
  if ptr + released_size =? next_buffer (hdr s pfb) then
    let s := set_size pfb (u32 (buffer_size (hdr s pfb)
                                + buffer_size (hdr s (next_buffer (hdr s pfb))))) s in
    let s := set_next pfb (next_buffer (hdr s (next_buffer (hdr s pfb)))) s in
    link_next pfb s
  else s.

(** It is somewhere after [pfb], perhaps right below the next one. *)
Definition put_after (pfb ptr released_size : Z) (s : shmem) : shmem :=
  let s :=
    if ptr + released_size =? next_buffer (hdr s pfb) then
      let s := set_size ptr (u32 (released_size
                                  + buffer_size (hdr s (next_buffer (hdr s pfb))))) s in
      set_next ptr (next_buffer (hdr s (next_buffer (hdr s pfb)))) s
    else
      let s := set_next ptr (next_buffer (hdr s pfb)) s in
      set_size ptr released_size s in
  let s := set_prev ptr pfb s in
  let s := set_next pfb ptr s in
  link_next ptr s.

(** Puts the released buffer into the chain of free buffers. *)
Definition put_free (ptr : Z) (s : shmem) : shmem :=
  let released_size := buffer_size (hdr s ptr) in
  if free_buf_chain s =? NULL then put_alone ptr released_size s
  else if ptr <? free_buf_chain s then put_first ptr released_size s
  else
    let pfb := find_below (chain_fuel s) s (free_buf_chain s) ptr in
    if pfb + buffer_size (hdr s pfb) =? ptr then put_into pfb ptr released_size s
    else put_after pfb ptr released_size s.

Definition do_release (ptr : Z) (s : shmem) : shmem :=
  match take_allocced ptr s with
  | None => s
  | Some s => put_free ptr s
  end.

(** ** Acquiring *)

(** The room for [size] bytes: whole integers, and a header. *)
Definition buffer_room (size : Z) : Z :=
  let size := i32 (Z.land (u32 (size + sizeof_int - 1)) (Z.lxor UINT32_MAX (sizeof_int - 1))) in
  i32 (size + sizeof_shm_buffer).

(** The free buffer that fits best, with what it leaves over. *)
Fixpoint best_fit (fuel : nat) (s : shmem) (size pfb headroom candidate : Z) : Z * Z :=
  match fuel with
  | O => (headroom, candidate)
  | S fuel =>
      if pfb =? NULL then (headroom, candidate)
      else
        let b := hdr s pfb in
        if (u32 size <=? buffer_size b) && (u32 (buffer_size b - size) <? u32 headroom)
        then best_fit fuel s size (next_buffer b) (i32 (buffer_size b - size)) pfb
        else best_fit fuel s size (next_buffer b) headroom candidate
  end.

(** The candidate leaves the chain as it is. *)
Definition take_whole (candidate : Z) (s : shmem) : shmem :=
  if candidate =? free_buf_chain s then
    let s := set_free_chain (next_buffer (hdr s candidate)) s in
    if nz (free_buf_chain s) then set_prev (free_buf_chain s) NULL s else s
  else
    let s := set_next (prev_buffer (hdr s candidate)) (next_buffer (hdr s candidate)) s in
    let next := next_buffer (hdr s candidate) in
    if nz next then set_prev next (prev_buffer (hdr s candidate)) s else s.

(** The candidate's tail becomes a new free buffer. *)
Definition take_part (candidate size headroom : Z) (s : shmem) : shmem :=
  let s := set_size candidate (u32 size) s in
  let pfb := candidate + size in
  let s := set_size pfb (u32 headroom) s in
  let s := set_next pfb (next_buffer (hdr s candidate)) s in
  let s := set_prev pfb (prev_buffer (hdr s candidate)) s in
  let s := link_next pfb s in
  if candidate =? free_buf_chain s then set_free_chain pfb s
  else set_next (prev_buffer (hdr s pfb)) pfb s.

Definition do_acquire (size : Z) (s : shmem) : option Z * shmem :=
  let size := buffer_room size in
  let '(headroom, candidate) :=
    best_fit (chain_fuel s) s size (free_buf_chain s) 0x10000000 NULL in
  if candidate =? NULL then (None, s)
  else if u32 headroom <=? sizeof_shm_buffer then (Some candidate, take_whole candidate s)
  else (Some candidate, take_part candidate size headroom s).

(** ** The interface *)

Fixpoint biggest (fuel : nat) (s : shmem) (pfb max : Z) : Z :=
  match fuel with
  | O => max
  | S fuel =>
      if pfb =? NULL then max
      else biggest fuel s (next_buffer (hdr s pfb)) (Z.max max (buffer_size (hdr s pfb)))
  end.

Definition shared_mem_size (s : shmem) : Z :=
  i32 (biggest (chain_fuel s) s (free_buf_chain s) 0 - sizeof_shm_buffer).

(** [memset(dest, 0, size)] *)
Definition clear_ram (dest size : Z) (s : shmem) : shmem :=
  mkShm (hdrs s) (fun a => if (dest <=? a) && (a <? dest + u32 size) then 0 else ram s a)
    (free_buf_chain s) (allocced_buf_chain s) (max_allocated_size s).

Definition set_max_allocated (size : Z) (s : shmem) : shmem :=
  mkShm (hdrs s) (ram s) (free_buf_chain s) (allocced_buf_chain s)
    (if max_allocated_size s <? size then size else max_allocated_size s).

Definition shared_mem_acquire (in_interrupt : bool) (size : Z) : ST shmem (Z * Z) := fun s =>
  if in_interrupt then ((EC.ERROR_INVAL, NULL), s)
  else if free_buf_chain s =? NULL then ((EC.ERROR_BUSY, NULL), s)
  else
    match do_acquire size s with
    | (None, s) => ((EC.ERROR_BUSY, NULL), s)
    | (Some new_buf, s) =>
        let s := set_next new_buf (allocced_buf_chain s) s in
        let s := set_prev new_buf NULL s in
        let s := if nz (allocced_buf_chain s) then set_prev (allocced_buf_chain s) new_buf s
                 else s in
        let s := set_allocced_chain new_buf s in
        let dest := new_buf + sizeof_shm_buffer in
        ((EC.SUCCESS, dest), set_max_allocated size (clear_ram dest size s))
    end.

Definition shared_mem_release (in_interrupt : bool) (ptr : Z) (s : shmem) : shmem :=
  if in_interrupt then s else do_release (ptr - sizeof_shm_buffer) s.

(** The sums that the console command prints. *)
Fixpoint chain_total (fuel : nat) (s : shmem) (buf total : Z) : Z :=
  match fuel with
  | O => total
  | S fuel =>
      if buf =? NULL then total
      else chain_total fuel s (next_buffer (hdr s buf)) (u32 (total + buffer_size (hdr s buf)))
  end.

(** Total, allocated and free bytes, the biggest free buffer, the biggest ever. *)
Definition command_shmem (s : shmem) : Z * Z * Z * Z * Z :=
  let free := chain_total (chain_fuel s) s (free_buf_chain s) 0 in
  let allocated := chain_total (chain_fuel s) s (allocced_buf_chain s) 0 in
  (u32 (allocated + free), allocated, free,
   biggest (chain_fuel s) s (free_buf_chain s) 0, max_allocated_size s).
