(* ===== verification/ShmallocProps.v ===== *)
(** * The memory allocator: the chains, what is handed out, and what comes back *)

From S2P Require Import Prelude Shmalloc.

(** ** Chains of headers *)

Definition starts (l : list (Z * Z)) : list Z := map fst l.

(** The headers of [l] in order: [p] is before the first one, [a] is its address, [q] is
    the last one, [b] is after it. *)
Fixpoint lseg (m : Z -> shm_buffer) (p a : Z) (l : list (Z * Z)) (q b : Z) : Prop :=
  match l with
  | [] => p = q /\ a = b
  | (x, sz) :: l => a = x /\ 0 < x /\ exists n, m x = mkBuf n p sz /\ lseg m x n l q b
  end.

Definition chain (m : Z -> shm_buffer) (head : Z) (l : list (Z * Z)) : Prop :=
  exists q, lseg m NULL head l q NULL.

Lemma lseg_app m p a l1 l2 q b :
  lseg m p a (l1 ++ l2) q b <-> exists q' a', lseg m p a l1 q' a' /\ lseg m q' a' l2 q b.
Proof.
  revert p a. induction l1 as [|[x sz] l1 IH]; intros p a; cbn [lseg app].
  - split; [eauto|]. by intros (q' & a' & [-> ->] & H).
  - setoid_rewrite IH. split.
    + intros (-> & Hx & n & Hm & q' & a' & H1 & H2). eauto 10.
    + intros (q' & a' & (-> & Hx & n & Hm & H1) & H2). eauto 10.
Qed.

Lemma lseg_frame m m' p a l q b :
  (forall x, x ∈ starts l -> m' x = m x) -> lseg m p a l q b -> lseg m' p a l q b.
Proof.
  revert p a. induction l as [|[x sz] l IH]; intros p a Hf; [done|].
  intros (-> & Hx & n & Hm & H). cbn [lseg]. split; [done|]. split; [done|]. exists n.
  rewrite Hf by apply list_elem_of_here. split; [done|]. apply IH; [|done].
  intros y Hy. by apply Hf, list_elem_of_further.
Qed.

Lemma chain_frame m m' h l :
  (forall x, x ∈ starts l -> m' x = m x) -> chain m h l -> chain m' h l.
Proof. intros Hf [q H]. exists q. by eapply lseg_frame. Qed.

(** The first header is at [a], the last one at [q]. *)
Lemma lseg_pos m p a l q b : lseg m p a l q b ->
  match l with
  | [] => p = q /\ a = b
  | (x, _) :: _ => a = x /\ 0 < x /\ 0 < q /\ q ∈ starts l
  end.
Proof.
  revert p a. induction l as [|[x sz] l IH]; intros p a; [done|].
  intros (-> & Hx & n & Hm & H). split; [done|]. split; [done|].
  specialize (IH _ _ H). destruct l as [|[y t] l].
  - destruct IH as [<- ->]. split; [done|]. apply list_elem_of_here.
  - destruct IH as (_ & _ & Hq & Hin). split; [done|]. by apply list_elem_of_further.
Qed.

Lemma chain_head m head l : chain m head l ->
  match l with [] => head = NULL | (x, _) :: _ => head = x /\ 0 < x end.
Proof.
  intros [q H]. apply lseg_pos in H. destruct l as [|[x sz] l]; [by destruct H|].
  by destruct H as (-> & ? & _).
Qed.

Lemma lseg_size m p a l q b x sz : lseg m p a l q b -> (x, sz) ∈ l ->
  0 < x /\ buffer_size (m x) = sz.
Proof.
  revert p a. induction l as [|[y t] l IH]; intros p a H Hx; [by apply elem_of_nil in Hx|].
  destruct H as (-> & Hy & n & Hm & H). apply elem_of_cons in Hx as [E|Hx]; [|by eapply IH].
  simplify_eq. by rewrite Hm.
Qed.

Lemma lseg_last_next m p a l q b :
  NoDup (starts l) -> l <> [] -> lseg m p a l q b -> next_buffer (m q) = b.
Proof.
  revert p a. induction l as [|[x sz] l IH]; intros p a Hn Hne H; [done|].
  destruct H as (-> & Hx & n & Hm & H). apply NoDup_cons in Hn as [_ Hn].
  destruct l as [|yt l]; [|by eapply IH]. destruct H as [<- ->]. by rewrite Hm.
Qed.

(** The same headers under another map: only the last one's next field may differ, or the
    first one's previous field. *)
Definition with_next (z q v : Z) (b : shm_buffer) : shm_buffer :=
  mkBuf (if decide (z = q) then v else next_buffer b) (prev_buffer b) (buffer_size b).
Definition with_prev (z a v : Z) (b : shm_buffer) : shm_buffer :=
  mkBuf (next_buffer b) (if decide (z = a) then v else prev_buffer b) (buffer_size b).

Lemma lseg_relast m m' p a l q b v :
  NoDup (starts l) -> lseg m p a l q b ->
  (forall z, z ∈ starts l -> m' z = with_next z q v (m z)) ->
  lseg m' p (match l with [] => v | _ => a end) l q v.
Proof.
  unfold with_next. revert p a.
  induction l as [|[x sz] l IH]; intros p a Hn H Hm'; [by destruct H|].
  destruct H as (-> & Hx & n & Hm & H). apply NoDup_cons in Hn as [Hxl Hn].
  pose proof (Hm' _ (list_elem_of_here _ _)) as Hx'. cbn in Hx'. rewrite Hm in Hx'. cbn in Hx'.
  pose proof (lseg_pos _ _ _ _ _ _ H) as Hq.
  apply IH in H; [|done|intros z Hz; by apply Hm', list_elem_of_further].
  cbn [lseg]. split; [done|]. split; [done|]. destruct l as [|[y t] l].
  - destruct Hq as [<- ->]. exists v. by rewrite decide_True in Hx'.
  - destruct Hq as (-> & Hy & Hq & Hin). exists y. rewrite decide_False in Hx'; [done|].
    by intros ->.
Qed.

Lemma lseg_refirst m m' p p' a l q b :
  NoDup (starts l) -> lseg m p a l q b ->
  (forall z, z ∈ starts l -> m' z = with_prev z a p' (m z)) ->
  lseg m' p' a l (match l with [] => p' | _ => q end) b.
Proof.
  unfold with_prev. intros Hn H Hm'. destruct l as [|[x sz] l]; [by destruct H|].
  destruct H as (-> & Hx & n & Hm & H). apply NoDup_cons in Hn as [Hxl Hn].
  pose proof (Hm' _ (list_elem_of_here _ _)) as Hx'. cbn in Hx'. rewrite decide_True, Hm in Hx' by done.
  cbn [lseg]. split; [done|]. split; [done|]. exists n. split; [done|].
  apply (lseg_frame m m' x n l q b); [|done]. intros z Hz.
  rewrite Hm' by (by apply list_elem_of_further).
  rewrite decide_False by (by intros ->). by destruct (m z).
Qed.

(** What the assignments do to the headers. *)
Definition with_size (z a v : Z) (b : shm_buffer) : shm_buffer :=
  mkBuf (next_buffer b) (prev_buffer b) (if decide (z = a) then v else buffer_size b).

Lemma hdr_set_hdr a b s z : hdr (set_hdr a b s) z = if decide (z = a) then b else hdr s z.
Proof.
  unfold hdr. cbn. rewrite lookup_insert. destruct (decide (a = z)), (decide (z = a)); congruence.
Qed.

Lemma hdr_set_next a v s z : hdr (set_next a v s) z = with_next z a v (hdr s z).
Proof.
  unfold set_next, with_next. rewrite hdr_set_hdr. case_decide; subst; [done|].
  by destruct (hdr s z).
Qed.

Lemma hdr_set_prev a v s z : hdr (set_prev a v s) z = with_prev z a v (hdr s z).
Proof.
  unfold set_prev, with_prev. rewrite hdr_set_hdr. case_decide; subst; [done|].
  by destruct (hdr s z).
Qed.

Lemma hdr_set_size a v s z : hdr (set_size a v s) z = with_size z a v (hdr s z).
Proof.
  unfold set_size, with_size. rewrite hdr_set_hdr. case_decide; subst; [done|].
  by destruct (hdr s z).
Qed.

Lemma with_next_ne z a v b : z <> a -> with_next z a v b = b.
Proof. intros. unfold with_next. rewrite decide_False by done. by destruct b. Qed.
Lemma with_prev_ne z a v b : z <> a -> with_prev z a v b = b.
Proof. intros. unfold with_prev. rewrite decide_False by done. by destruct b. Qed.
Lemma with_size_ne z a v b : z <> a -> with_size z a v b = b.
Proof. intros. unfold with_size. rewrite decide_False by done. by destruct b. Qed.
Lemma with_next_eq z v b : with_next z z v b = mkBuf v (prev_buffer b) (buffer_size b).
Proof. unfold with_next. by rewrite decide_True. Qed.
Lemma with_prev_eq z v b : with_prev z z v b = mkBuf (next_buffer b) v (buffer_size b).
Proof. unfold with_prev. by rewrite decide_True. Qed.
Lemma with_size_eq z v b : with_size z z v b = mkBuf (next_buffer b) (prev_buffer b) v.
Proof. unfold with_size. by rewrite decide_True. Qed.

(** [if (next) next->prev_buffer = v] *)
Lemma hdr_if_prev n v s z : 0 < z ->
  hdr (if nz n then set_prev n v s else s) z = with_prev z n v (hdr s z).
Proof.
  intros Hz. destruct (nz n) eqn:E; [apply hdr_set_prev|]. apply nz_false in E as ->.
  by rewrite with_prev_ne by lia.
Qed.

Lemma hdr_link_next a s z : 0 < z ->
  hdr (link_next a s) z = with_prev z (next_buffer (hdr s a)) a (hdr s z).
Proof. apply hdr_if_prev. Qed.

Create HintDb headers.
Lemma free_set a b s : free_buf_chain (set_hdr a b s) = free_buf_chain s.
Proof. done. Qed.
Lemma free_set_next a v s : free_buf_chain (set_next a v s) = free_buf_chain s.
Proof. done. Qed.
Lemma free_set_prev a v s : free_buf_chain (set_prev a v s) = free_buf_chain s.
Proof. done. Qed.
Lemma free_set_size a v s : free_buf_chain (set_size a v s) = free_buf_chain s.
Proof. done. Qed.
Lemma hdr_set_free a s z : hdr (set_free_chain a s) z = hdr s z.
Proof. done. Qed.

#[export] Hint Rewrite hdr_set_next hdr_set_prev hdr_set_size hdr_set_free : headers.
#[export] Hint Rewrite free_set_next free_set_prev free_set_size : headers.
#[export] Hint Rewrite hdr_if_prev hdr_link_next using done : headers.
#[export] Hint Rewrite with_next_eq with_prev_eq with_size_eq : headers.
#[export] Hint Rewrite with_next_ne with_prev_ne with_size_ne using congruence : headers.

(** Reads a header through the assignments; [H] is the header as it was. *)
Ltac headers H := repeat (progress (autorewrite with headers; rewrite ?H;
  cbn [next_buffer prev_buffer buffer_size])).

(** Compares what is left header by header. *)
Ltac by_headers := unfold with_next, with_prev, with_size; cbn;
  repeat (case_decide; subst; cbn); try congruence; try tauto.

(** ** Joining two parts of a chain, directly or with a header in between *)

Lemma starts_app l k : starts (l ++ k) = starts l ++ starts k.
Proof. apply map_app. Qed.

Section Join.
Context (m m' : Z -> shm_buffer) (h q a x n q2 : Z) (f1 f2 : list (Z * Z)).
Hypothesis H1 : lseg m NULL h f1 q a.
Hypothesis H2 : lseg m x n f2 q2 NULL.
Hypothesis Hnd : NoDup (starts (f1 ++ f2)).

Lemma join_nodup : NoDup (starts f1) /\ NoDup (starts f2).
Proof. rewrite starts_app in Hnd. apply NoDup_app in Hnd as (? & ? & ?). auto. Qed.

Lemma join_head : match f1 with [] => q = NULL | _ => h <> NULL /\ q <> NULL end.
Proof.
  pose proof (lseg_pos _ _ _ _ _ _ H1) as P. destruct f1 as [|[y t] l]; [by destruct P|].
  unfold NULL. destruct P as (-> & ? & ? & _). lia.
Qed.

Lemma join_first v :
  (forall z, z ∈ starts f1 -> m' z = with_next z q v (m z)) ->
  lseg m' NULL (if q =? NULL then v else h) f1 q v.
Proof.
  intros E1. destruct join_nodup as [N1 _].
  pose proof (lseg_relast _ _ _ _ _ _ _ _ N1 H1 E1) as L. pose proof join_head as Hh.
  destruct f1; [by subst q|]. destruct (Z.eqb_spec q NULL); [tauto|done].
Qed.

Lemma join_direct :
  (forall z, z ∈ starts f1 -> m' z = with_next z q n (m z)) ->
  (forall z, z ∈ starts f2 -> m' z = with_prev z n q (m z)) ->
  chain m' (if q =? NULL then n else h) (f1 ++ f2).
Proof.
  intros E1 E2. exists (match f2 with [] => q | _ => q2 end). apply lseg_app. exists q, n.
  split; [by apply join_first|].
  exact (lseg_refirst _ _ _ _ _ _ _ _ (proj2 join_nodup) H2 E2).
Qed.

Lemma join_with y sz :
  0 < y -> m' y = mkBuf n q sz ->
  (forall z, z ∈ starts f1 -> m' z = with_next z q y (m z)) ->
  (forall z, z ∈ starts f2 -> m' z = with_prev z n y (m z)) ->
  chain m' (if q =? NULL then y else h) (f1 ++ (y, sz) :: f2).
Proof.
  intros Hy Hm E1 E2. exists (match f2 with [] => y | _ => q2 end). apply lseg_app.
  exists q, y. split; [by apply join_first|].
  cbn [lseg]. split; [done|]. split; [done|]. exists n. split; [done|].
  exact (lseg_refirst _ _ _ _ _ _ _ _ (proj2 join_nodup) H2 E2).
Qed.
End Join.

(** ** The heap *)

Section Heap.
Variable base top : Z.

(** Buffers are an address and a size. *)
Definition apart (b c : Z * Z) : Prop := b.1 + b.2 <= c.1 \/ c.1 + c.2 <= b.1.
Definition within (b : Z * Z) : Prop :=
  base <= b.1 /\ sizeof_shm_buffer <= b.2 /\ b.1 + b.2 <= top.

(** By address, and with something in between: neighbours have been merged. *)
Fixpoint gaps (l : list (Z * Z)) : Prop :=
  match l with [] => True | b :: l => (forall c, c ∈ l -> b.1 + b.2 < c.1) /\ gaps l end.

Fixpoint all_apart (l : list (Z * Z)) : Prop :=
  match l with [] => True | b :: l => (forall c, c ∈ l -> apart b c) /\ all_apart l end.

Fixpoint total (l : list (Z * Z)) : Z := match l with [] => 0 | b :: l => b.2 + total l end.

(** The free and the allocated buffers make up the memory. *)
Record heap_ok (fl al : list (Z * Z)) : Prop := {
  ok_gaps : gaps fl;
  ok_apart : all_apart al;
  ok_cross f a : f ∈ fl -> a ∈ al -> apart f a;
  ok_within b : b ∈ fl ++ al -> within b;
  ok_total : total fl + total al = top - base
}.

Definition represents (s : shmem) (fl al : list (Z * Z)) : Prop :=
  chain (hdr s) (free_buf_chain s) fl /\ chain (hdr s) (allocced_buf_chain s) al /\
  heap_ok fl al.

Lemma total_app l k : total (l ++ k) = total l + total k.
Proof. induction l; cbn; lia. Qed.

Lemma gaps_app l k :
  gaps (l ++ k) <-> gaps l /\ gaps k /\ forall b c, b ∈ l -> c ∈ k -> b.1 + b.2 < c.1.
Proof.
  induction l as [|b l IH]; cbn [gaps app].
  - split; [intros H; split_and!; try done; intros b c Hb; by apply elem_of_nil in Hb|tauto].
  - rewrite IH. setoid_rewrite elem_of_app. split.
    + intros (H & Hl & Hk & Hc). split_and!; auto. intros b' c Hb Hck.
      apply elem_of_cons in Hb as [->|Hb]; auto.
    + intros ((H & Hl) & Hk & Hc). split_and!; auto.
      * intros c [Hc'|Hc']; [auto|]. apply Hc; [apply list_elem_of_here|done].
      * intros b' c Hb. apply Hc. by apply list_elem_of_further.
Qed.

Lemma apart_sym b c : apart b c -> apart c b.
Proof. unfold apart. tauto. Qed.

Lemma all_apart_app l k :
  all_apart (l ++ k) <-> all_apart l /\ all_apart k /\ forall b c, b ∈ l -> c ∈ k -> apart b c.
Proof.
  induction l as [|b l IH]; cbn [all_apart app].
  - split; [intros H; split_and!; try done; intros b c Hb; by apply elem_of_nil in Hb|tauto].
  - rewrite IH. setoid_rewrite elem_of_app. split.
    + intros (H & Hl & Hk & Hc). split_and!; auto. intros b' c Hb Hck.
      apply elem_of_cons in Hb as [->|Hb]; auto.
    + intros ((H & Hl) & Hk & Hc). split_and!; auto.
      * intros c [Hc'|Hc']; [auto|]. apply Hc; [apply list_elem_of_here|done].
      * intros b' c Hb. apply Hc. by apply list_elem_of_further.
Qed.

(** Buffers that are apart do not start at the same address. *)
Lemma apart_start b c : within b -> within c -> apart b c -> b.1 <> c.1.
Proof. unfold within, apart, sizeof_shm_buffer. lia. Qed.

Lemma elem_starts x l : x ∈ starts l <-> exists sz, (x, sz) ∈ l.
Proof.
  unfold starts. rewrite list_elem_of_fmap. split.
  - intros ([y sz] & -> & H). eauto.
  - intros [sz H]. by exists (x, sz).
Qed.

Lemma nodup_starts l :
  (forall b, b ∈ l -> within b) -> all_apart l -> NoDup (starts l).
Proof.
  induction l as [|b l IH]; intros Hw Ha; [constructor|]. destruct Ha as [Hb Ha].
  apply NoDup_cons. split.
  - intros Hin. apply elem_starts in Hin as [sz Hin].
    apply (apart_start b (b.1, sz)); [apply Hw, list_elem_of_here| |auto|done].
    by apply Hw, list_elem_of_further.
  - apply IH; [|done]. intros c Hc. by apply Hw, list_elem_of_further.
Qed.

Lemma gaps_apart l : gaps l -> all_apart l.
Proof.
  induction l as [|b l IH]; [done|]. intros [Hb Hg]. split; [|auto].
  intros c Hc. left. specialize (Hb c Hc). lia.
Qed.

Lemma heap_apart fl al : heap_ok fl al -> all_apart (fl ++ al).
Proof. intros [G A C _ _]. apply all_apart_app. split_and!; auto using gaps_apart. Qed.

Lemma heap_nodup fl al : heap_ok fl al -> NoDup (starts (fl ++ al)).
Proof. intros H. apply nodup_starts; [apply H|by apply heap_apart]. Qed.

(** ** The loops end *)

Lemma chain_length s h l :
  chain (hdr s) h l -> (forall b, b ∈ l -> within b) -> NoDup (starts l) ->
  (length l < chain_fuel s)%nat.
Proof.
  intros [q H] Hw Hn. unfold chain_fuel. apply Nat.lt_succ_r.
  rewrite <- (length_map fst l), <- size_dom.
  rewrite <- (size_list_to_set (C := gset Z)) by done.
  apply subseteq_size. intros x Hx. apply elem_of_list_to_set, elem_starts in Hx as [sz Hx].
  destruct (lseg_size _ _ _ _ _ _ _ _ H Hx) as [_ Hsz]. specialize (Hw _ Hx).
  apply elem_of_dom. unfold hdr in Hsz. destruct (hdrs s !! x); [eauto|].
  unfold within, sizeof_shm_buffer in Hw. cbn in *. lia.
Qed.

Lemma on_chain_spec fuel s ptr p a l q :
  lseg (hdr s) p a l q NULL -> (length l < fuel)%nat ->
  on_chain fuel s a ptr = bool_decide (ptr ∈ starts l).
Proof.
  revert fuel p a. induction l as [|[x sz] l IH]; intros [|fuel] p a H Hf; try (cbn in Hf; lia).
  - destruct H as [_ ->]. by rewrite bool_decide_eq_false_2 by apply not_elem_of_nil.
  - destruct H as (-> & Hx & n & Hm & H). cbn [on_chain].
    destruct (Z.eqb_spec x NULL); [unfold NULL in *; lia|].
    destruct (Z.eqb_spec x ptr) as [->|Hne].
    + by rewrite bool_decide_eq_true_2 by apply list_elem_of_here.
    + rewrite Hm. cbn [next_buffer]. rewrite (IH fuel x n); [|done|cbn in Hf; lia].
      apply bool_decide_ext. cbn. rewrite elem_of_cons. split; [by right|by intros [->|]].
Qed.

(** The last of the buffers below [ptr]. *)
Lemma find_below_spec fuel s ptr p a f1 x sz f2 q b :
  lseg (hdr s) p a (f1 ++ (x, sz) :: f2) q b -> (length f1 < fuel)%nat ->
  (forall c, c ∈ f1 ++ [(x, sz)] -> c.1 < ptr) -> (forall c, c ∈ f2 -> ptr < c.1) -> b = NULL ->
  find_below fuel s a ptr = x.
Proof.
  intros H Hf Hlt Hgt ->. revert fuel p a H Hf. induction f1 as [|[y t] f1 IH];
    intros [|fuel] p a H Hf; try (cbn in Hf; lia); cbn [find_below].
  - destruct H as (-> & Hx & n & Hm & H). rewrite Hm. cbn [next_buffer].
    apply lseg_pos in H. destruct f2 as [|[y t] f2].
    + by destruct H as [_ ->].
    + destruct H as (-> & _). specialize (Hgt _ (list_elem_of_here _ _)). cbn in Hgt.
      destruct (Z.ltb_spec y ptr); [lia|]. by rewrite andb_false_r.
  - destruct H as (-> & Hy & n & Hm & H). rewrite Hm. cbn [next_buffer].
    assert (Hn : nz n && (n <? ptr) = true).
    { pose proof (lseg_pos _ _ _ _ _ _ H) as P.
      assert (Hhd : exists t' rest, f1 ++ (x, sz) :: f2 = (n, t') :: rest /\ (n, t') ∈ f1 ++ [(x, sz)]).
      { destruct f1 as [|[z u] f1]; cbn in P; destruct P as (-> & _);
          eexists _, _; (split; [done|apply list_elem_of_here]). }
      destruct Hhd as (t' & rest & E & Hin). rewrite E in P. destruct P as (_ & Hn & _).
      specialize (Hlt (n, t')). cbn in Hlt. rewrite nz_pos by done. apply Z.ltb_lt, Hlt.
      cbn. by apply list_elem_of_further. }
    rewrite Hn. apply (IH ltac:(intros c Hc; apply Hlt; by apply list_elem_of_further) fuel y n);
      [done|cbn in Hf; lia].
Qed.

(** ** Taking a buffer out of the allocated chain *)

(** What a header in the middle of a chain is linked to. *)
Lemma chain_split m h l1 x sz l2 :
  chain m h (l1 ++ (x, sz) :: l2) -> NoDup (starts (l1 ++ (x, sz) :: l2)) ->
  exists q n q2,
    lseg m NULL h l1 q x /\ lseg m x n l2 q2 NULL /\ m x = mkBuf n q sz /\ 0 < x /\
    NoDup (starts (l1 ++ l2)) /\ x ∉ starts (l1 ++ l2) /\
    (q = NULL /\ l1 = [] /\ h = x \/ q ∈ starts l1 /\ q ∉ starts l2 /\ 0 < q /\ h <> x /\ 0 < h) /\
    (n = NULL /\ l2 = [] \/ n ∈ starts l2 /\ n ∉ starts l1 /\ 0 < n) /\
    (forall z, z ∈ starts (l1 ++ l2) -> 0 < z).
Proof.
  intros [e H] Hn. apply lseg_app in H as (q & a & H1 & (-> & Hx & n & Hm & H2)).
  rewrite starts_app in Hn. cbn [starts map fst] in Hn.
  apply NoDup_app in Hn as (N1 & N12 & N2). apply NoDup_cons in N2 as [Nx N2].
  assert (N21 : forall z, z ∈ starts l2 -> z ∉ starts l1)
    by (intros z Hz Hz1; apply (N12 z Hz1); by apply list_elem_of_further).
  assert (Nxl : x ∉ starts l1) by (intros Hx1; apply (N12 x Hx1), list_elem_of_here).
  exists q, n, e. split_and!; try done.
  - rewrite starts_app. apply NoDup_app. split_and!; try done.
    intros z Hz Hz2. by apply (N21 z).
  - rewrite starts_app, elem_of_app. by intros [?|?].
  - pose proof (lseg_pos _ _ _ _ _ _ H1) as P. destruct l1 as [|[y t] l1]; [left|right].
    + by destruct P as [<- ->].
    + destruct P as (-> & Hy & Hq & Hin). split_and!; try done; try lia.
      * intros Hq2. by apply (N21 q).
      * intros ->. apply Nxl, list_elem_of_here.
  - pose proof (lseg_pos _ _ _ _ _ _ H2) as P. destruct l2 as [|[y t] l2]; [left|right].
    + by destruct P as [_ ->].
    + destruct P as (-> & Hy & Hq & Hin). split_and!; try done; try apply list_elem_of_here.
      apply N21, list_elem_of_here.
  - intros z Hz. rewrite starts_app in Hz. apply elem_of_app in Hz as [Hz|Hz];
      apply elem_starts in Hz as [t Hz].
    + by destruct (lseg_size _ _ _ _ _ _ _ _ H1 Hz).
    + by destruct (lseg_size _ _ _ _ _ _ _ _ H2 Hz).
Qed.

(** Linking the neighbours of a header to each other takes it out of its chain, and
    changes no header outside of the chain. *)
Lemma unlink_chain s s' h l1 x sz l2 :
  chain (hdr s) h (l1 ++ (x, sz) :: l2) -> NoDup (starts (l1 ++ (x, sz) :: l2)) ->
  let n := next_buffer (hdr s x) in let q := prev_buffer (hdr s x) in
  (forall z, 0 < z -> hdr s' z = with_prev z n q (with_next z q n (hdr s z))) ->
  chain (hdr s') (if h =? x then n else h) (l1 ++ l2) /\
  (forall z, 0 < z -> z ∉ starts (l1 ++ l2) -> hdr s' z = hdr s z).
Proof.
  intros Hc Hn n0 q0. unfold n0, q0. clear n0 q0.
  destruct (chain_split _ _ _ _ _ _ Hc Hn)
    as (q & n & q2 & H1 & H2 & Hm & Hx & Hnd & Hxl & Hq & Hnn & Hpos).
  rewrite Hm. cbn [next_buffer prev_buffer]. intros Hs'.
  rewrite starts_app in Hpos. setoid_rewrite elem_of_app in Hpos. split.
  - assert (Hhd : (if h =? x then n else h) = if q =? NULL then n else h).
    { destruct Hq as [(-> & -> & ->)|(_ & _ & Hq & Hh & _)]; [by rewrite Z.eqb_refl|].
      destruct (Z.eqb_spec h x), (Z.eqb_spec q NULL); unfold NULL in *; lia || done. }
    rewrite Hhd. apply (join_direct (hdr s) (hdr s') h q x x n q2 l1 l2 H1 H2 Hnd).
    + intros z Hz. rewrite Hs' by (by apply Hpos; left). apply with_prev_ne.
      destruct Hnn as [[-> _]|(_ & Hn1 & _)]; [|by intros ->].
      intros ->. by pose proof (Hpos NULL (or_introl Hz)).
    + intros z Hz. rewrite Hs' by (by apply Hpos; right). rewrite with_next_ne; [done|].
      destruct Hq as [(-> & _)|(_ & Hq2 & _)]; [|by intros ->].
      intros ->. by pose proof (Hpos NULL (or_intror Hz)).
  - intros z Hz Hza. rewrite starts_app, elem_of_app in Hza. rewrite Hs' by done.
    rewrite with_next_ne, with_prev_ne; [done| |].
    + destruct Hnn as [[-> _]|(Hn2 & _)]; [unfold NULL; lia|]. intros ->. tauto.
    + destruct Hq as [(-> & _)|(Hq1 & _)]; [unfold NULL; lia|]. intros ->. tauto.
Qed.

Lemma take_allocced_spec s a1 ptr sz a2 :
  chain (hdr s) (allocced_buf_chain s) (a1 ++ (ptr, sz) :: a2) ->
  (forall b, b ∈ a1 ++ (ptr, sz) :: a2 -> within b) -> NoDup (starts (a1 ++ (ptr, sz) :: a2)) ->
  exists s', take_allocced ptr s = Some s' /\
    chain (hdr s') (allocced_buf_chain s') (a1 ++ a2) /\
    (forall z, 0 < z -> z ∉ starts (a1 ++ a2) -> hdr s' z = hdr s z) /\
    free_buf_chain s' = free_buf_chain s.
Proof.
  intros Hc Hw Hn. pose proof (chain_length _ _ _ Hc Hw Hn) as Hfuel.
  pose proof (fun s' => unlink_chain s s' _ _ _ _ _ Hc Hn) as U.
  destruct (chain_split _ _ _ _ _ _ Hc Hn)
    as (q & n & q2 & H1 & H2 & Hm & Hx & Hnd & Hxl & Hq & Hnn & Hpos).
  unfold take_allocced. rewrite Hm in *. cbn [next_buffer prev_buffer] in *.
  destruct (Z.eqb_spec ptr (allocced_buf_chain s)) as [->|Hne].
  - rewrite Z.eqb_refl in U. destruct Hq as [(-> & _)|(_ & _ & _ & Hh & _)]; [|done].
    eexists. split; [reflexivity|]. rewrite hdr_if_prev, Hm by done. cbn [next_buffer with_prev].
    change (hdr (set_allocced_chain n ?s1)) with (hdr s1). cbn [allocced_buf_chain].
    destruct (U (if nz n then set_prev n NULL s else s)) as [C F].
    { intros z Hz. rewrite hdr_if_prev by done. by rewrite with_next_ne by (unfold NULL; lia). }
    split_and!; [exact C|exact F|]. by destruct (nz n).
  - rewrite (proj2 (Z.eqb_neq _ _)) in U by congruence.
    assert (Hon : on_chain (chain_fuel s) s (next_buffer (hdr s (allocced_buf_chain s))) ptr = true).
    { destruct Hc as [e Hc]. destruct a1 as [|[y t] a1]; [destruct Hc as [E _]; congruence|].
      destruct Hc as (-> & Hy & n' & Hm' & Hc). rewrite Hm'. cbn [next_buffer].
      rewrite (on_chain_spec _ _ _ y n' (a1 ++ (ptr, sz) :: a2) e Hc) by (cbn in Hfuel; lia).
      apply bool_decide_eq_true_2, elem_starts. exists sz.
      apply elem_of_app. right. apply list_elem_of_here. }
    rewrite Hon. assert (Hpq : ptr <> q).
    { destruct Hq as [(-> & -> & ?)|(Hq1 & _)]; [congruence|].
      intros ->. apply Hxl. rewrite starts_app. apply elem_of_app. by left. }
    eexists. split; [reflexivity|].
    rewrite hdr_set_next, Hm, with_next_ne by done. cbn [next_buffer prev_buffer].
    destruct (U (if nz n then set_prev n q (set_next q n s) else set_next q n s)) as [C F].
    { intros z Hz. rewrite hdr_if_prev by done. by rewrite hdr_set_next. }
    split_and!; [|exact F|by destruct (nz n)].
    replace (allocced_buf_chain (if nz n then _ else _)) with (allocced_buf_chain s)
      by (by destruct (nz n)). exact C.
Qed.

(** ** The best fit *)

Lemma buffer_room_spec size : 0 <= size < 2 ^ 30 ->
  exists k, buffer_room size = 4 * k + sizeof_shm_buffer /\ size <= 4 * k < size + 4.
Proof.
  intros Hs. exists ((size + 3) / 4). unfold buffer_room, sizeof_int.
  replace (size + 4 - 1) with (size + 3) by lia. rewrite uN_small by lia.
  assert (E : Z.land (size + 3) (Z.lxor UINT32_MAX (4 - 1)) = 4 * ((size + 3) / 4)).
  { change (Z.lxor UINT32_MAX (4 - 1)) with (Z.shiftl (Z.ones 30) 2).
    change 4 with (2 ^ 2) at 1 2. rewrite <- Z.shiftr_div_pow2, Z.mul_comm by lia.
    rewrite <- Z.shiftl_mul_pow2 by lia.
    assert (H30 : Z.shiftr (size + 3) 2 = Z.land (Z.shiftr (size + 3) 2) (Z.ones 30)).
    { rewrite Z.land_ones, Z.shiftr_div_pow2 by lia. symmetry. apply Z.mod_small.
      change (2 ^ 2) with 4. Z.div_mod_to_equations. lia. }
    rewrite H30. apply Z.bits_inj'. intros i Hi.
    rewrite Z.land_spec, !Z.shiftl_spec, Z.land_spec by lia.
    destruct (Z.lt_ge_cases i 2).
    - rewrite !(Z.testbit_neg_r _ (i - 2)) by lia. by rewrite andb_false_r.
    - rewrite Z.shiftr_spec by lia. by replace (i - 2 + 2) with i by lia. }
  rewrite E. assert (size <= 4 * ((size + 3) / 4) < size + 4) by (Z.div_mod_to_equations; lia).
  unfold sizeof_shm_buffer. rewrite (i32_small (4 * _)), i32_small by lia. lia.
Qed.

(** The search on the list of buffers. *)
Fixpoint pick (need headroom candidate : Z) (l : list (Z * Z)) : Z * Z :=
  match l with
  | [] => (headroom, candidate)
  | (x, sz) :: l =>
      if (need <=? sz) && (sz - need <? headroom) then pick need (sz - need) x l
      else pick need headroom candidate l
  end.

Definition max_size : Z := 0x10000000.

Lemma best_fit_pick fuel s need p a l q headroom candidate :
  lseg (hdr s) p a l q NULL -> (length l < fuel)%nat ->
  (forall b, b ∈ l -> 0 <= b.2 <= max_size) -> 0 <= need < 2 ^ 31 -> 0 <= headroom <= max_size ->
  best_fit fuel s need a headroom candidate = pick need headroom candidate l.
Proof.
  unfold max_size. revert fuel p a headroom candidate.
  induction l as [|[x sz] l IH]; intros [|fuel] p a hr cand H Hf Hl Hn Hh;
    try (cbn in Hf; lia).
  - destruct H as [_ ->]. done.
  - destruct H as (-> & Hx & n & Hm & H). cbn [best_fit pick].
    destruct (Z.eqb_spec x NULL); [unfold NULL in *; lia|].
    rewrite Hm. cbn [buffer_size next_buffer].
    pose proof (Hl (x, sz) (list_elem_of_here _ _)) as Hsz. cbn in Hsz.
    rewrite (uN_small 32 need), (uN_small 32 hr) by lia.
    assert (Hrest : forall hr' c', 0 <= hr' <= 268435456 ->
      best_fit fuel s need n hr' c' = pick need hr' c' l).
    { intros hr' c' Hh'. apply (IH fuel x n hr' c' H); try done; [cbn in Hf; lia|].
      intros b Hb. by apply Hl, list_elem_of_further. }
    destruct (Z.leb_spec need sz); cbn [andb]; [|by apply Hrest].
    rewrite uN_small by lia. destruct (Z.ltb_spec (sz - need) hr); [|by apply Hrest].
    rewrite i32_small by lia. apply Hrest. lia.
Qed.

(** No buffer of [l] has room and leaves less than [headroom]. *)
Definition no_better (need headroom : Z) (l : list (Z * Z)) : Prop :=
  forall b, b ∈ l -> need <= b.2 -> headroom <= b.2 - need.

Lemma no_better_cons need headroom x sz l :
  (sz < need \/ headroom <= sz - need) -> no_better need headroom l ->
  no_better need headroom ((x, sz) :: l).
Proof. intros Hx Hn b Hb. apply elem_of_cons in Hb as [->|Hb]; [cbn; lia|by apply Hn]. Qed.

Lemma pick_spec need headroom candidate l hr c :
  pick need headroom candidate l = (hr, c) ->
  (hr = headroom /\ c = candidate /\ no_better need headroom l) \/
  (exists l1 sz l2, l = l1 ++ (c, sz) :: l2 /\ need <= sz /\ hr = sz - need /\
     hr < headroom /\ no_better need hr l).
Proof.
  revert headroom candidate. induction l as [|[x sz] l IH]; intros headroom candidate E.
  - left. cbn in E. simplify_eq. split; [done|]. split; [done|].
    intros b Hb. by apply elem_of_nil in Hb.
  - cbn [pick] in E. destruct ((need <=? sz) && (sz - need <? headroom)) eqn:Ef; apply IH in E.
    + apply andb_prop in Ef as [F1 F2]. apply Z.leb_le in F1. apply Z.ltb_lt in F2. right.
      destruct E as [(-> & -> & Hn)|(l1 & t & l2 & -> & ? & -> & ? & Hn)].
      * exists [], sz, l. split; [done|]. do 3 (split; [lia|]). apply no_better_cons; [lia|done].
      * exists ((x, sz) :: l1), t, l2. split; [done|]. do 3 (split; [lia|]).
        apply no_better_cons; [lia|done].
    + apply andb_false_iff in Ef. rewrite Z.leb_gt, Z.ltb_ge in Ef.
      destruct E as [(-> & -> & Hn)|(l1 & t & l2 & -> & ? & -> & ? & Hn)]; [left|right].
      * do 2 (split; [done|]). apply no_better_cons; [lia|done].
      * exists ((x, sz) :: l1), t, l2. split; [done|]. do 3 (split; [lia|]).
        apply no_better_cons; [lia|done].
Qed.

(** What is left of a buffer that [need] bytes are taken from. *)
Definition taken (need x sz : Z) : Z * list (Z * Z) :=
  if sz - need <=? sizeof_shm_buffer then (sz, []) else (need, [(x + need, sz - need)]).

Lemma all_apart_elem l b c : all_apart l -> b ∈ l -> c ∈ l -> b = c \/ apart b c.
Proof.
  induction l as [|d l IH]; intros Ha Hb Hc; [by apply elem_of_nil in Hb|].
  destruct Ha as [Hd Ha]. apply elem_of_cons in Hb as [->|Hb], Hc as [->|Hc]; auto.
  right. apply apart_sym. auto.
Qed.

(** No buffer starts inside of another one. *)
Lemma inside_not_start l x sz y :
  all_apart l -> (forall b, b ∈ l -> within b) -> (x, sz) ∈ l -> x < y < x + sz ->
  y ∉ starts l.
Proof.
  intros Ha Hw Hx Hy Hin. apply elem_starts in Hin as [t Hin].
  pose proof (Hw _ Hin) as Wt. unfold within, sizeof_shm_buffer in Wt.
  destruct (all_apart_elem _ _ _ Ha Hx Hin) as [E|E]; [simplify_eq; lia|].
  unfold apart in E. cbn in *. lia.
Qed.

(** Giving the tail of a free buffer a header of its own. *)
Lemma split_chain s s' h f1 x sz f2 y need :
  chain (hdr s) h (f1 ++ (x, sz) :: f2) -> NoDup (starts (f1 ++ (x, sz) :: f2)) ->
  0 < y -> y ∉ starts (f1 ++ (x, sz) :: f2) ->
  let n := next_buffer (hdr s x) in let q := prev_buffer (hdr s x) in
  hdr s' y = mkBuf n q (sz - need) ->
  (forall z, 0 < z -> z <> y ->
     hdr s' z = with_next z q y (with_prev z n y (with_size z x need (hdr s z)))) ->
  chain (hdr s') (if h =? x then y else h) (f1 ++ (y, sz - need) :: f2) /\
  buffer_size (hdr s' x) = need /\
  (forall z, 0 < z -> z ∉ y :: starts (f1 ++ (x, sz) :: f2) -> hdr s' z = hdr s z).
Proof.
  intros Hc Hn Hy Hyl n0 q0. unfold n0, q0. clear n0 q0.
  destruct (chain_split _ _ _ _ _ _ Hc Hn)
    as (q & n & q2 & H1 & H2 & Hm & Hx & Hnd & Hxl & Hq & Hnn & Hpos).
  rewrite Hm. cbn [next_buffer prev_buffer]. intros Hsy Hs'.
  rewrite starts_app in Hpos, Hxl, Hyl. setoid_rewrite elem_of_app in Hpos.
  rewrite elem_of_app in Hxl, Hyl. cbn [starts map fst] in Hyl.
  rewrite elem_of_cons in Hyl. split_and!.
  - assert (Hhd : (if h =? x then y else h) = if q =? NULL then y else h).
    { destruct Hq as [(-> & -> & ->)|(_ & _ & Hq & Hh & _)]; [by rewrite Z.eqb_refl|].
      destruct (Z.eqb_spec h x), (Z.eqb_spec q NULL); unfold NULL in *; lia || done. }
    rewrite Hhd. apply (join_with (hdr s) (hdr s') h q x x n q2 f1 f2 H1 H2 Hnd); [done..| |].
    + intros z Hz. rewrite Hs' by (first [by apply Hpos; left | intros ->; tauto]).
      rewrite with_size_ne by (intros ->; tauto). f_equal. apply with_prev_ne.
      destruct Hnn as [[-> _]|(_ & Hn1 & _)]; [|by intros ->].
      intros ->. by pose proof (Hpos NULL (or_introl Hz)).
    + intros z Hz. rewrite Hs' by (first [by apply Hpos; right | intros ->; tauto]).
      rewrite with_size_ne by (intros ->; tauto). apply with_next_ne.
      destruct Hq as [(-> & _)|(_ & Hq2 & _)]; [|by intros ->].
      intros ->. by pose proof (Hpos NULL (or_intror Hz)).
  - rewrite Hs' by (done || (intros ->; tauto)). by rewrite Hm, with_size_eq.
  - intros z Hz Hza. rewrite elem_of_cons, starts_app, elem_of_app in Hza.
    cbn [starts map fst] in Hza. rewrite elem_of_cons in Hza.
    rewrite Hs' by (done || tauto). rewrite with_size_ne by tauto.
    rewrite with_prev_ne, with_next_ne; [done| |].
    + destruct Hq as [(-> & _)|(Hq1 & _)]; [unfold NULL; lia|]. intros ->. tauto.
    + destruct Hnn as [[-> _]|(Hn2 & _)]; [unfold NULL; lia|]. intros ->. tauto.
Qed.

(** The header that heads a chain has none before it; the others have one. *)
Lemma chain_prev m h l1 x sz l2 :
  chain m h (l1 ++ (x, sz) :: l2) -> NoDup (starts (l1 ++ (x, sz) :: l2)) ->
  0 < x /\ prev_buffer (m x) <> x /\ next_buffer (m x) <> x /\
  (next_buffer (m x) = NULL \/ next_buffer (m x) ∈ starts (l1 ++ l2)) /\
  (prev_buffer (m x) = NULL \/ prev_buffer (m x) ∈ starts (l1 ++ l2)) /\
  if x =? h then prev_buffer (m x) = NULL else prev_buffer (m x) <> NULL.
Proof.
  intros Hc Hn. destruct (chain_split _ _ _ _ _ _ Hc Hn)
    as (q & n & q2 & H1 & H2 & Hm & Hx & Hnd & Hxl & Hq & Hnn & Hpos).
  rewrite Hm. cbn [prev_buffer next_buffer]. rewrite starts_app, elem_of_app in Hxl.
  rewrite starts_app, !elem_of_app. split_and!; [done| | | | |].
  - destruct Hq as [(-> & _)|(Hq & _)]; [unfold NULL; lia|]. intros ->. tauto.
  - destruct Hnn as [[-> _]|(Hn2 & _)]; [unfold NULL; lia|]. intros ->. tauto.
  - destruct Hnn as [[-> _]|(Hn2 & _)]; auto.
  - destruct Hq as [(-> & _)|(Hq1 & _)]; auto.
  - destruct Hq as [(-> & _ & ->)|(_ & _ & Hq & Hh & _)]; [by rewrite Z.eqb_refl|].
    destruct (Z.eqb_spec x h); [congruence|]. unfold NULL. lia.
Qed.

Lemma take_whole_spec s f1 c sz f2 :
  chain (hdr s) (free_buf_chain s) (f1 ++ (c, sz) :: f2) ->
  NoDup (starts (f1 ++ (c, sz) :: f2)) ->
  let s' := take_whole c s in
  chain (hdr s') (free_buf_chain s') (f1 ++ f2) /\
  allocced_buf_chain s' = allocced_buf_chain s /\ ram s' = ram s /\
  (forall z, 0 < z -> z ∉ starts (f1 ++ f2) -> hdr s' z = hdr s z).
Proof.
  intros Hc Hn s'. destruct (chain_prev _ _ _ _ _ _ Hc Hn) as (Hx & Hqx & Hnx & Hnn & Hqq & Hq).
  destruct (unlink_chain s s' _ _ _ _ _ Hc Hn) as [C F].
  - intros z Hz. unfold s', take_whole.
    destruct (Z.eqb_spec c (free_buf_chain s)) as [_|_]; cbn zeta.
    + cbn [free_buf_chain set_free_chain]. rewrite hdr_if_prev by done. rewrite Hq.
      rewrite (with_next_ne z NULL) by (unfold NULL; lia). done.
    + rewrite hdr_if_prev by done. rewrite !hdr_set_next, (with_next_ne c) by done. done.
  - split_and!; [|by (unfold s', take_whole; cbn zeta; repeat case_match)..|exact F].
    assert (E : free_buf_chain s' =
      if free_buf_chain s =? c then next_buffer (hdr s c) else free_buf_chain s).
    { unfold s', take_whole. rewrite (Z.eqb_sym (free_buf_chain s) c).
      destruct (c =? free_buf_chain s); cbn zeta; by destruct (nz _). }
    by rewrite E.
Qed.

Lemma take_part_spec s f1 c sz f2 need :
  chain (hdr s) (free_buf_chain s) (f1 ++ (c, sz) :: f2) ->
  NoDup (starts (f1 ++ (c, sz) :: f2)) ->
  c + need ∉ starts (f1 ++ (c, sz) :: f2) -> 0 < need < sz -> sz < 2 ^ 32 ->
  let s' := take_part c need (sz - need) s in
  chain (hdr s') (free_buf_chain s') (f1 ++ (c + need, sz - need) :: f2) /\
  buffer_size (hdr s' c) = need /\
  allocced_buf_chain s' = allocced_buf_chain s /\ ram s' = ram s /\
  (forall z, 0 < z -> z ∉ c + need :: starts (f1 ++ (c, sz) :: f2) -> hdr s' z = hdr s z).
Proof.
  intros Hc Hn Hy Hneed Hsz s'.
  destruct (chain_prev _ _ _ _ _ _ Hc Hn) as (Hx & Hqx & Hnx & Hnn & Hqq & Hq).
  assert (Hyc : c + need <> c) by lia. assert (Hy0 : 0 < c + need) by lia.
  set (y := c + need) in *.
  assert (Hlinks : forall v, v = NULL \/ v ∈ starts (f1 ++ f2) -> y <> v).
  { intros v Hv <-. destruct Hv as [N|N]; [unfold NULL in N; lia|]. apply Hy. clear -N.
    rewrite !starts_app, !elem_of_app in *. destruct N as [?|?]; [by left|right].
    by apply list_elem_of_further. }
  pose proof (Hlinks _ Hnn) as Hny. pose proof (Hlinks _ Hqq) as Hqy.
  assert (Hm : hdr s c = mkBuf (next_buffer (hdr s c)) (prev_buffer (hdr s c)) sz).
  { destruct Hc as [e Hc].
    destruct (lseg_size _ _ _ _ _ _ c sz Hc) as [_ E];
      [apply elem_of_app; right; apply list_elem_of_here|]. destruct (hdr s c). cbn in *. by rewrite E. }
  set (n := next_buffer (hdr s c)) in *. set (q := prev_buffer (hdr s c)) in *.
  assert (Hsteps : forall z, 0 < z -> hdr s' z =
    (if c =? free_buf_chain s then id else with_next z q y)
      (with_prev z n y (with_prev z y q (with_next z y n (with_size z y (sz - need)
         (with_size z c need (hdr s z))))))).
  { intros z Hz. unfold s', take_part. fold y. rewrite !uN_small by lia.
    set (s2 := set_size y _ _).
    assert (E2 : hdr s2 c = mkBuf n q need)
      by (unfold s2; rewrite !hdr_set_size, with_size_ne, with_size_eq by done; by rewrite Hm).
    rewrite E2. cbn [next_buffer]. set (s3 := set_next y n s2).
    assert (E3 : hdr s3 c = mkBuf n q need)
      by (unfold s3; by rewrite hdr_set_next, with_next_ne).
    rewrite E3. cbn [prev_buffer]. set (s4 := set_prev y q s3).
    assert (E4 : hdr s4 y = mkBuf n q (sz - need)).
    { unfold s4, s3, s2. rewrite hdr_set_prev, with_prev_eq, hdr_set_next, with_next_eq.
      by rewrite hdr_set_size, with_size_eq. }
    assert (E5 : forall z, 0 < z -> hdr (link_next y s4) z = with_prev z n y (hdr s4 z))
      by (intros z' Hz'; rewrite hdr_link_next by done; by rewrite E4).
    assert (Hf : free_buf_chain (link_next y s4) = free_buf_chain s)
      by (unfold link_next; by destruct (nz _)).
    rewrite Hf. assert (E6 : hdr s4 z = with_prev z y q (with_next z y n
      (with_size z y (sz - need) (with_size z c need (hdr s z))))).
    { unfold s4, s3, s2. by rewrite hdr_set_prev, hdr_set_next, !hdr_set_size. }
    destruct (c =? free_buf_chain s).
    - cbn [id]. rewrite <- E6. by apply E5.
    - rewrite hdr_set_next, !E5, E4 by done. rewrite E6. f_equal.
      by rewrite with_prev_ne. }
  assert (Hq0 : c =? free_buf_chain s = true -> q = NULL) by (intros E; by rewrite E in Hq).
  assert (Hbranch : forall z b, 0 < z ->
    (if c =? free_buf_chain s then id else with_next z q y) b = with_next z q y b).
  { intros z b Hz. destruct (c =? free_buf_chain s); [|done].
    rewrite with_next_ne; [done|]. rewrite Hq0 by done. unfold NULL. lia. }
  destruct (split_chain s s' _ _ _ _ _ y need Hc Hn Hy0 Hy) as (C & B & F).
  - fold n q. rewrite Hsteps, Hbranch by done.
    rewrite with_prev_ne, with_prev_eq, with_next_eq, with_size_eq by done.
    by rewrite with_next_ne.
  - fold n q. intros z Hz Hzy. rewrite Hsteps, Hbranch by done.
    by rewrite (with_prev_ne z y), (with_next_ne z y), (with_size_ne z y) by done.
  - assert (E : free_buf_chain s' = (if free_buf_chain s =? c then y else free_buf_chain s) /\
      allocced_buf_chain s' = allocced_buf_chain s /\ ram s' = ram s).
    { unfold s', take_part, link_next. rewrite (Z.eqb_sym (free_buf_chain s) c). cbn zeta.
      destruct (nz _); cbn; by destruct (c =? free_buf_chain s). }
    destruct E as (E & -> & ->). rewrite E. by split_and!.
Qed.

(** The memory is smaller than the headroom that the search starts with. *)
Hypothesis memory_bounds : 0 < base /\ base + sizeof_shm_buffer <= top /\ top < 2 ^ 31 /\
  top - base <= 0x10000000.

Lemma do_acquire_spec s fl al size :
  represents s fl al -> 0 <= size < 2 ^ 28 ->
  let need := buffer_room size in
  let '(r, s') := do_acquire size s in
  match r with
  | None => s' = s /\ forall b, b ∈ fl -> b.2 < need
  | Some x => exists f1 sz f2,
      fl = f1 ++ (x, sz) :: f2 /\ need <= sz /\ no_better need (sz - need) fl /\
      let '(got, rest) := taken need x sz in
      buffer_size (hdr s' x) = got /\ chain (hdr s') (free_buf_chain s') (f1 ++ rest ++ f2) /\
      allocced_buf_chain s' = allocced_buf_chain s /\ ram s' = ram s /\
      (forall z, z ∈ starts al -> hdr s' z = hdr s z)
  end.
Proof.
  intros (Hf & Ha & Hok) Hsize need. destruct (buffer_room_spec size) as (k & Hneed & Hk); [lia|].
  fold need in Hneed. unfold sizeof_shm_buffer in Hneed.
  assert (Hsz : forall b, b ∈ fl -> within b).
  { intros b Hb. apply (ok_within _ _ Hok), elem_of_app. by left. }
  pose proof (heap_nodup _ _ Hok) as Hnd. rewrite starts_app in Hnd.
  apply NoDup_app in Hnd as (Nf & Nfa & Na).
  pose proof (chain_length _ _ _ Hf Hsz Nf) as Hfuel.
  unfold do_acquire. fold need. pose proof Hf as [e Hseg].
  rewrite (best_fit_pick (chain_fuel s) s need NULL _ fl e _ NULL Hseg Hfuel);
    [|intros b Hb; specialize (Hsz b Hb); unfold within, sizeof_shm_buffer, max_size in *; lia
     |lia|unfold max_size; lia].
  destruct (pick need 268435456 NULL fl) as [hr c] eqn:Ep.
  apply pick_spec in Ep as [(-> & -> & Hn)|(f1 & sz & f2 & E & Hfit & -> & Hlt & Hn)].
  { cbn. split; [done|]. intros b Hb. specialize (Hsz b Hb). specialize (Hn b Hb).
    unfold within, sizeof_shm_buffer in *. lia. }
  assert (Hin : (c, sz) ∈ fl) by (rewrite E; apply elem_of_app; right; apply list_elem_of_here).
  destruct (lseg_size _ _ _ _ _ _ _ _ Hseg Hin) as [Hc Hcs].
  destruct (Z.eqb_spec c NULL); [unfold NULL in *; lia|].
  rewrite (uN_small 32 (sz - need)) by lia.
  assert (Hpos : forall z, z ∈ starts al -> 0 < z).
  { intros z Hz. apply elem_starts in Hz as [t Hz]. destruct Ha as [qa Ha].
    by destruct (lseg_size _ _ _ _ _ _ _ _ Ha Hz). }
  assert (Hother : forall z, z ∈ starts al -> z ∉ starts fl)
    by (intros z Hz Hzf; by apply (Nfa z)).
  rewrite E in Hf, Nf, Hother.
  destruct (sz - need <=? sizeof_shm_buffer) eqn:Eroom;
    (exists f1, sz, f2; split; [done|]; split; [done|]; split; [done|]);
    unfold taken; rewrite Eroom.
  - destruct (take_whole_spec _ _ _ _ _ Hf Nf) as (C & Al & Rm & F).
    split_and!; [|exact C|exact Al|exact Rm|].
    + rewrite F; [done|done|].
      destruct (chain_split _ _ _ _ _ _ Hf Nf) as (? & ? & ? & _ & _ & _ & _ & _ & Hx & _).
      exact Hx.
    + intros z Hz. apply F; [auto|]. specialize (Hother z Hz).
      rewrite starts_app, elem_of_app in *. cbn [starts map fst] in Hother.
      rewrite elem_of_cons in Hother. tauto.
  - apply Z.leb_gt in Eroom. unfold sizeof_shm_buffer in Eroom.
    assert (Hall : all_apart (fl ++ al)) by (by apply heap_apart).
    assert (Hy : c + need ∉ starts (fl ++ al)).
    { apply (inside_not_start _ c sz); [done|apply Hok| |lia]. apply elem_of_app. by left. }
    rewrite starts_app, elem_of_app in Hy. rewrite E in Hy.
    specialize (Hsz _ Hin). unfold within in Hsz. cbn in Hsz.
    destruct (take_part_spec _ _ _ _ _ need Hf Nf) as (C & B & Al & Rm & F);
      [tauto|lia|lia|].
    split_and!; [exact B|exact C|exact Al|exact Rm|].
    intros z Hz. apply F; [auto|]. rewrite elem_of_cons. intros [->|Hz2]; [tauto|].
    by apply (Hother z).
Qed.
End Heap.

(** ** Putting a buffer into the free chain *)

(** On the list of buffers: a buffer and the ones that follow it. *)
Definition merge_right (b : Z * Z) (l : list (Z * Z)) : list (Z * Z) :=
  match l with
  | (y, t) :: l' => if b.1 + b.2 =? y then (b.1, b.2 + t) :: l' else b :: l
  | [] => [b]
  end.

Fixpoint insert_free (b : Z * Z) (l : list (Z * Z)) : list (Z * Z) :=
  match l with
  | [] => [b]
  | (x, u) :: l' =>
      if b.1 <? x then merge_right b l
      else if x + u =? b.1 then merge_right (x, u + b.2) l'
      else match l' with
           | (y, _) :: _ => if b.1 <? y then (x, u) :: merge_right b l'
                            else (x, u) :: insert_free b l'
           | [] => (x, u) :: merge_right b []
           end
  end.

(** The released buffer is below the chain [l] and has no header in it. *)
Lemma put_first_spec s y t l ptr sz :
  chain (hdr s) (free_buf_chain s) ((y, t) :: l) -> NoDup (starts ((y, t) :: l)) ->
  0 < ptr -> ptr ∉ starts ((y, t) :: l) -> 0 <= sz + t < 2 ^ 32 ->
  let s' := put_first ptr sz s in
  chain (hdr s') (free_buf_chain s') (merge_right (ptr, sz) ((y, t) :: l)) /\
  allocced_buf_chain s' = allocced_buf_chain s /\ ram s' = ram s /\
  (forall z, 0 < z -> z ∉ ptr :: starts ((y, t) :: l) -> hdr s' z = hdr s z).
Proof.
  intros Hc Hn Hp Hpl Hsz s'. pose proof (chain_split _ _ [] _ _ _ Hc Hn)
    as (q & n & q2 & H1 & H2 & Hm & Hy & Hnd & Hxl & Hq & Hnn & Hpos).
  destruct Hq as [(-> & _ & Hh)|(Hq & _)]; [|by apply elem_of_nil in Hq].
  cbn [starts map fst] in Hpl. rewrite elem_of_cons in Hpl. cbn [app] in *.
  assert (Hheads : free_buf_chain s' = ptr /\ allocced_buf_chain s' = allocced_buf_chain s /\
    ram s' = ram s).
  { unfold s', put_first, link_next. cbn zeta. destruct (_ =? _); by destruct (nz _). }
  destruct Hheads as (-> & -> & ->). cbn [merge_right fst snd].
  assert (Hpy : ptr <> y) by tauto. assert (Hyp : y <> ptr) by done.
  assert (Hpn : ptr <> n).
  { intros ->. destruct Hnn as [[-> _]|(Hn2 & _)]; [unfold NULL in *; lia|tauto]. }
  assert (Hs' : forall z, 0 < z -> hdr s' z =
    if decide (z = ptr)
    then if ptr + sz =? y then mkBuf n NULL (sz + t) else mkBuf y NULL sz
    else if ptr + sz =? y then with_prev z n ptr (hdr s z) else with_prev z y ptr (hdr s z)).
  { intros z Hz. unfold s', put_first. rewrite Hh.
    destruct (ptr + sz =? y); headers Hm; rewrite ?Hh; headers Hm.
    - rewrite (Z.add_comm t sz), uN_small by lia. by_headers.
    - by_headers. }
  assert (Hl : forall z, z ∈ starts l -> 0 < z /\ z <> ptr /\ z <> y).
  { intros z Hz. split; [auto|]. split; intros ->; tauto. }
  assert (F : forall z, 0 < z -> z ∉ ptr :: starts ((y, t) :: l) -> hdr s' z = hdr s z).
  { intros z Hz. cbn [starts map fst]. rewrite !elem_of_cons. intros Hzl.
    rewrite Hs', decide_False by tauto.
    destruct (_ =? _); apply with_prev_ne; [|tauto].
    destruct Hnn as [[-> _]|(Hn2 & _)]; [unfold NULL; lia|]. intros ->. tauto. }
  split_and!; [|done|done|exact F]. destruct (ptr + sz =? y) eqn:E.
  - apply (join_with (hdr s) (hdr s') NULL NULL NULL y n q2 [] l); [by split|done|exact Hnd|done|..].
    + by rewrite Hs', decide_True.
    + intros z Hz. by apply elem_of_nil in Hz.
    + intros z Hz. destruct (Hl z Hz) as (? & ? & ?). by rewrite Hs', decide_False.
  - apply (join_with (hdr s) (hdr s') NULL NULL NULL NULL y q2 [] ((y, t) :: l));
      [by split| |exact Hn|done|..].
    + cbn [lseg]. eauto.
    + by rewrite Hs', decide_True.
    + intros z Hz. by apply elem_of_nil in Hz.
    + intros z Hz. cbn in Hz. apply elem_of_cons in Hz as [->|Hz].
      * by rewrite Hs', decide_False.
      * destruct (Hl z Hz) as (? & ? & ?). by rewrite Hs', decide_False.
Qed.

(** The last header of a segment already has its link. *)
Lemma with_next_same m p a l q b z :
  NoDup (starts l) -> lseg m p a l q b -> z ∈ starts l -> with_next z q b (m z) = m z.
Proof.
  intros Hn H Hz. unfold with_next. case_decide as E; [|by destruct (m z)]. rewrite E in *.
  assert (Hne : l <> []) by (intros ->; by apply elem_of_nil in Hz).
  rewrite <- (lseg_last_next _ _ _ _ _ _ Hn Hne H). by destruct (m q).
Qed.

(** A buffer that has changed its size, and one that has taken in the next one. *)
Lemma resize_chain m m' h k x u l v :
  chain m h (k ++ (x, u) :: l) -> NoDup (starts (k ++ (x, u) :: l)) ->
  m' x = mkBuf (next_buffer (m x)) (prev_buffer (m x)) v ->
  (forall z, 0 < z -> z <> x -> m' z = m z) ->
  chain m' h (k ++ (x, v) :: l).
Proof.
  intros Hc Hn Hx' Hs'. destruct (chain_split _ _ _ _ _ _ Hc Hn)
    as (q & n & q2 & H1 & H2 & Hm & Hx & Hnd & Hxl & _ & _ & Hpos).
  rewrite starts_app in Hxl, Hpos. setoid_rewrite elem_of_app in Hpos. rewrite elem_of_app in Hxl.
  exists q2. apply lseg_app. exists q, x. split.
  - apply (lseg_frame m); [|done]. intros z Hz. apply Hs'; [auto|]. intros ->. tauto.
  - cbn [lseg]. split; [done|]. split; [done|]. exists n. split; [by rewrite Hx', Hm|].
    apply (lseg_frame m); [|done]. intros z Hz. apply Hs'; [auto|]. intros ->. tauto.
Qed.

Lemma absorb_chain m m' h k x u y t l v :
  chain m h (k ++ (x, u) :: (y, t) :: l) -> NoDup (starts (k ++ (x, u) :: (y, t) :: l)) ->
  let n := next_buffer (m y) in
  m' x = mkBuf n (prev_buffer (m x)) v ->
  (forall z, 0 < z -> z <> x -> m' z = with_prev z n x (m z)) ->
  chain m' h (k ++ (x, v) :: l) /\
  (forall z, 0 < z -> z ∉ starts (k ++ (x, u) :: (y, t) :: l) -> m' z = m z).
Proof.
  intros Hc Hn n Hx' Hs'. destruct (chain_split _ _ _ _ _ _ Hc Hn)
    as (q & y' & q2 & H1 & H2 & Hm & Hx & Hnd & Hxl & Hq & _ & Hpos).
  destruct H2 as (-> & Hy & n' & Hmy & H2). unfold n in *. rewrite Hmy in *. clear n.
  cbn [next_buffer] in *. rewrite Hm in Hx'. cbn [prev_buffer] in Hx'.
  rewrite starts_app in Hnd, Hxl, Hpos. setoid_rewrite elem_of_app in Hpos.
  rewrite elem_of_app in Hxl. cbn [starts map fst] in *.
  apply NoDup_app in Hnd as (Nk & Nkl & Nl). apply NoDup_cons in Nl as [Nyl Nl].
  assert (Hn' : n' = NULL \/ n' ∈ starts l).
  { apply lseg_pos in H2. destruct l as [|[w v'] l]; [by left; destruct H2|right].
    destruct H2 as (-> & _). apply list_elem_of_here. }
  split.
  - pose proof (join_with m m' h q x y n' q2 k l H1 H2) as J.
    assert (Hnd : NoDup (starts (k ++ l))).
    { rewrite starts_app. apply NoDup_app. split_and!; try done.
      intros z Hz Hzl. apply (Nkl z Hz). by apply list_elem_of_further. }
    specialize (J Hnd x v Hx Hx').
    assert (Hh : (if q =? NULL then x else h) = h).
    { destruct Hq as [(-> & _ & ->)|(_ & _ & Hq & _)]; [done|].
      destruct (Z.eqb_spec q NULL); [unfold NULL in *; lia|done]. }
    rewrite Hh in J. apply J.
    + intros z Hz. rewrite (with_next_same _ _ _ _ _ _ _ Nk H1 Hz).
      rewrite Hs' by (first [by apply Hpos; left | intros ->; tauto]). apply with_prev_ne.
      intros ->. destruct Hn' as [->|Hn']; [by pose proof (Hpos NULL (or_introl Hz))|].
      apply (Nkl n' Hz). by apply list_elem_of_further.
    + intros z Hz. apply Hs'; [apply Hpos; right; by apply list_elem_of_further|].
      intros ->. apply Hxl. right. by apply list_elem_of_further.
  - intros z Hz Hzl. rewrite starts_app, elem_of_app in Hzl. cbn [starts map fst] in Hzl.
    rewrite !elem_of_cons in Hzl. rewrite Hs' by tauto. apply with_prev_ne.
    destruct Hn' as [->|Hn']; [unfold NULL; lia|]. intros ->. tauto.
Qed.

(** The buffer ends where [x] ends: they become one, perhaps with the next. *)
Lemma put_into_spec s k x u l ptr sz :
  chain (hdr s) (free_buf_chain s) (k ++ (x, u) :: l) -> NoDup (starts (k ++ (x, u) :: l)) ->
  (forall b, b ∈ l -> 0 <= u + sz + b.2 < 2 ^ 32) -> 0 <= u + sz < 2 ^ 32 -> 0 < ptr + sz ->
  x + u = ptr ->
  let s' := put_into x ptr sz s in
  chain (hdr s') (free_buf_chain s') (k ++ merge_right (x, u + sz) l) /\
  allocced_buf_chain s' = allocced_buf_chain s /\ ram s' = ram s /\
  (forall z, 0 < z -> z ∉ starts (k ++ (x, u) :: l) -> hdr s' z = hdr s z).
Proof.
  intros Hc Hn Hl Hsz Hps Hptr s'. destruct (chain_split _ _ _ _ _ _ Hc Hn)
    as (q & n & q2 & H1 & H2 & Hm & Hx & _ & _ & _ & Hnn & _).
  assert (Hheads : free_buf_chain s' = free_buf_chain s /\
    allocced_buf_chain s' = allocced_buf_chain s /\ ram s' = ram s).
  { unfold s', put_into, link_next. cbn zeta. destruct (_ =? _); [by destruct (nz _)|done]. }
  destruct Hheads as (-> & -> & ->).
  assert (Hxl : forall z, z ∉ starts (k ++ (x, u) :: l) -> z <> x).
  { intros z Hz ->. apply Hz. apply elem_starts. exists u. apply elem_of_app. right.
    apply list_elem_of_here. }
  assert (Hgrow : ptr + sz <> n ->
    hdr s' x = mkBuf n q (u + sz) /\ forall z, 0 < z -> z <> x -> hdr s' z = hdr s z).
  { intros Hne. unfold s', put_into. headers Hm. rewrite (uN_small 32 (u + sz)) by lia.
    destruct (Z.eqb_spec (ptr + sz) n); [done|]. split; [by headers Hm|].
    intros z Hz Hzx. by headers Hm. }
  destruct l as [|[y t] l].
  - destruct Hnn as [[-> _]|(Hn2 & _)]; [|by apply elem_of_nil in Hn2].
    destruct Hgrow as [G F]; [unfold NULL; lia|].
    split_and!; [|done|done|intros z Hz Hzl; apply F; [done|by apply Hxl]].
    apply (resize_chain (hdr s) (hdr s') _ _ _ _ _ (u + sz) Hc Hn); [by rewrite G, Hm|exact F].
  - destruct H2 as (-> & Hy & n' & Hmy & H2). cbn [merge_right fst snd].
    replace (x + (u + sz)) with (ptr + sz) by lia.
    destruct (Z.eqb_spec (ptr + sz) y) as [E|E].
    + assert (Hxy : x <> y).
      { rewrite starts_app in Hn. apply NoDup_app in Hn as (_ & _ & Hn).
        apply NoDup_cons in Hn as [Hn _]. intros ->. apply Hn, list_elem_of_here. }
      assert (Hyx : y <> x) by done.
      assert (Hxn : x <> n').
      { rewrite starts_app in Hn. apply NoDup_app in Hn as (_ & _ & Hn).
        apply NoDup_cons in Hn as [Hn _]. apply lseg_pos in H2. destruct l as [|[w v] l].
        - destruct H2 as [_ ->]. unfold NULL. lia.
        - destruct H2 as (-> & _). intros ->. apply Hn, list_elem_of_further, list_elem_of_here. }
      destruct (absorb_chain (hdr s) (hdr s') _ _ _ _ _ _ _ (u + sz + t) Hc Hn) as [C F].
      * specialize (Hl (y, t) (list_elem_of_here _ _)). cbn in Hl.
        unfold s', put_into. headers Hm. rewrite (uN_small 32 (u + sz)) by lia.
        rewrite (proj2 (Z.eqb_eq (ptr + sz) y)) by done. headers Hmy. headers Hm.
        rewrite uN_small by lia. by_headers.
      * intros z Hz Hzx. unfold s', put_into. headers Hm.
        rewrite (proj2 (Z.eqb_eq (ptr + sz) y)) by done. headers Hmy. headers Hm. by_headers.
      * by split_and!.
    + destruct Hgrow as [G F]; [done|].
      split_and!; [|done|done|intros z Hz Hzl; apply F; [done|by apply Hxl]].
      apply (resize_chain (hdr s) (hdr s') _ _ _ _ _ (u + sz) Hc Hn); [by rewrite G, Hm|exact F].
Qed.

(** A new header after [x] and before [l2]. *)
Lemma after_chain m m' h k x u e p2 n l2 q2 ptr v :
  lseg m NULL h (k ++ [(x, u)]) x e -> lseg m p2 n l2 q2 NULL ->
  NoDup (starts (k ++ (x, u) :: l2)) -> 0 < ptr -> ptr ∉ starts (k ++ (x, u) :: l2) ->
  (forall z, 0 < z -> m' z = if decide (z = ptr) then mkBuf n x v
                             else with_prev z n ptr (with_next z x ptr (m z))) ->
  chain m' h (k ++ (x, u) :: (ptr, v) :: l2) /\
  (forall z, 0 < z -> z ∉ ptr :: starts (k ++ (x, u) :: l2) -> m' z = m z).
Proof.
  intros H1 H2 Hn Hp Hpl Hs'. rewrite (cons_middle (x, u) k l2), app_assoc in Hn, Hpl |- *.
  rewrite (cons_middle (x, u) k), app_assoc.
  assert (Hpos : forall z, z ∈ starts ((k ++ [(x, u)]) ++ l2) -> 0 < z).
  { intros z Hz. rewrite starts_app in Hz. apply elem_of_app in Hz as [Hz|Hz];
      apply elem_starts in Hz as [t Hz].
    - by destruct (lseg_size _ _ _ _ _ _ _ _ H1 Hz).
    - by destruct (lseg_size _ _ _ _ _ _ _ _ H2 Hz). }
  assert (Hx : x ∈ starts (k ++ [(x, u)]))
    by (apply elem_starts; exists u; apply elem_of_app; right; apply list_elem_of_here).
  assert (Hnn : n = NULL \/ n ∈ starts l2).
  { apply lseg_pos in H2. destruct l2 as [|[w v'] l2]; [by left; destruct H2|right].
    destruct H2 as (-> & _). apply list_elem_of_here. }
  pose proof Hn as Hnd. rewrite starts_app in Hn, Hpl, Hpos. setoid_rewrite elem_of_app in Hpos.
  rewrite elem_of_app in Hpl. apply NoDup_app in Hn as (_ & Nd & _). split.
  - pose proof (join_with m m' h x e p2 n q2 (k ++ [(x, u)]) l2 H1 H2 Hnd ptr v Hp) as J.
    destruct (Z.eqb_spec x NULL); [by pose proof (Hpos x (or_introl Hx)); unfold NULL in *; lia|].
    apply J.
    + by rewrite Hs', decide_True.
    + intros z Hz. rewrite Hs', decide_False by (first [by apply Hpos; left | intros ->; tauto]).
      apply with_prev_ne. destruct Hnn as [->|Hn2].
      * intros ->. by pose proof (Hpos NULL (or_introl Hz)).
      * intros ->. by apply (Nd n).
    + intros z Hz. rewrite Hs', decide_False by (first [by apply Hpos; right | intros ->; tauto]).
      rewrite with_next_ne; [done|]. intros ->. by apply (Nd x).
  - intros z Hz. rewrite elem_of_cons, starts_app, elem_of_app. intros Hzl.
    rewrite Hs', decide_False by tauto. rewrite with_next_ne by (intros ->; tauto).
    apply with_prev_ne. destruct Hnn as [->|Hn2]; [unfold NULL; lia|]. intros ->. tauto.
Qed.

(** The buffer is after [x] but not right after it. *)
Lemma put_after_spec s k x u l ptr sz :
  chain (hdr s) (free_buf_chain s) (k ++ (x, u) :: l) -> NoDup (starts (k ++ (x, u) :: l)) ->
  (forall b, b ∈ l -> 0 <= sz + b.2 < 2 ^ 32) -> 0 < ptr -> 0 < ptr + sz ->
  ptr ∉ starts (k ++ (x, u) :: l) ->
  let s' := put_after x ptr sz s in
  chain (hdr s') (free_buf_chain s') (k ++ (x, u) :: merge_right (ptr, sz) l) /\
  allocced_buf_chain s' = allocced_buf_chain s /\ ram s' = ram s /\
  (forall z, 0 < z -> z ∉ ptr :: starts (k ++ (x, u) :: l) -> hdr s' z = hdr s z).
Proof.
  intros Hc Hn Hl Hp Hps Hpl s'. destruct (chain_split _ _ _ _ _ _ Hc Hn)
    as (q & n & q2 & H1 & H2 & Hm & Hx & _ & _ & _ & Hnn & Hpos).
  assert (Hheads : free_buf_chain s' = free_buf_chain s /\
    allocced_buf_chain s' = allocced_buf_chain s /\ ram s' = ram s).
  { unfold s', put_after, link_next. cbn zeta. destruct (_ =? _); by destruct (nz _). }
  destruct Hheads as (-> & -> & ->).
  assert (Hpx : ptr <> x).
  { intros ->. apply Hpl, elem_starts. exists u. apply elem_of_app. right.
    apply list_elem_of_here. }
  assert (Hxp : x <> ptr) by done.
  (* the chain up to [x] *)
  assert (H1x : lseg (hdr s) NULL (free_buf_chain s) (k ++ [(x, u)]) x n).
  { apply lseg_app. exists q, x. split; [done|]. cbn [lseg]. eauto 10. }
  pose proof (fun n' q' q2' l2 v => after_chain (hdr s) (hdr s') _ _ _ _ _ q' n' l2 q2' ptr v H1x)
    as A.
  destruct l as [|[y t] l].
  - destruct Hnn as [[-> _]|(Hn2 & _)]; [|by apply elem_of_nil in Hn2].
    destruct (A NULL x x [] sz) as [C F]; [by split|exact Hn|done|exact Hpl| |].
    { intros z Hz. unfold s', put_after. headers Hm.
      destruct (Z.eqb_spec (ptr + sz) NULL); [unfold NULL in *; lia|]. headers Hm.
      unfold NULL in *. by_headers; lia. }
    split_and!; [exact C|done|done|exact F].
  - cbn [merge_right fst snd].
    destruct (Z.eqb_spec (ptr + sz) y) as [E|E].
    + pose proof H2 as (-> & Hy & n' & Hmy & H2').
      assert (Hyl : ptr <> y /\ x <> y /\ ptr ∉ starts (k ++ (x, u) :: l) /\
        NoDup (starts (k ++ (x, u) :: l)) /\ ptr <> n').
      { rewrite (starts_app k ((x, u) :: (y, t) :: l)), elem_of_app in Hpl.
        rewrite (starts_app k ((x, u) :: (y, t) :: l)) in Hn. cbn [starts map fst] in Hpl, Hn.
        rewrite !elem_of_cons in Hpl. apply NoDup_app in Hn as (Nk & Nkl & Nl).
        apply NoDup_cons in Nl as [Nx Nl]. apply NoDup_cons in Nl as [Ny Nl].
        rewrite elem_of_cons in Nx. split_and!.
        - tauto.
        - tauto.
        - rewrite starts_app, elem_of_app. cbn [starts map fst]. rewrite elem_of_cons. tauto.
        - rewrite starts_app. cbn [starts map fst]. apply NoDup_app. split_and!; [done| |].
          + intros z Hz. rewrite elem_of_cons. intros [->|Hzl].
            * apply (Nkl x Hz), list_elem_of_here.
            * apply (Nkl z Hz). by do 2 apply list_elem_of_further.
          + apply NoDup_cons. tauto.
        - apply lseg_pos in H2'. destruct l as [|[w v] l].
          + destruct H2' as [_ ->]. unfold NULL. lia.
          + destruct H2' as (-> & _). intros ->. apply Hpl. right. do 2 right.
            apply list_elem_of_here. }
      destruct Hyl as (Hpy & Hxy & Hpl' & Hn' & Hpn).
      destruct (A n' y q2 l (sz + t)) as [C F]; [exact H2'|exact Hn'|done|exact Hpl'| |].
      { specialize (Hl (y, t) (list_elem_of_here _ _)). cbn in Hl.
        intros z Hz. unfold s', put_after. headers Hm. rewrite (proj2 (Z.eqb_eq (ptr + sz) y)) by done.
        headers Hmy. headers Hm. rewrite uN_small by lia.
        rewrite !(with_size_ne x) by done. cbn [next_buffer].
        rewrite !(with_size_ne y), Hmy by done. cbn [next_buffer]. by_headers. }
      split_and!; [exact C|done|done|]. intros z Hz Hzl. apply F; [done|].
      rewrite elem_of_cons, starts_app, elem_of_app in *. cbn [starts map fst] in *.
      rewrite !elem_of_cons in *. tauto.
    + pose proof H2 as (-> & Hy & n' & Hmy & _).
      assert (Hpy : ptr <> y).
      { intros ->. apply Hpl, elem_starts. exists t. apply elem_of_app. right.
        apply list_elem_of_further, list_elem_of_here. }
      destruct (A y x q2 ((y, t) :: l) sz) as [C F]; [exact H2|exact Hn|done|exact Hpl| |].
      { intros z Hz. unfold s', put_after. headers Hm.
        rewrite (proj2 (Z.eqb_neq (ptr + sz) y)) by done. headers Hm. by_headers. }
      split_and!; [exact C|done|done|exact F].
Qed.
