(* ===== verification/ShmallocHeap.v ===== *)
(** * The memory allocator: what its operations do to the heap *)

From S2P Require Import Prelude Shmalloc ShmallocProps.

(** ** Inserting into the list of free buffers *)

(** A property that two adjacent buffers pass on to the one they become. *)
Definition merges (P : Z * Z -> Prop) : Prop :=
  forall x u v, P (x, u) -> P (x + u, v) -> P (x, u + v).

Lemma merge_right_forall P b l c :
  merges P -> P b -> (forall c, c ∈ l -> P c) -> c ∈ merge_right b l -> P c.
Proof.
  intros HP Hb Hl. destruct l as [|[y t] l]; cbn [merge_right].
  - intros Hc. apply elem_of_cons in Hc as [->|Hc]; [done|by apply elem_of_nil in Hc].
  - destruct (Z.eqb_spec (b.1 + b.2) y) as [E|E]; intros Hc; apply elem_of_cons in Hc as [->|Hc].
    + destruct b as [x u]. cbn in *. apply HP; [done|]. rewrite E. apply Hl, list_elem_of_here.
    + by apply Hl, list_elem_of_further.
    + done.
    + by apply Hl.
Qed.

Lemma insert_free_forall P b l c :
  merges P -> P b -> (forall c, c ∈ l -> P c) -> c ∈ insert_free b l -> P c.
Proof.
  intros HP Hb. revert c. induction l as [|[x u] l IH]; intros c Hl.
  { intros Hc. apply elem_of_cons in Hc as [->|Hc]; [done|by apply elem_of_nil in Hc]. }
  assert (Hx : P (x, u)) by apply Hl, list_elem_of_here.
  assert (Hl' : forall c, c ∈ l -> P c) by (intros d Hd; by apply Hl, list_elem_of_further).
  cbn [insert_free]. destruct (b.1 <? x); [by apply merge_right_forall|].
  destruct (Z.eqb_spec (x + u) b.1) as [E|E].
  { apply merge_right_forall; [done| |done]. apply HP; [done|]. rewrite E. by destruct b. }
  destruct l as [|[y t] l].
  - intros Hc. apply elem_of_cons in Hc as [->|Hc]; [done|].
    apply elem_of_cons in Hc as [->|Hc]; [done|by apply elem_of_nil in Hc].
  - destruct (b.1 <? y); intros Hc; apply elem_of_cons in Hc as [->|Hc]; try done.
    + by apply (merge_right_forall P b ((y, t) :: l)).
    + by apply IH.
Qed.

Lemma total_merge_right b l : total (merge_right b l) = b.2 + total l.
Proof. destruct l as [|[y t] l]; cbn; [lia|]. destruct (_ =? _); cbn; lia. Qed.

Lemma total_insert_free b l : total (insert_free b l) = b.2 + total l.
Proof.
  induction l as [|[x u] l IH]; [cbn; lia|]. cbn [insert_free].
  destruct (b.1 <? x); [apply total_merge_right|].
  destruct (x + u =? b.1); [rewrite total_merge_right; cbn; lia|].
  destruct l as [|[y t] l]; [cbn; lia|].
  destruct (b.1 <? y); cbn [total]; [rewrite total_merge_right|rewrite IH]; cbn; lia.
Qed.

Lemma gaps_merge_right b l :
  0 < b.2 -> gaps l -> (forall c, c ∈ l -> 0 < c.2 /\ b.1 + b.2 <= c.1) ->
  gaps (merge_right b l).
Proof.
  intros Hb Hg Hl. destruct l as [|[y t] l]; cbn [merge_right].
  - split; [|done]. intros c Hc. by apply elem_of_nil in Hc.
  - destruct Hg as [Hy Hg]. pose proof (Hl (y, t) (list_elem_of_here _ _)) as [Ht Hby].
    cbn in Hy, Ht, Hby. destruct (Z.eqb_spec (b.1 + b.2) y) as [E|E]; cbn [gaps fst snd].
    + split; [|done]. intros c Hc. specialize (Hy c Hc). lia.
    + split; [|done]. intros c Hc. apply elem_of_cons in Hc as [->|Hc]; [cbn; lia|].
      specialize (Hy c Hc). lia.
Qed.

(** The neighbours of what is inserted have been merged with it. *)
Lemma gaps_insert_free b l :
  0 < b.2 -> gaps l -> (forall c, c ∈ l -> 0 < c.2 /\ apart c b) -> gaps (insert_free b l).
Proof.
  intros Hb. induction l as [|[x u] l IH]; intros Hg Hl.
  { split; [|done]. intros c Hc. by apply elem_of_nil in Hc. }
  pose proof (Hl (x, u) (list_elem_of_here _ _)) as [Hu Hx].
  assert (Hl' : forall c, c ∈ l -> 0 < c.2 /\ apart c b)
    by (intros d Hd; by apply Hl, list_elem_of_further).
  destruct Hg as [Hxl Hg]. unfold apart in *. cbn [fst snd] in *. cbn [insert_free].
  destruct (Z.ltb_spec b.1 x) as [L|L].
  { apply gaps_merge_right; [done|by split|]. intros c Hc.
    apply elem_of_cons in Hc as [->|Hc]; [cbn; lia|].
    specialize (Hxl c Hc). specialize (Hl' c Hc). lia. }
  destruct (Z.eqb_spec (x + u) b.1) as [E|E].
  { apply gaps_merge_right; cbn; [lia|done|]. intros c Hc.
    specialize (Hxl c Hc). specialize (Hl' c Hc). lia. }
  assert (Hbig : forall c, c ∈ l -> b.1 < c.1 -> 0 < c.2 /\ b.1 + b.2 <= c.1)
    by (intros c Hc Hlt; specialize (Hl' c Hc); lia).
  destruct l as [|[y t] l].
  - cbn. split_and!; [|intros c Hc; by apply elem_of_nil in Hc|done].
    intros c Hc. apply elem_of_cons in Hc as [->|Hc]; [lia|by apply elem_of_nil in Hc].
  - pose proof (Hl' (y, t) (list_elem_of_here _ _)) as [Ht Hy]. cbn in Ht, Hy.
    assert (Hlim : merges (fun c => x + u < c.1)) by (intros z w v H1 H2; done).
    destruct (Z.ltb_spec b.1 y) as [L2|L2]; cbn [gaps fst snd].
    + split.
      * intros c. apply (merge_right_forall (fun c => x + u < c.1)); [done|lia|].
        intros d Hd. by apply Hxl.
      * apply gaps_merge_right; [done|done|]. intros c Hc. apply Hbig; [done|].
        apply elem_of_cons in Hc as [->|Hc]; [done|]. destruct Hg as [Hg _].
        specialize (Hg c Hc). cbn in Hg. lia.
    + split; [|by apply IH].
      intros c. apply (insert_free_forall (fun c => x + u < c.1)); [done|lia|].
      intros d Hd. by apply Hxl.
Qed.

(** ** Releasing a buffer *)

(** The free buffers below an address and those above it. *)
Lemma split_below x u l ptr :
  gaps ((x, u) :: l) -> (forall c, c ∈ (x, u) :: l -> 0 < c.2) -> ptr ∉ starts ((x, u) :: l) ->
  x < ptr ->
  exists k y t l2, (x, u) :: l = k ++ (y, t) :: l2 /\
    (forall c, c ∈ k ++ [(y, t)] -> c.1 < ptr) /\ (forall c, c ∈ l2 -> ptr < c.1).
Proof.
  revert x u. induction l as [|[y t] l IH]; intros x u Hg Hs Hp Hx.
  - exists [], x, u, []. split; [done|]. split; intros c Hc; [|by apply elem_of_nil in Hc].
    apply elem_of_cons in Hc as [->|Hc]; [done|by apply elem_of_nil in Hc].
  - assert (Hpy : ptr <> y).
    { intros ->. apply Hp. cbn. apply list_elem_of_further, list_elem_of_here. }
    destruct (Z.lt_ge_cases y ptr) as [L|L].
    + destruct (IH y t) as (k & z & w & l2 & E & H1 & H2); [apply Hg| | |done|].
      { intros c Hc. by apply Hs, list_elem_of_further. }
      { intros Hin. apply Hp. cbn. by apply list_elem_of_further. }
      exists ((x, u) :: k), z, w, l2. rewrite E. split; [done|]. split; [|done].
      intros c Hc. apply elem_of_cons in Hc as [->|Hc]; [done|by apply H1].
    + exists [], x, u, ((y, t) :: l). split; [done|]. split; intros c Hc.
      * apply elem_of_cons in Hc as [->|Hc]; [done|by apply elem_of_nil in Hc].
      * apply elem_of_cons in Hc as [->|Hc]; [cbn; lia|].
        destruct Hg as [_ [Hg _]]. specialize (Hg c Hc). cbn in Hg.
        pose proof (Hs (y, t)) as Ht. cbn in Ht.
        pose proof (Ht (list_elem_of_further _ _ _ (list_elem_of_here _ _))). lia.
Qed.

Lemma insert_free_split ptr sz k x u l :
  gaps (k ++ (x, u) :: l) -> (forall c, c ∈ k ++ (x, u) :: l -> 0 < c.2) ->
  (forall c, c ∈ k ++ [(x, u)] -> c.1 < ptr) -> (forall c, c ∈ l -> ptr < c.1) ->
  insert_free (ptr, sz) (k ++ (x, u) :: l) =
  k ++ (if x + u =? ptr then merge_right (x, u + sz) l
        else (x, u) :: merge_right (ptr, sz) l).
Proof.
  revert x u. induction k as [|[y t] k IH]; intros x u Hg Hs Hb Ha.
  - cbn [app insert_free fst snd].
    pose proof (Hb (x, u) (list_elem_of_here _ _)) as Hx. cbn in Hx.
    destruct (Z.ltb_spec ptr x); [lia|]. destruct (x + u =? ptr); [done|].
    destruct l as [|[y t] l]; [done|].
    pose proof (Ha (y, t) (list_elem_of_here _ _)) as Hy. cbn in Hy.
    by rewrite (proj2 (Z.ltb_lt _ _)).
  - cbn [app] in *. pose proof (Hb (y, t) (list_elem_of_here _ _)) as Hy. cbn in Hy.
    destruct Hg as [Hg Hg']. cbn [insert_free fst snd].
    assert (Hx : (x, u) ∈ k ++ [(x, u)]) by (apply elem_of_app; right; apply list_elem_of_here).
    assert (Hnext : exists z w r, k ++ (x, u) :: l = (z, w) :: r /\ (z, w) ∈ k ++ [(x, u)]).
    { destruct k as [|[z w] k]; eexists _, _, _; (split; [reflexivity|apply list_elem_of_here]). }
    destruct Hnext as (z & w & r & E & Hz).
    pose proof (Hb (z, w) (list_elem_of_further _ _ _ Hz)) as Hzp. cbn in Hzp.
    assert (Hyz : y + t < z) by (apply (Hg (z, w)); rewrite E; apply list_elem_of_here).
    destruct (Z.ltb_spec ptr y); [lia|]. destruct (Z.eqb_spec (y + t) ptr); [lia|].
    specialize (IH x u Hg'). rewrite E in IH |- *. destruct (Z.ltb_spec ptr z); [lia|].
    f_equal. apply IH.
    + intros c Hc. rewrite <- E in Hc. by apply Hs, list_elem_of_further.
    + intros c Hc. by apply Hb, list_elem_of_further.
    + done.
Qed.

Section Heap.
Variable base top : Z.

Lemma total_pos l : (forall b, b ∈ l -> within base top b) -> 0 <= total l.
Proof.
  induction l as [|b l IH]; intros Hw; cbn; [lia|].
  pose proof (Hw b (list_elem_of_here _ _)) as Hb. unfold within, sizeof_shm_buffer in Hb.
  assert (0 <= total l) by (apply IH; intros c Hc; by apply Hw, list_elem_of_further). lia.
Qed.

(** Two buffers fit in the memory together. *)
Lemma total_elem l b : (forall b, b ∈ l -> within base top b) -> b ∈ l -> b.2 <= total l.
Proof.
  induction l as [|c l IH]; intros Hw Hb; [by apply elem_of_nil in Hb|]. cbn.
  pose proof (Hw c (list_elem_of_here _ _)) as Hc. unfold within, sizeof_shm_buffer in Hc.
  assert (Hl : forall b, b ∈ l -> within base top b)
    by (intros d Hd; by apply Hw, list_elem_of_further).
  apply elem_of_cons in Hb as [->|Hb]; [pose proof (total_pos l Hl); lia|].
  specialize (IH Hl Hb). lia.
Qed.

(** ** The heap after an operation *)

Lemma heap_ok_front fl a1 b a2 :
  heap_ok base top fl (a1 ++ b :: a2) -> heap_ok base top fl (b :: a1 ++ a2).
Proof.
  intros [G A C W T]. apply all_apart_app in A as (A1 & [Ab A2] & A12). split.
  - done.
  - split.
    + intros c Hc. apply elem_of_app in Hc as [Hc|Hc]; [|by apply Ab].
      apply apart_sym, A12; [done|apply list_elem_of_here].
    + apply all_apart_app. split_and!; [done|done|]. intros c d Hc Hd. apply A12; [done|].
      by apply list_elem_of_further.
  - intros f a Hf Ha. apply C; [done|]. apply elem_of_app.
    apply elem_of_cons in Ha as [->|Ha]; [right; apply list_elem_of_here|].
    apply elem_of_app in Ha as [Ha|Ha]; [by left|right; by apply list_elem_of_further].
  - intros c Hc. apply W. rewrite !elem_of_app, !elem_of_cons, ?elem_of_app in *. tauto.
  - rewrite total_app in T. cbn [total] in *. rewrite total_app. lia.
Qed.

Lemma release_ok fl b al :
  heap_ok base top fl (b :: al) -> heap_ok base top (insert_free b fl) al.
Proof.
  intros [G [Ab A] C W T].
  assert (Wf : forall c, c ∈ fl -> within base top c)
    by (intros c Hc; apply W, elem_of_app; by left).
  assert (Wb : within base top b)
    by (apply W, elem_of_app; right; apply list_elem_of_here).
  assert (Wa : forall c, c ∈ al -> within base top c)
    by (intros c Hc; apply W, elem_of_app; right; by apply list_elem_of_further).
  assert (Hpos : forall c, within base top c -> 0 < c.2)
    by (unfold within, sizeof_shm_buffer; lia).
  split.
  - apply gaps_insert_free; [auto|done|]. intros c Hc. split; [auto|].
    apply C; [done|apply list_elem_of_here].
  - done.
  - intros f a Hf Ha.
    apply (insert_free_forall (fun f => 0 < f.2 /\ apart f a) b fl) in Hf; [tauto| | |].
    + intros x u v [U1 U2] [V1 V2]. specialize (Hpos _ (Wa _ Ha)).
      unfold apart in *. cbn in *. lia.
    + split; [auto|by apply Ab].
    + intros c Hc. split; [auto|]. apply C; [done|by apply list_elem_of_further].
  - intros c Hc. apply elem_of_app in Hc as [Hc|Hc]; [|auto].
    apply (insert_free_forall (within base top) b fl); [|done|done|done].
    intros x u v. unfold within, sizeof_shm_buffer. cbn. lia.
  - rewrite total_insert_free. cbn [total] in T. lia.
Qed.

(** What is handed out and what is left of a free buffer. *)
Lemma taken_spec need x sz got rest :
  sizeof_shm_buffer <= need <= sz -> taken need x sz = (got, rest) ->
  need <= got <= sz /\ got + total rest = sz /\
  (rest = [] \/ rest = [(x + got, sz - got)] /\ sizeof_shm_buffer < sz - got).
Proof.
  intros Hn E. unfold taken in E. destruct (Z.leb_spec (sz - need) sizeof_shm_buffer); simplify_eq.
  - split_and!; [lia|lia|cbn; lia|by left].
  - split_and!; [lia|lia|cbn; lia|right; auto].
Qed.

Lemma acquire_ok f1 x sz f2 al need got rest :
  heap_ok base top (f1 ++ (x, sz) :: f2) al -> sizeof_shm_buffer <= need <= sz ->
  taken need x sz = (got, rest) ->
  heap_ok base top (f1 ++ rest ++ f2) ((x, got) :: al).
Proof.
  intros [G A C W T] Hn E. apply taken_spec in E as (Hg & Ht & Hr); [|done].
  apply gaps_app in G as (G1 & [Gx G2] & G12).
  assert (Hx : (x, sz) ∈ f1 ++ (x, sz) :: f2)
    by (apply elem_of_app; right; apply list_elem_of_here).
  pose proof (W _ (proj2 (elem_of_app _ _ _) (or_introl Hx))) as Wx.
  assert (Hin : forall c, c ∈ f1 ++ rest ++ f2 ->
    c ∈ f1 ++ (x, sz) :: f2 /\ apart c (x, sz) \/
    c.1 = x + got /\ c.2 = sz - got /\ sizeof_shm_buffer < c.2).
  { intros c Hc. rewrite !elem_of_app, elem_of_cons in *. destruct Hc as [Hc|[Hc|Hc]].
    - left. split; [tauto|]. left. specialize (G12 c (x, sz) Hc (list_elem_of_here _ _)). lia.
    - right. destruct Hr as [->|[-> Hr]]; [by apply elem_of_nil in Hc|].
      apply elem_of_cons in Hc as [->|Hc]; [done|by apply elem_of_nil in Hc].
    - left. split; [tauto|]. right. specialize (Gx c Hc). cbn in *. lia. }
  unfold within, sizeof_shm_buffer in *. cbn [fst snd] in *. split.
  - apply gaps_app. split_and!; [done| |].
    + destruct Hr as [->|[-> Hr]]; [done|]. cbn [app gaps fst snd]. split; [|done].
      intros c Hc. specialize (Gx c Hc). lia.
    + intros b c Hb Hc. apply elem_of_app in Hc as [Hc|Hc].
      * destruct Hr as [->|[-> Hr]]; [by apply elem_of_nil in Hc|].
        apply elem_of_cons in Hc as [->|Hc]; [|by apply elem_of_nil in Hc].
        specialize (G12 b (x, sz) Hb (list_elem_of_here _ _)). cbn in *. lia.
      * apply G12; [done|by apply list_elem_of_further].
  - split; [|done]. intros c Hc. specialize (C _ c Hx Hc). unfold apart in *. cbn in *. lia.
  - intros f a Hf Ha. destruct (Hin f Hf) as [[Hff Hfx]|(E1 & E2 & E3)].
    + apply elem_of_cons in Ha as [->|Ha]; [|by apply C].
      unfold apart in *. cbn in *. lia.
    + apply elem_of_cons in Ha as [->|Ha]; unfold apart; cbn; [lia|].
      specialize (C _ a Hx Ha). unfold apart in C. cbn in C. lia.
  - intros b Hb. apply elem_of_app in Hb as [Hb|Hb].
    + destruct (Hin b Hb) as [[Hbf _]|(E1 & E2 & E3)];
        [|unfold within, sizeof_shm_buffer; lia].
      apply W, elem_of_app. by left.
    + apply elem_of_cons in Hb as [->|Hb]; [unfold within, sizeof_shm_buffer; cbn; lia|].
      apply W, elem_of_app. by right.
  - rewrite !total_app in *. cbn [total snd] in *. lia.
Qed.

(** ** Putting a buffer back *)

Hypothesis memory_bounds : 0 < base /\ base + sizeof_shm_buffer <= top /\ top < 2 ^ 31 /\
  top - base <= 0x10000000.

Lemma put_free_spec s fl al ptr sz :
  chain (hdr s) (free_buf_chain s) fl -> heap_ok base top fl ((ptr, sz) :: al) ->
  buffer_size (hdr s ptr) = sz ->
  let s' := put_free ptr s in
  chain (hdr s') (free_buf_chain s') (insert_free (ptr, sz) fl) /\
  allocced_buf_chain s' = allocced_buf_chain s /\ ram s' = ram s /\
  (forall z, 0 < z -> z ∉ ptr :: starts fl -> hdr s' z = hdr s z).
Proof.
  intros Hc Hok Hsz s'. pose proof (heap_nodup _ _ _ _ Hok) as Hnd.
  rewrite starts_app in Hnd. apply NoDup_app in Hnd as (Nf & Nfa & _).
  assert (Hpf : ptr ∉ starts fl).
  { intros Hin. apply (Nfa ptr Hin). cbn. apply list_elem_of_here. }
  assert (Hw : forall b, b ∈ fl -> within base top b).
  { intros b Hb. apply (ok_within _ _ _ _ Hok), elem_of_app. by left. }
  assert (Hpw : within base top (ptr, sz)).
  { apply (ok_within _ _ _ _ Hok), elem_of_app. right. apply list_elem_of_here. }
  assert (Hal : 0 <= total al).
  { apply total_pos. intros b Hb. apply (ok_within _ _ _ _ Hok), elem_of_app. right.
    by apply list_elem_of_further. }
  pose proof (ok_total _ _ _ _ Hok) as Ht. cbn [total snd] in Ht.
  unfold within, sizeof_shm_buffer in Hpw. cbn [fst snd] in Hpw.
  assert (Hsum : forall b, b ∈ fl -> 0 < sz + b.2 < 2 ^ 32).
  { intros b Hb. pose proof (total_elem fl b Hw Hb). specialize (Hw b Hb).
    unfold within, sizeof_shm_buffer in Hw. lia. }
  pose proof (chain_head _ _ _ Hc) as Hh. unfold s', put_free. rewrite Hsz.
  destruct fl as [|[y t] fl].
  - rewrite Hh, Z.eqb_refl. unfold put_alone. cbn [insert_free].
    split_and!; [|done|done|].
    + exists ptr. cbn [lseg]. split; [done|]. split; [lia|]. exists NULL. split; [|done].
      headers Hsz. by_headers.
    + intros z Hz Hzp. cbn in Hzp. rewrite elem_of_cons in Hzp.
      assert (Hne : z <> ptr) by tauto. by headers Hsz.
  - destruct Hh as [Hh Hy]. rewrite Hh. destruct (Z.eqb_spec y NULL); [unfold NULL in *; lia|].
    destruct (Z.ltb_spec ptr y) as [L|L].
    + assert (E : insert_free (ptr, sz) ((y, t) :: fl) = merge_right (ptr, sz) ((y, t) :: fl)).
      { cbn [insert_free fst]. by rewrite (proj2 (Z.ltb_lt _ _)). }
      rewrite E. apply (put_first_spec); [done|done|lia|done|].
      specialize (Hsum (y, t) (list_elem_of_here _ _)). cbn in Hsum. lia.
    + assert (Hs : forall c, c ∈ (y, t) :: fl -> 0 < c.2).
      { intros c Hc'. specialize (Hw c Hc'). unfold within, sizeof_shm_buffer in Hw. lia. }
      assert (Hyp : y < ptr).
      { assert (y <> ptr); [|lia]. intros ->. apply Hpf, list_elem_of_here. }
      destruct (split_below y t fl ptr (ok_gaps _ _ _ _ Hok) Hs Hpf Hyp)
        as (k & x & u & l & E & Hb & Ha).
      pose proof (chain_length _ _ _ _ _ Hc Hw Nf) as Hfuel.
      pose proof (ok_gaps _ _ _ _ Hok) as Hg. rewrite E in Hc, Hg, Hs, Hw, Hfuel, Hpf, Nf, Hsum |- *.
      rewrite (insert_free_split _ _ _ _ _ _ Hg Hs Hb Ha).
      assert (Hxin : (x, u) ∈ k ++ (x, u) :: l)
        by (apply elem_of_app; right; apply list_elem_of_here).
      pose proof Hc as [q Hseg]. rewrite Hh in Hseg.
      rewrite (find_below_spec _ s ptr NULL y k x u l q NULL Hseg);
        [|rewrite length_app in Hfuel; cbn in Hfuel; lia|done|done|done].
      destruct (lseg_size _ _ _ _ _ _ _ _ Hseg Hxin) as [Hx ->].
      assert (Hlin : forall b, b ∈ l -> b ∈ k ++ (x, u) :: l)
        by (intros b Hbl; apply elem_of_app; right; by apply list_elem_of_further).
      destruct (Z.eqb_spec (x + u) ptr) as [E1|E1].
      * destruct (put_into_spec s k x u l ptr sz Hc Nf) as (C & A & R & F); [| |lia|done|].
        { intros b Hbl. specialize (Hsum _ (Hlin b Hbl)).
          pose proof (Hw _ (Hlin b Hbl)). pose proof (Hw _ Hxin).
          unfold within, sizeof_shm_buffer in *. cbn in *. lia. }
        { specialize (Hsum _ Hxin). cbn in Hsum. lia. }
        split_and!; [exact C|exact A|exact R|]. intros z Hz Hzl. apply F; [done|].
        intros Hin. apply Hzl. by apply list_elem_of_further.
      * apply (put_after_spec); [done|done| |lia|lia|done].
        intros b Hbl. specialize (Hsum _ (Hlin b Hbl)). lia.
Qed.

(** ** The interface on the heap *)

Lemma chain_push s s' x got al :
  chain (hdr s) (allocced_buf_chain s) al -> NoDup (x :: starts al) -> 0 < x ->
  hdr s' x = mkBuf (allocced_buf_chain s) NULL got ->
  (forall z, z ∈ starts al -> hdr s' z = with_prev z (allocced_buf_chain s) x (hdr s z)) ->
  chain (hdr s') x ((x, got) :: al).
Proof.
  intros [q H] Hn Hx Hm Hs'. apply NoDup_cons in Hn as [_ Hn].
  pose proof (lseg_refirst _ _ _ _ _ _ _ _ Hn H Hs') as L.
  exists (match al with [] => x | _ => q end). cbn [lseg].
  split; [done|]. split; [done|]. exists (allocced_buf_chain s). by split.
Qed.

(** What an acquisition does: nothing when no free buffer has room; else the buffer that
    fits best is taken. *)
Definition acquired (fl al : list (Z * Z)) (size : Z) (s : shmem) (r : Z * Z) (s' : shmem) :
  Prop :=
  let need := buffer_room size in
  (r = (EC.ERROR_BUSY, NULL) /\ s' = s /\ forall b, b ∈ fl -> b.2 < need) \/
  (exists f1 x sz f2 got rest,
     fl = f1 ++ (x, sz) :: f2 /\ need <= sz /\ no_better need (sz - need) fl /\
     taken need x sz = (got, rest) /\ r = (EC.SUCCESS, x + sizeof_shm_buffer) /\
     represents base top s' (f1 ++ rest ++ f2) ((x, got) :: al) /\
     forall a, ram s' a = if (x + sizeof_shm_buffer <=? a) && (a <? x + sizeof_shm_buffer + size)
                          then 0 else ram s a).

Lemma acquire_cases s fl al size :
  represents base top s fl al -> 0 <= size < 2 ^ 28 ->
  let '(r, s') := shared_mem_acquire false size s in acquired fl al size s r s'.
Proof.
  intros Hr Hsize. pose proof Hr as (Hf & Ha & Hok).
  destruct (buffer_room_spec size) as (k & Hk & Hk2); [lia|].
  unfold shared_mem_acquire. destruct (Z.eqb_spec (free_buf_chain s) NULL) as [E|E].
  { left. split; [done|]. split; [done|]. intros b Hb. apply chain_head in Hf.
    destruct fl as [|[x sz] fl]; [by apply elem_of_nil in Hb|].
    destruct Hf as [Hf ?]. unfold NULL in *. lia. }
  pose proof (do_acquire_spec base top memory_bounds s fl al size Hr Hsize) as D.
  cbn zeta in D. destruct (do_acquire size s) as [[x|] s1]; [|left; tauto].
  right. destruct D as (f1 & sz & f2 & -> & Hfit & Hbest & D).
  destruct (taken (buffer_room size) x sz) as [got rest] eqn:Et.
  destruct D as (Hg & C & Al & Rm & F).
  assert (Hok' : heap_ok base top (f1 ++ rest ++ f2) ((x, got) :: al)).
  { apply (acquire_ok f1 x sz f2 al (buffer_room size)); [done| |done].
    unfold sizeof_shm_buffer in *. lia. }
  pose proof (heap_nodup _ _ _ _ Hok') as Hnd. rewrite starts_app in Hnd.
  apply NoDup_app in Hnd as (_ & Nfa & Na). cbn [starts map fst] in Na, Nfa.
  assert (Hxp : within base top (x, got))
    by (apply (ok_within _ _ _ _ Hok'), elem_of_app; right; apply list_elem_of_here).
  assert (Hx : 0 < x) by (unfold within in Hxp; cbn in Hxp; lia).
  pose proof (proj1 (proj1 (NoDup_cons _ _) Na)) as Hxa.
  assert (Hax : x <> allocced_buf_chain s).
  { apply chain_head in Ha. destruct al as [|[y t] al]; [unfold NULL in *; lia|].
    destruct Ha as [-> _]. intros ->. apply Hxa, list_elem_of_here. }
  assert (Hpos : forall z, z ∈ starts al \/ z ∈ starts (f1 ++ rest ++ f2) -> 0 < z).
  { intros z Hz. enough (Hw : exists t, (z, t) ∈ (f1 ++ rest ++ f2) ++ (x, got) :: al).
    { destruct Hw as [t Hw]. apply (ok_within _ _ _ _ Hok') in Hw.
      unfold within in Hw. cbn in Hw. lia. }
    destruct Hz as [Hz|Hz]; apply elem_starts in Hz as [t Hz]; exists t; apply elem_of_app;
      [right; by apply list_elem_of_further|by left]. }
  exists f1, x, sz, f2, got, rest. do 5 (split; [done|]). rewrite Al.
  set (s4 := if nz _ then _ else _).
  assert (H4 : forall z, 0 < z -> hdr s4 z =
    with_prev z (allocced_buf_chain s) x (with_prev z x NULL
      (with_next z x (allocced_buf_chain s) (hdr s1 z)))).
  { intros z Hz. unfold s4. cbn [set_prev set_hdr set_next allocced_buf_chain].
    change (allocced_buf_chain s1) with (allocced_buf_chain s1). rewrite Al.
    rewrite hdr_if_prev by done. by rewrite hdr_set_prev, hdr_set_next. }
  assert (R4 : ram s4 = ram s /\ free_buf_chain s4 = free_buf_chain s1).
  { unfold s4. destruct (nz _); cbn; by rewrite Rm. }
  destruct R4 as [R4 F4]. split.
  - split_and!; [| |done].
    + change (chain (hdr s4) (free_buf_chain s4) (f1 ++ rest ++ f2)). rewrite F4.
      apply (chain_frame (hdr s1)); [|done]. intros z Hz.
      assert (z <> x) by (intros ->; apply (Nfa x Hz), list_elem_of_here).
      assert (z <> allocced_buf_chain s).
      { intros ->. apply chain_head in Ha. destruct al as [|[y t] al].
        - pose proof (Hpos _ (or_intror Hz)). unfold NULL in *. lia.
        - destruct Ha as [E' _]. rewrite E' in Hz. apply (Nfa y Hz).
          apply list_elem_of_further, list_elem_of_here. }
      rewrite H4 by auto. by rewrite with_prev_ne, with_prev_ne, with_next_ne by done.
    + change (chain (hdr s4) x ((x, got) :: al)).
      apply (chain_push s s4); [done|done|done| |].
      * rewrite H4 by done. rewrite with_prev_ne, with_prev_eq, with_next_eq by done.
        cbn. by rewrite Hg.
      * intros z Hz. assert (z <> x) by (by intros ->). rewrite H4 by auto.
        rewrite (with_prev_ne z x), (with_next_ne z x) by done. by rewrite F.
  - intros a. cbn [ram clear_ram set_max_allocated]. rewrite uN_small by lia.
    change (ram (set_allocced_chain x s4)) with (ram s4). by rewrite R4.
Qed.
End Heap.
