(* ===== verification/ShmallocRun.v ===== *)
(** * The memory allocator: what its users see over any sequence of calls *)

From S2P Require Import Prelude Shmalloc ShmallocProps ShmallocHeap.

(** ** Free buffers that fill the memory *)

Lemma total_bound lo hi l :
  lo <= hi -> gaps l -> (forall c, c ∈ l -> lo <= c.1 /\ 0 < c.2 /\ c.1 + c.2 <= hi) ->
  total l <= hi - lo.
Proof.
  revert lo. induction l as [|[x u] l IH]; intros lo Hlo Hg Hw; [cbn; lia|].
  destruct Hg as [Hx Hg]. pose proof (Hw (x, u) (list_elem_of_here _ _)) as Hxu. cbn in Hxu, Hx.
  assert (total l <= hi - (x + u)); [|cbn; lia].
  apply IH; [lia|done|]. intros c Hc. specialize (Hx c Hc).
  specialize (Hw c (list_elem_of_further _ _ _ Hc)). lia.
Qed.

(** They are one buffer: two would leave something in between. *)
Lemma total_full lo hi l :
  lo < hi -> gaps l -> (forall c, c ∈ l -> lo <= c.1 /\ 0 < c.2 /\ c.1 + c.2 <= hi) ->
  total l = hi - lo -> l = [(lo, hi - lo)].
Proof.
  intros Hlo Hg Hw Ht. destruct l as [|[x u] [|[y v] l]]; [cbn in Ht; lia| |].
  - pose proof (Hw (x, u) (list_elem_of_here _ _)) as Hx. cbn in Ht, Hx. repeat f_equal; lia.
  - exfalso. destruct Hg as [Hx Hg].
    pose proof (Hw (x, u) (list_elem_of_here _ _)) as Hxu.
    pose proof (Hw (y, v) (list_elem_of_further _ _ _ (list_elem_of_here _ _))) as Hyv.
    pose proof (Hx (y, v) (list_elem_of_here _ _)) as Hxy. cbn [fst snd] in *.
    assert (total ((y, v) :: l) <= hi - (x + u + 1)); [|cbn [total snd] in *; lia].
    apply total_bound; [lia|done|]. intros c Hc. specialize (Hx c Hc).
    specialize (Hw c (list_elem_of_further _ _ _ Hc)). lia.
Qed.

Lemma chain_total_spec fuel s p a l q acc :
  lseg (hdr s) p a l q NULL -> (length l < fuel)%nat -> (forall b, b ∈ l -> 0 <= b.2) ->
  0 <= acc -> acc + total l < 2 ^ 32 -> chain_total fuel s a acc = acc + total l.
Proof.
  assert (Hpos : forall l, (forall b, b ∈ l -> 0 <= b.2) -> 0 <= total l).
  { clear. induction l as [|b l IH]; intros Hl; cbn; [lia|].
    pose proof (Hl b (list_elem_of_here _ _)).
    assert (0 <= total l); [|lia]. apply IH. intros c Hc. by apply Hl, list_elem_of_further. }
  revert fuel p a acc. induction l as [|[x u] l IH]; intros [|fuel] p a acc H Hf Hl Ha Ht;
    try (cbn in Hf; lia).
  - destruct H as [_ ->]. cbn. lia.
  - destruct H as (-> & Hx & n & Hm & H). cbn [chain_total total snd] in *.
    destruct (Z.eqb_spec x NULL); [unfold NULL in *; lia|].
    pose proof (Hl (x, u) (list_elem_of_here _ _)) as Hu. cbn in Hu.
    assert (Hl' : forall b, b ∈ l -> 0 <= b.2)
      by (intros b Hb; by apply Hl, list_elem_of_further).
    specialize (Hpos l Hl'). rewrite Hm. cbn [buffer_size next_buffer].
    rewrite uN_small by lia. rewrite (IH fuel x n _ H); [lia|cbn in Hf; lia|done|lia|lia].
Qed.

Lemma biggest_spec fuel s p a l q m need :
  lseg (hdr s) p a l q NULL -> (length l < fuel)%nat ->
  need <= biggest fuel s a m <-> need <= m \/ exists b, b ∈ l /\ need <= b.2.
Proof.
  revert fuel p a m. induction l as [|[x u] l IH]; intros [|fuel] p a m H Hf;
    try (cbn in Hf; lia).
  - destruct H as [_ ->]. cbn. split; [by left|]. intros [?|(b & Hb & _)]; [done|].
    by apply elem_of_nil in Hb.
  - destruct H as (-> & Hx & n & Hm & H). cbn [biggest].
    destruct (Z.eqb_spec x NULL); [unfold NULL in *; lia|]. rewrite Hm.
    cbn [buffer_size next_buffer]. rewrite (IH fuel x n _ H) by (cbn in Hf; lia).
    setoid_rewrite elem_of_cons. split.
    + intros [Hn|(b & Hb & Hn)]; [|by eauto]. destruct (Z.le_gt_cases need m); [by left|].
      right. exists (x, u). split; [by left|cbn; lia].
    + intros [Hn|(b & [->|Hb] & Hn)]; [lia|cbn in Hn; lia|eauto].
Qed.

Lemma biggest_bound fuel s p a l q m hi :
  lseg (hdr s) p a l q NULL -> (length l < fuel)%nat -> m <= hi -> (forall b, b ∈ l -> b.2 <= hi) ->
  m <= biggest fuel s a m <= hi.
Proof.
  intros H Hf Hm Hl. split; [apply (biggest_spec _ _ _ _ _ _ _ _ H Hf); by left|].
  destruct (Z.le_gt_cases (biggest fuel s a m) hi); [done|].
  assert (Hb : hi + 1 <= biggest fuel s a m) by lia.
  apply (biggest_spec _ _ _ _ _ _ _ _ H Hf) in Hb as [Hb|(b & Hb & Hn)]; [lia|].
  specialize (Hl b Hb). lia.
Qed.

Section Heap.
Variable base top : Z.
Hypothesis memory_bounds : 0 < base /\ base + sizeof_shm_buffer <= top /\ top < 2 ^ 31 /\
  top - base <= 0x10000000.

Lemma init_represents s :
  allocced_buf_chain s = NULL ->
  represents base top (shared_mem_init base top s) [(base, top - base)] [].
Proof.
  intros Ha. unfold sizeof_shm_buffer in memory_bounds. split_and!.
  - exists base. cbn [shared_mem_init set_size set_prev set_next set_hdr free_buf_chain].
    change (free_buf_chain (shared_mem_init base top s)) with base.
    cbn [lseg]. split; [done|]. split; [lia|]. exists NULL. split; [|done].
    unfold shared_mem_init. headers Ha. rewrite uN_small by lia. done.
  - exists NULL. by split.
  - split.
    + split; [|done]. intros c Hc. by apply elem_of_nil in Hc.
    + done.
    + intros f a _ Hc. by apply elem_of_nil in Hc.
    + intros b Hb. apply elem_of_cons in Hb as [->|Hb]; [|by apply elem_of_nil in Hb].
      unfold within, sizeof_shm_buffer. cbn. lia.
    + cbn. lia.
Qed.

(** ** Releasing through the interface *)

Lemma take_allocced_ram ptr s s' :
  take_allocced ptr s = Some s' -> ram s' = ram s.
Proof.
  unfold take_allocced. destruct (_ =? _); cbn zeta.
  - intros [= <-]. by destruct (nz _).
  - destruct (on_chain _ _ _ _); [|done]. intros [= <-]. by destruct (nz _).
Qed.

Lemma release_live s fl a1 x sz a2 :
  represents base top s fl (a1 ++ (x, sz) :: a2) ->
  let s' := shared_mem_release false (x + sizeof_shm_buffer) s in
  represents base top s' (insert_free (x, sz) fl) (a1 ++ a2) /\ ram s' = ram s.
Proof.
  intros (Hf & Ha & Hok) s'. pose proof (heap_nodup _ _ _ _ Hok) as Hnd.
  rewrite starts_app in Hnd. apply NoDup_app in Hnd as (Nf & Nfa & Na).
  assert (Hw : forall b, b ∈ a1 ++ (x, sz) :: a2 -> within base top b)
    by (intros b Hb; apply (ok_within _ _ _ _ Hok), elem_of_app; by right).
  assert (Hwf : forall b, b ∈ fl -> within base top b)
    by (intros b Hb; apply (ok_within _ _ _ _ Hok), elem_of_app; by left).
  destruct (take_allocced_spec base top s a1 x sz a2 Ha Hw Na) as (s1 & E1 & A1 & F1 & Fr1).
  pose proof (take_allocced_ram _ _ _ E1) as R1.
  pose proof (heap_ok_front _ _ _ _ _ _ Hok) as Hok1.
  destruct (chain_split _ _ _ _ _ _ Ha Na)
    as (? & ? & ? & _ & _ & Hm & Hx & _ & Hxa & _ & _ & Hpos).
  assert (Hf1 : chain (hdr s1) (free_buf_chain s1) fl).
  { rewrite Fr1. apply (chain_frame (hdr s)); [|done]. intros z Hz. apply F1.
    - apply elem_starts in Hz as [t Hz]. specialize (Hwf _ Hz). unfold within in Hwf.
      cbn in Hwf. lia.
    - intros Hza. apply (Nfa z Hz). rewrite starts_app, elem_of_app in *.
      destruct Hza as [?|?]; [by left|right]. by apply list_elem_of_further. }
  assert (Hs1 : buffer_size (hdr s1 x) = sz) by (rewrite F1, Hm by done; done).
  destruct (put_free_spec base top memory_bounds s1 fl (a1 ++ a2) x sz Hf1 Hok1 Hs1)
    as (C & A & R & F).
  unfold s', shared_mem_release, do_release.
  replace (x + sizeof_shm_buffer - sizeof_shm_buffer) with x by lia. rewrite E1.
  split; [|congruence]. split; [exact C|]. split; [|by eapply release_ok].
  rewrite A. apply (chain_frame (hdr s1)); [|done]. intros z Hz. apply F; [auto|].
  rewrite elem_of_cons. intros [->|Hzf]; [done|]. apply (Nfa z Hzf).
  rewrite starts_app, elem_of_app in *. destruct Hz as [?|?]; [by left|right].
  by apply list_elem_of_further.
Qed.

(** The sanity check of the code. *)
Lemma release_other s fl al p :
  represents base top s fl al -> al <> [] -> p - sizeof_shm_buffer ∉ starts al ->
  shared_mem_release false p s = s.
Proof.
  intros (_ & Ha & Hok) Hne Hp. pose proof (heap_nodup _ _ _ _ Hok) as Hnd.
  rewrite starts_app in Hnd. apply NoDup_app in Hnd as (_ & _ & Na).
  assert (Hw : forall b, b ∈ al -> within base top b)
    by (intros b Hb; apply (ok_within _ _ _ _ Hok), elem_of_app; by right).
  pose proof (chain_length _ _ _ _ _ Ha Hw Na) as Hfuel.
  destruct al as [|[x sz] al]; [done|]. destruct Ha as [q (Hx & Hx0 & n & Hm & H)].
  cbn [starts map fst] in Hp. rewrite elem_of_cons in Hp. cbn [length] in Hfuel.
  unfold shared_mem_release, do_release, take_allocced. rewrite Hx.
  destruct (Z.eqb_spec (p - sizeof_shm_buffer) x); [tauto|]. rewrite Hm. cbn [next_buffer].
  rewrite (on_chain_spec _ _ _ x n al q H) by lia.
  by rewrite bool_decide_eq_false_2 by tauto.
Qed.

(** ** What the users hold *)

(** A region that was handed out is inside of its buffer, behind the header. *)
Definition held (r b : Z * Z) : Prop :=
  r.1 = b.1 + sizeof_shm_buffer /\ 0 <= r.2 /\ r.2 + sizeof_shm_buffer <= b.2.

Inductive heap_run : shmem -> list (Z * Z) -> Prop :=
  | run_init s : allocced_buf_chain s = NULL -> heap_run (shared_mem_init base top s) []
  | run_acquire s live irq size rc p s' :
      heap_run s live -> 0 <= size < 2 ^ 28 ->
      shared_mem_acquire irq size s = ((rc, p), s') ->
      heap_run s' (if rc =? EC.SUCCESS then (p, size) :: live else live)
  | run_release s l1 p size l2 :
      heap_run s (l1 ++ (p, size) :: l2) -> heap_run (shared_mem_release false p s) (l1 ++ l2)
  | run_release_unknown s live p :
      heap_run s live -> live <> [] -> p ∉ starts live ->
      heap_run (shared_mem_release false p s) live
  | run_release_isr s live p :
      heap_run s live -> heap_run (shared_mem_release true p s) live.

Lemma held_starts live al : Forall2 held live al ->
  forall x, x ∈ starts al -> x + sizeof_shm_buffer ∈ starts live.
Proof.
  induction 1 as [|r b live al Hh _ IH]; intros x Hx; [by apply elem_of_nil in Hx|].
  cbn [starts map] in *. rewrite elem_of_cons in *. destruct Hx as [->|Hx]; [left|right; auto].
  by destruct Hh.
Qed.

Lemma held_inside live al r : Forall2 held live al -> r ∈ live -> exists b, b ∈ al /\ held r b.
Proof.
  intros H Hr. apply list_elem_of_lookup in Hr as [i Hi].
  destruct (Forall2_lookup_l _ _ _ _ _ H Hi) as (b & Hb & Hh).
  exists b. split; [by eapply list_elem_of_lookup_2|done].
Qed.

Lemma held_apart live al : Forall2 held live al -> all_apart al -> all_apart live.
Proof.
  induction 1 as [|r b live al Hh Hl IH]; [done|]. intros [Hb Ha]. split; [|auto].
  intros c Hc. destruct (held_inside _ _ _ Hl Hc) as (d & Hd & Hcd). specialize (Hb d Hd).
  unfold held, apart, sizeof_shm_buffer in *. lia.
Qed.

Lemma run_represents s live :
  heap_run s live -> exists fl al, represents base top s fl al /\ Forall2 held live al.
Proof.
  induction 1 as [s Hs|s live irq size rc p s' _ (fl & al & Hr & Hh) Hsize E
    |s l1 p size l2 _ (fl & al & Hr & Hh)|s live p _ (fl & al & Hr & Hh) Hne Hp|s live p _ IH].
  - eexists _, []. split; [by apply init_represents|done].
  - destruct irq; [cbn in E; simplify_eq; by exists fl, al|].
    pose proof (acquire_cases base top memory_bounds s fl al size Hr Hsize) as A. rewrite E in A.
    destruct A as [(E1 & -> & _)|(f1 & x & sz & f2 & got & rest & -> & Hfit & _ & Et & E1 & Hr' & _)];
      simplify_eq; [by exists fl, al|].
    eexists _, _. split; [exact Hr'|]. constructor; [|done].
    destruct (buffer_room_spec size) as (k & Hk & Hk2); [lia|].
    apply taken_spec in Et; [|unfold sizeof_shm_buffer in *; lia]. unfold held. cbn. lia.
  - apply Forall2_app_inv_l in Hh as (a1 & a' & H1 & H2 & ->).
    apply Forall2_cons_inv_l in H2 as ([x sz] & a2 & Hx & H2 & ->).
    destruct Hx as (Hx & _). cbn in Hx. subst p.
    eexists _, _. split; [exact (proj1 (release_live _ _ _ _ _ _ Hr))|by apply Forall2_app].
  - rewrite (release_other s fl al p Hr); [by exists fl, al| |].
    + intros ->. by apply Forall2_nil_inv_r in Hh.
    + intros Hin. apply Hp. replace p with (p - sizeof_shm_buffer + sizeof_shm_buffer) by lia.
      by apply (held_starts live al).
  - exact IH.
Qed.

(** The free chain of a heap, with the fuel that its loops have. *)
Lemma represents_free s fl al : represents base top s fl al ->
  exists q, lseg (hdr s) NULL (free_buf_chain s) fl q NULL /\ (length fl < chain_fuel s)%nat /\
    forall b, b ∈ fl -> within base top b.
Proof.
  intros ([q Hf] & _ & Hok). exists q. split; [done|].
  pose proof (heap_nodup _ _ _ _ Hok) as Hnd. rewrite starts_app in Hnd.
  apply NoDup_app in Hnd as (Nf & _ & _).
  assert (Hw : forall b, b ∈ fl -> within base top b)
    by (intros b Hb; apply (ok_within _ _ _ _ Hok), elem_of_app; by left).
  split; [|done]. apply (chain_length base top s (free_buf_chain s)); [by exists q|done|done].
Qed.

Lemma shared_mem_size_spec s fl al need : represents base top s fl al -> 0 < need ->
  need <= shared_mem_size s + sizeof_shm_buffer <-> exists b, b ∈ fl /\ need <= b.2.
Proof.
  intros Hr Hn. destruct (represents_free _ _ _ Hr) as (q & H & Hf & Hw).
  pose proof (biggest_bound _ _ _ _ _ _ 0 (top - base) H Hf) as B.
  unfold sizeof_shm_buffer in memory_bounds.
  unfold shared_mem_size, sizeof_shm_buffer.
  rewrite i32_small; [|cut (0 <= biggest (chain_fuel s) s (free_buf_chain s) 0 <= top - base);
    [lia|apply B; [lia|intros b Hb; specialize (Hw b Hb); unfold within in Hw; lia]]].
  rewrite Z.sub_add, (biggest_spec _ _ _ _ _ _ _ _ H Hf). split; [intros [?|?]; [lia|done]|auto].
Qed.

(** The totals that are printed. *)
Lemma command_shmem_spec s fl al : represents base top s fl al ->
  exists most, command_shmem s =
    (top - base, total al, total fl, most, max_allocated_size s) /\
    0 <= total al /\ 0 <= total fl.
Proof.
  intros Hr. destruct (represents_free _ _ _ Hr) as (q & H & Hf & Hw).
  pose proof Hr as (_ & [q' Ha] & Hok). pose proof (ok_total _ _ _ _ Hok) as Ht.
  assert (Hwa : forall b, b ∈ al -> within base top b)
    by (intros b Hb; apply (ok_within _ _ _ _ Hok), elem_of_app; by right).
  pose proof (total_pos base top fl Hw). pose proof (total_pos base top al Hwa).
  pose proof (heap_nodup _ _ _ _ Hok) as Hnd. rewrite starts_app in Hnd.
  apply NoDup_app in Hnd as (_ & _ & Na).
  pose proof (chain_length base top s (allocced_buf_chain s) al (ex_intro _ q' Ha) Hwa Na) as Hfa.
  unfold sizeof_shm_buffer in memory_bounds. unfold command_shmem.
  rewrite (chain_total_spec _ _ _ _ _ _ _ H Hf), (chain_total_spec _ _ _ _ _ _ _ Ha Hfa).
  - rewrite uN_small by lia. eexists. split; [|done]. repeat f_equal; lia.
  - intros b Hb. specialize (Hwa b Hb). unfold within, sizeof_shm_buffer in Hwa. lia.
  - lia.
  - lia.
  - intros b Hb. specialize (Hw b Hb). unfold within, sizeof_shm_buffer in Hw. lia.
  - lia.
  - lia.
Qed.

(** After any sequence of calls, an acquisition succeeds exactly when its bytes, rounded
    up to whole words and with a header, are at most what [shared_mem_size] reports with
    a header.  Then what it hands out is inside of the memory, apart from everything that
    is in use, and zero, and no other byte has changed; else it changes nothing. *)
Theorem acquire_fresh_memory s live size :
  heap_run s live -> 0 <= size < 2 ^ 28 ->
  let '((rc, p), s') := shared_mem_acquire false size s in
  if buffer_room size <=? shared_mem_size s + sizeof_shm_buffer then
    rc = EC.SUCCESS /\ base + sizeof_shm_buffer <= p /\ p + size <= top /\
    (forall r, r ∈ live -> apart r (p, size)) /\
    forall a, ram s' a = if (p <=? a) && (a <? p + size) then 0 else ram s a
  else rc = EC.ERROR_BUSY /\ p = NULL /\ s' = s.
Proof.
  intros Hrun Hsize. destruct (run_represents _ _ Hrun) as (fl & al & Hr & Hh).
  destruct (buffer_room_spec size) as (k & Hk & Hk2); [lia|].
  assert (Hneed : 0 < buffer_room size) by (unfold sizeof_shm_buffer in *; lia).
  pose proof (shared_mem_size_spec s fl al _ Hr Hneed) as Hiff.
  pose proof (acquire_cases base top memory_bounds s fl al size Hr Hsize) as A.
  destruct (shared_mem_acquire false size s) as [[rc p] s'].
  destruct A as [(E1 & -> & Hno)|(f1 & x & sz & f2 & got & rest & -> & Hfit & _ & Et & E1 & Hr' & Hm)];
    simplify_eq.
  - destruct (Z.leb_spec (buffer_room size) (shared_mem_size s + sizeof_shm_buffer)) as [L|L];
      [|done]. apply Hiff in L as (b & Hb & Hle). specialize (Hno b Hb). lia.
  - rewrite (proj2 (Z.leb_le _ _)).
    + pose proof Hr' as (_ & _ & Hok).
      apply taken_spec in Et; [|unfold sizeof_shm_buffer in *; lia].
      pose proof (ok_within _ _ _ _ Hok (x, got)) as Wx. unfold within in Wx. cbn in Wx.
      destruct Wx as (W1 & W2 & W3); [apply elem_of_app; right; apply list_elem_of_here|].
      split_and!; [done|lia|lia| |done]. intros r Hin.
      destruct (held_inside _ _ _ Hh Hin) as (b & Hb & Hrb).
      destruct (ok_apart _ _ _ _ Hok) as [Hx _]. specialize (Hx b Hb).
      unfold apart, held, sizeof_shm_buffer in *. cbn in *. lia.
    + apply Hiff. exists (x, sz). split; [|done]. apply elem_of_app. right.
      apply list_elem_of_here.
Qed.

(** C16. After any sequence of acquisitions and releases, also of pointers that are not in use
    while others are, what is in use is apart and inside of the memory, the free and the
    allocated bytes add up to the memory, and when nothing is in use any more the memory
    is one free buffer again. *)
Theorem heap_never_corrupted s live :
  heap_run s live ->
  all_apart live /\
  (forall r, r ∈ live -> base + sizeof_shm_buffer <= r.1 /\ r.1 + r.2 <= top) /\
  (exists allocated free most,
     command_shmem s = (top - base, allocated, free, most, max_allocated_size s) /\
     allocated + free = top - base) /\
  (live = [] -> free_buf_chain s = base /\ hdr s base = mkBuf NULL NULL (top - base)).
Proof.
  intros Hrun. destruct (run_represents _ _ Hrun) as (fl & al & Hr & Hh).
  pose proof Hr as ([q Hf] & _ & Hok). split_and!.
  - apply (held_apart live al Hh), Hok.
  - intros r Hin. destruct (held_inside _ _ _ Hh Hin) as (b & Hb & Hrb).
    assert (Hw : within base top b) by (apply (ok_within _ _ _ _ Hok), elem_of_app; by right).
    unfold within, held in *. lia.
  - destruct (command_shmem_spec s fl al Hr) as (most & -> & _).
    exists (total al), (total fl), most. split; [done|].
    pose proof (ok_total _ _ _ _ Hok). lia.
  - intros ->. apply Forall2_nil_inv_l in Hh as ->.
    pose proof (ok_total _ _ _ _ Hok) as Ht. cbn [total] in Ht.
    unfold sizeof_shm_buffer in memory_bounds.
    assert (E : fl = [(base, top - base)]).
    { apply (total_full base top); [lia|apply Hok| |lia]. intros c Hc.
      assert (Hw : within base top c) by (apply (ok_within _ _ _ _ Hok), elem_of_app; by left).
      unfold within, sizeof_shm_buffer in Hw. lia. }
    subst fl. destruct Hf as (E1 & _ & n & Hm & E2 & E3). by subst.
Qed.
End Heap.

(** A memory of 4 KB, two acquisitions and one release. *)
Definition blank_shmem : shmem := mkShm ∅ (fun _ => 0xa5) NULL NULL 0.
Definition shm0 : shmem := shared_mem_init 4096 8192 blank_shmem.
Definition shm1 : shmem := snd (shared_mem_acquire false 100 shm0).
Definition shm2 : shmem := snd (shared_mem_acquire false 6 shm1).
Definition shm3 : shmem := shared_mem_release false 4108 shm2.

Lemma toy_heap_memory : 0 < 4096 /\ 4096 + sizeof_shm_buffer <= 8192 /\ 8192 < 2 ^ 31 /\
  8192 - 4096 <= 0x10000000.
Proof. unfold sizeof_shm_buffer. lia. Qed.

Lemma toy_heap_run : heap_run 4096 8192 shm3 [(4220, 6)].
Proof.
  apply (run_release 4096 8192 shm2 [(4220, 6)] 4108 100 []).
  apply (run_acquire 4096 8192 shm1 [(4108, 100)] false 6 EC.SUCCESS 4220 shm2); [|lia|reflexivity].
  apply (run_acquire 4096 8192 shm0 [] false 100 EC.SUCCESS 4108 shm1); [|lia|reflexivity].
  by apply run_init.
Qed.

Lemma acquire_fresh_memory_witness :
  fst (shared_mem_acquire false 101 shm3) = (EC.SUCCESS, 4240) /\
  (forall r, r ∈ [(4220, 6)] -> apart r (4240, 101)).
Proof.
  pose proof (acquire_fresh_memory 4096 8192 toy_heap_memory shm3 [(4220, 6)] 101 toy_heap_run
    ltac:(lia)) as H.
  destruct (shared_mem_acquire false 101 shm3) as [[rc p] s'] eqn:E.
  assert (Ep : (rc, p) = (EC.SUCCESS, 4240)).
  { transitivity (fst (shared_mem_acquire false 101 shm3)); [by rewrite E|vm_compute; reflexivity]. }
  injection Ep as -> ->. cbn [fst]. split; [done|].
  assert (Hfit : (buffer_room 101 <=? shared_mem_size shm3 + sizeof_shm_buffer) = true)
    by (vm_compute; reflexivity).
  rewrite Hfit in H. by destruct H as (_ & _ & _ & H & _).
Defined.

Lemma heap_never_corrupted_witness :
  free_buf_chain (shared_mem_release false 4220 shm3) = 4096 /\
  hdr (shared_mem_release false 4220 shm3) 4096 = mkBuf NULL NULL 4096.
Proof.
  exact (proj2 (proj2 (proj2 (heap_never_corrupted 4096 8192 toy_heap_memory _ []
    (run_release 4096 8192 shm3 [] 4220 6 [] toy_heap_run)))) eq_refl).
Defined.
