(* ===== verification/FlashLog.v ===== *)
(** * The flash log (common/flash_log.c, common/flash_log_vc.c)

    The log is one page of the main array, written through the interface of the flash
    driver; compaction keeps its bytes in a buffer of the shared memory allocator.  An
    access holds a lock, so that each operation is one step.  Addresses in the log are
    offsets into the page.  What the driver itself logs about errors is not followed. *)

From S2P Require Import Prelude Vendor Crc8 Flash BoardId Shmalloc.

(** ** Entries *)

Definition FE_LOG_START : Z := 0.
Definition FE_LOG_CORRUPTED : Z := 1.
Definition FE_LOG_OVERFLOWS : Z := 3.
Definition FE_LOG_LOCKS : Z := 4.
Definition FE_LOG_PAD : Z := 253.
Definition FLASH_LOG_NO_ENTRY : Z := 0xff.

Definition LOG_SPACE : Z := 0x800.
(** [CONFIG_FLASH_LOG_BASE - CONFIG_PROGRAM_MEMORY_BASE] *)
Definition LOG_OFFSET : Z := RO_B_MEM_OFF + RO_SIZE - LOG_SPACE.

Definition MAX_FLASH_LOG_PAYLOAD_SIZE : Z := Z.shiftl 1 6 - 1.
Definition sizeof_flash_log_entry : Z := 7.

Definition FLASH_LOG_PAYLOAD_SIZE (size : Z) : Z := Z.land size MAX_FLASH_LOG_PAYLOAD_SIZE.
Definition FLASH_LOG_ENTRY_SIZE (payload_sz : Z) : Z :=
  Z.land (FLASH_LOG_PAYLOAD_SIZE payload_sz + sizeof_flash_log_entry + FLASH_WRITE_SIZE - 1)
    (Z.lxor UINT32_MAX (FLASH_WRITE_SIZE - 1)).

Definition COMPACTION_SPACE_PRESERVE : Z := LOG_SPACE / 4.
Definition STARTUP_LOG_FULL_WATERMARK : Z := LOG_SPACE * 3 / 4.
Definition RUN_TIME_LOG_FULL_WATERMARK : Z := LOG_SPACE * 9 / 10.
Definition FLASH_ERASED_VALUE32 : Z := UINT32_MAX.

Record flash_log_entry := mkEntry { timestamp : Z; esize : Z; etype : Z; ecrc : Z }.

Definition entry_header (e : flash_log_entry) : list Z :=
  le_bytes 4 (timestamp e) ++ [esize e; etype e; ecrc e].

(** The header at an offset of the log. *)
Definition entry_at (m : memory) (off : Z) : flash_log_entry :=
  let a := LOG_OFFSET + off in
  mkEntry (read_word m a) (m (a + 4)) (m (a + 5)) (m (a + 6)).

Definition log_bytes (m : memory) (off len : Z) : list Z :=
  read_bytes m (LOG_OFFSET + off) (Z.to_nat len).

Definition entry_is_valid (m : memory) (off : Z) : bool :=
  let r := entry_at m off in
  let entry_size := FLASH_LOG_ENTRY_SIZE (esize r) in
  if LOG_SPACE <? off + entry_size then false
  else
    let copy := mkEntry (timestamp r) (esize r) (etype r) 0 in
    let crc := crc8_arg (entry_header copy) 0 in
    crc8_arg (log_bytes m (off + sizeof_flash_log_entry) (FLASH_LOG_PAYLOAD_SIZE (esize r))) crc
      =? ecrc r.

(** The clock counts microseconds. *)
Class LogEnv (E : Type) := {
  get_time : ST E Z;
  in_interrupt_context : E -> bool
}.

Section FlashLog.
Context {F E : Type} `{!FlashDev F} `{!LogEnv E}.

(** The static variables of the file. *)
Record log_vars := mkVars {
  read_cursor : Z;
  prev_timestamp : Z;
  log_write_cursor : Z;
  log_tstamp_base : Z;
  last_used_timestamp : Z;
  log_inited : bool;
  log_event_in_progress : bool;
  lock_failures_count : Z;
  overflow_failures_count : Z;
  platform_flash_control : bool        (* flash_log_space_control is registered *)
}.

Record flog := mkFlog {
  vars : log_vars;
  log_flash : F;
  region5_wr_en : bool;                (* FLASH_REGION5_CTRL *)
  log_heap : shmem;
  log_env : E
}.

Definition set_vars (g : log_vars -> log_vars) : ST flog unit := modify (fun s =>
  mkFlog (g (vars s)) (log_flash s) (region5_wr_en s) (log_heap s) (log_env s)).

Definition set_read_context (c t : Z) (v : log_vars) : log_vars :=
  mkVars (u16 c) t (log_write_cursor v) (log_tstamp_base v) (last_used_timestamp v)
    (log_inited v) (log_event_in_progress v) (lock_failures_count v)
    (overflow_failures_count v) (platform_flash_control v).
Definition set_write_cursor (c : Z) (v : log_vars) : log_vars :=
  mkVars (read_cursor v) (prev_timestamp v) (u16 c) (log_tstamp_base v)
    (last_used_timestamp v) (log_inited v) (log_event_in_progress v)
    (lock_failures_count v) (overflow_failures_count v) (platform_flash_control v).
Definition set_tstamp_base (t : Z) (v : log_vars) : log_vars :=
  mkVars (read_cursor v) (prev_timestamp v) (log_write_cursor v) (u32 t)
    (last_used_timestamp v) (log_inited v) (log_event_in_progress v)
    (lock_failures_count v) (overflow_failures_count v) (platform_flash_control v).
Definition set_last_used (t : Z) (v : log_vars) : log_vars :=
  mkVars (read_cursor v) (prev_timestamp v) (log_write_cursor v) (log_tstamp_base v)
    (u32 t) (log_inited v) (log_event_in_progress v) (lock_failures_count v)
    (overflow_failures_count v) (platform_flash_control v).
Definition set_inited (v : log_vars) : log_vars :=
  mkVars (read_cursor v) (prev_timestamp v) (log_write_cursor v) (log_tstamp_base v)
    (last_used_timestamp v) true (log_event_in_progress v) (lock_failures_count v)
    (overflow_failures_count v) (platform_flash_control v).
Definition set_in_progress (b : bool) (v : log_vars) : log_vars :=
  mkVars (read_cursor v) (prev_timestamp v) (log_write_cursor v) (log_tstamp_base v)
    (last_used_timestamp v) (log_inited v) b (lock_failures_count v)
    (overflow_failures_count v) (platform_flash_control v).
Definition set_lock_failures (n : Z) (v : log_vars) : log_vars :=
  mkVars (read_cursor v) (prev_timestamp v) (log_write_cursor v) (log_tstamp_base v)
    (last_used_timestamp v) (log_inited v) (log_event_in_progress v) (u32 n)
    (overflow_failures_count v) (platform_flash_control v).
Definition set_overflow_failures (n : Z) (v : log_vars) : log_vars :=
  mkVars (read_cursor v) (prev_timestamp v) (log_write_cursor v) (log_tstamp_base v)
    (last_used_timestamp v) (log_inited v) (log_event_in_progress v)
    (lock_failures_count v) (u32 n) (platform_flash_control v).
Definition set_flash_control (v : log_vars) : log_vars :=
  mkVars (read_cursor v) (prev_timestamp v) (log_write_cursor v) (log_tstamp_base v)
    (last_used_timestamp v) (log_inited v) (log_event_in_progress v)
    (lock_failures_count v) (overflow_failures_count v) true.

Definition getv {A} (f : log_vars -> A) : ST flog A := gets (fun s => f (vars s)).
Definition flash_mem : ST flog memory := gets (fun s => flash_main (log_flash s)).

Definition on_flash {A} (m : ST F A) : ST flog A := fun s =>
  let '(a, f) := m (log_flash s) in
  (a, mkFlog (vars s) f (region5_wr_en s) (log_heap s) (log_env s)).
Definition on_heap {A} (m : ST shmem A) : ST flog A := fun s =>
  let '(a, h) := m (log_heap s) in
  (a, mkFlog (vars s) (log_flash s) (region5_wr_en s) h (log_env s)).
Definition on_env {A} (m : ST E A) : ST flog A := fun s =>
  let '(a, e) := m (log_env s) in
  (a, mkFlog (vars s) (log_flash s) (region5_wr_en s) (log_heap s) e).

(** ** Access to the flash *)

Definition flash_log_erase : ST flog Z := on_flash (flash_physical_erase LOG_OFFSET LOG_SPACE).

Definition flash_log_write (log_offset : Z) (data : list Z) : ST flog Z :=
  on_flash (flash_physical_write (log_offset + LOG_OFFSET) data).

Definition flash_log_space_control (enable : bool) : ST flog unit := modify (fun s =>
  mkFlog (vars s) (log_flash s) enable (log_heap s) (log_env s)).

Definition flash_log_write_enable : ST flog unit :=
  let* registered := getv platform_flash_control in
  if registered then flash_log_space_control true else ret tt.
Definition flash_log_write_disable : ST flog unit :=
  let* registered := getv platform_flash_control in
  if registered then flash_log_space_control false else ret tt.

Definition flash_log_register_flash_control_callback : ST flog unit :=
  set_vars set_flash_control.

Definition irq_context : ST flog bool := gets (fun s => in_interrupt_context (log_env s)).

Definition flash_log_lock_successful : ST flog bool :=
  let* irq := irq_context in
  if irq then ret false else
  let* inited := getv log_inited in
  if negb inited then ret false else
  let* busy := getv log_event_in_progress in
  if busy then ret false else
  set_vars (set_in_progress true) ;;;
  ret true.

Definition seconds : ST flog Z := let* t := on_env get_time in ret (t / 1000000).

Definition flash_log_get_tstamp : ST flog Z :=
  let* base := getv log_tstamp_base in
  let* t := seconds in
  ret (u32 (base + t)).

Definition flash_log_set_tstamp (tstamp : Z) : ST flog Z :=
  let* last := getv last_used_timestamp in
  if tstamp <=? last then ret EC.ERROR_INVAL else
  let* t := seconds in
  set_vars (set_tstamp_base (tstamp - t)) ;;;
  ret EC.SUCCESS.

(** ** Compaction *)

(** An entry takes at least eight bytes of the page. *)
Definition log_fuel : nat := 257.

(** [memcpy] into memory that the allocator has handed out. *)
Definition copy_to_ram (dst : Z) (data : list Z) : ST shmem unit := modify (fun h =>
  mkShm (hdrs h)
    (fun a => if (dst <=? a) && (a <? dst + Z.of_nat (length data)) then at_ data (a - dst)
              else ram h a)
    (free_buf_chain h) (allocced_buf_chain h) (max_allocated_size h)).

Definition ram_bytes (h : shmem) (a : Z) (n : nat) : list Z :=
  map (fun i => ram h (a + Z.of_nat i)) (seq 0 n).

Fixpoint compact_loop (fuel : nat) (read_cursor compac_cursor buf : Z) : ST flog Z :=
  match fuel with
  | O => ret compac_cursor
  | S fuel =>
      let* write_cursor := getv log_write_cursor in
      if negb (read_cursor <? write_cursor) then ret compac_cursor else
      let* m := flash_mem in
      if negb (entry_is_valid m read_cursor) then ret compac_cursor else
      let entry_space := FLASH_LOG_ENTRY_SIZE (esize (entry_at m read_cursor)) in
      if write_cursor - read_cursor <=? COMPACTION_SPACE_PRESERVE then
        on_heap (copy_to_ram (buf + compac_cursor) (log_bytes m read_cursor entry_space)) ;;;
        compact_loop fuel (u16 (read_cursor + entry_space))
          (u16 (compac_cursor + entry_space)) buf
      else compact_loop fuel (u16 (read_cursor + entry_space)) compac_cursor buf
  end.

Definition try_compacting : ST flog unit :=
  let* irq := irq_context in
  let* (rc, buf) := on_heap (shared_mem_acquire irq COMPACTION_SPACE_PRESERVE) in
  if negb (rc =? EC.SUCCESS) then ret tt else
  let* compac_cursor := compact_loop log_fuel 0 0 buf in
  flash_log_write_enable ;;;
  flash_log_erase ;;;
  let* h := gets log_heap in
  flash_log_write 0 (ram_bytes h buf (Z.to_nat compac_cursor)) ;;;
  set_vars (set_write_cursor compac_cursor) ;;;
  flash_log_write_disable ;;;
  on_heap (modify (shared_mem_release irq buf)) ;;;
  set_vars (set_read_context 0 0).

(** ** Adding events *)

(** The bytes that are written for an event. *)
Definition entry_bytes (ts type size : Z) (payload : list Z) : list Z :=
  let payload := take (Z.to_nat size) payload in
  let unsealed := entry_header (mkEntry ts size type 0) ++ payload in
  let sealed := entry_header (mkEntry ts size type (crc8_arg unsealed 0)) ++ payload in
  sealed ++ replicate (Z.to_nat (FLASH_LOG_ENTRY_SIZE size) - length sealed) FE_LOG_PAD.

Definition flash_log_add_event_core (type size : Z) (payload : list Z) : ST flog Z :=
  if MAX_FLASH_LOG_PAYLOAD_SIZE <? size then ret EC.ERROR_INVAL else
  let* locked := flash_log_lock_successful in
  if negb locked then
    let* n := getv lock_failures_count in
    set_vars (set_lock_failures (n + 1)) ;;;
    ret EC.ERROR_INVAL
  else
  let padded_entry_size := FLASH_LOG_ENTRY_SIZE size in
  let* cursor := getv log_write_cursor in
  (if RUN_TIME_LOG_FULL_WATERMARK <? cursor then try_compacting else ret tt) ;;;
  let* cursor := getv log_write_cursor in
  if LOG_SPACE - cursor <? padded_entry_size then
    let* n := getv overflow_failures_count in
    set_vars (set_overflow_failures (n + 1)) ;;;
    set_vars (set_in_progress false) ;;;
    ret EC.ERROR_INVAL
  else
  let* new_timestamp := flash_log_get_tstamp in
  let* last := getv last_used_timestamp in
  set_vars (set_last_used (if new_timestamp <=? last then last + 1 else new_timestamp)) ;;;
  let* ts := getv last_used_timestamp in
  flash_log_write_enable ;;;
  flash_log_write cursor (entry_bytes ts type size payload) ;;;
  flash_log_write_disable ;;;
  set_vars (set_write_cursor (cursor + padded_entry_size)) ;;;
  set_vars (set_in_progress false) ;;;
  ret EC.SUCCESS.

Definition report_failure (type : Z) (counter : log_vars -> Z)
    (set_counter : Z -> log_vars -> log_vars) : ST flog unit :=
  let* n := getv counter in
  let reported_counter := u8 n in
  let reported_counter := if 255 <? reported_counter then 255 else reported_counter in
  let* rv := flash_log_add_event_core type 1 [reported_counter] in
  if rv =? EC.SUCCESS then set_vars (set_counter 0) else ret tt.

Definition flash_log_add_event (type size : Z) (payload : list Z) : ST flog unit :=
  let* locks := getv lock_failures_count in
  (if nz locks then report_failure FE_LOG_LOCKS lock_failures_count set_lock_failures
   else ret tt) ;;;
  let* overflows := getv overflow_failures_count in
  (if nz overflows
   then report_failure FE_LOG_OVERFLOWS overflow_failures_count set_overflow_failures
   else ret tt) ;;;
  flash_log_add_event_core type size payload ;;;
  ret tt.

(** ** Retrieving events *)

(** Goes to the first entry after [event_after]: its offset, no entry, or an error. *)
Fixpoint dequeue_loop (fuel : nat) (event_after : Z) : ST flog (result (option Z)) :=
  match fuel with
  | O => ret (Err EC.ERROR_INVAL)
  | S fuel =>
      let* cursor := getv read_cursor in
      let* m := flash_mem in
      let r := entry_at m cursor in
      if timestamp r =? FLASH_ERASED_VALUE32 then ret (Ok None) else
      if negb (entry_is_valid m cursor) then ret (Err EC.ERROR_INVAL) else
      let* prev := getv prev_timestamp in
      set_vars (set_read_context (cursor + FLASH_LOG_ENTRY_SIZE (esize r)) prev) ;;;
      if timestamp r <=? event_after then dequeue_loop fuel event_after
      else ret (Ok (Some cursor))
  end.

(** The result, and the bytes that are copied to the buffer. *)
Definition flash_log_dequeue_event (event_after buffer_size : Z) : ST flog (Z * list Z) :=
  let* locked := flash_log_lock_successful in
  if negb locked then ret (- EC.ERROR_BUSY, []) else
  let* prev := getv prev_timestamp in
  (if negb (nz event_after) || (event_after <? prev) then set_vars (set_read_context 0 0)
   else ret tt) ;;;
  let* cursor := getv read_cursor in
  let* res :=
    if LOG_SPACE - sizeof_flash_log_entry <? cursor then ret (0, []) else
    let* found := dequeue_loop log_fuel event_after in
    match found with
    | Err code => ret (- code, [])
    | Ok None => ret (0, [])
    | Ok (Some at_offset) =>
        let* m := flash_mem in
        let r := entry_at m at_offset in
        let copy_size := FLASH_LOG_PAYLOAD_SIZE (esize r) + sizeof_flash_log_entry in
        if buffer_size <? copy_size then
          set_vars (set_read_context 0 0) ;;;
          ret (- EC.ERROR_MEMORY_ALLOCATION, [])
        else
          let* cursor := getv read_cursor in
          set_vars (set_read_context cursor (timestamp r)) ;;;
          ret (copy_size, log_bytes m at_offset copy_size)
    end in
  set_vars (set_in_progress false) ;;;
  ret res.

(** ** Start-up *)

(** Goes over the valid entries: where they end. *)
Fixpoint init_loop (fuel : nat) (cursor : Z) : ST flog Z :=
  match fuel with
  | O => ret cursor
  | S fuel =>
      let* m := flash_mem in
      if negb (entry_is_valid m cursor) then ret cursor else
      let r := entry_at m cursor in
      set_vars (set_last_used (timestamp r)) ;;;
      init_loop fuel (u16 (cursor + FLASH_LOG_ENTRY_SIZE (esize r)))
  end.

Definition flash_log_init : ST flog unit :=
  let* read_cursor := init_loop log_fuel 0 in
  let* last := getv last_used_timestamp in
  set_vars (set_tstamp_base (last + 1)) ;;;
  set_vars (set_write_cursor read_cursor) ;;;
  set_vars set_inited ;;;
  flash_log_write_enable ;;;
  let* m := flash_mem in
  (if negb (timestamp (entry_at m read_cursor) =? FLASH_ERASED_VALUE32) then
     try_compacting ;;;
     flash_log_add_event FE_LOG_CORRUPTED 0 []
   else if nz read_cursor then
     if STARTUP_LOG_FULL_WATERMARK <? read_cursor then try_compacting else ret tt
   else flash_log_add_event FE_LOG_START 0 []) ;;;
  flash_log_write_disable.

(** ** Commands *)

(** Dumps the entries after [stamp]; [argv[1]] is read as [stamp].  The result holds what
    is printed of each entry. *)
Fixpoint dump_loop (fuel : nat) (stamp : Z) (printed : list (list Z)) :
    ST flog (list (list Z)) :=
  match fuel with
  | O => ret printed
  | S fuel =>
      let* (rv, e) :=
        flash_log_dequeue_event stamp (FLASH_LOG_ENTRY_SIZE MAX_FLASH_LOG_PAYLOAD_SIZE) in
      if negb (0 <? rv) then ret printed
      else dump_loop fuel (le_val (take 4 e)) (printed ++ [e])
  end.

Definition command_flash_log (argc stamp : Z) : ST flog (Z * list (list Z)) :=
  if 3 <=? argc then ret (EC.ERROR_PARAM_COUNT, []) else
  let* printed := dump_loop log_fuel (if argc =? 2 then u32 stamp else 0) [] in
  ret (EC.SUCCESS, printed).

(** [flogedit -e] *)
Definition command_flash_log_erase : ST flog Z :=
  flash_log_write_enable ;;;
  let* rv := flash_log_erase in
  flash_log_write_disable ;;;
  set_vars (set_read_context 0 0) ;;;
  set_vars (set_write_cursor 0) ;;;
  ret rv.

(** [dash_e] is the comparison of [argv[1]], [type] and [size] are the numbers in
    [argv[1]] and [argv[2]]. *)
Definition command_flash_log_edit (argc : Z) (dash_e : bool) (type size : Z) : ST flog Z :=
  if (argc <=? 1) || (3 <? argc) then ret EC.ERROR_PARAM_COUNT else
  if (argc =? 2) && dash_e then command_flash_log_erase else
  if negb (argc =? 3) then ret EC.ERROR_PARAM_COUNT else
  if FLASH_LOG_NO_ENTRY <=? u32 type then ret EC.ERROR_PARAM2 else
  if MAX_FLASH_LOG_PAYLOAD_SIZE <? u32 size then ret EC.ERROR_PARAM3 else
  flash_log_add_event (u32 type) (u32 size)
    (map (fun i => u8 (u32 type + Z.of_nat i)) (seq 0 (Z.to_nat (u32 size)))) ;;;
  ret EC.SUCCESS.

(** ** Vendor commands *)

Definition vc_pop_log_entry : handler flog := fun p =>
  if negb (in_size p =? 4) then ret (RC.VENDOR_RC_BOGUS_ARGS, set_out_size p 0) else
  let prev_timestamp := le_val (sub 0 4 (buffer p)) in
  let* (byte_size, e) :=
    flash_log_dequeue_event prev_timestamp (FLASH_LOG_ENTRY_SIZE MAX_FLASH_LOG_PAYLOAD_SIZE) in
  if 0 <=? byte_size then
    ret (RC.VENDOR_RC_SUCCESS,
         set_out_size (set_buffer p (splice 0 e (buffer p))) byte_size)
  else ret (RC.VENDOR_RC_INTERNAL_ERROR, answer p (- byte_size)).

Definition vc_flog_tstamp : handler flog := fun p =>
  if in_size p =? 0 then
    let* tstamp := flash_log_get_tstamp in
    ret (RC.VENDOR_RC_SUCCESS,
         set_out_size (set_buffer p (splice 0 (be_bytes 4 tstamp) (buffer p))) 4)
  else if negb (in_size p =? 4) then ret (RC.VENDOR_RC_BOGUS_ARGS, p)
  else
    let tstamp := be_val (sub 0 4 (buffer p)) in
    let* rv := flash_log_set_tstamp tstamp in
    if rv =? EC.SUCCESS then ret (RC.VENDOR_RC_SUCCESS, set_out_size p 0)
    else ret (RC.VENDOR_RC_BOGUS_ARGS, answer p rv).
End FlashLog.

Arguments flog F E : clear implicits.
