(* ===== verification/FlashLogProps.v ===== *)
(** * The flash log: its entries, and how the page holds them *)

From S2P Require Import Prelude Vendor Crc8 Flash FlashProps BoardId Shmalloc FlashLog.

(** ** Sizes *)

Lemma entry_size_spec s : 0 <= s < 256 ->
  8 <= FLASH_LOG_ENTRY_SIZE s <= 72 /\ FLASH_LOG_ENTRY_SIZE s mod 4 = 0 /\
  FLASH_LOG_PAYLOAD_SIZE s + 7 <= FLASH_LOG_ENTRY_SIZE s /\ 0 <= FLASH_LOG_PAYLOAD_SIZE s.
Proof.
  intros Hs.
  assert (H : all_below 256 (fun s => (8 <=? FLASH_LOG_ENTRY_SIZE s)
    && (FLASH_LOG_ENTRY_SIZE s <=? 72) && (FLASH_LOG_ENTRY_SIZE s mod 4 =? 0)
    && (FLASH_LOG_PAYLOAD_SIZE s + 7 <=? FLASH_LOG_ENTRY_SIZE s)
    && (0 <=? FLASH_LOG_PAYLOAD_SIZE s)) = true) by (vm_compute; reflexivity).
  apply (all_below_spec _ _ s) in H; [|done].
  rewrite !andb_true_iff, !Z.leb_le, Z.eqb_eq in H. tauto.
Qed.

Lemma payload_size_small s : 0 <= s <= 63 -> FLASH_LOG_PAYLOAD_SIZE s = s.
Proof.
  intros Hs. assert (H : all_below 64 (fun s => FLASH_LOG_PAYLOAD_SIZE s =? s) = true)
    by (vm_compute; reflexivity).
  apply (all_below_spec _ _ s) in H; [by apply Z.eqb_eq|lia].
Qed.

(** Any header read from memory has a size of a byte or not; the mask bounds it anyway. *)
Lemma payload_size_range s : 0 <= FLASH_LOG_PAYLOAD_SIZE s <= 63.
Proof.
  unfold FLASH_LOG_PAYLOAD_SIZE. change MAX_FLASH_LOG_PAYLOAD_SIZE with (Z.ones 6).
  rewrite Z.land_ones by lia. change (2 ^ 6) with 64. pose proof (Z.mod_pos_bound s 64). lia.
Qed.

Lemma entry_size_mask s : FLASH_LOG_ENTRY_SIZE s = FLASH_LOG_ENTRY_SIZE (FLASH_LOG_PAYLOAD_SIZE s).
Proof.
  unfold FLASH_LOG_ENTRY_SIZE. pose proof (payload_size_range s).
  by rewrite (payload_size_small (FLASH_LOG_PAYLOAD_SIZE s)).
Qed.

Lemma entry_size_range s : 8 <= FLASH_LOG_ENTRY_SIZE s <= 72 /\ FLASH_LOG_ENTRY_SIZE s mod 4 = 0.
Proof.
  rewrite entry_size_mask. pose proof (payload_size_range s).
  destruct (entry_size_spec (FLASH_LOG_PAYLOAD_SIZE s)) as (? & ? & _); [lia|done].
Qed.

(** ** Events as bytes *)

Record event := mkEvent { ev_ts : Z; ev_type : Z; ev_data : list Z }.

Definition ev_len (e : event) : Z := Z.of_nat (length (ev_data e)).

Definition wf_event (e : event) : Prop :=
  0 < ev_ts e < UINT32_MAX /\ is_byte (ev_type e) /\ bytes (ev_data e) /\ ev_len e <= 63.

(** What the page holds of an event, and what a reader gets. *)
Definition sealed (e : event) : list Z :=
  entry_bytes (ev_ts e) (ev_type e) (ev_len e) (ev_data e).
Definition seal (e : event) : flash_log_entry :=
  mkEntry (ev_ts e) (ev_len e) (ev_type e)
    (crc8_arg (entry_header (mkEntry (ev_ts e) (ev_len e) (ev_type e) 0) ++ ev_data e) 0).
Definition delivered (e : event) : list Z := entry_header (seal e) ++ ev_data e.
Definition space (e : event) : Z := FLASH_LOG_ENTRY_SIZE (ev_len e).

Lemma sealed_delivered e :
  sealed e = delivered e ++ replicate (Z.to_nat (space e) - length (delivered e)) FE_LOG_PAD.
Proof.
  unfold sealed, entry_bytes, delivered, seal, ev_len. rewrite Nat2Z.id.
  by rewrite take_ge by lia.
Qed.

Lemma length_delivered e : Z.of_nat (length (delivered e)) = ev_len e + 7.
Proof.
  unfold delivered, entry_header, ev_len. rewrite !length_app, length_le_bytes. cbn. lia.
Qed.

Lemma space_spec e : wf_event e -> ev_len e + 7 <= space e <= 72 /\ 8 <= space e /\ space e mod 4 = 0.
Proof.
  intros (_ & _ & _ & Hl). unfold space, ev_len in *.
  destruct (entry_size_spec (Z.of_nat (length (ev_data e)))) as (? & ? & Hp & _); [lia|].
  rewrite payload_size_small in Hp by lia. lia.
Qed.

Lemma length_sealed e : wf_event e -> Z.of_nat (length (sealed e)) = space e.
Proof.
  intros He. pose proof (space_spec e He). pose proof (length_delivered e).
  rewrite sealed_delivered, length_app, length_replicate. lia.
Qed.

Lemma bytes_header ts n ty c :
  is_byte n -> is_byte ty -> is_byte c -> bytes (entry_header (mkEntry ts n ty c)).
Proof.
  intros. apply bytes_app; [apply bytes_le_bytes|]. cbn.
  repeat (apply Forall_cons; split; [done|]). constructor.
Qed.

Lemma bytes_delivered e : wf_event e -> bytes (delivered e).
Proof.
  intros (Ht & Hb & Hd & Hl). apply bytes_app; [|done]. apply bytes_header; [|done|apply crc8_arg_byte].
  unfold is_byte, ev_len in *. lia.
Qed.

Lemma bytes_sealed e : wf_event e -> bytes (sealed e).
Proof.
  intros He. rewrite sealed_delivered. apply bytes_app; [by apply bytes_delivered|].
  apply Forall_replicate. unfold is_byte, FE_LOG_PAD. lia.
Qed.

(** ** Reading the page *)

Lemma length_read_bytes m a n : length (read_bytes m a n) = n.
Proof. unfold read_bytes. by rewrite length_map, length_seq. Qed.

Lemma read_bytes_app m a n k :
  read_bytes m a (n + k) = read_bytes m a n ++ read_bytes m (a + Z.of_nat n) k.
Proof.
  rewrite <- (take_drop n (read_bytes m a (n + k))). f_equal.
  - transitivity (sub 0 n (read_bytes m a (n + k))); [done|].
    rewrite sub_read_bytes by lia. f_equal. lia.
  - transitivity (sub n k (read_bytes m a (n + k))); [|by rewrite sub_read_bytes by lia].
    unfold sub. rewrite take_ge; [done|]. rewrite length_drop, length_read_bytes. lia.
Qed.

(** A prefix of what is at an address is there too. *)
Lemma read_bytes_prefix m a l1 l2 n :
  read_bytes m a n = l1 ++ l2 -> read_bytes m a (length l1) = l1.
Proof.
  intros E. pose proof (f_equal length E) as El. rewrite length_read_bytes, length_app in El.
  subst n. rewrite read_bytes_app in E. by apply app_inj_1 in E as [E _]; [|apply length_read_bytes].
Qed.

Lemma read_bytes_suffix m a l1 l2 n :
  read_bytes m a n = l1 ++ l2 -> read_bytes m (a + Z.of_nat (length l1)) (length l2) = l2.
Proof.
  intros E. pose proof (f_equal length E) as El. rewrite length_read_bytes, length_app in El.
  subst n. rewrite read_bytes_app in E. by apply app_inj_1 in E as [_ E]; [|apply length_read_bytes].
Qed.

Lemma entry_at_header m off e :
  0 <= timestamp e < 2 ^ 32 -> read_bytes m (LOG_OFFSET + off) 7 = entry_header e ->
  entry_at m off = e.
Proof.
  intros Ht E. unfold entry_header in E.
  pose proof (read_bytes_prefix _ _ _ _ _ E) as E1.
  pose proof (read_bytes_suffix _ _ _ _ _ E) as E2.
  rewrite length_le_bytes in E1, E2. change (Z.of_nat 4) with 4 in E2.
  unfold entry_at, read_word. rewrite E1, le_val_bytes by done.
  unfold read_bytes in E2. cbn [length seq map] in E2. injection E2 as E4 E5 E6.
  set (a := LOG_OFFSET + off) in *. destruct e as [t s ty c]. cbn in *. f_equal.
  - rewrite <- E4. f_equal. lia.
  - rewrite <- E5. f_equal. lia.
  - rewrite <- E6. f_equal. lia.
Qed.

(** Where an event is stored its header reads back, and the entry is valid. *)
Definition stored_at (m : memory) (off : Z) (e : event) : Prop :=
  log_bytes m off (space e) = sealed e.

Lemma stored_delivered m off e : wf_event e -> stored_at m off e ->
  read_bytes m (LOG_OFFSET + off) (length (delivered e)) = delivered e.
Proof.
  intros He E. unfold stored_at, log_bytes in E. rewrite sealed_delivered in E.
  by apply read_bytes_prefix in E.
Qed.

Lemma stored_entry m off e : wf_event e -> stored_at m off e -> entry_at m off = seal e.
Proof.
  intros He E. apply stored_delivered in E; [|done]. unfold delivered in E.
  apply read_bytes_prefix in E. apply entry_at_header; [|exact E].
  destruct He as (Ht & _). unfold UINT32_MAX in Ht. cbn. lia.
Qed.

Lemma stored_valid m off e :
  wf_event e -> stored_at m off e -> off + space e <= LOG_SPACE -> entry_is_valid m off = true.
Proof.
  intros He E Hfit. pose proof (stored_entry _ _ _ He E) as Eh.
  apply stored_delivered in E; [|done]. unfold delivered in E.
  apply read_bytes_suffix in E. unfold entry_is_valid. rewrite Eh. cbn [esize seal].
  fold (space e). destruct (Z.ltb_spec LOG_SPACE (off + space e)); [lia|].
  cbn [timestamp etype ecrc seal]. destruct He as (_ & Hty & _ & Hl).
  rewrite payload_size_small by (unfold ev_len in *; lia). apply Z.eqb_eq.
  assert (Hp : log_bytes m (off + sizeof_flash_log_entry) (ev_len e) = ev_data e).
  { unfold log_bytes, ev_len. rewrite Nat2Z.id. rewrite <- E at 2. f_equal.
    unfold entry_header, sizeof_flash_log_entry. rewrite length_app, length_le_bytes. cbn. lia. }
  rewrite Hp. apply crc8_arg_app, bytes_header; unfold is_byte, ev_len in *; lia.
Qed.

(** ** The page: events one after the other, then erased bytes *)

Fixpoint used (es : list event) : Z :=
  match es with [] => 0 | e :: es => space e + used es end.

Fixpoint lays (m : memory) (off : Z) (es : list event) (wr : Z) : Prop :=
  match es with
  | [] => off = wr
  | e :: es => stored_at m off e /\ lays m (off + space e) es wr
  end.

Definition blank (m : memory) (off : Z) : Prop :=
  forall a, off <= a < LOG_SPACE -> m (LOG_OFFSET + a) = 255.

Lemma used_app l k : used (l ++ k) = used l + used k.
Proof. induction l; cbn; lia. Qed.

Lemma used_spec es : Forall wf_event es -> 0 <= used es /\ used es mod 4 = 0 /\
  8 * Z.of_nat (length es) <= used es.
Proof.
  induction 1 as [|e es He _ IH]; [done|]. cbn [used length]. destruct (space_spec e He) as (_ & ? & ?).
  Z.div_mod_to_equations. lia.
Qed.

Lemma lays_used m off es wr : lays m off es wr -> wr = off + used es.
Proof.
  revert off. induction es as [|e es IH]; intros off; cbn; [lia|].
  intros [_ H]. apply IH in H. lia.
Qed.

Lemma lays_app m off l k wr :
  lays m off (l ++ k) wr <-> lays m off l (off + used l) /\ lays m (off + used l) k wr.
Proof.
  revert off. induction l as [|e l IH]; intros off; cbn [app lays used].
  - rewrite Z.add_0_r. tauto.
  - rewrite IH. rewrite !Z.add_assoc. tauto.
Qed.

(** Only the bytes of the page up to [wr] matter. *)
Lemma read_bytes_frame (m m' : memory) a n :
  (forall i, a <= i < a + Z.of_nat n -> m' i = m i) -> read_bytes m' a n = read_bytes m a n.
Proof.
  intros H. unfold read_bytes. apply map_ext_in. intros i Hi. apply in_seq in Hi. apply H. lia.
Qed.

Lemma lays_frame m m' off es wr :
  (forall a, off <= a < wr -> m' (LOG_OFFSET + a) = m (LOG_OFFSET + a)) ->
  Forall wf_event es -> lays m off es wr -> lays m' off es wr.
Proof.
  intros Hf Hes. revert off Hf. induction Hes as [|e es He Hes IH]; intros off Hf; cbn; [done|].
  intros [Hs H]. pose proof (lays_used _ _ _ _ H) as Hw. destruct (used_spec es Hes) as [Hu _].
  destruct (space_spec e He) as (_ & Hsp & _). split.
  - unfold stored_at, log_bytes in *. rewrite <- Hs. apply read_bytes_frame. intros i Hi.
    replace i with (LOG_OFFSET + (i - LOG_OFFSET)) by lia. apply Hf. lia.
  - apply IH; [|done]. intros a Ha. apply Hf. lia.
Qed.

Lemma blank_bytes m off k : blank m off -> 0 <= k -> off + k <= LOG_SPACE ->
  read_bytes m (LOG_OFFSET + off) (Z.to_nat k) = replicate (Z.to_nat k) 255.
Proof.
  intros Hb Hk Hle. apply list_eq. intros i. unfold read_bytes.
  change (map ?f ?l) with (f <$> l). rewrite list_lookup_fmap.
  destruct (decide (i < Z.to_nat k)%nat).
  - rewrite lookup_seq_lt, lookup_replicate_2 by done. cbn. f_equal.
    rewrite <- Z.add_assoc. apply Hb. lia.
  - rewrite !lookup_ge_None_2; [done|rewrite length_replicate; lia|rewrite length_seq; lia].
Qed.

Lemma blank_entry m off : blank m off -> off + 7 <= LOG_SPACE ->
  entry_at m off = mkEntry FLASH_ERASED_VALUE32 255 255 255.
Proof.
  intros Hb Hle. apply entry_at_header; [done|].
  etrans; [apply (blank_bytes m off 7); done || lia|reflexivity].
Qed.

Lemma blank_timestamp m off : blank m off -> off + 4 <= LOG_SPACE ->
  timestamp (entry_at m off) = FLASH_ERASED_VALUE32.
Proof.
  intros Hb Hle. unfold entry_at, read_word. cbn [timestamp].
  transitivity (le_val (replicate 4 255)); [|reflexivity]. f_equal.
  by apply (blank_bytes m off 4).
Qed.

(** Erased space is not taken for an entry: the CRC of an erased entry is not 0xff. *)
Lemma blank_invalid m off : blank m off -> off mod 4 = 0 -> entry_is_valid m off = false.
Proof.
  intros Hb Hm. unfold entry_is_valid. pose proof (entry_size_range (esize (entry_at m off))) as Hr.
  destruct (Z.ltb_spec LOG_SPACE (off + FLASH_LOG_ENTRY_SIZE (esize (entry_at m off)))); [done|].
  assert (Hm7 : off + 7 <= LOG_SPACE) by (unfold LOG_SPACE in *; lia).
  rewrite (blank_entry m off Hb Hm7) in *. cbn [esize etype timestamp ecrc] in *.
  change (FLASH_LOG_ENTRY_SIZE 255) with 72 in *.
  change (FLASH_LOG_PAYLOAD_SIZE 255) with 63. unfold log_bytes.
  rewrite (blank_bytes m (off + sizeof_flash_log_entry) 63); unfold sizeof_flash_log_entry.
  - vm_compute. reflexivity.
  - intros a Ha. apply Hb. lia.
  - lia.
  - lia.
Qed.
