(* ===== verification/FlashLogOps.v ===== *)
(** * The flash log: its loops, compaction, and the events that operations leave *)

From S2P Require Import Prelude Vendor Crc8 Flash FlashProps BoardId Shmalloc ShmallocProps ShmallocHeap ShmallocRun FlashLog FlashLogProps.

(** A device on which writes and erasures of whole words and pages succeed: the log does
    not look at their results. *)
Class FlashReliable (F : Type) `{!FlashDev F} := {
  reliable : F -> Prop;
  reliable_write off data f :
    reliable f -> bytes data -> 0 <= off -> off + Z.of_nat (length data) <= FLASH_SIZE ->
    off mod 4 = 0 -> Z.of_nat (length data) mod 4 = 0 ->
    exists f', flash_physical_write off data f = (EC.SUCCESS, f') /\ reliable f';
  reliable_erase off f :
    reliable f -> 0 <= off -> off + LOG_SPACE <= FLASH_SIZE -> off mod LOG_SPACE = 0 ->
    exists f', flash_physical_erase off LOG_SPACE f = (EC.SUCCESS, f') /\ reliable f'
}.

(** Reading the clock does not change where the code runs. *)
Class LogEnvLaws (E : Type) `{!LogEnv E} : Prop := {
  get_time_range e : 0 <= (get_time e).1;
  get_time_irq e : in_interrupt_context (get_time e).2 = in_interrupt_context e
}.

Section Log.
Context {F E : Type} `{!FlashDev F} `{!FlashDevLaws F} `{!FlashReliable F}.
Context `{!LogEnv E} `{!LogEnvLaws E}.
Implicit Types s : flog F E.

Definition with_vars (g : log_vars -> log_vars) s : flog F E :=
  mkFlog (g (vars s)) (log_flash s) (region5_wr_en s) (log_heap s) (log_env s).
Definition with_heap (h : shmem) s : flog F E :=
  mkFlog (vars s) (log_flash s) (region5_wr_en s) h (log_env s).

Definition page s : memory := flash_main (log_flash s).

Lemma u16_cursor x : 0 <= x <= LOG_SPACE -> u16 x = x.
Proof. unfold LOG_SPACE. intros. apply uN_small. lia. Qed.

Lemma set_read_context_same v : 0 <= read_cursor v <= LOG_SPACE ->
  set_read_context (read_cursor v) (prev_timestamp v) v = v.
Proof. intros H. unfold set_read_context. rewrite u16_cursor by done. by destruct v. Qed.

(** ** The loops *)

Definition stamped (es : list event) (v : log_vars) : log_vars :=
  match last es with Some e => set_last_used (ev_ts e) v | None => v end.

Lemma stamped_cons e es v : stamped es (set_last_used (ev_ts e) v) = stamped (e :: es) v.
Proof.
  unfold stamped. destruct es as [|e' es]; [done|]. cbn [last].
  change (match es with [] => Some e' | _ :: _ => last es end) with (last (e' :: es)).
  destruct (last (e' :: es)) eqn:Hl; [done|]. by apply last_None in Hl.
Qed.

Lemma init_loop_spec fuel off es wr s :
  lays (page s) off es wr -> Forall wf_event es -> 0 <= off -> wr <= LOG_SPACE ->
  entry_is_valid (page s) wr = false -> (length es < fuel)%nat ->
  init_loop fuel off s = (wr, with_vars (stamped es) s).
Proof.
  intros Hl Hes. revert fuel off s Hl.
  induction Hes as [|e es He Hes IH]; intros [|fuel] off s Hl Ho Hw Hv Hf; try (cbn in Hf; lia).
  - cbn in Hl. subst off. cbn [init_loop flash_mem gets bind]. unfold bind, flash_mem, gets.
    fold (page s). rewrite Hv. cbn. by destruct s.
  - destruct Hl as [Hs Hl]. pose proof (lays_used _ _ _ _ Hl). destruct (used_spec es Hes) as [Hu _].
    destruct (space_spec e He) as (_ & Hsp & _).
    cbn [init_loop]. unfold bind, flash_mem, gets. fold (page s).
    rewrite (stored_valid _ _ e) by (done || lia). cbn [negb].
    rewrite (stored_entry _ _ e He Hs). cbn [esize seal timestamp]. fold (space e).
    rewrite u16_cursor by lia. cbn [set_vars modify].
    set (s1 := mkFlog _ _ _ _ _).
    rewrite (IH fuel (off + space e) s1); [|done|lia|done|done|cbn in Hf; lia].
    f_equal. unfold with_vars, s1. cbn. by rewrite stamped_cons.
Qed.

Lemma dequeue_loop_spec fuel after off es wr s :
  lays (page s) off es wr -> Forall wf_event es -> 0 <= off -> blank (page s) wr ->
  wr + 4 <= LOG_SPACE -> read_cursor (vars s) = off -> (length es < fuel)%nat ->
  ((forall e, e ∈ es -> ev_ts e <= after) /\
   dequeue_loop fuel after s =
     (Ok None, with_vars (set_read_context wr (prev_timestamp (vars s))) s)) \/
  (exists l1 e l2, es = l1 ++ e :: l2 /\ (forall x, x ∈ l1 -> ev_ts x <= after) /\
   after < ev_ts e /\
   dequeue_loop fuel after s =
     (Ok (Some (off + used l1)),
      with_vars (set_read_context (off + used l1 + space e) (prev_timestamp (vars s))) s)).
Proof.
  intros Hl Hes. revert fuel off s Hl.
  induction Hes as [|e es He Hes IH]; intros [|fuel] off s Hl Ho Hb Hw Hc Hf; try (cbn in Hf; lia).
  - left. split; [intros e Hin; by apply elem_of_nil in Hin|]. cbn in Hl. subst wr.
    cbn [dequeue_loop]. unfold bind, getv, flash_mem, gets. fold (page s). rewrite Hc.
    rewrite blank_timestamp, Z.eqb_refl by done. unfold ret, with_vars. f_equal.
    rewrite <- Hc, set_read_context_same by (unfold LOG_SPACE in *; lia). by destruct s.
  - destruct Hl as [Hs Hl]. pose proof (lays_used _ _ _ _ Hl) as Hwr.
    destruct (used_spec es Hes) as [Hu _]. destruct (space_spec e He) as (_ & Hsp & _).
    cbn [dequeue_loop]. unfold bind, getv, flash_mem, gets. fold (page s). rewrite Hc.
    rewrite (stored_entry _ _ e He Hs), (stored_valid _ _ e He Hs) by lia.
    cbn [negb esize seal timestamp]. fold (space e).
    pose proof He as (Ht & _). rewrite (proj2 (Z.eqb_neq (ev_ts e) FLASH_ERASED_VALUE32))
      by (unfold FLASH_ERASED_VALUE32; lia).
    cbn [set_vars modify]. set (s1 := mkFlog _ _ _ _ _).
    destruct (Z.leb_spec (ev_ts e) after) as [L|L].
    + destruct (IH fuel (off + space e) s1) as [[Ha E1]|(l1 & x & l2 & -> & Ha & Hx & E1)];
        [done|lia|done|done|cbn; rewrite u16_cursor; lia|cbn in Hf; lia| |].
      * left. split; [|exact E1]. intros x Hx. apply elem_of_cons in Hx as [->|Hx]; auto.
      * right. exists (e :: l1), x, l2. split; [done|]. split; [|split; [done|]].
        { intros y Hy. apply elem_of_cons in Hy as [->|Hy]; auto. }
        rewrite E1. cbn [used]. rewrite !Z.add_assoc. done.
    + right. exists [], e, es. split; [done|]. split; [intros x Hx; by apply elem_of_nil in Hx|].
      split; [lia|]. cbn [used]. rewrite !Z.add_0_r. done.
Qed.

(** The heap but for the bytes of its buffers. *)
Definition same_links (h h' : shmem) : Prop :=
  hdrs h' = hdrs h /\ free_buf_chain h' = free_buf_chain h /\
  allocced_buf_chain h' = allocced_buf_chain h /\ max_allocated_size h' = max_allocated_size h.

Definition image (es : list event) : list Z := concat (map sealed es).

Lemma length_image es : Forall wf_event es -> Z.of_nat (length (image es)) = used es.
Proof.
  induction 1 as [|e es He _ IH]; [done|]. unfold image in *. cbn [map concat used].
  rewrite length_app, Nat2Z.inj_add, IH, length_sealed by done. done.
Qed.

Lemma bytes_image es : Forall wf_event es -> bytes (image es).
Proof.
  induction 1 as [|e es He _ IH]; [constructor|]. unfold image in *. cbn [map concat].
  apply bytes_app; [by apply bytes_sealed|done].
Qed.

Lemma ram_bytes_app h a n k :
  ram_bytes h a (n + k) = ram_bytes h a n ++ ram_bytes h (a + Z.of_nat n) k.
Proof. exact (read_bytes_app (ram h) a n k). Qed.

Lemma ram_copied h dst data : ram_bytes (copy_to_ram dst data h).2 dst (length data) = data.
Proof.
  apply read_bytes_eq. intros i Hi. cbn.
  rewrite (proj2 (Z.leb_le _ _)), (proj2 (Z.ltb_lt _ _)) by lia. cbn. f_equal. lia.
Qed.

Lemma compact_copy fuel off es wr c buf s :
  lays (page s) off es wr -> Forall wf_event es -> 0 <= off -> wr <= LOG_SPACE ->
  log_write_cursor (vars s) = wr -> wr - off <= COMPACTION_SPACE_PRESERVE -> 0 <= c ->
  c + used es <= LOG_SPACE -> (length es < fuel)%nat ->
  exists h', compact_loop fuel off c buf s = (c + used es, with_heap h' s) /\
    same_links (log_heap s) h' /\
    ram_bytes h' (buf + c) (length (image es)) = image es /\
    (forall a, a < buf + c -> ram h' a = ram (log_heap s) a).
Proof.
  intros Hl Hes. revert fuel off c s Hl.
  induction Hes as [|e es He Hes IH]; intros [|fuel] off c s Hl Ho Hw Hwc Hp Hc Hlim Hf;
    try (cbn in Hf; lia).
  - cbn in Hl. subst off. exists (log_heap s). cbn [compact_loop].
    unfold bind, getv, gets. rewrite Hwc, Z.ltb_irrefl. cbn. rewrite Z.add_0_r.
    split; [by destruct s|]. done.
  - destruct Hl as [Hs Hl]. pose proof (lays_used _ _ _ _ Hl) as Hwr.
    destruct (used_spec es Hes) as [Hu _]. destruct (space_spec e He) as (_ & Hsp & _).
    cbn [compact_loop]. unfold bind, getv, flash_mem, gets. fold (page s). rewrite Hwc.
    rewrite (proj2 (Z.ltb_lt off wr)) by lia. cbn [negb used] in *. fold (page s).
    rewrite (stored_valid _ _ e He Hs) by lia. cbn [negb].
    rewrite (proj2 (Z.leb_le (wr - off) _)) by done. rewrite (stored_entry _ _ e He Hs).
    cbn [esize seal]. fold (space e). unfold stored_at in Hs. rewrite Hs.
    rewrite !u16_cursor by lia. unfold on_heap.
    pose proof (ram_copied (log_heap s) (buf + c) (sealed e)) as Hcp.
    cbn [copy_to_ram modify snd] in *. set (h1 := mkShm _ _ _ _ _) in *.
    destruct (IH fuel (off + space e) (c + space e) (with_heap h1 s))
      as (h' & E1 & (L1 & L2 & L3 & L4) & R & Fr);
      [done|lia|done|done|lia|lia|lia|cbn in Hf; lia|].
    exists h'. split; [rewrite <- Z.add_assoc in E1; exact E1|]. split; [by split_and!|].
    pose proof (length_sealed e He) as Hls. split.
    + unfold image in *. cbn [map concat]. rewrite length_app, ram_bytes_app. f_equal.
      * rewrite <- Hcp at 2. apply (read_bytes_frame (ram h1) (ram h')).
        intros i Hi. apply Fr. lia.
      * rewrite Hls, <- Z.add_assoc. exact R.
    + intros a Ha. rewrite Fr by lia. cbn. rewrite (proj2 (Z.leb_gt _ _)) by lia. done.
Qed.

(** What compaction keeps: the events that start in the last quarter. *)
Fixpoint kept (off wr : Z) (es : list event) : list event :=
  match es with
  | [] => []
  | e :: es' =>
      if wr - off <=? COMPACTION_SPACE_PRESERVE then es else kept (off + space e) wr es'
  end.

Lemma kept_suffix off wr es : exists l, es = l ++ kept off wr es.
Proof.
  revert off. induction es as [|e es IH]; intros off; cbn [kept]; [by exists []|].
  destruct (_ <=? _); [by exists []|]. destruct (IH (off + space e)) as [l Hl].
  exists (e :: l). cbn. by rewrite <- Hl.
Qed.

Lemma kept_used off es : Forall wf_event es ->
  used (kept off (off + used es) es) <= COMPACTION_SPACE_PRESERVE.
Proof.
  intros Hes. revert off. induction Hes as [|e es He Hes IH]; intros off.
  - cbn. unfold COMPACTION_SPACE_PRESERVE. vm_compute. done.
  - cbn [kept]. destruct (Z.leb_spec (off + used (e :: es) - off) COMPACTION_SPACE_PRESERVE); [lia|].
    cbn [used]. rewrite Z.add_assoc. apply IH.
Qed.

Lemma compact_loop_spec fuel off es wr buf s :
  lays (page s) off es wr -> Forall wf_event es -> 0 <= off -> wr <= LOG_SPACE ->
  log_write_cursor (vars s) = wr -> (length es < fuel)%nat ->
  let k := kept off wr es in
  exists h', compact_loop fuel off 0 buf s = (used k, with_heap h' s) /\
    same_links (log_heap s) h' /\ ram_bytes h' buf (length (image k)) = image k.
Proof.
  intros Hl Hes. revert fuel off s Hl.
  induction Hes as [|e es He Hes IH]; intros fuel off s Hl Ho Hw Hwc Hf k.
  - unfold k. cbn in Hl. subst off. destruct fuel; [cbn in Hf; lia|].
    exists (log_heap s). cbn [compact_loop kept used image map concat].
    unfold bind, getv, gets. rewrite Hwc, Z.ltb_irrefl. split; [by destruct s|done].
  - subst k. cbn [kept]. destruct (Z.leb_spec (wr - off) COMPACTION_SPACE_PRESERVE) as [L|L].
    + destruct (compact_copy fuel off (e :: es) wr 0 buf s) as (h' & E1 & Lk & R & _);
        try done; [by constructor| |].
      { pose proof (lays_used _ _ _ _ Hl). cbn [used] in *. lia. }
      exists h'. rewrite Z.add_0_r in R. by rewrite E1.
    + destruct fuel as [|fuel]; [cbn in Hf; lia|].
      destruct Hl as [Hs Hl]. pose proof (lays_used _ _ _ _ Hl) as Hwr.
      destruct (used_spec es Hes) as [Hu _]. destruct (space_spec e He) as (_ & Hsp & _).
      cbn [compact_loop]. unfold bind, getv, flash_mem, gets. fold (page s). rewrite Hwc.
      rewrite (proj2 (Z.ltb_lt off wr)) by lia. cbn [negb]. fold (page s).
      rewrite (stored_valid _ _ e He Hs) by lia. cbn [negb].
      rewrite (proj2 (Z.leb_gt (wr - off) _)) by done. rewrite (stored_entry _ _ e He Hs).
      cbn [esize seal]. fold (space e). rewrite u16_cursor by lia.
      apply IH; [done|lia|done|done|cbn in Hf; lia].
Qed.
End Log.
