(* ===== verification/FlashLogPage.v ===== *)
(** * The flash log stays in its page, whatever the flash does

    The driver logs its own errors through [flash_log_add_event]; its laws ([event_page]) say
    that this changes only the page of the log.  Here it is proved of the model of the log over
    any device that keeps the interface, on which every write and erasure may fail, and log
    again. *)

From S2P Require Import Prelude Vendor Crc8 Flash FlashProps BoardId Shmalloc FlashLog FlashLogProps FlashLogOps.

Lemma log_page : LOG_OFFSET = FLASH_LOG_OFFSET /\ LOG_SPACE = FLASH_LOG_SPACE.
Proof. by vm_compute. Qed.

(** ** The memory of the allocator holds bytes *)

Definition bytes_in (h : shmem) : Prop := forall a, is_byte (ram h a).

Lemma acquire_ram irq size h :
  bytes_in h -> bytes_in (shared_mem_acquire irq size h).2.
Proof.
  intros Hb. unfold shared_mem_acquire. destruct irq; [done|]. destruct (_ =? NULL); [done|].
  assert (ram (do_acquire size h).2 = ram h) as Er.
  { unfold do_acquire, take_whole, take_part, link_next. destruct (best_fit _ _ _ _ _ _).
    by repeat case_match; cbn. }
  destruct (do_acquire size h) as [[b|] h1]; cbn [snd] in *.
  - intros a. cbn. destruct (_ && _); [unfold is_byte; lia|].
    destruct (nz (allocced_buf_chain _)); cbn; rewrite Er; apply Hb.
  - intros a. rewrite Er. apply Hb.
Qed.

Lemma release_ram irq p h : bytes_in h -> bytes_in (shared_mem_release irq p h).
Proof.
  intros Hb. unfold shared_mem_release. destruct irq; [done|].
  assert (ram (do_release (p - sizeof_shm_buffer) h) = ram h) as Er.
  { unfold do_release. destruct (take_allocced _ h) as [h1|] eqn:E; [|done].
    transitivity (ram h1).
    - unfold put_free, put_alone, put_first, put_into, put_after, link_next.
      by repeat case_match; cbn.
    - unfold take_allocced in E. by repeat (case_match; simplify_eq; cbn). }
  intros a. rewrite Er. apply Hb.
Qed.

Section Page.
Context {F E : Type} `{!FlashDev F} `{!FlashDevLaws F} `{!LogEnv E}.

(** The cells of the main array hold bytes. *)
Hypothesis main_bytes : forall f : F, byte_memory (flash_main f).

Implicit Types s : flog F E.

(** The cursor is a [uint16_t]. *)
Definition log_typed s : Prop := 0 <= log_write_cursor (vars s) /\ bytes_in (log_heap s).

(** What an operation of the log may change. *)
Definition in_page s s' : Prop :=
  log_typed s ->
  log_typed s' /\ logged (flash_main (log_flash s)) (flash_main (log_flash s'))
  /\ flash_info (log_flash s') ≡ flash_info (log_flash s).

#[global] Instance in_page_preorder : PreOrder in_page.
Proof.
  split; [by intros s Ht|]. intros s1 s2 s3 H1 H2 Ht.
  destruct (H1 Ht) as (T1 & L1 & I1), (H2 T1) as (T2 & L2 & I2).
  split; [done|]. split; [by etrans|by rewrite I2].
Qed.

Lemma vars_in_page (g : log_vars -> log_vars) :
  (forall v, 0 <= log_write_cursor v -> 0 <= log_write_cursor (g v)) ->
  preserves in_page (set_vars g).
Proof. intros Hg s [Hc Hr]. split; [split; [by apply Hg|done]|done]. Qed.

Lemma getv_in_page {A} (f : log_vars -> A) : preserves in_page (getv f).
Proof. by intros s Ht. Qed.

Lemma gets_in_page {A} (f : flog F E -> A) : preserves in_page (gets f).
Proof. by intros s Ht. Qed.

Lemma env_in_page {A} (m : ST E A) : preserves in_page (on_env m).
Proof. intros s Ht. unfold on_env. by destruct (m (log_env s)). Qed.

Lemma heap_in_page {A} (m : ST shmem A) :
  (forall h, bytes_in h -> bytes_in (m h).2) -> preserves in_page (on_heap m).
Proof.
  intros Hm s [Hc Hr]. unfold on_heap. specialize (Hm _ Hr).
  by destruct (m (log_heap s)).
Qed.

Lemma control_in_page b : preserves in_page (flash_log_space_control b).
Proof. by intros s Ht. Qed.

Lemma erase_in_page : preserves in_page flash_log_erase.
Proof.
  intros s Ht. unfold flash_log_erase, on_flash.
  destruct (flash_physical_erase LOG_OFFSET LOG_SPACE (log_flash s)) as [rv f'] eqn:Ee.
  destruct (flash_erase_any LOG_OFFSET LOG_SPACE (log_flash s) rv f') as [(m1 & Ho & Hl) Hi]; try done.
  split; [done|]. split; [|done]. destruct log_page as [-> ->] in Ho. cbn. by etrans.
Qed.

Lemma write_in_page off data :
  bytes data -> 0 <= off -> off + Z.of_nat (length data) <= LOG_SPACE ->
  preserves in_page (flash_log_write off data).
Proof.
  intros Hb Ho Hl s Ht. unfold flash_log_write, on_flash.
  destruct (flash_physical_write (off + LOG_OFFSET) data (log_flash s)) as [rv f'] eqn:Ee.
  change LOG_OFFSET with 276480 in *. change LOG_SPACE with 2048 in *.
  destruct (flash_write_any (off + 276480) data (log_flash s) rv f') as [(m1 & [Hp _] & Hg) Hi]; try done.
  { lia. }
  { change FLASH_SIZE with 524288. lia. }
  split; [done|]. split; [|done]. cbn. transitivity m1; [|done]. intros a Ha. apply Hp.
  apply in_range_false in Ha. apply in_range_false.
  change FLASH_LOG_OFFSET with 276480 in Ha. change FLASH_LOG_SPACE with 2048 in Ha. lia.
Qed.

Lemma enable_in_page : preserves in_page flash_log_write_enable.
Proof. intros s Ht. unfold flash_log_write_enable, bind, getv, gets. by destruct (platform_flash_control _). Qed.

Lemma disable_in_page : preserves in_page flash_log_write_disable.
Proof. intros s Ht. unfold flash_log_write_disable, bind, getv, gets. by destruct (platform_flash_control _). Qed.

(** The loop copies no more than it has passed. *)
Lemma compact_loop_page fuel : forall rc cc buf s,
  0 <= cc <= rc -> rc <= LOG_SPACE -> log_typed s ->
  0 <= (compact_loop fuel rc cc buf s).1 <= LOG_SPACE
  /\ in_page s (compact_loop fuel rc cc buf s).2.
Proof.
  change LOG_SPACE with 2048.
  induction fuel as [|fuel IH]; intros rc cc buf s Hc Hr Ht; cbn [compact_loop]; [split; [cbn; lia|done]|].
  rewrite !(bind_run (getv log_write_cursor) _ s (log_write_cursor (vars s)) s eq_refl).
  destruct (negb (rc <? _)); [split; [cbn; lia|done]|].
  rewrite !(bind_run flash_mem _ s (flash_main (log_flash s)) s eq_refl).
  set (m := flash_main (log_flash s)).
  destruct (entry_is_valid m rc) eqn:Hv; cbn [negb]; [|split; [cbn; lia|done]].
  pose proof (proj1 (entry_size_range (esize (entry_at m rc)))) as Hsz.
  set (sp := FLASH_LOG_ENTRY_SIZE (esize (entry_at m rc))) in *.
  assert (rc + sp <= 2048) as Hfit.
  { unfold entry_is_valid in Hv. fold sp in Hv. change LOG_SPACE with 2048 in Hv.
    destruct (Z.ltb_spec 2048 (rc + sp)); [done|lia]. }
  rewrite !(uN_small 16) by lia. destruct (_ <=? COMPACTION_SPACE_PRESERVE).
  - pose proof (heap_in_page (copy_to_ram (buf + cc) (log_bytes m rc sp))) as Hh.
    assert (in_page s (on_heap (copy_to_ram (buf + cc) (log_bytes m rc sp)) s).2) as Hp.
    { apply Hh. intros h Hb a. cbn. destruct (_ && _); [|apply Hb].
      unfold at_. destruct (nth_in_or_default (Z.to_nat (a - (buf + cc))) (log_bytes m rc sp) 0) as [Hi| ->];
        [|unfold is_byte; lia].
      apply (proj1 (List.Forall_forall is_byte (log_bytes m rc sp))); [|done].
      apply bytes_read_bytes, main_bytes. }
    unfold bind. destruct (on_heap _ s) as [u s1]. cbn [snd] in Hp.
    destruct (IH (rc + sp) (cc + sp) buf s1) as [H1 H2]; [lia|lia|by apply Hp|].
    split; [done|]. by etrans.
  - apply IH; [lia|lia|done].
Qed.

(** A step whose result is known to satisfy [P]. *)
Lemma bind_in_page {A B} (P : A -> Prop) (m : ST (flog F E) A) (k : A -> ST (flog F E) B) :
  (forall s, log_typed s -> P (m s).1 /\ in_page s (m s).2) ->
  (forall a, P a -> preserves in_page (k a)) -> preserves in_page (bind m k).
Proof.
  intros Hm Hk s Ht. destruct (Hm s Ht) as [Hp Hs]. unfold bind.
  destruct (m s) as [a s1]. cbn [fst snd] in *. revert Ht. change (in_page s (k a s1).2).
  etrans; [exact Hs|by apply Hk].
Qed.

Lemma then_in_page {A B} (m : ST (flog F E) A) (k : A -> ST (flog F E) B) :
  preserves in_page m -> (forall a, preserves in_page (k a)) -> preserves in_page (bind m k).
Proof. apply preserves_bind; apply _. Qed.

Lemma write_back_page irq buf cc :
  0 <= cc <= LOG_SPACE ->
  preserves in_page (let* h := gets log_heap in
    flash_log_write 0 (ram_bytes h buf (Z.to_nat cc)) ;;; set_vars (set_write_cursor cc) ;;;
    flash_log_write_disable ;;; on_heap (modify (shared_mem_release irq buf)) ;;;
    set_vars (set_read_context 0 0)).
Proof.
  intros Hc. apply (bind_in_page bytes_in); [intros s [? ?]; by split|]. intros h Hb.
  apply then_in_page.
  { apply write_in_page; [|lia|].
    - apply Forall_map, Forall_true. intros i. apply Hb.
    - unfold ram_bytes. rewrite length_map, length_seq. lia. }
  intros _. apply then_in_page; [apply vars_in_page; intros v _; cbn; apply uN_range; lia|]. intros _.
  apply then_in_page; [apply disable_in_page|]. intros _.
  apply then_in_page; [apply heap_in_page; intros h' Hb'; by apply release_ram|]. intros _.
  apply vars_in_page. by intros v Hv.
Qed.

Lemma try_compacting_page : preserves in_page try_compacting.
Proof.
  unfold try_compacting. apply then_in_page; [apply gets_in_page|]. intros irq.
  apply then_in_page; [apply heap_in_page; intros; by apply acquire_ram|]. intros [rc buf].
  destruct (negb _); [apply preserves_ret, _|].
  apply (bind_in_page (fun cc => 0 <= cc <= LOG_SPACE)).
  { intros s Ht. apply compact_loop_page; [lia|by vm_compute|done]. }
  intros cc Hc. apply then_in_page; [apply enable_in_page|]. intros _.
  apply then_in_page; [apply erase_in_page|]. intros _. by apply write_back_page.
Qed.

Lemma lock_page : preserves in_page flash_log_lock_successful.
Proof.
  unfold flash_log_lock_successful. apply then_in_page; [apply gets_in_page|]. intros irq.
  destruct irq; [apply preserves_ret, _|].
  apply then_in_page; [apply getv_in_page|]. intros [|]; cbn [negb]; [|apply preserves_ret, _].
  apply then_in_page; [apply getv_in_page|]. intros [|]; [apply preserves_ret, _|].
  apply then_in_page; [by apply vars_in_page|]. intros _. apply preserves_ret, _.
Qed.

(** An entry fills its space of the page. *)
Lemma entry_fills ts type size payload :
  0 <= size <= 63 -> Z.of_nat (length payload) = size ->
  is_byte type -> bytes payload ->
  bytes (entry_bytes ts type size payload)
  /\ Z.of_nat (length (entry_bytes ts type size payload)) = FLASH_LOG_ENTRY_SIZE size.
Proof.
  intros Hs Hl Ht Hp. subst size. set (e := mkEvent 1 type payload).
  assert (wf_event e) as He.
  { split; [by vm_compute|]. split; [done|]. split; [done|]. cbn. unfold ev_len. cbn. lia. }
  assert (forall c, length (entry_header (mkEntry ts (ev_len e) type c)) = 7%nat) as Hh.
  { intros c. unfold entry_header. by rewrite length_app, length_le_bytes. }
  pose proof (space_spec e He) as (Hsp & _). unfold space, ev_len in Hsp. cbn [ev_data e] in Hsp.
  unfold entry_bytes. rewrite Nat2Z.id, take_ge by lia. fold (ev_len e). change payload with (ev_data e) at 1 5.
  split.
  - apply bytes_app; [apply bytes_app; [|done]|].
    + apply bytes_header; [|done|apply crc8_arg_byte]. unfold is_byte, ev_len. cbn. lia.
    + apply Forall_replicate. unfold is_byte, FE_LOG_PAD. lia.
  - rewrite length_app, length_replicate, length_app, Hh. unfold ev_len. cbn [ev_data e]. lia.
Qed.

Lemma add_event_core_page type size payload :
  0 <= size -> is_byte type -> bytes payload -> size <= Z.of_nat (length payload) ->
  preserves in_page (flash_log_add_event_core type size payload).
Proof.
  intros H0 Hty Hb Hl. unfold flash_log_add_event_core.
  destruct (Z.ltb_spec MAX_FLASH_LOG_PAYLOAD_SIZE size) as [|Hm]; [apply preserves_ret, _|].
  change MAX_FLASH_LOG_PAYLOAD_SIZE with 63 in Hm.
  apply then_in_page; [apply lock_page|]. intros [|]; cbn [negb].
  2: { apply then_in_page; [apply getv_in_page|]. intros n.
       apply then_in_page; [by apply vars_in_page|]. intros _. apply preserves_ret, _. }
  apply then_in_page; [apply getv_in_page|]. intros c0.
  apply then_in_page; [destruct (_ <? c0); [apply try_compacting_page|apply preserves_ret, _]|].
  intros _. apply (bind_in_page (fun c => 0 <= c)); [intros s [? ?]; by split|]. intros cursor Hc.
  destruct (Z.ltb_spec (LOG_SPACE - cursor) (FLASH_LOG_ENTRY_SIZE size)) as [|Hf].
  - apply then_in_page; [apply getv_in_page|]. intros n.
    apply then_in_page; [by apply vars_in_page|]. intros _.
    apply then_in_page; [by apply vars_in_page|]. intros _. apply preserves_ret, _.
  - apply then_in_page.
    { unfold flash_log_get_tstamp, seconds. apply then_in_page; [apply getv_in_page|]. intros b.
      apply then_in_page; [|intros; apply preserves_ret, _].
      apply then_in_page; [apply env_in_page|]. intros; apply preserves_ret, _. }
    intros t. apply then_in_page; [apply getv_in_page|]. intros l.
    apply then_in_page; [by apply vars_in_page|]. intros _.
    apply then_in_page; [apply getv_in_page|]. intros ts.
    apply then_in_page; [apply enable_in_page|]. intros _.
    assert (entry_bytes ts type size payload
      = entry_bytes ts type size (take (Z.to_nat size) payload)) as ->.
    { unfold entry_bytes. by rewrite take_take, Nat.min_id. }
    destruct (entry_fills ts type size (take (Z.to_nat size) payload)) as [Hby Hle];
      [lia|rewrite length_take; lia|done|by apply Forall_take|].
    apply then_in_page; [apply write_in_page; [done|done|rewrite Hle; lia]|]. intros _.
    apply then_in_page; [apply disable_in_page|]. intros _.
    apply then_in_page; [apply vars_in_page; intros; apply uN_range; lia|]. intros _.
    apply then_in_page; [by apply vars_in_page|]. intros _. apply preserves_ret, _.
Qed.

Lemma report_failure_page type counter set_counter :
  is_byte type ->
  (forall n v, 0 <= log_write_cursor v -> 0 <= log_write_cursor (set_counter n v)) ->
  preserves in_page (report_failure type counter set_counter).
Proof.
  intros Ht Hs. unfold report_failure. apply then_in_page; [apply getv_in_page|]. intros n.
  pose proof (uN_range 8 n ltac:(lia)) as Hn. change (2 ^ 8) with 256 in Hn.
  apply then_in_page.
  { apply add_event_core_page; [lia|done| |cbn; lia].
    apply Forall_cons. split; [|constructor]. unfold is_byte. case_match; lia. }
  intros rv. destruct (rv =? _); [apply vars_in_page; auto|apply preserves_ret, _].
Qed.

(** An event changes the log's page and nothing else of the flash, whatever the flash does. *)
Theorem add_event_page type size payload :
  0 <= size -> is_byte type -> bytes payload -> size <= Z.of_nat (length payload) ->
  preserves in_page (flash_log_add_event type size payload).
Proof.
  intros. unfold flash_log_add_event. apply then_in_page; [apply getv_in_page|]. intros locks.
  apply then_in_page.
  { destruct (nz locks); [|apply preserves_ret, _]. by apply report_failure_page. }
  intros _. apply then_in_page; [apply getv_in_page|]. intros overflows.
  apply then_in_page.
  { destruct (nz overflows); [|apply preserves_ret, _]. by apply report_failure_page. }
  intros _. apply then_in_page; [by apply add_event_core_page|]. intros _. apply preserves_ret, _.
Qed.

End Page.
