(* ===== verification/FlashLogRun.v ===== *)
(** * The flash log: what its operations do to the events of the page *)

From S2P Require Import Prelude Vendor Crc8 Flash FlashProps BoardId Shmalloc ShmallocProps ShmallocHeap ShmallocRun FlashLog FlashLogProps FlashLogOps.
From Stdlib Require Import Sorting.Sorted.

(** ** Programming events into erased space *)

Lemma lays_image m off es :
  Forall wf_event es ->
  read_bytes m (LOG_OFFSET + off) (length (image es)) = image es -> lays m off es (off + used es).
Proof.
  intros Hes. revert off. induction Hes as [|e es He Hes IH]; intros off R; cbn [lays used]; [lia|].
  unfold image in *. cbn [map concat] in R. pose proof (length_sealed e He) as Hl. split.
  - apply read_bytes_prefix in R. unfold stored_at, log_bytes. by rewrite <- Hl, Nat2Z.id.
  - apply read_bytes_suffix in R. rewrite Hl in R. rewrite Z.add_assoc. apply IH.
    by rewrite Z.add_assoc.
Qed.

Lemma programmed_events m m' off es :
  blank m off -> Forall wf_event es -> off + used es <= LOG_SPACE ->
  m' ≡ programmed (off + LOG_OFFSET) (image es) m ->
  lays m' off es (off + used es) /\ blank m' (off + used es).
Proof.
  intros Hb Hes Hfit Hm. pose proof (length_image es Hes) as Hl.
  pose proof (bytes_image es Hes) as Hby. split.
  - apply lays_image; [done|]. apply read_bytes_eq. intros i Hi. rewrite (Hm _).
    unfold programmed. rewrite (proj2 (in_range_spec _ _ _)) by lia.
    rewrite <- Z.add_assoc, Hb by lia.
    replace (LOG_OFFSET + (off + Z.of_nat i) - (off + LOG_OFFSET)) with (Z.of_nat i) by lia.
    apply land_255. unfold at_. rewrite Nat2Z.id.
    apply (proj1 (List.Forall_forall is_byte (image es))); [done|]. by apply nth_In.
  - intros a Ha. rewrite (Hm _). unfold programmed.
    rewrite (proj2 (in_range_false _ _ _)) by lia. apply Hb.
    pose proof (used_spec es Hes). lia.
Qed.

Lemma appended_event m m' es wr e :
  lays m 0 es wr -> blank m wr -> Forall wf_event es -> wf_event e -> wr + space e <= LOG_SPACE ->
  m' ≡ programmed (wr + LOG_OFFSET) (sealed e) m ->
  lays m' 0 (es ++ [e]) (wr + space e) /\ blank m' (wr + space e).
Proof.
  intros Hl Hb Hes He Hfit Hm. pose proof (lays_used _ _ _ _ Hl) as Hw.
  destruct (programmed_events m m' wr [e]) as [Hl' Hb'];
    [done|by constructor|cbn; lia|unfold image; cbn; by rewrite app_nil_r|].
  cbn [used] in *. rewrite Z.add_0_r in *. split; [|done].
  apply lays_app. rewrite Z.add_0_l in *. rewrite <- Hw. split; [|done].
  apply (lays_frame m); [|done|done]. intros a Ha. rewrite (Hm _). unfold programmed.
  by rewrite (proj2 (in_range_false _ _ _)) by lia.
Qed.

Lemma represents_same base top h h' fl al :
  same_links h h' -> represents base top h fl al -> represents base top h' fl al.
Proof.
  intros (L1 & L2 & L3 & _) (Hf & Ha & Hok).
  assert (Hh : forall z, hdr h' z = hdr h z) by (intros z; unfold hdr; by rewrite L1).
  split_and!; [rewrite L2|rewrite L3|done]; by apply (chain_frame (hdr h)).
Qed.

(** Timestamps in ascending order. *)
Definition increasing (es : list event) : Prop :=
  StronglySorted (fun a b => ev_ts a < ev_ts b) es.

Lemma increasing_app l k :
  increasing (l ++ k) <->
  increasing l /\ increasing k /\ forall a b, a ∈ l -> b ∈ k -> ev_ts a < ev_ts b.
Proof.
  unfold increasing. induction l as [|e l IH]; cbn [app].
  - split; [|tauto]. intros H. split_and!; [constructor|done|].
    intros a b Ha. by apply elem_of_nil in Ha.
  - split.
    + intros H. apply StronglySorted_inv in H as [H Hf]. apply IH in H as (H1 & H2 & H3).
      rewrite Forall_app in Hf. destruct Hf as [F1 F2]. split_and!; [by constructor|done|].
      intros a b Ha Hb. apply elem_of_cons in Ha as [->|Ha]; [|auto].
      rewrite Forall_forall in F2. auto.
    + intros (H & H2 & H3). apply StronglySorted_inv in H as [H Hf]. constructor.
      * apply IH. split_and!; [done|done|]. intros a b Ha. apply H3. by apply list_elem_of_further.
      * apply Forall_app. split; [done|]. apply Forall_forall. intros b Hb.
        apply H3; [apply list_elem_of_here|done].
Qed.

Lemma increasing_snoc es e :
  increasing es -> (forall x, x ∈ es -> ev_ts x < ev_ts e) -> increasing (es ++ [e]).
Proof.
  intros Hs Hl. apply increasing_app. split_and!; [done|by repeat constructor|].
  intros a b Ha Hb. apply elem_of_cons in Hb as [->|Hb]; [auto|by apply elem_of_nil in Hb].
Qed.

Section Run.
Context {F E : Type} `{!FlashDev F} `{!FlashDevLaws F} `{!FlashReliable F}.
Context `{!LogEnv E} `{!LogEnvLaws E}.
Implicit Types s : flog F E.

(** The heap, with the buffers that others hold. *)
Context (base top : Z) (al : list (Z * Z)).
Hypothesis memory_bounds : 0 < base /\ base + sizeof_shm_buffer <= top /\ top < 2 ^ 31 /\
  top - base <= 0x10000000.

Definition heap_at (h : shmem) : Prop := exists fl, represents base top h fl al.

(** There is room for the buffer of a compaction. *)
Definition roomy s : bool :=
  buffer_room COMPACTION_SPACE_PRESERVE <=? shared_mem_size (log_heap s) + sizeof_shm_buffer.

Definition with_region (b : bool) s : flog F E :=
  mkFlog (vars s) (log_flash s) (if platform_flash_control (vars s) then b else region5_wr_en s)
    (log_heap s) (log_env s).
Definition with_flash (f : F) s : flog F E :=
  mkFlog (vars s) f (region5_wr_en s) (log_heap s) (log_env s).

Lemma write_enable_eq s : flash_log_write_enable s = (tt, with_region true s).
Proof.
  unfold flash_log_write_enable, bind, getv, gets, with_region.
  destruct s as [v f r h e]. cbn. by destruct (platform_flash_control v).
Qed.

Lemma write_disable_eq s : flash_log_write_disable s = (tt, with_region false s).
Proof.
  unfold flash_log_write_disable, bind, getv, gets, with_region.
  destruct s as [v f r h e]. cbn. by destruct (platform_flash_control v).
Qed.

(** Other parts of the flash. *)
Definition outside_same s s' : Prop :=
  only_in LOG_OFFSET LOG_SPACE (page s) (page s') /\
  flash_info (log_flash s') ≡ flash_info (log_flash s).

Lemma log_write_eq s off data :
  reliable (log_flash s) -> bytes data -> 0 <= off -> off mod 4 = 0 ->
  Z.of_nat (length data) mod 4 = 0 -> off + Z.of_nat (length data) <= LOG_SPACE ->
  exists f', flash_log_write off data s = (EC.SUCCESS, with_flash f' s) /\ reliable f' /\
    flash_main f' ≡ programmed (off + LOG_OFFSET) data (page s) /\
    outside_same s (with_flash f' s).
Proof.
  intros Hr Hb Ho Hm Hl Hfit. unfold LOG_SPACE in *.
  assert (Hoff : LOG_OFFSET = 276480) by reflexivity.
  destruct (reliable_write (off + LOG_OFFSET) data (log_flash s) Hr Hb)
    as (f' & Ef & Hr'); [lia|unfold FLASH_SIZE; lia|rewrite Hoff; Z.div_mod_to_equations; lia|done|].
  pose proof (flash_write_ok (off + LOG_OFFSET) data (log_flash s) f' Hb) as W.
  destruct W as [W1 W2]; [lia|unfold FLASH_SIZE; lia|done|].
  exists f'. unfold flash_log_write, on_flash. rewrite Ef. split; [done|].
  split; [done|]. split; [exact W1|]. split; [|exact W2].
  intros a Ha. apply in_range_false in Ha. unfold page. cbn. rewrite (W1 a). unfold programmed.
  by rewrite (proj2 (in_range_false _ _ _)) by (unfold LOG_SPACE in *; lia).
Qed.

Lemma log_erase_eq s :
  reliable (log_flash s) ->
  exists f', flash_log_erase s = (EC.SUCCESS, with_flash f' s) /\ reliable f' /\
    flash_main f' ≡ erased LOG_OFFSET LOG_SPACE (page s) /\ outside_same s (with_flash f' s).
Proof.
  intros Hr.
  destruct (reliable_erase LOG_OFFSET (log_flash s) Hr) as (f' & Ef & Hr');
    [done|done|done|].
  destruct (flash_erase_ok LOG_OFFSET LOG_SPACE (log_flash s) f') as [W1 W2]; [done..|].
  exists f'. unfold flash_log_erase, on_flash. rewrite Ef. split; [done|].
  split; [done|]. split; [exact W1|]. split; [|exact W2].
  intros a Ha. unfold page. cbn. rewrite (W1 a). unfold erased. by rewrite Ha.
Qed.

Lemma outside_trans s1 s2 s3 : outside_same s1 s2 -> outside_same s2 s3 -> outside_same s1 s3.
Proof.
  intros [A1 B1] [A2 B2]. split; [by eapply only_in_trans|]. by rewrite B2.
Qed.

Lemma roomy_spec s fl : represents base top (log_heap s) fl al ->
  roomy s = true <-> exists b, b ∈ fl /\ buffer_room COMPACTION_SPACE_PRESERVE <= b.2.
Proof.
  intros Hr. unfold roomy. rewrite Z.leb_le.
  apply (shared_mem_size_spec base top memory_bounds _ _ al); [done|reflexivity].
Qed.

Lemma compaction_acquire s :
  heap_at (log_heap s) ->
  exists rc buf h1,
    shared_mem_acquire false COMPACTION_SPACE_PRESERVE (log_heap s) = ((rc, buf), h1) /\
    if roomy s
    then rc = EC.SUCCESS /\ forall h2, same_links h1 h2 -> heap_at (shared_mem_release false buf h2)
    else rc = EC.ERROR_BUSY /\ h1 = log_heap s.
Proof.
  intros [fl Hr].
  pose proof (acquire_cases base top memory_bounds (log_heap s) fl al COMPACTION_SPACE_PRESERVE Hr)
    as A. pose proof (roomy_spec s fl Hr) as Hroom.
  destruct (shared_mem_acquire false COMPACTION_SPACE_PRESERVE (log_heap s)) as [[rc buf] h1].
  exists rc, buf, h1. split; [done|].
  destruct A as [(E1 & -> & Hno)|(f1 & x & sz & f2 & got & rest & -> & Hfit & _ & _ & E1 & Hr' & _)];
    [by vm_compute|..]; injection E1 as -> ->.
  - destruct (roomy s); [|done]. destruct (proj1 Hroom eq_refl) as (b & Hb & Hle).
    specialize (Hno b Hb). lia.
  - rewrite (proj2 Hroom).
    + split; [done|]. intros h2 Hl. apply (represents_same base top h1 h2) in Hr'; [|done].
      eexists. exact (proj1 (release_live base top memory_bounds h2 _ [] x got al Hr')).
    + exists (x, sz). split; [|done]. apply elem_of_app. right. apply list_elem_of_here.
Qed.

Lemma try_compacting_spec s es :
  Forall wf_event es -> lays (page s) 0 es (log_write_cursor (vars s)) ->
  log_write_cursor (vars s) <= LOG_SPACE -> in_interrupt_context (log_env s) = false ->
  heap_at (log_heap s) -> reliable (log_flash s) ->
  let k := kept 0 (log_write_cursor (vars s)) es in
  exists s', try_compacting s = (tt, s') /\
    if roomy s
    then lays (page s') 0 k (used k) /\ blank (page s') (used k) /\
      vars s' = set_read_context 0 0 (set_write_cursor (used k) (vars s)) /\
      region5_wr_en s' = (if platform_flash_control (vars s) then false else region5_wr_en s) /\
      heap_at (log_heap s') /\ reliable (log_flash s') /\ log_env s' = log_env s /\
      outside_same s s'
    else s' = s.
Proof.
  intros Hes Hl Hw Hirq Hh Hr k. pose proof (lays_used _ _ _ _ Hl) as Hwr.
  destruct (compaction_acquire s Hh) as (rc & buf & h1 & Ea & Hroom).
  assert (Hk : Forall wf_event k).
  { destruct (kept_suffix 0 (log_write_cursor (vars s)) es) as [l0 El]. fold k in El.
    rewrite El in Hes. by apply Forall_app in Hes as [_ ?]. }
  assert (Hku : used k <= COMPACTION_SPACE_PRESERVE).
  { unfold k. rewrite Hwr. by apply kept_used. }
  destruct (used_spec k Hk) as (Hk0 & Hk4 & _). destruct (used_spec es Hes) as (_ & _ & Hlen).
  unfold try_compacting. rewrite (bind_run _ _ s false s) by (unfold irq_context, gets; by rewrite Hirq).
  rewrite (bind_run _ _ s (rc, buf) (with_heap h1 s)) by (unfold on_heap; by rewrite Ea).
  destruct (roomy s); destruct Hroom as [-> Hroom]; cbn [Z.eqb negb].
  2:{ exists s. split; [|done]. rewrite Hroom. cbn. by destruct s. }
  change (negb (EC.SUCCESS =? EC.SUCCESS)) with false. cbn [negb].
  destruct (compact_loop_spec log_fuel 0 es _ buf (with_heap h1 s) Hl Hes) as (h2 & Ec & Hlk & Rk);
    [done|done|done|unfold log_fuel, LOG_SPACE in *; lia|]. fold k in Ec, Rk.
  change (with_heap h2 (with_heap h1 s)) with (with_heap h2 s) in Ec.
  rewrite (bind_run _ _ _ _ _ Ec).
  rewrite (bind_run _ _ _ _ _ (write_enable_eq _)).
  set (s2 := with_region true (with_heap h2 s)).
  destruct (log_erase_eq s2 Hr) as (f1 & Ef1 & Hr1 & Hm1 & Ho1).
  rewrite (bind_run _ _ _ _ _ Ef1).
  rewrite (bind_run _ _ (with_flash f1 s2) h2 (with_flash f1 s2)) by done.
  assert (Hbytes : ram_bytes h2 buf (Z.to_nat (used k)) = image k).
  { rewrite <- Rk. f_equal. pose proof (length_image k Hk). lia. }
  rewrite Hbytes. pose proof (length_image k Hk) as Hli.
  destruct (log_write_eq (with_flash f1 s2) 0 (image k)) as (f2 & Ef2 & Hr2 & Hm2 & Ho2);
    [done|by apply bytes_image|lia|done|by rewrite Hli|
     rewrite Hli; change LOG_SPACE with (4 * COMPACTION_SPACE_PRESERVE); lia|].
  rewrite (bind_run _ _ _ _ _ Ef2).
  set (s3 := with_flash f2 (with_flash f1 s2)).
  rewrite (bind_run _ _ s3 tt (with_vars (set_write_cursor (used k)) s3)) by done.
  rewrite (bind_run _ _ _ _ _ (write_disable_eq _)).
  unfold bind, on_heap, modify. cbn [log_heap with_region with_vars s3 with_flash s2 with_heap].
  eexists. split; [reflexivity|]. cbn [vars region5_wr_en log_heap log_flash log_env with_vars
    with_flash with_region with_heap s3 s2].
  assert (Hpage : forall s', log_flash s' = f2 ->
    lays (page s') 0 k (used k) /\ blank (page s') (used k)).
  { intros s' Es'. unfold page. rewrite Es'. rewrite <- (Z.add_0_l (used k)).
    apply (programmed_events (page (with_flash f1 s2))).
    - intros a Ha. unfold page. cbn. rewrite (Hm1 _). unfold erased.
      by rewrite (proj2 (in_range_spec _ _ _)) by lia.
    - done.
    - change LOG_SPACE with (4 * COMPACTION_SPACE_PRESERVE). lia.
    - exact Hm2. }
  split; [by apply Hpage|]. split; [by apply Hpage|]. split; [done|].
  split; [cbn; by destruct (platform_flash_control (vars s))|].
  split; [by apply Hroom|]. split; [done|]. split; [done|].
  exact (outside_trans s _ _ Ho1 Ho2).
Qed.

(** ** The page with its events, and the state of the log *)

Record page_ok s (es : list event) : Prop := {
  po_wf : Forall wf_event es;
  po_lays : lays (page s) 0 es (log_write_cursor (vars s));
  po_blank : blank (page s) (log_write_cursor (vars s));
  po_room : log_write_cursor (vars s) <= LOG_SPACE;
  po_irq : in_interrupt_context (log_env s) = false;
  po_heap : heap_at (log_heap s);
  po_dev : reliable (log_flash s)
}.

(** The events in the log, oldest first. *)
Record log_ok s (es : list event) : Prop := {
  lo_page : page_ok s es;
  lo_sorted : increasing es;
  lo_last e : e ∈ es -> ev_ts e <= last_used_timestamp (vars s);
  lo_last_range : 0 <= last_used_timestamp (vars s) < UINT32_MAX;
  lo_inited : log_inited (vars s) = true;
  lo_free : log_event_in_progress (vars s) = false;
  lo_cursor : exists l, l `prefix_of` es /\ read_cursor (vars s) = used l
}.

Lemma po_used s es : page_ok s es -> log_write_cursor (vars s) = used es.
Proof. intros P. exact (lays_used _ _ _ _ (po_lays _ _ P)). Qed.

(** What an addition keeps of the log. *)
Definition compacts s : bool :=
  (RUN_TIME_LOG_FULL_WATERMARK <? log_write_cursor (vars s)) && roomy s.
Definition survivors s (es : list event) : list event :=
  if compacts s then kept 0 (log_write_cursor (vars s)) es else es.

Lemma survivors_suffix s es : exists l, es = l ++ survivors s es.
Proof. unfold survivors. destruct (compacts s); [apply kept_suffix|by exists []]. Qed.

Lemma compacted_page_ok s s' es :
  Forall wf_event es -> log_write_cursor (vars s) = used es ->
  in_interrupt_context (log_env s) = false -> let k := kept 0 (used es) es in
  lays (page s') 0 k (used k) -> blank (page s') (used k) ->
  vars s' = set_read_context 0 0 (set_write_cursor (used k) (vars s)) ->
  heap_at (log_heap s') -> reliable (log_flash s') -> log_env s' = log_env s ->
  page_ok s' k /\ used k <= COMPACTION_SPACE_PRESERVE /\ log_write_cursor (vars s') = used k.
Proof.
  intros Hes Hw Hirq k L B V H D I.
  assert (Hk : Forall wf_event k).
  { destruct (kept_suffix 0 (used es) es) as [l0 El]. fold k in El.
    rewrite El in Hes. by apply Forall_app in Hes as [_ ?]. }
  assert (Hu : used k <= COMPACTION_SPACE_PRESERVE) by exact (kept_used 0 es Hes).
  pose proof (used_spec k Hk) as [Hk0 _].
  assert (Hc : log_write_cursor (vars s') = used k).
  { rewrite V. cbn. apply u16_cursor.
    change LOG_SPACE with (4 * COMPACTION_SPACE_PRESERVE). lia. }
  split; [|done]. split; rewrite ?Hc; try done.
  - change LOG_SPACE with (4 * COMPACTION_SPACE_PRESERVE). lia.
  - by rewrite I.
Qed.

Lemma make_room s es :
  page_ok s es ->
  exists s', (if RUN_TIME_LOG_FULL_WATERMARK <? log_write_cursor (vars s)
              then try_compacting else ret tt) s = (tt, s') /\
    page_ok s' (survivors s es) /\ log_env s' = log_env s /\ outside_same s s' /\
    log_write_cursor (vars s') = used (survivors s es) /\
    if compacts s
    then used (survivors s es) <= COMPACTION_SPACE_PRESERVE /\
      vars s' = set_read_context 0 0 (set_write_cursor (used (survivors s es)) (vars s))
    else s' = s.
Proof.
  intros P. pose proof (po_used _ _ P) as Hu.
  assert (Hsame : outside_same s s) by (split; [apply only_in_refl|done]).
  unfold survivors, compacts.
  destruct (RUN_TIME_LOG_FULL_WATERMARK <? log_write_cursor (vars s)); cbn [andb].
  2:{ exists s. by split_and!. }
  destruct (try_compacting_spec s es) as (s' & Et & H); try apply P.
  destruct (roomy s).
  - destruct H as (L & B & V & R & H & D & I & O). exists s'.
    rewrite Hu in *.
    destruct (compacted_page_ok s s' es) as (P' & Hk & Hc); try done; apply P.
  - subst s'. exists s. by split_and!.
Qed.

Lemma write_event s es e :
  page_ok s es -> wf_event e -> used es + space e <= LOG_SPACE ->
  exists s', flash_log_write (used es) (sealed e) (with_region true s) = (EC.SUCCESS, s') /\
    let s2 := with_vars (set_write_cursor (used es + space e)) (with_region false s') in
    page_ok s2 (es ++ [e]) /\ log_env s2 = log_env s /\ outside_same s s2 /\
    vars s2 = set_write_cursor (used es + space e) (vars s) /\ vars s' = vars s.
Proof.
  intros P He Hfit. pose proof (po_wf _ _ P) as Hes. destruct (used_spec es Hes) as (H0 & H4 & _).
  destruct (space_spec e He) as (_ & Hsp & Hs4). pose proof (length_sealed e He) as Hl.
  destruct (log_write_eq (with_region true s) (used es) (sealed e)) as (f' & Ew & Hr & Hm & Ho);
    [apply P|by apply bytes_sealed|done|done|by rewrite Hl|by rewrite Hl|].
  eexists. split; [exact Ew|]. cbn zeta.
  destruct (appended_event (page s) (flash_main f') es (used es) e) as [L B];
    [|by rewrite <- (po_used _ _ P); apply P|done|done|done|exact Hm|].
  { pose proof (po_lays _ _ P) as L. by rewrite (po_used _ _ P) in L. }
  split; [|done]. split; cbn [vars with_vars with_region with_flash]; try done.
  - apply Forall_app. split; [done|by constructor].
  - cbn. rewrite u16_cursor by lia. exact L.
  - cbn. rewrite u16_cursor by lia. exact B.
  - cbn. rewrite u16_cursor by lia. lia.
  - apply P.
  - apply P.
Qed.

(** The end of an addition. *)
Lemma commit_event s es e :
  page_ok s es -> wf_event e -> used es + space e <= LOG_SPACE ->
  exists s', (flash_log_write_enable ;;;
      flash_log_write (used es) (sealed e) ;;;
      flash_log_write_disable ;;;
      set_vars (set_write_cursor (used es + space e)) ;;;
      set_vars (set_in_progress false) ;;;
      ret EC.SUCCESS) s = (EC.SUCCESS, s') /\
    page_ok s' (es ++ [e]) /\ outside_same s s' /\
    vars s' = set_in_progress false (set_write_cursor (used es + space e) (vars s)).
Proof.
  intros P He Hfit.
  destruct (write_event s es e P He Hfit) as (s5 & Ew & P5 & Ee5 & Ho5 & Hv5 & _).
  set (s6 := with_vars (set_write_cursor (used es + space e)) (with_region false s5)) in *.
  exists (with_vars (set_in_progress false) s6).
  rewrite (bind_run _ _ _ _ _ (write_enable_eq s)), (bind_run _ _ _ _ _ Ew).
  rewrite (bind_run _ _ _ _ _ (write_disable_eq s5)).
  split; [done|]. split; [destruct P5; by split|]. split; [done|].
  by rewrite <- Hv5.
Qed.

(** ** Adding an event *)

(** The timestamp that the next event gets. *)
Definition next_ts s : Z :=
  let new := u32 (log_tstamp_base (vars s) + (get_time (log_env s)).1 / 1000000) in
  let last := last_used_timestamp (vars s) in
  if new <=? last then last + 1 else new.

Lemma lock_eq s :
  in_interrupt_context (log_env s) = false -> log_inited (vars s) = true ->
  log_event_in_progress (vars s) = false ->
  flash_log_lock_successful s = (true, with_vars (set_in_progress true) s).
Proof.
  intros H1 H2 H3. unfold flash_log_lock_successful, irq_context, getv, gets, bind.
  rewrite H1. cbn. rewrite H2. cbn. by rewrite H3.
Qed.

Lemma survivors_in s es x : x ∈ survivors s es -> x ∈ es.
Proof.
  intros Hx. destruct (survivors_suffix s es) as [l ->]. apply elem_of_app. by right.
Qed.

Lemma survivors_ok s es :
  log_ok s es -> increasing (survivors s es) /\
  forall x, x ∈ survivors s es -> ev_ts x <= last_used_timestamp (vars s).
Proof.
  intros L. split.
  - pose proof (lo_sorted _ _ L) as H. destruct (survivors_suffix s es) as [l E0].
    rewrite E0 in H. by apply increasing_app in H as (_ & H & _).
  - intros x Hx. apply (lo_last _ _ L). by apply survivors_in in Hx.
Qed.

Lemma add_core_spec s es type data :
  log_ok s es -> is_byte type -> bytes data -> Z.of_nat (length data) <= 63 ->
  next_ts s < UINT32_MAX ->
  let k := survivors s es in
  let e := mkEvent (next_ts s) type data in
  let fits := used k + space e <=? LOG_SPACE in
  exists s', flash_log_add_event_core type (Z.of_nat (length data)) data s =
      (if fits then EC.SUCCESS else EC.ERROR_INVAL, s') /\
    log_ok s' (k ++ if fits then [e] else []) /\ outside_same s s' /\
    (fits = false -> compacts s = false) /\
    last_used_timestamp (vars s') = (if fits then next_ts s else last_used_timestamp (vars s)) /\
    log_tstamp_base (vars s') = log_tstamp_base (vars s) /\
    lock_failures_count (vars s') = lock_failures_count (vars s) /\
    overflow_failures_count (vars s') =
      (if fits then overflow_failures_count (vars s)
       else u32 (overflow_failures_count (vars s) + 1)).
Proof.
  intros L Hty Hd Hn Hts k e fits. pose proof (lo_page _ _ L) as P.
  unfold flash_log_add_event_core.
  change MAX_FLASH_LOG_PAYLOAD_SIZE with 63.
  destruct (Z.ltb_spec 63 (Z.of_nat (length data))); [lia|].
  rewrite (bind_run _ _ _ _ _ (lock_eq s (po_irq _ _ P) (lo_inited _ _ L) (lo_free _ _ L))).
  cbn [negb]. set (s1 := with_vars (set_in_progress true) s).
  rewrite (bind_run _ _ s1 (log_write_cursor (vars s)) s1) by done.
  assert (P1 : page_ok s1 es) by (destruct P; by split).
  destruct (make_room s1 es P1) as (s2 & Em & P2 & He2 & Ho2 & Hc2 & Hv2).
  change (survivors s1 es) with k in *. change (compacts s1) with (compacts s) in Hv2.
  rewrite (bind_run _ _ _ _ _ Em).
  rewrite (bind_run _ _ s2 (used k) s2) by (unfold getv, gets; by rewrite Hc2).
  assert (Hrest : last_used_timestamp (vars s2) = last_used_timestamp (vars s) /\
    log_tstamp_base (vars s2) = log_tstamp_base (vars s) /\
    lock_failures_count (vars s2) = lock_failures_count (vars s) /\
    overflow_failures_count (vars s2) = overflow_failures_count (vars s) /\
    log_inited (vars s2) = true /\
    exists l, l `prefix_of` k /\ read_cursor (vars s2) = used l).
  { pose proof (lo_inited _ _ L). pose proof (lo_cursor _ _ L) as Hcur. unfold k, survivors.
    destruct (compacts s).
    - destruct Hv2 as [_ ->]. cbn. split_and!; try done. exists []. split; [apply prefix_nil|done].
    - subst s2. cbn. by split_and!. }
  destruct Hrest as (R1 & R2 & R3 & R4 & R5 & R6).
  destruct (survivors_ok s es L) as [Hinc Hlast].
  pose proof (lo_last_range _ _ L) as Hlr. fold k in Hinc, Hlast.
  change (FLASH_LOG_ENTRY_SIZE (Z.of_nat (length data))) with (space e).
  unfold fits. destruct (Z.ltb_spec (LOG_SPACE - used k) (space e)) as [Hov|Hfit].
  - (* no room *)
    rewrite (proj2 (Z.leb_gt _ _)) by lia. cbn [negb].
    eexists. split; [unfold bind, getv, gets, set_vars, modify; reflexivity|]. rewrite app_nil_r.
    split; [|split; [exact Ho2|split; [|by cbn; rewrite R4]]].
    + split; cbn; try done; [destruct P2; by split|by rewrite R1|by rewrite R1].
    + intros _. destruct (compacts s); [|done]. destruct Hv2 as [Hu _].
      assert (He : wf_event (mkEvent 1 type data)) by (split_and!; [done|done|done|done|exact Hn]).
      pose proof (space_spec _ He) as Hsp. change (space (mkEvent 1 type data)) with (space e) in Hsp.
      change LOG_SPACE with (4 * COMPACTION_SPACE_PRESERVE) in Hov.
      assert (COMPACTION_SPACE_PRESERVE = 512) by reflexivity. lia.
  - rewrite (proj2 (Z.leb_le _ _)) by lia.
    (* the timestamp *)
    unfold flash_log_get_tstamp, seconds.
    destruct (get_time (log_env s)) as [t env'] eqn:Et.
    set (s3 := mkFlog (vars s2) (log_flash s2) (region5_wr_en s2) (log_heap s2) env').
    assert (Hnt : next_ts s = let new := u32 (log_tstamp_base (vars s) + t / 1000000) in
      if new <=? last_used_timestamp (vars s) then last_used_timestamp (vars s) + 1 else new)
      by (unfold next_ts; by rewrite Et).
    set (new := u32 (log_tstamp_base (vars s) + t / 1000000)) in *. cbn zeta in Hnt.
    rewrite (bind_run _ _ s2 new s3).
    2:{ unfold bind, getv, gets, on_env, ret. rewrite He2. change (log_env s1) with (log_env s).
        rewrite Et. cbn. by rewrite R2. }
    rewrite (bind_run _ _ s3 (last_used_timestamp (vars s)) s3)
      by (unfold getv, gets; cbn; by rewrite R1).
    rewrite <- Hnt.
    set (s4 := with_vars (set_last_used (next_ts s)) s3).
    rewrite (bind_run _ _ s3 tt s4) by done.
    assert (Hnew : 0 <= new) by (apply (uN_range 32); lia).
    assert (Hnx : last_used_timestamp (vars s) < next_ts s)
      by (rewrite Hnt; destruct (Z.leb_spec new (last_used_timestamp (vars s))); lia).
    assert (Hu32 : u32 (next_ts s) = next_ts s)
      by (apply uN_small; unfold UINT32_MAX in *; lia).
    rewrite (bind_run _ _ s4 (next_ts s) s4) by (unfold getv, gets; cbn; by rewrite Hu32).
    assert (He : wf_event e).
    { unfold wf_event, e. cbn [ev_ts ev_type ev_data]. split_and!; [lia|done..|exact Hn]. }
    pose proof (get_time_irq (log_env s)) as Hirq. rewrite Et in Hirq. cbn in Hirq.
    assert (P4 : page_ok s4 k).
    { destruct P2. split; try done. cbn. rewrite Hirq. apply P. }
    destruct (commit_event s4 k e P4 He) as (s5 & Ew & P5 & Ho5 & Hv5); [lia|].
    exists s5. split; [exact Ew|]. split; [|split; [by eapply outside_trans|split; [done|]]].
    + split; [exact P5|..]; rewrite ?Hv5; cbn; rewrite ?Hu32; try done.
      * apply increasing_snoc; [done|]. intros x Hx. specialize (Hlast x Hx). cbn. lia.
      * intros x Hx. apply elem_of_app in Hx as [Hx|Hx].
        -- specialize (Hlast x Hx). lia.
        -- apply elem_of_cons in Hx as [->|Hx]; [done|by apply elem_of_nil in Hx].
      * lia.
      * destruct R6 as (l & Hl & Hrc). exists l. split; [by apply prefix_app_r|done].
    + rewrite Hv5. cbn. by rewrite Hu32.
Qed.
End Run.
