(* ===== verification/FlashLogRead.v ===== *)
(** * The flash log: what is read back, and what a restart finds *)

From S2P Require Import Prelude Vendor Crc8 Flash FlashProps BoardId Shmalloc ShmallocProps ShmallocHeap ShmallocRun FlashLog FlashLogProps FlashLogOps FlashLogRun.

Section Read.
Context {F E : Type} `{!FlashDev F} `{!FlashDevLaws F} `{!FlashReliable F}.
Context `{!LogEnv E} `{!LogEnvLaws E}.
Implicit Types s : flog F E.
Context (base top : Z) (al : list (Z * Z)).
Hypothesis memory_bounds : 0 < base /\ base + sizeof_shm_buffer <= top /\ top < 2 ^ 31 /\
  top - base <= 0x10000000.

(** ** Retrieval *)

(** A retrieval starts over, or goes on from where the last one ended. *)
Definition restarts s (after : Z) : bool :=
  negb (nz after) || (after <? prev_timestamp (vars s)).

Definition at_cursor s (l : list event) (prev : Z) : flog F E :=
  with_vars (set_read_context (used l) prev) s.

Lemma prefix_used l es : Forall wf_event es -> l `prefix_of` es -> 0 <= used l <= used es.
Proof.
  intros Hes [k ->]. apply Forall_app in Hes as [H1 H2]. rewrite used_app.
  pose proof (used_spec l H1). pose proof (used_spec k H2). lia.
Qed.

Lemma at_cursor_ok s es l p :
  log_ok base top al s es -> l `prefix_of` es -> log_ok base top al (at_cursor s l p) es.
Proof.
  intros [P] Hl. destruct P as [Hes Hlays Hblank Hroom]. split; try done.
  exists l. split; [done|]. cbn. apply u16_cursor.
  pose proof (prefix_used l es Hes Hl). pose proof (lays_used _ _ _ _ Hlays). lia.
Qed.

(** Taking and leaving the lock around a change of the cursor. *)
Lemma unlock_at s l p :
  log_event_in_progress (vars s) = false ->
  with_vars (set_in_progress false) (at_cursor (with_vars (set_in_progress true) s) l p) =
  at_cursor s l p.
Proof. destruct s as [v f r h e]. destruct v. cbn. by intros ->. Qed.

Lemma set_read_context_twice c p t v :
  set_read_context (read_cursor (set_read_context c p v)) t (set_read_context c p v) =
  set_read_context c t v.
Proof. unfold set_read_context. cbn. by rewrite uN_uN. Qed.

Lemma at_cursor_same s l :
  read_cursor (vars s) = used l -> 0 <= used l <= LOG_SPACE ->
  at_cursor s l (prev_timestamp (vars s)) = s.
Proof.
  intros Hc Hl. unfold at_cursor, with_vars. rewrite <- Hc in *.
  rewrite set_read_context_same by done. by destruct s.
Qed.

(** The start of a retrieval, behind the events [l]. *)
Definition starts_behind s (after : Z) (l : list event) : Prop :=
  if restarts s after then l = [] else read_cursor (vars s) = used l.

Lemma read_start s es l after :
  log_ok base top al s es -> l `prefix_of` es -> starts_behind s after l ->
  let s1 := with_vars (set_in_progress true) s in
  let prev := if restarts s after then 0 else prev_timestamp (vars s) in
  (if restarts s after then set_vars (set_read_context 0 0) else ret tt) s1 =
    (tt, at_cursor s1 l prev).
Proof.
  intros L Hl Hs s1 prev. unfold starts_behind, prev in *. destruct (restarts s after).
  - by subst l.
  - pose proof (prefix_used l es (po_wf _ _ _ _ _ (lo_page _ _ _ _ _ L)) Hl) as Hu.
    pose proof (po_used _ _ _ _ _ (lo_page _ _ _ _ _ L)) as Hw.
    pose proof (po_room _ _ _ _ _ (lo_page _ _ _ _ _ L)) as Hr.
    unfold ret. by rewrite (at_cursor_same s1) by (done || lia).
Qed.

(** The first event after [after] is delivered, if the buffer has room for it. *)
Lemma dequeue_cases s es l es2 after size :
  log_ok base top al s es -> es = l ++ es2 -> used es < LOG_SPACE -> starts_behind s after l ->
  ((forall e, e ∈ es2 -> ev_ts e <= after) /\
   flash_log_dequeue_event after size s =
     ((0, []), at_cursor s es (if restarts s after then 0 else prev_timestamp (vars s)))) \/
  (exists l1 e l2, es2 = l1 ++ e :: l2 /\ (forall x, x ∈ l1 -> ev_ts x <= after) /\
     after < ev_ts e /\
     flash_log_dequeue_event after size s =
       if size <? ev_len e + 7 then ((- EC.ERROR_MEMORY_ALLOCATION, []), at_cursor s [] 0)
       else ((ev_len e + 7, delivered e), at_cursor s (l ++ l1 ++ [e]) (ev_ts e))).
Proof.
  intros L Ees Hfull Hstart. pose proof (lo_page _ _ _ _ _ L) as P.
  pose proof (po_wf _ _ _ _ _ P) as Hes. pose proof (po_used _ _ _ _ _ P) as Hw.
  assert (Hpre : l `prefix_of` es) by (exists es2; done).
  pose proof (read_start s es l after L Hpre Hstart) as Hrs. cbn zeta in Hrs.
  unfold flash_log_dequeue_event.
  rewrite (bind_run _ _ _ _ _
    (lock_eq s (po_irq _ _ _ _ _ P) (lo_inited _ _ _ _ _ L) (lo_free _ _ _ _ _ L))).
  cbn [negb]. set (s1 := with_vars (set_in_progress true) s) in *.
  set (prev := if restarts s after then 0 else prev_timestamp (vars s)) in *.
  rewrite (bind_run _ _ s1 (prev_timestamp (vars s)) s1) by done.
  fold (restarts s after). rewrite (bind_run _ _ _ _ _ Hrs).
  set (s2 := at_cursor s1 l prev).
  destruct (used_spec es Hes) as (_ & H4 & Hlen).
  pose proof (prefix_used l es Hes Hpre) as Hl0.
  assert (Hc2 : read_cursor (vars s2) = used l) by (cbn; apply u16_cursor; lia).
  rewrite (bind_run _ _ s2 (used l) s2) by (unfold getv, gets; by rewrite Hc2).
  pose proof Hes as Hes'. rewrite Ees in Hes'. apply Forall_app in Hes' as [Hwl Hw2].
  pose proof (used_app l es2) as Hua. rewrite <- Ees in Hua.
  destruct (used_spec es2 Hw2) as (_ & _ & Hlen2). unfold sizeof_flash_log_entry, LOG_SPACE in *.
  assert (Hunlock : forall k p, with_vars (set_in_progress false) (at_cursor s1 k p) = at_cursor s k p)
    by (intros k p; apply unlock_at, L).
  destruct (Z.ltb_spec (0x800 - 7) (used l)) as [Hend|Hend].
  { left. destruct es2 as [|x es2]; [|cbn [length] in *; lia].
    rewrite app_nil_r in Ees. subst l. split; [intros e He; by apply elem_of_nil in He|].
    unfold bind, ret, set_vars, modify. by rewrite <- Hunlock. }
  pose proof (po_lays _ _ _ _ _ P) as Hlays. rewrite Ees in Hlays at 1.
  apply lays_app in Hlays as [_ Hlays]. rewrite Z.add_0_l in Hlays.
  assert (Hset : forall c p, with_vars (set_read_context c p) s2 = with_vars (set_read_context c p) s1)
    by done.
  destruct (dequeue_loop_spec log_fuel after (used l) es2 _ s2 Hlays Hw2)
    as [[Hall Ed]|(l1 & e & l2 & E2 & Hb & He & Ed)];
    [lia|exact (po_blank _ _ _ _ _ P)|rewrite Hw; unfold LOG_SPACE; Z.div_mod_to_equations; lia|done
    |unfold log_fuel; lia| |].
  - left. split; [done|]. rewrite Hset, Hw in Ed. unfold bind. rewrite Ed.
    cbn [fst snd ret set_vars modify]. by rewrite <- Hunlock.
  - right. exists l1, e, l2. split; [done|]. split; [done|]. split; [done|].
    subst es2. apply lays_app in Hlays as [_ [Hst _]].
    apply Forall_app in Hw2 as [_ Hw2]. apply Forall_cons in Hw2 as [Hwe _].
    pose proof (stored_entry _ _ e Hwe Hst) as Hent.
    pose proof (stored_delivered _ _ e Hwe Hst) as Hdel.
    assert (Hpay : FLASH_LOG_PAYLOAD_SIZE (esize (seal e)) + 7 = ev_len e + 7).
    { cbn [esize seal]. rewrite payload_size_small; [done|]. destruct Hwe as (_ & _ & _ & ?).
      unfold ev_len in *. lia. }
    assert (Hlast : used (l ++ l1 ++ [e]) = used l + used l1 + space e)
      by (rewrite !used_app; cbn; lia).
    rewrite Hset in Ed. unfold bind at 1. rewrite (bind_run _ _ _ _ _ Ed).
    unfold bind, flash_mem, getv, gets. cbn [log_flash with_vars s1].
    fold (page s). rewrite Hent, Hpay.
    destruct (size <? ev_len e + 7); unfold ret, set_vars, modify.
    + by rewrite <- Hunlock.
    + assert (Hby : log_bytes (page s) (used l + used l1) (ev_len e + 7) = delivered e).
      { unfold log_bytes. rewrite <- Hdel. f_equal. pose proof (length_delivered e). lia. }
      change (page s2) with (page s). rewrite Hby, <- Hunlock. unfold at_cursor, with_vars.
      rewrite Hlast. cbn [vars]. by rewrite set_read_context_twice.
Qed.

(** ** Dumping the log *)

Lemma delivered_ts e : wf_event e -> le_val (take 4 (delivered e)) = ev_ts e.
Proof.
  intros (Ht & _). unfold delivered, entry_header. cbn [timestamp seal].
  rewrite <- app_assoc. rewrite take_app_length' by (by rewrite length_le_bytes).
  apply le_val_bytes. unfold UINT32_MAX in *. lia.
Qed.

Lemma dump_loop_spec fuel stamp printed s es l es2 :
  log_ok base top al s es -> es = l ++ es2 -> used es < LOG_SPACE -> starts_behind s stamp l ->
  (forall x, x ∈ es2 -> stamp < ev_ts x) -> (length es2 < fuel)%nat ->
  exists s', dump_loop fuel stamp printed s = (printed ++ map delivered es2, s') /\
    log_ok base top al s' es.
Proof.
  intros L Ees Hfull. revert fuel stamp printed s l Ees L.
  induction es2 as [|e es2 IH]; intros [|fuel] stamp printed s l Ees L Hst Hgt Hf;
    try (cbn in Hf; lia); cbn [dump_loop];
    destruct (dequeue_cases s es l _ stamp 72 L Ees Hfull Hst)
      as [[Hall Ed]|(l1 & x & l2 & E2 & Hle & Hlt & Ed)].
  - rewrite (bind_run _ _ _ _ _ Ed). cbn. rewrite app_nil_r. eexists. split; [done|].
    apply at_cursor_ok; [done|reflexivity].
  - by destruct l1.
  - pose proof (Hall e (list_elem_of_here _ _)). pose proof (Hgt e (list_elem_of_here _ _)). lia.
  - destruct l1 as [|y l1].
    2:{ injection E2 as <- _. pose proof (Hle e (list_elem_of_here _ _)).
        pose proof (Hgt e (list_elem_of_here _ _)). lia. }
    injection E2 as <- <-. cbn [app] in Ed.
    pose proof (lo_page _ _ _ _ _ L) as P. pose proof (po_wf _ _ _ _ _ P) as Hes.
    pose proof Hes as Hes'. rewrite Ees in Hes'. apply Forall_app in Hes' as [_ Hes'].
    apply Forall_cons in Hes' as [He _]. pose proof He as (Hts & _ & _ & Hlen).
    rewrite (proj2 (Z.ltb_ge _ _)) in Ed by lia. rewrite (bind_run _ _ _ _ _ Ed).
    rewrite (proj2 (Z.ltb_lt _ _)) by (unfold ev_len; lia). cbn [negb].
    rewrite (delivered_ts e He).
    assert (Hpre : l ++ [e] `prefix_of` es) by (exists es2; by rewrite <- app_assoc).
    destruct (IH fuel (ev_ts e) (printed ++ [delivered e]) (at_cursor s (l ++ [e]) (ev_ts e))
      (l ++ [e])) as (s' & Ed' & L').
    + by rewrite <- app_assoc.
    + by apply at_cursor_ok.
    + unfold starts_behind, restarts. cbn. rewrite nz_pos by lia. rewrite Z.ltb_irrefl. cbn.
      apply u16_cursor. pose proof (prefix_used _ es Hes Hpre). lia.
    + intros x Hx. pose proof (lo_sorted _ _ _ _ _ L) as Hs. rewrite Ees in Hs.
      apply increasing_app in Hs as (_ & Hs & _). change (e :: es2) with ([e] ++ es2) in Hs.
      apply increasing_app in Hs as (_ & _ & Hs). apply Hs; [apply list_elem_of_here|done].
    + cbn in Hf. lia.
    + exists s'. split; [|done]. rewrite Ed'. cbn [map]. by rewrite <- app_assoc.
Qed.

(** ** Start-up *)

(** The static variables and the page at boot: events, then [Tail]. *)
Record booting s (es : list event) : Prop := {
  bo_wf : Forall wf_event es;
  bo_sorted : increasing es;
  bo_lays : lays (page s) 0 es (used es);
  bo_room : used es < LOG_SPACE;
  bo_invalid : entry_is_valid (page s) (used es) = false;
  bo_irq : in_interrupt_context (log_env s) = false;
  bo_heap : heap_at base top al (log_heap s);
  bo_dev : reliable (log_flash s);
  bo_read : read_cursor (vars s) = 0;
  bo_last : last_used_timestamp (vars s) = 0;
  bo_free : log_event_in_progress (vars s) = false;
  bo_counts : lock_failures_count (vars s) = 0 /\ overflow_failures_count (vars s) = 0
}.

Definition last_ts (es : list event) : Z :=
  match last es with Some e => ev_ts e | None => 0 end.

Lemma last_ts_max es e : increasing es -> e ∈ es -> ev_ts e <= last_ts es.
Proof.
  intros Hs He. induction es as [|x l _] using rev_ind; [by apply elem_of_nil in He|].
  unfold last_ts. rewrite last_snoc. apply increasing_app in Hs as (_ & _ & Hs).
  apply elem_of_app in He as [He|He].
  - pose proof (Hs e x He (list_elem_of_here _ _)). lia.
  - apply elem_of_cons in He as [->|He]; [lia|by apply elem_of_nil in He].
Qed.

Lemma last_ts_range es : Forall wf_event es -> 0 <= last_ts es < UINT32_MAX.
Proof.
  intros Hes. unfold last_ts. destruct (last es) as [e|] eqn:El; [|done].
  apply last_Some_elem_of in El. rewrite Forall_forall in Hes. destruct (Hes e El) as (? & _). lia.
Qed.

(** The variables that the scan of the page leaves. *)
Definition scanned (es : list event) s : flog F E :=
  with_vars (fun v => set_inited (set_write_cursor (used es) (set_tstamp_base (last_ts es + 1)
    (stamped es v)))) s.

Lemma scanned_last es s : booting s es ->
  last_used_timestamp (stamped es (vars s)) = last_ts es.
Proof.
  intros B. pose proof (last_ts_range es (bo_wf _ _ B)) as Hr. unfold last_ts, stamped in *.
  destruct (last es) as [e|]; [|apply B]. cbn. apply uN_small. unfold UINT32_MAX in *. lia.
Qed.

Lemma stamped_others es v :
  read_cursor (stamped es v) = read_cursor v /\
  log_event_in_progress (stamped es v) = log_event_in_progress v /\
  lock_failures_count (stamped es v) = lock_failures_count v /\
  overflow_failures_count (stamped es v) = overflow_failures_count v.
Proof. unfold stamped. by destruct (last es). Qed.

(** The start of [flash_log_init], up to the branches. *)
Definition init_branches (read_cursor : Z) (s : flog F E) : ST (flog F E) unit :=
  (if negb (timestamp (entry_at (page s) read_cursor) =? FLASH_ERASED_VALUE32) then
     try_compacting ;;;
     flash_log_add_event FE_LOG_CORRUPTED 0 []
   else if nz read_cursor then
     if STARTUP_LOG_FULL_WATERMARK <? read_cursor then try_compacting else ret tt
   else flash_log_add_event FE_LOG_START 0 []) ;;;
  flash_log_write_disable.

Lemma init_scan s es : booting s es ->
  flash_log_init s = init_branches (used es) s (with_region true (scanned es s)).
Proof.
  intros B. destruct (used_spec es (bo_wf _ _ B)) as (_ & _ & Hlen).
  pose proof (bo_room _ _ B) as Hroom. unfold LOG_SPACE in *. unfold flash_log_init.
  rewrite (bind_run _ _ _ _ _ (init_loop_spec log_fuel 0 es (used es) s (bo_lays _ _ B) (bo_wf _ _ B)
    ltac:(lia) ltac:(unfold LOG_SPACE; lia) (bo_invalid _ _ B) ltac:(unfold log_fuel; lia))).
  rewrite (bind_run _ _ (with_vars (stamped es) s) (last_ts es) (with_vars (stamped es) s))
    by (unfold getv, gets; cbn; by rewrite (scanned_last es s B)).
  rewrite (bind_run _ _ _ tt (with_vars (fun v => set_tstamp_base (last_ts es + 1) (stamped es v)) s))
    by done.
  rewrite (bind_run _ _ _ tt (with_vars (fun v => set_write_cursor (used es)
    (set_tstamp_base (last_ts es + 1) (stamped es v))) s)) by done.
  rewrite (bind_run _ _ _ tt (scanned es s)) by done.
  rewrite (bind_run _ _ _ _ _ (write_enable_eq _)).
  by rewrite (bind_run _ _ _ (page s) (with_region true (scanned es s))).
Qed.

Lemma with_region_ok b s es : log_ok base top al s es -> log_ok base top al (with_region b s) es.
Proof. intros [[]]. by split. Qed.

(** What the scan leaves, apart from the erased bytes behind the events. *)
Lemma scanned_vars s es : booting s es ->
  let v := vars (scanned es s) in
  log_write_cursor v = used es /\ last_used_timestamp v = last_ts es /\
  log_tstamp_base v = last_ts es + 1 /\ read_cursor v = 0 /\ log_inited v = true /\
  log_event_in_progress v = false /\ lock_failures_count v = 0 /\ overflow_failures_count v = 0.
Proof.
  intros B. destruct (stamped_others es (vars s)) as (S1 & S2 & S3 & S4).
  destruct (used_spec es (bo_wf _ _ B)) as (H0 & _). pose proof (bo_room _ _ B).
  pose proof (last_ts_range es (bo_wf _ _ B)).
  pose proof (scanned_last es s B) as Hl. destruct (bo_counts _ _ B) as [C1 C2].
  unfold scanned, with_vars, set_inited, set_write_cursor, set_tstamp_base. cbn.
  rewrite S1, S2, S3, S4, Hl, u16_cursor by lia. pose proof (bo_read _ _ B).
  pose proof (bo_free _ _ B). rewrite uN_small by (unfold UINT32_MAX in *; lia). by split_and!.
Qed.

Lemma scanned_ok s es : booting s es -> blank (page s) (used es) ->
  log_ok base top al (scanned es s) es.
Proof.
  intros B Hb. destruct (scanned_vars s es B) as (V1 & V2 & _ & V4 & V5 & V6 & _).
  pose proof (last_ts_range es (bo_wf _ _ B)). pose proof (bo_room _ _ B).
  split; rewrite ?V2; try done.
  - split; rewrite ?V1; try apply B; [done|lia].
  - apply B.
  - intros e He. apply last_ts_max; [apply B|done].
  - exists []. split; [apply prefix_nil|done].
Qed.

(** Compaction at start-up. *)
Lemma scanned_compacts b s es : booting s es ->
  let s1 := with_region b (scanned es s) in
  exists s', try_compacting s1 = (tt, s') /\
    if roomy s
    then log_ok base top al s' (kept 0 (used es) es) /\ log_env s' = log_env s /\
      vars s' = set_read_context 0 0
        (set_write_cursor (used (kept 0 (used es) es)) (vars (scanned es s)))
    else s' = s1.
Proof.
  intros B s1. destruct (scanned_vars s es B) as (V1 & V2 & _ & V4 & V5 & V6 & _).
  pose proof (last_ts_range es (bo_wf _ _ B)). pose proof (bo_room _ _ B).
  destruct (try_compacting_spec base top al memory_bounds s1 es) as (s' & Et & H');
    [apply B|cbn [vars with_region s1]; rewrite V1; apply B
    |cbn [vars with_region s1]; rewrite V1; lia|apply B..|].
  exists s'. split; [exact Et|]. change (roomy s1) with (roomy s) in H'.
  destruct (roomy s); [|done]. destruct H' as (L & Bl & V & _ & Hh & D & I & _).
  cbn [vars with_region s1] in L, Bl, V. rewrite V1 in L, Bl, V.
  split; [|by rewrite I, V].
  assert (P : page_ok base top al s' (kept 0 (used es) es)).
  { apply (compacted_page_ok base top al s1 s' es); try done; apply B. }
  destruct (kept_suffix 0 (used es) es) as [l0 El].
  pose proof (bo_sorted _ _ B) as Hs. rewrite El in Hs. apply increasing_app in Hs as (_ & Hs & _).
  split; rewrite ?V; cbn [set_read_context set_write_cursor log_inited log_event_in_progress
    last_used_timestamp read_cursor]; rewrite ?V2; try done.
  - intros e He. apply last_ts_max; [apply B|]. rewrite El. apply elem_of_app. by right.
  - exists []. split; [apply prefix_nil|done].
Qed.

(** The events that start-up adds: their timestamp is at least one after the last one. *)
Definition boot_ts s (es : list event) : Z :=
  let new := u32 (last_ts es + 1 + (get_time (log_env s)).1 / 1000000) in
  if new <=? last_ts es then last_ts es + 1 else new.

Lemma add_event_core_only s type size data rv s' :
  lock_failures_count (vars s) = 0 -> overflow_failures_count (vars s) = 0 ->
  flash_log_add_event_core type size data s = (rv, s') ->
  flash_log_add_event type size data s = (tt, s').
Proof.
  intros C1 C2 Ec. unfold flash_log_add_event.
  rewrite (bind_run _ _ s 0 s) by (unfold getv, gets; by rewrite C1). cbn [nz Z.eqb negb].
  rewrite (bind_run _ _ s tt s) by done.
  rewrite (bind_run _ _ s 0 s) by (unfold getv, gets; by rewrite C2). cbn [nz Z.eqb negb].
  rewrite (bind_run _ _ s tt s) by done. by rewrite (bind_run _ _ _ _ _ Ec).
Qed.

Lemma add_event_quiet s es type :
  log_ok base top al s es -> is_byte type ->
  lock_failures_count (vars s) = 0 -> overflow_failures_count (vars s) = 0 ->
  next_ts s < UINT32_MAX -> used es <= RUN_TIME_LOG_FULL_WATERMARK ->
  exists s', flash_log_add_event type 0 [] s = (tt, s') /\
    log_ok base top al s' (es ++ [mkEvent (next_ts s) type []]).
Proof.
  intros L Hty C1 C2 Hts Hw. pose proof (lo_page _ _ _ _ _ L) as P.
  destruct (add_core_spec base top al memory_bounds s es type [] L Hty) as (s' & Ec & L' & _);
    [constructor|done|done|].
  assert (Hk : survivors s es = es).
  { unfold survivors, compacts. rewrite (po_used _ _ _ _ _ P).
    by rewrite (proj2 (Z.ltb_ge _ _)) by done. }
  rewrite Hk in Ec, L'. change (space (mkEvent (next_ts s) type [])) with 8 in Ec, L'.
  rewrite (proj2 (Z.leb_le _ _)) in Ec, L' by (change LOG_SPACE with (RUN_TIME_LOG_FULL_WATERMARK + 205); lia).
  exists s'. split; [|done]. exact (add_event_core_only s type 0 [] _ s' C1 C2 Ec).
Qed.
End Read.
