(* ===== verification/FlashLogSpec.v ===== *)
(** * The flash log: what it promises *)

From S2P Require Import Prelude Vendor Crc8 Flash FlashProps BoardId Shmalloc ShmallocProps ShmallocHeap ShmallocRun FlashLog FlashLogProps FlashLogOps FlashLogRun FlashLogRead.

Section Spec.
Context {F E : Type} `{!FlashDev F} `{!FlashDevLaws F} `{!FlashReliable F}.
Context `{!LogEnv E} `{!LogEnvLaws E}.
Implicit Types s : flog F E.
Context (base top : Z) (al : list (Z * Z)).
Hypothesis memory_bounds : 0 < base /\ base + sizeof_shm_buffer <= top /\ top < 2 ^ 31 /\
  top - base <= 0x10000000.

(** C26. On a flash whose writes and erasures succeed, with no failure left to be reported, and
    before the last timestamp: an event is appended to a well-formed log with a timestamp above
    all others, the time when that is later. Past nine tenths of the page only the events of
    the last quarter survive, when the heap has room for them. Without a compaction the event
    may not fit: then the log stays as it is and the loss is counted. No other flash changes. *)
Theorem event_appended s es type data :
  log_ok base top al s es ->
  lock_failures_count (vars s) = 0 -> overflow_failures_count (vars s) = 0 ->
  is_byte type -> bytes data -> Z.of_nat (length data) <= MAX_FLASH_LOG_PAYLOAD_SIZE ->
  next_ts s < UINT32_MAX ->
  let k := survivors s es in
  let e := mkEvent (next_ts s) type data in
  let fits := used k + space e <=? LOG_SPACE in
  exists s', flash_log_add_event type (Z.of_nat (length data)) data s = (tt, s') /\
    log_ok base top al s' (k ++ if fits then [e] else []) /\
    (forall x, x ∈ es -> ev_ts x < next_ts s) /\
    (fits = false -> compacts s = false /\ overflow_failures_count (vars s') = 1) /\
    outside_same s s'.
Proof.
  intros L C1 C2 Hty Hd Hn Hts k e fits.
  destruct (add_core_spec base top al memory_bounds s es type data L Hty Hd Hn Hts)
    as (s' & Ec & L' & Ho & Hc & _ & _ & _ & Hov).
  exists s'. split; [exact (add_event_core_only s type _ data _ s' C1 C2 Ec)|].
  split; [exact L'|]. split; [|split; [|done]].
  - intros x Hx. pose proof (lo_last _ _ _ _ _ L x Hx). unfold next_ts.
    destruct (Z.leb_spec (u32 (log_tstamp_base (vars s) + (get_time (log_env s)).1 / 1000000))
      (last_used_timestamp (vars s))); lia.
  - intros Hf. split; [by apply Hc|]. fold k e fits in Hov. rewrite Hf, C2 in Hov. exact Hov.
Qed.

(** C27. The console dump of the whole log is, in order, every event that was stored, with its
    header and its data. *)
Theorem dump_returns_log s es :
  log_ok base top al s es -> used es < LOG_SPACE ->
  exists s', command_flash_log 1 0 s = ((EC.SUCCESS, map delivered es), s') /\
    log_ok base top al s' es.
Proof.
  intros L Hfull. pose proof (po_wf _ _ _ _ _ (lo_page _ _ _ _ _ L)) as Hes.
  destruct (used_spec es Hes) as (_ & _ & Hlen).
  destruct (dump_loop_spec base top al log_fuel 0 [] s es [] es L) as (s' & Ed & L'); try done.
  - intros x Hx. rewrite Forall_forall in Hes. by destruct (Hes x Hx) as ([? _] & _).
  - unfold log_fuel, LOG_SPACE in *. lia.
  - exists s'. split; [|done]. unfold command_flash_log. cbn [Z.leb Z.eqb Z.compare].
    change (3 <=? 1) with false. change (1 =? 2) with false. cbn iota.
    by rewrite (bind_run _ _ _ _ _ Ed).
Qed.

(** The three ways a start-up can go. *)
Lemma init_events s es :
  booting base top al s es -> blank (page s) (used es) -> es <> [] ->
  exists s', flash_log_init s = (tt, s') /\
    log_ok base top al s'
      (if (STARTUP_LOG_FULL_WATERMARK <? used es) && roomy s then kept 0 (used es) es else es).
Proof.
  intros B Hb Hne. rewrite (init_scan base top al s es B).
  destruct (used_spec es (bo_wf _ _ _ _ _ B)) as (H0 & H4 & Hlen).
  pose proof (bo_room _ _ _ _ _ B) as Hroom.
  destruct (scanned_compacts base top al memory_bounds true s es B) as (s1 & Et & H1).
  unfold init_branches. rewrite (blank_timestamp _ _ Hb), Z.eqb_refl
    by (unfold LOG_SPACE in *; Z.div_mod_to_equations; lia). cbn [negb].
  rewrite (nz_pos (used es)) by (destruct es; [done|cbn [length] in Hlen; lia]).
  pose proof (scanned_ok base top al s es B Hb) as L.
  destruct (STARTUP_LOG_FULL_WATERMARK <? used es); cbn [andb].
  - rewrite (bind_run _ _ _ _ _ Et), write_disable_eq. eexists. split; [done|].
    apply with_region_ok. destruct (roomy s); [tauto|]. subst s1. by apply with_region_ok.
  - rewrite (bind_run _ _ (with_region true (scanned es s)) tt _), write_disable_eq by done.
    eexists. split; [done|]. by repeat apply with_region_ok.
Qed.

Lemma init_empty s :
  booting base top al s [] -> blank (page s) 0 -> boot_ts s [] < UINT32_MAX ->
  exists s', flash_log_init s = (tt, s') /\
    log_ok base top al s' [mkEvent (boot_ts s []) FE_LOG_START []].
Proof.
  intros B Hb Hts. rewrite (init_scan base top al s [] B).
  destruct (scanned_vars base top al s [] B) as (V1 & V2 & V3 & _ & _ & _ & V7 & V8).
  unfold init_branches. cbn [used]. rewrite (blank_timestamp _ _ Hb), Z.eqb_refl by done.
  cbn [negb nz Z.eqb].
  pose proof (scanned_ok base top al s [] B Hb) as L. apply (with_region_ok _ _ _ true) in L.
  assert (En : next_ts (with_region true (scanned [] s)) = boot_ts s [])
    by (unfold next_ts, boot_ts; cbn [vars with_region log_env]; by rewrite V2, V3).
  destruct (add_event_quiet base top al memory_bounds _ [] FE_LOG_START L) as (s' & Ea & L');
    [done|done|done|by rewrite En|done|].
  rewrite (bind_run _ _ _ _ _ Ea), write_disable_eq. eexists. split; [done|].
  apply with_region_ok. by rewrite En in L'.
Qed.

Lemma init_corrupted s es :
  booting base top al s es -> timestamp (entry_at (page s) (used es)) <> FLASH_ERASED_VALUE32 ->
  roomy s = true -> boot_ts s es < UINT32_MAX ->
  exists s', flash_log_init s = (tt, s') /\
    log_ok base top al s' (kept 0 (used es) es ++ [mkEvent (boot_ts s es) FE_LOG_CORRUPTED []]).
Proof.
  intros B Hts Hr Hbt. rewrite (init_scan base top al s es B).
  destruct (scanned_vars base top al s es B) as (V1 & V2 & V3 & _ & _ & _ & V7 & V8).
  destruct (scanned_compacts base top al memory_bounds true s es B) as (s1 & Et & H1).
  unfold init_branches. rewrite (proj2 (Z.eqb_neq _ _)) by done. cbn [negb]. rewrite Hr in H1.
  destruct H1 as (L & I & V).
  assert (En : next_ts s1 = boot_ts s es).
  { unfold next_ts, boot_ts. rewrite I, V.
    cbn [log_tstamp_base last_used_timestamp set_read_context set_write_cursor]. by rewrite V2, V3. }
  destruct (add_event_quiet base top al memory_bounds s1 _ FE_LOG_CORRUPTED L) as (s' & Ea & L');
    [done|rewrite V; exact V7|rewrite V; exact V8|by rewrite En| |].
  { pose proof (kept_used 0 es (bo_wf _ _ _ _ _ B)) as Hk. rewrite Z.add_0_l in Hk.
    change RUN_TIME_LOG_FULL_WATERMARK with (COMPACTION_SPACE_PRESERVE + 1331). lia. }
  exists (with_region false s'). split; [|apply with_region_ok; by rewrite En in L'].
  unfold bind in *. rewrite Et, Ea. apply write_disable_eq.
Qed.

(** A restart finds the events in the page again.  A log of up to three quarters of the page
    stays as it is, a longer one is compacted if the heap has room; an erased page gets a
    start event; when something else follows the events the log is compacted and an event
    records the corruption. *)
Theorem restart_keeps_log s es :
  booting base top al s es -> boot_ts s es < UINT32_MAX ->
  blank (page s) (used es) \/
  (timestamp (entry_at (page s) (used es)) <> FLASH_ERASED_VALUE32 /\ roomy s = true) ->
  exists s', flash_log_init s = (tt, s') /\
    log_ok base top al s'
      (if timestamp (entry_at (page s) (used es)) =? FLASH_ERASED_VALUE32 then
         if used es =? 0 then [mkEvent (boot_ts s es) FE_LOG_START []]
         else if (STARTUP_LOG_FULL_WATERMARK <? used es) && roomy s then kept 0 (used es) es
         else es
       else kept 0 (used es) es ++ [mkEvent (boot_ts s es) FE_LOG_CORRUPTED []]).
Proof.
  intros B Hts Hcase. destruct (used_spec es (bo_wf _ _ _ _ _ B)) as (H0 & H4 & Hlen).
  pose proof (bo_room _ _ _ _ _ B) as Hroom. destruct Hcase as [Hb|[Hc Hr]].
  - rewrite (blank_timestamp _ _ Hb), Z.eqb_refl
      by (unfold LOG_SPACE in *; Z.div_mod_to_equations; lia).
    destruct es as [|e es]; [by apply init_empty|].
    rewrite (proj2 (Z.eqb_neq (used (e :: es)) 0)) by (cbn [length] in Hlen; lia).
    by apply init_events.
  - rewrite (proj2 (Z.eqb_neq _ _)) by done. by apply init_corrupted.
Qed.

(** A retrieval with the timestamp of the newest event leaves the cursor at the end of the
    log, and the timestamp that it is compared with unchanged: the next one with an older
    timestamp does not start over, and finds none of the events after that timestamp. *)
Theorem newer_events_missed s es newest older size size' :
  log_ok base top al s es -> used es < LOG_SPACE ->
  (forall e, e ∈ es -> ev_ts e <= newest) ->
  0 < older <= newest -> prev_timestamp (vars s) <= older ->
  let s1 := (flash_log_dequeue_event newest size s).2 in
  (flash_log_dequeue_event older size' s1).1 = (0, []).
Proof.
  intros L Hfull Hn Ho Hp s1. destruct (lo_cursor _ _ _ _ _ L) as (l & [es2 Ees] & Hc).
  assert (R : restarts s newest = false).
  { unfold restarts. rewrite nz_pos by lia. apply Z.ltb_ge. lia. }
  assert (E1 : s1 = at_cursor s es (prev_timestamp (vars s))).
  { destruct (dequeue_cases base top al s es l es2 newest size L Ees Hfull)
      as [[_ Ed]|(l1 & e & l2 & E2 & _ & He & _)].
    - unfold starts_behind. by rewrite R.
    - unfold s1. by rewrite Ed, R.
    - assert (Hin : e ∈ es); [|specialize (Hn e Hin); lia].
      rewrite Ees, E2. apply elem_of_app. right. apply elem_of_app. right. apply list_elem_of_here. }
  assert (L1 : log_ok base top al s1 es) by (rewrite E1; by apply at_cursor_ok).
  assert (R1 : restarts s1 older = false).
  { unfold restarts. rewrite nz_pos, E1 by lia. cbn. apply Z.ltb_ge. lia. }
  destruct (dequeue_cases base top al s1 es es [] older size' L1)
    as [[_ Ed]|(l1 & e & l2 & E2 & _)].
  - by rewrite app_nil_r.
  - done.
  - unfold starts_behind. rewrite R1, E1. cbn. apply u16_cursor.
    destruct (used_spec es (po_wf _ _ _ _ _ (lo_page _ _ _ _ _ L))) as (? & _). lia.
  - by rewrite Ed.
  - by destruct l1.
Qed.
End Spec.

(** ** A device in memory, on which the witnesses evaluate *)

Record mem_flash := mkMem { mf_main : memory; mf_info : memory }.

#[global] Instance mem_flash_dev : FlashDev mem_flash := {
  flash_main := mf_main;
  flash_info := mf_info;
  flash_physical_erase off len f := (EC.SUCCESS, mkMem (erased off len (mf_main f)) (mf_info f));
  flash_physical_write off data f :=
    (EC.SUCCESS, mkMem (programmed off data (mf_main f)) (mf_info f));
  flash_physical_info_read_word off f := ((EC.SUCCESS, read_word (mf_info f) off), f);
  flash_info_physical_write off data f :=
    (EC.SUCCESS, mkMem (mf_main f) (programmed off data (mf_info f)));
  flash_info_write_enable := ret tt;
  flash_info_write_disable := ret tt;
  flash_open_ro_window _ _ := ret tt;
  flash_close_ro_window := ret tt
}.

#[global] Instance mem_flash_laws : FlashDevLaws mem_flash.
Proof.
  split; cbn.
  - intros off data f f' _ _ _ [= <-]. done.
  - intros off data f rv f' _ _ _ [= <- <-]. split; [|done].
    by apply then_logged_now, programmed_is_partly.
  - intros off len f f' _ _ _ [= <-]. done.
  - intros off len f rv f' _ _ _ [= <- <-]. split; [|done].
    by apply then_logged_now, erased_is_only_in.
  - intros off f rv w f' _ _ [= <- <- <-]. unfold EC.SUCCESS. split_and!; lia || done.
  - intros off data f f' _ [= <-]. done.
  - intros off data f rv f' _ [= <- <-]. unfold EC.SUCCESS.
    split; [by apply programmed_is_partly|]. split; [lia|done].
  - intros m f [Hm|(off & n & ->)]; [|done].
    repeat (apply elem_of_cons in Hm as [->|Hm]; [done|]). by apply elem_of_nil in Hm.
Qed.

#[global] Instance mem_flash_reliable : FlashReliable mem_flash.
Proof.
  refine {| reliable _ := True |}.
  - intros off data f _ _ _ _ _ _. by eexists.
  - intros off f _ _ _ _. by eexists.
Defined.

(** A clock that advances by a second each time it is read. *)
#[global] Instance ticking_env : LogEnv nat := {
  get_time n := (Z.of_nat n * 1000000, S n);
  in_interrupt_context _ := false
}.

#[global] Instance ticking_env_laws : LogEnvLaws nat.
Proof. split; [intros e; cbn; lia|done]. Qed.

Definition blank_log : flog mem_flash nat :=
  mkFlog (mkVars 0 0 0 0 0 false false 0 0 true) (mkMem (fun _ => 255) (fun _ => 255)) false shm0 0%nat.

Lemma blank_booting : booting 4096 8192 [] blank_log [].
Proof.
  split; try done; [constructor|].
  exists [(4096, 8192 - 4096)]. by apply (init_represents 4096 8192 toy_heap_memory).
Qed.

(** A first start, and one event. *)
Definition toy_start : event := mkEvent 1 FE_LOG_START [].
Definition toy_event : event := mkEvent 2 7 [1; 2; 3].
Definition log1 : flog mem_flash nat := (flash_log_init blank_log).2.
Definition log2 : flog mem_flash nat := (flash_log_add_event 7 3 [1; 2; 3] log1).2.

Lemma log1_ok : log_ok 4096 8192 [] log1 [toy_start].
Proof.
  destruct (init_empty 4096 8192 [] toy_heap_memory blank_log blank_booting) as (s' & Ei & L);
    [done|reflexivity|].
  unfold log1. rewrite Ei. exact L.
Qed.

Lemma log1_state : lock_failures_count (vars log1) = 0 /\ overflow_failures_count (vars log1) = 0 /\
  next_ts log1 = 2 /\ compacts log1 = false.
Proof. vm_compute. auto. Qed.

Lemma survivors_log1 es : survivors log1 es = es.
Proof. unfold survivors. destruct log1_state as (_ & _ & _ & ->). done. Qed.

Lemma toy_type_byte : is_byte 7.
Proof. unfold is_byte. lia. Qed.

Lemma toy_data_bytes : bytes [1; 2; 3].
Proof. repeat (constructor; [unfold is_byte; lia|]). constructor. Qed.

Lemma log1_ts : next_ts log1 < UINT32_MAX.
Proof. destruct log1_state as (_ & _ & -> & _). reflexivity. Qed.

Lemma log2_ok : log_ok 4096 8192 [] log2 [toy_start; toy_event].
Proof.
  destruct log1_state as (C1 & C2 & N & _).
  pose proof (add_core_spec 4096 8192 [] toy_heap_memory log1 [toy_start] 7 [1; 2; 3] log1_ok
    toy_type_byte toy_data_bytes ltac:(discriminate) log1_ts) as H. cbv zeta in H.
  rewrite N, survivors_log1 in H. destruct H as (s' & Ec & L & _).
  unfold log2. pose proof (add_event_core_only log1 7 3 [1; 2; 3] _ s' C1 C2 Ec) as Ea.
  rewrite Ea. exact L.
Qed.

Lemma event_appended_witness :
  exists s', flash_log_add_event 7 3 [1; 2; 3] log1 = (tt, s') /\
    log_ok 4096 8192 [] s' [toy_start; toy_event].
Proof.
  destruct log1_state as (C1 & C2 & N & _).
  pose proof (event_appended 4096 8192 [] toy_heap_memory log1 [toy_start] 7 [1; 2; 3] log1_ok
    C1 C2 toy_type_byte toy_data_bytes ltac:(discriminate) log1_ts) as H. cbv zeta in H.
  rewrite N, survivors_log1 in H. destruct H as (s' & E & L & _).
  exists s'. split; [exact E|exact L].
Defined.

Lemma dump_returns_log_witness :
  exists s', command_flash_log 1 0 log2 = ((EC.SUCCESS, [delivered toy_start; delivered toy_event]), s').
Proof.
  destruct (dump_returns_log 4096 8192 [] log2 _ log2_ok eq_refl) as (s' & E & _).
  exists s'. exact E.
Defined.

(** The same page after a restart. *)
Definition reboot (s : flog mem_flash nat) : flog mem_flash nat :=
  mkFlog (vars blank_log) (log_flash s) false shm0 0%nat.

Lemma reboot_page s : page (reboot s) = page s.
Proof. done. Qed.

Lemma reboot_blank s es : log_ok 4096 8192 [] s es -> blank (page (reboot s)) (used es).
Proof.
  intros L. pose proof (lo_page _ _ _ _ _ L) as P. rewrite reboot_page.
  rewrite <- (po_used _ _ _ _ _ P). apply P.
Qed.

Lemma reboot_booting s es :
  log_ok 4096 8192 [] s es -> used es < LOG_SPACE -> booting 4096 8192 [] (reboot s) es.
Proof.
  intros L Hfull. pose proof (lo_page _ _ _ _ _ L) as P.
  pose proof (po_used _ _ _ _ _ P) as Hw. split; try done.
  - apply P.
  - apply L.
  - rewrite reboot_page, <- Hw. apply P.
  - apply blank_invalid; [by apply reboot_blank|].
    by destruct (used_spec es (po_wf _ _ _ _ _ P)) as (_ & ? & _).
  - exists [(4096, 8192 - 4096)].
    exact (init_represents 4096 8192 toy_heap_memory blank_shmem eq_refl).
Qed.

Lemma restart_keeps_log_witness :
  exists s', flash_log_init (reboot log2) = (tt, s') /\
    log_ok 4096 8192 [] s' [toy_start; toy_event].
Proof.
  pose proof (reboot_blank log2 _ log2_ok) as Hb.
  destruct (restart_keeps_log 4096 8192 [] toy_heap_memory (reboot log2) _
    (reboot_booting log2 _ log2_ok eq_refl) eq_refl (or_introl Hb)) as (s' & E & L).
  exists s'. split; [exact E|].
  rewrite (blank_timestamp _ _ Hb ltac:(discriminate)) in L. exact L.
Defined.

(** Two events are in the log; after a retrieval with the timestamp of the second one, the
    second one is not found with the timestamp of the first. *)
Lemma newer_events_missed_witness :
  (flash_log_dequeue_event 1 72 (flash_log_dequeue_event 2 72 log2).2).1 = (0, []).
Proof.
  apply (newer_events_missed 4096 8192 [] log2 [toy_start; toy_event] 2 1 72 72 log2_ok eq_refl).
  - intros e He. apply elem_of_cons in He as [->|He]; [discriminate|].
    apply elem_of_cons in He as [->|He]; [discriminate|by apply elem_of_nil in He].
  - lia.
  - vm_compute. discriminate.
Defined.
