(* ===== verification/TpmNv.v ===== *)
(** * Access to the NV indices of the TPM (board/cr50/tpm_nvmem_ops.c)

    The TPM library keeps the indices; what the firmware calls of it is the class
    [TpmNv], what it relies on is [TpmNvLaws].  [nv_map] is an instance in memory. *)

From S2P Require Import Prelude.

Class TpmNv (N : Type) := {
  HR_NV_INDEX : Z;
  NvEarlyStageFindHandle : N -> Z -> Z;              (* 0: not found *)
  nvindex_written : N -> Z -> bool;                  (* NvReadIndexInfo: TPMA_NV_WRITTEN *)
  nvindex_dataSize : N -> Z -> Z;                    (* NvReadIndexInfo: dataSize *)
  NvReadIndexData : N -> Z -> Z -> Z -> list Z;      (* handle, offset, size *)
  NvWriteIndexData : Z -> Z -> list Z -> N -> N      (* handle, offset, data *)
}.

(** A write of no more than the size of a written index is what is read afterwards; the
    other properties of the index stay. *)
Class TpmNvLaws (N : Type) `{!TpmNv N} := {
  read_length nv h off n : 0 <= n -> length (NvReadIndexData nv h off n) = Z.to_nat n;
  read_write nv h data :
    NvEarlyStageFindHandle nv h <> 0 -> nvindex_written nv h = true ->
    Z.of_nat (length data) <= nvindex_dataSize nv h ->
    NvReadIndexData (NvWriteIndexData h 0 data nv) h 0 (Z.of_nat (length data)) = data;
  write_found nv h off data :
    NvEarlyStageFindHandle (NvWriteIndexData h off data nv) h = NvEarlyStageFindHandle nv h;
  write_written nv h off data :
    nvindex_written nv h = true -> nvindex_written (NvWriteIndexData h off data nv) h = true;
  write_dataSize nv h off data :
    nvindex_dataSize (NvWriteIndexData h off data nv) h = nvindex_dataSize nv h
}.

(** [enum nv_index] *)
Definition NV_INDEX_FIRMWARE : Z := 0x1007.
Definition NV_INDEX_KERNEL : Z := 0x1008.
Definition NV_INDEX_FWMP : Z := 0x100a.

(** [enum tpm_read_rv] *)
Inductive tpm_read_rv := TPM_READ_SUCCESS | TPM_READ_NOT_FOUND | TPM_READ_TOO_SMALL.

#[global] Instance tpm_read_rv_dec : EqDecision tpm_read_rv.
Proof. solve_decision. Defined.

(** The result and, on success, the bytes stored at [obj_value]. *)
Definition read_tpm_nvmem {N} `{!TpmNv N} (nv : N) (obj_index obj_size : Z)
    : tpm_read_rv * list Z :=
  let object_handle := u32 (HR_NV_INDEX + obj_index) in
  let handle_addr := NvEarlyStageFindHandle nv object_handle in
  if handle_addr =? 0 then (TPM_READ_NOT_FOUND, [])
  else if negb (nvindex_written nv object_handle) then (TPM_READ_NOT_FOUND, [])
  else if nvindex_dataSize nv object_handle <? obj_size then (TPM_READ_TOO_SMALL, [])
  else (TPM_READ_SUCCESS, NvReadIndexData nv object_handle 0 obj_size).

Section Lemmas.
Context {N : Type} `{!TpmNv N} `{!TpmNvLaws N}.

Lemma read_tpm_nvmem_length nv i n l :
  0 <= n -> read_tpm_nvmem nv i n = (TPM_READ_SUCCESS, l) -> length l = Z.to_nat n.
Proof.
  unfold read_tpm_nvmem. intros Hn H. repeat (destruct (_ : bool); [discriminate|]).
  injection H as <-. by apply read_length.
Qed.

(** What was written to a readable index is read back. *)
Lemma read_tpm_nvmem_write nv i data l :
  read_tpm_nvmem nv i (Z.of_nat (length data)) = (TPM_READ_SUCCESS, l) ->
  read_tpm_nvmem (NvWriteIndexData (u32 (HR_NV_INDEX + i)) 0 data nv) i
    (Z.of_nat (length data)) = (TPM_READ_SUCCESS, data).
Proof.
  unfold read_tpm_nvmem. rewrite write_found, write_dataSize.
  destruct (Z.eqb_spec (NvEarlyStageFindHandle nv (u32 (HR_NV_INDEX + i))) 0); [discriminate|].
  destruct (nvindex_written nv (u32 (HR_NV_INDEX + i))) eqn:Hw; [cbn|discriminate].
  destruct (Z.ltb_spec (nvindex_dataSize nv (u32 (HR_NV_INDEX + i))) (Z.of_nat (length data)));
    [discriminate|].
  intros _. rewrite write_written by done. cbn. by rewrite read_write.
Qed.
End Lemmas.

(** ** Indices in memory: the data of the indices that were written, by handle *)

Abbreviation nv_map := (gmap Z (list Z)).

Definition padded (n : nat) (l : list Z) : list Z := take n (l ++ zeros n).

#[global] Instance nv_map_nv : TpmNv nv_map := {
  HR_NV_INDEX := 0x01000000;
  NvEarlyStageFindHandle m h := b2z (bool_decide (is_Some (m !! h)));
  nvindex_written m h := bool_decide (is_Some (m !! h));
  nvindex_dataSize m h := Z.of_nat (length (default [] (m !! h)));
  NvReadIndexData m h off n := padded (Z.to_nat n) (drop (Z.to_nat off) (default [] (m !! h)));
  NvWriteIndexData h off data m :=
    match m !! h with
    | Some l => <[h := take (length l) (splice (Z.to_nat off) data l ++ zeros (length l))]> m
    | None => m
    end
}.

#[global] Instance nv_map_laws : TpmNvLaws nv_map.
Proof.
  split; cbn.
  - intros nv h off n Hn. unfold padded, zeros.
    rewrite length_take, length_app, length_replicate. lia.
  - intros nv h data. case_bool_decide as Hs; [|done]. destruct Hs as [l El]. rewrite El. cbn.
    intros _ _ Hl. rewrite lookup_insert_eq. cbn. unfold padded, splice.
    rewrite Nat2Z.id, take_0. cbn [app Nat.add].
    set (k := drop _ l).
    assert (Hk : (length data <= length (take (length l) ((data ++ k) ++ zeros (length l))))%nat)
      by (unfold zeros; rewrite length_take, !length_app, length_replicate; lia).
    rewrite (take_app_le _ _ _ Hk), take_take, <- app_assoc, take_app_le by lia.
    by rewrite take_ge by lia.
  - intros nv h off data. destruct (nv !! h) as [l|] eqn:El; [|by rewrite El].
    rewrite lookup_insert_eq. done.
  - intros nv h off data. case_bool_decide as Hs; [|done]. destruct Hs as [l ->].
    rewrite lookup_insert_eq. done.
  - intros nv h off data. destruct (nv !! h) as [l|] eqn:El; [|by rewrite El].
    rewrite lookup_insert_eq. cbn. rewrite length_take, length_app. unfold zeros.
    rewrite length_replicate. lia.
Qed.
