(* ===== verification/EcEfs.v ===== *)
(** * EC early firmware selection (common/ec_efs.c)

    The boot mode that the EC reports and Cr50 keeps for the AP firmware.  It starts in
    the initial mode, becomes NO_BOOT when the EC gives up or sends a wrong hash of its
    firmware, and is kept in a scratch register over deep sleep.  The file is compiled
    for one of two versions of the protocol. *)

From S2P Require Import Prelude Util Vendor Crc8 CcdConfig TpmNv.

(** [struct cr50_comm_packet] responses and [enum ec_efs_boot_mode] *)
Definition CR50_COMM_PREAMBLE : Z := 0xec.

Definition CR50_COMM_RESPONSE (x : Z) : Z :=
  Z.lor (Z.shiftl CR50_COMM_PREAMBLE 8) (Z.land x 0xff).
Definition CR50_COMM_SUCCESS : Z := CR50_COMM_RESPONSE 0x00.
Definition CR50_COMM_ERROR_MAGIC : Z := CR50_COMM_RESPONSE 0x02.
Definition CR50_COMM_ERROR_CRC : Z := CR50_COMM_RESPONSE 0x03.
Definition CR50_COMM_ERROR_SIZE : Z := CR50_COMM_RESPONSE 0x04.
Definition CR50_COMM_ERROR_UNDEFINED_CMD : Z := CR50_COMM_RESPONSE 0x06.
Definition CR50_COMM_ERROR_BAD_PAYLOAD : Z := CR50_COMM_RESPONSE 0x07.
Definition CR50_COMM_ERROR_STRUCT_VERSION : Z := CR50_COMM_RESPONSE 0x08.
Definition CR50_COMM_ERROR_NVMEM : Z := CR50_COMM_RESPONSE 0x09.
Definition CR50_COMM_ERROR_BAD_PARAM : Z := CR50_COMM_RESPONSE 0x0a.

Definition EC_EFS_BOOT_MODE_NORMAL : Z := 0x00.
Definition EC_EFS_BOOT_MODE_VERIFIED : Z := 0x00.
Definition EC_EFS_BOOT_MODE_NO_BOOT : Z := 0x01.
Definition EC_EFS_BOOT_MODE_TRUSTED_RO : Z := 0x02.

Definition SHA256_DIGEST_SIZE : Z := 32.
Definition MSEC : Z := 1000.

Definition EC_ERROR_CRC : Z := 10.
Definition EC_ERROR_VBOOT_DATA : Z := 0x1200.
Definition EC_ERROR_VBOOT_DATA_INCOMPATIBLE : Z := 0x1202.
Definition EC_ERROR_VBOOT_DATA_UNDERSIZED : Z := 0x1203.

(** *** [struct vb2_secdata_kernel], as its bytes *)

Definition VB2_SECDATA_KERNEL_STRUCT_VERSION_MIN : Z := 0x10.
Definition sizeof_vb2_secdata_kernel : Z := 40.

Definition struct_version (secdata : list Z) : Z := at_ secdata 0.
Definition struct_size (secdata : list Z) : Z := at_ secdata 1.
Definition secdata_crc8 (secdata : list Z) : Z := at_ secdata 2.
Definition offset_crc8 : Z := 2.
(** From [reserved0] on. *)
Definition secdata_covered (secdata : list Z) (size_to_crc : Z) : list Z :=
  sub 3 (Z.to_nat size_to_crc) secdata.
Definition secdata_ec_hash (secdata : list Z) : list Z := sub 8 32 secdata.

Record ec_efs_context := mkEfsCtx {
  boot_mode : Z;
  hash_is_loaded : bool;
  secdata_error_code : Z;
  hash : list Z
}.

Section EcEfs.
Context {N : Type} `{!TpmNv N}.

(** [CONFIG_EC_EFS2_VERSION == 1]; Cr50 itself is built with version 0. *)
Variable efs2_1 : bool.

(** What the file reads and writes: its context, the scratch register that survives deep
    sleep, the deadline of the deferred call of [board_reboot_ec] (0 when none is
    pending), whether EC_RST_L is asserted, the NV indices and the clock. *)
Record efs := mkEfs {
  ec_efs_ctx : ec_efs_context;
  PWRDN_SCRATCH20 : Z;
  board_reboot_ec_until : Z;
  ec_rst_asserted : bool;
  nv : N;
  time_us : Z
}.

Definition EC_EFS_BOOT_MODE_INITIAL : Z :=
  if efs2_1 then EC_EFS_BOOT_MODE_TRUSTED_RO else EC_EFS_BOOT_MODE_NORMAL.

Definition set_ctx (c : ec_efs_context) (s : efs) : efs :=
  mkEfs c (PWRDN_SCRATCH20 s) (board_reboot_ec_until s) (ec_rst_asserted s) (nv s) (time_us s).
Definition set_scratch (r : Z) (s : efs) : efs :=
  mkEfs (ec_efs_ctx s) r (board_reboot_ec_until s) (ec_rst_asserted s) (nv s) (time_us s).
Definition set_reboot (t : Z) (s : efs) : efs :=
  mkEfs (ec_efs_ctx s) (PWRDN_SCRATCH20 s) t (ec_rst_asserted s) (nv s) (time_us s).
Definition set_ec_rst (b : bool) (s : efs) : efs :=
  mkEfs (ec_efs_ctx s) (PWRDN_SCRATCH20 s) (board_reboot_ec_until s) b (nv s) (time_us s).
Definition set_nv (n : N) (s : efs) : efs :=
  mkEfs (ec_efs_ctx s) (PWRDN_SCRATCH20 s) (board_reboot_ec_until s) (ec_rst_asserted s) n
    (time_us s).
Definition set_time (t : Z) (s : efs) : efs :=
  mkEfs (ec_efs_ctx s) (PWRDN_SCRATCH20 s) (board_reboot_ec_until s) (ec_rst_asserted s) (nv s) t.

Definition mode (s : efs) : Z := boot_mode (ec_efs_ctx s).

(** The static initialiser. *)
Definition ec_efs_ctx_init : ec_efs_context :=
  mkEfsCtx EC_EFS_BOOT_MODE_INITIAL false 0 (zeros 32).

(** The parts of [set_boot_mode_]: the mode, and the two read-modify-writes of the scratch
    register, which an interrupt can come between. *)
Definition set_mode (mode_val : Z) : ST efs unit := modify (fun s =>
  set_ctx (mkEfsCtx mode_val (hash_is_loaded (ec_efs_ctx s))
    (secdata_error_code (ec_efs_ctx s)) (hash (ec_efs_ctx s))) s).
Definition clear_scratch (read : Z) : ST efs unit := modify (set_scratch (clear_bits 32 read 0xff)).
Definition or_scratch (read mode_val : Z) : ST efs unit := modify (set_scratch (Z.lor read mode_val)).

Definition set_boot_mode_ (mode_val : Z) : ST efs unit :=
  set_mode mode_val ;;;
  let* r := gets PWRDN_SCRATCH20 in
  clear_scratch r ;;;
  let* r := gets PWRDN_SCRATCH20 in
  or_scratch r mode_val.

(** The hash, or the error code. *)
Definition load_ec_hash_ (nv : N) : result (list Z) :=
  let secdata_size := sizeof_vb2_secdata_kernel in
  match read_tpm_nvmem nv NV_INDEX_KERNEL secdata_size with
  | (TPM_READ_SUCCESS, secdata) =>
      if struct_version secdata <? VB2_SECDATA_KERNEL_STRUCT_VERSION_MIN
      then Err EC_ERROR_VBOOT_DATA_INCOMPATIBLE
      else if negb (struct_size secdata =? secdata_size) then Err EC_ERROR_VBOOT_DATA
      else
        let size_to_crc := u8 (struct_size secdata - offset_crc8 - 1) in
        if negb (crc8 (secdata_covered secdata size_to_crc) =? secdata_crc8 secdata)
        then Err EC_ERROR_CRC
        else Ok (secdata_ec_hash secdata)
  | _ => Err EC_ERROR_VBOOT_DATA_UNDERSIZED
  end.

(** The writes of [ec_efs_refresh]; the hash is copied at the end of [load_ec_hash_]. *)
Definition set_ec_hash (h : list Z) : ST efs unit := modify (fun s =>
  set_ctx (mkEfsCtx (mode s) (hash_is_loaded (ec_efs_ctx s)) (secdata_error_code (ec_efs_ctx s)) h) s).
Definition set_hash_loaded (b : bool) : ST efs unit := modify (fun s =>
  set_ctx (mkEfsCtx (mode s) b (secdata_error_code (ec_efs_ctx s)) (hash (ec_efs_ctx s))) s).
Definition set_error_code (rv : Z) : ST efs unit := modify (fun s =>
  set_ctx (mkEfsCtx (mode s) (hash_is_loaded (ec_efs_ctx s)) rv (hash (ec_efs_ctx s))) s).

Definition ec_efs_refresh : ST efs unit :=
  let* n := gets nv in
  match load_ec_hash_ n with
  | Ok h => set_ec_hash h ;;; set_hash_loaded true ;;; set_error_code EC.SUCCESS
  | Err rv => set_hash_loaded false ;;; set_error_code rv
  end.

Definition ec_efs_reset : ST efs unit := set_boot_mode_ EC_EFS_BOOT_MODE_INITIAL.

(** [hibernate] is the flag EC_RESET_FLAG_HIBERNATE of the reset. *)
Definition ec_efs_init_ (hibernate : bool) : ST efs unit :=
  let* s := gets id in
  (if hibernate then set_boot_mode_ (Z.land (PWRDN_SCRATCH20 s) 0xff) else ec_efs_reset) ;;;
  let* s := gets id in
  if hash_is_loaded (ec_efs_ctx s) then ret tt else ec_efs_refresh.

(** *** Resetting the EC (board/cr50/board.c) *)

Definition assert_ec_rst : ST efs unit := ec_efs_reset ;;; modify (set_ec_rst true).
Definition deassert_ec_rst : ST efs unit := modify (set_ec_rst false).

(** A closed-loop reset asserts EC_RST_L until the reset of the AP is seen. *)
Definition board_reboot_ec (board_uses_closed_loop_reset : bool) : ST efs unit :=
  if board_uses_closed_loop_reset then assert_ec_rst
  else assert_ec_rst ;;; deassert_ec_rst.

Definition board_reboot_ec_deferred (usec_delay : Z) : ST efs unit :=
  if 0 <=? usec_delay then modify (fun s => set_reboot (u64 (time_us s + usec_delay)) s)
  else ret tt.

(** The hook task calls it once its time has passed. *)
Definition reboot_due (s : efs) : bool :=
  nz (board_reboot_ec_until s) && (board_reboot_ec_until s <? time_us s).

Definition run_reboot (board_uses_closed_loop_reset : bool) : ST efs unit :=
  modify (set_reboot 0) ;;; board_reboot_ec board_uses_closed_loop_reset.

(** The handler of the key combination with which the hardware resets the EC, without
    the record of the recovery button. *)
Definition key_combo0_irq (board_has_ec_cr50_comm_support board_uses_closed_source_set1 : bool)
    : ST efs unit :=
  (if board_has_ec_cr50_comm_support then ec_efs_reset else ret tt) ;;;
  if board_uses_closed_source_set1 then modify (fun s => set_reboot (u64 (time_us s + 0)) s)
  else ret tt.

(** *** Vendor commands *)

Definition vc_get_boot_mode_ : handler efs := fun p =>
  let* m := gets mode in ret (RC.VENDOR_RC_SUCCESS, answer p (u8 m)).

Definition vc_reset_ec_ : handler efs := fun p =>
  board_reboot_ec_deferred (50 * MSEC) ;;;
  ret (RC.VENDOR_RC_SUCCESS, set_out_size p 0).

(** *** Commands of the EC; the result 0 is no response *)

Definition ec_efs_set_boot_mode (data : list Z) (size : Z) : ST efs Z :=
  if negb (size =? 1) then ret CR50_COMM_ERROR_SIZE
  else
    let m := u8 (at_ data 0) in
    let* s := gets id in
    if negb efs2_1 && (m =? EC_EFS_BOOT_MODE_NORMAL) then
      if mode s =? EC_EFS_BOOT_MODE_NORMAL
      then set_boot_mode_ m ;;; ret CR50_COMM_SUCCESS
      else board_reboot_ec_deferred 0 ;;; ret 0
    else if efs2_1 && (m =? EC_EFS_BOOT_MODE_TRUSTED_RO) then
      if mode s =? EC_EFS_BOOT_MODE_TRUSTED_RO then ret CR50_COMM_SUCCESS
      else board_reboot_ec_deferred 0 ;;; ret 0
    else if m =? EC_EFS_BOOT_MODE_NO_BOOT
    then set_boot_mode_ m ;;; ret CR50_COMM_SUCCESS
    else ret CR50_COMM_ERROR_BAD_PARAM.

Definition ec_efs_verify_hash (hash_data : list Z) (size : Z) : ST efs Z :=
  if negb (size =? SHA256_DIGEST_SIZE) then ret CR50_COMM_ERROR_SIZE
  else
    let* s := gets id in
    (if negb (hash_is_loaded (ec_efs_ctx s))
        && (secdata_error_code (ec_efs_ctx s) =? EC.SUCCESS)
     then ec_efs_refresh else ret tt) ;;;
    let* s' := gets id in
    if negb (hash_is_loaded (ec_efs_ctx s))
       && negb (secdata_error_code (ec_efs_ctx s') =? EC.SUCCESS)
    then ret CR50_COMM_ERROR_NVMEM
    else if nz (safe_memcmp hash_data (hash (ec_efs_ctx s')) (Z.to_nat SHA256_DIGEST_SIZE)) then
      set_boot_mode_ EC_EFS_BOOT_MODE_NO_BOOT ;;; ret CR50_COMM_ERROR_BAD_PAYLOAD
    else if mode s' =? EC_EFS_BOOT_MODE_NO_BOOT then board_reboot_ec_deferred 0 ;;; ret 0
    else
      (if efs2_1 then set_boot_mode_ EC_EFS_BOOT_MODE_VERIFIED else ret tt) ;;;
      ret CR50_COMM_SUCCESS.

(** *** Changes of the NV index, and the test command *)

(** Of [_plat__NvInformIndexDataChanged], the part for the kernel index. *)
Definition inform_kernel_changed (handle : Z) : ST efs unit :=
  if handle =? u32 (HR_NV_INDEX + NV_INDEX_KERNEL) then ec_efs_refresh else ret tt.

(** [ec_efs_corrupt_hash] up to the write of the index. *)
Definition corrupt_index (ccd : ccd_state_t) : ST efs Z :=
  if negb (bool_decide (ccd = CCD_STATE_OPENED)) then ret EC.ERROR_ACCESS_DENIED
  else
    let secdata_size := sizeof_vb2_secdata_kernel in
    let* s := gets id in
    match read_tpm_nvmem (nv s) NV_INDEX_KERNEL secdata_size with
    | (TPM_READ_SUCCESS, secdata) =>
        let ec_hash := map (fun b => u8 (Z.lxor b 0xff + 1)) (hash (ec_efs_ctx s)) in
        let secdata := splice 8 ec_hash secdata in
        let size_to_crc := u8 (secdata_size - offset_crc8 - 1) in
        let secdata := splice 2 [crc8 (secdata_covered secdata size_to_crc)] secdata in
        let object_handle := u32 (HR_NV_INDEX + NV_INDEX_KERNEL) in
        modify (fun s => set_nv (NvWriteIndexData object_handle 0 secdata (nv s)) s) ;;;
        ret EC.SUCCESS
    | _ => ret EC_ERROR_VBOOT_DATA_UNDERSIZED
    end.

Definition ec_efs_corrupt_hash (ccd : ccd_state_t) : ST efs Z :=
  let* rv := corrupt_index ccd in
  if rv =? EC.SUCCESS then ec_efs_refresh ;;; ret rv else ret rv.
End EcEfs.

Arguments mkEfs {N}.
Arguments ec_efs_ctx {N}.
Arguments PWRDN_SCRATCH20 {N}.
Arguments board_reboot_ec_until {N}.
Arguments ec_rst_asserted {N}.
Arguments nv {N}.
Arguments time_us {N}.
Arguments mode {N}.
