(* ===== verification/EcEfsProps.v ===== *)
(** * EC early firmware selection: what each operation does to the boot mode, to the scratch
    register and to the loaded hash *)

From S2P Require Import Prelude Util Vendor Crc8 CcdConfig TpmNv EcEfs.

Section Props.
Context {N : Type} `{!TpmNv N} `{!TpmNvLaws N}.
Variable v : bool.

Notation efs := (@efs N).
Implicit Types s : efs.

(** ** The boot mode and its copy in the scratch register *)

Definition scratch_mode s : Z := Z.land (PWRDN_SCRATCH20 s) 0xff.
Definition scratch_ok s : Prop := scratch_mode s = mode s.

Lemma land_ff x : is_byte x -> Z.land x 0xff = x.
Proof.
  intros Hx. change 0xff with (Z.ones 8). rewrite Z.land_ones by lia. by apply Z.mod_small.
Qed.

Lemma land_ff_byte x : is_byte (Z.land x 0xff).
Proof.
  unfold is_byte. change 0xff with (Z.ones 8). rewrite Z.land_ones by lia.
  change 256 with (2 ^ 8). by apply Z.mod_pos_bound.
Qed.

Lemma clear_ff r : Z.land (clear_bits 32 r 0xff) 0xff = 0.
Proof.
  unfold clear_bits. rewrite <-Z.land_assoc. change (Z.land (Z.lxor (Z.ones 32) 0xff) 0xff) with 0.
  by rewrite Z.land_0_r.
Qed.

Lemma or_ff r m : is_byte m -> Z.land (Z.lor r m) 0xff = Z.lor (Z.land r 0xff) m.
Proof. intros Hm. by rewrite Z.land_lor_distr_l, (land_ff m Hm). Qed.

(** The state after the mode is set without interruption. *)
Definition with_mode (m : Z) s : efs :=
  set_scratch (Z.lor (clear_bits 32 (PWRDN_SCRATCH20 s) 0xff) m)
    (set_ctx (mkEfsCtx m (hash_is_loaded (ec_efs_ctx s)) (secdata_error_code (ec_efs_ctx s))
       (hash (ec_efs_ctx s))) s).

Lemma set_boot_mode_run m s : set_boot_mode_ m s = (tt, with_mode m s).
Proof. done. Qed.

Lemma with_mode_scratch m s : is_byte m -> scratch_ok (with_mode m s).
Proof.
  intros Hm. unfold scratch_ok, scratch_mode, with_mode. cbn [PWRDN_SCRATCH20 set_scratch].
  by rewrite or_ff, clear_ff, Z.lor_0_l by done.
Qed.

Lemma initial_byte : is_byte (EC_EFS_BOOT_MODE_INITIAL v).
Proof. unfold is_byte. by destruct v. Qed.

(** ** The loaded hash *)

(** A hash that counts as loaded is the stored one. *)
Definition loaded_ok s : Prop :=
  hash_is_loaded (ec_efs_ctx s) = true -> load_ec_hash_ (nv s) = Ok (hash (ec_efs_ctx s)).

Lemma load_length n h : load_ec_hash_ n = Ok h -> length h = 32%nat.
Proof.
  unfold load_ec_hash_.
  destruct (read_tpm_nvmem n NV_INDEX_KERNEL sizeof_vb2_secdata_kernel) as [[] l] eqn:E;
    try discriminate.
  apply read_tpm_nvmem_length in E; [|done].
  repeat (destruct (_ : bool); [discriminate|]). intros [= <-].
  apply length_sub. rewrite E. change (Z.to_nat sizeof_vb2_secdata_kernel) with 40%nat. lia.
Qed.

Lemma load_error_nonzero n rv : load_ec_hash_ n = Err rv -> rv <> EC.SUCCESS.
Proof.
  unfold load_ec_hash_. destruct (read_tpm_nvmem _ _ _) as [[] l];
    repeat (destruct (_ : bool)); intros [= <-]; done.
Qed.

(** The hash has its length; the mode fits its field. *)
Definition ctx_ok s : Prop := is_byte (mode s) /\ length (hash (ec_efs_ctx s)) = 32%nat.

(** The state after an uninterrupted load. *)
Definition refreshed s : efs :=
  match load_ec_hash_ (nv s) with
  | Ok h => set_ctx (mkEfsCtx (mode s) true EC.SUCCESS h) s
  | Err rv => set_ctx (mkEfsCtx (mode s) false rv (hash (ec_efs_ctx s))) s
  end.

Lemma refresh_run s : ec_efs_refresh s = (tt, refreshed s).
Proof. unfold ec_efs_refresh, refreshed, bind, gets. by destruct (load_ec_hash_ (nv s)). Qed.

Lemma refreshed_ok s : ctx_ok s -> ctx_ok (refreshed s) /\ loaded_ok (refreshed s).
Proof.
  unfold ctx_ok, loaded_ok, refreshed. intros [Hm Hh].
  destruct (load_ec_hash_ (nv s)) as [h|rv] eqn:E; cbn; rewrite ?E; [|done].
  by apply load_length in E.
Qed.

(** ** What a command of the EC does *)

Definition loads s : list Z * bool * Z :=
  (hash (ec_efs_ctx s), hash_is_loaded (ec_efs_ctx s), secdata_error_code (ec_efs_ctx s)).

(** The hash and its flags are as before, or have just been loaded. *)
Definition load_frame s s' : Prop :=
  nv s' = nv s /\ (loads s' = loads s \/ loads s' = loads (refreshed s)).

(** The mode and the scratch register are as before, or agree. *)
Definition mode_frame s s' : Prop :=
  (mode s' = mode s /\ PWRDN_SCRATCH20 s' = PWRDN_SCRATCH20 s) \/
  (is_byte (mode s') /\ scratch_ok s').

Lemma mode_frame_trans s1 s2 s3 : mode_frame s1 s2 -> mode_frame s2 s3 -> mode_frame s1 s3.
Proof.
  intros [[H1 H2]|[H1 H2]] [[H3 H4]|[H3 H4]].
  - left. split; congruence.
  - by right.
  - right. unfold scratch_ok, scratch_mode in *. by rewrite H3, H4.
  - by right.
Qed.

Lemma mode_frame_with m s : is_byte m -> mode_frame s (with_mode m s).
Proof. intros Hm. right. split; [done|by apply with_mode_scratch]. Qed.

(** A refused or repeated command leaves the mode; the others set it. *)
Lemma set_boot_mode_cases data size s r s' :
  ec_efs_set_boot_mode v data size s = (r, s') ->
  load_frame s s' /\ mode_frame s s' /\
  (mode s' = mode s \/
   size = 1 /\ u8 (at_ data 0) = EC_EFS_BOOT_MODE_NO_BOOT /\ mode s' = EC_EFS_BOOT_MODE_NO_BOOT).
Proof.
  assert (forall r, load_frame s s /\ mode_frame s s /\ load_frame s (set_reboot r s) /\
    mode_frame s (set_reboot r s)) as Hsame by (intros r0; unfold load_frame, mode_frame; auto 10).
  specialize (Hsame (u64 (time_us s + 0))) as (H1 & H2 & H3 & H4).
  assert (forall m, is_byte m -> load_frame s (with_mode m s) /\ mode_frame s (with_mode m s)) as Hw.
  { intros m Hm. split; [split; [done|by left]|by apply mode_frame_with]. }
  unfold ec_efs_set_boot_mode, board_reboot_ec_deferred. intros H.
  destruct (Z.eqb_spec size 1) as [->|]; cbn [negb] in H; [|injection H as <- <-; auto].
  unfold bind at 1, gets at 1, id in H. cbn [Z.leb Z.compare] in H.
  destruct (negb v && _)%bool eqn:E1; [|destruct (v && _)%bool eqn:E2].
  - apply andb_prop in E1 as [Ev%negb_true_iff Em%Z.eqb_eq].
    destruct (Z.eqb_spec (mode s) EC_EFS_BOOT_MODE_NORMAL) as [E|_].
    + unfold bind at 1 in H. rewrite set_boot_mode_run in H. injection H as <- <-.
      destruct (Hw (u8 (at_ data 0))) as [Hw1 Hw2]; [by rewrite Em|].
      split; [done|]. split; [done|]. left. cbn. congruence.
    + injection H as <- <-. auto.
  - destruct (mode s =? _); injection H as <- <-; auto.
  - destruct (Z.eqb_spec (u8 (at_ data 0)) EC_EFS_BOOT_MODE_NO_BOOT) as [E|_];
      [|injection H as <- <-; auto].
    unfold bind at 1 in H. rewrite set_boot_mode_run in H. injection H as <- <-.
    destruct (Hw (u8 (at_ data 0))) as [Hw1 Hw2]; [by rewrite E|].
    split; [done|]. split; [done|]. right. auto.
Qed.

(** The state in which the hashes are compared. *)
Lemma verify_load s :
  let s1 := (if negb (hash_is_loaded (ec_efs_ctx s))
                && (secdata_error_code (ec_efs_ctx s) =? EC.SUCCESS)
             then ec_efs_refresh else ret tt) s in
  exists s2, s1 = (tt, s2) /\ (s2 = s \/ s2 = refreshed s) /\
    (negb (hash_is_loaded (ec_efs_ctx s))
       && negb (secdata_error_code (ec_efs_ctx s2) =? EC.SUCCESS) = false ->
     hash_is_loaded (ec_efs_ctx s2) = true).
Proof.
  destruct (hash_is_loaded (ec_efs_ctx s)) eqn:El; cbn [negb andb].
  - exists s. split; [done|]. split; [by left|done].
  - destruct (Z.eqb_spec (secdata_error_code (ec_efs_ctx s)) EC.SUCCESS) as [E|E].
    + exists (refreshed s). cbv zeta. rewrite refresh_run. split; [done|]. split; [by right|].
      intros Hz%negb_false_iff%Z.eqb_eq. revert Hz. unfold refreshed.
      destruct (load_ec_hash_ (nv s)) as [h|rv] eqn:Ee; [done|]. cbn.
      intros ->. by apply load_error_nonzero in Ee.
    + exists s. split; [done|]. split; [by left|]. by rewrite (proj2 (Z.eqb_neq _ _) E).
Qed.

Lemma refreshed_frame s s2 : s2 = s \/ s2 = refreshed s ->
  load_frame s s2 /\ mode s2 = mode s /\ PWRDN_SCRATCH20 s2 = PWRDN_SCRATCH20 s.
Proof.
  intros [-> | ->]; [by split; [split; [|left]|]|].
  split; [split; [|by right]|]; unfold refreshed; by destruct (load_ec_hash_ (nv s)).
Qed.

(** An unequal hash sets NO_BOOT.  An equal one is approved, unless the mode is NO_BOOT. *)
Lemma verify_hash_cases data size s r s' :
  ec_efs_verify_hash v data size s = (r, s') -> ctx_ok s -> length data = 32%nat ->
  load_frame s s' /\ mode_frame s s' /\
  (mode s' = mode s \/
   size = 32 /\ data <> hash (ec_efs_ctx s') /\ mode s' = EC_EFS_BOOT_MODE_NO_BOOT \/
   v = true /\ size = 32 /\ mode s <> EC_EFS_BOOT_MODE_NO_BOOT /\
   hash_is_loaded (ec_efs_ctx s') = true /\ hash (ec_efs_ctx s') = data /\
   mode s' = EC_EFS_BOOT_MODE_VERIFIED).
Proof.
  intros H Hs Hd. unfold ec_efs_verify_hash in H.
  destruct (Z.eqb_spec size SHA256_DIGEST_SIZE) as [->|]; cbn [negb] in H.
  2: { injection H as <- <-. split; [by split; [|left]|]. by split; [left|left]. }
  destruct (verify_load s) as (s2 & E1 & Hs2 & Hl).
  unfold bind at 1, gets at 1, id in H. unfold bind at 1 in H. rewrite E1 in H.
  unfold bind at 1, gets at 1 in H.
  destruct (refreshed_frame s s2 Hs2) as (Hf & Hm & Hsc).
  assert (length (hash (ec_efs_ctx s2)) = 32%nat) as Hh.
  { destruct Hs2 as [-> | ->]; [apply Hs|]. by apply refreshed_ok. }
  assert (mode_frame s s2) as Hmf by (by left).
  destruct (_ && negb _)%bool in H, Hl; [by injection H as <- <-; auto|]. specialize (Hl eq_refl).
  change (Z.to_nat SHA256_DIGEST_SIZE) with 32%nat in H.
  destruct (nz (safe_memcmp data (hash (ec_efs_ctx s2)) 32)) eqn:Ec.
  - unfold bind at 1 in H. rewrite set_boot_mode_run in H. injection H as <- <-.
    split; [exact Hf|]. split.
    { apply (mode_frame_trans _ s2); [done|]. by apply mode_frame_with. }
    right. left. split_and!; [done| |done]. apply nz_true in Ec. intros Eq. apply Ec.
    by apply safe_memcmp_zero.
  - apply nz_false, safe_memcmp_zero in Ec; [|done|done]. subst data.
    unfold board_reboot_ec_deferred in H.
    destruct (Z.eqb_spec (mode s2) EC_EFS_BOOT_MODE_NO_BOOT) as [E|E].
    + injection H as <- <-. split; [exact Hf|]. split; [exact Hmf|by left].
    + destruct v eqn:Ev; cbn [ret] in H.
      * unfold bind at 1 in H. rewrite set_boot_mode_run in H. injection H as <- <-.
        split; [exact Hf|]. split.
        { apply (mode_frame_trans _ s2); [done|]. by apply mode_frame_with. }
        rewrite Hm in E. right; right; auto 10.
      * injection H as <- <-. split; [exact Hf|]. split; [exact Hmf|by left].
Qed.

(** Out of deep sleep the mode is the one of the scratch register. *)
Lemma init_spec hib s :
  ctx_ok s -> hash_is_loaded (ec_efs_ctx s) = false ->
  let s' := (ec_efs_init_ v hib s).2 in
  ctx_ok s' /\ loaded_ok s' /\ scratch_ok s' /\
  mode s' = if hib then scratch_mode s else EC_EFS_BOOT_MODE_INITIAL v.
Proof.
  intros [Hb Hh] Hl. cbv zeta. unfold ec_efs_init_.
  set (m := if hib then scratch_mode s else EC_EFS_BOOT_MODE_INITIAL v).
  assert (is_byte m) as Hm
    by (subst m; destruct hib; [apply land_ff_byte|apply initial_byte]).
  assert (Hr : (if hib then set_boot_mode_ (Z.land (PWRDN_SCRATCH20 s) 0xff)
                else ec_efs_reset v) s = (tt, with_mode m s)) by (by destruct hib).
  unfold bind, gets, id. rewrite Hr. cbn [with_mode hash_is_loaded ec_efs_ctx set_ctx set_scratch].
  rewrite Hl, refresh_run. cbn [snd].
  destruct (refreshed_ok (with_mode m s)) as [H1 H2]; [by split|].
  split; [done|]. split; [done|].
  destruct (refreshed_frame (with_mode m s) _ (or_intror eq_refl)) as (_ & H3 & H4).
  split; [|by rewrite H3]. unfold scratch_ok, scratch_mode. rewrite H3, H4.
  by apply with_mode_scratch.
Qed.
End Props.
