(* ===== verification/EcComm.v ===== *)
(** * The packets between the EC and Cr50 (common/ec_comm.c, and the receiving side of
    chip/g/usart.c)

    While the EC asserts the packet mode pin, the bytes of its UART go through a state
    machine that picks packets out of the console output.  The array of the packet is
    given with the memory behind it, so that a write past the array is seen. *)

From S2P Require Import Prelude Util Vendor Crc8 CcdConfig TpmNv EcEfs.
From S2P Require Queue.

(** *** Constants (include/vboot.h) *)

Definition CR50_COMM_VERSION : Z := 0x00.
Definition MIN_LENGTH_PREAMBLE : Z := 4.
(** 'E' and 'C' *)
Definition CR50_COMM_MAGIC_WORD : Z := Z.lor (Z.shiftl 67 8) 69.
Definition sizeof_cr50_comm_packet : Z := 7.
Definition CR50_COMM_MAX_DATA_SIZE : Z := 32.
Definition CR50_COMM_MAX_PACKET_SIZE : Z := sizeof_cr50_comm_packet + CR50_COMM_MAX_DATA_SIZE.
Definition CR50_COMM_CMD_SET_BOOT_MODE : Z := 0x0001.
Definition CR50_COMM_CMD_VERIFY_HASH : Z := 0x0002.

Definition UART_EC : Z := 2.
Definition UART_NULL : Z := 0xff.

(** [enum ec_comm_phase] *)
Definition PHASE_READY_COMM : Z := 0.
Definition PHASE_RECEIVING_PREAMBLE : Z := 1.
Definition PHASE_RECEIVING_HEADER : Z := 2.
Definition PHASE_RECEIVING_DATA : Z := 3.

(** *** The fields of [struct cr50_comm_packet] in the bytes of the packet *)

Definition ph_magic (p : list Z) : Z := le_val (sub 0 2 p).
Definition ph_version (p : list Z) : Z := at_ p 2.
Definition ph_crc (p : list Z) : Z := at_ p 3.
Definition ph_cmd (p : list Z) : Z := le_val (sub 4 2 p).
Definition ph_size (p : list Z) : Z := at_ p 6.
Definition ph_data (p : list Z) : list Z := drop 7 p.
Definition offset_cmd : Z := 4.

Inductive ec_out :=
| UartWrite (uart ch : Z)
| CcdUpdateState.

Section EcComm.
Context {N : Type} `{!TpmNv N}.
Variable efs2_1 : bool.

Notation efs := (@efs N).

(** [struct ec_comm_context_]; the last field is the memory from [packet] on. *)
Record ec_comm_context := mkComm {
  uart : Z;
  phase : Z;
  preamble_count : Z;
  bytes_received : Z;
  bytes_expected : Z;
  last_resp : Z;
  packet : list Z
}.

(** [outs]: what was written to UARTs and the calls of [ccd_update_state], in order. *)
Record ec := mkEc {
  ec_comm_ctx : ec_comm_context;
  is_blocked : Z;
  packet_interrupts : bool;            (* GPIO_EC_PACKET_MODE_EN and _DIS *)
  sleep_disabled : bool;               (* SLEEP_MASK_EC_CR50_COMM *)
  outs : list ec_out;
  ec_efs : efs
}.

Notation M := (ST ec).

Definition set_comm (f : ec_comm_context -> ec_comm_context) : M unit := modify (fun s =>
  mkEc (f (ec_comm_ctx s)) (is_blocked s) (packet_interrupts s) (sleep_disabled s) (outs s)
    (ec_efs s)).
Definition set_blocked (b : Z) : M unit := modify (fun s =>
  mkEc (ec_comm_ctx s) b (packet_interrupts s) (sleep_disabled s) (outs s) (ec_efs s)).
Definition set_interrupts (b : bool) : M unit := modify (fun s =>
  mkEc (ec_comm_ctx s) (is_blocked s) b (sleep_disabled s) (outs s) (ec_efs s)).
Definition set_sleep_disabled (b : bool) : M unit := modify (fun s =>
  mkEc (ec_comm_ctx s) (is_blocked s) (packet_interrupts s) b (outs s) (ec_efs s)).
Definition out (o : ec_out) : M unit := modify (fun s =>
  mkEc (ec_comm_ctx s) (is_blocked s) (packet_interrupts s) (sleep_disabled s) (outs s ++ [o])
    (ec_efs s)).
Definition on_efs {A} (m : ST efs A) : M A := fun s =>
  let '(a, e) := m (ec_efs s) in
  (a, mkEc (ec_comm_ctx s) (is_blocked s) (packet_interrupts s) (sleep_disabled s) (outs s) e).

Definition set_uart (u : Z) (c : ec_comm_context) : ec_comm_context :=
  mkComm u (phase c) (preamble_count c) (bytes_received c) (bytes_expected c) (last_resp c)
    (packet c).
Definition set_phase (p : Z) (c : ec_comm_context) : ec_comm_context :=
  mkComm (uart c) p (preamble_count c) (bytes_received c) (bytes_expected c) (last_resp c)
    (packet c).
Definition set_preamble_count (n : Z) (c : ec_comm_context) : ec_comm_context :=
  mkComm (uart c) (phase c) (u8 n) (bytes_received c) (bytes_expected c) (last_resp c)
    (packet c).
Definition set_received (n : Z) (c : ec_comm_context) : ec_comm_context :=
  mkComm (uart c) (phase c) (preamble_count c) (u8 n) (bytes_expected c) (last_resp c)
    (packet c).
Definition set_expected (n : Z) (c : ec_comm_context) : ec_comm_context :=
  mkComm (uart c) (phase c) (preamble_count c) (bytes_received c) (u8 n) (last_resp c)
    (packet c).
Definition set_last_resp (r : Z) (c : ec_comm_context) : ec_comm_context :=
  mkComm (uart c) (phase c) (preamble_count c) (bytes_received c) (bytes_expected c) r
    (packet c).
(** [packet[bytes_received++] = ch;] *)
Definition store_byte (ch : Z) (c : ec_comm_context) : ec_comm_context :=
  mkComm (uart c) (phase c) (preamble_count c) (u8 (bytes_received c + 1)) (bytes_expected c)
    (last_resp c) (<[Z.to_nat (bytes_received c) := ch]> (packet c)).

Definition decode_packet_ (ph : list Z) (bytes : Z) : ST efs Z :=
  let crc8_calc := crc8 (sub 4 (Z.to_nat (bytes - offset_cmd)) ph) in
  if negb (crc8_calc =? ph_crc ph) then ret CR50_COMM_ERROR_CRC
  else if ph_cmd ph =? CR50_COMM_CMD_SET_BOOT_MODE
  then ec_efs_set_boot_mode efs2_1 (ph_data ph) (ph_size ph)
  else if ph_cmd ph =? CR50_COMM_CMD_VERIFY_HASH
  then ec_efs_verify_hash efs2_1 (take 32 (ph_data ph)) (ph_size ph)
  else ret CR50_COMM_ERROR_UNDEFINED_CMD.

Definition transfer_response_to_ec_ (response : Z) : M unit :=
  let* s := gets id in
  let uart := uart (ec_comm_ctx s) in
  out (UartWrite uart (u8 response)) ;;;
  out (UartWrite uart (u8 (Z.shiftr response 8))) ;;;
  set_comm (set_last_resp response).

(** The end of [ec_comm_process_packet] after its [switch]. *)
Definition finish (response : Z) : M Z :=
  (if nz response then
     transfer_response_to_ec_ response ;;;
     set_comm (set_phase PHASE_READY_COMM) ;;;
     set_comm (set_preamble_count 0)
   else ret tt) ;;;
  ret 1.

Definition decode_received : M Z :=
  let* s := gets id in
  let c := ec_comm_ctx s in
  on_efs (decode_packet_ (packet c) (bytes_received c)).

(** The case PHASE_RECEIVING_HEADER; the result is the response. *)
Definition receive_header (ch : Z) : M Z :=
  set_comm (store_byte ch) ;;;
  let* s := gets id in
  let c := ec_comm_ctx s in
  if bytes_received c <? bytes_expected c then ret 0
  else if negb (ph_magic (packet c) =? CR50_COMM_MAGIC_WORD) then ret CR50_COMM_ERROR_MAGIC
  else if negb (ph_version (packet c) =? CR50_COMM_VERSION)
  then ret CR50_COMM_ERROR_STRUCT_VERSION
  else if ph_size (packet c) =? 0 then decode_received
  else if CR50_COMM_MAX_PACKET_SIZE <? ph_size (packet c) + bytes_expected c
  then ret CR50_COMM_ERROR_SIZE
  else
    set_comm (set_expected (bytes_expected c + ph_size (packet c))) ;;;
    set_comm (set_phase PHASE_RECEIVING_DATA) ;;;
    ret 0.

Definition receive_data (ch : Z) : M Z :=
  set_comm (store_byte ch) ;;;
  let* s := gets id in
  let c := ec_comm_ctx s in
  if bytes_expected c <=? bytes_received c then decode_received else ret 0.

(** The result tells whether the byte was part of a packet. *)
Definition ec_comm_process_packet (ch : Z) : M Z :=
  let* s := gets id in
  let c := ec_comm_ctx s in
  if phase c =? PHASE_READY_COMM then
    if negb (ch =? CR50_COMM_PREAMBLE) then set_comm (set_preamble_count 0) ;;; ret 0
    else
      set_comm (set_preamble_count (preamble_count c + 1)) ;;;
      let* n := gets (fun s => preamble_count (ec_comm_ctx s)) in
      if n <? MIN_LENGTH_PREAMBLE then ret 0
      else set_comm (set_phase PHASE_RECEIVING_PREAMBLE) ;;; finish 0
  else if phase c =? PHASE_RECEIVING_PREAMBLE then
    if ch =? CR50_COMM_PREAMBLE then
      set_comm (set_preamble_count (preamble_count c + 1)) ;;; finish 0
    else
      set_comm (set_received 0) ;;;
      set_comm (set_expected sizeof_cr50_comm_packet) ;;;
      set_comm (set_phase PHASE_RECEIVING_HEADER) ;;;
      let* response := receive_header ch in finish response
  else if phase c =? PHASE_RECEIVING_HEADER then
    let* response := receive_header ch in finish response
  else if phase c =? PHASE_RECEIVING_DATA then
    let* response := receive_data ch in finish response
  else
    set_comm (set_phase PHASE_READY_COMM) ;;;
    set_comm (set_preamble_count 0) ;;;
    ret 0.

(** *** Packet mode *)

Definition ec_comm_packet_mode_en : M unit :=
  set_sleep_disabled true ;;;
  set_comm (set_phase PHASE_READY_COMM) ;;;
  set_comm (set_preamble_count 0) ;;;
  set_comm (set_uart UART_EC) ;;;
  out CcdUpdateState.

Definition ec_comm_packet_mode_dis : M unit :=
  set_comm (set_uart UART_NULL) ;;;
  out CcdUpdateState ;;;
  set_sleep_disabled false.

Definition ec_comm_is_uart_in_packet_mode (u : Z) (s : ec) : bool :=
  u =? uart (ec_comm_ctx s).

Definition ec_comm_block (block : Z) : M unit :=
  let* s := gets id in
  if is_blocked s =? block then ret tt
  else
    (if nz block then
       set_interrupts false ;;;
       let* s := gets id in
       if ec_comm_is_uart_in_packet_mode UART_EC s then ec_comm_packet_mode_dis else ret tt
     else set_interrupts true) ;;;
    set_blocked block.

(** [pin]: the level of GPIO_EC_PACKET_MODE_EN. *)
Definition ec_comm_init_ (board_has_ec_cr50_comm_support pin : bool) : M unit :=
  set_comm (set_uart UART_NULL) ;;;
  if negb board_has_ec_cr50_comm_support then ret tt
  else
    set_interrupts true ;;;
    if pin then ec_comm_packet_mode_en else ret tt.

(** The static initialisers, with the memory that lies behind the packet. *)
Definition ec_comm_ctx_init (behind : list Z) : ec_comm_context :=
  mkComm 0 0 0 0 0 0 (zeros (Z.to_nat CR50_COMM_MAX_PACKET_SIZE) ++ behind).

(** A start of Cr50, cold or out of deep sleep: memory is initialised, the scratch
    and reset registers and the NV indices stay; then the hooks run in the order of their
    priorities. *)
Definition ec_start (hibernate support pin : bool) (behind : list Z) (e : efs) : ec :=
  let s := mkEc (ec_comm_ctx_init behind) 0 false false []
             (mkEfs (ec_efs_ctx_init efs2_1) (PWRDN_SCRATCH20 e) 0 (ec_rst_asserted e) (nv e)
                (time_us e)) in
  snd ((on_efs (ec_efs_init_ efs2_1 hibernate) ;;; ec_comm_init_ support pin) s).

(** *** The receiving side of the UART (chip/g/usart.c)

    [chars] are the characters in the FIFO of the UART; those left in it are returned. *)

Section SendToUsb.
Variable uart_ec_bridge_is_enabled : bool.

(** The loop in packet mode; [tail] is already masked. *)
Fixpoint drain_packet_mode (chars : list Z) (q : Queue.queue) (count q_room tail : Z)
    : M (Queue.queue * Z) :=
  match chars with
  | [] => ret (q, count)
  | ch :: chars =>
      let* processed := ec_comm_process_packet ch in
      if nz processed then drain_packet_mode chars q count q_room tail
      else if negb (count =? q_room) && uart_ec_bridge_is_enabled then
        drain_packet_mode chars
          (Queue.set_buffer q (<[Z.to_nat tail := ch]> (Queue.buffer q))) (count + 1) q_room
          (Z.land (tail + 1) (Queue.buffer_units_mask q))
      else drain_packet_mode chars q count q_room tail
  end.

Fixpoint drain_plain (chars : list Z) (q : Queue.queue) (count q_room tail : Z)
    : Queue.queue * Z * list Z :=
  match chars with
  | [] => (q, count, [])
  | ch :: chars' =>
      if count =? q_room then (q, count, chars)
      else drain_plain chars'
             (Queue.set_buffer q (<[Z.to_nat tail := ch]> (Queue.buffer q))) (count + 1) q_room
             (Z.land (tail + 1) (Queue.buffer_units_mask q))
  end.

Definition advance (q : Queue.queue) (count : Z) : Queue.queue :=
  if nz count then snd (Queue.queue_advance_tail q count) else q.

Definition send_data_to_usb (u : Z) (chars : list Z) (uart_in : Queue.queue)
    : M (Queue.queue * list Z) :=
  let q_room := Queue.queue_space uart_in in
  let tail := Z.land (Queue.tail uart_in) (Queue.buffer_units_mask uart_in) in
  let* s := gets id in
  if ec_comm_is_uart_in_packet_mode u s then
    let* (q, count) := drain_packet_mode chars uart_in 0 q_room tail in
    ret (advance q count, [])
  else if (u =? UART_EC) && negb uart_ec_bridge_is_enabled then ret (uart_in, chars)
  else
    let '(q, count, rest) := drain_plain chars uart_in 0 q_room tail in
    ret (advance q count, rest).
End SendToUsb.

(** The console command: the test of its argument; what it prints is left out. *)
Definition command_ec_comm (argv : list (list Z)) (ccd : ccd_state_t) : M Z :=
  match argv with
  | [] => ret EC.SUCCESS
  | arg :: _ =>
      if strcasecmp arg (str "corrupt") =? 0 then on_efs (ec_efs_corrupt_hash ccd)
      else ret EC.ERROR_PARAM1
  end.
End EcComm.

Arguments mkEc {N}.
Arguments ec_comm_ctx {N}.
Arguments is_blocked {N}.
Arguments packet_interrupts {N}.
Arguments sleep_disabled {N}.
Arguments outs {N}.
Arguments ec_efs {N}.
