(* ===== verification/EcSpec.v ===== *)
(** * What the boot mode tells, over any interleaving of the EC's packets, the TPM's
    writes, deep sleep and resets *)

From S2P Require Import Prelude Util Vendor Crc8 CcdConfig TpmNv EcEfs EcComm EcEfsProps.

Section Spec.
Context {N : Type} `{!TpmNv N} `{!TpmNvLaws N}.
Variable v : bool.

Notation ec := (@ec N).
Notation efs := (@efs N).
Implicit Types (s : ec) (e : efs).

Definition pkt s : list Z := packet (ec_comm_ctx s).
Definition ec_mode s : Z := mode (ec_efs s).

(** ** One byte of the EC *)

(** The packet and what lies below are as before. *)
Definition same_below s s' : Prop := ec_efs s' = ec_efs s /\ pkt s' = pkt s.

#[local] Instance same_below_refl : Reflexive same_below.
Proof. by intros s. Qed.

#[local] Instance same_below_trans : Transitive same_below.
Proof. intros s1 s2 s3 [H1 H2] [H3 H4]. split; congruence. Qed.

Lemma finish_below r : preserves same_below (finish r).
Proof.
  unfold finish, transfer_response_to_ec_, out, set_comm.
  preserves_tac; by apply preserves_modify.
Qed.

(** A packet is handed to the commands, or nothing changes below. *)
Definition decoded s s' : Prop :=
  length (pkt s') = length (pkt s) /\
  (ec_efs s' = ec_efs s \/
   exists n r, decode_packet_ v (pkt s') n (ec_efs s) = (r, ec_efs s')).

Lemma below_decoded s s' : same_below s s' -> decoded s s'.
Proof. intros [He Hp]. split; [by rewrite Hp|by left]. Qed.

Lemma decoded_below s1 s2 s3 : decoded s1 s2 -> same_below s2 s3 -> decoded s1 s3.
Proof. unfold decoded. intros H [-> ->]. exact H. Qed.

Lemma below_before s1 s2 s3 : same_below s1 s2 -> decoded s2 s3 -> decoded s1 s3.
Proof. unfold decoded. intros [-> ->] H. exact H. Qed.

Lemma decode_received_decoded s : decoded s (decode_received v s).2.
Proof.
  unfold decode_received, on_efs, bind, gets, id.
  destruct (decode_packet_ v _ _ (ec_efs s)) as [r e] eqn:E.
  split; [done|]. right. by exists (bytes_received (ec_comm_ctx s)), r.
Qed.

(** Storing a byte changes the packet but not its length. *)
Lemma stored_decoded ch s s' :
  decoded (set_comm (store_byte ch) s).2 s' -> decoded s s'.
Proof.
  intros [Hl H]. split; [|exact H]. rewrite Hl. apply length_insert.
Qed.

Lemma receive_header_decoded ch s : decoded s (receive_header v ch s).2.
Proof.
  apply (stored_decoded ch).
  unfold receive_header. rewrite !bind_snd. cbn [gets fst snd id].
  set (s1 := (set_comm (store_byte ch) s).2).
  repeat (destruct (_ : bool); [first [apply decode_received_decoded|by apply below_decoded]|]).
  by apply below_decoded.
Qed.

Lemma receive_data_decoded ch s : decoded s (receive_data v ch s).2.
Proof.
  apply (stored_decoded ch).
  unfold receive_data. rewrite !bind_snd. cbn [gets fst snd id].
  destruct (_ <=? _); [apply decode_received_decoded|by apply below_decoded].
Qed.

Lemma process_packet_decoded ch s : decoded s (ec_comm_process_packet v ch s).2.
Proof.
  unfold ec_comm_process_packet. rewrite bind_snd. cbn [gets fst snd id].
  destruct (phase (ec_comm_ctx s) =? PHASE_READY_COMM).
  { destruct (negb _); [by apply below_decoded|]. rewrite !bind_snd. destruct (_ <? _);
      by apply below_decoded. }
  destruct (phase (ec_comm_ctx s) =? PHASE_RECEIVING_PREAMBLE).
  { destruct (ch =? _); [by apply below_decoded|]. rewrite !bind_snd.
    eapply decoded_below; [|apply finish_below].
    eapply below_before; [|apply receive_header_decoded]. done. }
  destruct (phase (ec_comm_ctx s) =? PHASE_RECEIVING_HEADER).
  { rewrite !bind_snd. eapply decoded_below; [|apply finish_below].
    apply receive_header_decoded. }
  destruct (phase (ec_comm_ctx s) =? PHASE_RECEIVING_DATA); [|by apply below_decoded].
  rewrite !bind_snd. eapply decoded_below; [|apply finish_below].
  apply receive_data_decoded.
Qed.
(** A packet with a right CRC that asks for a mode, or gives a hash. *)
Definition received (cmd : Z) (p : list Z) : Prop :=
  ph_cmd p = cmd /\ exists n, crc8 (sub 4 n p) = ph_crc p.

(** What a byte of the EC may do to the mode, with its reason. *)
Inductive packet_mode s s' : Prop :=
| packet_same : ec_mode s' = ec_mode s -> packet_mode s s'
| packet_given_up :
    received CR50_COMM_CMD_SET_BOOT_MODE (pkt s') -> ph_size (pkt s') = 1 ->
    u8 (at_ (ph_data (pkt s')) 0) = EC_EFS_BOOT_MODE_NO_BOOT ->
    ec_mode s' = EC_EFS_BOOT_MODE_NO_BOOT -> packet_mode s s'
| packet_wrong_hash :
    received CR50_COMM_CMD_VERIFY_HASH (pkt s') -> ph_size (pkt s') = 32 ->
    sub 7 32 (pkt s') <> hash (ec_efs_ctx (ec_efs s')) ->
    ec_mode s' = EC_EFS_BOOT_MODE_NO_BOOT -> packet_mode s s'
| packet_verified :
    v = true -> ec_mode s <> EC_EFS_BOOT_MODE_NO_BOOT ->
    received CR50_COMM_CMD_VERIFY_HASH (pkt s') -> ph_size (pkt s') = 32 ->
    hash_is_loaded (ec_efs_ctx (ec_efs s')) = true ->
    sub 7 32 (pkt s') = hash (ec_efs_ctx (ec_efs s')) ->
    ec_mode s' = EC_EFS_BOOT_MODE_VERIFIED -> packet_mode s s'.

Definition dev_ok s : Prop := ctx_ok (ec_efs s) /\ (256 <= length (pkt s))%nat.

Lemma load_frame_refl (e : efs) : load_frame e e.
Proof. split; [done|by left]. Qed.

Lemma decoded_cases s s' : dev_ok s -> decoded s s' ->
  load_frame (ec_efs s) (ec_efs s') /\ mode_frame (ec_efs s) (ec_efs s') /\ packet_mode s s'.
Proof.
  intros [Hs Hlen] [Hl [He|(n & r & H)]].
  { rewrite He. split; [apply load_frame_refl|]. split; [by left|].
    apply packet_same. unfold ec_mode. by rewrite He. }
  rewrite <-Hl in Hlen.
  assert (Hsame : ec_efs s' = ec_efs s -> load_frame (ec_efs s) (ec_efs s') /\
    mode_frame (ec_efs s) (ec_efs s') /\ packet_mode s s').
  { intros E. rewrite E. split; [apply load_frame_refl|]. split; [by left|].
    apply packet_same. unfold ec_mode. by rewrite E. }
  unfold decode_packet_ in H.
  destruct (Z.eqb_spec (crc8 (sub 4 (Z.to_nat (n - offset_cmd)) (pkt s'))) (ph_crc (pkt s')))
    as [Ec|_]; cbn [negb] in H; [|injection H as _ E; auto].
  assert (Hr : forall c, ph_cmd (pkt s') = c -> received c (pkt s')) by (intros; split; eauto).
  destruct (Z.eqb_spec (ph_cmd (pkt s')) CR50_COMM_CMD_SET_BOOT_MODE) as [Em|_];
    [|destruct (Z.eqb_spec (ph_cmd (pkt s')) CR50_COMM_CMD_VERIFY_HASH) as [Em|_];
      [|injection H as _ E; auto]].
  - apply set_boot_mode_cases in H as (H1 & H2 & H). split; [done|]. split; [done|].
    destruct H as [H|(? & ? & ?)]; [by apply packet_same|]. apply packet_given_up; auto.
  - apply verify_hash_cases in H as (H1 & H2 & H); [|done|by apply (length_sub 7 32); lia].
    split; [done|]. split; [done|].
    destruct H as [H|[(? & ? & ?)|(? & ? & ? & ? & ? & ?)]];
      [by apply packet_same|apply packet_wrong_hash; auto|apply packet_verified; auto].
Qed.

(** ** The system

    Packets are handled, and the key combination, in interrupts, which do not interrupt one
    another; the TPM task writes and loads the hash, the hook task resets the EC, and the
    console corrupts the hash.  An interrupt can come between any two of the writes of
    these tasks to the context and to the scratch register, and while the bytes of the hash
    are copied; one load is in progress at a time. *)

(** How far [ec_efs_refresh] is: before it reads the index; before it copies byte [i] of
    the hash; before it sets the flag, and the error code. *)
Inductive load_stage :=
| loads_index | copies_hash (h : list Z) (i : nat) | sets_flag (rv : Z) | sets_code (rv : Z).

(** How far the hook task is in [assert_ec_rst], with the mode set: before the reads and
    writes of the scratch register.  [cl]: whether EC_RST_L is left asserted. *)
Inductive clear_stage :=
| reads_scratch | clears_scratch (r : Z) | reads_again | ors_scratch (r : Z).

(** [raced]: a packet has come in the middle of such a reset and set the mode or the scratch
    register. *)
Record sys := mkSys {
  dev : ec;
  loading : option load_stage;
  clearing : option (bool * clear_stage);
  raced : bool
}.

Definition load_step (p : load_stage) : ST efs (option load_stage) :=
  match p with
  | loads_index =>
      let* n := gets nv in
      match load_ec_hash_ n with
      | Ok h => ret (Some (copies_hash h 0))
      | Err rv => ret (Some (sets_flag rv))
      end
  | copies_hash h i =>
      if (i <? length h)%nat then
        let* old := gets (fun e => hash (ec_efs_ctx e)) in
        set_ec_hash (<[i := at_ h (Z.of_nat i)]> old) ;;; ret (Some (copies_hash h (S i)))
      else ret (Some (sets_flag EC.SUCCESS))
  | sets_flag rv => set_hash_loaded (rv =? EC.SUCCESS) ;;; ret (Some (sets_code rv))
  | sets_code rv => set_error_code rv ;;; ret None
  end.

Definition clear_step (cl : bool) (p : clear_stage) : ST efs (option clear_stage) :=
  match p with
  | reads_scratch => let* r := gets PWRDN_SCRATCH20 in ret (Some (clears_scratch r))
  | clears_scratch r => clear_scratch r ;;; ret (Some reads_again)
  | reads_again => let* r := gets PWRDN_SCRATCH20 in ret (Some (ors_scratch r))
  | ors_scratch r =>
      or_scratch r (EC_EFS_BOOT_MODE_INITIAL v) ;;;
      modify (set_ec_rst true) ;;;
      (if cl then ret tt else deassert_ec_rst) ;;; ret None
  end.

(** [ModeReset]: Cr50 sets the mode to the initial one, with a reset of the EC, on the key
    combination with which the hardware resets it, or at a start that is not out of deep
    sleep. *)
Inductive ec_event := Quiet | ModeReset.

Definition touches (e e' : efs) : bool :=
  negb ((mode e' =? mode e) && (PWRDN_SCRATCH20 e' =? PWRDN_SCRATCH20 e)).

(** A step of an interrupt. *)
Definition by_packet (x : sys) s' : sys :=
  mkSys s' (loading x) (clearing x)
    (raced x || (if clearing x then touches (ec_efs (dev x)) (ec_efs s') else false)).

Definition with_dev (x : sys) s' : sys := mkSys s' (loading x) (clearing x) (raced x).

Inductive ec_step : ec_event -> sys -> sys -> Prop :=
| step_char x ch :
    ec_comm_is_uart_in_packet_mode UART_EC (dev x) = true -> is_byte ch ->
    ec_step Quiet x (by_packet x (ec_comm_process_packet v ch (dev x)).2)
| step_mode_en x :
    packet_interrupts (dev x) = true -> ec_step Quiet x (with_dev x (ec_comm_packet_mode_en (dev x)).2)
| step_mode_dis x :
    packet_interrupts (dev x) = true -> ec_step Quiet x (with_dev x (ec_comm_packet_mode_dis (dev x)).2)
| step_block x b : ec_step Quiet x (with_dev x (ec_comm_block b (dev x)).2)
| step_write_kernel s n cl r :
    ec_step Quiet (mkSys s None cl r)
      (mkSys (on_efs (modify (set_nv n)) s).2 (Some loads_index) cl r)
| step_load s p cl r p' s' :
    on_efs (load_step p) s = (p', s') ->
    ec_step Quiet (mkSys s (Some p) cl r) (mkSys s' p' cl r)
| step_write_other x n :
    load_ec_hash_ n = load_ec_hash_ (nv (ec_efs (dev x))) ->
    ec_step Quiet x (with_dev x (on_efs (modify (set_nv n)) (dev x)).2)
| step_corrupt s ccd cl r rv s' :
    on_efs (corrupt_index ccd) s = (rv, s') ->
    ec_step Quiet (mkSys s None cl r)
      (mkSys s' (if rv =? EC.SUCCESS then Some loads_index else None) cl r)
| step_get_boot_mode x p : ec_step Quiet x (with_dev x (on_efs (vc_get_boot_mode_ p) (dev x)).2)
| step_reset_ec x p : ec_step Quiet x (with_dev x (on_efs (vc_reset_ec_ p) (dev x)).2)
| step_time x t : ec_step Quiet x (with_dev x (on_efs (modify (set_time t)) (dev x)).2)
| step_deep_sleep s r support pin behind :
    (217 <= length behind)%nat ->
    ec_step Quiet (mkSys s None None r)
      (mkSys (ec_start v true support pin behind (ec_efs s)) None None false)
| step_reboot s l r cl :
    reboot_due (ec_efs s) = true ->
    ec_step ModeReset (mkSys s l None r)
      (mkSys (on_efs (modify (set_reboot 0) ;;; set_mode (EC_EFS_BOOT_MODE_INITIAL v)) s).2 l
         (Some (cl, reads_scratch)) r)
| step_clear s l r cl p p' s' :
    on_efs (clear_step cl p) s = (p', s') ->
    ec_step Quiet (mkSys s l (Some (cl, p)) r) (mkSys s' l (option_map (pair cl) p') r)
| step_key_combo x set1 :
    ec_step ModeReset x (with_dev x (on_efs (key_combo0_irq v true set1) (dev x)).2)
| step_cold_start x support pin behind :
    (217 <= length behind)%nat ->
    ec_step ModeReset x (mkSys (ec_start v false support pin behind (ec_efs (dev x))) None None false).

(** The changes of the boot mode that there are, with their reason.  With no load in progress
    the loaded hash is the one of the index; out of a deep sleep the mode is that of the
    scratch register, which is the mode before when no packet has raced with a reset. *)
Inductive mode_step (ev : ec_event) (x x' : sys) : Prop :=
| mode_packet : packet_mode (dev x) (dev x') ->
    (loading x' = None -> hash_is_loaded (ec_efs_ctx (ec_efs (dev x'))) = true ->
     load_ec_hash_ (nv (ec_efs (dev x'))) = Ok (hash (ec_efs_ctx (ec_efs (dev x'))))) ->
    mode_step ev x x'
| mode_reset :
    ev = ModeReset -> ec_mode (dev x') = EC_EFS_BOOT_MODE_INITIAL v -> mode_step ev x x'
| mode_woken :
    clearing x = None -> ec_mode (dev x') = scratch_mode (ec_efs (dev x)) ->
    (raced x = false -> ec_mode (dev x') = ec_mode (dev x)) -> mode_step ev x x'.

(** ** The invariant *)

(** What has been loaded so far. *)
Definition loading_ok (e : efs) (p : option load_stage) : Prop :=
  match p with
  | None => loaded_ok e
  | Some loads_index => True
  | Some (copies_hash h i) => load_ec_hash_ (nv e) = Ok h /\ take i (hash (ec_efs_ctx e)) = take i h
  | Some (sets_flag rv) => rv = EC.SUCCESS -> load_ec_hash_ (nv e) = Ok (hash (ec_efs_ctx e))
  | Some (sets_code rv) => loaded_ok e
  end.

(** The low byte of the scratch register, or of what was read from it, in a reset. *)
Definition cleared (r : Z) : Prop :=
  Z.land r 0xff = 0 \/ Z.land r 0xff = EC_EFS_BOOT_MODE_INITIAL v.

Definition clearing_ok (e : efs) (p : option (bool * clear_stage)) : Prop :=
  match p with
  | None => scratch_ok e
  | Some (_, p) => mode e = EC_EFS_BOOT_MODE_INITIAL v /\
      match p with
      | reads_again => cleared (PWRDN_SCRATCH20 e)
      | ors_scratch r => cleared r
      | _ => True
      end
  end.

Record sys_ok (x : sys) : Prop := {
  ok_dev : dev_ok (dev x);
  ok_loading : loading_ok (ec_efs (dev x)) (loading x);
  ok_clearing : raced x = false -> clearing_ok (ec_efs (dev x)) (clearing x)
}.

Definition good ev x x' : Prop := sys_ok x' /\ mode_step ev x x'.

(** A load that an interrupt has done, if any, does not disturb the one in progress. *)
Lemma loading_frame e e' p : ctx_ok e -> load_frame e e' -> loading_ok e p -> loading_ok e' p.
Proof.
  intros He [Hn Hl] Hp. unfold loads, refreshed in Hl.
  assert (loaded_ok e -> loaded_ok e') as Hlo.
  { unfold loaded_ok. intros H Ht. rewrite Hn. destruct Hl as [[= H1 H2 H3]|Hl].
    - rewrite H1. apply H. by rewrite <-H2.
    - destruct (load_ec_hash_ (nv e)) as [h|rv]; injection Hl as H1 H2 H3; cbn in *; congruence. }
  destruct p as [[|h i|rv|rv]|]; cbn [loading_ok] in *; [done| | |auto|auto].
  - destruct Hp as [H1 H2]. rewrite Hn. split; [done|]. rewrite H1 in Hl.
    destruct Hl as [[= -> _ _]|[= -> _ _]]; done.
  - intros ->. rewrite Hn. specialize (Hp eq_refl). rewrite Hp in Hl.
    destruct Hl as [[= -> _ _]|[= -> _ _]]; done.
Qed.

Lemma loads_ok e e' : mode e' = mode e -> loads e' = loads e -> ctx_ok e -> ctx_ok e'.
Proof. unfold ctx_ok, loads. intros -> [= -> _ _]. done. Qed.

Lemma frame_ok e e' : ctx_ok e -> load_frame e e' -> mode_frame e e' -> ctx_ok e'.
Proof.
  intros He [_ Hl] Hm. pose proof (refreshed_ok e He) as [Hr _]. split.
  - destruct Hm as [[-> _]|[? _]]; [apply He|done].
  - unfold loads in Hl. destruct Hl as [[= -> _ _]|[= -> _ _]]; [apply He|apply Hr].
Qed.

Lemma start_spec s support pin behind : (217 <= length behind)%nat ->
  forall hib, let s' := ec_start v hib support pin behind (ec_efs s) in
  dev_ok s' /\ loaded_ok (ec_efs s') /\ scratch_ok (ec_efs s') /\
  ec_mode s' = if hib then scratch_mode (ec_efs s) else EC_EFS_BOOT_MODE_INITIAL v.
Proof.
  intros Hb hib. cbv zeta. unfold ec_start. rewrite bind_snd.
  set (e0 := mkEfs _ _ _ _ _ _).
  assert (Hl : (256 <= length (zeros (Z.to_nat CR50_COMM_MAX_PACKET_SIZE) ++ behind))%nat).
  { unfold zeros. rewrite length_app, length_replicate.
    change (Z.to_nat CR50_COMM_MAX_PACKET_SIZE) with 39%nat. lia. }
  destruct (init_spec v hib e0) as (H1 & H2 & H3 & H4); [split; [apply initial_byte|done]|done|].
  unfold on_efs. cbn [ec_efs]. destruct (ec_efs_init_ v hib e0) as [u e1]. cbn [snd fst] in *.
  assert (Hsame : forall x, same_below x (ec_comm_init_ support pin x).2)
    by (intros x; destruct support, pin; done).
  match goal with |- context [(ec_comm_init_ _ _ ?x).2] => destruct (Hsame x) as [E1 E2]; set (y := x) in * end.
  unfold dev_ok, ec_mode. rewrite E1, E2. cbn [ec_efs y]. split; [by split|]. split; [done|].
  split; [done|]. rewrite H4. by destruct hib.
Qed.

(** ** Every step *)

(** Steps that leave all that matters. *)
Definition quiet_efs e e' : Prop :=
  mode e' = mode e /\ PWRDN_SCRATCH20 e' = PWRDN_SCRATCH20 e /\ loads e' = loads e /\ nv e' = nv e.

Lemma quiet_load e e' : quiet_efs e e' -> load_frame e e'.
Proof. intros (_ & _ & H1 & H2). split; [done|by left]. Qed.

Lemma clearing_same e e' p : mode e' = mode e -> PWRDN_SCRATCH20 e' = PWRDN_SCRATCH20 e ->
  clearing_ok e p -> clearing_ok e' p.
Proof.
  intros Hm Hs. unfold clearing_ok, scratch_ok, scratch_mode. rewrite Hm, Hs. done.
Qed.

Lemma packet_step ev x x' : sys_ok x' -> packet_mode (dev x) (dev x') -> good ev x x'.
Proof.
  intros Hx Hp. split; [done|]. apply mode_packet; [done|]. intros Hn Ht.
  pose proof (ok_loading _ Hx) as H. rewrite Hn in H. by apply H.
Qed.

Lemma good_quiet ev x s' :
  sys_ok x -> quiet_efs (ec_efs (dev x)) (ec_efs s') -> length (pkt s') = length (pkt (dev x)) ->
  good ev x (with_dev x s').
Proof.
  intros [[Hd Hp] Hl Hc] Hq Hlen. pose proof Hq as (H1 & H2 & H3 & H4).
  apply packet_step; [|by apply packet_same]. split; cbn [with_dev dev loading clearing raced].
  - split; [|by rewrite Hlen]. by apply (loads_ok (ec_efs (dev x))).
  - eapply loading_frame; [exact Hd|by apply quiet_load|done].
  - intros Hr. by apply (clearing_same (ec_efs (dev x))); auto.
Qed.

Lemma good_below ev x s' : sys_ok x -> same_below (dev x) s' -> good ev x (with_dev x s').
Proof. intros Hx [He Hp]. apply good_quiet; [done|by rewrite He|by rewrite Hp]. Qed.

Lemma char_good ev x ch : sys_ok x ->
  good ev x (by_packet x (ec_comm_process_packet v ch (dev x)).2).
Proof.
  intros Hx. pose proof (process_packet_decoded ch (dev x)) as Hdec.
  set (s' := (ec_comm_process_packet v ch (dev x)).2) in *.
  destruct (decoded_cases _ _ (ok_dev _ Hx) Hdec) as (H1 & H2 & H3).
  destruct Hx as [[Hd Hp] Hl Hc]. apply packet_step; [|done].
  split; cbn [by_packet dev loading clearing raced].
  - split; [by eapply frame_ok|]. destruct Hdec as [-> _]. done.
  - by eapply loading_frame.
  - intros Hr. apply orb_false_iff in Hr as [Hr Ht]. specialize (Hc Hr).
    destruct (clearing x) as [[cl p]|].
    + unfold touches in Ht. apply negb_false_iff, andb_prop in Ht as [Hm%Z.eqb_eq Hs%Z.eqb_eq].
      by apply (clearing_same (ec_efs (dev x))).
    + destruct H2 as [[Hm Hs]|[_ Hs]]; [|exact Hs]. by apply (clearing_same (ec_efs (dev x)) _ None).
Qed.

(** A step of the task that loads the hash. *)
Lemma load_good ev s l cl r s' l' :
  sys_ok (mkSys s l cl r) -> pkt s' = pkt s -> ctx_ok (ec_efs s') ->
  mode (ec_efs s') = mode (ec_efs s) -> PWRDN_SCRATCH20 (ec_efs s') = PWRDN_SCRATCH20 (ec_efs s) ->
  loading_ok (ec_efs s') l' -> good ev (mkSys s l cl r) (mkSys s' l' cl r).
Proof.
  intros [[Hd Hp] Hl Hc] Hpk Hctx Hm Hs Hl'. apply packet_step; [|by apply packet_same].
  split; cbn in *; [split; [done|by rewrite Hpk]|done|].
  intros Hr. apply (clearing_same (ec_efs s)); auto.
Qed.

Lemma load_step_ok p (e : efs) : ctx_ok e -> loading_ok e (Some p) ->
  let e' := (load_step p e).2 in
  ctx_ok e' /\ mode e' = mode e /\ PWRDN_SCRATCH20 e' = PWRDN_SCRATCH20 e /\
  loading_ok e' (load_step p e).1.
Proof.
  intros Hc Hl. destruct p as [|h i|rv|rv]; cbn [load_step]; unfold bind, gets, ret.
  - destruct (load_ec_hash_ (nv e)) as [h|rv] eqn:E; cbn; [by split_and!|].
    split_and!; try done. intros ->. by apply load_error_nonzero in E.
  - cbn [loading_ok] in Hl. destruct Hl as [Hn Ht]. pose proof (load_length _ _ Hn) as Hh.
    destruct (Nat.ltb_spec i (length h)) as [Hi|Hi].
    + cbn. split_and!; try done.
      * split; [apply Hc|]. cbn. rewrite length_insert. apply Hc.
      * destruct Hc as [_ Hlen]. rewrite (take_S_r _ i (at_ h (Z.of_nat i))), (take_S_r h i (at_ h (Z.of_nat i))).
        -- rewrite take_insert_ge by lia. by rewrite Ht.
        -- unfold at_. rewrite Nat2Z.id. destruct (nth_lookup_or_length h i 0); [done|lia].
        -- apply list_lookup_insert_eq. lia.
    + cbn. split_and!; try done. intros _. rewrite Hn. f_equal. destruct Hc as [_ Hlen].
      rewrite !take_ge in Ht by lia. done.
  - cbn [loading_ok] in Hl. cbn. split_and!; try done. intros Hrv. cbn in Hrv.
    apply Hl. by apply Z.eqb_eq.
  - by cbn.
Qed.

Lemma clear_step_ok cl p (e : efs) : ctx_ok e -> 
  let e' := (clear_step cl p e).2 in
  ctx_ok e' /\ mode e' = mode e /\ load_frame e e' /\
  (clearing_ok e (Some (cl, p)) -> clearing_ok e' (option_map (pair cl) (clear_step cl p e).1)).
Proof.
  intros Hc. destruct p as [|r| |r]; cbn [clear_step]; unfold bind, gets, ret.
  - cbn. split_and!; try done. apply load_frame_refl.
  - cbn. split; [done|]. split; [done|]. split; [split; [done|by left]|].
    intros [Hm _]. split; [done|]. left. apply clear_ff.
  - cbn. split_and!; try done. apply load_frame_refl.
  - assert (forall b : bool, (if b then ret tt else deassert_ec_rst) =
      (fun e : efs => (tt, if b then e else set_ec_rst false e))) as Hb by (by intros []).
    rewrite Hb. cbn [or_scratch modify option_map fst snd].
    assert (forall x, ctx_ok e -> ctx_ok (if cl then set_ec_rst true (set_scratch x e)
      else set_ec_rst false (set_ec_rst true (set_scratch x e)))) as H1 by (by destruct cl).
    split; [by apply H1|]. split; [by destruct cl|]. split.
    { destruct cl; (split; [done|by left]). }
    intros [Hm Hr]. unfold clearing_ok, scratch_ok, scratch_mode.
    assert (Z.land (Z.lor r (EC_EFS_BOOT_MODE_INITIAL v)) 0xff = EC_EFS_BOOT_MODE_INITIAL v) as Hff.
    { rewrite or_ff by apply initial_byte. destruct Hr as [-> | ->]; [by rewrite Z.lor_0_l|].
      apply Z.lor_diag. }
    destruct cl; cbn; by rewrite Hff, <-Hm.
Qed.

Lemma ec_step_good ev x x' : ec_step ev x x' -> sys_ok x -> good ev x x'.
Proof.
  intros H Hx.
  destruct H as [x ch _ _|x _|x _|x b|s n cl r|s p cl r p' s' E|x n Hn|s ccd cl r rv s' E|x p|x p|x t
    |s r support pin behind Hb|s l r cl _|s l r cl p p' s' E|x set1|x support pin behind Hb].
  - by apply char_good.
  - by apply good_below.
  - by apply good_below.
  - apply good_below; [done|]. unfold ec_comm_block, ec_comm_is_uart_in_packet_mode.
    rewrite bind_snd. cbn [gets fst snd id]. destruct (_ =? b); [done|].
    destruct (nz b); [|done]. rewrite !bind_snd. cbn [gets fst snd id].
    by destruct (_ =? _).
  - apply load_good; try done. apply Hx.
  - destruct (load_step_ok p (ec_efs s)) as (H1 & H2 & H3 & H4); [apply Hx|apply (ok_loading _ Hx)|].
    unfold on_efs in E. destruct (load_step p (ec_efs s)) as [p1 e1].
    injection E as <- <-. by apply load_good.
  - pose proof Hx as [[Hd Hp] Hl Hc]. apply packet_step; [|by apply packet_same].
    split; [by split| |done]. cbn. unfold loading_ok, loaded_ok in *. cbn. rewrite Hn.
    destruct (loading x) as [[]|]; exact Hl.
  - assert (forall e : efs, exists n, (corrupt_index ccd e).2 = set_nv n e /\
      ((corrupt_index ccd e).1 <> EC.SUCCESS -> n = nv e)) as Hcor.
    { intros e. unfold corrupt_index. destruct (negb _).
      { exists (nv e). split; [by destruct e|done]. }
      unfold bind, gets, id. destruct (read_tpm_nvmem _ _ _) as [[] l]; cbn;
        [by eexists|exists (nv e); split; [by destruct e|done]..]. }
    destruct (Hcor (ec_efs s)) as (n & H1 & H2). unfold on_efs in E.
    destruct (corrupt_index ccd (ec_efs s)) as [rv1 e1]. cbn [fst snd] in *. subst e1.
    injection E as <- <-. apply load_good; try done; [apply Hx|].
    destruct (Z.eqb_spec rv1 EC.SUCCESS) as [|Hne]; [done|]. rewrite (H2 Hne).
    pose proof (ok_loading _ Hx) as Hl. exact Hl.
  - by apply good_below.
  - by apply good_quiet.
  - by apply good_quiet.
  - destruct (start_spec s support pin behind Hb true) as (H1 & H2 & H3 & H4).
    split; [by split|]. apply mode_woken; [done|exact H4|]. intros Hr. cbn [dev] in *. rewrite H4.
    apply (ok_clearing _ Hx Hr).
  - pose proof Hx as [[Hd Hp] Hl Hc]. split; [|by apply mode_reset].
    split; cbn; [split; [|done]; split; [apply initial_byte|apply Hd]| |done].
    eapply loading_frame; [exact Hd|split; [done|by left]|exact Hl].
  - pose proof Hx as [[Hd Hp] Hl Hc].
    destruct (clear_step_ok cl p (ec_efs s) Hd) as (H1 & H2 & H3 & H4).
    unfold on_efs in E. destruct (clear_step cl p (ec_efs s)) as [p1 e1].
    injection E as <- <-. apply packet_step; [|apply packet_same; exact H2].
    split; [by split|exact (loading_frame _ _ _ Hd H3 Hl)|].
    intros Hr. apply H4. exact (Hc Hr).
  - pose proof Hx as [[Hd Hp] Hl Hc].
    assert (exists e1, (on_efs (key_combo0_irq v true set1) (dev x)).2 =
        (on_efs (fun _ => (tt, e1)) (dev x)).2 /\
      quiet_efs (with_mode (EC_EFS_BOOT_MODE_INITIAL v) (ec_efs (dev x))) e1) as (e1 & -> & Hq).
    { unfold on_efs, key_combo0_irq, bind, ec_efs_reset. rewrite set_boot_mode_run.
      destruct set1; cbn [fst snd modify ret]; by eexists. }
    destruct Hq as (Q1 & Q2 & Q3 & Q4).
    assert (ec_mode (with_dev x (on_efs (fun _ => (tt, e1)) (dev x)).2).(dev)
      = EC_EFS_BOOT_MODE_INITIAL v) as Hm by exact Q1.
    split; [|by apply mode_reset].
    split; cbn [with_dev dev loading clearing raced on_efs ec_efs snd].
    + split; [|exact Hp]. change (ctx_ok e1). split; [rewrite Q1; apply initial_byte|].
      unfold loads in Q3. injection Q3 as Q3 _ _. cbn in Q3. rewrite Q3. apply Hd.
    + apply (loading_frame (ec_efs (dev x))); [exact Hd| |exact Hl]. split; [exact Q4|].
      left. exact Q3.
    + intros Hr. specialize (Hc Hr).
      pose proof (with_mode_scratch (EC_EFS_BOOT_MODE_INITIAL v) (ec_efs (dev x)) (initial_byte v)) as Hw.
      unfold scratch_ok, scratch_mode in Hw. rewrite <-Q2 in Hw. cbn in Hw.
      destruct (clearing x) as [[cl p]|]; cbn [clearing_ok] in *;
        [|unfold scratch_ok, scratch_mode; rewrite Q1; exact Hw].
      split; [exact Q1|]. destruct Hc as [_ Hc]. destruct p; try done. by right.
  - destruct (start_spec (dev x) support pin behind Hb false) as (H1 & H2 & H3 & H4).
    split; [by split|]. by apply mode_reset.
Qed.


(** No packet races with a reset of the EC. *)
Definition calm_step x x' : Prop := ec_step Quiet x x' /\ raced x' = false.

Lemma quiet_run x x' : star calm_step x x' -> sys_ok x -> raced x = false ->
  sys_ok x' /\ (ec_mode (dev x) = EC_EFS_BOOT_MODE_NO_BOOT -> ec_mode (dev x') = EC_EFS_BOOT_MODE_NO_BOOT).
Proof.
  induction 1 as [x|x1 x2 x3 [H1 Hr2] _ IH]; intros Hs Hr; [done|].
  destruct (ec_step_good _ _ _ H1 Hs) as [Hi Hm]. destruct (IH Hi Hr2) as [Hi3 H3].
  split; [done|]. intros E. apply H3.
  destruct Hm as [[->|?|?|?] _|?|_ _ ->]; done.
Qed.

(** Once the mode is NO_BOOT it stays so until it is reset, whatever the EC sends, whatever
    is written to the TPM and however often Cr50 sleeps, when no packet races with a reset. *)
Theorem no_boot_until_reset x x' :
  star calm_step x x' -> sys_ok x -> raced x = false ->
  ec_mode (dev x) = EC_EFS_BOOT_MODE_NO_BOOT -> ec_mode (dev x') = EC_EFS_BOOT_MODE_NO_BOOT.
Proof. intros H Hs Hr. by apply (quiet_run _ _ H Hs Hr). Qed.
End Spec.
