(* ===== verification/EcPacket.v ===== *)
(** * The packets of the EC: what arrives whole is executed and answered *)

From S2P Require Import Prelude Util Vendor Crc8 CcdConfig TpmNv EcEfs EcComm EcEfsProps.

Section Packet.
Context {N : Type} `{!TpmNv N} `{!TpmNvLaws N}.
Variable v : bool.

Notation ec := (@ec N).
Notation efs := (@efs N).
Implicit Types s : ec.

(** The bytes of the UART one after the other, with what each call returns. *)
Fixpoint receive (chars : list Z) : ST ec (list Z) :=
  match chars with
  | [] => ret []
  | ch :: chars =>
      let* r := ec_comm_process_packet v ch in
      let* rs := receive chars in
      ret (r :: rs)
  end.

Lemma receive_cons ch cs s r s1 :
  ec_comm_process_packet v ch s = (r, s1) ->
  receive (ch :: cs) s = (r :: (receive cs s1).1, (receive cs s1).2).
Proof. intros E. cbn. unfold bind. rewrite E. by destruct (receive cs s1). Qed.

Lemma receive_app c1 c2 s :
  receive (c1 ++ c2) s =
  ((receive c1 s).1 ++ (receive c2 (receive c1 s).2).1, (receive c2 (receive c1 s).2).2).
Proof.
  revert s. induction c1 as [|ch c1 IH]; intros s; [by cbn; destruct (receive c2 s)|].
  destruct (ec_comm_process_packet v ch s) as [r s1] eqn:E.
  rewrite <- app_comm_cons. by rewrite !(receive_cons _ _ _ _ _ E), IH.
Qed.

Definition with_comm (c : ec_comm_context) s : ec :=
  mkEc c (is_blocked s) (packet_interrupts s) (sleep_disabled s) (outs s) (ec_efs s).

Lemma with_comm_same s : with_comm (ec_comm_ctx s) s = s.
Proof. by destruct s. Qed.

(** ** The preamble *)

Lemma preamble_run k u c r e l p s :
  exists c', receive (replicate k CR50_COMM_PREAMBLE)
    (with_comm (mkComm u PHASE_RECEIVING_PREAMBLE c r e l p) s) =
    (replicate k 1, with_comm (mkComm u PHASE_RECEIVING_PREAMBLE c' r e l p) s).
Proof.
  revert c. induction k as [|k IH]; intros c; [by exists c|].
  destruct (IH (u8 (c + 1))) as [c' E]. exists c'. cbn [replicate].
  rewrite (receive_cons CR50_COMM_PREAMBLE _
    (with_comm (mkComm u PHASE_RECEIVING_PREAMBLE c r e l p) s) 1
    (with_comm (mkComm u PHASE_RECEIVING_PREAMBLE (u8 (c + 1)) r e l p) s) eq_refl).
  by rewrite E.
Qed.

(** The first three bytes of a preamble still go to the console. *)
Lemma sync_run k u r e l p s :
  exists c', receive (replicate (4 + k) CR50_COMM_PREAMBLE)
    (with_comm (mkComm u PHASE_READY_COMM 0 r e l p) s) =
    (replicate 3 0 ++ replicate (S k) 1,
     with_comm (mkComm u PHASE_RECEIVING_PREAMBLE c' r e l p) s).
Proof.
  destruct (preamble_run k u 4 r e l p s) as [c' E]. exists c'. cbn [replicate Nat.add].
  pose (ready n := with_comm (mkComm u PHASE_READY_COMM n r e l p) s).
  rewrite (receive_cons CR50_COMM_PREAMBLE _ (ready 0) 0 (ready 1) eq_refl),
    (receive_cons CR50_COMM_PREAMBLE _ (ready 1) 0 (ready 2) eq_refl),
    (receive_cons CR50_COMM_PREAMBLE _ (ready 2) 0 (ready 3) eq_refl),
    (receive_cons CR50_COMM_PREAMBLE _ (ready 3) 1
       (with_comm (mkComm u PHASE_RECEIVING_PREAMBLE 4 r e l p) s) eq_refl).
  by rewrite E.
Qed.

(** ** Collecting the bytes of a packet *)

Lemma sub_app_left off n (l k : list Z) :
  (off + n <= length l)%nat -> sub off n (l ++ k) = sub off n l.
Proof.
  intros H. unfold sub. rewrite drop_app_le by lia. rewrite take_app_le; [done|].
  rewrite length_drop. lia.
Qed.

(** The context when the bytes [w] have arrived over the memory [p0]. *)
Definition collect (u ph c e l : Z) (p0 w : list Z) : ec_comm_context :=
  mkComm u ph c (Z.of_nat (length w)) e l (w ++ drop (length w) p0).

Lemma insert_next (p0 w : list Z) ch :
  (length w < length p0)%nat ->
  <[length w := ch]> (w ++ drop (length w) p0) = (w ++ [ch]) ++ drop (length (w ++ [ch])) p0.
Proof.
  intros H. rewrite insert_app_r_alt by lia. rewrite Nat.sub_diag, <- app_assoc. f_equal.
  rewrite length_app. cbn [length]. rewrite <- drop_drop.
  destruct (drop (length w) p0) as [|x l] eqn:E; [|done].
  apply (f_equal length) in E. rewrite length_drop in E. cbn in E. lia.
Qed.

Lemma store_collect u ph c e l p0 w ch :
  (length w < 255)%nat -> (length w < length p0)%nat ->
  store_byte ch (collect u ph c e l p0 w) = collect u ph c e l p0 (w ++ [ch]).
Proof.
  intros H1 H2. unfold store_byte, collect. cbn. rewrite Nat2Z.id, insert_next by done.
  f_equal. rewrite uN_small by (change (2 ^ 8) with 256; lia). rewrite length_app. cbn. lia.
Qed.

Lemma process_header ch s :
  phase (ec_comm_ctx s) = PHASE_RECEIVING_HEADER ->
  ec_comm_process_packet v ch s = (let* response := receive_header v ch in finish response) s.
Proof. intros H. unfold ec_comm_process_packet. by rewrite (bind_run _ _ s s s), H. Qed.

Lemma process_data ch s :
  phase (ec_comm_ctx s) = PHASE_RECEIVING_DATA ->
  ec_comm_process_packet v ch s = (let* response := receive_data v ch in finish response) s.
Proof. intros H. unfold ec_comm_process_packet. by rewrite (bind_run _ _ s s s), H. Qed.

(** The answer to a packet. *)
Definition answered (r : Z) s : ec :=
  if nz r then
    mkEc (set_preamble_count 0 (set_phase PHASE_READY_COMM (set_last_resp r (ec_comm_ctx s))))
      (is_blocked s) (packet_interrupts s) (sleep_disabled s)
      (outs s ++ [UartWrite (uart (ec_comm_ctx s)) (u8 r);
                  UartWrite (uart (ec_comm_ctx s)) (u8 (Z.shiftr r 8))]) (ec_efs s)
  else s.

Lemma finish_run r s : finish r s = (1, answered r s).
Proof.
  unfold finish, answered. destruct (nz r); [|done].
  unfold bind, transfer_response_to_ec_, out, set_comm, modify, gets. cbn.
  by rewrite <- app_assoc.
Qed.

Definition with_efs (e : efs) s : ec :=
  mkEc (ec_comm_ctx s) (is_blocked s) (packet_interrupts s) (sleep_disabled s) (outs s) e.

Section Collect.
Variables (u c l : Z) (p0 : list Z).
Hypothesis Hp0 : (256 <= length p0)%nat.

Notation collecting ph e w s := (with_comm (collect u ph c e l p0 w) s).

Lemma store_run ph e w ch s : (length w < 255)%nat ->
  set_comm (store_byte ch) (collecting ph e w s) = (tt, collecting ph e (w ++ [ch]) s).
Proof. intros Hw. unfold set_comm, modify. cbn. by rewrite store_collect by lia. Qed.

Lemma header_step w ch s : (length w < 6)%nat ->
  ec_comm_process_packet v ch (collecting PHASE_RECEIVING_HEADER 7 w s) =
  (1, collecting PHASE_RECEIVING_HEADER 7 (w ++ [ch]) s).
Proof.
  intros Hw. rewrite process_header by done. unfold receive_header.
  set (s1 := collecting PHASE_RECEIVING_HEADER 7 (w ++ [ch]) s).
  assert (Hlt : Z.of_nat (length (w ++ [ch])) <? 7 = true)
    by (rewrite length_app; cbn; apply Z.ltb_lt; lia).
  rewrite (bind_run _ _ _ 0 s1); [by rewrite finish_run|].
  rewrite (bind_run _ _ _ tt s1) by (apply store_run; lia).
  rewrite (bind_run _ _ s1 s1 s1) by done. cbn zeta.
  change (bytes_received (ec_comm_ctx s1)) with (Z.of_nat (length (w ++ [ch]))).
  change (bytes_expected (ec_comm_ctx s1)) with 7. by rewrite Hlt.
Qed.

Lemma header_run cs : forall w s, (length w + length cs <= 6)%nat ->
  receive cs (collecting PHASE_RECEIVING_HEADER 7 w s) =
  (replicate (length cs) 1, collecting PHASE_RECEIVING_HEADER 7 (w ++ cs) s).
Proof.
  induction cs as [|ch cs IH]; intros w s Hl; [by rewrite app_nil_r|].
  cbn in Hl. rewrite (receive_cons _ _ _ _ _ (header_step w ch s ltac:(lia))), IH
    by (rewrite length_app; cbn; lia).
  by rewrite <- app_assoc.
Qed.

Lemma data_step w ch e s : (length w < 39)%nat -> Z.of_nat (length w) + 1 < e ->
  ec_comm_process_packet v ch (collecting PHASE_RECEIVING_DATA e w s) =
  (1, collecting PHASE_RECEIVING_DATA e (w ++ [ch]) s).
Proof.
  intros Hw He. rewrite process_data by done. unfold receive_data.
  set (s1 := collecting PHASE_RECEIVING_DATA e (w ++ [ch]) s).
  assert (Hle : e <=? Z.of_nat (length (w ++ [ch])) = false)
    by (rewrite length_app; cbn; apply Z.leb_gt; lia).
  rewrite (bind_run _ _ _ 0 s1); [by rewrite finish_run|].
  rewrite (bind_run _ _ _ tt s1) by (apply store_run; lia).
  rewrite (bind_run _ _ s1 s1 s1) by done. cbn zeta.
  change (bytes_received (ec_comm_ctx s1)) with (Z.of_nat (length (w ++ [ch]))).
  change (bytes_expected (ec_comm_ctx s1)) with e. by rewrite Hle.
Qed.

Lemma data_run cs e : forall w s, Z.of_nat (length w + length cs) < e -> e <= 39 ->
  receive cs (collecting PHASE_RECEIVING_DATA e w s) =
  (replicate (length cs) 1, collecting PHASE_RECEIVING_DATA e (w ++ cs) s).
Proof.
  induction cs as [|ch cs IH]; intros w s Hl He; [by rewrite app_nil_r|].
  cbn in Hl. rewrite (receive_cons _ _ _ _ _ (data_step w ch e s ltac:(lia) ltac:(lia))), IH
    by (rewrite ?length_app; cbn; lia).
  by rewrite <- app_assoc.
Qed.

(** The packet is complete: it is decoded in place and answered. *)
Definition served (w : list Z) s : ec :=
  let '(r, e) := decode_packet_ v (w ++ drop (length w) p0) (Z.of_nat (length w)) (ec_efs s) in
  answered r (with_efs e s).

Lemma decode_received_run ph e w s :
  decode_received v (collecting ph e w s) =
  let '(r, e') := decode_packet_ v (w ++ drop (length w) p0) (Z.of_nat (length w)) (ec_efs s) in
  (r, with_efs e' (collecting ph e w s)).
Proof. done. Qed.

Lemma data_last w ch e s : (length w < 39)%nat -> Z.of_nat (length w) + 1 = e ->
  ec_comm_process_packet v ch (collecting PHASE_RECEIVING_DATA e w s) =
  (1, served (w ++ [ch]) (collecting PHASE_RECEIVING_DATA e (w ++ [ch]) s)).
Proof.
  intros Hw He. rewrite process_data by done. unfold receive_data, served.
  set (s1 := collecting PHASE_RECEIVING_DATA e (w ++ [ch]) s).
  assert (Hle : e <=? Z.of_nat (length (w ++ [ch])) = true)
    by (rewrite length_app; cbn; apply Z.leb_le; lia).
  pose proof (decode_received_run PHASE_RECEIVING_DATA e (w ++ [ch]) s) as Hd. fold s1 in Hd.
  change (ec_efs s1) with (ec_efs s).
  destruct (decode_packet_ v _ _ (ec_efs s)) as [r e'].
  rewrite (bind_run _ _ _ r (with_efs e' s1)); [by rewrite finish_run|].
  rewrite (bind_run _ _ _ tt s1) by (apply store_run; lia).
  rewrite (bind_run _ _ s1 s1 s1) by done. cbn zeta.
  change (bytes_received (ec_comm_ctx s1)) with (Z.of_nat (length (w ++ [ch]))).
  change (bytes_expected (ec_comm_ctx s1)) with e. by rewrite Hle.
Qed.

(** The last byte of the header, its size. *)
Lemma header_last w ch s : length w = 6%nat ->
  let h := w ++ [ch] in
  let s1 := collecting PHASE_RECEIVING_HEADER 7 h s in
  ec_comm_process_packet v ch (collecting PHASE_RECEIVING_HEADER 7 w s) =
  (1, if negb (ph_magic h =? CR50_COMM_MAGIC_WORD) then answered CR50_COMM_ERROR_MAGIC s1
      else if negb (ph_version h =? CR50_COMM_VERSION)
      then answered CR50_COMM_ERROR_STRUCT_VERSION s1
      else if ch =? 0 then served h s1
      else if 39 <? ch + 7 then answered CR50_COMM_ERROR_SIZE s1
      else collecting PHASE_RECEIVING_DATA (u8 (7 + ch)) h s).
Proof.
  intros Hw h s1. rewrite process_header by done. unfold receive_header.
  assert (Hh : length h = 7%nat) by (unfold h; rewrite length_app, Hw; done).
  assert (Hm : ph_magic (packet (ec_comm_ctx s1)) = ph_magic h).
  { unfold ph_magic. f_equal. apply (sub_app_left 0 2 h). lia. }
  assert (Hv : ph_version (packet (ec_comm_ctx s1)) = ph_version h)
    by (apply app_nth1; unfold h in *; lia).
  assert (Hs : ph_size (packet (ec_comm_ctx s1)) = ch).
  { etrans; [apply (app_nth1 h); unfold h in *; change (Z.to_nat 6) with 6%nat; lia|].
    unfold h. rewrite app_nth2 by (rewrite Hw; cbn; lia). by rewrite Hw. }
  assert (Hr : bytes_received (ec_comm_ctx s1) = 7) by (cbn; fold h; lia).
  unfold bind at 1.
  rewrite (bind_run _ _ _ tt s1) by (apply store_run; lia).
  rewrite (bind_run _ _ s1 s1 s1) by done. cbn zeta.
  rewrite Hr, Hm, Hv, Hs. change (bytes_expected (ec_comm_ctx s1)) with 7.
  change (7 <? 7) with false. cbv iota.
  destruct (negb (ph_magic h =? _)); [apply finish_run|].
  destruct (negb (ph_version h =? _)); [apply finish_run|].
  destruct (ch =? 0).
  { pose proof (decode_received_run PHASE_RECEIVING_HEADER 7 h s) as Hd. fold s1 in Hd.
    unfold served. change (ec_efs s1) with (ec_efs s). rewrite Hd.
    destruct (decode_packet_ v _ _ (ec_efs s)) as [r e']. apply finish_run. }
  rewrite (Z.add_comm ch 7), (Z.add_comm 7 ch).
  destruct (_ <? ch + 7); [apply finish_run|]. rewrite Z.add_comm. done.
Qed.

(** The first byte after the preamble starts a packet. *)
Lemma first_byte ch r e s :
  ch <> CR50_COMM_PREAMBLE ->
  ec_comm_process_packet v ch (with_comm (mkComm u PHASE_RECEIVING_PREAMBLE c r e l p0) s) =
  ec_comm_process_packet v ch (collecting PHASE_RECEIVING_HEADER 7 [] s).
Proof.
  intros Hc. rewrite (process_header _ (collecting _ _ _ _)) by done.
  unfold ec_comm_process_packet. set (s0 := with_comm _ s). rewrite (bind_run _ _ s0 s0 s0) by done. cbn zeta.
  change (phase (ec_comm_ctx s0)) with 1. cbn [Z.eqb PHASE_READY_COMM PHASE_RECEIVING_PREAMBLE].
  rewrite (proj2 (Z.eqb_neq _ _) Hc). done.
Qed.

Lemma first_bytes ch cs r e s :
  ch <> CR50_COMM_PREAMBLE -> (length cs <= 5)%nat ->
  receive (ch :: cs) (with_comm (mkComm u PHASE_RECEIVING_PREAMBLE c r e l p0) s) =
  (replicate (S (length cs)) 1, collecting PHASE_RECEIVING_HEADER 7 (ch :: cs) s).
Proof.
  intros Hc Hl. pose proof (first_byte ch r e s Hc) as E.
  rewrite header_step in E by (cbn; lia).
  rewrite (receive_cons _ _ _ _ _ E), (header_run cs ([] ++ [ch])) by (cbn; lia). done.
Qed.

(** A header of seven bytes. *)
Lemma header_bytes ch cs n r e s :
  ch <> CR50_COMM_PREAMBLE -> length cs = 5%nat ->
  let h := (ch :: cs) ++ [n] in
  let s1 := collecting PHASE_RECEIVING_HEADER 7 h s in
  receive h (with_comm (mkComm u PHASE_RECEIVING_PREAMBLE c r e l p0) s) =
  (replicate 7 1,
   if negb (ph_magic h =? CR50_COMM_MAGIC_WORD) then answered CR50_COMM_ERROR_MAGIC s1
   else if negb (ph_version h =? CR50_COMM_VERSION)
   then answered CR50_COMM_ERROR_STRUCT_VERSION s1
   else if n =? 0 then served h s1
   else if 39 <? n + 7 then answered CR50_COMM_ERROR_SIZE s1
   else collecting PHASE_RECEIVING_DATA (u8 (7 + n)) h s).
Proof.
  intros Hc Hl h s1. unfold h at 1. rewrite receive_app, first_bytes by (done || lia).
  cbn [fst snd]. rewrite (receive_cons _ _ _ _ _ (header_last (ch :: cs) n s ltac:(cbn; lia))).
  rewrite Hl. done.
Qed.

(** All bytes of the data. *)
Lemma data_bytes data h s : length h = 7%nat -> (0 < length data <= 32)%nat ->
  let e := 7 + Z.of_nat (length data) in
  receive data (collecting PHASE_RECEIVING_DATA e h s) =
  (replicate (length data) 1, served (h ++ data) (collecting PHASE_RECEIVING_DATA e (h ++ data) s)).
Proof.
  intros Hh Hd e. destruct data as [|x data' _] using rev_ind; [cbn in Hd; lia|].
  rewrite length_app in Hd. cbn in Hd.
  assert (He : e = 8 + Z.of_nat (length data')) by (unfold e; rewrite length_app; cbn; lia).
  rewrite receive_app, data_run by lia. cbn [fst snd].
  rewrite (receive_cons _ _ _ _ _
    (data_last (h ++ data') x e s ltac:(rewrite length_app; lia) ltac:(rewrite length_app; lia))).
  rewrite <- app_assoc, length_app, replicate_add. done.
Qed.
End Collect.

(** ** Whole packets *)

Definition body (cmd : Z) (data : list Z) : list Z :=
  le_bytes 2 cmd ++ [Z.of_nat (length data)] ++ data.

(** The bytes of a packet with a given CRC field. *)
Definition frame (crc cmd : Z) (data : list Z) : list Z :=
  le_bytes 2 CR50_COMM_MAGIC_WORD ++ [CR50_COMM_VERSION; crc] ++ body cmd data.

Definition encode (cmd : Z) (data : list Z) : list Z := frame (crc8 (body cmd data)) cmd data.

(** What a command does, without its packet. *)
Definition execute (cmd : Z) (data : list Z) : ST efs Z :=
  if cmd =? CR50_COMM_CMD_SET_BOOT_MODE
  then ec_efs_set_boot_mode v data (Z.of_nat (length data))
  else if cmd =? CR50_COMM_CMD_VERIFY_HASH
  then ec_efs_verify_hash v data (Z.of_nat (length data))
  else ret CR50_COMM_ERROR_UNDEFINED_CMD.

Lemma length_frame crc cmd data : length (frame crc cmd data) = (7 + length data)%nat.
Proof. done. Qed.

Lemma frame_fields crc cmd data rest :
  0 <= cmd < 65536 ->
  let p := frame crc cmd data ++ rest in
  ph_crc p = crc /\ ph_cmd p = cmd /\ ph_size p = Z.of_nat (length data) /\
  ph_data p = data ++ rest /\ sub 4 (3 + length data) p = body cmd data.
Proof.
  intros Hc p. split_and!; try done.
  - apply (le_val_bytes 2 cmd). exact Hc.
  - unfold p, frame. rewrite <- !app_assoc. cbn [app le_bytes].
    unfold sub. cbn [drop]. apply (take_app_length' (body cmd data)). done.
Qed.

Lemma set_boot_mode_data data rest n :
  (length data <= 32)%nat -> n = Z.of_nat (length data) ->
  ec_efs_set_boot_mode v (data ++ rest) n = ec_efs_set_boot_mode v data n :> ST efs Z.
Proof.
  intros Hl ->. unfold ec_efs_set_boot_mode. destruct data as [|b data]; [done|].
  by destruct (Z.eqb_spec (Z.of_nat (length (b :: data))) 1).
Qed.

Lemma verify_hash_data data rest n :
  n = Z.of_nat (length data) ->
  ec_efs_verify_hash v (take 32 (data ++ rest)) n = ec_efs_verify_hash v data n :> ST efs Z.
Proof.
  intros ->. unfold ec_efs_verify_hash.
  destruct (Z.eqb_spec (Z.of_nat (length data)) SHA256_DIGEST_SIZE) as [E|]; [|done].
  rewrite take_app_length' by (change SHA256_DIGEST_SIZE with 32 in E; lia). done.
Qed.

(** Decoding executes the command of a packet with the right CRC. *)
Lemma decode_frame crc cmd data rest :
  0 <= cmd < 65536 -> (length data <= 32)%nat ->
  decode_packet_ v (frame crc cmd data ++ rest) (Z.of_nat (length (frame crc cmd data))) =
  if crc8 (body cmd data) =? crc then execute cmd data else ret CR50_COMM_ERROR_CRC.
Proof.
  intros Hc Hl. destruct (frame_fields crc cmd data rest Hc) as (E1 & E2 & E3 & E4 & E5).
  unfold decode_packet_, execute. rewrite E1, E2, E3, E4, length_frame.
  replace (Z.to_nat (Z.of_nat (7 + length data) - offset_cmd)) with (3 + length data)%nat
    by (unfold offset_cmd; lia).
  rewrite E5. destruct (_ =? crc); [cbn [negb]|done].
  by rewrite set_boot_mode_data, verify_hash_data by done.
Qed.

(** A state that waits for a preamble. *)
Definition ready s : Prop :=
  phase (ec_comm_ctx s) = PHASE_READY_COMM /\ preamble_count (ec_comm_ctx s) = 0 /\
  (256 <= length (packet (ec_comm_ctx s)))%nat.

(** ... and one in which a packet was not answered. *)
Definition unanswered s : Prop :=
  phase (ec_comm_ctx s) = PHASE_RECEIVING_DATA /\
  bytes_expected (ec_comm_ctx s) <= bytes_received (ec_comm_ctx s).
(** A packet with a given CRC field, after its preamble. *)
Lemma frame_run u c l p0 crc cmd data r e s :
  (256 <= length p0)%nat -> 0 <= cmd < 65536 -> (length data <= 32)%nat ->
  exists ph, (ph = PHASE_RECEIVING_DATA \/ data = []) /\
  receive (frame crc cmd data) (with_comm (mkComm u PHASE_RECEIVING_PREAMBLE c r e l p0) s) =
  (replicate (7 + length data) 1,
   let w := frame crc cmd data in
   let s1 := with_comm (collect u ph c (7 + Z.of_nat (length data)) l p0 w) s in
   let '(resp, e') :=
     (if crc8 (body cmd data) =? crc then execute cmd data else ret CR50_COMM_ERROR_CRC)
       (ec_efs s) in
   answered resp (with_efs e' s1)).
Proof.
  intros Hp Hc Hl.
  pose (cs := [67; 0; crc] ++ le_bytes 2 cmd). pose (n := Z.of_nat (length data)).
  pose proof (header_bytes u c l p0 Hp 69 cs n r e s ltac:(done) eq_refl) as Hh.
  assert (Hf : frame crc cmd data = ((69 :: cs) ++ [n]) ++ data) by done.
  assert (Hm : ph_magic ((69 :: cs) ++ [n]) = CR50_COMM_MAGIC_WORD) by reflexivity.
  assert (Hv : ph_version ((69 :: cs) ++ [n]) = CR50_COMM_VERSION) by reflexivity.
  cbn zeta in Hh. rewrite Hm, Hv, !Z.eqb_refl in Hh. cbn [negb] in Hh.
  pose proof (decode_frame crc cmd data (drop (7 + length data) p0) Hc Hl) as Hd.
  rewrite length_frame in Hd.
  destruct data as [|b data'].
  - exists PHASE_RECEIVING_HEADER. split; [by right|]. rewrite Hf, app_nil_r, Hh.
    cbn [n length Z.of_nat Z.eqb]. f_equal. unfold served. cbn zeta. by rewrite <- Hd.
  - exists PHASE_RECEIVING_DATA. split; [by left|].
    rewrite Hf, receive_app, Hh. cbn [fst snd].
    destruct (Z.eqb_spec n 0) as [E|_]; [unfold n in E; cbn [length] in E; lia|].
    destruct (Z.ltb_spec 39 (n + 7)) as [E|_]; [unfold n in E; lia|].
    rewrite uN_small by (unfold n; change (2 ^ 8) with 256; lia).
    change (7 + n) with (7 + Z.of_nat (length (b :: data'))).
    rewrite data_bytes by (done || (cbn [length] in *; lia)). cbn [fst snd].
    rewrite replicate_add. f_equal. unfold served. by rewrite <- Hf, length_frame, Hd.
Qed.
End Packet.
