(* ===== verification/EcSession.v ===== *)
(** * Sessions of packets, malformed packets, console output, and packets without an
    answer *)

From S2P Require Import Prelude Util Vendor Crc8 CcdConfig TpmNv EcEfs EcComm EcEfsProps EcPacket.

Section Session.
Context {N : Type} `{!TpmNv N} `{!TpmNvLaws N}.
Variable v : bool.

Notation ec := (@ec N).
Notation efs := (@efs N).
Implicit Types s : ec.

(** The two bytes of a response. *)
Definition reply s (r : Z) : list ec_out :=
  let u := uart (ec_comm_ctx s) in [UartWrite u (u8 r); UartWrite u (u8 (Z.shiftr r 8))].

Lemma execute_empty cmd (e : efs) : (execute v cmd [] e).1 <> 0.
Proof. unfold execute. repeat (destruct (_ =? _)); done. Qed.

Lemma ready_ctx s : ready s ->
  s = with_comm (mkComm (uart (ec_comm_ctx s)) PHASE_READY_COMM 0 (bytes_received (ec_comm_ctx s))
        (bytes_expected (ec_comm_ctx s)) (last_resp (ec_comm_ctx s)) (packet (ec_comm_ctx s))) s.
Proof.
  destruct s as [[] ]. cbn. intros (Hp & Hc & _). cbn in Hp, Hc. by rewrite Hp, Hc.
Qed.

(** Any packet after a preamble, with a right or a wrong CRC. *)
Lemma frame_served k crc cmd data s :
  ready s -> (4 <= k)%nat -> 0 <= cmd < 65536 -> (length data <= 32)%nat ->
  exists r s',
    receive v (replicate k CR50_COMM_PREAMBLE ++ frame crc cmd data) s =
      (replicate 3 0 ++ replicate (k - 3 + (7 + length data)) 1, s') /\
    (if crc8 (body cmd data) =? crc then execute v cmd data else ret CR50_COMM_ERROR_CRC)
      (ec_efs s) = (r, ec_efs s') /\
    uart (ec_comm_ctx s') = uart (ec_comm_ctx s) /\
    packet (ec_comm_ctx s') = frame crc cmd data ++
      drop (7 + length data) (packet (ec_comm_ctx s)) /\
    if nz r then ready s' /\ outs s' = outs s ++ reply s r
    else phase (ec_comm_ctx s') = PHASE_RECEIVING_DATA /\
         bytes_received (ec_comm_ctx s') = 7 + Z.of_nat (length data) /\
         bytes_expected (ec_comm_ctx s') = 7 + Z.of_nat (length data) /\ outs s' = outs s.
Proof.
  intros Hs Hk Hc Hl. pose proof (ready_ctx s Hs) as Es. destruct Hs as (_ & _ & Hp).
  destruct (sync_run v (k - 4) (uart (ec_comm_ctx s)) (bytes_received (ec_comm_ctx s))
    (bytes_expected (ec_comm_ctx s)) (last_resp (ec_comm_ctx s)) (packet (ec_comm_ctx s)) s)
    as [c' E1].
  rewrite <- Es in E1. replace (4 + (k - 4))%nat with k in E1 by lia.
  destruct (frame_run v (uart (ec_comm_ctx s)) c' (last_resp (ec_comm_ctx s))
    (packet (ec_comm_ctx s)) crc cmd data (bytes_received (ec_comm_ctx s))
    (bytes_expected (ec_comm_ctx s)) s Hp Hc Hl) as (ph & Hph & E2).
  rewrite receive_app, E1. cbn [fst snd]. rewrite E2. cbn [fst snd].
  destruct ((if crc8 (body cmd data) =? crc then execute v cmd data
             else ret CR50_COMM_ERROR_CRC) (ec_efs s)) as [r e'] eqn:Er.
  eexists r, _. split_and!.
  - f_equal. rewrite <- app_assoc, <- replicate_add. do 2 f_equal. lia.
  - unfold answered. by destruct (nz r).
  - unfold answered. by destruct (nz r).
  - unfold answered. by destruct (nz r).
  - unfold answered. destruct (nz r) eqn:Enz.
    + split; [|done]. split_and!; [done|done|].
      change (256 <= length (frame crc cmd data ++
        drop (length (frame crc cmd data)) (packet (ec_comm_ctx s))))%nat.
      rewrite length_app, length_drop, length_frame. lia.
    + split_and!; try done; [|change (Z.of_nat (length (frame crc cmd data)) =
        7 + Z.of_nat (length data)); rewrite length_frame; lia].
      cbn. destruct Hph as [-> | ->]; [done|]. exfalso. apply nz_false in Enz. subst r. destruct (_ =? crc) in Er; [|done].
      pose proof (execute_empty cmd (ec_efs s)) as H. by rewrite Er in H.
Qed.

(** A preamble of [k] bytes, a command and its data. *)
Definition command : Type := nat * Z * list Z.

Definition wf_command (c : command) : Prop :=
  let '(k, cmd, data) := c in (4 <= k)%nat /\ 0 <= cmd < 65536 /\ (length data <= 32)%nat.

Definition stream (cs : list command) : list Z :=
  concat (map (fun '(k, cmd, data) => replicate k CR50_COMM_PREAMBLE ++ encode cmd data) cs).

(** The commands without their packets, one after the other. *)
Fixpoint execute_all (cs : list command) : ST efs (list Z) :=
  match cs with
  | [] => ret []
  | (_, cmd, data) :: cs =>
      let* r := execute v cmd data in
      let* rs := execute_all cs in
      ret (r :: rs)
  end.

(** C23. A stream of packets, each with at least the 4 bytes of preamble that the receiver
    needs and at most 32 bytes of data, is executed command by command in order, and each
    packet is answered with the two bytes of its response, provided that no response is the
    zero of a command that is left without an answer. *)
Theorem session_served cs : forall s rs e',
  ready s -> Forall wf_command cs ->
  execute_all cs (ec_efs s) = (rs, e') -> Forall (fun r => r <> 0) rs ->
  exists flags s', receive v (stream cs) s = (flags, s') /\
    ready s' /\ ec_efs s' = e' /\ outs s' = outs s ++ concat (map (reply s) rs).
Proof.
  induction cs as [|[[k cmd] data] cs IH]; intros s rs e' Hs Hw He Hr.
  { injection He as <- <-. exists [], s. cbn. by rewrite app_nil_r. }
  apply Forall_cons in Hw as [(Hk & Hc & Hl) Hw].
  destruct (frame_served k (crc8 (body cmd data)) cmd data s Hs Hk Hc Hl)
    as (r & s1 & E1 & E2 & Hu & _ & H1).
  rewrite Z.eqb_refl in E2. cbn in He. unfold bind in He. rewrite E2 in He.
  destruct (execute_all cs (ec_efs s1)) as [rs1 e1] eqn:E3. injection He as <- <-.
  apply Forall_cons in Hr as [Hr0 Hr].
  destruct (nz r) eqn:Enz; [|by apply nz_false in Enz]. destruct H1 as [Hs1 Ho1].
  destruct (IH s1 rs1 e1 Hs1 Hw E3 Hr) as (fl & s2 & E4 & Hs2 & He2 & Ho2).
  fold (encode cmd data) in E1. eexists (_ ++ fl), s2.
  cbn [stream map concat]. fold (stream cs). rewrite receive_app, E1. cbn [fst snd].
  rewrite E4. split_and!; [done|done|done|].
  rewrite Ho2, Ho1, <- app_assoc. cbn [map concat]. do 3 f_equal.
  apply map_ext. intros x. unfold reply. by rewrite Hu.
Qed.
(** ** Malformed packets *)

(** What the EC sends after its preamble, and the code that answers it. *)
Inductive malformed : list Z -> Z -> Prop :=
| bad_magic ch cs n :
    ch <> CR50_COMM_PREAMBLE -> length cs = 5%nat ->
    ph_magic (ch :: cs ++ [n]) <> CR50_COMM_MAGIC_WORD ->
    malformed (ch :: cs ++ [n]) CR50_COMM_ERROR_MAGIC
| bad_version ch cs n :
    length cs = 5%nat ->
    ph_magic (ch :: cs ++ [n]) = CR50_COMM_MAGIC_WORD ->
    ch <> CR50_COMM_PREAMBLE ->
    ph_version (ch :: cs ++ [n]) <> CR50_COMM_VERSION ->
    malformed (ch :: cs ++ [n]) CR50_COMM_ERROR_STRUCT_VERSION
| bad_size ch cs n :
    length cs = 5%nat ->
    ph_magic (ch :: cs ++ [n]) = CR50_COMM_MAGIC_WORD ->
    ch <> CR50_COMM_PREAMBLE ->
    ph_version (ch :: cs ++ [n]) = CR50_COMM_VERSION ->
    CR50_COMM_MAX_DATA_SIZE < n ->
    malformed (ch :: cs ++ [n]) CR50_COMM_ERROR_SIZE
| bad_crc crc cmd data :
    0 <= cmd < 65536 -> (length data <= 32)%nat -> crc <> crc8 (body cmd data) ->
    malformed (frame crc cmd data) CR50_COMM_ERROR_CRC.

Lemma answered_ready r s s1 :
  r <> 0 -> (256 <= length (packet (ec_comm_ctx s1)))%nat -> ec_efs s1 = ec_efs s ->
  outs s1 = outs s -> uart (ec_comm_ctx s1) = uart (ec_comm_ctx s) ->
  ready (answered r s1) /\ ec_efs (answered r s1) = ec_efs s /\
  outs (answered r s1) = outs s ++ reply s r.
Proof.
  intros Hr Hp He Ho Hu. unfold answered. rewrite (proj2 (nz_true r) Hr).
  split_and!; try done. cbn. unfold reply. by rewrite Ho, Hu.
Qed.

(** A header after its preamble, and the tests of its fields. *)
Lemma header_served k ch cs n s :
  ready s -> (4 <= k)%nat -> ch <> CR50_COMM_PREAMBLE -> length cs = 5%nat ->
  let h := ch :: cs ++ [n] in
  exists flags s1,
    (256 <= length (packet (ec_comm_ctx s1)))%nat /\ ec_efs s1 = ec_efs s /\
    outs s1 = outs s /\ uart (ec_comm_ctx s1) = uart (ec_comm_ctx s) /\
    (ph_magic h <> CR50_COMM_MAGIC_WORD ->
     receive v (replicate k CR50_COMM_PREAMBLE ++ h) s =
       (flags, answered CR50_COMM_ERROR_MAGIC s1)) /\
    (ph_magic h = CR50_COMM_MAGIC_WORD -> ph_version h <> CR50_COMM_VERSION ->
     receive v (replicate k CR50_COMM_PREAMBLE ++ h) s =
       (flags, answered CR50_COMM_ERROR_STRUCT_VERSION s1)) /\
    (ph_magic h = CR50_COMM_MAGIC_WORD -> ph_version h = CR50_COMM_VERSION ->
     CR50_COMM_MAX_DATA_SIZE < n ->
     receive v (replicate k CR50_COMM_PREAMBLE ++ h) s =
       (flags, answered CR50_COMM_ERROR_SIZE s1)).
Proof.
  intros Hs Hk Hc Hl h. pose proof (ready_ctx s Hs) as Es. destruct Hs as (_ & _ & Hp).
  destruct (sync_run v (k - 4) (uart (ec_comm_ctx s)) (bytes_received (ec_comm_ctx s))
    (bytes_expected (ec_comm_ctx s)) (last_resp (ec_comm_ctx s)) (packet (ec_comm_ctx s)) s)
    as [c' E1].
  rewrite <- Es in E1. replace (4 + (k - 4))%nat with k in E1 by lia.
  pose proof (header_bytes v (uart (ec_comm_ctx s)) c' (last_resp (ec_comm_ctx s))
    (packet (ec_comm_ctx s)) Hp ch cs n (bytes_received (ec_comm_ctx s))
    (bytes_expected (ec_comm_ctx s)) s Hc Hl) as E2.
  cbn zeta in E2. fold h in E2.
  set (s1 := with_comm (collect _ PHASE_RECEIVING_HEADER _ _ _ _ _) s) in E2.
  rewrite receive_app, E1. cbn [fst snd]. change ((ch :: cs) ++ [n]) with h in E2. rewrite E2.
  eexists _, s1. split_and!; try done.
  - change (256 <= length (h ++ drop (length h) (packet (ec_comm_ctx s))))%nat.
    rewrite length_app, length_drop. lia.
  - intros Hm. by rewrite (proj2 (Z.eqb_neq _ _) Hm).
  - intros Hm Hv. by rewrite Hm, (proj2 (Z.eqb_neq _ _) Hv).
  - intros Hm Hv Hn. rewrite Hm, Hv, !Z.eqb_refl. cbn [negb].
    unfold CR50_COMM_MAX_DATA_SIZE in Hn.
    destruct (Z.eqb_spec n 0); [lia|]. by destruct (Z.ltb_spec 39 (n + 7)); [|lia].
Qed.

(** A packet with a wrong magic word, version, size or CRC is answered with the code of
    its first error; nothing is executed, and the next packet is received. *)
Theorem malformed_rejected k p r s :
  ready s -> (4 <= k)%nat -> malformed p r ->
  exists flags s', receive v (replicate k CR50_COMM_PREAMBLE ++ p) s = (flags, s') /\
    ready s' /\ ec_efs s' = ec_efs s /\ outs s' = outs s ++ reply s r.
Proof.
  intros Hs Hk Hp.
  destruct Hp as [ch cs n Hc Hl Hm|ch cs n Hl Hm Hc Hv|ch cs n Hl Hm Hc Hv Hn|crc cmd data Hc Hl Hcrc].
  4:{ destruct (frame_served k crc cmd data s Hs Hk Hc Hl) as (r & s' & E1 & E2 & _ & _ & E3).
      apply not_eq_sym in Hcrc. rewrite (proj2 (Z.eqb_neq _ _) Hcrc) in E2.
      injection E2 as <- E2. eexists _, s'. split; [exact E1|]. by destruct E3. }
  all: destruct (header_served k ch cs n s Hs Hk Hc Hl)
    as (fl & s1 & Hp1 & He1 & Ho1 & Hu1 & H1 & H2 & H3); eexists fl, _;
    (split; [by auto|by apply answered_ready]).
Qed.

(** ** Console output *)

(** Output without four preamble bytes in a row all goes to the console, and nothing else
    changes but the count of the preamble. *)
Theorem console_output_passes cs : forall c s,
  phase (ec_comm_ctx s) = PHASE_READY_COMM ->
  preamble_count (ec_comm_ctx s) = Z.of_nat c -> (c < 4)%nat ->
  (forall l r, replicate c CR50_COMM_PREAMBLE ++ cs <>
     l ++ replicate 4 CR50_COMM_PREAMBLE ++ r) ->
  exists n, receive v cs s =
    (replicate (length cs) 0, with_comm (set_preamble_count n (ec_comm_ctx s)) s).
Proof.
  induction cs as [|ch cs IH]; intros c s Hp Hc Hlt Hno.
  { exists (Z.of_nat c). destruct s as [[] ]. cbn in *. subst.
    unfold set_preamble_count. cbn. rewrite uN_small by (change (2 ^ 8) with 256; lia). done. }
  destruct (Z.eq_dec ch CR50_COMM_PREAMBLE) as [->|Hne].
  - assert (Hc1 : (S c < 4)%nat).
    { destruct (Nat.eq_dec c 3) as [->|]; [|lia]. by destruct (Hno [] cs). }
    set (s1 := with_comm (set_preamble_count (Z.of_nat (S c)) (ec_comm_ctx s)) s).
    assert (E : ec_comm_process_packet v CR50_COMM_PREAMBLE s = (0, s1)).
    { unfold ec_comm_process_packet. rewrite (bind_run _ _ s s s) by done. cbn zeta.
      rewrite Hp, Hc, !Z.eqb_refl. cbn [negb].
      rewrite (bind_run _ _ _ tt s1) by (unfold s1; rewrite Nat2Z.inj_succ; done).
      rewrite (bind_run _ _ s1 (Z.of_nat (S c)) s1)
        by (unfold gets, s1; cbn; by rewrite uN_small by (change (2 ^ 8) with 256; lia)).
      unfold MIN_LENGTH_PREAMBLE. by destruct (Z.ltb_spec (Z.of_nat (S c)) 4); [|lia]. }
    rewrite (receive_cons _ _ _ _ _ _ E).
    destruct (IH (S c) s1) as [n En]; [done| |done| |].
    + cbn. by rewrite uN_small by (change (2 ^ 8) with 256; lia).
    + intros l r Eq. apply (Hno l r). rewrite <- Eq. change (CR50_COMM_PREAMBLE :: cs) with
        ([CR50_COMM_PREAMBLE] ++ cs). rewrite app_assoc. f_equal. symmetry. apply replicate_cons_app.
    + exists n. by rewrite En.
  - set (s1 := with_comm (set_preamble_count 0 (ec_comm_ctx s)) s).
    assert (E : ec_comm_process_packet v ch s = (0, s1)).
    { unfold ec_comm_process_packet. rewrite (bind_run _ _ s s s) by done. cbn zeta.
      rewrite Hp. by rewrite (proj2 (Z.eqb_neq _ _) Hne). }
    rewrite (receive_cons _ _ _ _ _ _ E).
    destruct (IH 0%nat s1) as [n En]; [done|done|lia| |exists n; by rewrite En].
    intros l r Eq. apply (Hno (replicate c CR50_COMM_PREAMBLE ++ ch :: l) r).
    cbn in Eq. rewrite Eq. by rewrite <- app_assoc.
Qed.
End Session.
