(* ===== verification/EcBounds.v ===== *)
(** * The bounds of the packet array, and how a packet without an answer breaks them *)

From S2P Require Import Prelude Util Vendor Crc8 CcdConfig TpmNv EcEfs EcComm EcEfsProps EcPacket EcSession.

Section Bounds.
Context {N : Type} `{!TpmNv N} `{!TpmNvLaws N}.
Variable v : bool.

Notation ec := (@ec N).
Notation efs := (@efs N).
Implicit Types s : ec.

Lemma ec_bind_assoc {S A B C} (m : ST S A) (k : A -> ST S B) (h : B -> ST S C) (x : S) :
  bind (bind m k) h x = bind m (fun a => bind (k a) h) x.
Proof. unfold bind. by destruct (m x). Qed.

(** The memory behind the packet. *)
Definition behind s : list Z := drop 39 (packet (ec_comm_ctx s)).

(** No more bytes have been received than are expected, and those fit the array. *)
Definition fits s : Prop :=
  let c := ec_comm_ctx s in
  (phase c = PHASE_RECEIVING_HEADER -> 0 <= bytes_received c < 7 /\ bytes_expected c = 7) /\
  (phase c = PHASE_RECEIVING_DATA -> 0 <= bytes_received c /\
    bytes_received c < bytes_expected c <= 39).

(** A reboot of the EC was requested just now. *)
Definition reboot_requested s : Prop :=
  board_reboot_ec_until (ec_efs s) = u64 (time_us (ec_efs s) + 0).

Lemma decode_zero p n (e e' : efs) :
  decode_packet_ v p n e = (0, e') -> board_reboot_ec_until e' = u64 (time_us e' + 0).
Proof.
  unfold decode_packet_. destruct (negb _); [discriminate|].
  destruct (_ =? CR50_COMM_CMD_SET_BOOT_MODE); [|destruct (_ =? CR50_COMM_CMD_VERIFY_HASH);
    [|discriminate]].
  - unfold ec_efs_set_boot_mode. destruct (negb _); [discriminate|]. unfold bind, gets, id.
    repeat (destruct (_ : bool); try discriminate); by intros [= <-].
  - unfold ec_efs_verify_hash. destruct (negb _); [discriminate|]. unfold bind, gets, id.
    match goal with |- context [(if ?b then _ else ret tt) e] =>
      destruct ((if b then ec_efs_refresh else ret tt) e) as [u e1] end.
    repeat (destruct (_ : bool); try discriminate); by intros [= <-].
Qed.

(** After one byte: nothing behind the array has changed, and the next byte fits too
    unless the packet was left without an answer. *)
Definition kept s s' : Prop :=
  behind s' = behind s /\ (fits s' \/ unanswered s' /\ reboot_requested s').

Lemma finish_fits r s :
  (r = 0 -> fits s) -> kept s (answered r s).
Proof.
  intros H. unfold answered, kept. destruct (nz r) eqn:E; [|apply nz_false in E; auto].
  split; [done|]. left. by split.
Qed.

Lemma decode_kept s0 s :
  behind s = behind s0 -> phase (ec_comm_ctx s) = PHASE_RECEIVING_DATA ->
  bytes_expected (ec_comm_ctx s) <= bytes_received (ec_comm_ctx s) ->
  kept s0 ((let* r := decode_received v in finish r) s).2.
Proof.
  intros Hb Hp He. rewrite bind_snd, finish_run. cbn [snd].
  unfold decode_received, on_efs, bind, gets, id.
  destruct (decode_packet_ v _ _ (ec_efs s)) as [r e] eqn:E. cbn [fst snd].
  unfold answered. destruct (nz r) eqn:Er.
  - split; [done|]. left. by split.
  - apply nz_false in Er as ->. apply decode_zero in E. split; [done|]. right. by split.
Qed.
Lemma decode_empty p n (e : efs) : ph_size p = 0 -> (decode_packet_ v p n e).1 <> 0.
Proof.
  intros Hp. unfold decode_packet_. rewrite Hp.
  repeat (destruct (_ =? _); try discriminate); discriminate.
Qed.

Lemma decode_empty_kept s0 s :
  behind s = behind s0 -> ph_size (packet (ec_comm_ctx s)) = 0 ->
  kept s0 ((let* r := decode_received v in finish r) s).2.
Proof.
  intros Hb Hp. rewrite bind_snd, finish_run. cbn [snd].
  unfold decode_received, on_efs, bind, gets, id.
  pose proof (decode_empty _ (bytes_received (ec_comm_ctx s)) (ec_efs s) Hp) as E.
  destruct (decode_packet_ v _ _ (ec_efs s)) as [r e]. cbn [fst snd] in *.
  unfold answered. rewrite (proj2 (nz_true r) E). split; [done|]. left. by split.
Qed.

Lemma store_behind ch c :
  0 <= bytes_received c < 39 -> drop 39 (packet (store_byte ch c)) = drop 39 (packet c).
Proof. intros H. cbn. apply drop_insert_lt. lia. Qed.

Lemma at_insert_or (l : list Z) i x : at_ (<[i := x]> l) (Z.of_nat i) = x \/
  at_ (<[i := x]> l) (Z.of_nat i) = 0.
Proof.
  unfold at_. rewrite Nat2Z.id. destruct (decide (i < length l)%nat) as [H|H].
  - left. rewrite nth_lookup, list_lookup_insert_eq by done. done.
  - right. rewrite nth_overflow; [done|]. rewrite length_insert. lia.
Qed.

Lemma receive_header_kept ch s :
  is_byte ch -> phase (ec_comm_ctx s) = PHASE_RECEIVING_HEADER -> fits s ->
  kept s ((let* r := receive_header v ch in finish r) s).2.
Proof.
  intros Hch Hp [Hf _]. destruct (Hf Hp) as [Hr He]. clear Hf.
  set (s1 := (set_comm (store_byte ch) s).2).
  assert (Hb : behind s1 = behind s) by (apply store_behind; lia).
  assert (Hr1 : bytes_received (ec_comm_ctx s1) = bytes_received (ec_comm_ctx s) + 1)
    by (cbn; rewrite uN_small by (change (2 ^ 8) with 256; lia); done).
  unfold receive_header. rewrite ec_bind_assoc.
  rewrite (bind_run _ _ _ tt s1), ec_bind_assoc by done.
  rewrite (bind_run _ _ s1 s1 s1) by done. cbn zeta.
  change (bytes_expected (ec_comm_ctx s1)) with (bytes_expected (ec_comm_ctx s)).
  rewrite Hr1, He.
  assert (Hfin : forall r s', behind s' = behind s -> (r = 0 -> fits s') ->
    kept s ((let* r := ret r in finish r) s').2).
  { intros r s' Hs' H. rewrite bind_snd, finish_run.
    destruct (finish_fits r s' H) as [E1 E2]. split; [exact (eq_trans E1 Hs')|exact E2]. }
  destruct (Z.ltb_spec (bytes_received (ec_comm_ctx s) + 1) 7) as [Hlt|Hge].
  { apply Hfin; [done|]. intros _. split; [|by intros H'; cbn in H'; rewrite Hp in H'].
    intros _. rewrite Hr1. change (bytes_expected (ec_comm_ctx s1)) with
      (bytes_expected (ec_comm_ctx s)). lia. }
  destruct (negb (ph_magic _ =? _)); [by apply Hfin|].
  destruct (negb (ph_version _ =? _)); [by apply Hfin|].
  destruct (Z.eqb_spec (ph_size (packet (ec_comm_ctx s1))) 0) as [H0|H0];
    [by apply decode_empty_kept|].
  destruct (Z.ltb_spec CR50_COMM_MAX_PACKET_SIZE (ph_size (packet (ec_comm_ctx s1)) + 7))
    as [H1|H1]; [by apply Hfin|].
  set (n := ph_size (packet (ec_comm_ctx s1))) in *.
  assert (Hn : 0 <= n).
  { assert (E6 : bytes_received (ec_comm_ctx s) = Z.of_nat 6) by lia.
    subst n. unfold ph_size. cbn [s1 set_comm modify snd ec_comm_ctx store_byte packet].
    rewrite E6, Nat2Z.id. unfold is_byte in Hch.
    destruct (at_insert_or (packet (ec_comm_ctx s)) 6 ch) as [E|E]; change (Z.of_nat 6) with 6 in E;
      rewrite E; lia. }
  unfold CR50_COMM_MAX_PACKET_SIZE, sizeof_cr50_comm_packet, CR50_COMM_MAX_DATA_SIZE in H1.
  split; [done|]. left. split; [done|]. intros _.
  change (0 <= bytes_received (ec_comm_ctx s1) /\
    bytes_received (ec_comm_ctx s1) < u8 (7 + n) <= 39).
  rewrite Hr1, uN_small by (change (2 ^ 8) with 256; lia). lia.
Qed.

Lemma receive_data_kept ch s :
  phase (ec_comm_ctx s) = PHASE_RECEIVING_DATA -> fits s ->
  kept s ((let* r := receive_data v ch in finish r) s).2.
Proof.
  intros Hp [_ Hf]. specialize (Hf Hp).
  set (s1 := (set_comm (store_byte ch) s).2).
  assert (Hb : behind s1 = behind s) by (apply store_behind; lia).
  assert (Hr1 : bytes_received (ec_comm_ctx s1) = bytes_received (ec_comm_ctx s) + 1)
    by (cbn; rewrite uN_small by (change (2 ^ 8) with 256; lia); done).
  unfold receive_data. rewrite ec_bind_assoc.
  rewrite (bind_run _ _ _ tt s1), ec_bind_assoc by done.
  rewrite (bind_run _ _ s1 s1 s1) by done. cbn zeta.
  destruct (Z.leb_spec (bytes_expected (ec_comm_ctx s1)) (bytes_received (ec_comm_ctx s1)));
    [by apply decode_kept|].
  rewrite bind_snd, finish_run. split; [exact Hb|]. left.
  split; [by intros H'; cbn in H'; rewrite Hp in H'|]. intros _.
  change (bytes_expected (ec_comm_ctx s1)) with (bytes_expected (ec_comm_ctx s)) in *.
  change (0 <= bytes_received (ec_comm_ctx s1) /\
    bytes_received (ec_comm_ctx s1) < bytes_expected (ec_comm_ctx s) <= 39). lia.
Qed.

Lemma process_packet_kept ch s :
  is_byte ch -> fits s -> kept s (ec_comm_process_packet v ch s).2.
Proof.
  intros Hc Hs. unfold ec_comm_process_packet.
  rewrite (bind_run _ _ s s s) by done. cbn zeta.
  destruct (Z.eqb_spec (phase (ec_comm_ctx s)) PHASE_READY_COMM) as [E|_].
  { assert (Hk : forall s', behind s' = behind s ->
      phase (ec_comm_ctx s') = PHASE_READY_COMM \/
      phase (ec_comm_ctx s') = PHASE_RECEIVING_PREAMBLE -> kept s s').
    { intros s' Hb [E'|E']; (split; [done|left]; split; by rewrite E'). }
    destruct (negb _); [apply Hk; [done|by left]|]. rewrite !bind_snd.
    destruct (_ <? _); (apply Hk; [done|]); [by left|by right]. }
  destruct (Z.eqb_spec (phase (ec_comm_ctx s)) PHASE_RECEIVING_PREAMBLE) as [E|_].
  { destruct (ch =? _).
    - split; [done|]. left. split; cbn; by rewrite E.
    - destruct (receive_header_kept ch (with_comm (collect (uart (ec_comm_ctx s))
        PHASE_RECEIVING_HEADER (preamble_count (ec_comm_ctx s)) 7 (last_resp (ec_comm_ctx s))
        (packet (ec_comm_ctx s)) []) s)) as [E1 E2]; [done|done|by split|].
      split; [exact E1|exact E2]. }
  destruct (Z.eqb_spec (phase (ec_comm_ctx s)) PHASE_RECEIVING_HEADER) as [E|_];
    [by apply receive_header_kept|].
  destruct (Z.eqb_spec (phase (ec_comm_ctx s)) PHASE_RECEIVING_DATA) as [E|_];
    [by apply receive_data_kept|].
  split; [done|]. left. by split.
Qed.

(** C25. Whatever the EC sends, no byte is written behind the packet array until a packet was
    left without an answer; at that moment a reboot of the EC was requested. *)
Theorem packet_in_bounds chars : forall s,
  bytes chars -> fits s ->
  behind (receive v chars s).2 = behind s \/
  exists before after, chars = before ++ after /\
    let s1 := (receive v before s).2 in
    behind s1 = behind s /\ unanswered s1 /\ reboot_requested s1.
Proof.
  induction chars as [|ch chars IH]; intros s Hc Hs; [by left|].
  apply Forall_cons in Hc as [Hch Hc].
  destruct (process_packet_kept ch s Hch Hs) as [Hb H].
  destruct (ec_comm_process_packet v ch s) as [r s1] eqn:E. cbn [snd] in *.
  rewrite (receive_cons _ _ _ _ _ _ E). cbn [snd].
  destruct H as [Hf|[Hu Hr]].
  - destruct (IH s1 Hc Hf) as [Hk|(b & a & -> & Hk)]; [left; by rewrite Hk|].
    right. exists (ch :: b), a. split; [done|].
    rewrite (receive_cons _ _ _ _ _ _ E). cbn [snd]. by rewrite <- Hb.
  - right. exists [ch], chars. split; [done|].
    rewrite (receive_cons _ _ _ _ _ _ E). cbn [snd]. done.
Qed.
End Bounds.
