(* ===== verification/EcOverrun.v ===== *)
(** * What a packet without an answer leads to: the bytes that follow are written behind
    the array of the packet *)

From S2P Require Import Prelude Util Vendor Crc8 CcdConfig TpmNv EcEfs EcComm EcEfsProps EcPacket EcSession.

(** Every state of the CRC has a byte that leaves it. *)
Lemma crc_steps_onto :
  all_below 256 (fun c => existsb (fun y => crc_step (Z.of_nat y) =? Z.shiftl c 8) (seq 0 256))
  = true.
Proof. vm_compute. reflexivity. Qed.

Lemma crc8_fixed l : bytes l -> exists b, is_byte b /\ crc8 (l ++ [b]) = crc8 l.
Proof.
  intros Hl. pose proof (crc8_arg_byte l 0) as Hc. fold (crc8 l) in Hc.
  pose proof (all_below_spec 256 _ (crc8 l) crc_steps_onto Hc) as H.
  apply existsb_exists in H as (y & Hy & E). apply Z.eqb_eq in E. apply in_seq in Hy.
  exists (Z.lxor (crc8 l) (Z.of_nat y)).
  split; [apply lxor_byte; [done|unfold is_byte; lia]|].
  unfold crc8 at 1. rewrite <- crc8_arg_app by done. fold (crc8 l).
  unfold crc8_arg. cbn [fold_left]. rewrite crc8_byte_step.
  rewrite <- Z.lxor_assoc, Z.lxor_nilpotent, Z.lxor_0_l, E.
  rewrite Z.shiftr_shiftl_l, Z.sub_diag, Z.shiftl_0_r by lia. by apply uN_small.
Qed.

Lemma crc8_repeat l : bytes l ->
  exists b, is_byte b /\ forall n, crc8 (l ++ replicate n b) = crc8 l.
Proof.
  intros Hl. destruct (crc8_fixed l Hl) as (b & Hb & E). exists b. split; [done|].
  induction n as [|n IH]; [by rewrite app_nil_r|].
  change (replicate (S n) b) with ([b] ++ replicate n b). rewrite app_assoc.
  unfold crc8 in *.
  rewrite <- (crc8_arg_app (l ++ [b])), E, (crc8_arg_app l); [done|done|].
  apply bytes_app; [done|]. by apply Forall_singleton.
Qed.

Section Overrun.
Context {N : Type} `{!TpmNv N} `{!TpmNvLaws N}.
Variable v : bool.

Notation ec := (@ec N).
Notation efs := (@efs N).
Implicit Types s : ec.

(** The hash of the EC is right, but the mode is NO_BOOT. *)
Definition refusing (h : list Z) (e : efs) : Prop :=
  hash_is_loaded (ec_efs_ctx e) = true /\ hash (ec_efs_ctx e) = h /\
  mode e = EC_EFS_BOOT_MODE_NO_BOOT.

Lemma verify_refused h (e : efs) :
  refusing h e -> length h = 32%nat ->
  exists e', ec_efs_verify_hash v h 32 e = (0, e') /\ refusing h e'.
Proof.
  intros (Hl & Hh & Hm) Hlen. exists (set_reboot (u64 (time_us e + 0)) e).
  split; [|split_and!; [exact Hl|exact Hh|exact Hm]].
  unfold ec_efs_verify_hash. change (32 =? SHA256_DIGEST_SIZE) with true. cbn [negb].
  rewrite (bind_run _ _ e e e) by done. rewrite Hl. cbn [negb andb].
  rewrite (bind_run _ _ e tt e) by done. rewrite (bind_run _ _ e e e) by done.
  rewrite Hh. change (Z.to_nat SHA256_DIGEST_SIZE) with 32%nat.
  rewrite (proj2 (safe_memcmp_zero h h 32 Hlen Hlen) eq_refl), Hm. reflexivity.
Qed.

Section Stuck.
Variables (u c l : Z) (h rest : list Z).
Hypothesis Hlen : length h = 32%nat.
Hypothesis Hbytes : bytes h.
Variable b : Z.

Notation w := (encode CR50_COMM_CMD_VERIFY_HASH h).

Hypothesis Hcrc : forall n, crc8 (body CR50_COMM_CMD_VERIFY_HASH h ++ replicate n b) =
  crc8 (body CR50_COMM_CMD_VERIFY_HASH h).

Lemma length_w : length w = 39%nat.
Proof. unfold encode. rewrite length_frame, Hlen. done. Qed.

(** The packet and [n] bytes more, which are over the memory behind it. *)
Definition overrun (n : nat) : list Z := w ++ replicate n b ++ drop n rest.

Definition stuck (n : nat) (r : Z) s : ec :=
  with_comm (mkComm u PHASE_RECEIVING_DATA c r 39 l (overrun n)) s.

Lemma overrun_decodes n (e : efs) : refusing h e -> (n <= 216)%nat ->
  exists e', decode_packet_ v (overrun n) (39 + Z.of_nat n) e = (0, e') /\ refusing h e'.
Proof.
  intros He Hn.
  destruct (frame_fields (crc8 (body CR50_COMM_CMD_VERIFY_HASH h)) CR50_COMM_CMD_VERIFY_HASH h
    (replicate n b ++ drop n rest) ltac:(done)) as (E1 & E2 & E3 & E4 & _).
  fold w in E1, E2, E3, E4. fold (overrun n) in E1, E2, E3, E4.
  destruct (verify_refused h e He Hlen) as (e' & Ev & He'). exists e'. split; [|done].
  unfold decode_packet_. rewrite E1, E2, E3, E4.
  assert (Es : sub 4 (Z.to_nat (39 + Z.of_nat n - offset_cmd)) (overrun n) =
    body CR50_COMM_CMD_VERIFY_HASH h ++ replicate n b).
  { unfold overrun, encode, frame, sub. rewrite <- !app_assoc. cbn [app le_bytes drop].
    rewrite app_assoc. apply take_app_length'. rewrite length_app, length_replicate.
    unfold body. rewrite !length_app, Hlen, length_le_bytes. unfold offset_cmd. cbn [length]. lia. }
  rewrite Es, Hcrc, Z.eqb_refl. cbn [negb].
  change (CR50_COMM_CMD_VERIFY_HASH =? CR50_COMM_CMD_SET_BOOT_MODE) with false.
  rewrite Z.eqb_refl. cbv iota.
  rewrite take_app_length' by done. rewrite Hlen. exact Ev.
Qed.

Lemma overrun_store n : (n < length rest)%nat ->
  <[(39 + n)%nat := b]> (overrun n) = overrun (S n).
Proof.
  intros Hn. unfold overrun. pose proof length_w as Hw.
  rewrite insert_app_r_alt by lia. f_equal.
  rewrite insert_app_r_alt by (rewrite length_replicate; lia).
  rewrite length_replicate. replace (39 + n - length w - n)%nat with 0%nat by lia.
  destruct (drop n rest) as [|x d] eqn:E.
  { apply (f_equal length) in E. rewrite length_drop in E. cbn in E. lia. }
  replace (drop (S n) rest) with d by (rewrite <- (Nat.add_1_r n), <- drop_drop, E; done).
  rewrite (replicate_S_end n b), <- app_assoc. done.
Qed.

(** One more byte: it is written, and the packet decodes as before. *)
Lemma stuck_step n s : (n < 216)%nat -> (216 <= length rest)%nat -> refusing h (ec_efs s) ->
  exists s', ec_comm_process_packet v b (stuck n (39 + Z.of_nat n) s) =
    (1, stuck (S n) (39 + Z.of_nat (S n)) s') /\
    refusing h (ec_efs s') /\ outs s' = outs s.
Proof.
  intros Hn Hr He.
  destruct (overrun_decodes (S n) (ec_efs s) He ltac:(lia)) as (e' & Ed & He').
  exists (with_efs e' s). split; [|done].
  set (s1 := stuck (S n) (39 + Z.of_nat (S n)) s).
  rewrite process_data by done. unfold receive_data.
  rewrite (bind_run _ _ _ 0 (with_efs e' s1)); [done|].
  rewrite (bind_run _ _ _ tt s1).
  - rewrite (bind_run _ _ s1 s1 s1) by done. cbn zeta.
    change (bytes_expected (ec_comm_ctx s1)) with 39.
    change (bytes_received (ec_comm_ctx s1)) with (39 + Z.of_nat (S n)).
    destruct (Z.leb_spec 39 (39 + Z.of_nat (S n))); [|lia].
    unfold decode_received. rewrite (bind_run _ _ s1 s1 s1) by done. cbn zeta.
    unfold on_efs. change (ec_efs s1) with (ec_efs s).
    change (packet (ec_comm_ctx s1)) with (overrun (S n)).
    change (bytes_received (ec_comm_ctx s1)) with (39 + Z.of_nat (S n)).
    by rewrite Ed.
  - unfold set_comm, modify, s1, stuck, store_byte, with_comm. cbn -[uN overrun].
    do 3 f_equal; [rewrite uN_small by (change (2 ^ 8) with 256; lia); lia|].
    replace (Z.to_nat (39 + Z.of_nat n)) with (39 + n)%nat by lia. apply overrun_store. lia.
Qed.

Lemma stuck_run n : forall m s, (m + n <= 216)%nat -> (216 <= length rest)%nat ->
  refusing h (ec_efs s) ->
  exists s', receive v (replicate n b) (stuck m (39 + Z.of_nat m) s) =
    (replicate n 1, stuck (m + n) (39 + Z.of_nat (m + n)) s') /\
    refusing h (ec_efs s') /\ outs s' = outs s.
Proof.
  induction n as [|n IH]; intros m s Hm Hr He.
  { exists s. rewrite Nat.add_0_r. done. }
  destruct (stuck_step m s ltac:(lia) Hr He) as (s1 & E1 & He1 & Ho1).
  destruct (IH (S m) s1 ltac:(lia) Hr He1) as (s2 & E2 & He2 & Ho2).
  exists s2. cbn [replicate]. rewrite (receive_cons _ _ _ _ _ _ E1), E2.
  rewrite Nat.add_succ_r. split; [done|]. by rewrite Ho2, Ho1.
Qed.
End Stuck.

(** C24. The code has no reset of its state after a packet without an answer: when the EC,
    while the mode is NO_BOOT, sends its right hash in a VERIFY_HASH packet, which gets no
    answer, there is one byte - the one that keeps the CRC of the packet right - which, sent
    after the packet n times for an n up to 216, before the EC is rebooted, is written each
    time behind the array of the packet, still without an answer. *)
Theorem unanswered_packet_overruns k h s :
  ready s -> (4 <= k)%nat -> bytes h -> length h = 32%nat -> refusing h (ec_efs s) ->
  exists b, is_byte b /\ forall n, (n <= 216)%nat ->
    exists flags s',
      receive v (replicate k CR50_COMM_PREAMBLE ++ encode CR50_COMM_CMD_VERIFY_HASH h ++
        replicate n b) s = (flags, s') /\
      packet (ec_comm_ctx s') = encode CR50_COMM_CMD_VERIFY_HASH h ++ replicate n b ++
        drop (39 + n) (packet (ec_comm_ctx s)) /\
      outs s' = outs s.
Proof.
  intros Hs Hk Hb Hlen He.
  assert (Hbody : bytes (body CR50_COMM_CMD_VERIFY_HASH h)).
  { unfold body. apply bytes_app; [apply bytes_le_bytes|]. apply bytes_app; [|done].
    apply Forall_singleton. unfold is_byte. lia. }
  destruct (crc8_repeat _ Hbody) as (b & Hbb & Hcrc). exists b. split; [done|]. intros n Hn.
  destruct (frame_served v k (crc8 (body CR50_COMM_CMD_VERIFY_HASH h)) CR50_COMM_CMD_VERIFY_HASH
    h s Hs Hk ltac:(done) ltac:(lia)) as (r & s1 & E1 & E2 & Hu & Hpk & H1).
  rewrite Z.eqb_refl in E2. unfold execute in E2. rewrite Hlen in E2.
  change (CR50_COMM_CMD_VERIFY_HASH =? CR50_COMM_CMD_SET_BOOT_MODE) with false in E2.
  rewrite Z.eqb_refl in E2. destruct (verify_refused h _ He Hlen) as (e' & Ev & He').
  change (Z.of_nat 32) with 32 in E2. rewrite Ev in E2. injection E2 as <- ->.
  cbn [nz negb Z.eqb] in H1. destruct H1 as (Hp & Hr & Hx & Ho). rewrite Hlen in Hr, Hx, Hpk.
  pose (rest := drop 39 (packet (ec_comm_ctx s))).
  assert (Hrest : (216 <= length rest)%nat).
  { destruct Hs as (_ & _ & Hs). unfold rest. rewrite length_drop. lia. }
  assert (Es : s1 = stuck (uart (ec_comm_ctx s1)) (preamble_count (ec_comm_ctx s1))
    (last_resp (ec_comm_ctx s1)) h rest b 0 (39 + Z.of_nat 0) s1).
  { unfold stuck, overrun. cbn [replicate app]. rewrite drop_0.
    destruct s1 as [[] ]. cbn in *. by subst. }
  destruct (stuck_run (uart (ec_comm_ctx s1)) (preamble_count (ec_comm_ctx s1))
    (last_resp (ec_comm_ctx s1)) h rest Hlen b Hcrc n 0 s1 ltac:(lia) Hrest He')
    as (s2 & E3 & _ & Ho2).
  rewrite <- Es in E3. rewrite app_assoc, receive_app. fold (encode CR50_COMM_CMD_VERIFY_HASH h) in E1.
  rewrite E1. cbn [fst snd]. rewrite E3. eexists _, _. split; [done|]. split; [|by rewrite <- Ho].
  change (overrun h rest b n = encode CR50_COMM_CMD_VERIFY_HASH h ++ replicate n b ++
    drop (39 + n) (packet (ec_comm_ctx s))). unfold overrun, rest. by rewrite drop_drop.
Qed.
End Overrun.
