(* ===== verification/EcToy.v ===== *)
(** * A concrete EC, on which the theorems about its packets are applied *)

From S2P Require Import Prelude Util Vendor Crc8 CcdConfig TpmNv EcEfs EcComm EcEfsProps EcSpec EcPacket EcSession EcBounds EcOverrun.

(** The hash of the firmware is 0, 1, ..., 31. *)
Definition toy_hash : list Z := map Z.of_nat (seq 0 32).

Definition toy_secdata : list Z :=
  let covered := [0] ++ [1; 0; 1; 0] ++ toy_hash in [0x10; 40; crc8 covered] ++ covered.

Definition toy_nv : nv_map := {[ 0x01000000 + NV_INDEX_KERNEL := toy_secdata ]}.

(** After a cold start in packet mode. *)
Definition toy_start : @ec nv_map :=
  ec_start false false true true (zeros 217)
    (mkEfs (ec_efs_ctx_init false) 0 0 false toy_nv 1000).

(** After packets with the given commands. *)
Definition after (cs : list command) : @ec nv_map := (receive false (stream cs) toy_start).2.

Definition boot_unverified : command := (5%nat, CR50_COMM_CMD_SET_BOOT_MODE, [EC_EFS_BOOT_MODE_NO_BOOT]).
Definition send_hash : command := (4%nat, CR50_COMM_CMD_VERIFY_HASH, toy_hash).

Definition toy_no_boot : @ec nv_map := after [send_hash; boot_unverified].

(** The last packet but for its last byte. *)
Definition toy_giving_up : @ec nv_map :=
  (receive false (removelast (stream [send_hash; boot_unverified])) toy_start).2.

(** Nothing but the packets is under way. *)
Definition idle (s : @ec nv_map) : @sys nv_map := mkSys s None None false.

Lemma toy_ok s : s = toy_giving_up \/ s = toy_no_boot -> sys_ok false (idle s).
Proof.
  intros [-> | ->]; (split; [split; [split; [split; vm_compute; [discriminate|reflexivity]|reflexivity]
      |apply Nat.leb_le; reflexivity]| |]); vm_compute; intros; reflexivity.
Qed.



(** While the EC has given up, Cr50 sleeps and the EC sends its right hash. *)
Definition toy_woken (s : @ec nv_map) : @ec nv_map :=
  ec_start false true true true (zeros 217) (ec_efs s).

Example no_boot_until_reset_witness :
  ec_mode (toy_woken toy_no_boot) = EC_EFS_BOOT_MODE_NO_BOOT.
Proof.
  apply (no_boot_until_reset false (idle toy_no_boot) (idle (toy_woken toy_no_boot)));
    [|apply toy_ok; right; reflexivity|reflexivity|vm_compute; reflexivity].
  eapply star_step; [|apply star_refl]. split; [|reflexivity].
  unfold idle, toy_woken. apply (step_deep_sleep false toy_no_boot false true true (zeros 217)).
  apply Nat.leb_le. vm_compute. reflexivity.
Defined.

(** ** What an interrupt can do in the middle of a task's writes *)

(** NO_BOOT is lost: the last byte of the packet comes when the hook task, resetting the EC,
    has read the scratch register for the second time; the task writes the initial mode over
    the one that the packet has stored, and Cr50 takes it when it wakes up. *)
Example no_boot_lost :
  let x := mkSys toy_giving_up None (Some (false, ors_scratch 0)) false in
  exists x1 x2, ec_step false Quiet x x1 /\ ec_mode (dev x1) = EC_EFS_BOOT_MODE_NO_BOOT /\
    star (ec_step false Quiet) x1 x2 /\ ec_mode (dev x2) = EC_EFS_BOOT_MODE_NORMAL.
Proof.
  pose proof (step_char false (mkSys toy_giving_up None (Some (false, ors_scratch 0)) false) 1) as H1.
  cbn [dev] in H1. set (x1 := by_packet _ _) in H1. exists x1.
  pose proof (step_clear false (dev x1) None (raced x1) false (ors_scratch 0)
    (on_efs (clear_step false false (ors_scratch 0)) (dev x1)).1
    (on_efs (clear_step false false (ors_scratch 0)) (dev x1)).2 (surjective_pairing _)) as H2.
  set (s2 := (on_efs (clear_step false false (ors_scratch 0)) (dev x1)).2) in H2.
  exists (mkSys (toy_woken s2) None None false).
  split; [|split; [vm_compute; reflexivity|split]].
  - apply H1; [vm_compute; reflexivity|unfold is_byte; lia].
  - eapply star_step; [exact H2|]. eapply star_step; [|apply star_refl].
    apply (step_deep_sleep false s2 (raced x1) true true (zeros 217)).
    apply Nat.leb_le. reflexivity.
  - vm_compute. reflexivity.
Qed.

(** The old hash is accepted after the kernel index has been written. *)
Definition toy_sending : @ec nv_map :=
  (receive false (removelast (stream [send_hash])) toy_start).2.

Example old_hash_accepted :
  let x := mkSys toy_sending None None false in
  exists x1 x2, ec_step false Quiet x x1 /\ ec_step false Quiet x1 x2 /\
    load_ec_hash_ (nv (ec_efs (dev x1))) <> Ok toy_hash /\
    last_resp (ec_comm_ctx (dev x2)) = CR50_COMM_SUCCESS.
Proof.
  pose proof (step_write_kernel false toy_sending ∅ None false) as H1.
  set (x1 := mkSys _ (Some loads_index) None false) in H1.
  pose proof (step_char false x1 (List.last (stream [send_hash]) 0)) as H2.
  set (x2 := by_packet _ _) in H2. exists x1, x2. split; [exact H1|]. split.
  - apply H2; [vm_compute; reflexivity|]. vm_compute. split; [discriminate|reflexivity].
  - split; [vm_compute; discriminate|vm_compute; reflexivity].
Qed.

Lemma toy_start_ready : ready toy_start.
Proof. split; [|split]; [vm_compute; reflexivity..|apply Nat.leb_le; vm_compute; reflexivity]. Qed.

Example session_served_witness :
  exists flags s', receive false (stream [send_hash; boot_unverified]) toy_start = (flags, s') /\
    ready s' /\ mode (ec_efs s') = EC_EFS_BOOT_MODE_NO_BOOT /\
    outs s' = outs toy_start ++ [UartWrite 2 0; UartWrite 2 0xec; UartWrite 2 0; UartWrite 2 0xec].
Proof.
  pose proof (session_served false [send_hash; boot_unverified] toy_start
    [CR50_COMM_SUCCESS; CR50_COMM_SUCCESS] (ec_efs toy_no_boot) toy_start_ready) as H.
  destruct H as (fl & s' & E & Hr & He & Ho).
  - repeat (apply Forall_cons; split); [..|apply Forall_nil; exact I]; cbv; repeat split; lia || discriminate.
  - vm_compute. reflexivity.
  - repeat (apply Forall_cons; split); [discriminate..|apply Forall_nil; exact I].
  - exists fl, s'. split; [exact E|split; [exact Hr|split]].
    + rewrite He. vm_compute. reflexivity.
    + exact Ho.
Defined.

Example malformed_rejected_witness :
  exists flags s', receive false (replicate 4 CR50_COMM_PREAMBLE ++ [69; 68; 0; 0; 1; 0; 0]) toy_start
    = (flags, s') /\ ready s' /\ ec_efs s' = ec_efs toy_start /\
    outs s' = outs toy_start ++ reply toy_start CR50_COMM_ERROR_MAGIC.
Proof.
  apply (malformed_rejected false); [exact toy_start_ready|lia|].
  apply (bad_magic 69 [68; 0; 0; 1; 0] 0); [discriminate|reflexivity|vm_compute; discriminate].
Defined.

Example packet_in_bounds_witness :
  behind (receive false [0xec; 1] toy_start).2 = behind toy_start \/
  exists before after, [0xec; 1] = before ++ after /\
    let s1 := (receive false before toy_start).2 in
    behind s1 = behind toy_start /\ unanswered s1 /\ reboot_requested s1.
Proof.
  apply (packet_in_bounds false).
  - repeat (apply Forall_cons; split); [unfold is_byte; lia..|apply Forall_nil; exact I].
  - split; vm_compute; discriminate.
Defined.

Lemma toy_no_boot_ready : ready toy_no_boot.
Proof. split; [|split]; [vm_compute; reflexivity..|apply Nat.leb_le; vm_compute; reflexivity]. Qed.

Example unanswered_packet_overruns_witness :
  exists b, is_byte b /\ forall n, (n <= 216)%nat ->
    exists flags s',
      receive false (replicate 4 CR50_COMM_PREAMBLE ++
        encode CR50_COMM_CMD_VERIFY_HASH toy_hash ++ replicate n b) toy_no_boot = (flags, s') /\
      packet (ec_comm_ctx s') = encode CR50_COMM_CMD_VERIFY_HASH toy_hash ++ replicate n b ++
        drop (39 + n) (packet (ec_comm_ctx toy_no_boot)) /\
      outs s' = outs toy_no_boot.
Proof.
  apply (unanswered_packet_overruns false); [exact toy_no_boot_ready|lia| |reflexivity|].
  - apply (bool_decide_unpack (bytes toy_hash)). vm_compute. exact I.
  - split; [|split]; vm_compute; reflexivity.
Defined.

Example console_output_passes_witness :
  exists n, receive false (str "cons") toy_start =
    (replicate 4 0, with_comm (set_preamble_count n (ec_comm_ctx toy_start)) toy_start).
Proof.
  apply (console_output_passes false (str "cons") 0); [vm_compute; reflexivity..|lia|].
  intros l r E. apply (f_equal (fun x => bool_decide (0xec ∈ x))) in E. revert E.
  change (bool_decide (0xec ∈ replicate 0 CR50_COMM_PREAMBLE ++ str "cons")) with false.
  intros E. symmetry in E. apply bool_decide_eq_false in E. apply E.
  apply elem_of_app. right. apply elem_of_app. left. left.
Defined.
