(* ===== verification/Hash.v ===== *)
(** * The software hash functions (board/cr50/dcrypto/sha1.c, sha256.c, sha512.c)

    The functions share their contexts: a table of the algorithm, the number of bytes
    hashed, the chaining state and one block that is being filled.  Each file has its own
    transformation of a block; [update] and [final] are the same in all of them but for the
    sizes in the table. *)

From S2P Require Import Prelude.

(** *** Words (board/cr50/dcrypto/internal.h) *)

Definition ror (value bits : Z) : Z :=
  u32 (Z.lor (Z.shiftr value bits) (Z.shiftl value (32 - bits))).
Definition ror64 (value bits : Z) : Z :=
  u64 (Z.lor (Z.shiftr value bits) (Z.shiftl value (64 - bits))).
Definition rol (value bits : Z) : Z :=
  u32 (Z.lor (Z.shiftl value bits) (Z.shiftr value (32 - bits))).

(** [be32toh(b32[t])], [be64toh(b64[t])] for the first 16 words of a block. *)
Definition be_words (n : nat) (block : list Z) : list Z :=
  map (fun t => be_val (sub (n * t) n block)) (seq 0 16).

(** [state[i] += x] for all words. *)
Definition add_words (w : Z) (state x : list Z) : list Z :=
  zip_with (fun a b => uN w (a + b)) state x.

(** ** SHA-1 *)

(** The loop over [t] from 16; [W] holds the words up to [t]. *)
Fixpoint SHA1_schedule (n t : nat) (W : list Z) : list Z :=
  match n with
  | O => W
  | S n =>
      let w i := nth (t - i) W 0 in
      SHA1_schedule n (S t)
        (W ++ [rol (Z.lxor (Z.lxor (Z.lxor (w 3%nat) (w 8%nat)) (w 14%nat)) (w 16%nat)) 1])
  end.

Definition SHA1_K : list Z := [0x5A827999; 0x6ED9EBA1; 0x8F1BBCDC; 0xCA62C1D6].

Definition SHA1_round (W : list Z) (s : Z * Z * Z * Z * Z) (t : nat) : Z * Z * Z * Z * Z :=
  let '(A, B, C, D, E) := s in
  let tmp := u32 (rol A 5 + E + nth t W 0) in
  let tmp :=
    if Nat.ltb t 20 then u32 (tmp + (Z.lxor D (Z.land B (Z.lxor C D)) + at_ SHA1_K 0))
    else if Nat.ltb t 40 then u32 (tmp + (Z.lxor (Z.lxor B C) D + at_ SHA1_K 1))
    else if Nat.ltb t 60
    then u32 (tmp + (Z.lor (Z.land B C) (Z.land D (Z.lor B C)) + at_ SHA1_K 2))
    else u32 (tmp + (Z.lxor (Z.lxor B C) D + at_ SHA1_K 3)) in
  (tmp, A, rol B 30, C, D).

Definition SHA1_transform (state block : list Z) : list Z :=
  let W := SHA1_schedule 64 16 (be_words 4 block) in
  let '(A, B, C, D, E) :=
    fold_left (SHA1_round W) (seq 0 80)
      (at_ state 0, at_ state 1, at_ state 2, at_ state 3, at_ state 4) in
  add_words 32 state [A; B; C; D; E].

(** ** SHA-256 *)

Definition SHA256_K : list Z :=
  [0x428a2f98; 0x71374491; 0xb5c0fbcf; 0xe9b5dba5; 0x3956c25b]
  ++ [0x59f111f1; 0x923f82a4; 0xab1c5ed5; 0xd807aa98; 0x12835b01]
  ++ [0x243185be; 0x550c7dc3; 0x72be5d74; 0x80deb1fe; 0x9bdc06a7]
  ++ [0xc19bf174; 0xe49b69c1; 0xefbe4786; 0x0fc19dc6; 0x240ca1cc]
  ++ [0x2de92c6f; 0x4a7484aa; 0x5cb0a9dc; 0x76f988da; 0x983e5152]
  ++ [0xa831c66d; 0xb00327c8; 0xbf597fc7; 0xc6e00bf3; 0xd5a79147]
  ++ [0x06ca6351; 0x14292967; 0x27b70a85; 0x2e1b2138; 0x4d2c6dfc]
  ++ [0x53380d13; 0x650a7354; 0x766a0abb; 0x81c2c92e; 0x92722c85]
  ++ [0xa2bfe8a1; 0xa81a664b; 0xc24b8b70; 0xc76c51a3; 0xd192e819]
  ++ [0xd6990624; 0xf40e3585; 0x106aa070; 0x19a4c116; 0x1e376c08]
  ++ [0x2748774c; 0x34b0bcb5; 0x391c0cb3; 0x4ed8aa4a; 0x5b9cca4f]
  ++ [0x682e6ff3; 0x748f82ee; 0x78a5636f; 0x84c87814; 0x8cc70208]
  ++ [0x90befffa; 0xa4506ceb; 0xbef9a3f7; 0xc67178f2].

Fixpoint SHA256_schedule (n t : nat) (W : list Z) : list Z :=
  match n with
  | O => W
  | S n =>
      let w i := nth (t - i) W 0 in
      let s0 := Z.lxor (Z.lxor (ror (w 15%nat) 7) (ror (w 15%nat) 18)) (Z.shiftr (w 15%nat) 3) in
      let s1 := Z.lxor (Z.lxor (ror (w 2%nat) 17) (ror (w 2%nat) 19)) (Z.shiftr (w 2%nat) 10) in
      SHA256_schedule n (S t) (W ++ [u32 (w 16%nat + s0 + w 7%nat + s1)])
  end.

(** The working variables A to H. *)
Definition vars8 : Type := Z * Z * Z * Z * Z * Z * Z * Z.

Definition SHA256_round (W : list Z) (s : vars8) (t : nat) : vars8 :=
  let '(A, B, C, D, E, F, G, H) := s in
  let s0 := Z.lxor (Z.lxor (ror A 2) (ror A 13)) (ror A 22) in
  let maj := Z.lxor (Z.lxor (Z.land A B) (Z.land A C)) (Z.land B C) in
  let t2 := u32 (s0 + maj) in
  let s1 := Z.lxor (Z.lxor (ror E 6) (ror E 11)) (ror E 25) in
  let ch := Z.lxor (Z.land E F) (Z.land (Z.lxor E (Z.ones 32)) G) in
  let t1 := u32 (H + s1 + ch + nth t SHA256_K 0 + nth t W 0) in
  (u32 (t1 + t2), A, B, C, u32 (D + t1), E, F, G).

Definition load8 (state : list Z) : vars8 :=
  (at_ state 0, at_ state 1, at_ state 2, at_ state 3, at_ state 4, at_ state 5, at_ state 6,
   at_ state 7).

Definition list8 (s : vars8) : list Z :=
  let '(A, B, C, D, E, F, G, H) := s in [A; B; C; D; E; F; G; H].

Definition SHA256_transform (state block : list Z) : list Z :=
  let W := SHA256_schedule 48 16 (be_words 4 block) in
  add_words 32 state (list8 (fold_left (SHA256_round W) (seq 0 64) (load8 state))).

(** ** SHA-512 *)

Definition SHA512_K : list Z :=
  [0x428A2F98D728AE22; 0x7137449123EF65CD; 0xB5C0FBCFEC4D3B2F; 0xE9B5DBA58189DBBC]
  ++ [0x3956C25BF348B538; 0x59F111F1B605D019; 0x923F82A4AF194F9B; 0xAB1C5ED5DA6D8118]
  ++ [0xD807AA98A3030242; 0x12835B0145706FBE; 0x243185BE4EE4B28C; 0x550C7DC3D5FFB4E2]
  ++ [0x72BE5D74F27B896F; 0x80DEB1FE3B1696B1; 0x9BDC06A725C71235; 0xC19BF174CF692694]
  ++ [0xE49B69C19EF14AD2; 0xEFBE4786384F25E3; 0x0FC19DC68B8CD5B5; 0x240CA1CC77AC9C65]
  ++ [0x2DE92C6F592B0275; 0x4A7484AA6EA6E483; 0x5CB0A9DCBD41FBD4; 0x76F988DA831153B5]
  ++ [0x983E5152EE66DFAB; 0xA831C66D2DB43210; 0xB00327C898FB213F; 0xBF597FC7BEEF0EE4]
  ++ [0xC6E00BF33DA88FC2; 0xD5A79147930AA725; 0x06CA6351E003826F; 0x142929670A0E6E70]
  ++ [0x27B70A8546D22FFC; 0x2E1B21385C26C926; 0x4D2C6DFC5AC42AED; 0x53380D139D95B3DF]
  ++ [0x650A73548BAF63DE; 0x766A0ABB3C77B2A8; 0x81C2C92E47EDAEE6; 0x92722C851482353B]
  ++ [0xA2BFE8A14CF10364; 0xA81A664BBC423001; 0xC24B8B70D0F89791; 0xC76C51A30654BE30]
  ++ [0xD192E819D6EF5218; 0xD69906245565A910; 0xF40E35855771202A; 0x106AA07032BBD1B8]
  ++ [0x19A4C116B8D2D0C8; 0x1E376C085141AB53; 0x2748774CDF8EEB99; 0x34B0BCB5E19B48A8]
  ++ [0x391C0CB3C5C95A63; 0x4ED8AA4AE3418ACB; 0x5B9CCA4F7763E373; 0x682E6FF3D6B2B8A3]
  ++ [0x748F82EE5DEFB2FC; 0x78A5636F43172F60; 0x84C87814A1F0AB72; 0x8CC702081A6439EC]
  ++ [0x90BEFFFA23631E28; 0xA4506CEBDE82BDE9; 0xBEF9A3F7B2C67915; 0xC67178F2E372532B]
  ++ [0xCA273ECEEA26619C; 0xD186B8C721C0C207; 0xEADA7DD6CDE0EB1E; 0xF57D4F7FEE6ED178]
  ++ [0x06F067AA72176FBA; 0x0A637DC5A2C898A6; 0x113F9804BEF90DAE; 0x1B710B35131C471B]
  ++ [0x28DB77F523047D84; 0x32CAAB7B40C72493; 0x3C9EBE0A15C9BEBC; 0x431D67C49C100D4C]
  ++ [0x4CC5D4BECB3E42B6; 0x597F299CFC657E2A; 0x5FCB6FAB3AD6FAEC; 0x6C44198C4A475817].

Fixpoint SHA512_schedule (n t : nat) (W : list Z) : list Z :=
  match n with
  | O => W
  | S n =>
      let w i := nth (t - i) W 0 in
      let s0 := Z.lxor (Z.lxor (ror64 (w 15%nat) 1) (ror64 (w 15%nat) 8))
                  (Z.shiftr (w 15%nat) 7) in
      let s1 := Z.lxor (Z.lxor (ror64 (w 2%nat) 19) (ror64 (w 2%nat) 61))
                  (Z.shiftr (w 2%nat) 6) in
      SHA512_schedule n (S t) (W ++ [u64 (s1 + w 7%nat + s0 + w 16%nat)])
  end.

Definition SHA512_round (W : list Z) (s : vars8) (t : nat) : vars8 :=
  let '(A, B, C, D, E, F, G, H) := s in
  let s0 := Z.lxor (Z.lxor (ror64 A 28) (ror64 A 34)) (ror64 A 39) in
  let maj := Z.lxor (Z.lxor (Z.land A B) (Z.land A C)) (Z.land B C) in
  let t2 := u64 (s0 + maj) in
  let s1 := Z.lxor (Z.lxor (ror64 E 14) (ror64 E 18)) (ror64 E 41) in
  let ch := Z.lxor (Z.land E F) (Z.land (Z.lxor E (Z.ones 64)) G) in
  let t1 := u64 (H + s1 + ch + nth t W 0 + nth t SHA512_K 0) in
  (u64 (t1 + t2), A, B, C, u64 (D + t1), E, F, G).

Definition SHA512_transform (state block : list Z) : list Z :=
  let W := SHA512_schedule 64 16 (be_words 8 block) in
  add_words 64 state (list8 (fold_left (SHA512_round W) (seq 0 80) (load8 state))).

(** ** Contexts *)

(** [struct hash_vtable], as the algorithm: its transformation and initial state, the sizes
    of a digest, a block and a word, and what is kept free for the length of the
    message. *)
Record hash_vtable := mkHash {
  transform : list Z -> list Z -> list Z;
  initial_state : list Z;
  digest_size : nat;
  block_size : nat;
  word_size : nat;
  length_room : nat
}.

Record hash_ctx := mkCtx {
  f : hash_vtable;
  count : Z;
  state : list Z;
  b8 : list Z
}.

Definition sha1_vtab : hash_vtable :=
  mkHash SHA1_transform [0x67452301; 0xEFCDAB89; 0x98BADCFE; 0x10325476; 0xC3D2E1F0]
    20 64 4 8.
Definition sha256_vtable : hash_vtable :=
  mkHash SHA256_transform
    [0x6a09e667; 0xbb67ae85; 0x3c6ef372; 0xa54ff53a;
     0x510e527f; 0x9b05688c; 0x1f83d9ab; 0x5be0cd19] 32 64 4 8.
Definition sha224_vtable : hash_vtable :=
  mkHash SHA256_transform
    [0xc1059ed8; 0x367cd507; 0x3070dd17; 0xf70e5939;
     0xffc00b31; 0x68581511; 0x64f98fa7; 0xbefa4fa4] 28 64 4 8.
Definition sha512_vtable : hash_vtable :=
  mkHash SHA512_transform
    [0x6a09e667f3bcc908; 0xbb67ae8584caa73b; 0x3c6ef372fe94f82b; 0xa54ff53a5f1d36f1;
     0x510e527fade682d1; 0x9b05688c2b3e6c1f; 0x1f83d9abfb41bd6b; 0x5be0cd19137e2179]
    64 128 8 16.
Definition sha384_vtable : hash_vtable :=
  mkHash SHA512_transform
    [0xcbbb9d5dc1059ed8; 0x629a292a367cd507; 0x9159015a3070dd17; 0x152fecd8f70e5939;
     0x67332667ffc00b31; 0x8eb44a8768581511; 0xdb0c2e0d64f98fa7; 0x47b5481dbefa4fa4]
    48 128 8 16.

(** The init functions: the block keeps what it held. *)
Definition sw_init (v : hash_vtable) (ctx : hash_ctx) : hash_ctx :=
  mkCtx v 0 (initial_state v) (b8 ctx).

Definition SHA1_sw_init : hash_ctx -> hash_ctx := sw_init sha1_vtab.
Definition SHA256_sw_init : hash_ctx -> hash_ctx := sw_init sha256_vtable.
Definition SHA224_sw_init : hash_ctx -> hash_ctx := sw_init sha224_vtable.
Definition SHA512_sw_init : hash_ctx -> hash_ctx := sw_init sha512_vtable.
Definition SHA384_sw_init : hash_ctx -> hash_ctx := sw_init sha384_vtable.

(** [HASH_reinit] *)
Definition HASH_reinit (ctx : hash_ctx) : hash_ctx := sw_init (f ctx) ctx.

(** [count & (BLOCK_SIZE - 1)] *)
Definition filled (ctx : hash_ctx) : nat :=
  Z.to_nat (Z.land (count ctx) (Z.of_nat (block_size (f ctx)) - 1)).

Definition run_transform (ctx : hash_ctx) : hash_ctx :=
  mkCtx (f ctx) (count ctx) (transform (f ctx) (state ctx) (b8 ctx)) (b8 ctx).

(** [b8[i++] = x] for all of the bytes. *)
Definition put (i : nat) (x : list Z) (ctx : hash_ctx) : hash_ctx :=
  mkCtx (f ctx) (count ctx) (state ctx) (splice i x (b8 ctx)).

Fixpoint update_loop (data : list Z) (i : nat) (ctx : hash_ctx) : hash_ctx :=
  match data with
  | [] => ctx
  | p :: data =>
      let ctx := put i [p] ctx in
      if Nat.eqb (S i) (block_size (f ctx)) then update_loop data 0 (run_transform ctx)
      else update_loop data (S i) ctx
  end.

Definition sw_update (ctx : hash_ctx) (data : list Z) : hash_ctx :=
  update_loop data (filled ctx)
    (mkCtx (f ctx) (u32 (count ctx + Z.of_nat (length data))) (state ctx) (b8 ctx)).

Definition SHA1_sw_update : hash_ctx -> list Z -> hash_ctx := sw_update.
Definition SHA256_sw_update : hash_ctx -> list Z -> hash_ctx := sw_update.
Definition SHA512_sw_update : hash_ctx -> list Z -> hash_ctx := sw_update.

(** The digest, and the context left behind: the digest is written over the block. *)
Definition sw_final (ctx : hash_ctx) : list Z * hash_ctx :=
  let v := f ctx in
  let cnt := u64 (count ctx * 8) in
  let i := filled ctx in
  let ctx := put i [0x80] ctx in
  let i := S i in
  let '(i, ctx) :=
    if Nat.ltb (block_size v - length_room v) i
    then (0%nat, run_transform (put i (zeros (block_size v - i)) ctx))
    else (i, ctx) in
  let ctx := put i (zeros (block_size v - 8 - i)) ctx in
  let ctx := put (block_size v - 8) (be_bytes 8 cnt) ctx in
  let ctx := run_transform ctx in
  let ctx := put 0 (concat (map (be_bytes (word_size v)) (state ctx))) ctx in
  (take (digest_size v) (b8 ctx), ctx).

Definition SHA1_sw_final : hash_ctx -> list Z * hash_ctx := sw_final.
Definition SHA256_sw_final : hash_ctx -> list Z * hash_ctx := sw_final.
Definition SHA512_sw_final : hash_ctx -> list Z * hash_ctx := sw_final.

(** The one-shot functions, with the context on the stack. *)
Definition sw_hash (v : hash_vtable) (data : list Z) : list Z :=
  let ctx := mkCtx v 0 [] (zeros (block_size v)) in
  fst (sw_final (sw_update (sw_init v ctx) data)).

Definition SHA1_sw_hash : list Z -> list Z := sw_hash sha1_vtab.
Definition SHA256_sw_hash : list Z -> list Z := sw_hash sha256_vtable.
Definition SHA224_sw_hash : list Z -> list Z := sw_hash sha224_vtable.
Definition SHA512_sw_hash : list Z -> list Z := sw_hash sha512_vtable.
Definition SHA384_sw_hash : list Z -> list Z := sw_hash sha384_vtable.
