(* ===== verification/HashProps.v ===== *)
(** * The software hash functions compute the standard's hash (board/cr50/dcrypto)

    [hash_spec] is the standard: the message is padded to whole blocks, the blocks are
    folded into the state, and the state is written out.  However a message is divided
    among calls of [update], the functions compute it. *)

From S2P Require Import Prelude Hash.

(** *** The standard *)

(** [k] blocks folded into a state. *)
Fixpoint hash_blocks (v : hash_vtable) (k : nat) (st msg : list Z) : list Z :=
  match k with
  | O => st
  | S k => hash_blocks v k (transform v st (take (block_size v) msg)) (drop (block_size v) msg)
  end.

(** The one bit, as few zeros as possible, and the length in bits. *)
Definition padding (v : hash_vtable) (len : nat) : list Z :=
  [0x80]
  ++ zeros (Z.to_nat ((- Z.of_nat (len + 1 + length_room v)) mod Z.of_nat (block_size v)))
  ++ be_bytes (length_room v) (8 * Z.of_nat len).

Definition state_bytes (v : hash_vtable) (st : list Z) : list Z :=
  concat (map (be_bytes (word_size v)) st).

Definition hash_spec (v : hash_vtable) (m : list Z) : list Z :=
  let p := m ++ padding v (length m) in
  take (digest_size v)
    (state_bytes v (hash_blocks v (length p / block_size v) (initial_state v) p)).

(** What the sizes of an algorithm have to satisfy. *)
Record hash_ok (v : hash_vtable) : Prop := {
  ok_pow : exists e : nat, (4 <= e <= 32)%nat /\ Z.of_nat (block_size v) = 2 ^ Z.of_nat e;
  ok_room : (8 <= length_room v < block_size v)%nat;
  ok_init : (word_size v * length (initial_state v) <= block_size v)%nat;
  ok_digest : (digest_size v <= word_size v * length (initial_state v))%nat;
  ok_transform : forall st b, length st = length (initial_state v) ->
    length (transform v st b) = length st
}.

Lemma hash_blocks_S v k st msg blk :
  length msg = (k * block_size v)%nat -> length blk = block_size v ->
  hash_blocks v (S k) st (msg ++ blk) = transform v (hash_blocks v k st msg) blk.
Proof.
  revert st msg. induction k as [|k IH]; intros st msg Hm Hb.
  - destruct msg; [|simpl in Hm; lia]. cbn [hash_blocks app].
    by rewrite take_ge by lia.
  - cbn [hash_blocks]. cbn [hash_blocks] in IH.
    rewrite <- IH by (try rewrite length_drop; lia).
    assert (block_size v <= length msg)%nat by lia.
    rewrite take_app_le, drop_app_le by lia. done.
Qed.

Lemma length_hash_blocks v k st msg :
  hash_ok v -> length st = length (initial_state v) ->
  length (hash_blocks v k st msg) = length (initial_state v).
Proof.
  intros V. revert st msg. induction k as [|k IH]; intros st msg Hs; [done|].
  cbn [hash_blocks]. apply IH. rewrite ok_transform; done.
Qed.

Lemma length_state_bytes v st : length (state_bytes v st) = (word_size v * length st)%nat.
Proof.
  unfold state_bytes. induction st as [|x st IH]; cbn [map concat length]; [lia|].
  rewrite length_app, IH, length_be_bytes. lia.
Qed.

(** *** Filling the block *)

Lemma put_prefix i x ctx p :
  take i (b8 ctx) = p -> length p = i -> (i + length x <= length (b8 ctx))%nat ->
  take (i + length x) (b8 (put i x ctx)) = p ++ x /\
  length (b8 (put i x ctx)) = length (b8 ctx).
Proof.
  intros Ht Hp Hl. cbn [put b8]. split; [|by apply length_splice].
  unfold splice. rewrite Ht, app_assoc. apply take_app_length'.
  rewrite length_app. lia.
Qed.

(** The context has taken in [m]: whole blocks are in the state, the rest is in the block. *)
Record absorbed (v : hash_vtable) (m : list Z) (i : nat) (ctx : hash_ctx) : Prop := {
  ab_f : f ctx = v;
  ab_len : length (b8 ctx) = block_size v;
  ab_parts : exists k whole tail, m = whole ++ tail /\
    length whole = (k * block_size v)%nat /\ length tail = i /\ (i < block_size v)%nat /\
    state ctx = hash_blocks v k (initial_state v) whole /\ take i (b8 ctx) = tail
}.

(** Bytes that do not complete the block. *)
Lemma absorbed_put v m i x ctx :
  absorbed v m i ctx -> (i + length x < block_size v)%nat ->
  absorbed v (m ++ x) (i + length x) (put i x ctx).
Proof.
  intros [Hf Hl (k & whole & tail & -> & Hw & Ht & Hi & Hs & Hp)] Hx.
  destruct (put_prefix i x ctx tail Hp Ht ltac:(lia)) as [E1 E2].
  constructor; [done|congruence|].
  exists k, whole, (tail ++ x). rewrite app_assoc, length_app, Ht. split_and!; auto.
Qed.

(** Bytes that complete it. *)
Lemma absorbed_block v m i x ctx :
  absorbed v m i ctx -> (i + length x = block_size v)%nat -> (0 < block_size v)%nat ->
  absorbed v (m ++ x) 0 (run_transform (put i x ctx)).
Proof.
  intros [Hf Hl (k & whole & tail & -> & Hw & Ht & Hi & Hs & Hp)] Hx Hpos.
  destruct (put_prefix i x ctx tail Hp Ht ltac:(lia)) as [E1 E2].
  assert (b8 (put i x ctx) = tail ++ x) as Eb by (rewrite <- E1, take_ge; [done|lia]).
  constructor; [done|cbn [run_transform b8]; congruence|].
  exists (S k), (whole ++ (tail ++ x)), []. rewrite app_nil_r.
  split_and!; try done; [by rewrite app_assoc|rewrite !length_app; lia|].
  rewrite hash_blocks_S by (rewrite ?length_app; lia).
  cbn [run_transform state]. rewrite Eb. cbn [put f state]. by rewrite Hs, Hf.
Qed.

Lemma update_loop_absorbed v m data i ctx :
  absorbed v m i ctx -> (0 < block_size v)%nat ->
  exists j, absorbed v (m ++ data) j (update_loop data i ctx).
Proof.
  intros A Hpos. revert m i ctx A. induction data as [|p data IH]; intros m i ctx A.
  - exists i. by rewrite app_nil_r.
  - cbn [update_loop]. change (f (put i [p] ctx)) with (f ctx).
    rewrite (ab_f _ _ _ _ A). replace (m ++ p :: data) with ((m ++ [p]) ++ data)
      by (by rewrite <- app_assoc).
    assert (i < block_size v)%nat by (destruct (ab_parts _ _ _ _ A) as (? & ? & ? & ?); tauto).
    destruct (Nat.eqb_spec (S i) (block_size v)).
    + apply IH, absorbed_block; [done|simpl; lia|done].
    + apply IH. replace (S i) with (i + length [p])%nat by (simpl; lia).
      apply absorbed_put; [done|simpl; lia].
Qed.

Lemma update_loop_count data i ctx : count (update_loop data i ctx) = count ctx.
Proof.
  revert i ctx. induction data as [|p data IH]; intros i ctx; [done|].
  cbn [update_loop]. destruct (Nat.eqb _ _); rewrite IH; done.
Qed.

(** *** The padding *)

Lemma le_bytes_widen n k x :
  0 <= x < 256 ^ Z.of_nat n -> le_bytes (n + k) x = le_bytes n x ++ zeros k.
Proof.
  revert x. induction n as [|n IH]; intros x Hx.
  - change (256 ^ Z.of_nat 0) with 1 in Hx. replace x with 0 by lia. clear.
    induction k as [|k IH]; [done|]. change (0 :: le_bytes k 0 = 0 :: zeros k).
    f_equal. exact IH.
  - rewrite pow256_S in Hx. cbn [Nat.add le_bytes app]. rewrite IH; [done|].
    split; [apply Z.div_pos; lia|apply Z.div_lt_upper_bound; lia].
Qed.

Lemma be_bytes_widen n k x :
  0 <= x < 256 ^ Z.of_nat n -> be_bytes (n + k) x = zeros k ++ be_bytes n x.
Proof.
  intros. unfold be_bytes. rewrite le_bytes_widen by done. rewrite rev_app_distr.
  f_equal. symmetry. apply replicate_as_Forall. rewrite length_rev. split; [apply length_replicate|].
  by apply Forall_rev, Forall_replicate.
Qed.

Lemma zeros_app a b : zeros a ++ zeros b = zeros (a + b).
Proof. symmetry. apply replicate_add. Qed.

(** [n] zeros, when they fill up a block. *)
Lemma padding_eq v len n k :
  hash_ok v -> (len + 1 + n + 8 = k * block_size v)%nat ->
  (length_room v - 8 <= n < block_size v + length_room v - 8)%nat ->
  Z.of_nat len < 2 ^ 32 ->
  padding v len = [0x80] ++ zeros n ++ be_bytes 8 (8 * Z.of_nat len).
Proof.
  intros V Hk Hn Hlen. unfold padding. f_equal.
  pose proof (ok_room _ V).
  replace (length_room v) with (8 + (length_room v - 8))%nat at 2 by lia.
  rewrite be_bytes_widen by (change (256 ^ Z.of_nat 8) with (2 ^ 64); lia).
  rewrite app_assoc, zeros_app. do 2 f_equal.
  replace (- Z.of_nat (len + 1 + length_room v))
    with (Z.of_nat (n - (length_room v - 8)) + (- Z.of_nat k) * Z.of_nat (block_size v)) by nia.
  rewrite Z.mod_add, Z.mod_small by lia. lia.
Qed.

(** *** The end of a hash *)

Lemma filled_absorbed v m i ctx :
  hash_ok v -> absorbed v m i ctx -> count ctx = u32 (Z.of_nat (length m)) -> filled ctx = i.
Proof.
  intros V A Hc. destruct (ok_pow _ V) as (e & He & Hb).
  destruct (ab_parts _ _ _ _ A) as (k & whole & tail & -> & Hw & Ht & Hi & _).
  unfold filled. rewrite Hc, (ab_f _ _ _ _ A), Hb.
  replace (2 ^ Z.of_nat e - 1) with (Z.ones (Z.of_nat e)) by (rewrite Z.ones_equiv; lia).
  rewrite Z.land_ones by lia. unfold uN.
  rewrite <- Znumtheory.Zmod_div_mod; try lia.
  - rewrite length_app, Hw, Ht, <- Hb, Nat2Z.inj_add, Nat2Z.inj_mul, Z.add_comm, Z.mod_add,
      Z.mod_small by lia. lia.
  - exists (2 ^ (32 - Z.of_nat e)). rewrite <- Z.pow_add_r by lia. f_equal. lia.
Qed.

Lemma absorbed_state v p ctx :
  hash_ok v -> absorbed v p 0 ctx ->
  state ctx = hash_blocks v (length p / block_size v) (initial_state v) p.
Proof.
  intros V A. destruct (ab_parts _ _ _ _ A) as (k & whole & tail & -> & Hw & Ht & Hi & Hs & _).
  apply nil_length_inv in Ht as ->. rewrite app_nil_r, Hw, Nat.div_mul by lia. done.
Qed.

(** Puts one behind the other are one. *)
Lemma put_put i x y ctx :
  (i + length x + length y <= length (b8 ctx))%nat ->
  put (i + length x) y (put i x ctx) = put i (x ++ y) ctx.
Proof.
  intros H. unfold put. cbn [f count state b8]. f_equal. unfold splice.
  assert (length (take i (b8 ctx) ++ x) = i + length x)%nat as Hl
    by (rewrite length_app, length_take; lia).
  rewrite (app_assoc (take i _) x (drop _ _)).
  rewrite take_app_length' by done. rewrite drop_app_ge, drop_drop by lia.
  rewrite Hl, length_app, <- !app_assoc. do 4 f_equal. lia.
Qed.

(** The blocks that [final] adds. *)
Lemma final_blocks v m i ctx :
  hash_ok v -> absorbed v m i ctx -> Z.of_nat (length m) < 2 ^ 32 ->
  let ctx1 := put i [0x80] ctx in
  let '(j, ctx2) :=
    if Nat.ltb (block_size v - length_room v) (S i)
    then (0%nat, run_transform (put (S i) (zeros (block_size v - S i)) ctx1))
    else (S i, ctx1) in
  let ctx3 := put j (zeros (block_size v - 8 - j)) ctx2 in
  let ctx4 := put (block_size v - 8) (be_bytes 8 (8 * Z.of_nat (length m))) ctx3 in
  absorbed v (m ++ padding v (length m)) 0 (run_transform ctx4).
Proof.
  intros V A Hm ctx1. pose proof (ok_room _ V) as Hr.
  pose proof (ab_len _ _ _ _ A) as Hb8.
  destruct (ab_parts _ _ _ _ A) as (k & whole & tail & Em & Hw & Ht & Hi & _).
  assert (length m = k * block_size v + i)%nat as Hlen by (rewrite Em, length_app; lia).
  assert (length (be_bytes 8 (8 * Z.of_nat (length m))) = 8)%nat as Hbe
    by apply length_be_bytes.
  replace (S i) with (i + length [0x80%Z])%nat in * by (simpl; lia).
  destruct (Nat.ltb_spec (block_size v - length_room v) (i + length [0x80%Z])) as [Hlt|Hge];
    unfold ctx1; cbv zeta.
  - rewrite put_put by (unfold zeros; rewrite length_replicate; simpl in *; lia).
    set (x := [0x80] ++ zeros _).
    assert (i + length x = block_size v)%nat as Hx
      by (unfold x, zeros; rewrite length_app, length_replicate; simpl in *; lia).
    pose proof (absorbed_block v m i x ctx A Hx ltac:(lia)) as A2.
    set (ctx2 := run_transform _) in *.
    set (z := zeros (block_size v - 8 - 0)).
    replace (block_size v - 8)%nat with (0 + length z)%nat
      by (unfold z, zeros; rewrite length_replicate; lia).
    assert (length z = block_size v - 8)%nat as Hz
      by (unfold z, zeros; rewrite length_replicate; lia).
    rewrite put_put by (rewrite (ab_len _ _ _ _ A2); lia).
    rewrite (padding_eq v _ (block_size v - (i + 1) + (block_size v - 8)) (k + 2))
      by (try done; simpl in *; lia).
    rewrite <- zeros_app, <- app_assoc, app_assoc, app_assoc.
    replace (block_size v - (i + 1))%nat with (block_size v - (i + length [0x80%Z]))%nat by done.
    rewrite <- (app_assoc m).
    replace (zeros (block_size v - 8)) with z by (unfold z; f_equal; lia).
    apply absorbed_block; [exact A2|rewrite length_app; lia|lia].
  - set (z := zeros _). assert (length z = block_size v - 8 - (i + length [0x80%Z]))%nat as Hz
      by (unfold z, zeros; rewrite length_replicate; lia).
    rewrite put_put by (simpl in *; lia).
    replace (block_size v - 8)%nat with (i + length ([0x80%Z] ++ z))%nat
      by (rewrite length_app; simpl in *; lia).
    rewrite put_put by (rewrite length_app; simpl in *; lia).
    rewrite (padding_eq v _ (length z) (k + 1)) by (try done; simpl in *; lia).
    replace (zeros (length z)) with z by (by rewrite Hz).
    rewrite <- app_assoc.
    apply absorbed_block; [exact A|rewrite !length_app; simpl in *; lia|lia].
Qed.

Lemma sw_final_spec v m i ctx :
  hash_ok v -> absorbed v m i ctx -> count ctx = u32 (Z.of_nat (length m)) ->
  Z.of_nat (length m) < 2 ^ 32 ->
  fst (sw_final ctx) = hash_spec v m /\
  f (snd (sw_final ctx)) = v /\ length (b8 (snd (sw_final ctx))) = block_size v.
Proof.
  intros V A Hc Hm. pose proof (final_blocks v m i ctx V A Hm) as F.
  pose proof (filled_absorbed v m i ctx V A Hc) as Hfill.
  unfold sw_final. rewrite (ab_f _ _ _ _ A), Hfill, Hc.
  rewrite (uN_small 32) by lia. rewrite (uN_small 64) by lia.
  rewrite (Z.mul_comm _ 8). cbv zeta in F |- *.
  destruct (if Nat.ltb _ _ then _ else _) as [j ctx2].
  set (ctx4 := run_transform _) in *.
  pose proof (absorbed_state v _ ctx4 V F) as Hs.
  pose proof (ab_len _ _ _ _ F) as Hl.
  pose proof (ok_init _ V). pose proof (ok_digest _ V).
  set (d := concat _).
  assert (length d = word_size v * length (initial_state v))%nat as Hd.
  { unfold d. rewrite Hs. etransitivity; [apply length_state_bytes|].
    by rewrite length_hash_blocks. }
  cbn [fst snd put f b8]. split_and!.
  - unfold splice. rewrite take_0, app_nil_l, take_app_le by lia.
    unfold hash_spec, d, state_bytes. by rewrite Hs.
  - apply (ab_f _ _ _ _ F).
  - rewrite length_splice by lia. done.
Qed.

(** *** The five functions *)

Definition hash_functions : list hash_vtable :=
  [sha1_vtab; sha256_vtable; sha224_vtable; sha512_vtable; sha384_vtable].

Lemma length_add_words w a b : length a = length b -> length (add_words w a b) = length a.
Proof. intros. unfold add_words. rewrite length_zip_with. lia. Qed.

Lemma length_list8 s : length (list8 s) = 8%nat.
Proof. by destruct s as [[[[[[[? ?] ?] ?] ?] ?] ?] ?]. Qed.

Lemma hash_functions_ok v : In v hash_functions -> hash_ok v.
Proof.
  intros [<-|[<-|[<-|[<-|[<-|[]]]]]].
  all: constructor;
    [first [exists 6%nat; split; [lia|reflexivity] | exists 7%nat; split; [lia|reflexivity]]
    |vm_compute; lia|vm_compute; lia|vm_compute; lia|].
  all: cbn [transform initial_state length sha1_vtab sha256_vtable sha224_vtable
              sha512_vtable sha384_vtable]; intros st b Hst.
  - unfold SHA1_transform. destruct (fold_left _ _ _) as [[[[? ?] ?] ?] ?].
    apply length_add_words. exact Hst.
  - unfold SHA256_transform. apply length_add_words. rewrite length_list8. exact Hst.
  - unfold SHA256_transform. apply length_add_words. rewrite length_list8. exact Hst.
  - unfold SHA512_transform. apply length_add_words. rewrite length_list8. exact Hst.
  - unfold SHA512_transform. apply length_add_words. rewrite length_list8. exact Hst.
Qed.

(** A context that an init function was called on has the room of its block. *)
Definition fresh_for (v : hash_vtable) (ctx : hash_ctx) : Prop := length (b8 ctx) = block_size v.

Lemma absorbed_init v ctx : hash_ok v -> fresh_for v ctx -> absorbed v [] 0 (sw_init v ctx).
Proof.
  intros V H. pose proof (ok_room _ V). constructor; [done|done|].
  exists 0%nat, [], []. split_and!; try done. lia.
Qed.

Lemma sw_update_absorbed v m i ctx data :
  hash_ok v -> absorbed v m i ctx -> count ctx = u32 (Z.of_nat (length m)) ->
  (exists j, absorbed v (m ++ data) j (sw_update ctx data)) /\
  count (sw_update ctx data) = u32 (Z.of_nat (length (m ++ data))).
Proof.
  intros V A Hc. pose proof (ok_room _ V). split.
  - unfold sw_update. rewrite (filled_absorbed v m i ctx V A Hc).
    apply update_loop_absorbed; [|lia]. destruct A. by constructor.
  - unfold sw_update. rewrite update_loop_count. cbn [count]. rewrite Hc, length_app.
    unfold uN. rewrite Zplus_mod_idemp_l. f_equal. lia.
Qed.

Lemma sw_updates_absorbed v ds m i ctx :
  hash_ok v -> absorbed v m i ctx -> count ctx = u32 (Z.of_nat (length m)) ->
  let ctx' := fold_left sw_update ds ctx in
  (exists j, absorbed v (m ++ concat ds) j ctx') /\
  count ctx' = u32 (Z.of_nat (length (m ++ concat ds))).
Proof.
  intros V. revert m i ctx. induction ds as [|d ds IH]; intros m i ctx A Hc; cbn [fold_left concat].
  - rewrite app_nil_r. eauto.
  - destruct (sw_update_absorbed v m i ctx d V A Hc) as ((j & A') & Hc').
    rewrite app_assoc. by apply (IH _ j).
Qed.

(** However a message of less than 4 GB is divided among the calls of update, the digest is
    the hash of the whole message. *)
Lemma hash_updates v ctx ds :
  hash_ok v -> fresh_for v ctx -> Z.of_nat (length (concat ds)) < 2 ^ 32 ->
  let r := sw_final (fold_left sw_update ds (sw_init v ctx)) in
  fst r = hash_spec v (concat ds) /\ f (snd r) = v /\ fresh_for v (snd r).
Proof.
  intros V H Hl.
  destruct (sw_updates_absorbed v ds [] 0 (sw_init v ctx) V (absorbed_init v ctx V H) eq_refl)
    as ((j & A) & Hc).
  exact (sw_final_spec v _ j _ V A Hc Hl).
Qed.

(** *** SHA-1 with the functions of the standard *)

Definition Ch (x y z : Z) : Z := Z.lxor (Z.land x y) (Z.ldiff z x).
Definition Parity (x y z : Z) : Z := Z.lxor (Z.lxor x y) z.
Definition Maj (x y z : Z) : Z := Z.lxor (Z.lxor (Z.land x y) (Z.land x z)) (Z.land y z).

Definition fips_f (t : nat) : Z -> Z -> Z -> Z :=
  if Nat.ltb t 20 then Ch else if Nat.ltb t 40 then Parity
  else if Nat.ltb t 60 then Maj else Parity.

Definition fips_K (t : nat) : Z := at_ SHA1_K (Z.of_nat (t / 20)).

Definition fips_round (W : list Z) (s : Z * Z * Z * Z * Z) (t : nat) : Z * Z * Z * Z * Z :=
  let '(a, b, c, d, e) := s in
  (u32 (rol a 5 + fips_f t b c d + e + fips_K t + nth t W 0), a, rol b 30, c, d).

Lemma ch_eq b c d : Z.lxor d (Z.land b (Z.lxor c d)) = Ch b c d.
Proof.
  unfold Ch. apply Z.bits_inj'. intros n Hn.
  rewrite !Z.lxor_spec, !Z.land_spec, Z.lxor_spec, Z.ldiff_spec.
  by destruct (Z.testbit b n), (Z.testbit c n), (Z.testbit d n).
Qed.

Lemma maj_eq b c d : Z.lor (Z.land b c) (Z.land d (Z.lor b c)) = Maj b c d.
Proof.
  unfold Maj. apply Z.bits_inj'. intros n Hn.
  rewrite !Z.lxor_spec, !Z.lor_spec, !Z.land_spec, Z.lor_spec.
  by destruct (Z.testbit b n), (Z.testbit c n), (Z.testbit d n).
Qed.

(** The rounds of the code, whose functions are written with fewer operations, are those of
    the standard. *)
Lemma SHA1_round_fips W s t : (t < 80)%nat -> SHA1_round W s t = fips_round W s t.
Proof.
  intros Ht. destruct s as [[[[a b] c] d] e]. unfold SHA1_round, fips_round. cbv zeta.
  rewrite ch_eq, maj_eq. unfold fips_f, fips_K.
  assert (forall x y, u32 (u32 x + y) = u32 (x + y)) as Hu
    by (intros; unfold uN; apply Zplus_mod_idemp_l).
  destruct (Nat.ltb_spec t 20); [|destruct (Nat.ltb_spec t 40);
    [|destruct (Nat.ltb_spec t 60)]]; rewrite Hu; do 5 f_equal.
  - rewrite Nat.div_small by lia. change (Z.of_nat 0) with 0. lia.
  - replace (t / 20)%nat with 1%nat by (apply (Nat.div_unique _ _ _ (t - 20)); lia).
    unfold Parity. change (Z.of_nat 1) with 1. lia.
  - replace (t / 20)%nat with 2%nat by (apply (Nat.div_unique _ _ _ (t - 40)); lia).
    change (Z.of_nat 2) with 2. lia.
  - replace (t / 20)%nat with 3%nat by (apply (Nat.div_unique _ _ _ (t - 60)); lia).
    unfold Parity. change (Z.of_nat 3) with 3. lia.
Qed.

Lemma SHA1_rounds_fips W s :
  fold_left (SHA1_round W) (seq 0 80) s = fold_left (fips_round W) (seq 0 80) s.
Proof.
  assert (Forall (fun t => t < 80)%nat (seq 0 80)) as H
    by (apply Forall_seq; lia).
  revert s H. generalize (seq 0 80). intros l. induction l as [|t l IH]; intros s H; [done|].
  apply Forall_cons in H as [Ht H]. cbn [fold_left]. rewrite SHA1_round_fips by done. auto.
Qed.

(** *** Test vectors of the standard *)

Definition abc : list Z := [0x61; 0x62; 0x63].

Example sha1_abc : be_val (SHA1_sw_hash abc) = 0xa9993e364706816aba3e25717850c26c9cd0d89d.
Proof. vm_compute. reflexivity. Qed.

Example sha256_abc : be_val (SHA256_sw_hash abc) =
  0xba7816bf8f01cfea414140de5dae2223b00361a396177a9cb410ff61f20015ad.
Proof. vm_compute. reflexivity. Qed.

Example sha224_abc : be_val (SHA224_sw_hash abc) =
  0x23097d223405d8228642a477bda255b32aadbce4bda0b3f7e36c9da7.
Proof. vm_compute. reflexivity. Qed.

Example sha512_abc : be_val (SHA512_sw_hash abc) =
  0xddaf35a193617abacc417349ae20413112e6fa4e89a97ea20a9eeee64b55d39a2192992a274fc1a836ba3c23a3feebbd454d4423643ce80e2a9ac94fa54ca49f.
Proof. vm_compute. reflexivity. Qed.

Example sha384_abc : be_val (SHA384_sw_hash abc) =
  0xcb00753f45a35e8bb5a03d699ac65007272c32ab0eded1631a8b605a43ff5bed8086072ba1e7cc2358baeca134c825a7.
Proof. vm_compute. reflexivity. Qed.

(** *** The claim *)

(** C30. However a message of less than 4 GB is divided among the calls of update, each of the
    five hash functions returns the hash that the standard defines by padding the whole
    message and folding its blocks, and leaves a context that can be initialised again. *)
Theorem hash_incremental v ctx ds :
  In v hash_functions -> fresh_for v ctx -> Z.of_nat (length (concat ds)) < 2 ^ 32 ->
  let r := sw_final (fold_left sw_update ds (sw_init v ctx)) in
  fst r = hash_spec v (concat ds) /\ f (snd r) = v /\ fresh_for v (snd r).
Proof. intros Hv. apply hash_updates, hash_functions_ok, Hv. Qed.

Example hash_incremental_witness :
  In sha256_vtable hash_functions /\
  fst (sw_final (sw_update (sw_update (SHA256_sw_init (mkCtx sha1_vtab 7 [] (zeros 64))) [0x61])
         [0x62; 0x63])) = hash_spec sha256_vtable abc.
Proof.
  split; [right; left; reflexivity|].
  apply (hash_incremental sha256_vtable (mkCtx sha1_vtab 7 [] (zeros 64)) [[0x61]; [0x62; 0x63]]).
  - right; left; reflexivity.
  - reflexivity.
  - reflexivity.
Defined.
