(* ===== verification/HmacSpec.v ===== *)
(** * HMAC as its users see it (board/cr50/dcrypto)

    [hmac_spec] is RFC 2104 over the hashes of [HashProps].  The interface is what the
    generators and the key derivation use of HMAC-SHA256: a context that is initialised with
    a key, fed and finished; its law is that this computes [hmac_spec] of what was fed. *)

From S2P Require Import Prelude Hash HashProps.

(** ** The specification *)

Definition xor_bytes (c : Z) (l : list Z) : list Z := map (fun b => Z.lxor b c) l.

(** The key, padded to a block. *)
Definition block_key (v : hash_vtable) (k : list Z) : list Z :=
  let k' := if Nat.ltb (block_size v) (length k) then hash_spec v k else k in
  k' ++ zeros (block_size v - length k').

Definition hmac_spec (v : hash_vtable) (k m : list Z) : list Z :=
  hash_spec v (xor_bytes 0x5c (block_key v k)
    ++ hash_spec v (xor_bytes 0x36 (block_key v k) ++ m)).

Abbreviation hmac256 := (hmac_spec sha256_vtable).

(** ** The interface *)

Class HmacOps (W : Type) := {
  hmac_context : Type;
  hmac_init : list Z -> ST W hmac_context;
  hmac_update : hmac_context -> list Z -> ST W hmac_context;
  hmac_final : hmac_context -> ST W (list Z)
}.

Section Interface.
Context {W : Type} `{HmacOps W}.

Fixpoint hmac_updates (c : hmac_context) (ds : list (list Z)) : ST W hmac_context :=
  match ds with
  | [] => ret c
  | d :: ds => let* c := hmac_update c d in hmac_updates c ds
  end.

(** A whole computation. *)
Definition hmac_of (k : list Z) (ds : list (list Z)) : ST W (list Z) :=
  let* c := hmac_init k in
  let* c := hmac_updates c ds in
  hmac_final c.

End Interface.

(** Keys and messages of less than a gigabyte. *)
Definition short (l : list Z) : Prop := bytes l /\ Z.of_nat (length l) < 2 ^ 30.

Class HmacLaws (W : Type) `{HmacOps W} : Prop := {
  hmac_of_spec k ds w : short k -> short (concat ds) ->
    exists w', hmac_of k ds w = (hmac256 k (concat ds), w')
}.

(** ** Lengths *)

Lemma length_hash_spec v m : hash_ok v -> length (hash_spec v m) = digest_size v.
Proof.
  intros V. unfold hash_spec. rewrite length_take, length_state_bytes, length_hash_blocks
    by done. pose proof (ok_digest _ V). lia.
Qed.

Lemma bytes_hash_spec v m : bytes (hash_spec v m).
Proof.
  unfold hash_spec. apply Forall_take. unfold state_bytes.
  induction (hash_blocks _ _ _ _) as [|x l IH]; [constructor|].
  cbn [map concat]. apply bytes_app; [apply bytes_be_bytes|exact IH].
Qed.

Lemma sha256_ok : hash_ok sha256_vtable.
Proof. apply hash_functions_ok. right; by left. Qed.

Lemma length_hmac256 k m : length (hmac256 k m) = 32%nat.
Proof. apply (length_hash_spec _ _ sha256_ok). Qed.

Lemma bytes_hmac k m : bytes (hmac256 k m).
Proof. apply bytes_hash_spec. Qed.

Lemma short_app a b :
  bytes a -> bytes b -> Z.of_nat (length a + length b) < 2 ^ 30 -> short (a ++ b).
Proof. intros. split; [by apply bytes_app|]. rewrite length_app. lia. Qed.

Lemma short_hmac k m : short (hmac256 k m).
Proof. split; [apply bytes_hmac|]. by rewrite length_hmac256. Qed.

#[export] Hint Resolve bytes_hash_spec bytes_hmac : bytes_db.
