(* ===== verification/ShaHw.v ===== *)
(** * The hash engine and HMAC (board/cr50/dcrypto/sha_hw.c, hmac_sw.c, hash_api.c)

    One hardware engine computes SHA-1, SHA-256 and HMAC-SHA256 for one user at a time, who
    holds the flag [hw_busy].  A context is initialised for the engine when it is free and for
    the software functions of [Hash] when it is not; the table in the context says which, and
    the generic functions go through it.  HMAC is computed by the engine, or in software over
    either kind of hash. *)

From S2P Require Import Prelude Hash.

(** ** The engine *)

Definition GC_KEYMGR_SHA_CFG_EN_SHA1_MASK : Z := 0x2.
Definition GC_KEYMGR_SHA_CFG_EN_LIVESTREAM_MASK : Z := 0x10.
Definition GC_KEYMGR_SHA_CFG_EN_HMAC_MASK : Z := 0x20.
Definition GC_KEYMGR_SHA_CFG_EN_INT_EN_DONE_MASK : Z := 0x10000.

(** [enum sha_cfg] *)
Definition MODE_SHA256_LIVESTREAM : Z :=
  Z.lor GC_KEYMGR_SHA_CFG_EN_LIVESTREAM_MASK GC_KEYMGR_SHA_CFG_EN_INT_EN_DONE_MASK.
Definition MODE_SHA1_LIVESTREAM : Z :=
  Z.lor (Z.lor GC_KEYMGR_SHA_CFG_EN_LIVESTREAM_MASK GC_KEYMGR_SHA_CFG_EN_INT_EN_DONE_MASK)
    GC_KEYMGR_SHA_CFG_EN_SHA1_MASK.
Definition MODE_SHA256_ONESHOT : Z := GC_KEYMGR_SHA_CFG_EN_INT_EN_DONE_MASK.
Definition MODE_SHA1_ONESHOT : Z :=
  Z.lor GC_KEYMGR_SHA_CFG_EN_INT_EN_DONE_MASK GC_KEYMGR_SHA_CFG_EN_SHA1_MASK.
Definition MODE_HMAC_SHA256_LIVESTREAM : Z :=
  Z.lor (Z.lor GC_KEYMGR_SHA_CFG_EN_LIVESTREAM_MASK GC_KEYMGR_SHA_CFG_EN_INT_EN_DONE_MASK)
    GC_KEYMGR_SHA_CFG_EN_HMAC_MASK.

(** [KEYMGR_STALL(freq)] *)
Definition KEYMGR_STALL (freq : Z) : Z := Z.lor 0x1 (Z.shiftl freq 1).
Definition KEYMGR_STALL_25 : Z := KEYMGR_STALL 1.
Definition KEYMGR_STALL_6 : Z := KEYMGR_STALL 3.

(** The registers of [struct keymgr_sha] that the driver uses.  What was written to the
    input FIFO since the last reset is kept as bytes. *)
Record keymgr_sha := mkKeymgr {
  itop : Z;
  msglen_lo : Z;
  msglen_hi : Z;
  rand_stall : Z;
  cfg_en : Z;
  use_hidden_key : Z;
  use_cert : Z;
  key : list Z;
  fifo : list Z
}.

(** The engine: the digest registers [h] when it is done, and the addresses of buffers, on
    which its driver depends in how it feeds them. *)
Class ShaEngine := {
  h : keymgr_sha -> list Z;
  buffer_address : list Z -> Z
}.

Record sha_hw := mkShaHw {
  hw_busy : bool;
  reg : keymgr_sha
}.

Definition set_reg (g : keymgr_sha -> keymgr_sha) : ST sha_hw unit :=
  modify (fun s => mkShaHw (hw_busy s) (g (reg s))).

Definition set_itop (x : Z) (r : keymgr_sha) : keymgr_sha :=
  mkKeymgr x (msglen_lo r) (msglen_hi r) (rand_stall r) (cfg_en r) (use_hidden_key r)
    (use_cert r) (key r) (fifo r).
Definition set_msglen (lo hi : Z) (r : keymgr_sha) : keymgr_sha :=
  mkKeymgr (itop r) lo hi (rand_stall r) (cfg_en r) (use_hidden_key r) (use_cert r) (key r)
    (fifo r).
Definition set_rand_stall (x : Z) (r : keymgr_sha) : keymgr_sha :=
  mkKeymgr (itop r) (msglen_lo r) (msglen_hi r) x (cfg_en r) (use_hidden_key r)
    (use_cert r) (key r) (fifo r).
Definition set_cfg_en (x : Z) (r : keymgr_sha) : keymgr_sha :=
  mkKeymgr (itop r) (msglen_lo r) (msglen_hi r) (rand_stall r) x (use_hidden_key r)
    (use_cert r) (key r) (fifo r).
Definition set_key (hidden cert : Z) (k : list Z) (r : keymgr_sha) : keymgr_sha :=
  mkKeymgr (itop r) (msglen_lo r) (msglen_hi r) (rand_stall r) (cfg_en r) hidden cert k
    (fifo r).
Definition set_fifo (x : list Z) (r : keymgr_sha) : keymgr_sha :=
  mkKeymgr (itop r) (msglen_lo r) (msglen_hi r) (rand_stall r) (cfg_en r) (use_hidden_key r)
    (use_cert r) (key r) x.

(** Writes to the trigger register: a reset empties the engine, a stop makes it finish and
    raise [itop] (the driver polls for it).  A start changes nothing that is kept here. *)
Definition trig_reset : keymgr_sha -> keymgr_sha := set_fifo [].
Definition trig_stop : keymgr_sha -> keymgr_sha := set_itop 1.

Definition fifo_u8 (b : Z) (r : keymgr_sha) : keymgr_sha := set_fifo (fifo r ++ [b]) r.
Definition fifo_u32 (w : Z) (r : keymgr_sha) : keymgr_sha := set_fifo (fifo r ++ le_bytes 4 w) r.

Definition dcrypto_grab_sha_hw : ST sha_hw bool :=
  fun s => if hw_busy s then (false, s) else (true, mkShaHw true (reg s)).

Definition dcrypto_release_sha_hw : ST sha_hw unit := modify (fun s => mkShaHw false (reg s)).

(** The first bytes, up to an aligned address. *)
Fixpoint feed_head (a : Z) (data : list Z) (r : keymgr_sha) : Z * list Z * keymgr_sha :=
  match data with
  | b :: data' =>
      if nz (Z.land a 3) then feed_head (a + 1) data' (fifo_u8 b r) else (a, data, r)
  | [] => (a, data, r)
  end.

(** [*wp++] from memory. *)
Definition word (i : nat) (data : list Z) : Z := le_val (sub (4 * i) 4 data).

Fixpoint feed_groups (fuel : nat) (a wp_end : Z) (data : list Z) (r : keymgr_sha)
    : Z * list Z * keymgr_sha :=
  match fuel with
  | O => (a, data, r)
  | S fuel =>
      if a + 16 <? wp_end
      then feed_groups fuel (a + 16) wp_end (drop 16 data)
             (fifo_u32 (word 3 data) (fifo_u32 (word 2 data)
                (fifo_u32 (word 1 data) (fifo_u32 (word 0 data) r))))
      else (a, data, r)
  end.

Fixpoint feed_words (fuel : nat) (a wp_end : Z) (data : list Z) (r : keymgr_sha)
    : Z * list Z * keymgr_sha :=
  match fuel with
  | O => (a, data, r)
  | S fuel =>
      if a <? wp_end
      then feed_words fuel (a + 4) wp_end (drop 4 data) (fifo_u32 (word 0 data) r)
      else (a, data, r)
  end.

Fixpoint feed_tail (data : list Z) (r : keymgr_sha) : keymgr_sha :=
  match data with
  | b :: data' => feed_tail data' (fifo_u8 b r)
  | [] => r
  end.

(** [dcrypto_sha_fifo_load] from address [a]. *)
Definition fifo_load (a : Z) (data : list Z) (r : keymgr_sha) : keymgr_sha :=
  let wp_end := clear_bits 32 (a + Z.of_nat (length data)) 3 in
  let '(a, data, r) := feed_head a data r in
  let '(a, data, r) := feed_groups (length data) a wp_end data r in
  let '(a, data, r) := feed_words (length data) a wp_end data r in
  feed_tail data r.

Section Driver.
Context `{ShaEngine}.

Definition dcrypto_sha_fifo_load (data : list Z) : ST sha_hw unit :=
  set_reg (fifo_load (buffer_address data) data).

(** The digest, as the bytes of [digest_words] words. *)
Definition dcrypto_sha_wait (digest_words : nat) : ST sha_hw (list Z) :=
  set_reg trig_stop ;;;
  let* digest := gets (fun s => concat (map (le_bytes 4) (take digest_words (h (reg s))))) in
  set_reg (set_itop 0) ;;;
  set_reg trig_reset ;;;
  ret digest.

(** [hmac_key] as eight words. *)
Definition dcrypto_load_hmac_key (hmac_key : list Z) : ST sha_hw unit :=
  set_reg (set_key 0 0 (map (fun i => word i hmac_key) (seq 0 8))).

Definition dcrypto_sha_init (mode stall len : Z) : ST sha_hw unit :=
  set_reg (set_itop 0) ;;;
  set_reg trig_reset ;;;
  set_reg (set_msglen len 0) ;;;
  set_reg (set_rand_stall 0) ;;;
  set_reg (set_rand_stall stall) ;;;
  set_reg (set_cfg_en mode).

Definition dcrypto_sha_oneshot (mode : Z) (data : list Z) (digest_words : nat)
    : ST sha_hw (list Z) :=
  (if negb (Nat.eqb (length data) 0) then
     dcrypto_sha_init mode KEYMGR_STALL_6 (Z.of_nat (length data)) ;;;
     dcrypto_sha_fifo_load data
   else
     dcrypto_sha_init (Z.lor mode GC_KEYMGR_SHA_CFG_EN_LIVESTREAM_MASK) KEYMGR_STALL_6 0) ;;;
  dcrypto_sha_wait digest_words.

Definition SHA1_hw_hash (data : list Z) : ST sha_hw (list Z) :=
  let* grabbed := dcrypto_grab_sha_hw in
  if grabbed then
    let* digest := dcrypto_sha_oneshot MODE_SHA1_ONESHOT data 5 in
    dcrypto_release_sha_hw ;;; ret digest
  else ret (SHA1_sw_hash data).

Definition SHA256_hw_hash (data : list Z) : ST sha_hw (list Z) :=
  let* grabbed := dcrypto_grab_sha_hw in
  if grabbed then
    let* digest := dcrypto_sha_oneshot MODE_SHA256_ONESHOT data 8 in
    dcrypto_release_sha_hw ;;; ret digest
  else ret (SHA256_sw_hash data).

(** ** Contexts of either kind *)

(** What the pointer [f] of a context can be. *)
Inductive vtable :=
| SW (v : hash_vtable)
| hw_sha1_vtab
| HW_SHA256_VTAB
| HW_HMAC_SHA256_VTAB.

(** [union hash_ctx]: the table and the software context. *)
Record union_ctx := mkUnion {
  vt : vtable;
  hash : hash_ctx
}.

Definition HASH_size (ctx : union_ctx) : nat :=
  match vt ctx with SW v => digest_size v | hw_sha1_vtab => 20 | _ => 32 end.

Definition HASH_block_size (ctx : union_ctx) : nat :=
  match vt ctx with SW v => block_size v | _ => 64 end.

Definition use_sw (v : hash_vtable) (ctx : union_ctx) : union_ctx :=
  mkUnion (SW v) (sw_init v (hash ctx)).

Definition dcrypto_sha1_init (ctx : union_ctx) : ST sha_hw union_ctx :=
  dcrypto_sha_init MODE_SHA1_LIVESTREAM KEYMGR_STALL_6 0 ;;;
  ret (mkUnion hw_sha1_vtab (hash ctx)).

Definition dcrypto_sha256_init (ctx : union_ctx) : ST sha_hw union_ctx :=
  dcrypto_sha_init MODE_SHA256_LIVESTREAM KEYMGR_STALL_6 0 ;;;
  ret (mkUnion HW_SHA256_VTAB (hash ctx)).

Definition SHA1_hw_init (ctx : union_ctx) : ST sha_hw union_ctx :=
  let* grabbed := dcrypto_grab_sha_hw in
  if grabbed then dcrypto_sha1_init ctx else ret (use_sw sha1_vtab ctx).

Definition SHA256_hw_init (ctx : union_ctx) : ST sha_hw union_ctx :=
  let* grabbed := dcrypto_grab_sha_hw in
  if grabbed then dcrypto_sha256_init ctx else ret (use_sw sha256_vtable ctx).

(** [ctx->f->init(ctx)] *)
Definition HASH_reinit_any (ctx : union_ctx) : ST sha_hw union_ctx :=
  match vt ctx with
  | SW v => ret (use_sw v ctx)
  | hw_sha1_vtab => dcrypto_sha1_init ctx
  | HW_SHA256_VTAB | HW_HMAC_SHA256_VTAB => dcrypto_sha256_init ctx
  end.

Definition HASH_update (ctx : union_ctx) (data : list Z) : ST sha_hw union_ctx :=
  match vt ctx with
  | SW v => ret (mkUnion (SW v) (sw_update (hash ctx) data))
  | _ => dcrypto_sha_fifo_load data ;;; ret ctx
  end.

(** The digest is left in the context. *)
Definition dcrypto_sha1_final (ctx : union_ctx) : ST sha_hw (list Z * union_ctx) :=
  let* digest := dcrypto_sha_wait 5 in
  dcrypto_release_sha_hw ;;;
  ret (digest, mkUnion (vt ctx) (put 0 digest (hash ctx))).

Definition dcrypto_sha256_final (ctx : union_ctx) : ST sha_hw (list Z * union_ctx) :=
  let* digest := dcrypto_sha_wait 8 in
  dcrypto_release_sha_hw ;;;
  ret (digest, mkUnion (vt ctx) (put 0 digest (hash ctx))).

Definition HASH_final (ctx : union_ctx) : ST sha_hw (list Z * union_ctx) :=
  match vt ctx with
  | SW v => let '(digest, c) := sw_final (hash ctx) in ret (digest, mkUnion (SW v) c)
  | hw_sha1_vtab => dcrypto_sha1_final ctx
  | _ => dcrypto_sha256_final ctx
  end.

(** ** HMAC *)

(** [union hmac_ctx]: a hash context and the padded key behind it. *)
Record hmac_ctx := mkHmac {
  hctx : union_ctx;
  opad : list Z
}.

(** [opad[i] ^= w] for all words. *)
Definition xor_words (w : Z) (l : list Z) : list Z :=
  concat (map (fun i => le_bytes 4 (Z.lxor (word i l) w)) (seq 0 (length l / 4))).

Definition HMAC_sw_init (ctx : hmac_ctx) (k : list Z) : ST sha_hw hmac_ctx :=
  let block_size := HASH_block_size (hctx ctx) in
  let opad := zeros block_size in
  let* (c, opad) :=
    (if Nat.ltb block_size (length k) then
       let* c := HASH_update (hctx ctx) k in
       let* (digest, c) := HASH_final c in
       let* c := HASH_reinit_any c in
       ret (c, splice 0 (take (HASH_size c) digest) opad)
     else ret (hctx ctx, splice 0 k opad)) in
  let opad := xor_words 0x36363636 opad in
  let* c := HASH_update c opad in
  ret (mkHmac c (xor_words (Z.lxor 0x36363636 0x5c5c5c5c) opad)).

Definition HMAC_sw_final (ctx : hmac_ctx) : ST sha_hw (list Z * hmac_ctx) :=
  let block_size := HASH_block_size (hctx ctx) in
  let* (digest, c) := HASH_final (hctx ctx) in
  let* c := HASH_reinit_any c in
  let* c := HASH_update c (opad ctx) in
  let* c := HASH_update c digest in
  let* (digest, c) := HASH_final c in
  ret (digest, mkHmac c (zeros block_size)).

Definition dcrypto_hmac_final (ctx : hmac_ctx) : ST sha_hw (list Z * hmac_ctx) :=
  let* digest := dcrypto_sha_wait 8 in
  set_reg (fun r => set_key (use_hidden_key r) (use_cert r) (zeros 8) r) ;;;
  dcrypto_release_sha_hw ;;;
  ret (digest, mkHmac (mkUnion (vt (hctx ctx)) (put 0 digest (hash (hctx ctx)))) (opad ctx)).

Definition HMAC_update (ctx : hmac_ctx) (data : list Z) : ST sha_hw hmac_ctx :=
  let* c := HASH_update (hctx ctx) data in ret (mkHmac c (opad ctx)).

(** [ctx->f->hmac_final(ctx)] *)
Definition HMAC_final (ctx : hmac_ctx) : ST sha_hw (list Z * hmac_ctx) :=
  match vt (hctx ctx) with
  | HW_HMAC_SHA256_VTAB => dcrypto_hmac_final ctx
  | _ => HMAC_sw_final ctx
  end.

Definition HMAC_SHA256_sw_init (ctx : hmac_ctx) (k : list Z) : ST sha_hw hmac_ctx :=
  HMAC_sw_init (mkHmac (use_sw sha256_vtable (hctx ctx)) (opad ctx)) k.

Definition SHA256_DIGEST_SIZE : nat := 32.
Definition SHA256_BLOCK_SIZE : nat := 64.

Definition HMAC_SHA256_hw_init (ctx : hmac_ctx) (k : list Z) : ST sha_hw hmac_ctx :=
  if Nat.ltb SHA256_DIGEST_SIZE (length k) && Nat.leb (length k) SHA256_BLOCK_SIZE then
    let* c := SHA256_hw_init (hctx ctx) in
    HMAC_sw_init (mkHmac c (opad ctx)) k
  else
    let* grabbed := dcrypto_grab_sha_hw in
    if negb grabbed then HMAC_SHA256_sw_init ctx k
    else
      let* padded_key :=
        (if Nat.ltb SHA256_BLOCK_SIZE (length k)
         then dcrypto_sha_oneshot MODE_SHA256_ONESHOT k 8
         else ret (splice 0 k (zeros SHA256_DIGEST_SIZE))) in
      dcrypto_load_hmac_key padded_key ;;;
      dcrypto_sha_init MODE_HMAC_SHA256_LIVESTREAM KEYMGR_STALL_25 0 ;;;
      ret (mkHmac (mkUnion HW_HMAC_SHA256_VTAB (hash (hctx ctx))) (opad ctx)).

End Driver.
