(* ===== verification/ShaHwProps.v ===== *)
(** * HMAC on the engine, in software and mixed (board/cr50/dcrypto/sha_hw.c, hmac_sw.c)

    The driver feeds the engine the bytes of a buffer at any alignment; a hash context stands
    for the message it has taken in, on the engine and in software alike; and so does the
    context of an HMAC in software over either of them. *)

From S2P Require Import Prelude Hash HashProps HmacSpec ShaHw.

(** *** What the driver relies on

    Once done the engine holds the digest of what it was fed: of everything in livestream
    mode, and in the other mode when the length was announced and is not 0. *)
Class ShaEngineLaws (E : ShaEngine) : Prop := {
  digest_sha256 r : itop r = 1 ->
    (cfg_en r = MODE_SHA256_LIVESTREAM \/
     (cfg_en r = MODE_SHA256_ONESHOT /\ msglen_lo r = Z.of_nat (length (fifo r)) /\ fifo r <> [])) ->
    concat (map (le_bytes 4) (take 8 (h r))) = hash_spec sha256_vtable (fifo r);
  digest_sha1 r : itop r = 1 ->
    (cfg_en r = MODE_SHA1_LIVESTREAM \/
     (cfg_en r = MODE_SHA1_ONESHOT /\ msglen_lo r = Z.of_nat (length (fifo r)) /\ fifo r <> [])) ->
    concat (map (le_bytes 4) (take 5 (h r))) = hash_spec sha1_vtab (fifo r);
  digest_hmac r : itop r = 1 -> cfg_en r = MODE_HMAC_SHA256_LIVESTREAM ->
    use_hidden_key r = 0 -> use_cert r = 0 -> length (key r) = 8%nat ->
    concat (map (le_bytes 4) (take 8 (h r))) =
    hmac_spec sha256_vtable (concat (map (le_bytes 4) (key r))) (fifo r);
  buffer_address_ok data : Z.of_nat (length data) < 2 ^ 31 ->
    0 <= buffer_address data /\ buffer_address data + Z.of_nat (length data) < 2 ^ 32
}.

(** *** Words and bytes *)

Lemma le_bytes_lxor n x y :
  le_bytes n (Z.lxor x y) = zip_with Z.lxor (le_bytes n x) (le_bytes n y).
Proof.
  revert x y. induction n as [|n IH]; intros x y; [done|]. cbn [le_bytes zip_with].
  change 256 with (2 ^ 8). rewrite <- !Z.land_ones, <- !Z.shiftr_div_pow2 by lia.
  rewrite Z.shiftr_lxor, IH. f_equal.
  apply Z.bits_inj'. intros i Hi. rewrite Z.lxor_spec, !Z.land_spec, Z.lxor_spec.
  by destruct (Z.testbit x i), (Z.testbit y i), (Z.testbit (Z.ones 8) i).
Qed.

Lemma zip_with_same (c : Z) l :
  zip_with Z.lxor l (replicate (length l) c) = xor_bytes c l.
Proof. induction l as [|b l IH]; [done|]. cbn. by rewrite IH. Qed.

Lemma le_bytes_word i l :
  bytes l -> (4 * i + 4 <= length l)%nat -> le_bytes 4 (word i l) = sub (4 * i) 4 l.
Proof.
  intros Hb Hl. unfold word.
  replace 4%nat with (length (sub (4 * i) 4 l)) at 1 by (apply length_sub; lia).
  apply le_bytes_val, bytes_sub, Hb.
Qed.

Lemma concat_words n (l : list Z) (g : list Z -> list Z) :
  (forall x y, g (x ++ y) = g x ++ g y) -> g [] = [] -> length l = (4 * n)%nat ->
  concat (map (fun i => g (sub (4 * i) 4 l)) (seq 0 n)) = g l.
Proof.
  intros Hg Hn. revert l. induction n as [|n IH]; intros l Hl.
  - by destruct l.
  - cbn [seq map concat]. rewrite <- seq_shift, map_map.
    transitivity (g (take 4 l) ++ g (drop 4 l)); [|by rewrite <- Hg, take_drop].
    rewrite <- (IH (drop 4 l)) by (rewrite length_drop; lia).
    f_equal. f_equal. apply map_ext. intros i. unfold sub. rewrite drop_drop. do 3 f_equal. lia.
Qed.

Lemma xor_bytes_app c x y : xor_bytes c (x ++ y) = xor_bytes c x ++ xor_bytes c y.
Proof. apply map_app. Qed.

Lemma xor_words_bytes w c l n :
  le_bytes 4 w = [c; c; c; c] -> bytes l -> length l = (4 * n)%nat ->
  xor_words w l = xor_bytes c l.
Proof.
  intros Hw Hb Hl. unfold xor_words. rewrite Hl, Nat.mul_comm, Nat.div_mul by lia.
  rewrite <- (concat_words n l (xor_bytes c)); [|apply xor_bytes_app|done|done].
  f_equal. apply map_ext_in. intros i [_ Hi]%in_seq.
  rewrite le_bytes_lxor, le_bytes_word, Hw by (done || lia).
  rewrite <- zip_with_same, length_sub by lia. done.
Qed.

Lemma concat_key_words n l :
  bytes l -> length l = (4 * n)%nat ->
  concat (map (le_bytes 4) (map (fun i => word i l) (seq 0 n))) = l.
Proof.
  intros Hb Hl. rewrite map_map.
  etransitivity; [|exact (concat_words n l (fun x => x) (fun _ _ => eq_refl) eq_refl Hl)].
  f_equal. apply map_ext_in. intros i [_ Hi]%in_seq. apply le_bytes_word; [done|lia].
Qed.

Lemma bytes_xor c l : is_byte c -> bytes l -> bytes (xor_bytes c l).
Proof.
  intros Hc Hl. apply Forall_map. eapply Forall_impl; [exact Hl|]. intros b Hb.
  unfold is_byte in *.
  replace (Z.lxor b c) with (Z.lxor b c mod 2 ^ 8); [apply Z.mod_pos_bound; lia|].
  assert (forall x, 0 <= x < 256 -> Z.land x (Z.ones 8) = x) as E.
  { intros x Hx. rewrite Z.land_ones, Z.mod_small by lia. done. }
  rewrite <- Z.land_ones, <- (E b), <- (E c) by lia.
  apply Z.bits_inj'. intros i Hi. rewrite !Z.lxor_spec, !Z.land_spec, Z.lxor_spec.
  rewrite !Z.land_spec.
  by destruct (Z.testbit b i), (Z.testbit c i), (Z.testbit (Z.ones 8) i).
Qed.

Lemma xor_bytes_twice a b l : xor_bytes b (xor_bytes a l) = xor_bytes (Z.lxor a b) l.
Proof. unfold xor_bytes. rewrite map_map. apply map_ext. intros x. apply Z.lxor_assoc. Qed.

(** *** Feeding the engine *)

Lemma set_fifo_fifo x r : fifo (set_fifo x r) = x.
Proof. done. Qed.

Lemma set_fifo_twice x y r : set_fifo y (set_fifo x r) = set_fifo y r.
Proof. done. Qed.

Lemma set_fifo_app x y r :
  set_fifo (fifo (set_fifo (fifo r ++ x) r) ++ y) (set_fifo (fifo r ++ x) r) =
  set_fifo (fifo r ++ x ++ y) r.
Proof. rewrite app_assoc. done. Qed.

Lemma set_fifo_nil r : set_fifo (fifo r ++ []) r = r.
Proof. rewrite app_nil_r. by destruct r. Qed.

Lemma bytes_app_inv k l : bytes (k ++ l) -> bytes k /\ bytes l.
Proof. apply Forall_app. Qed.

(** A part of the data went into the FIFO. *)
Definition fed (a : Z) (data : list Z) (r : keymgr_sha) (x : Z * list Z * keymgr_sha) : Prop :=
  exists pre, data = pre ++ x.1.2 /\ x.1.1 = a + Z.of_nat (length pre) /\
    x.2 = set_fifo (fifo r ++ pre) r.

Lemma fed_here a data r : fed a data r (a, data, r).
Proof. exists []. split_and!; [done|simpl; lia|by rewrite set_fifo_nil]. Qed.

Lemma fed_more n a data r x :
  (n <= length data)%nat ->
  fed (a + Z.of_nat n) (drop n data) (set_fifo (fifo r ++ take n data) r) x ->
  fed a data r x.
Proof.
  intros Hn (p & E & Ha & Hr). exists (take n data ++ p). split_and!.
  - by rewrite <- app_assoc, <- E, take_drop.
  - rewrite Ha, length_app, length_take_le by done. lia.
  - by rewrite Hr, set_fifo_app.
Qed.

Lemma feed_head_fed a data r :
  fed a data r (feed_head a data r) /\
  ((feed_head a data r).1.2 = [] \/ (feed_head a data r).1.1 mod 4 = 0).
Proof.
  revert a r. induction data as [|b data IH]; intros a r; cbn [feed_head].
  - split; [apply fed_here|by left].
  - change (Z.land a 3) with (Z.land a (Z.ones 2)). rewrite Z.land_ones by lia.
    destruct (nz (a mod 2 ^ 2)) eqn:E.
    + destruct (IH (a + 1) (fifo_u8 b r)) as [F D]. split; [|done].
      apply (fed_more 1); [simpl; lia|exact F].
    + apply nz_false in E. split; [apply fed_here|by right].
Qed.

(** Words are fed below an aligned end. *)
Lemma words_below a (data : list Z) e :
  a mod 4 = 0 -> e mod 4 = 0 -> e <= a + Z.of_nat (length data) -> a < e ->
  a + 4 <= e /\ (4 <= length data)%nat.
Proof.
  intros Ha He Hl Hlt. pose proof (Z.div_mod a 4). pose proof (Z.div_mod e 4). lia.
Qed.

Lemma feed_words_fed fuel a e data r :
  bytes data -> a mod 4 = 0 -> e mod 4 = 0 -> e <= a + Z.of_nat (length data) ->
  fed a data r (feed_words fuel a e data r).
Proof.
  intros Hb Ha He Hl. revert a data r Hb Ha Hl.
  induction fuel as [|fuel IH]; intros a data r Hb Ha Hl; cbn [feed_words]; [apply fed_here|].
  destruct (Z.ltb_spec a e); [|apply fed_here].
  destruct (words_below a data e) as [H1 H2]; try done.
  apply (fed_more 4); [done|].
  replace (set_fifo (fifo r ++ take 4 data) r) with (fifo_u32 (word 0 data) r).
  - apply IH; [by apply Forall_drop| |rewrite length_drop; lia].
    change (Z.of_nat 4) with 4. replace (a + 4) with (a + 1 * 4) by lia. by rewrite Z.mod_add.
  - unfold fifo_u32. by rewrite le_bytes_word by (done || lia).
Qed.

Lemma feed_groups_fed fuel a e data r :
  bytes data -> a mod 4 = 0 -> e mod 4 = 0 -> e <= a + Z.of_nat (length data) ->
  fed a data r (feed_groups fuel a e data r) /\ (feed_groups fuel a e data r).1.1 mod 4 = 0.
Proof.
  intros Hb Ha He Hl. revert a data r Hb Ha Hl.
  induction fuel as [|fuel IH]; intros a data r Hb Ha Hl; cbn [feed_groups];
    [by split; [apply fed_here|]|].
  destruct (Z.ltb_spec (a + 16) e); [|by split; [apply fed_here|]].
  assert (16 <= length data)%nat by lia.
  assert ((a + 16) mod 4 = 0) as Ha' by (replace (a + 16) with (a + 4 * 4) by lia; by rewrite Z.mod_add).
  set (r' := fifo_u32 _ _).
  assert (r' = set_fifo (fifo r ++ take 16 data) r) as Er.
  { unfold r', fifo_u32. rewrite !le_bytes_word by (done || lia).
    rewrite !set_fifo_fifo, !set_fifo_twice, <- !app_assoc. do 2 f_equal.
    unfold sub. rewrite drop_0. cbn [Nat.mul Nat.add].
    by rewrite app_assoc, take_take_drop, app_assoc, take_take_drop, take_take_drop. }
  destruct (IH (a + 16) (drop 16 data) r') as [F M]; try done.
  { by apply Forall_drop. }
  { rewrite length_drop. lia. }
  split; [|done]. apply (fed_more 16); [done|]. rewrite <- Er. exact F.
Qed.

Lemma feed_tail_all data r : feed_tail data r = set_fifo (fifo r ++ data) r.
Proof.
  revert r. induction data as [|b data IH]; intros r; cbn [feed_tail].
  - by rewrite set_fifo_nil.
  - rewrite IH. apply (set_fifo_app [b] data).
Qed.

Lemma aligned_end x : 0 <= x < 2 ^ 32 -> clear_bits 32 x 3 = x - x mod 4.
Proof.
  intros Hx. unfold clear_bits.
  replace (Z.land x (Z.lxor (Z.ones 32) 3)) with (Z.shiftl (Z.shiftr x 2) 2).
  - rewrite Z.shiftl_mul_pow2, Z.shiftr_div_pow2 by lia. change (2 ^ 2) with 4.
    pose proof (Z.div_mod x 4). lia.
  - apply Z.bits_inj'. intros i Hi. rewrite Z.land_spec, Z.lxor_spec, Z.shiftl_spec by lia.
    destruct (Z.ltb_spec i 2) as [H2|H2].
    + rewrite Z.testbit_neg_r by lia. rewrite Z.ones_spec_low by lia.
      assert (i = 0 \/ i = 1) as [-> | ->] by lia; cbn; by rewrite andb_false_r.
    + rewrite Z.shiftr_spec by lia. replace (i - 2 + 2) with i by lia.
      destruct (Z.ltb_spec i 32) as [H3|H3].
      * rewrite Z.ones_spec_low by lia. change 3 with (Z.ones 2).
        rewrite Z.ones_spec_high by lia. by rewrite andb_true_r.
      * replace (Z.testbit x i) with false; [done|]. symmetry.
        rewrite <- (Z.mod_small x (2 ^ 32)) by lia. apply Z.mod_pow2_bits_high. lia.
Qed.

Lemma fed_trans a d r a2 d2 r2 x :
  fed a d r (a2, d2, r2) -> fed a2 d2 r2 x -> fed a d r x.
Proof.
  intros (p & E & Ea & Er) (q & E' & Ea' & Er'). cbn [fst snd] in *. exists (p ++ q). split_and!.
  - by rewrite <- app_assoc, <- E'.
  - rewrite Ea', Ea, length_app. lia.
  - by rewrite Er', Er, set_fifo_app.
Qed.

Lemma feed_body_fed a e d r :
  bytes d -> d = [] \/ a mod 4 = 0 -> e mod 4 = 0 -> e <= a + Z.of_nat (length d) ->
  fed a d r (let '(a, d, r) := feed_groups (length d) a e d r in feed_words (length d) a e d r).
Proof.
  intros Hb D He Hl. destruct D as [-> | Ha]; [apply fed_here|].
  destruct (feed_groups_fed (length d) a e d r Hb Ha He Hl) as [F M].
  destruct (feed_groups _ _ _ _ _) as [[a2 d2] r2].
  apply (fed_trans _ _ _ _ _ _ _ F). destruct F as (p & E & Ea & _). cbn [fst snd] in *.
  apply feed_words_fed; try done.
  - rewrite E in Hb. apply (bytes_app_inv _ _ Hb).
  - rewrite Ea. rewrite E, length_app in Hl. lia.
Qed.

(** At any address the engine is fed the bytes of the buffer, in their order. *)
Lemma fifo_load_all a data r :
  bytes data -> 0 <= a -> a + Z.of_nat (length data) < 2 ^ 32 ->
  fifo_load a data r = set_fifo (fifo r ++ data) r.
Proof.
  intros Hb Ha Hl. unfold fifo_load. rewrite aligned_end by lia.
  set (x := a + Z.of_nat (length data)) in *. set (e := x - x mod 4).
  assert (e mod 4 = 0) as He.
  { unfold e. rewrite Zminus_mod, Zmod_mod, Z.sub_diag. done. }
  assert (e <= x) as Hex by (unfold e; pose proof (Z.mod_pos_bound x 4); lia).
  destruct (feed_head_fed a data r) as [(p & Ep & Ea & Er) D].
  destruct (feed_head a data r) as [[a1 d1] r1]. cbn [fst snd] in *.
  assert (bytes d1) as Hb1 by (rewrite Ep in Hb; apply (bytes_app_inv _ _ Hb)).
  assert (a1 + Z.of_nat (length d1) = x) as Hx
    by (unfold x; rewrite Ea, Ep, length_app; lia).
  destruct (feed_body_fed a1 e d1 r1 Hb1 D He ltac:(lia)) as (q & E & _ & E3).
  destruct (feed_groups _ _ _ _ _) as [[a2 d2] r2].
  destruct (feed_words _ _ _ _ _) as [[a3 d3] r3]. cbn [fst snd] in *.
  rewrite feed_tail_all, E3, Er, Ep, E, !set_fifo_fifo, !set_fifo_twice, <- !app_assoc. done.
Qed.

(** *** Hashes of either kind *)

Definition is_hw (c : union_ctx) : bool := match vt c with SW _ => false | _ => true end.

(** The context is for [v], in one of the two ways. *)
Definition kind (v : hash_vtable) (c : union_ctx) : Prop :=
  hash_ok v /\
  (vt c = SW v \/ (vt c = HW_SHA256_VTAB /\ v = sha256_vtable) \/
   (vt c = hw_sha1_vtab /\ v = sha1_vtab)).

Lemma kind_sizes v c :
  kind v c -> HASH_size c = digest_size v /\ HASH_block_size c = block_size v.
Proof.
  unfold HASH_size, HASH_block_size.
  intros [_ [-> | [[-> ->] | [-> ->]]]]; done.
Qed.

Lemma kind_same v c c' : kind v c -> vt c' = vt c -> kind v c'.
Proof. unfold kind. intros K ->. exact K. Qed.

Lemma is_hw_same c c' : vt c' = vt c -> is_hw c' = is_hw c.
Proof. unfold is_hw. by intros ->. Qed.

(** The context [c] has taken in the message [m]. *)
Record session (v : hash_vtable) (m : list Z) (c : union_ctx) (s : sha_hw) : Prop := {
  ses_kind : kind v c;
  ses_sw : is_hw c = false -> (exists i, absorbed v m i (hash c)) /\
    count (hash c) = u32 (Z.of_nat (length m));
  ses_hw : is_hw c = true -> fifo (reg s) = m /\
    cfg_en (reg s) = match vt c with hw_sha1_vtab => MODE_SHA1_LIVESTREAM
                      | _ => MODE_SHA256_LIVESTREAM end
}.

(** What a step of one context leaves of the engine. *)
Definition keeps (c : union_ctx) (s s' : sha_hw) : Prop :=
  if is_hw c then hw_busy s' = hw_busy s else s' = s.

Lemma keeps_trans c c' s s' s'' : vt c' = vt c -> keeps c s s' -> keeps c' s' s'' -> keeps c s s''.
Proof.
  unfold keeps. intros E. rewrite (is_hw_same _ _ E). destruct (is_hw c); cbv iota; congruence.
Qed.

Lemma keeps_busy c s s' : keeps c s s' -> hw_busy s' = hw_busy s.
Proof. unfold keeps. destruct (is_hw c); cbv iota; congruence. Qed.

Section Engine.
Context {E : ShaEngine} {L : ShaEngineLaws E}.

Lemma sha_init_run mode stall len s :
  dcrypto_sha_init mode stall len s =
  (tt, mkShaHw (hw_busy s) (mkKeymgr 0 len 0 stall mode (use_hidden_key (reg s))
         (use_cert (reg s)) (key (reg s)) [])).
Proof. done. Qed.

Lemma fifo_load_run data s :
  bytes data -> Z.of_nat (length data) < 2 ^ 31 ->
  dcrypto_sha_fifo_load data s =
  (tt, mkShaHw (hw_busy s) (set_fifo (fifo (reg s) ++ data) (reg s))).
Proof.
  intros Hb Hl. unfold dcrypto_sha_fifo_load, set_reg, modify.
  destruct (buffer_address_ok data Hl). by rewrite fifo_load_all.
Qed.

Lemma wait_run n s :
  dcrypto_sha_wait n s =
  (concat (map (le_bytes 4) (take n (h (set_itop 1 (reg s))))),
   mkShaHw (hw_busy s) (set_fifo [] (set_itop 0 (reg s)))).
Proof. done. Qed.

Lemma HASH_update_session v m c s data :
  session v m c s -> bytes data -> Z.of_nat (length data) < 2 ^ 31 ->
  exists c' s', HASH_update c data s = (c', s') /\ vt c' = vt c /\ keeps c s s' /\
    session v (m ++ data) c' s'.
Proof.
  intros [K Hs Hh] Hb Hl. unfold HASH_update, keeps. pose proof K as [V D].
  unfold is_hw in *. destruct D as [D | [[D ->] | [D ->]]]; rewrite D in *.
  - destruct (Hs eq_refl) as ((i & A) & Hc).
    destruct (sw_update_absorbed v m i (hash c) data V A Hc) as [A' Hc'].
    eexists _, s. split_and!; try done.
    constructor; [split; [done|by left]|by intros _|done].
  - rewrite (bind_run _ _ s tt _ (fifo_load_run data s Hb Hl)).
    destruct (Hh eq_refl) as [<- Hc]. eexists c, _. split_and!; try done.
    constructor; [done|unfold is_hw; by rewrite D|]. intros _. rewrite D. done.
  - rewrite (bind_run _ _ s tt _ (fifo_load_run data s Hb Hl)).
    destruct (Hh eq_refl) as [<- Hc]. eexists c, _. split_and!; try done.
    constructor; [done|unfold is_hw; by rewrite D|]. intros _. rewrite D. done.
Qed.

(** After the end of a hash the engine is free, and the context can be initialised again. *)
Definition ready (v : hash_vtable) (c : union_ctx) : Prop :=
  kind v c /\ (is_hw c = false -> fresh_for v (hash c)).

Definition freed (c : union_ctx) (s s' : sha_hw) : Prop :=
  if is_hw c then hw_busy s' = false else s' = s.

Lemma ready_hw v c d : kind v c -> is_hw c = true -> ready v (mkUnion (vt c) d).
Proof. intros K H. split; [exact K|]. unfold is_hw in *. cbn [vt]. by rewrite H. Qed.

Lemma HASH_final_session v m c s :
  session v m c s -> Z.of_nat (length m) < 2 ^ 32 ->
  exists c' s', HASH_final c s = ((hash_spec v m, c'), s') /\ vt c' = vt c /\
    ready v c' /\ freed c s s'.
Proof.
  intros [K Hs Hh] Hm. unfold HASH_final, freed. pose proof K as [V D].
  destruct (is_hw c) eqn:Ehw.
  - destruct (Hh eq_refl) as [<- Hc].
    destruct D as [D | [[D ->] | [D ->]]];
      [unfold is_hw in Ehw; by rewrite D in Ehw|rewrite D in Hc|rewrite D in Hc].
    + eexists _, _. split_and!.
      { rewrite D. unfold dcrypto_sha256_final. rewrite (bind_run _ _ s _ _ (wait_run 8 s)).
      rewrite digest_sha256; [done|done|by left]. }
      all: done || by apply ready_hw.
    + eexists _, _. split_and!.
      { rewrite D. unfold dcrypto_sha1_final. rewrite (bind_run _ _ s _ _ (wait_run 5 s)).
      rewrite digest_sha1; [done|done|by left]. }
      all: done || by apply ready_hw.
  - destruct (Hs eq_refl) as ((i & A) & Hc).
    destruct D as [D | [[D _] | [D _]]];
      [rewrite D|unfold is_hw in Ehw; by rewrite D in Ehw|unfold is_hw in Ehw; by rewrite D in Ehw].
    destruct (sw_final_spec v m i (hash c) V A Hc Hm) as (E1 & E2 & E3).
    destruct (sw_final (hash c)) as [d c']. cbn [fst snd] in *. subst d.
    eexists _, s. split_and!; try done. split; [|done]. split; [done|by left].
Qed.

Lemma HASH_reinit_session v c s :
  ready v c ->
  exists c' s', HASH_reinit_any c s = (c', s') /\ vt c' = vt c /\ keeps c s s' /\
    session v [] c' s'.
Proof.
  intros [K F]. unfold HASH_reinit_any, keeps, is_hw in *. pose proof K as [V D].
  destruct D as [D | [[D ->] | [D ->]]]; rewrite D in *.
  - eexists _, s. split_and!; try done. constructor; [split; [done|by left]| |done].
    intros _. split; [|done]. exists 0%nat. by apply absorbed_init, F.
  - eexists _, _. split_and!; try done.
    constructor; [split; [done|right; by left]|done|done].
  - eexists _, _. split_and!; try done.
    constructor; [split; [done|right; by right]|done|done].
Qed.

(** *** HMAC in software over either kind *)

Lemma block_size_words v : hash_ok v -> exists n, block_size v = (4 * n)%nat /\ (4 <= n)%nat.
Proof.
  intros V. destruct (ok_pow _ V) as (e & He & Hb).
  exists (Z.to_nat (2 ^ (Z.of_nat e - 2))).
  replace (2 ^ Z.of_nat e) with (4 * 2 ^ (Z.of_nat e - 2)) in Hb
    by (change 4 with (2 ^ 2); rewrite <- Z.pow_add_r by lia; f_equal; lia).
  assert (2 ^ 2 <= 2 ^ (Z.of_nat e - 2)) by (apply Z.pow_le_mono_r; lia). lia.
Qed.

Lemma length_block_key v k :
  hash_ok v -> (digest_size v <= block_size v)%nat ->
  length (block_key v k) = block_size v.
Proof.
  intros V Hd. unfold block_key, zeros. rewrite length_app, length_replicate.
  destruct (Nat.ltb_spec (block_size v) (length k)); [rewrite length_hash_spec by done|]; lia.
Qed.

Lemma bytes_block_key v k : bytes k -> bytes (block_key v k).
Proof.
  intros Hk. unfold block_key. apply bytes_app; [|apply bytes_zeros].
  destruct (Nat.ltb _ _); [apply bytes_hash_spec|done].
Qed.

Lemma digest_le_block v : hash_ok v -> (digest_size v <= block_size v)%nat.
Proof. intros V. pose proof (ok_init _ V). pose proof (ok_digest _ V). lia. Qed.

(** The context of an HMAC that has taken in [m]. *)
Record hmac_session (v : hash_vtable) (k m : list Z) (c : hmac_ctx) (s : sha_hw) : Prop := {
  hs_session : session v (xor_bytes 0x36 (block_key v k) ++ m) (hctx c) s;
  hs_opad : opad c = xor_bytes 0x5c (block_key v k)
}.

Lemma splice_zeros k n : (length k <= n)%nat -> splice 0 k (zeros n) = k ++ zeros (n - length k).
Proof.
  intros Hk. unfold splice. rewrite take_0, app_nil_l. f_equal. cbn [Nat.add].
  unfold zeros. by rewrite drop_replicate.
Qed.

(** The key, hashed when it is longer than a block. *)
Lemma padded_key_session v c s k :
  session v [] c s -> bytes k -> Z.of_nat (length k) < 2 ^ 31 ->
  exists c' s',
    (if Nat.ltb (HASH_block_size c) (length k) then
       let* c1 := HASH_update c k in
       let* (digest, c1) := HASH_final c1 in
       let* c1 := HASH_reinit_any c1 in
       ret (c1, splice 0 (take (HASH_size c1) digest) (zeros (HASH_block_size c)))
     else ret (c, splice 0 k (zeros (HASH_block_size c)))) s = ((c', block_key v k), s') /\
    vt c' = vt c /\ session v [] c' s' /\
    (if Nat.ltb (block_size v) (length k) then freed c s s' else s' = s).
Proof.
  intros S Hb Hl. pose proof (ses_kind _ _ _ _ S) as K.
  destruct (kind_sizes v c K) as [_ Hbs]. rewrite Hbs.
  unfold block_key. destruct (Nat.ltb_spec (block_size v) (length k)) as [Hlt|Hge].
  - destruct (HASH_update_session v [] c s k S Hb Hl) as (c1 & s1 & E1 & T1 & P1 & S1).
    destruct (HASH_final_session v _ c1 s1 S1) as (c2 & s2 & E2 & T2 & R2 & F2); [simpl; lia|].
    destruct (HASH_reinit_session v c2 s2 R2) as (c3 & s3 & E3 & T3 & P3 & S3).
    rewrite (bind_run _ _ s c1 s1 E1), (bind_run _ _ s1 _ s2 E2), (bind_run _ _ s2 c3 s3 E3).
    destruct (kind_sizes v c3 (ses_kind _ _ _ _ S3)) as [Hd3 _].
    pose proof (length_hash_spec v k (proj1 K)) as Hlen.
    pose proof (digest_le_block v (proj1 K)).
    exists c3, s3. split_and!; [|congruence|done|].
    + rewrite Hd3, app_nil_l, take_ge, splice_zeros by lia. done.
    + unfold freed, keeps in *.
      rewrite (is_hw_same c c1) in F2 by done. rewrite (is_hw_same c c2) in P3 by congruence.
      revert P1 F2 P3. destruct (is_hw c); cbv iota; congruence.
  - exists c, s. split_and!; try done. unfold ret. by rewrite splice_zeros by lia.
Qed.

Lemma ipad_opad v k :
  bytes k -> hash_ok v ->
  xor_words 0x36363636 (block_key v k) = xor_bytes 0x36 (block_key v k) /\
  xor_words (Z.lxor 0x36363636 0x5c5c5c5c) (xor_bytes 0x36 (block_key v k)) =
    xor_bytes 0x5c (block_key v k).
Proof.
  intros Hk V. destruct (block_size_words v V) as (n & Hn & _).
  assert (length (block_key v k) = 4 * n)%nat as Hl
    by (rewrite length_block_key by (done || by apply digest_le_block); done).
  pose proof (bytes_block_key v k Hk) as Hb. split.
  - by apply (xor_words_bytes _ _ _ n).
  - rewrite (xor_words_bytes _ 0x6a _ n); [|done| |].
    + apply xor_bytes_twice.
    + apply bytes_xor; [unfold is_byte; lia|done].
    + unfold xor_bytes. by rewrite length_map.
Qed.

Lemma HMAC_sw_init_session v ctx s k :
  session v [] (hctx ctx) s -> bytes k -> Z.of_nat (length k) < 2 ^ 31 ->
  Z.of_nat (block_size v) < 2 ^ 31 ->
  exists ctx' s', HMAC_sw_init ctx k s = (ctx', s') /\ vt (hctx ctx') = vt (hctx ctx) /\
    hmac_session v k [] ctx' s' /\
    (if Nat.ltb (block_size v) (length k) then freed (hctx ctx) s s' else keeps (hctx ctx) s s').
Proof.
  intros S Hb Hl Hbs. pose proof (ses_kind _ _ _ _ S) as [V _].
  destruct (padded_key_session v _ s k S Hb Hl) as (c1 & s1 & E1 & T1 & S1 & F1).
  destruct (ipad_opad v k Hb V) as [Ei Eo].
  destruct (HASH_update_session v [] c1 s1 (xor_bytes 0x36 (block_key v k)) S1)
    as (c2 & s2 & E2 & T2 & P2 & S2).
  { apply bytes_xor; [unfold is_byte; lia|by apply bytes_block_key]. }
  { unfold xor_bytes. rewrite length_map, length_block_key; [done|done|].
    by apply digest_le_block. }
  unfold HMAC_sw_init. rewrite (bind_run _ _ s _ s1 E1). rewrite Ei.
  rewrite (bind_run _ _ s1 c2 s2 E2). rewrite Eo.
  eexists _, s2. split; [reflexivity|]. split_and!.
  - cbn [hctx]. congruence.
  - constructor; [|done]. by rewrite app_nil_r.
  - unfold freed, keeps in *. rewrite (is_hw_same (hctx ctx) c1) in P2 by done.
    revert F1 P2. destruct (Nat.ltb (block_size v) (length k)), (is_hw (hctx ctx)); cbv iota; congruence.
Qed.

Lemma HMAC_update_session v k m ctx s data :
  hmac_session v k m ctx s -> bytes data -> Z.of_nat (length data) < 2 ^ 31 ->
  exists ctx' s', HMAC_update ctx data s = (ctx', s') /\ vt (hctx ctx') = vt (hctx ctx) /\
    keeps (hctx ctx) s s' /\ hmac_session v k (m ++ data) ctx' s'.
Proof.
  intros [S Eo] Hb Hl. destruct (HASH_update_session v _ _ s data S Hb Hl)
    as (c & s' & E' & T & P & S').
  unfold HMAC_update. rewrite (bind_run _ _ s c s' E').
  eexists _, s'. split; [reflexivity|]. split_and!; [done|done|].
  constructor; [|done]. by rewrite <- app_assoc in S'.
Qed.

Lemma HMAC_sw_final_session v k m ctx s :
  hmac_session v k m ctx s -> bytes k -> Z.of_nat (block_size v) < 2 ^ 31 ->
  Z.of_nat (block_size v + length m) < 2 ^ 32 ->
  exists ctx' s', HMAC_sw_final ctx s = ((hmac_spec v k m, ctx'), s') /\
    freed (hctx ctx) s s' /\ vt (hctx ctx') = vt (hctx ctx).
Proof.
  intros [S Eo] Hb Hbs Hm. pose proof (ses_kind _ _ _ _ S) as [V _].
  pose proof (digest_le_block v V) as Hd.
  assert (forall c, length (xor_bytes c (block_key v k)) = block_size v) as Hx
    by (intros; unfold xor_bytes; by rewrite length_map, length_block_key).
  destruct (HASH_final_session v _ _ s S) as (c1 & s1 & E1 & T1 & R1 & F1).
  { rewrite length_app, Hx. lia. }
  destruct (HASH_reinit_session v c1 s1 R1) as (c2 & s2 & E2 & T2 & P2 & S2).
  destruct (HASH_update_session v _ c2 s2 (opad ctx) S2) as (c3 & s3 & E3 & T3 & P3 & S3).
  { rewrite Eo. apply bytes_xor; [unfold is_byte; lia|by apply bytes_block_key]. }
  { rewrite Eo, Hx. done. }
  set (d := hash_spec v _) in *.
  assert (length d = digest_size v) as Hld by by apply length_hash_spec.
  destruct (HASH_update_session v _ c3 s3 d S3) as (c4 & s4 & E4 & T4 & P4 & S4).
  { apply bytes_hash_spec. }
  { lia. }
  destruct (HASH_final_session v _ c4 s4 S4) as (c5 & s5 & E5 & T5 & R5 & F5).
  { rewrite app_nil_l, length_app, Eo, Hx. lia. }
  unfold HMAC_sw_final. rewrite (bind_run _ _ s _ s1 E1), (bind_run _ _ s1 c2 s2 E2),
    (bind_run _ _ s2 c3 s3 E3), (bind_run _ _ s3 c4 s4 E4), (bind_run _ _ s4 _ s5 E5).
  eexists _, s5. split_and!.
  - rewrite app_nil_l, Eo. reflexivity.
  - unfold freed, keeps in *.
    rewrite (is_hw_same (hctx ctx) c4) in F5 by congruence.
    rewrite (is_hw_same (hctx ctx) c3) in P4 by congruence.
    rewrite (is_hw_same (hctx ctx) c2) in P3 by congruence.
    rewrite (is_hw_same (hctx ctx) c1) in P2 by congruence.
    revert F1 P2 P3 P4 F5. destruct (is_hw (hctx ctx)); cbv iota; congruence.
  - cbn [hctx]. congruence.
Qed.

End Engine.
