(* ===== verification/ShaHwPaths.v ===== *)
(** * Every path of HMAC-SHA256 (board/cr50/dcrypto/sha_hw.c, hmac_sw.c)

    Whichever of its paths [HMAC_SHA256_hw_init] takes, the result is the specified one, and
    a user who holds the engine is not disturbed, as long as no one else runs between the two
    hashes of a software HMAC over the engine. *)

From S2P Require Import Prelude Hash HashProps HmacSpec ShaHw ShaHwProps.

Section Engine.
Context {E : ShaEngine} {L : ShaEngineLaws E}.

(** *** HMAC-SHA256 on the engine *)

(** The engine works for the context. *)
Record engine_session (k m : list Z) (c : hmac_ctx) (s : sha_hw) : Prop := {
  es_vt : vt (hctx c) = HW_HMAC_SHA256_VTAB;
  es_cfg : cfg_en (reg s) = MODE_HMAC_SHA256_LIVESTREAM;
  es_hidden : use_hidden_key (reg s) = 0;
  es_cert : use_cert (reg s) = 0;
  es_len : length (key (reg s)) = 8%nat;
  es_key : block_key sha256_vtable (concat (map (le_bytes 4) (key (reg s)))) =
           block_key sha256_vtable k;
  es_fifo : fifo (reg s) = m;
  es_busy : hw_busy s = true
}.

Lemma engine_update k m c s data :
  engine_session k m c s -> bytes data -> Z.of_nat (length data) < 2 ^ 31 ->
  exists s', HMAC_update c data s = (mkHmac (hctx c) (opad c), s') /\
    engine_session k (m ++ data) (mkHmac (hctx c) (opad c)) s'.
Proof.
  intros [] Hb Hl. unfold HMAC_update, HASH_update. rewrite es_vt0.
  rewrite (bind_run _ _ s (hctx c)
    (mkShaHw (hw_busy s) (set_fifo (fifo (reg s) ++ data) (reg s)))).
  - eexists. split; [reflexivity|]. subst m. by constructor.
  - by rewrite (bind_run _ _ s tt _ (fifo_load_run data s Hb Hl)).
Qed.

Lemma engine_final k m c s :
  engine_session k m c s ->
  exists c' s', HMAC_final c s = ((hmac_spec sha256_vtable k m, c'), s') /\ hw_busy s' = false.
Proof.
  intros []. unfold HMAC_final. rewrite es_vt0. unfold dcrypto_hmac_final.
  rewrite (bind_run _ _ s _ _ (wait_run 8 s)).
  rewrite digest_hmac;
    [|reflexivity|exact es_cfg0|exact es_hidden0|exact es_cert0|exact es_len0].
  eexists _, (mkShaHw false _). split; [|reflexivity].
  unfold hmac_spec. change (fifo (set_itop 1 (reg s))) with (fifo (reg s)).
  change (key (set_itop 1 (reg s))) with (key (reg s)). rewrite es_key0, es_fifo0. reflexivity.
Qed.

(** A key that was hashed or padded to the size of the key registers. *)
Lemma block_key_hashed k :
  (64 < length k)%nat ->
  block_key sha256_vtable (hash_spec sha256_vtable k) = block_key sha256_vtable k.
Proof.
  intros Hk. unfold block_key. rewrite (length_hash_spec _ _ sha256_ok).
  change (block_size sha256_vtable) with 64%nat. change (digest_size sha256_vtable) with 32%nat.
  destruct (Nat.ltb_spec 64 (length k)); [|lia].
  cbn [Nat.ltb Nat.leb]. rewrite (length_hash_spec _ _ sha256_ok). reflexivity.
Qed.

Lemma block_key_padded k :
  (length k <= 32)%nat ->
  block_key sha256_vtable (k ++ zeros (32 - length k)) = block_key sha256_vtable k.
Proof.
  intros Hk. unfold block_key. change (block_size sha256_vtable) with 64%nat.
  rewrite length_app. unfold zeros. rewrite length_replicate.
  destruct (Nat.ltb_spec 64 (length k + (32 - length k))); [lia|].
  destruct (Nat.ltb_spec 64 (length k)); [lia|].
  rewrite length_app, length_replicate, <- app_assoc, <- replicate_add. do 2 f_equal. lia.
Qed.

(** The key that is loaded. *)
Lemma padded_key_run k s :
  bytes k -> Z.of_nat (length k) < 2 ^ 31 -> (length k <= 32 \/ 64 < length k)%nat ->
  exists p r,
    (if Nat.ltb SHA256_BLOCK_SIZE (length k)
     then dcrypto_sha_oneshot MODE_SHA256_ONESHOT k 8
     else ret (splice 0 k (zeros SHA256_DIGEST_SIZE))) s = (p, mkShaHw (hw_busy s) r) /\
    bytes p /\ length p = 32%nat /\ block_key sha256_vtable p = block_key sha256_vtable k.
Proof.
  intros Hb Hl Hk. unfold SHA256_BLOCK_SIZE, SHA256_DIGEST_SIZE.
  destruct (Nat.ltb_spec 64 (length k)) as [Hlt|Hge].
  - exists (hash_spec sha256_vtable k). eexists. split_and!.
    + unfold dcrypto_sha_oneshot. destruct (Nat.eqb_spec (length k) 0); [lia|]. cbn [negb].
      set (s0 := mkShaHw (hw_busy s) (mkKeymgr 0 (Z.of_nat (length k)) 0 KEYMGR_STALL_6
        MODE_SHA256_ONESHOT (use_hidden_key (reg s)) (use_cert (reg s)) (key (reg s)) [])).
      rewrite (bind_run _ _ s tt (mkShaHw (hw_busy s0) (set_fifo k (reg s0)))).
      2:{ rewrite (bind_run _ _ s tt s0) by apply sha_init_run.
          by rewrite (fifo_load_run k s0 Hb Hl). }
      rewrite wait_run. rewrite digest_sha256; [reflexivity|done|].
      right. cbn. split_and!; [done|done|]. by destruct k.
    + apply bytes_hash_spec.
    + apply (length_hash_spec _ _ sha256_ok).
    + by apply block_key_hashed.
  - exists (k ++ zeros (32 - length k)), (reg s). rewrite splice_zeros by lia.
    split_and!; [by destruct s|by apply bytes_app, bytes_zeros| |apply block_key_padded; lia].
    unfold zeros. rewrite length_app, length_replicate. lia.
Qed.

Lemma engine_init ctx k s :
  hw_busy s = false -> bytes k -> Z.of_nat (length k) < 2 ^ 31 ->
  (length k <= 32 \/ 64 < length k)%nat ->
  exists ctx' s', HMAC_SHA256_hw_init ctx k s = (ctx', s') /\ engine_session k [] ctx' s'.
Proof.
  intros Hf Hb Hl Hk. unfold HMAC_SHA256_hw_init.
  replace (_ && _) with false.
  2:{ symmetry. apply andb_false_iff. unfold SHA256_DIGEST_SIZE, SHA256_BLOCK_SIZE.
      destruct Hk; [left; apply Nat.ltb_ge|right; apply Nat.leb_gt]; lia. }
  rewrite (bind_run _ _ s true (mkShaHw true (reg s))).
  2:{ unfold dcrypto_grab_sha_hw. by rewrite Hf. }
  cbn [negb].
  destruct (padded_key_run k (mkShaHw true (reg s)) Hb Hl Hk) as (p & r & E1 & Hp & Hlp & Ek).
  rewrite (bind_run _ _ _ p _ E1).
  eexists _, (mkShaHw true (mkKeymgr 0 0 0 KEYMGR_STALL_25 MODE_HMAC_SHA256_LIVESTREAM 0 0
    (map (fun i => word i p) (seq 0 8)) [])).
  split; [reflexivity|]. constructor; try reflexivity.
  cbn [reg key]. rewrite (concat_key_words 8) by done. exact Ek.
Qed.

(** *** Every path *)

(** A whole computation: the init function, the updates, the final function. *)
Fixpoint HMAC_updates (ctx : hmac_ctx) (ds : list (list Z)) : ST sha_hw hmac_ctx :=
  match ds with
  | [] => ret ctx
  | d :: ds => let* ctx := HMAC_update ctx d in HMAC_updates ctx ds
  end.

Definition hmac_run (ctx : hmac_ctx) (k : list Z) (ds : list (list Z))
    : ST sha_hw (list Z * hmac_ctx) :=
  let* ctx := HMAC_SHA256_hw_init ctx k in
  let* ctx := HMAC_updates ctx ds in
  HMAC_final ctx.

Lemma bytes_cons_inv (d : list Z) ds :
  bytes (concat (d :: ds)) -> Z.of_nat (length (concat (d :: ds))) < 2 ^ 31 ->
  bytes d /\ Z.of_nat (length d) < 2 ^ 31 /\ bytes (concat ds) /\
  Z.of_nat (length (concat ds)) < 2 ^ 31.
Proof.
  cbn [concat]. intros [Hd Hds]%bytes_app_inv Hl. rewrite length_app in Hl.
  split_and!; try done; lia.
Qed.

Lemma HMAC_updates_session v k ds : forall m ctx s,
  hmac_session v k m ctx s -> bytes (concat ds) -> Z.of_nat (length (concat ds)) < 2 ^ 31 ->
  exists ctx' s', HMAC_updates ctx ds s = (ctx', s') /\ vt (hctx ctx') = vt (hctx ctx) /\
    keeps (hctx ctx) s s' /\ hmac_session v k (m ++ concat ds) ctx' s'.
Proof.
  induction ds as [|d ds IH]; intros m ctx s S Hb Hl.
  - exists ctx, s. rewrite app_nil_r. split_and!; try done. unfold keeps. by destruct (is_hw _).
  - destruct (bytes_cons_inv d ds Hb Hl) as (Hd & Hld & Hds & Hlds).
    destruct (HMAC_update_session v k m ctx s d S Hd Hld) as (c1 & s1 & E1 & T1 & P1 & S1).
    destruct (IH _ c1 s1 S1 Hds Hlds) as (c2 & s2 & E2 & T2 & P2 & S2).
    exists c2, s2. cbn [HMAC_updates]. rewrite (bind_run _ _ s c1 s1 E1). split_and!; try done.
    + congruence.
    + by apply (keeps_trans _ (hctx c1) _ s1).
    + by rewrite <- app_assoc in S2.
Qed.

Lemma engine_updates k ds : forall m ctx s,
  engine_session k m ctx s -> bytes (concat ds) -> Z.of_nat (length (concat ds)) < 2 ^ 31 ->
  exists ctx' s', HMAC_updates ctx ds s = (ctx', s') /\ engine_session k (m ++ concat ds) ctx' s'.
Proof.
  induction ds as [|d ds IH]; intros m ctx s S Hb Hl.
  - exists ctx, s. by rewrite app_nil_r.
  - destruct (bytes_cons_inv d ds Hb Hl) as (Hd & Hld & Hds & Hlds).
    destruct (engine_update k m ctx s d S Hd Hld) as (s1 & E1 & S1).
    destruct (IH _ _ s1 S1 Hds Hlds) as (c2 & s2 & E2 & S2).
    exists c2, s2. cbn [HMAC_updates]. rewrite (bind_run _ _ s _ s1 E1). split; [done|].
    by rewrite <- app_assoc in S2.
Qed.

(** A software HMAC from a context that was just initialised. *)
Lemma sw_path v ctx k ds s :
  session v [] (hctx ctx) s -> (length k <= block_size v)%nat \/ is_hw (hctx ctx) = false ->
  Z.of_nat (block_size v) < 2 ^ 31 -> bytes k -> Z.of_nat (length k) < 2 ^ 31 ->
  bytes (concat ds) -> Z.of_nat (block_size v + length (concat ds)) < 2 ^ 31 ->
  exists ctx' s',
    (let* ctx := HMAC_sw_init ctx k in let* ctx := HMAC_updates ctx ds in HMAC_final ctx) s =
    ((hmac_spec v k (concat ds), ctx'), s') /\ freed (hctx ctx) s s'.
Proof.
  intros S Hk Hbs Hb Hl Hds Hlds.
  destruct (HMAC_sw_init_session v ctx s k S Hb Hl Hbs) as (c1 & s1 & E1 & T1 & S1 & F1).
  destruct (HMAC_updates_session v k ds [] c1 s1 S1 Hds) as (c2 & s2 & E2 & T2 & P2 & S2); [lia|].
  destruct (HMAC_sw_final_session v k _ c2 s2 S2 Hb Hbs) as (c3 & s3 & E3 & F3 & T3); [simpl; lia|].
  exists c3, s3. rewrite (bind_run _ _ s c1 s1 E1), (bind_run _ _ s1 c2 s2 E2). split.
  - unfold HMAC_final.
    destruct (ses_kind _ _ _ _ (hs_session _ _ _ _ _ S2)) as [_ [D | [[D _] | [D _]]]];
      rewrite D; exact E3.
  - unfold freed, keeps in *. rewrite (is_hw_same (hctx ctx) (hctx c2)) in F3 by congruence.
    rewrite (is_hw_same (hctx ctx) (hctx c1)) in P2 by congruence.
    destruct Hk as [Hk|Hk].
    + destruct (Nat.ltb_spec (block_size v) (length k)); [lia|].
      revert F1 P2 F3. destruct (is_hw (hctx ctx)); cbv iota; congruence.
    + rewrite Hk in *. destruct (Nat.ltb _ _); congruence.
Qed.

Lemma sw_session v c s : hash_ok v -> fresh_for v (hash c) -> session v [] (use_sw v c) s.
Proof.
  intros V F. constructor; [split; [done|by left]| |done].
  intros _. split; [|done]. exists 0%nat. by apply absorbed_init.
Qed.

Lemma bind_same {S A B} (m m' : ST S A) (k : A -> ST S B) s s' :
  m s = m' s' -> bind m k s = bind m' k s'.
Proof. unfold bind. by intros ->. Qed.

Lemma init_busy ctx k s :
  hw_busy s = true ->
  HMAC_SHA256_hw_init ctx k s =
  HMAC_sw_init (mkHmac (use_sw sha256_vtable (hctx ctx)) (opad ctx)) k s.
Proof.
  intros Eb. unfold HMAC_SHA256_hw_init, SHA256_hw_init, bind, dcrypto_grab_sha_hw.
  destruct (_ && _); cbv beta; by rewrite Eb.
Qed.

Definition hybrid_start (s : sha_hw) : sha_hw :=
  mkShaHw true (mkKeymgr 0 0 0 KEYMGR_STALL_6 MODE_SHA256_LIVESTREAM
    (use_hidden_key (reg s)) (use_cert (reg s)) (key (reg s)) []).

Lemma init_hybrid ctx k s :
  hw_busy s = false -> (32 < length k <= 64)%nat ->
  HMAC_SHA256_hw_init ctx k s =
  HMAC_sw_init (mkHmac (mkUnion HW_SHA256_VTAB (hash (hctx ctx))) (opad ctx)) k (hybrid_start s).
Proof.
  intros Eb Hk. unfold HMAC_SHA256_hw_init.
  replace (_ && _) with true.
  - unfold SHA256_hw_init, bind, dcrypto_grab_sha_hw. by rewrite Eb.
  - symmetry. apply andb_true_iff. unfold SHA256_DIGEST_SIZE, SHA256_BLOCK_SIZE.
    rewrite Nat.ltb_lt, Nat.leb_le. lia.
Qed.

Lemma hmac_paths ctx k ds s :
  length (b8 (hash (hctx ctx))) = 64%nat ->
  bytes k -> Z.of_nat (length k) < 2 ^ 31 ->
  bytes (concat ds) -> 64 + Z.of_nat (length (concat ds)) < 2 ^ 31 ->
  exists ctx' s',
    hmac_run ctx k ds s = ((hmac_spec sha256_vtable k (concat ds), ctx'), s') /\
    hw_busy s' = hw_busy s /\ (hw_busy s = true -> s' = s).
Proof.
  intros F Hb Hl Hds Hlds. unfold hmac_run.
  destruct (hw_busy s) eqn:Eb; [|destruct (decide (32 < length k <= 64)%nat) as [Hh|Hh]].
  - destruct (sw_path sha256_vtable (mkHmac (use_sw sha256_vtable (hctx ctx)) (opad ctx)) k ds s)
      as (c & s' & E1 & F1); try done.
    { apply sw_session; [apply sha256_ok|exact F]. }
    { by right. }
    { cbn [block_size sha256_vtable]. lia. }
    exists c, s'. rewrite (bind_same _ _ _ s s (init_busy ctx k s Eb)).
    split; [exact E1|]. unfold freed in F1. cbn in F1. by subst.
  - destruct (sw_path sha256_vtable (mkHmac (mkUnion HW_SHA256_VTAB (hash (hctx ctx))) (opad ctx))
        k ds (hybrid_start s)) as (c & s' & E1 & F1); try done.
    { constructor; [split; [apply sha256_ok|right; by left]|done|done]. }
    { left. cbn [block_size sha256_vtable]. lia. }
    { cbn [block_size sha256_vtable]. lia. }
    exists c, s'. rewrite (bind_same _ _ _ s (hybrid_start s) (init_hybrid ctx k s Eb Hh)).
    split; [exact E1|]. unfold freed in F1. cbn in F1. by split.
  - destruct (engine_init ctx k s Eb Hb Hl ltac:(lia)) as (c1 & s1 & E1 & S1).
    destruct (engine_updates k ds [] c1 s1 S1 Hds ltac:(lia)) as (c2 & s2 & E2 & S2).
    destruct (engine_final _ _ _ _ S2) as (c3 & s3 & E3 & F3).
    exists c3, s3. rewrite (bind_run _ _ s c1 s1 E1), (bind_run _ _ s1 c2 s2 E2). done.
Qed.

(** The driver implements the interface of its users, with the context on their stack. *)
Definition stack_ctx : hmac_ctx :=
  mkHmac (mkUnion (SW sha256_vtable) (mkCtx sha256_vtable 0 [] (zeros 64))) [].

#[export] Instance sha_hw_hmac : HmacOps sha_hw := {
  hmac_context := hmac_ctx;
  hmac_init := HMAC_SHA256_hw_init stack_ctx;
  hmac_update := HMAC_update;
  hmac_final c := let* (digest, _) := HMAC_final c in ret digest
}.

Lemma hmac_updates_same ds c s : hmac_updates c ds s = HMAC_updates c ds s.
Proof.
  revert c s. induction ds as [|d ds IH]; intros c s; [done|].
  cbn [hmac_updates HMAC_updates]. unfold bind. cbn [hmac_update sha_hw_hmac].
  destruct (HMAC_update c d s). apply IH.
Qed.

#[export] Instance sha_hw_hmac_laws : HmacLaws sha_hw.
Proof.
  constructor. intros k ds s [Hb Hl] [Hds Hlds].
  destruct (hmac_paths stack_ctx k ds s eq_refl Hb ltac:(lia) Hds ltac:(lia))
    as (c & s' & R & _).
  exists s'. unfold hmac_run in R. unfold hmac_of, bind in *.
  cbn [hmac_init hmac_final sha_hw_hmac hmac_context].
  destruct (HMAC_SHA256_hw_init stack_ctx k s) as [c1 s1].
  rewrite hmac_updates_same. destruct (HMAC_updates c1 ds s1) as [c2 s2].
  unfold bind. by rewrite R.
Qed.

(** C19. HMAC-SHA256 is RFC 2104 on every path: on the engine, in software over the engine, or
    all in software when another user holds the engine; for keys of any length and messages
    in any pieces.  The engine is free afterwards if it was before, and another user's
    engine is not touched. *)
Theorem hmac_any_path ctx k ds s :
  length (b8 (hash (hctx ctx))) = 64%nat ->
  bytes k -> Z.of_nat (length k) < 2 ^ 31 ->
  bytes (concat ds) -> 64 + Z.of_nat (length (concat ds)) < 2 ^ 31 ->
  exists ctx' s',
    hmac_run ctx k ds s = ((hmac_spec sha256_vtable k (concat ds), ctx'), s') /\
    hw_busy s' = hw_busy s /\ (hw_busy s = true -> s' = s).
Proof. apply hmac_paths. Qed.

(** In software over the engine, HMAC gives up the engine between its two hashes and then
    uses it again without asking: a user who takes it there, and feeds [d], gets the hash
    of the other's padded key [pad]. *)
Theorem hybrid_hmac_unlocked m c s c2 d pad :
  session sha256_vtable m c s -> is_hw c = true -> Z.of_nat (length m) < 2 ^ 32 ->
  bytes d -> Z.of_nat (length d) < 2 ^ 31 -> bytes pad -> Z.of_nat (length pad) < 2 ^ 31 ->
  exists c' c'' c''' c2' s1 s2 s3 s4,
    HASH_final c s = ((hash_spec sha256_vtable m, c'), s1) /\
    (let* c2 := SHA256_hw_init c2 in HASH_update c2 d) s1 = (c2', s2) /\
    hw_busy s2 = true /\ session sha256_vtable d c2' s2 /\
    HASH_reinit_any c' s2 = (c'', s3) /\ HASH_update c'' pad s3 = (c''', s4) /\
    exists c2'' s5, HASH_final c2' s4 = ((hash_spec sha256_vtable pad, c2''), s5).
Proof.
  intros S Hhw Hm Hd Hld Hp Hlp.
  destruct (HASH_final_session _ m c s S Hm) as (c' & s1 & E1 & T1 & R1 & F1).
  unfold freed in F1. rewrite Hhw in F1.
  assert (vt c = HW_SHA256_VTAB) as Tc.
  { destruct (ses_kind _ _ _ _ S) as [_ [D | [[D _] | [_ D]]]]; [|done|].
    - unfold is_hw in Hhw. by rewrite D in Hhw.
    - by apply (f_equal digest_size) in D. }
  set (s1' := hybrid_start s1). set (c1 := mkUnion HW_SHA256_VTAB (hash c2)).
  assert (SHA256_hw_init c2 s1 = (c1, s1')) as E0.
  { unfold SHA256_hw_init, bind, dcrypto_grab_sha_hw. by rewrite F1. }
  assert (session sha256_vtable [] c1 s1') as S1.
  { constructor; [split; [apply sha256_ok|right; by left]|done|done]. }
  destruct (HASH_update_session _ [] c1 s1' d S1 Hd Hld) as (c2' & s2 & E2 & T2 & P2 & S2).
  destruct (HASH_reinit_session _ c' s2 R1) as (c'' & s3 & E3 & T3 & P3 & S3).
  destruct (HASH_update_session _ [] c'' s3 pad S3 Hp Hlp) as (c''' & s4 & E4 & T4 & P4 & S4).
  assert (session sha256_vtable pad c2' s4) as S5.
  { constructor; [apply S2|unfold is_hw; by rewrite T2|]. intros _. rewrite T2.
    destruct (ses_hw _ _ _ _ S4) as [G1 G2]; [unfold is_hw; by rewrite T4, T3, T1, Tc|].
    rewrite T4, T3, T1, Tc in G2. done. }
  destruct (HASH_final_session _ pad c2' s4 S5) as (c2'' & s5 & E5 & _); [lia|].
  exists c', c'', c''', c2', s1, s2, s3, s4. rewrite (bind_run _ _ s1 c1 s1' E0).
  pose proof (keeps_busy _ _ _ P2 : hw_busy s2 = true).
  repeat (split; [assumption|]). by exists c2'', s5.
Qed.

End Engine.

(** *** An engine that computes *)

Definition words_of (d : list Z) : list Z := map (fun i => word i d) (seq 0 (length d / 4)).

#[export] Instance toy_engine : ShaEngine := {
  h r := words_of
    (if cfg_en r =? MODE_HMAC_SHA256_LIVESTREAM
     then hmac_spec sha256_vtable (concat (map (le_bytes 4) (key r))) (fifo r)
     else if nz (Z.land (cfg_en r) GC_KEYMGR_SHA_CFG_EN_SHA1_MASK)
     then hash_spec sha1_vtab (fifo r) else hash_spec sha256_vtable (fifo r));
  buffer_address _ := 3
}.

Lemma concat_words_of d n :
  bytes d -> length d = (4 * n)%nat -> concat (map (le_bytes 4) (take n (words_of d))) = d.
Proof.
  intros Hb Hl. unfold words_of. rewrite Hl, Nat.mul_comm, Nat.div_mul by lia.
  rewrite take_ge by (rewrite length_map, length_seq; lia). by apply concat_key_words.
Qed.

#[export] Instance toy_engine_laws : ShaEngineLaws toy_engine.
Proof.
  pose proof (hash_functions_ok sha1_vtab ltac:(by left)) as V1.
  constructor.
  - intros r _ Hc. cbn [h toy_engine].
    replace (if cfg_en r =? _ then _ else _) with (hash_spec sha256_vtable (fifo r)).
    + apply concat_words_of; [apply bytes_hash_spec|apply (length_hash_spec _ _ sha256_ok)].
    + destruct Hc as [-> | [-> _]]; reflexivity.
  - intros r _ Hc. cbn [h toy_engine].
    replace (if cfg_en r =? _ then _ else _) with (hash_spec sha1_vtab (fifo r)).
    + apply concat_words_of; [apply bytes_hash_spec|apply (length_hash_spec _ _ V1)].
    + destruct Hc as [-> | [-> _]]; reflexivity.
  - intros r _ Hc _ _ _. cbn [h toy_engine]. rewrite Hc, Z.eqb_refl.
    apply concat_words_of; [apply bytes_hash_spec|apply (length_hash_spec _ _ sha256_ok)].
  - intros data Hl. cbn [buffer_address toy_engine]. lia.
Qed.

Definition toy_hw (busy : bool) : sha_hw :=
  mkShaHw busy (mkKeymgr 0 0 0 0 0 0 0 (zeros 8) []).

Definition toy_ctx : hmac_ctx := mkHmac (mkUnion (SW sha1_vtab) (mkCtx sha1_vtab 0 [] (zeros 64))) [].

Example hmac_any_path_witness :
  exists ctx s, hmac_run toy_ctx (zeros 40) [[1; 2]; [3]] (toy_hw false) =
    ((hmac_spec sha256_vtable (zeros 40) [1; 2; 3], ctx), s) /\
    hw_busy s = false /\ (false = true -> s = toy_hw false).
Proof.
  apply (hmac_any_path toy_ctx (zeros 40) [[1; 2]; [3]] (toy_hw false)).
  - reflexivity.
  - apply bytes_zeros.
  - reflexivity.
  - repeat constructor; lia.
  - reflexivity.
Defined.

Definition toy_user : union_ctx := mkUnion HW_SHA256_VTAB (mkCtx sha256_vtable 0 [] (zeros 64)).

Lemma toy_session : session sha256_vtable [] toy_user (hybrid_start (toy_hw false)).
Proof. constructor; [split; [apply sha256_ok|right; by left]|done|done]. Qed.

Example hybrid_hmac_unlocked_witness :
  exists c' c'' c''' c2' s1 s2 s3 s4,
    HASH_final toy_user (hybrid_start (toy_hw false)) = ((hash_spec sha256_vtable [], c'), s1) /\
    (let* c2 := SHA256_hw_init toy_user in HASH_update c2 [5]) s1 = (c2', s2) /\
    hw_busy s2 = true /\ session sha256_vtable [5] c2' s2 /\
    HASH_reinit_any c' s2 = (c'', s3) /\ HASH_update c'' (replicate 64 0x5c) s3 = (c''', s4) /\
    exists c2'' s5, HASH_final c2' s4 =
      ((hash_spec sha256_vtable (replicate 64 0x5c), c2''), s5).
Proof.
  apply (hybrid_hmac_unlocked [] toy_user _ toy_user [5] (replicate 64 0x5c)).
  - apply toy_session.
  - reflexivity.
  - reflexivity.
  - repeat constructor; lia.
  - reflexivity.
  - apply Forall_replicate. unfold is_byte. lia.
  - reflexivity.
Defined.
