(* ===== verification/Drbg.v ===== *)
(** * Random bits and derived keys (board/cr50/dcrypto/hmac_drbg.c, hkdf.c, compare.c)

    The generator HMAC_DRBG and the derivation HKDF over the interface of HMAC-SHA256, and
    the comparison whose results are far apart in their bits. *)

From S2P Require Import Prelude Hash HashProps HmacSpec.

(** ** Results (dcrypto.h, internal.h) *)

(** [enum dcrypto_result] *)
Definition DCRYPTO_OK : Z := 0xAA33AAFF.
Definition DCRYPTO_FAIL : Z := 0x55665501.
Definition DCRYPTO_RETRY : Z := 0xA5775A33.
Definition DCRYPTO_RESEED_NEEDED : Z := 0x36AA6355.

(** On 32-bit words; the barriers change no value. *)
Definition hardened_select_if_zero (test a b : Z) : Z :=
  let bma := u32 (b - a) in
  let bma := Z.land bma (Z.lxor (Z.ones 32) test) in
  if test =? 0 then u32 (bma + a) else a.

Definition dcrypto_ok_if_zero (val : Z) : Z :=
  hardened_select_if_zero val DCRYPTO_FAIL DCRYPTO_OK.

(** [diff |= *a ^ *b] over the buffers. *)
Fixpoint diff_bytes (diff : Z) (a b : list Z) : Z :=
  match a, b with
  | x :: a, y :: b => diff_bytes (Z.lor diff (Z.lxor x y)) a b
  | _, _ => diff
  end.

(** [len] bytes at the addresses [pa] and [pb]; the pointers have moved by [len] each at the
    end. *)
Definition DCRYPTO_equals (pa pb : Z) (a b : list Z) (len : nat) : Z :=
  let tail := u32 (pa + Z.of_nat len) in
  let b_addr := u32 (pb + Z.of_nat len) in
  let diff := diff_bytes 0 (take len a) (take len b) in
  dcrypto_ok_if_zero (Z.lor (u32 (b_addr - tail + pa - pb)) diff).

(** ** HMAC_DRBG *)

(** [struct drbg_ctx], with the words of [k] and [v] as bytes. *)
Record drbg_ctx := mkDrbg {
  k : list Z;
  v : list Z;
  reseed_counter : Z;
  reseed_threshold : Z;
  magic_cookie : Z
}.

(** [fips_trng_bytes]: fresh entropy, or a failure. *)
Class TrngOps (W : Type) := {
  fips_trng_bytes : nat -> ST W (option (list Z))
}.

Definition HMAC_DRBG_MAX_OUTPUT_SIZE : Z := 937.
Definition HMAC_DRBG_DO_NOT_AUTO_RESEED : Z := 0xFFFFFFFF.

(** [RESEED_ENTROPY_SIZE_WORDS] words of 4 bytes. *)
Definition RESEED_ENTROPY_SIZE : nat := 40.

Definition hmac_drbg_ctx_valid (drbg : drbg_ctx) : bool := magic_cookie drbg =? DCRYPTO_OK.

Section Drbg.
Context {W : Type} `{HmacOps W}.

Definition update_v (k v : list Z) : ST W (list Z) :=
  let* ctx := hmac_init k in
  let* ctx := hmac_update ctx v in
  hmac_final ctx.

Definition update_kv (k v : list Z) (tag : Z) (p0 p1 p2 : list Z) : ST W (list Z * list Z) :=
  let* ctx := hmac_init k in
  let* ctx := hmac_update ctx v in
  let* ctx := hmac_update ctx [tag] in
  let* ctx := hmac_update ctx p0 in
  let* ctx := hmac_update ctx p1 in
  let* ctx := hmac_update ctx p2 in
  let* k := hmac_final ctx in
  let* v := update_v k v in
  ret (k, v).

Definition set_kv (ctx : drbg_ctx) (kv : list Z * list Z) : drbg_ctx :=
  mkDrbg (fst kv) (snd kv) (reseed_counter ctx) (reseed_threshold ctx) (magic_cookie ctx).

Definition set_counter (ctx : drbg_ctx) (c : Z) : drbg_ctx :=
  mkDrbg (k ctx) (v ctx) c (reseed_threshold ctx) (magic_cookie ctx).

Definition update (ctx : drbg_ctx) (p0 p1 p2 : list Z) : ST W drbg_ctx :=
  let* kv := update_kv (k ctx) (v ctx) 0x00 p0 p1 p2 in
  if Nat.eqb (length p0 + length p1 + length p2) 0 then ret (set_kv ctx kv)
  else
    let* kv := update_kv (fst kv) (snd kv) 0x01 p0 p1 p2 in
    ret (set_kv ctx kv).

Definition hmac_drbg_init (entropy nonce perso : list Z) (reseed_threshold : Z)
    : ST W drbg_ctx :=
  let ctx := mkDrbg (zeros 32) (replicate 32 0x01) 0 0 0 in
  let* ctx := update ctx entropy nonce perso in
  ret (mkDrbg (k ctx) (v ctx) 1 reseed_threshold DCRYPTO_OK).

(** The key and the message as the bytes of their words. *)
Definition hmac_drbg_init_rfc6979 (key message : list Z) : ST W drbg_ctx :=
  hmac_drbg_init key message [] HMAC_DRBG_DO_NOT_AUTO_RESEED.

Definition hmac_drbg_reseed (ctx : drbg_ctx) (entropy additional_input : list Z)
    : ST W drbg_ctx :=
  let* ctx := update ctx entropy additional_input [] in
  ret (set_counter ctx 1).

(** The loop over [out_len]; [fuel] is at least the number of blocks. *)
Fixpoint output_loop (fuel : nat) (ctx : drbg_ctx) (out : list Z) (out_len : nat)
    : ST W (list Z * drbg_ctx) :=
  match fuel with
  | O => ret (out, ctx)
  | S fuel =>
      if Nat.eqb out_len 0 then ret (out, ctx)
      else
        let n := Nat.min out_len 32 in
        let* v' := update_v (k ctx) (v ctx) in
        output_loop fuel (set_kv ctx (k ctx, v')) (out ++ take n v') (out_len - n)
  end.

Context `{TrngOps W}.

(** The code, what was written to [out], and the context. *)
Definition hmac_drbg_generate (ctx : drbg_ctx) (out_len : nat) (additional_input : list Z)
    : ST W (Z * list Z * drbg_ctx) :=
  if negb (hmac_drbg_ctx_valid ctx) then ret (DCRYPTO_FAIL, [], ctx)
  else if (HMAC_DRBG_MAX_OUTPUT_SIZE <? Z.of_nat out_len)
       || (HMAC_DRBG_MAX_OUTPUT_SIZE <? Z.of_nat (length additional_input))
  then ret (DCRYPTO_FAIL, [], ctx)
  else if reseed_counter ctx =? HMAC_DRBG_DO_NOT_AUTO_RESEED
  then ret (DCRYPTO_RESEED_NEEDED, [], ctx)
  else
    let* reseeded :=
      (if reseed_threshold ctx <? reseed_counter ctx then
         let* entropy := fips_trng_bytes RESEED_ENTROPY_SIZE in
         match entropy with
         | None => ret None
         | Some entropy =>
             let* ctx := hmac_drbg_reseed ctx entropy additional_input in
             ret (Some (ctx, []))
         end
       else ret (Some (ctx, additional_input))) in
    match reseeded with
    | None => ret (DCRYPTO_FAIL, [], ctx)
    | Some (ctx, additional_input) =>
        let ctx := set_counter ctx (u32 (reseed_counter ctx + 1)) in
        let* ctx :=
          (if negb (Nat.eqb (length additional_input) 0)
           then update ctx additional_input [] [] else ret ctx) in
        let* (out, ctx) := output_loop out_len ctx [] out_len in
        let* ctx := update ctx additional_input [] [] in
        ret (DCRYPTO_OK, out, ctx)
    end.

End Drbg.

Definition drbg_exit (ctx : drbg_ctx) : drbg_ctx := mkDrbg (zeros 32) (zeros 32) 0 0 0.

(** ** HKDF *)

Section Hkdf.
Context {W : Type} `{HmacOps W}.

(** A buffer parameter stands for its pointer with its length; the tests for a null pointer
    that comes with a length have no counterpart. *)
Definition hkdf_extract (salt IKM : list Z) : ST W (list Z) :=
  let* ctx := hmac_init salt in
  let* ctx := hmac_update ctx IKM in
  hmac_final ctx.

(** The loop: [okm] is what was written to the output buffer, [t_off] and [t_len] the
    previous block in it. *)
Fixpoint expand_loop (fuel : nat) (PRK info okm : list Z) (t_off t_len : nat) (count : Z)
    (OKM_len : nat) : ST W (list Z) :=
  match fuel with
  | O => ret okm
  | S fuel =>
      if Nat.eqb OKM_len 0 then ret okm
      else
        let block_size := if Nat.ltb OKM_len 32 then OKM_len else 32%nat in
        let* ctx := hmac_init PRK in
        let* ctx := hmac_update ctx (sub t_off t_len okm) in
        let* ctx := hmac_update ctx info in
        let* ctx := hmac_update ctx [count] in
        let* digest := hmac_final ctx in
        expand_loop fuel PRK info (okm ++ take block_size digest) (t_off + t_len) 32
          (u8 (count + 1)) (OKM_len - block_size)
  end.

Definition hkdf_expand (OKM_len : nat) (PRK info : list Z) : ST W (option (list Z)) :=
  let num_blocks :=
    (OKM_len / 32 + (if Nat.eqb (OKM_len mod 32) 0 then 0 else 1))%nat in
  if Nat.eqb OKM_len 0 then ret None
  else if Nat.ltb 255 num_blocks then ret None
  else
    let* okm := expand_loop OKM_len PRK info [] 0 0 1 OKM_len in
    ret (Some okm).

Definition DCRYPTO_hkdf (OKM_len : nat) (salt IKM info : list Z) : ST W (option (list Z)) :=
  let* PRK := hkdf_extract salt IKM in
  hkdf_expand OKM_len PRK info.

End Hkdf.
