(* ===== verification/DrbgProps.v ===== *)
(** * The generator and the derivation are the standard's (board/cr50/dcrypto)

    NIST SP 800-90A and RFC 5869 over [hmac256], and that the code implements them over every
    implementation of the interface of HMAC. *)

From S2P Require Import Prelude Hash HashProps HmacSpec ShaHw ShaHwPaths Drbg.

(** *** NIST SP 800-90A, 10.1.2, with SHA-256

    The working state is the pair of key and value. *)

Definition spec_update (kv : list Z * list Z) (data : list Z) : list Z * list Z :=
  let '(K, V) := kv in
  let K := hmac256 K (V ++ [0x00] ++ data) in
  let V := hmac256 K V in
  if bool_decide (data = []) then (K, V)
  else
    let K := hmac256 K (V ++ [0x01] ++ data) in
    (K, hmac256 K V).

Definition spec_instantiate (seed_material : list Z) : list Z * list Z :=
  spec_update (zeros 32, replicate 32 0x01) seed_material.

(** [n] blocks of output, with the last value. *)
Fixpoint spec_blocks (n : nat) (K V : list Z) : list Z * list Z :=
  match n with
  | O => ([], V)
  | S n =>
      let V := hmac256 K V in
      let '(out, V') := spec_blocks n K V in (V ++ out, V')
  end.

Definition spec_generate (kv : list Z * list Z) (len : nat) (input : list Z)
    : list Z * (list Z * list Z) :=
  let '(K, V) := if bool_decide (input = []) then kv else spec_update kv input in
  let '(out, V) := spec_blocks ((len + 31) / 32) K V in
  (take len out, spec_update (K, V) input).

(** *** RFC 5869 *)

(** T(i) .. T(i + n - 1), one after the other, after the block [T]. *)
Fixpoint spec_T (n : nat) (PRK info T : list Z) (i : Z) : list Z :=
  match n with
  | O => []
  | S n =>
      let T := hmac256 PRK (T ++ info ++ [i]) in
      T ++ spec_T n PRK info T (i + 1)
  end.

Definition spec_hkdf (L : nat) (salt IKM info : list Z) : list Z :=
  take L (spec_T ((L + 31) / 32) (hmac256 salt IKM) info [] 1).

(** *** Comparison *)

Lemma diff_bytes_zero d a b :
  0 <= d -> bytes a -> bytes b -> length a = length b ->
  diff_bytes d a b = 0 <-> d = 0 /\ a = b.
Proof.
  intros Hd Ha Hb. revert d Hd b Hb. induction a as [|x a IH]; intros d Hd b Hb Hl.
  - destruct b; [|done]. cbn. tauto.
  - destruct b as [|y b]; [done|]. cbn [diff_bytes].
    apply Forall_cons in Ha as [Hx Ha]. apply Forall_cons in Hb as [Hy Hb].
    unfold is_byte in *.
    rewrite IH; try done; [|apply Z.lor_nonneg; split; [done|apply Z.lxor_nonneg; lia]
                          |by injection Hl].
    rewrite Z.lor_eq_0_iff, Z.lxor_eq_0_iff. split; [intros [[-> ->] ->]; done|].
    intros [-> [= -> ->]]. done.
Qed.

Lemma ok_if_zero val : dcrypto_ok_if_zero val = if val =? 0 then DCRYPTO_OK else DCRYPTO_FAIL.
Proof.
  unfold dcrypto_ok_if_zero, hardened_select_if_zero.
  destruct (Z.eqb_spec val 0) as [->|]; [reflexivity|done].
Qed.

(** Equal buffers, wherever they are, and only those, compare as such. *)
Lemma equals_spec pa pb a b len :
  bytes a -> bytes b -> (len <= length a)%nat -> (len <= length b)%nat ->
  DCRYPTO_equals pa pb a b len =
  if bool_decide (take len a = take len b) then DCRYPTO_OK else DCRYPTO_FAIL.
Proof.
  intros Ha Hb Hla Hlb. unfold DCRYPTO_equals. rewrite ok_if_zero.
  assert (u32 (u32 (pb + Z.of_nat len) - u32 (pa + Z.of_nat len) + pa - pb) = 0) as ->.
  { unfold uN. set (m := 2 ^ 32). set (n := Z.of_nat len).
    pose proof (Z.div_mod (pb + n) m ltac:(done)). pose proof (Z.div_mod (pa + n) m ltac:(done)).
    replace ((pb + n) mod m - (pa + n) mod m + pa - pb)
      with (((pa + n) / m - (pb + n) / m) * m) by lia.
    by apply Z.mod_mul. }
  rewrite Z.lor_0_l.
  pose proof (diff_bytes_zero 0 (take len a) (take len b)) as D.
  destruct (Z.eqb_spec (diff_bytes 0 (take len a) (take len b)) 0) as [E|E].
  - apply D in E as [_ E]; try lia; try (by apply Forall_take); [|rewrite !length_take; lia].
    by rewrite bool_decide_true.
  - rewrite bool_decide_false; [done|]. intros E'. apply E, D; try lia; try (by apply Forall_take);
      [rewrite !length_take; lia|done].
Qed.

Section Generator.
Context {W : Type} {H : HmacOps W} {L : HmacLaws W}.

(** *** Steps *)

Ltac chain := unfold hmac_of; cbn [hmac_updates]; unfold bind, ret;
  repeat match goal with |- context [match ?x with (_, _) => _ end] => destruct x end;
  reflexivity.

Lemma update_v_run K V w :
  short K -> short V -> exists w', update_v K V w = (hmac256 K V, w').
Proof.
  intros HK HV. destruct (hmac_of_spec K [V] w HK) as (w' & E).
  - cbn. by rewrite app_nil_r.
  - exists w'. cbn [concat] in E. rewrite app_nil_r in E. rewrite <- E. unfold update_v. chain.
Qed.

Lemma update_kv_run K V tag p0 p1 p2 w :
  short K -> short (V ++ [tag] ++ p0 ++ p1 ++ p2) ->
  let K' := hmac256 K (V ++ [tag] ++ p0 ++ p1 ++ p2) in
  short V -> exists w', update_kv K V tag p0 p1 p2 w = ((K', hmac256 K' V), w').
Proof.
  intros HK HD K' HV. destruct (hmac_of_spec K [V; [tag]; p0; p1; p2] w HK) as (w1 & E1).
  { cbn [concat]. by rewrite app_nil_r. }
  cbn [concat] in E1. rewrite app_nil_r in E1. fold K' in E1.
  destruct (update_v_run K' V w1 (short_hmac _ _) HV) as (w2 & E2).
  exists w2.
  transitivity ((let* k := hmac_of K [V; [tag]; p0; p1; p2] in
    let* v := update_v k V in ret (k, v)) w).
  - unfold update_kv. chain.
  - unfold bind, ret. by rewrite E1, E2.
Qed.

(** *** The state of the generator *)

(** The key and the value have their size. *)
Definition kv_ok (kv : list Z * list Z) : Prop :=
  bytes (fst kv) /\ length (fst kv) = 32%nat /\ bytes (snd kv) /\ length (snd kv) = 32%nat.

Definition kv_of (ctx : drbg_ctx) : list Z * list Z := (k ctx, v ctx).

Lemma kv_short kv : kv_ok kv -> short (fst kv) /\ short (snd kv).
Proof. intros (? & E1 & ? & E2). unfold short. rewrite E1, E2. done. Qed.

Lemma kv_hmac K V K' V' : kv_ok (hmac256 K V, hmac256 K' V').
Proof. unfold kv_ok. cbn [fst snd]. rewrite !length_hmac256. auto with bytes_db. Qed.

Lemma spec_update_ok kv data : kv_ok (spec_update kv data).
Proof. destruct kv. unfold spec_update. case_bool_decide; apply kv_hmac. Qed.

Lemma seed_short V tag data :
  bytes V -> length V = 32%nat -> is_byte tag -> bytes data ->
  Z.of_nat (length data) < 2 ^ 29 -> short (V ++ [tag] ++ data).
Proof.
  intros. apply short_app; [done|by apply bytes_app; [constructor|]|].
  rewrite length_app. simpl. lia.
Qed.

Definition set_state (ctx : drbg_ctx) (kv : list Z * list Z) (c : Z) : drbg_ctx :=
  mkDrbg (fst kv) (snd kv) c (reseed_threshold ctx) (magic_cookie ctx).

Lemma update_run ctx p0 p1 p2 w :
  kv_ok (kv_of ctx) -> bytes (p0 ++ p1 ++ p2) ->
  Z.of_nat (length (p0 ++ p1 ++ p2)) < 2 ^ 29 ->
  exists w', update ctx p0 p1 p2 w =
    (set_state ctx (spec_update (kv_of ctx) (p0 ++ p1 ++ p2)) (reseed_counter ctx), w').
Proof.
  intros K Hb Hl. destruct (kv_short _ K) as [SK SV]. destruct K as (_ & _ & Hv & Hlv).
  cbn [kv_of fst snd] in *. set (data := p0 ++ p1 ++ p2) in *.
  destruct (update_kv_run (k ctx) (v ctx) 0x00 p0 p1 p2 w SK) as (w1 & E1); [|done|].
  { apply seed_short; done. }
  unfold update. rewrite (bind_run _ _ w _ w1 E1). fold data.
  set (K1 := hmac256 (k ctx) _) in *. set (V1 := hmac256 K1 (v ctx)).
  assert (length data = length p0 + length p1 + length p2)%nat as Hdata
    by (unfold data; rewrite !length_app; lia).
  unfold spec_update. fold K1. fold V1.
  destruct (Nat.eqb_spec (length p0 + length p1 + length p2) 0) as [Hz|Hz].
  - rewrite bool_decide_true by (apply nil_length_inv; lia). by exists w1.
  - rewrite bool_decide_false by (intros E; rewrite E in Hdata; simpl in Hdata; lia).
    destruct (update_kv_run K1 V1 0x01 p0 p1 p2 w1 (short_hmac _ _)) as (w2 & E2);
      [|apply short_hmac|].
    { apply seed_short; try done; [apply bytes_hmac|apply length_hmac256]. }
    cbn [fst snd]. rewrite (bind_run _ _ w1 _ w2 E2). by exists w2.
Qed.

(** *** Instantiation and reseeding *)

Lemma init_run entropy nonce perso threshold w :
  let seed := entropy ++ nonce ++ perso in
  bytes seed -> Z.of_nat (length seed) < 2 ^ 29 ->
  exists w', hmac_drbg_init entropy nonce perso threshold w =
    (mkDrbg (fst (spec_instantiate seed)) (snd (spec_instantiate seed)) 1 threshold DCRYPTO_OK,
     w').
Proof.
  intros seed Hb Hl. unfold hmac_drbg_init.
  destruct (update_run (mkDrbg (zeros 32) (replicate 32 0x01) 0 0 0) entropy nonce perso w)
    as (w' & E); try done.
  { unfold kv_ok. cbn. split_and!; try done; repeat constructor; lia. }
  rewrite (bind_run _ _ w _ w' E). by exists w'.
Qed.

Lemma reseed_run ctx entropy input w :
  kv_ok (kv_of ctx) -> bytes (entropy ++ input) -> Z.of_nat (length (entropy ++ input)) < 2 ^ 29 ->
  exists w', hmac_drbg_reseed ctx entropy input w =
    (set_state ctx (spec_update (kv_of ctx) (entropy ++ input)) 1, w').
Proof.
  intros K Hb Hl. unfold hmac_drbg_reseed.
  destruct (update_run ctx entropy input [] w K) as (w' & E); rewrite ?app_nil_r in *; try done.
  rewrite (bind_run _ _ w _ w' E). by exists w'.
Qed.

(** *** Output *)

Lemma blocks_value n K V : kv_ok (K, V) -> kv_ok (K, snd (spec_blocks n K V)).
Proof.
  revert V. induction n as [|n IH]; intros V KV; [done|]. cbn [spec_blocks].
  assert (kv_ok (K, hmac256 K V)) as KV'
    by (destruct KV as (? & ? & _); split_and!; try done; [apply bytes_hmac|apply length_hmac256]).
  specialize (IH _ KV'). destruct (spec_blocks n K (hmac256 K V)). done.
Qed.

Lemma blocks_needed len :
  (0 < len)%nat -> ((len + 31) / 32 = S ((len - Nat.min len 32 + 31) / 32))%nat.
Proof.
  intros Hl. destruct (le_lt_dec len 32).
  - rewrite Nat.min_l by lia. replace (len - len + 31)%nat with 31%nat by lia.
    change (31 / 32)%nat with 0%nat. symmetry. apply (Nat.div_unique _ _ _ (len - 1)); lia.
  - rewrite Nat.min_r by lia. replace (len + 31)%nat with ((len - 32 + 31) + 1 * 32)%nat by lia.
    rewrite Nat.div_add by lia. lia.
Qed.

Lemma output_run fuel ctx out len w :
  (len <= fuel)%nat -> kv_ok (kv_of ctx) ->
  let '(blocks, V') := spec_blocks ((len + 31) / 32) (k ctx) (v ctx) in
  exists w', output_loop fuel ctx out len w =
    ((out ++ take len blocks, set_state ctx (k ctx, V') (reseed_counter ctx)), w').
Proof.
  revert ctx out len w. induction fuel as [|fuel IH]; intros ctx out len w Hf KV.
  - replace len with 0%nat by lia. cbn. exists w. rewrite app_nil_r. by destruct ctx.
  - cbn [output_loop]. destruct (Nat.eqb_spec len 0) as [->|Hz].
    { cbn. exists w. rewrite app_nil_r. by destruct ctx. }
    rewrite (blocks_needed len) by lia. cbn [spec_blocks].
    destruct (kv_short _ KV) as [SK SV].
    destruct (update_v_run (k ctx) (v ctx) w SK SV) as (w1 & E1).
    rewrite (bind_run _ _ w _ w1 E1).
    set (V1 := hmac256 _ _) in *.
    assert (kv_ok (kv_of (set_kv ctx (k ctx, V1)))) as KV1.
    { destruct KV as (? & ? & _). split_and!; try done; [apply bytes_hmac|apply length_hmac256]. }
    specialize (IH (set_kv ctx (k ctx, V1)) (out ++ take (Nat.min len 32) V1)
      (len - Nat.min len 32)%nat w1 ltac:(lia) KV1).
    cbn [set_kv k v fst snd] in IH.
    destruct (spec_blocks _ (k ctx) V1) as [blocks V'].
    destruct IH as (w' & ->). exists w'. do 2 f_equal.
    assert (length V1 = 32%nat) as HV1 by apply length_hmac256.
    rewrite <- app_assoc. f_equal. destruct (le_lt_dec len 32).
    + rewrite Nat.min_l, Nat.sub_diag, take_0, app_nil_r, take_app_le by lia. done.
    + rewrite Nat.min_r, take_ge, take_app_ge by lia. by rewrite HV1.
Qed.

(** *** A request *)

(** The answer to a request, when the noise source gives [entropy]. *)
Definition spec_request (ctx : drbg_ctx) (len : nat) (input : list Z)
    (entropy : option (list Z)) : Z * list Z * drbg_ctx :=
  if negb (magic_cookie ctx =? DCRYPTO_OK) then (DCRYPTO_FAIL, [], ctx)
  else if (937 <? Z.of_nat len) || (937 <? Z.of_nat (length input)) then (DCRYPTO_FAIL, [], ctx)
  else if reseed_counter ctx =? 0xFFFFFFFF then (DCRYPTO_RESEED_NEEDED, [], ctx)
  else if reseed_threshold ctx <? reseed_counter ctx then
    match entropy with
    | None => (DCRYPTO_FAIL, [], ctx)
    | Some e =>
        let '(out, kv) := spec_generate (spec_update (kv_of ctx) (e ++ input)) len [] in
        (DCRYPTO_OK, out, set_state ctx kv 2)
    end
  else
    let '(out, kv) := spec_generate (kv_of ctx) len input in
    (DCRYPTO_OK, out, set_state ctx kv (reseed_counter ctx + 1)).

(** What follows the decision to reseed. *)
Lemma serve_run ctx len input w :
  kv_ok (kv_of ctx) -> 0 <= reseed_counter ctx < 2 ^ 32 - 1 -> bytes input ->
  Z.of_nat (length input) < 2 ^ 29 ->
  let '(out, kv) := spec_generate (kv_of ctx) len input in
  exists w',
    (let ctx := set_counter ctx (u32 (reseed_counter ctx + 1)) in
     let* ctx :=
       (if negb (Nat.eqb (length input) 0) then update ctx input [] [] else ret ctx) in
     let* (out, ctx) := output_loop len ctx [] len in
     let* ctx := update ctx input [] [] in
     ret (DCRYPTO_OK, out, ctx)) w =
    ((DCRYPTO_OK, out, set_state ctx kv (reseed_counter ctx + 1)), w').
Proof.
  intros K Hc Hb Hl. cbv zeta. rewrite (uN_small 32) by lia.
  set (c := reseed_counter ctx + 1). set (ctx1 := set_counter ctx c).
  unfold spec_generate.
  assert (exists ctx2 w1,
    (if negb (Nat.eqb (length input) 0) then update ctx1 input [] [] else ret ctx1) w =
      (ctx2, w1) /\
    kv_of ctx2 = (if bool_decide (input = []) then kv_of ctx else spec_update (kv_of ctx) input) /\
    ctx2 = set_state ctx (kv_of ctx2) c) as (ctx2 & w1 & E1 & E2 & E3).
  { destruct (Nat.eqb_spec (length input) 0) as [Hz|Hz].
    - apply nil_length_inv in Hz as ->. by exists ctx1, w.
    - destruct (update_run ctx1 input [] [] w K) as (w1 & E); rewrite ?app_nil_r in *; try done.
      eexists _, w1. split; [exact E|]. rewrite bool_decide_false by (by intros ->).
      split; [|done]. unfold kv_of at 1. cbn [set_state k v]. symmetry. apply surjective_pairing. }
  assert (kv_ok (kv_of ctx2)) as K2.
  { rewrite E2. case_bool_decide; [done|apply spec_update_ok]. }
  rewrite <- E2. unfold kv_of at 1.
  pose proof (output_run len ctx2 [] len w1 (le_n _) K2) as O.
  pose proof (blocks_value ((len + 31) / 32) (k ctx2) (v ctx2) K2) as KV.
  destruct (spec_blocks _ _ _) as [blocks V']. cbn [snd] in KV.
  destruct O as (w2 & E4). rewrite (bind_run _ _ w ctx2 w1 E1), (bind_run _ _ w1 _ w2 E4).
  set (ctx3 := set_state ctx2 _ _).
  destruct (update_run ctx3 input [] [] w2) as (w3 & E5); rewrite ?app_nil_r in *; try done.
  rewrite (bind_run _ _ w2 _ w3 E5). exists w3. unfold ret. cbn [app].
  assert (kv_of ctx3 = (k ctx2, V')) as -> by reflexivity.
  set (kv := spec_update _ input).
  assert (set_state ctx3 kv (reseed_counter ctx3) = set_state ctx kv c) as ->; [|reflexivity].
  unfold set_state at 1. unfold ctx3. cbn [reseed_counter reseed_threshold magic_cookie set_state].
  by rewrite E3.
Qed.

Context `{TrngOps W}.

Lemma generate_run ctx len input w :
  kv_ok (kv_of ctx) -> 0 <= reseed_counter ctx < 2 ^ 32 -> bytes input ->
  (forall e, fst (fips_trng_bytes RESEED_ENTROPY_SIZE w) = Some e ->
    bytes e /\ length e = RESEED_ENTROPY_SIZE) ->
  exists w', hmac_drbg_generate ctx len input w =
    (spec_request ctx len input (fst (fips_trng_bytes RESEED_ENTROPY_SIZE w)), w').
Proof.
  intros K Hc Hb HT. unfold hmac_drbg_generate, spec_request, hmac_drbg_ctx_valid.
  destruct (magic_cookie ctx =? DCRYPTO_OK); cbn [negb]; [|by exists w].
  unfold HMAC_DRBG_MAX_OUTPUT_SIZE, HMAC_DRBG_DO_NOT_AUTO_RESEED.
  destruct (Z.ltb_spec 937 (Z.of_nat len)); [by exists w|].
  destruct (Z.ltb_spec 937 (Z.of_nat (length input))) as [|Hi]; [by exists w|]. cbn [orb].
  destruct (Z.eqb_spec (reseed_counter ctx) 0xFFFFFFFF); [by exists w|].
  destruct (Z.ltb_spec (reseed_threshold ctx) (reseed_counter ctx)).
  - destruct (fips_trng_bytes RESEED_ENTROPY_SIZE w) as [[e|] w1] eqn:ET; cbn [fst] in *.
    + destruct (HT e eq_refl) as [He Hle].
      destruct (reseed_run ctx e input w1 K) as (w2 & E2); [by apply bytes_app| |].
      { rewrite length_app, Hle. unfold RESEED_ENTROPY_SIZE. lia. }
      set (ctx1 := set_state _ _ _) in E2.
      pose proof (serve_run ctx1 len [] w2) as S.
      assert (kv_of ctx1 = spec_update (kv_of ctx) (e ++ input)) as Ek
        by (symmetry; apply surjective_pairing).
      rewrite Ek in S.
      destruct (spec_generate _ len []) as [out kv].
      destruct S as (w3 & E3); [apply spec_update_ok|done|by constructor|done|].
      exists w3. rewrite (bind_run _ _ w (Some (ctx1, [])) w2); [exact E3|].
      rewrite (bind_run _ _ w _ w1 ET). by rewrite (bind_run _ _ w1 _ w2 E2).
    + exists w1. rewrite (bind_run _ _ w None w1); [done|].
      by rewrite (bind_run _ _ w _ w1 ET).
  - rewrite (bind_run _ _ w (Some (ctx, input)) w) by done.
    pose proof (serve_run ctx len input w K) as S.
    destruct (spec_generate _ len input) as [out kv]. apply S; [lia|done|lia].
Qed.

(** *** Derivation *)

Lemma length_spec_T n PRK info T i : length (spec_T n PRK info T i) = (32 * n)%nat.
Proof.
  revert T i. induction n as [|n IH]; intros T i; [done|]. cbn [spec_T].
  rewrite length_app, IH, length_hmac256. lia.
Qed.

Lemma expand_run fuel PRK info okm t_off t_len count len w :
  short PRK -> bytes info -> Z.of_nat (length info) < 2 ^ 29 -> bytes okm ->
  (len <= fuel)%nat -> (t_len <= 32)%nat -> length okm = (t_off + t_len)%nat ->
  0 < count -> count + Z.of_nat ((len + 31) / 32) <= 256 ->
  exists w', expand_loop fuel PRK info okm t_off t_len count len w =
    (okm ++ take len (spec_T ((len + 31) / 32) PRK info (drop t_off okm) count), w').
Proof.
  intros HP Hi Hil. revert okm t_off t_len count len w.
  induction fuel as [|fuel IH]; intros okm t_off t_len count len w Ho Hf Ht Hok Hc Hn.
  - replace len with 0%nat by lia. cbn. exists w. by rewrite app_nil_r.
  - cbn [expand_loop]. destruct (Nat.eqb_spec len 0) as [->|Hz].
    { cbn. exists w. by rewrite app_nil_r. }
    rewrite (blocks_needed len) in Hn |- * by lia. cbn [spec_T].
    replace (sub t_off t_len okm) with (drop t_off okm)
      by (unfold sub; rewrite take_ge; [done|rewrite length_drop; lia]).
    set (T := drop t_off okm). assert (bytes T) by (by apply Forall_drop).
    assert (length T = t_len) as HT by (unfold T; rewrite length_drop; lia).
    destruct (hmac_of_spec PRK [T; info; [count]] w HP) as (w1 & E1).
    { cbn [concat]. rewrite app_nil_r. apply short_app; [done| |].
      - apply bytes_app; [done|]. constructor; [|constructor]. unfold is_byte. lia.
      - rewrite length_app. simpl. lia. }
    cbn [concat] in E1. rewrite app_nil_r in E1.
    set (T' := hmac256 PRK (T ++ info ++ [count])) in *.
    assert (length T' = 32%nat) as HT' by apply length_hmac256.
    set (bs := if Nat.ltb len 32 then len else 32%nat).
    assert (bs = Nat.min len 32) as Hbs
      by (unfold bs; destruct (Nat.ltb_spec len 32); lia).
    assert (forall m, expand_loop fuel PRK info (okm ++ take bs T') (t_off + t_len) 32
        (u8 (count + 1)) (len - bs) w1 = m ->
      (let* ctx := hmac_init PRK in
       let* ctx := hmac_update ctx T in
       let* ctx := hmac_update ctx info in
       let* ctx := hmac_update ctx [count] in
       let* digest := hmac_final ctx in
       expand_loop fuel PRK info (okm ++ take bs digest) (t_off + t_len) 32
         (u8 (count + 1)) (len - bs)) w = m) as Hstep.
    { intros m <-. transitivity ((let* digest := hmac_of PRK [T; info; [count]] in
        expand_loop fuel PRK info (okm ++ take bs digest) (t_off + t_len) 32
         (u8 (count + 1)) (len - bs)) w); [chain|]. by rewrite (bind_run _ _ w _ w1 E1). }
    destruct (decide (len <= 32)%nat) as [Hle|Hgt].
    + exists w1. apply Hstep. replace (len - bs)%nat with 0%nat by lia.
      replace (expand_loop fuel PRK info (okm ++ take bs T') (t_off + t_len) 32
        (u8 (count + 1)) 0 w1) with (okm ++ take bs T', w1) by (by destruct fuel).
      replace bs with len by lia. by rewrite take_app_le by lia.
    + assert (bs = 32%nat) as Hbs' by lia. rewrite Hbs' in Hstep |- *.
      assert (Nat.min len 32 = 32%nat) as Hmin by lia. rewrite Hmin in *.
      destruct (IH (okm ++ take 32 T') (t_off + t_len)%nat 32%nat (count + 1) (len - 32)%nat w1)
        as (w2 & E2); try lia.
      { apply bytes_app; [done|]. apply Forall_take, bytes_hmac. }
      { rewrite length_app, length_take. lia. }
      assert (1 <= (len - 32 + 31) / 32)%nat by (apply Nat.div_le_lower_bound; lia).
      exists w2. apply Hstep. rewrite uN_small by lia. rewrite E2. f_equal.
      rewrite (take_ge T' 32), <- app_assoc by lia. f_equal.
      rewrite drop_app_ge, Hok, Nat.sub_diag, drop_0 by lia.
      by rewrite (take_app_ge T'), HT' by lia.
Qed.

Lemma hkdf_run len salt IKM info w :
  short salt -> short IKM -> bytes info -> Z.of_nat (length info) < 2 ^ 29 ->
  exists w', DCRYPTO_hkdf len salt IKM info w =
    (if bool_decide (0 < len <= 255 * 32)%nat then Some (spec_hkdf len salt IKM info) else None,
     w').
Proof.
  intros Hs Hk Hi Hil. unfold DCRYPTO_hkdf, hkdf_expand.
  destruct (hmac_of_spec salt [IKM] w Hs) as (w1 & E1); [cbn; by rewrite app_nil_r|].
  cbn [concat] in E1. rewrite app_nil_r in E1.
  rewrite (bind_run _ _ w (hmac256 salt IKM) w1).
  2:{ rewrite <- E1. unfold hkdf_extract. chain. }
  assert (len / 32 + (if Nat.eqb (len mod 32) 0 then 0 else 1) = (len + 31) / 32)%nat as ->.
  { pose proof (Nat.div_mod_eq len 32). pose proof (Nat.mod_upper_bound len 32).
    destruct (Nat.eqb_spec (len mod 32) 0).
    - apply (Nat.div_unique _ _ _ 31); lia.
    - apply (Nat.div_unique _ _ _ (len mod 32 - 1)); lia. }
  destruct (Nat.eqb_spec len 0) as [->|Hz]; [by exists w1|].
  pose proof (Nat.div_mod_eq (len + 31) 32). pose proof (Nat.mod_upper_bound (len + 31) 32).
  destruct (Nat.ltb_spec 255 ((len + 31) / 32)) as [Hlt|Hge].
  - rewrite bool_decide_false by lia. by exists w1.
  - rewrite bool_decide_true by lia.
    destruct (expand_run len (hmac256 salt IKM) info [] 0 0 1 len w1) as (w2 & E2);
      try done; try lia; [apply short_hmac|constructor|].
    exists w2. by rewrite (bind_run _ _ w1 _ w2 E2).
Qed.

(** C18. The generator is the HMAC_DRBG of NIST SP 800-90A: instantiation and every request give
    the standard's state and output, with a reseed from the noise source when the threshold
    was passed, and requests are refused when the context is not initialised, they are too
    long, the counter is exhausted or the noise source fails, without a change of the state. *)
Theorem drbg_is_sp800_90a ctx len input entropy nonce perso threshold w :
  let seed := entropy ++ nonce ++ perso in
  bytes seed -> Z.of_nat (length seed) < 2 ^ 29 ->
  kv_ok (kv_of ctx) -> 0 <= reseed_counter ctx < 2 ^ 32 -> bytes input ->
  (forall e, fst (fips_trng_bytes RESEED_ENTROPY_SIZE w) = Some e ->
    bytes e /\ length e = RESEED_ENTROPY_SIZE) ->
  (exists w', hmac_drbg_init entropy nonce perso threshold w =
    (mkDrbg (fst (spec_instantiate seed)) (snd (spec_instantiate seed)) 1 threshold DCRYPTO_OK,
     w')) /\
  (exists w', hmac_drbg_generate ctx len input w =
    (spec_request ctx len input (fst (fips_trng_bytes RESEED_ENTROPY_SIZE w)), w')).
Proof.
  intros seed Hs Hl K Hc Hb HT. split; [by apply init_run|by apply generate_run].
Qed.

(** [DCRYPTO_hkdf] is RFC 5869 with SHA-256 for every length up to 255 blocks, and refuses
    an empty or a longer output. *)
Theorem hkdf_is_rfc5869 len salt IKM info w :
  short salt -> short IKM -> bytes info -> Z.of_nat (length info) < 2 ^ 29 ->
  exists w', DCRYPTO_hkdf len salt IKM info w =
    (if bool_decide (0 < len <= 255 * 32)%nat then Some (spec_hkdf len salt IKM info) else None,
     w').
Proof. apply hkdf_run. Qed.

End Generator.

(** *** Witnesses, over the driver of the engine *)

#[export] Instance toy_trng : TrngOps sha_hw := {
  fips_trng_bytes n := ret (Some (replicate n 7))
}.

Definition toy_drbg : drbg_ctx := mkDrbg (zeros 32) (zeros 32) 9 8 DCRYPTO_OK.

Example drbg_is_sp800_90a_witness :
  (exists w', hmac_drbg_init [1] [2] [] 8 (toy_hw false) =
    (mkDrbg (fst (spec_instantiate ([1] ++ [2] ++ []))) (snd (spec_instantiate ([1] ++ [2] ++ [])))
       1 8 DCRYPTO_OK,
     w')) /\
  (exists w', hmac_drbg_generate toy_drbg 40 [3] (toy_hw false) =
    (spec_request toy_drbg 40 [3] (fst (fips_trng_bytes RESEED_ENTROPY_SIZE (toy_hw false))),
     w')).
Proof.
  apply (drbg_is_sp800_90a toy_drbg 40 [3] [1] [2] [] 8 (toy_hw false)).
  - repeat constructor; lia.
  - reflexivity.
  - split_and!; try reflexivity; apply bytes_zeros.
  - split; [discriminate|reflexivity].
  - repeat constructor; lia.
  - intros e [= <-]. split; [|reflexivity]. repeat constructor; lia.
Defined.

Example hkdf_is_rfc5869_witness :
  exists w', DCRYPTO_hkdf 42 [1] [2; 3] [] (toy_hw true) =
    (Some (spec_hkdf 42 [1] [2; 3] []), w').
Proof.
  apply (hkdf_is_rfc5869 42 [1] [2; 3] [] (toy_hw true)).
  - split; [repeat constructor; lia|reflexivity].
  - split; [repeat constructor; lia|reflexivity].
  - constructor.
  - reflexivity.
Defined.
