(* ===== verification/FipsRand.v ===== *)
(** * The noise source and its health tests (board/cr50/dcrypto/trng.c, fips_rand.c)

    Words read from the noise source pass the repetition count test and the adaptive
    proportion test of NIST SP 800-90B; a failure is recorded in the status of the crypto
    module, which then refuses to work.  The status of the module and its key ladder
    (fips.c, key_ladder.c) are here because everything tests them. *)

From S2P Require Import Prelude Hash HmacSpec ShaHw ShaHwPaths Drbg.

(** ** State *)

(** The registers of the noise source that are read, and what restarts it; and the core of the
    crypto accelerator: a call of the code at an address of the instruction memory, from when
    the status bits are clear, gives whether the end was signalled in time, the status then,
    and the data memory. *)
Class FipsHw := {
  trng_hw : Type;
  trng_empty : ST trng_hw bool;
  trng_idle : ST trng_hw bool;
  trng_restart : ST trng_hw unit;
  trng_read_data : ST trng_hw Z;
  crypto_core : Type;
  core_reset : ST crypto_core unit;
  core_run (adr : Z) (imem dmem : list Z) : ST crypto_core (bool * Z * list Z)
}.

(** The driver of the accelerator: its lock, its memories and its core. *)
Record dcrypto_hw `{FipsHw} := mkDcrypto {
  dcrypto_mutex : bool;
  dcrypto_is_initialized : bool;
  imem : list Z;
  dmem : list Z;
  core : crypto_core
}.

Record rand_state := mkRand {
  count : Z;
  last_clz : Z;
  last_clo : Z;
  pops : list Z;
  rct_count : Z;
  oldest : nat;
  apt_initialized : bool
}.

(** The static variables of the module, the registers it uses, and the events it logged. *)
Record fips `{FipsHw} := mkFips {
  sha : sha_hw;
  trng : trng_hw;
  rand : rand_state;
  fips_drbg : drbg_ctx;
  _fips_status : Z;
  pwrdn_scratch22 : Z;
  cert_revoke_ctrl0 : Z;
  cert_revoke_ctrl1 : Z;
  aes_use_hidden_key : Z;
  usr_ready : list Z;
  fast_random_state : Z;
  flash_log : list (Z * list Z);
  dcrypto : dcrypto_hw
}.

Section State.
Context `{FipsHw}.

Definition set_sha (x : sha_hw) (s : fips) : fips :=
  mkFips _ x (trng s) (rand s) (fips_drbg s) (_fips_status s) (pwrdn_scratch22 s)
    (cert_revoke_ctrl0 s) (cert_revoke_ctrl1 s) (aes_use_hidden_key s) (usr_ready s)
    (fast_random_state s) (flash_log s) (dcrypto s).
Definition set_trng (x : trng_hw) (s : fips) : fips :=
  mkFips _ (sha s) x (rand s) (fips_drbg s) (_fips_status s) (pwrdn_scratch22 s)
    (cert_revoke_ctrl0 s) (cert_revoke_ctrl1 s) (aes_use_hidden_key s) (usr_ready s)
    (fast_random_state s) (flash_log s) (dcrypto s).
Definition set_rand (x : rand_state) (s : fips) : fips :=
  mkFips _ (sha s) (trng s) x (fips_drbg s) (_fips_status s) (pwrdn_scratch22 s)
    (cert_revoke_ctrl0 s) (cert_revoke_ctrl1 s) (aes_use_hidden_key s) (usr_ready s)
    (fast_random_state s) (flash_log s) (dcrypto s).
Definition set_drbg (x : drbg_ctx) (s : fips) : fips :=
  mkFips _ (sha s) (trng s) (rand s) x (_fips_status s) (pwrdn_scratch22 s)
    (cert_revoke_ctrl0 s) (cert_revoke_ctrl1 s) (aes_use_hidden_key s) (usr_ready s)
    (fast_random_state s) (flash_log s) (dcrypto s).
Definition set_status (x : Z) (s : fips) : fips :=
  mkFips _ (sha s) (trng s) (rand s) (fips_drbg s) x (pwrdn_scratch22 s)
    (cert_revoke_ctrl0 s) (cert_revoke_ctrl1 s) (aes_use_hidden_key s) (usr_ready s)
    (fast_random_state s) (flash_log s) (dcrypto s).
Definition set_scratch22 (x : Z) (s : fips) : fips :=
  mkFips _ (sha s) (trng s) (rand s) (fips_drbg s) (_fips_status s) x
    (cert_revoke_ctrl0 s) (cert_revoke_ctrl1 s) (aes_use_hidden_key s) (usr_ready s)
    (fast_random_state s) (flash_log s) (dcrypto s).
Definition set_ladder (c0 c1 hidden : Z) (ready : list Z) (s : fips) : fips :=
  mkFips _ (sha s) (trng s) (rand s) (fips_drbg s) (_fips_status s) (pwrdn_scratch22 s)
    c0 c1 hidden ready (fast_random_state s) (flash_log s) (dcrypto s).
Definition set_dcrypto (x : dcrypto_hw) (s : fips) : fips :=
  mkFips _ (sha s) (trng s) (rand s) (fips_drbg s) (_fips_status s) (pwrdn_scratch22 s)
    (cert_revoke_ctrl0 s) (cert_revoke_ctrl1 s) (aes_use_hidden_key s) (usr_ready s)
    (fast_random_state s) (flash_log s) x.
Definition set_fast_random_state (x : Z) (s : fips) : fips :=
  mkFips _ (sha s) (trng s) (rand s) (fips_drbg s) (_fips_status s) (pwrdn_scratch22 s)
    (cert_revoke_ctrl0 s) (cert_revoke_ctrl1 s) (aes_use_hidden_key s) (usr_ready s)
    x (flash_log s) (dcrypto s).
Definition flash_log_add (type : Z) (data : list Z) (s : fips) : fips :=
  mkFips _ (sha s) (trng s) (rand s) (fips_drbg s) (_fips_status s) (pwrdn_scratch22 s)
    (cert_revoke_ctrl0 s) (cert_revoke_ctrl1 s) (aes_use_hidden_key s) (usr_ready s)
    (fast_random_state s) (flash_log s ++ [(type, data)]) (dcrypto s).

(** A step of the hash engine, and of the noise source, in the module. *)
Definition on_sha {A} (m : ST sha_hw A) : ST fips A :=
  fun s => let '(a, x) := m (sha s) in (a, set_sha x s).
Definition on_trng {A} (m : ST trng_hw A) : ST fips A :=
  fun s => let '(a, x) := m (trng s) in (a, set_trng x s).

(** ** The status of the module (fips.c, fips.h) *)

Definition FIPS_MODE_ACTIVE : Z := 0x80000000.
Definition FIPS_POWER_UP_TEST_DONE : Z := 0x40000000.
Definition FIPS_UNINITIALIZED : Z := 0.
Definition FIPS_FATAL_TRNG_RCT : Z := 0x2.
Definition FIPS_FATAL_TRNG_APT : Z := 0x4.
Definition FIPS_FATAL_TRNG_OTHER : Z := 0x8.
Definition FIPS_FATAL_SHA256 : Z := 0x10.
Definition FIPS_FATAL_HMAC_SHA256 : Z := 0x20.
Definition FIPS_FATAL_HMAC_DRBG : Z := 0x40.
Definition FIPS_FATAL_ECDSA : Z := 0x80.
Definition FIPS_FATAL_RSA2048 : Z := 0x100.
Definition FIPS_FATAL_AES256 : Z := 0x200.
Definition FIPS_FATAL_SELF_INTEGRITY : Z := 0x400.
Definition FIPS_FATAL_ECDSA_PWCT : Z := 0x1000.
Definition FIPS_FATAL_OTHER : Z := 0x8000.
Definition FIPS_ERROR_MASK : Z := 0xffff.

Definition BOARD_FIPS_POWERUP_DONE : Z := 0xAA556633.
Definition FE_LOG_TRNG_STALL : Z := 7.
Definition FE_LOG_FIPS_FAILURE : Z := 10.

Definition KEYMGR_CERT_REVOKE_CTRL0_DEFAULT_VAL : Z := 0xa8028a82.
Definition KEYMGR_CERT_REVOKE_CTRL1_DEFAULT_VAL : Z := 0xaaaaaaaa.

Definition DCRYPTO_ladder_is_enabled (s : fips) : bool :=
  (cert_revoke_ctrl0 s =? KEYMGR_CERT_REVOKE_CTRL0_DEFAULT_VAL) &&
  (cert_revoke_ctrl1 s =? KEYMGR_CERT_REVOKE_CTRL1_DEFAULT_VAL).

Definition DCRYPTO_ladder_revoke : ST fips unit :=
  modify (set_ladder 0xffffffff 0xffffffff 0 (zeros 8)) ;;;
  on_sha (set_reg (fun r => set_key 0 (use_cert r) (key r) r)).

Definition fips_is_no_crypto_error (s : fips) : bool :=
  Z.land (_fips_status s) FIPS_ERROR_MASK =? 0.

Definition fips_crypto_allowed (s : fips) : bool :=
  nz (Z.land (_fips_status s) FIPS_POWER_UP_TEST_DONE) && fips_is_no_crypto_error s
  && DCRYPTO_ladder_is_enabled s.

Definition crypto_enabled (s : fips) : bool :=
  fips_is_no_crypto_error s && DCRYPTO_ladder_is_enabled s.

Definition fips_set_power_up (asserted : bool) : ST fips unit :=
  modify (set_scratch22 (if asserted then BOARD_FIPS_POWERUP_DONE else 0)).

Definition fips_is_power_up_done (s : fips) : bool :=
  pwrdn_scratch22 s =? BOARD_FIPS_POWERUP_DONE.

Definition fips_set_status (status : Z) : ST fips unit :=
  modify (fun s => set_status (Z.lor (_fips_status s) status) s) ;;;
  let* st := gets _fips_status in
  if nz (Z.land st FIPS_ERROR_MASK) then
    modify (fun s => set_status (clear_bits 32 (_fips_status s) FIPS_MODE_ACTIVE) s) ;;;
    fips_set_power_up false
  else ret tt.

Definition fips_throw_err (err : Z) : ST fips unit :=
  let* st := gets _fips_status in
  if Z.land st err =? err then ret tt
  else
    fips_set_status err ;;;
    let* ok := gets fips_is_no_crypto_error in
    if negb ok then
      modify (fun s => flash_log_add FE_LOG_FIPS_FAILURE (le_bytes 4 (_fips_status s)) s) ;;;
      DCRYPTO_ladder_revoke
    else ret tt.

(** ** The noise source (trng.c) *)

Definition TRNG_EMPTY_COUNT : Z := 0xfff.
Definition TRNG_RESET_COUNT : Z := 32.

(** The loop of [read_rand]; the result is [reset_count], or nothing without fuel. *)
Fixpoint read_loop (fuel : nat) (empty_count reset_count : Z) : ST trng_hw (option Z) :=
  match fuel with
  | O => ret None
  | S fuel =>
      let* empty := trng_empty in
      if empty && (reset_count <? TRNG_RESET_COUNT) then
        let* idle := trng_idle in
        if idle || (TRNG_EMPTY_COUNT <? empty_count) then
          trng_restart ;;;
          read_loop fuel (0 + 1) (reset_count + 1)
        else read_loop fuel (empty_count + 1) reset_count
      else ret (Some reset_count)
  end.

(** Each restart follows at most [TRNG_EMPTY_COUNT + 2] rounds. *)
Definition read_fuel : nat := Z.to_nat (TRNG_RESET_COUNT * (TRNG_EMPTY_COUNT + 2) + 1).

(** The word, with bit 32 set when it is valid. *)
Definition read_rand : ST fips Z :=
  let* reset_count := on_trng (read_loop read_fuel 0 0) in
  match reset_count with
  | None => ret 0
  | Some reset_count =>
      (if 0 <? reset_count then modify (flash_log_add FE_LOG_TRNG_STALL [reset_count])
       else ret tt) ;;;
      let* read_data := on_trng trng_read_data in
      ret (Z.lor read_data (Z.shiftl (b2z (reset_count <? TRNG_RESET_COUNT)) 32))
  end.

Definition rand_valid (rand : Z) : bool := nz (Z.shiftr rand 32).

(** ** The health tests (fips_rand.c) *)

Definition RCT_CUTOFF_SAMPLES : Z := 1 + (39 * 100 + 77 - 1) / 77.
Definition RCT_CUTOFF_WORDS : Z := (RCT_CUTOFF_SAMPLES + 31) / 32.
Definition APT_WINDOW_SIZE_BITS : Z := 1024.
Definition APT_WINDOW_SIZE_NWORDS : nat := 32.
Definition APT_CUTOFF_SAMPLES : Z := 708.
Definition TRNG_INIT_WORDS : nat := 128.

(** The bit tests of [__builtin_clz] and [__builtin_ctz] on a word that is not 0. *)
Definition count_leading_zeros (x : Z) : Z := if nz x then 31 - Z.log2 x else 32.

Fixpoint ctz_loop (n : nat) (i x : Z) : Z :=
  match n with
  | O => i
  | S n => if Z.testbit x i then i else ctz_loop n (i + 1) x
  end.

Definition count_trailing_zeros (x : Z) : Z := ctz_loop 32 0 x.

(** [~rnd] *)
Definition not32 (x : Z) : Z := Z.lxor x (Z.ones 32).

Definition repetition_count_test (rnd : Z) (r : rand_state) : Z * rand_state :=
  let clz := count_leading_zeros rnd in
  let ctz := count_trailing_zeros rnd in
  let clo := count_leading_zeros (not32 rnd) in
  let cto := count_trailing_zeros (not32 rnd) in
  if (RCT_CUTOFF_SAMPLES <=? ctz + last_clz r) || (RCT_CUTOFF_SAMPLES <=? cto + last_clo r)
  then (FIPS_FATAL_TRNG_RCT, r)
  else
    let clz := if rnd =? 0 then clz + last_clz r else clz in
    let clo := if rnd =? not32 0 then clo + last_clo r else clo in
    (FIPS_UNINITIALIZED,
     mkRand (count r) clz clo (pops r)
       (if rct_count r <? RCT_CUTOFF_WORDS then rct_count r + 1 else rct_count r)
       (oldest r) (apt_initialized r)).

Definition misbalanced (count : Z) : bool :=
  (APT_CUTOFF_SAMPLES <? count) || (count <? APT_WINDOW_SIZE_BITS - APT_CUTOFF_SAMPLES).

Definition popcount (x : Z) : Z :=
  let x := u32 (x - Z.land (Z.shiftr x 1) 0x55555555) in
  let x := u32 (Z.land x 0x33333333 + Z.land (Z.shiftr x 2) 0x33333333) in
  let x := Z.land (u32 (x + Z.shiftr x 4)) 0x0F0F0F0F in
  let x := u32 (x + Z.shiftr x 8) in
  let x := u32 (x + Z.shiftr x 16) in
  Z.land x 0x0000003F.

Definition adaptive_proportion_test (rnd : Z) (r : rand_state) : Z * rand_state :=
  let pop := u8 (popcount rnd) in
  let c := u32 (count r - nth (oldest r) (pops r) 0) in
  let c := u32 (c + pop) in
  let full := Nat.leb APT_WINDOW_SIZE_NWORDS (S (oldest r)) in
  let r :=
    mkRand c (last_clz r) (last_clo r) (<[oldest r := pop]> (pops r)) (rct_count r)
      (if full then 0%nat else S (oldest r)) (apt_initialized r || full) in
  (if apt_initialized r && misbalanced (count r) then FIPS_FATAL_TRNG_APT
   else FIPS_UNINITIALIZED, r).

Definition fips_powerup_passed (r : rand_state) : bool :=
  (RCT_CUTOFF_WORDS <=? rct_count r) && apt_initialized r.

(** Both tests of a word, one after the other. *)
Definition health_tests (rnd : Z) : ST fips Z :=
  fun s =>
    let '(e1, r) := repetition_count_test rnd (rand s) in
    let '(e2, r) := adaptive_proportion_test rnd r in
    (Z.lor e1 e2, set_rand r s).

(** The loop over [remaining_tries]: the last word read, and the error. *)
Fixpoint trng32_loop (remaining_tries : nat) (error : Z) : ST fips (Z * Z) :=
  match remaining_tries with
  | O => ret (0, error)
  | S n =>
      let* r := read_rand in
      if negb (rand_valid r) then
        fips_set_status FIPS_FATAL_TRNG_OTHER ;;; ret (r, error)
      else
        let* error := health_tests (u32 r) in
        if Nat.eqb n 0 || (error =? FIPS_UNINITIALIZED) then ret (r, error)
        else trng32_loop n error
  end.

Definition fips_trng32 : ST fips Z :=
  let* (r, error) := trng32_loop 4 FIPS_UNINITIALIZED in
  if negb (error =? FIPS_UNINITIALIZED) then fips_set_status error ;;; ret (u32 r)
  else ret r.

Definition fips_trng_rand32 : ST fips Z :=
  let* allowed := gets fips_crypto_allowed in
  if negb allowed then ret 0 else fips_trng32.

(** The loop over [len]: what is left of the last word, and what was written. *)
Fixpoint bytes_loop (len : nat) (random_togo : nat) (r : Z) (buf : list Z)
    : ST fips (bool * list Z) :=
  match len with
  | O => ret (true, buf)
  | S len =>
      if Nat.eqb random_togo 0 then
        let* rand := fips_trng32 in
        if negb (rand_valid rand) then ret (false, buf)
        else bytes_loop len 3 (Z.shiftr (u32 rand) 8) (buf ++ [u8 (u32 rand)])
      else bytes_loop len (random_togo - 1) (Z.shiftr r 8) (buf ++ [u8 r])
  end.

Definition trng_bytes (len : nat) : ST fips (option (list Z)) :=
  let* allowed := gets fips_crypto_allowed in
  if negb allowed then ret None
  else
    let* (ok, buf) := bytes_loop len 0 0 [] in
    ret (if ok : bool then Some buf else None).

(** [next_fast_random], [set_fast_random_seed] and [fast_random] of p256.c. *)
Definition next_fast_random (seed : Z) : Z :=
  let mask := Z.land (if 0 <=? i32 seed then Z.ones 32 else 0) 0xC0000401 in
  Z.lxor (u32 (Z.shiftl seed 1)) mask.

Definition set_fast_random_seed (seed : Z) : ST fips unit :=
  modify (set_fast_random_state
    (if next_fast_random seed =? seed then u32 (seed + 1) else seed)).

Definition fast_random : ST fips Z :=
  modify (fun s => set_fast_random_state (next_fast_random (fast_random_state s)) s) ;;;
  gets fast_random_state.

Fixpoint startup_loop (n : nat) (r : Z) : ST fips (option Z) :=
  match n with
  | O => ret (Some r)
  | S n =>
      let* r := fips_trng32 in
      if negb (rand_valid r) then ret None else startup_loop n r
  end.

Definition fips_trng_startup (stage : Z) : ST fips bool :=
  (if stage =? 0 then
     modify (fun s => let r := rand s in
       set_rand (mkRand (count r) (last_clz r) (last_clo r) (pops r) 0 (oldest r) false) s)
   else ret tt) ;;;
  let* r := startup_loop (TRNG_INIT_WORDS / 2) 0 in
  match r with
  | None => ret false
  | Some r =>
      set_fast_random_seed (u32 r) ;;;
      gets (fun s => fips_powerup_passed (rand s))
  end.

(** ** The generator of the module *)

Section Generator.
Context `{ShaEngine}.

(** HMAC on the engine of the module, and its noise source. *)
#[export] Instance fips_hmac : HmacOps fips := {
  hmac_context := @hmac_context sha_hw sha_hw_hmac;
  hmac_init k := on_sha (hmac_init k);
  hmac_update c d := on_sha (hmac_update c d);
  hmac_final c := on_sha (hmac_final c)
}.

#[export] Instance fips_trng : TrngOps fips := {
  fips_trng_bytes := trng_bytes
}.

(** [ENTROPY_SIZE_WORDS] words of 4 bytes. *)
Definition ENTROPY_SIZE : nat := 72.

Definition fips_drbg_init : ST fips bool :=
  let* allowed := gets fips_crypto_allowed in
  if negb allowed then ret false
  else
    let* drbg := gets fips_drbg in
    if hmac_drbg_ctx_valid drbg then ret true
    else
      let* entropy_input := fips_trng_bytes ENTROPY_SIZE in
      match entropy_input with
      | None => ret false
      | Some entropy_input =>
          let* drbg := hmac_drbg_init entropy_input [] [] 1000 in
          modify (set_drbg drbg) ;;;
          ret true
      end.

(** A request to the generator of the module. *)
Definition drbg_request (len : nat) (input : list Z) : ST fips (Z * list Z) :=
  let* drbg := gets fips_drbg in
  let* (rv, out, drbg) := hmac_drbg_generate drbg len input in
  modify (set_drbg drbg) ;;;
  ret (rv, out).

Fixpoint rand_bytes_loop (fuel : nat) (len : nat) (buffer : list Z) : ST fips (bool * list Z) :=
  match fuel with
  | O => ret (Nat.eqb len 0, buffer)
  | S fuel =>
      if Nat.eqb len 0 then ret (true, buffer)
      else
        let request := Nat.min len (Z.to_nat HMAC_DRBG_MAX_OUTPUT_SIZE) in
        let* (rv, out) := drbg_request request [] in
        if negb (rv =? DCRYPTO_OK) then ret (false, buffer)
        else rand_bytes_loop fuel (len - request) (buffer ++ out)
  end.

Definition fips_rand_bytes (len : nat) : ST fips (option (list Z)) :=
  let* ready := fips_drbg_init in
  if negb ready then ret None
  else
    let* (ok, buffer) := rand_bytes_loop len len [] in
    ret (if ok : bool then Some buffer else None).

End Generator.
End State.
