(* ===== verification/FipsHealth.v ===== *)
(** * What the health tests detect (board/cr50/dcrypto/fips_rand.c)

    The words are taken as a stream of bits, the lowest bit of a word first.  The repetition
    count test rejects a stream exactly when it has 52 equal bits in a row; the adaptive
    proportion test rejects a word exactly when the last 1024 bits have more than 708 ones or
    zeros. *)

From S2P Require Import Prelude Hash ShaHw ShaHwPaths Drbg DrbgProps FipsRand.

(** ** Bits *)

Definition bits (w : Z) : list bool := map (fun i => Z.testbit w (Z.of_nat i)) (seq 0 32).

(** The number of [b] at the start, and at the end. *)
Fixpoint lead (b : bool) (l : list bool) : nat :=
  match l with
  | [] => 0
  | x :: l => if eqb x b then S (lead b l) else 0
  end.

Definition trail (b : bool) (l : list bool) : nat := lead b (rev l).

Definition has_run (n : nat) (l : list bool) : Prop :=
  exists b pre post, l = pre ++ replicate n b ++ post.

Fixpoint ones (l : list bool) : Z :=
  match l with
  | [] => 0
  | x :: l => b2z x + ones l
  end.

Definition is_word (w : Z) : Prop := 0 <= w < 2 ^ 32.

Lemma length_bits w : length (bits w) = 32%nat.
Proof. unfold bits. by rewrite length_map, length_seq. Qed.

Lemma bits_inj w1 w2 : is_word w1 -> is_word w2 -> bits w1 = bits w2 -> w1 = w2.
Proof.
  unfold is_word. intros H1 H2 E. apply Z.bits_inj'. intros i Hi.
  destruct (Z.ltb_spec i 32) as [Hlt|Hge].
  - apply (f_equal (fun l => nth (Z.to_nat i) l false)) in E. unfold bits in E.
    rewrite !(nth_indep (map _ _) false (Z.testbit 0 0)) in E
      by (rewrite length_map, length_seq; lia).
    assert (forall w, nth (Z.to_nat i) (map (fun j => Z.testbit w (Z.of_nat j)) (seq 0 32)) false
      = Z.testbit w i) as N.
    { intros w. rewrite (nth_indep _ false (Z.testbit w (Z.of_nat 0)))
        by (rewrite length_map, length_seq; lia).
      rewrite (map_nth (fun j => Z.testbit w (Z.of_nat j))), seq_nth by lia. f_equal. lia. }
    cbn [Z.testbit] in E. by rewrite !N in E.
  - rewrite <- (Z.mod_small w1 (2 ^ 32)), <- (Z.mod_small w2 (2 ^ 32)) by done.
    by rewrite !Z.mod_pow2_bits_high by lia.
Qed.

(** *** Runs *)

Lemma lead_le b l : (lead b l <= length l)%nat.
Proof. induction l as [|x l IH]; cbn; [lia|]. destruct (eqb x b); lia. Qed.

Lemma lead_split b l : exists rest, l = replicate (lead b l) b ++ rest.
Proof.
  induction l as [|x l [rest IH]]; [by exists []|]. cbn [lead].
  destruct (eqb x b) eqn:E.
  - apply eqb_prop in E as ->. exists rest. cbn. by rewrite <- IH.
  - by exists (x :: l).
Qed.

Lemma lead_replicate b n rest : (n <= lead b (replicate n b ++ rest))%nat.
Proof.
  induction n as [|n IH]; [lia|]. cbn [replicate app lead].
  rewrite eqb_reflx. lia.
Qed.

Lemma lead_app b l1 l2 :
  lead b (l1 ++ l2) =
  if bool_decide (l1 = replicate (length l1) b) then (length l1 + lead b l2)%nat else lead b l1.
Proof.
  induction l1 as [|x l1 IH]; [done|]. cbn [app lead length replicate].
  destruct (eqb x b) eqn:E.
  - apply eqb_prop in E as ->. rewrite IH. repeat case_bool_decide; try lia.
    + by exfalso; apply H0; f_equal.
    + injection H0 as E. done.
  - rewrite bool_decide_false; [done|]. intros [= -> _]. by rewrite eqb_reflx in E.
Qed.

Lemma rev_replicate {A} n (x : A) : rev (replicate n x) = replicate n x.
Proof.
  symmetry. apply replicate_as_Forall. rewrite length_rev, length_replicate. split; [done|].
  by apply Forall_rev, Forall_replicate.
Qed.

Lemma trail_split b l : exists pre, l = pre ++ replicate (trail b l) b.
Proof.
  unfold trail. destruct (lead_split b (rev l)) as (rest & E).
  exists (rev rest). rewrite <- (rev_involutive l), E at 1.
  by rewrite rev_app_distr, rev_replicate.
Qed.

Lemma trail_replicate b n pre : (n <= trail b (pre ++ replicate n b))%nat.
Proof. unfold trail. rewrite rev_app_distr, rev_replicate. apply lead_replicate. Qed.

Lemma trail_app b l1 l2 :
  trail b (l1 ++ l2) =
  if bool_decide (l2 = replicate (length l2) b) then (length l2 + trail b l1)%nat else trail b l2.
Proof.
  unfold trail. rewrite rev_app_distr, lead_app, length_rev.
  assert (rev l2 = replicate (length l2) b <-> l2 = replicate (length l2) b) as E.
  { split; intros E.
    - rewrite <- (rev_involutive l2), E at 1. apply rev_replicate.
    - rewrite E at 1. apply rev_replicate. }
  repeat case_bool_decide; tauto || done.
Qed.

(** A long run in two lists that the first does not have spans the second's start. *)
Lemma run_spans n l1 l2 :
  ~ has_run n l1 -> (length l2 < n)%nat ->
  (has_run n (l1 ++ l2) <-> exists b, (n <= lead b l2 + trail b l1)%nat).
Proof.
  intros H1 H2. split.
  - intros (b & pre & post & E). exists b.
    assert (length l1 + length l2 = length pre + n + length post)%nat as L.
    { rewrite <- length_app, E, !length_app, length_replicate. lia. }
    assert (length l1 < length pre + n)%nat as L1.
    { destruct (decide (length l1 < length pre + n)%nat); [done|]. destruct H1.
      exists b, pre, (take (length l1 - length pre - n) post).
      apply (f_equal (take (length l1))) in E. rewrite take_app_length in E. rewrite E at 1.
      rewrite take_app_ge by lia. rewrite take_app_ge by (rewrite length_replicate; lia).
      rewrite length_replicate. done. }
    assert (length pre <= length l1)%nat as L2 by lia.
    assert (l1 = pre ++ replicate (length l1 - length pre) b) as E1.
    { apply (f_equal (take (length l1))) in E. rewrite take_app_length in E. rewrite E at 1.
      rewrite take_app_ge by lia. f_equal.
      rewrite take_app_le by (rewrite length_replicate; lia).
      rewrite take_replicate. f_equal. lia. }
    assert (l2 = replicate (n - (length l1 - length pre)) b ++ post) as E2.
    { apply (f_equal (drop (length l1))) in E. rewrite drop_app_length in E. rewrite E at 1.
      rewrite drop_app_ge by lia. rewrite drop_app_le by (rewrite length_replicate; lia).
      by rewrite drop_replicate. }
    pose proof (trail_replicate b (length l1 - length pre) pre) as T1. rewrite <- E1 in T1.
    pose proof (lead_replicate b (n - (length l1 - length pre)) post) as T2.
    rewrite <- E2 in T2. lia.
  - intros (b & Hn). destruct (trail_split b l1) as (pre & E1).
    destruct (lead_split b l2) as (post & E2).
    exists b, pre, (replicate (lead b l2 + trail b l1 - n) b ++ post).
    rewrite E1 at 1. rewrite E2 at 1. rewrite <- !app_assoc. f_equal.
    rewrite !app_assoc, <- !replicate_add. do 2 f_equal. lia.
Qed.

(** ** The counts of the code *)

Lemma ctz_lead n i x :
  ctz_loop n (Z.of_nat i) x =
  Z.of_nat i + Z.of_nat (lead false (map (fun j => Z.testbit x (Z.of_nat j)) (seq i n))).
Proof.
  revert i. induction n as [|n IH]; intros i; cbn [ctz_loop seq map lead]; [lia|].
  destruct (Z.testbit x (Z.of_nat i)); cbn [eqb]; [lia|].
  replace (Z.of_nat i + 1) with (Z.of_nat (S i)) by lia. rewrite IH. lia.
Qed.

Lemma ctz_bits x : count_trailing_zeros x = Z.of_nat (lead false (bits x)).
Proof. apply (ctz_lead 32 0 x). Qed.

Lemma bits_split x p :
  (p < 32)%nat ->
  bits x = map (fun j => Z.testbit x (Z.of_nat j)) (seq 0 p) ++ [Z.testbit x (Z.of_nat p)]
    ++ map (fun j => Z.testbit x (Z.of_nat j)) (seq (S p) (31 - p)).
Proof.
  intros Hp. unfold bits. replace 32%nat with (p + S (31 - p))%nat at 1 by lia.
  by rewrite seq_app, map_app.
Qed.

Lemma map_same {A B} (g : A -> B) b l :
  (forall x, In x l -> g x = b) -> map g l = replicate (length l) b.
Proof.
  intros Hg. induction l as [|x l IH]; [done|]. cbn. rewrite Hg by (by left).
  f_equal. apply IH. intros y Hy. apply Hg. by right.
Qed.

Lemma bits_zero : bits 0 = replicate 32 false.
Proof. done. Qed.

Lemma clz_bits x : is_word x -> count_leading_zeros x = Z.of_nat (trail false (bits x)).
Proof.
  intros Hx. unfold count_leading_zeros, is_word in *.
  destruct (nz x) eqn:E; [apply nz_true in E|apply nz_false in E as ->; done].
  assert (0 <= Z.log2 x < 32) as Hp.
  { split; [apply Z.log2_nonneg|apply Z.log2_lt_pow2; lia]. }
  rewrite (bits_split x (Z.to_nat (Z.log2 x))) by lia. rewrite Z2Nat.id by lia.
  rewrite Z.bit_log2 by lia.
  rewrite (map_same _ false (seq (S _) _)).
  - rewrite trail_app, bool_decide_false, trail_app, length_replicate, length_seq by done.
    rewrite bool_decide_true by done. change (trail false [true]) with 0%nat. lia.
  - intros j Hj%in_seq. apply Z.bits_above_log2; lia.
Qed.

Lemma not32_word x : is_word x -> is_word (not32 x).
Proof.
  unfold is_word, not32. intros Hx.
  assert (Z.lxor x (Z.ones 32) = Z.lxor x (Z.ones 32) mod 2 ^ 32) as ->;
    [|apply Z.mod_pos_bound; lia].
  rewrite <- Z.land_ones by lia. apply Z.bits_inj'. intros i Hi.
  rewrite Z.land_spec, Z.lxor_spec. destruct (Z.ltb_spec i 32).
  - rewrite Z.ones_spec_low by lia. by rewrite andb_true_r.
  - rewrite Z.ones_spec_high by lia.
    rewrite <- (Z.mod_small x (2 ^ 32)), Z.mod_pow2_bits_high by lia. done.
Qed.

Lemma not32_bits x : bits (not32 x) = map negb (bits x).
Proof.
  unfold bits. rewrite map_map. apply map_ext_in. intros j [_ Hj]%in_seq.
  unfold not32. rewrite Z.lxor_spec, Z.ones_spec_low by lia. apply xorb_true_r.
Qed.

Lemma lead_negb b l : lead (negb b) (map negb l) = lead b l.
Proof. induction l as [|x l IH]; [done|]. cbn. rewrite IH. by destruct x, b. Qed.

Lemma trail_negb b l : trail (negb b) (map negb l) = trail b l.
Proof. unfold trail. rewrite <- map_rev. apply lead_negb. Qed.

(** ** The repetition count test *)

(** The counters stand for the stream [hist]. *)
Definition rct_tracks (hist : list bool) (r : rand_state) : Prop :=
  last_clz r = Z.of_nat (trail false hist) /\ last_clo r = Z.of_nat (trail true hist).

Lemma rct_cutoff : RCT_CUTOFF_SAMPLES = 52.
Proof. done. Qed.

Lemma word_all b w :
  is_word w -> bits w = replicate 32 b <-> w = if b then not32 0 else 0.
Proof.
  intros Hw. split.
  - intros E. apply bits_inj; [done|by destruct b|]. rewrite E. by destruct b.
  - intros ->. by destruct b.
Qed.

Lemma trail_word b hist w (x : Z) :
  is_word w -> x = Z.of_nat (trail b (bits w)) ->
  (if w =? (if b then not32 0 else 0) then x + Z.of_nat (trail b hist) else x) =
  Z.of_nat (trail b (hist ++ bits w)).
Proof.
  intros Hw ->. rewrite trail_app, length_bits.
  pose proof (word_all b w Hw) as E.
  destruct (Z.eqb_spec w (if b then not32 0 else 0)) as [Ew|Ew].
  - rewrite bool_decide_true by tauto. apply E in Ew. rewrite Ew.
    unfold trail at 1. rewrite rev_replicate. destruct b; cbn; lia.
  - by rewrite bool_decide_false by tauto.
Qed.

Lemma rct_step hist r w :
  rct_tracks hist r -> is_word w ->
  let '(e, r') := repetition_count_test w r in
  ((exists b, (52 <= lead b (bits w) + trail b hist)%nat) /\ e = FIPS_FATAL_TRNG_RCT /\ r' = r) \/
  (~ (exists b, (52 <= lead b (bits w) + trail b hist)%nat) /\ e = FIPS_UNINITIALIZED /\
   rct_tracks (hist ++ bits w) r').
Proof.
  intros [Hz Ho] Hw. unfold repetition_count_test. cbv zeta.
  pose proof (not32_word w Hw) as Hn.
  assert (count_trailing_zeros (not32 w) = Z.of_nat (lead true (bits w))) as E1
    by (rewrite ctz_bits, not32_bits; f_equal; apply (lead_negb true)).
  assert (count_leading_zeros (not32 w) = Z.of_nat (trail true (bits w))) as E2
    by (rewrite (clz_bits _ Hn), not32_bits; f_equal; apply (trail_negb true)).
  rewrite rct_cutoff, ctz_bits, E1, E2, (clz_bits w Hw), Hz, Ho.
  destruct (_ || _) eqn:E.
  - left. split_and!; try done. apply orb_true_iff in E as [E|E]; apply Z.leb_le in E;
      [exists false|exists true]; lia.
  - right. apply orb_false_iff in E as [Ef Et]. apply Z.leb_gt in Ef, Et. split_and!; [|done|].
    + intros ([|] & Hb); lia.
    + split; cbn [last_clz last_clo].
      * exact (trail_word false hist w _ Hw eq_refl).
      * exact (trail_word true hist w _ Hw eq_refl).
Qed.

(** The test of a stream of words, up to the first failure. *)
Fixpoint rct_accepts (ws : list Z) (r : rand_state) : bool :=
  match ws with
  | [] => true
  | w :: ws =>
      let '(e, r) := repetition_count_test w r in
      (e =? FIPS_UNINITIALIZED) && rct_accepts ws r
  end.

Lemma has_run_app n l1 l2 : has_run n l1 -> has_run n (l1 ++ l2).
Proof. intros (b & pre & post & ->). exists b, pre, (post ++ l2). by rewrite <- !app_assoc. Qed.

Lemma rct_accepts_tracks ws : forall hist r,
  rct_tracks hist r -> ~ has_run 52 hist -> Forall is_word ws ->
  rct_accepts ws r = true <-> ~ has_run 52 (hist ++ concat (map bits ws)).
Proof.
  induction ws as [|w ws IH]; intros hist r T N Hws; cbn [rct_accepts map concat].
  - rewrite app_nil_r. by split.
  - apply Forall_cons in Hws as [Hw Hws]. pose proof (rct_step hist r w T Hw) as S.
    pose proof (run_spans 52 hist (bits w) N) as R. rewrite length_bits in R.
    specialize (R ltac:(lia)). destruct (repetition_count_test w r) as [e r'].
    rewrite app_assoc. destruct S as [(B & -> & _)|(B & -> & T')].
    + split; [done|]. intros N'. destruct N'. apply has_run_app. tauto.
    + cbn [Z.eqb FIPS_UNINITIALIZED andb]. apply IH; [done|tauto|done].
Qed.

(** ** The number of ones of a word *)

(** Digits of [k] bits, and the sums of neighbours. *)
Fixpoint digits (k : Z) (ds : list Z) : Z :=
  match ds with
  | [] => 0
  | d :: ds => d + 2 ^ k * digits k ds
  end.

Fixpoint evens (ds : list Z) : list Z :=
  match ds with
  | d0 :: _ :: ds => d0 :: evens ds
  | _ => ds
  end.

Fixpoint pairsum (ds : list Z) : list Z :=
  match ds with
  | d0 :: d1 :: ds => (d0 + d1) :: pairsum ds
  | _ => ds
  end.

Definition sum (ds : list Z) : Z := foldr Z.add 0 ds.

(** The mask of the lower halves of [n] digits of [2 k] bits. *)
Definition mask (k : Z) (n : nat) : Z := digits (2 * k) (replicate n (Z.ones k)).

Definition below (m : Z) (ds : list Z) : Prop := Forall (fun d => 0 <= d < m) ds.

Lemma testbit_split k a b i :
  0 <= k -> 0 <= a < 2 ^ k -> 0 <= i ->
  Z.testbit (a + 2 ^ k * b) i = if i <? k then Z.testbit a i else Z.testbit b (i - k).
Proof.
  intros Hk Ha Hi. destruct (Z.ltb_spec i k).
  - rewrite <- (Z.mod_pow2_bits_low (a + 2 ^ k * b) k i) by lia.
    rewrite (Z.mul_comm (2 ^ k)), Z.mod_add, Z.mod_small by lia. done.
  - replace i with ((i - k) + k) at 1 by lia. rewrite <- Z.div_pow2_bits by lia.
    rewrite (Z.mul_comm (2 ^ k)), Z.div_add, Z.div_small by lia. done.
Qed.

Lemma land_split k a b c d :
  0 <= k -> 0 <= a < 2 ^ k -> 0 <= c < 2 ^ k ->
  Z.land (a + 2 ^ k * b) (c + 2 ^ k * d) = Z.land a c + 2 ^ k * Z.land b d.
Proof.
  intros Hk Ha Hc. apply Z.bits_inj'. intros i Hi.
  assert (0 <= Z.land a c < 2 ^ k) as Hac.
  { rewrite <- (Z.mod_small c (2 ^ k)), <- Z.land_ones, Z.land_assoc, Z.land_ones by lia.
    apply Z.mod_pos_bound. lia. }
  rewrite Z.land_spec, !testbit_split by done. destruct (i <? k); by rewrite Z.land_spec.
Qed.

Lemma digits_range k ds :
  0 <= k -> below (2 ^ k) ds -> 0 <= digits k ds < 2 ^ (k * Z.of_nat (length ds)).
Proof.
  intros Hk. induction ds as [|d ds IH]; intros Hd; cbn [digits length].
  - rewrite Z.mul_0_r. cbn. lia.
  - apply Forall_cons in Hd as [Hd Hds]. specialize (IH Hds).
    replace (k * Z.of_nat (S (length ds))) with (k + k * Z.of_nat (length ds)) by lia.
    rewrite Z.pow_add_r by lia. nia.
Qed.

Lemma shiftr_digits k d ds :
  0 <= k -> 0 <= d < 2 ^ k -> Z.shiftr (digits k (d :: ds)) k = digits k ds.
Proof.
  intros Hk Hd. cbn [digits].
  rewrite Z.shiftr_div_pow2, (Z.mul_comm (2 ^ k)), Z.div_add, Z.div_small by lia. lia.
Qed.

Lemma digits_mask k n ds :
  0 < k -> below (2 ^ k) ds -> (length ds <= 2 * n)%nat ->
  Z.land (digits k ds) (mask k n) = digits (2 * k) (evens ds).
Proof.
  intros Hk. revert ds. unfold mask. induction n as [|n IH]; intros ds Hd Hl.
  { replace ds with (@nil Z) by (destruct ds; [done|simpl in Hl; lia]). done. }
  assert (Z.ones k = 2 ^ k - 1) as Ho by (rewrite Z.ones_equiv; lia).
  assert (0 < 2 ^ k) by (apply Z.pow_pos_nonneg; lia).
  assert (2 ^ (2 * k) = 2 ^ k * 2 ^ k) as H2 by (rewrite <- Z.pow_add_r by lia; f_equal; lia).
  cbn [replicate]. destruct ds as [|d0 [|d1 ds]]; cbn [evens digits]; [by rewrite Z.land_0_l| |].
  - apply Forall_cons in Hd as [Hd _]. rewrite !Z.mul_0_r.
    replace (d0 + 0) with (d0 + 2 ^ (2 * k) * 0) at 1 by lia.
    rewrite land_split by nia. rewrite Z.land_0_l, Z.land_ones, Z.mod_small by lia. lia.
  - apply Forall_cons in Hd as [Hd0 Hd]. apply Forall_cons in Hd as [Hd1 Hd].
    replace (d0 + 2 ^ k * (d1 + 2 ^ k * digits k ds))
      with ((d0 + 2 ^ k * d1) + 2 ^ (2 * k) * digits k ds) by (rewrite H2; lia).
    rewrite land_split by nia. rewrite IH by (done || simpl in Hl; lia).
    rewrite Z.land_ones, (Z.mul_comm (2 ^ k)), Z.mod_add, Z.mod_small by lia. done.
Qed.

Lemma even_ind (P : list Z -> Prop) :
  P [] -> (forall d0 d1 ds, P ds -> P (d0 :: d1 :: ds)) ->
  forall n ds, length ds = (2 * n)%nat -> P ds.
Proof.
  intros P0 P2. induction n as [|n IH]; intros ds Hl.
  - by destruct ds.
  - destruct ds as [|d0 [|d1 ds]]; cbn in Hl; [lia|lia|]. apply P2, IH. lia.
Qed.

Lemma evens_cons d ds : evens (d :: ds) = d :: evens (tl ds).
Proof. by destruct ds. Qed.

Lemma digits_halves k n ds :
  0 <= k -> length ds = (2 * n)%nat ->
  digits k ds = digits (2 * k) (evens ds) + 2 ^ k * digits (2 * k) (evens (tl ds)).
Proof.
  intros Hk. assert (2 ^ (2 * k) = 2 ^ k * 2 ^ k) as H2
    by (rewrite <- Z.pow_add_r by lia; f_equal; lia).
  revert n ds. apply even_ind; [cbn; lia|]. intros d0 d1 ds IH.
  cbn [tl]. rewrite !evens_cons. cbn [tl digits]. rewrite IH, H2. lia.
Qed.

Lemma digits_pairsum k n ds :
  length ds = (2 * n)%nat ->
  digits k (pairsum ds) = digits k (evens ds) + digits k (evens (tl ds)).
Proof.
  revert n ds. apply even_ind; [done|]. intros d0 d1 ds IH.
  cbn [tl pairsum]. rewrite !evens_cons. cbn [tl digits]. rewrite IH. lia.
Qed.

Lemma pairsum_facts m n ds :
  length ds = (2 * n)%nat -> below m ds ->
  length (pairsum ds) = n /\ sum (pairsum ds) = sum ds /\ below (2 * m - 1) (pairsum ds).
Proof.
  revert ds. induction n as [|n IH]; intros ds Hl Hd.
  - destruct ds; [|done]. split_and!; [done..|constructor].
  - destruct ds as [|d0 [|d1 ds]]; cbn in Hl; [lia|lia|].
    apply Forall_cons in Hd as [H0 Hd]. apply Forall_cons in Hd as [H1 Hd].
    destruct (IH ds ltac:(lia) Hd) as (L & S & B). unfold sum in *. cbn. split_and!; [lia|lia|].
    constructor; [lia|exact B].
Qed.

Lemma shiftr_tl k ds : 0 <= k -> below (2 ^ k) ds -> Z.shiftr (digits k ds) k = digits k (tl ds).
Proof.
  intros Hk Hd. destruct ds as [|d ds]; [apply Z.shiftr_0_l|].
  apply Forall_cons in Hd as [Hd _]. by apply shiftr_digits.
Qed.

Lemma below_tl m ds : below m ds -> below m (tl ds).
Proof. intros Hd. destruct ds; [done|]. by apply Forall_cons in Hd as [_ Hd]. Qed.

(** Adding the digits at odd places to those at even places. *)
Lemma add_halves k n ds :
  0 < k -> below (2 ^ k) ds -> length ds = (2 * n)%nat ->
  Z.land (digits k ds) (mask k n) + Z.land (Z.shiftr (digits k ds) k) (mask k n) =
  digits (2 * k) (pairsum ds).
Proof.
  intros Hk Hd Hl. rewrite shiftr_tl by (lia || done).
  rewrite !digits_mask; try done.
  - symmetry. by apply (digits_pairsum _ n).
  - by apply below_tl.
  - destruct ds; cbn in *; lia.
  - lia.
Qed.

Lemma digits_bits w n :
  digits 1 (map (fun i => b2z (Z.testbit w (Z.of_nat i))) (seq 0 n)) = w mod 2 ^ Z.of_nat n.
Proof.
  assert (forall i, digits 1 (map (fun i => b2z (Z.testbit w (Z.of_nat i))) (seq i n))
    = (w / 2 ^ Z.of_nat i) mod 2 ^ Z.of_nat n) as E.
  { induction n as [|n IH]; intros i; [by rewrite Z.mod_1_r|].
    cbn [seq map digits]. rewrite IH.
    replace (Z.of_nat (S i)) with (Z.of_nat i + 1) by lia.
    replace (Z.of_nat (S n)) with (1 + Z.of_nat n) by lia.
    rewrite !Z.pow_add_r, <- Z.div_div by lia. rewrite Z.rem_mul_r by lia.
    f_equal. rewrite Z.testbit_spec' by lia. by destruct (Z.testbit w (Z.of_nat i)) || idtac. }
  rewrite (E 0%nat). by rewrite Z.div_1_r.
Qed.

Lemma digits_word w : is_word w -> digits 1 (map b2z (bits w)) = w.
Proof.
  intros Hw. unfold bits. rewrite map_map, digits_bits. by apply Z.mod_small.
Qed.

Lemma ones_sum l : ones l = sum (map b2z l).
Proof. induction l as [|b l IH]; [done|]. cbn. unfold sum in IH. by rewrite IH. Qed.

Lemma below_bits l : below 2 (map b2z l).
Proof. apply Forall_map, Forall_true. intros []; cbn; lia. Qed.

Lemma below_mono m m' ds : m <= m' -> below m ds -> below m' ds.
Proof. intros Hm Hd. apply (Forall_impl _ _ _ Hd). intros d. cbn. lia. Qed.

#[local] Ltac below_tac := unfold below; repeat rewrite Forall_cons; rewrite ?Forall_nil; lia.

(** The last steps, on eight digits of four bits. *)
Lemma popcount_nibbles ds :
  length ds = 8%nat -> below 5 ds ->
  let x := Z.land (u32 (digits 4 ds + Z.shiftr (digits 4 ds) 4)) (mask 4 4) in
  let x := u32 (x + Z.shiftr x 8) in
  let x := u32 (x + Z.shiftr x 16) in
  Z.land x 0x3F = sum ds.
Proof.
  intros Hl Hd. destruct ds as [|a [|b [|c [|d [|e [|f [|g [|h [|]]]]]]]]]; try done.
  rewrite shiftr_tl by (lia || by apply (below_mono 5); [lia|]). cbn [tl].
  repeat (apply Forall_cons in Hd as [? Hd]).
  assert (digits 4 [a; b; c; d; e; f; g; h] + digits 4 [b; c; d; e; f; g; h] =
    digits 4 [a + b; b + c; c + d; d + e; e + f; f + g; g + h; h]) as -> by (cbn; lia).
  set (l := [a + b; _; _; _; _; _; _; _]).
  assert (below (2 ^ 4) l) as Bl by (unfold l; below_tac).
  pose proof (digits_range 4 l ltac:(lia) Bl) as R. cbn [length l] in R.
  assert (u32 (digits 4 l) = digits 4 l) as -> by (apply Z.mod_small; lia).
  rewrite digits_mask by (lia || done || cbn; lia). cbv zeta.
  change (2 * 4) with 8. change (evens l) with [a + b; c + d; e + f; g + h].
  rewrite shiftr_tl by (lia || below_tac). cbn [tl].
  assert (digits 8 [a + b; c + d; e + f; g + h] + digits 8 [c + d; e + f; g + h] =
    digits 16 [(a + b + (c + d)) + 256 * (c + d + (e + f)); (e + f + (g + h)) + 256 * (g + h)])
    as -> by (cbn; lia).
  set (p := _ + 256 * _). set (q := _ + 256 * _).
  assert (0 <= p < 2 ^ 14 /\ 0 <= q < 2 ^ 14) as [Hp Hq] by lia.
  assert (u32 (digits 16 [p; q]) = digits 16 [p; q]) as ->
    by (apply Z.mod_small; cbn; lia).
  rewrite shiftr_tl by (lia || below_tac). cbn [tl].
  change 0x3F with (Z.ones 6). rewrite Z.land_ones by lia.
  unfold uN, sum. cbn [digits foldr].
  rewrite (Z.mod_small _ (2 ^ 32)) by lia.
  replace (p + 2 ^ 16 * (q + 2 ^ 16 * 0) + (q + 2 ^ 16 * 0))
    with (a + (b + (c + (d + (e + (f + (g + h))))))
      + ((c + d + (e + f)) * 4 + (g + h) * 4 + q * 2 ^ 10) * 2 ^ 6) by (unfold p, q; lia).
  rewrite Z.mod_add, Z.mod_small by lia. lia.
Qed.

Lemma popcount_ones w : is_word w -> popcount w = ones (bits w).
Proof.
  intros Hw. unfold popcount. rewrite ones_sum. pose proof (below_bits (bits w)) as B0.
  pose proof (length_bits w) as L0. pose proof (digits_word w Hw) as E.
  set (d0 := map b2z (bits w)) in *. assert (length d0 = (2 * 16)%nat) as L0'
    by (unfold d0; by rewrite length_map).
  change 0x55555555 with (mask 1 16). change 0x33333333 with (mask 2 8).
  change 0x0F0F0F0F with (mask 4 4). change 0x3F with (Z.ones 6).
  destruct (pairsum_facts 2 16 d0 L0' B0) as (L1 & S1 & B1).
  destruct (pairsum_facts 3 8 (pairsum d0) L1 B1) as (L2 & S2 & B2).
  assert (w - Z.land (Z.shiftr w 1) (mask 1 16) = digits 2 (pairsum d0)) as ->.
  { rewrite <- E. rewrite (digits_pairsum 2 16), (digits_halves 1 16) at 1 by (lia || done).
    rewrite shiftr_tl, digits_mask; try (lia || done).
    - change (2 * 1) with 2. lia.
    - by apply below_tl.
    - destruct d0; cbn in *; lia. }
  assert (below (2 ^ 2) (pairsum d0)) as B1' by (apply (below_mono 3); [lia|done]).
  pose proof (digits_range 2 _ ltac:(lia) B1') as R1. rewrite L1 in R1.
  assert (u32 (digits 2 (pairsum d0)) = digits 2 (pairsum d0)) as -> by (apply Z.mod_small; lia).
  rewrite (add_halves 2 8) by (lia || done).
  assert (below (2 ^ 4) (pairsum (pairsum d0))) as B2' by (apply (below_mono 5); [lia|done]).
  pose proof (digits_range 4 _ ltac:(lia) B2') as R2. rewrite L2 in R2.
  change (2 * 2) with 4.
  assert (u32 (digits 4 (pairsum (pairsum d0))) = digits 4 (pairsum (pairsum d0))) as ->
    by (apply Z.mod_small; lia).
  rewrite <- S1, <- S2. exact (popcount_nibbles _ L2 B2).
Qed.

(** ** The adaptive proportion test *)

Definition word_ones (w : Z) : Z := ones (bits w).

Lemma word_ones_range w : 0 <= word_ones w <= 32.
Proof.
  unfold word_ones. assert (forall l, 0 <= ones l <= Z.of_nat (length l)) as O.
  { induction l as [|x l IH]; cbn; [lia|]. destruct x; cbn; lia. }
  specialize (O (bits w)). rewrite length_bits in O. lia.
Qed.

(** The counts of the ring buffer, the oldest first. *)
Definition ring (r : rand_state) : list Z := drop (oldest r) (pops r) ++ take (oldest r) (pops r).

(** The ring holds the last 32 words of [hist]; [fed] is how many of them came from the noise
    source. *)
Record apt_tracks (hist : list Z) (fed : nat) (r : rand_state) : Prop := {
  at_len : length hist = 32%nat;
  at_ring : ring r = map word_ones hist;
  at_count : count r = sum (pops r);
  at_oldest : (oldest r < 32)%nat;
  at_init : if apt_initialized r then (32 <= fed)%nat else (fed < 32)%nat /\ oldest r = fed
}.

Lemma sum_app l1 l2 : sum (l1 ++ l2) = sum l1 + sum l2.
Proof. unfold sum. induction l1 as [|x l1 IH]; cbn; [done|]. lia. Qed.

Lemma sum_range l : sum (map word_ones l) <= 32 * Z.of_nat (length l) /\ 0 <= sum (map word_ones l).
Proof.
  unfold sum. induction l as [|w l IH]; cbn [map foldr length]; [lia|].
  pose proof (word_ones_range w). lia.
Qed.

Lemma apt_step hist fed r w :
  apt_tracks hist fed r -> is_word w ->
  let '(e, r') := adaptive_proportion_test w r in
  apt_tracks (tl hist ++ [w]) (S fed) r' /\
  e = (if Nat.leb 32 (S fed) && misbalanced (sum (map word_ones (tl hist ++ [w])))
       then FIPS_FATAL_TRNG_APT else FIPS_UNINITIALIZED).
Proof.
  intros [Hl Hr Hc Ho Hi] Hw. unfold adaptive_proportion_test. cbv zeta.
  rewrite popcount_ones by done. fold (word_ones w).
  pose proof (word_ones_range w) as Rw.
  assert (u8 (word_ones w) = word_ones w) as -> by (apply Z.mod_small; lia).
  assert (length (pops r) = 32%nat) as Lp.
  { apply (f_equal length) in Hr. unfold ring in Hr.
    rewrite length_app, length_drop, length_take, length_map in Hr. lia. }
  set (o := oldest r) in *.
  destruct (lookup_lt_is_Some_2 (pops r) o ltac:(lia)) as [x Ex].
  assert (nth o (pops r) 0 = x) as -> by (by apply nth_lookup_Some).
  pose proof (take_drop_middle _ _ _ Ex) as M. set (p := word_ones w) in *.
  assert (drop o (pops r) = x :: drop (S o) (pops r)) as D by (by apply drop_S).
  destruct hist as [|h hist]; [done|]. unfold ring in Hr. fold o in Hr. rewrite D in Hr.
  cbn [map tl app] in *. injection Hr as Hx Hr.
  assert (<[o := p]> (pops r) = take o (pops r) ++ p :: drop (S o) (pops r)) as U
    by (apply insert_take_drop; lia).
  assert (sum (pops r) = x + sum (map word_ones hist)) as Sr.
  { rewrite <- M, <- Hr, !sum_app. 
    change (sum (x :: drop (S o) (pops r))) with (x + sum (drop (S o) (pops r))). lia. }
  assert (sum (map word_ones (hist ++ [w])) = p + sum (map word_ones hist)) as Sh
    by (rewrite map_app, sum_app; change (sum (map word_ones [w])) with (p + 0); lia).
  pose proof (sum_range hist) as Rs. simpl in Hl. injection Hl as Hl. rewrite Hl in Rs.
  assert (u32 (u32 (count r - x) + p) = sum (map word_ones (hist ++ [w]))) as Ec.
  { rewrite Hc, Sr, Sh. unfold uN. rewrite (Z.mod_small (_ - _)) by lia.
    rewrite Z.mod_small by lia. lia. }
  rewrite Ec. split; cbn [count last_clz last_clo pops rct_count oldest apt_initialized].
  - change APT_WINDOW_SIZE_NWORDS with 32%nat. split; cbn [apt_initialized oldest pops count].
    + rewrite length_app. cbn. lia.
    + unfold ring. cbn [apt_initialized oldest pops count].
      rewrite map_app. cbn [map]. fold p. rewrite <- Hr, <- app_assoc.
      assert (length (take o (pops r)) = o) as Lt by (rewrite length_take; lia).
      destruct (Nat.leb_spec 32 (S o)).
      * rewrite drop_0, take_0, app_nil_r, U. rewrite (drop_ge (pops r)) by lia. done.
      * rewrite U, drop_app_ge, take_app_ge by (rewrite Lt; lia). rewrite Lt.
        replace (S o - o)%nat with 1%nat by lia. done.
    + rewrite U, Sh, !sum_app. rewrite <- Hr, sum_app.
      change (sum (p :: drop (S o) (pops r))) with (p + sum (drop (S o) (pops r))). lia.
    + destruct (Nat.leb_spec 32 (S o)); lia.
    + destruct (apt_initialized r); cbn [orb]; [lia|]. destruct Hi as [Hf Ho'].
      destruct (Nat.leb_spec 32 (S o)); lia.
  - f_equal. change APT_WINDOW_SIZE_NWORDS with 32%nat.
    destruct (apt_initialized r); cbn [orb].
    + by rewrite (proj2 (Nat.leb_le 32 (S fed))) by lia.
    + destruct Hi as [_ <-]. done.
Qed.

(** The static state of the module after a reset of the chip. *)
Definition rand_reset : rand_state := mkRand 0 0 0 (replicate 32 0) 0 0 false.

Lemma apt_reset : apt_tracks (replicate 32 0) 0 rand_reset.
Proof. split; (done || cbn; lia). Qed.

(** ** Both tests *)

Lemma rct_keeps_apt hist fed r w :
  apt_tracks hist fed r -> apt_tracks hist fed (repetition_count_test w r).2.
Proof.
  unfold repetition_count_test. cbv zeta. intros T. destruct (_ || _); [done|].
  cbn [snd]. destruct T. by split.
Qed.

Lemma apt_keeps_rct hist r w :
  rct_tracks hist r -> rct_tracks hist (adaptive_proportion_test w r).2.
Proof. done. Qed.

Section Stream.
Context `{FipsHw}.

(** The words of a stream, tested until the first that fails. *)
Fixpoint health_accepts (ws : list Z) (s : fips) : bool :=
  match ws with
  | [] => true
  | w :: ws =>
      let '(e, s) := health_tests w s in
      (e =? FIPS_UNINITIALIZED) && health_accepts ws s
  end.

Definition stream (ws : list Z) : list bool := concat (map bits ws).

Lemma stream_app l1 l2 : stream (l1 ++ l2) = stream l1 ++ stream l2.
Proof. unfold stream. by rewrite map_app, concat_app. Qed.

Lemma ones_stream ws : ones (stream ws) = sum (map word_ones ws).
Proof.
  assert (forall l1 l2, ones (l1 ++ l2) = ones l1 + ones l2) as A.
  { intros l1 l2. induction l1 as [|x l1 IH]; cbn; [done|]. rewrite IH. lia. }
  induction ws as [|w ws IH]; [done|]. unfold stream, sum in *.
  cbn [map concat foldr]. by rewrite A, IH.
Qed.

(** The stream of the last 32 of the first [n] words. *)
Definition window (n : nat) (ws : list Z) : list bool := stream (take 32 (drop (n - 32) ws)).

Lemma tl_drop {A} n (l : list A) : tl (drop n l) = drop (S n) l.
Proof. revert l. induction n as [|n IH]; intros [|x l]; try done. apply IH. Qed.

(** The window that the ring holds. *)
Lemma window_hist pre w ws :
  (32 <= S (length pre))%nat ->
  ones (window (S (length pre)) (pre ++ w :: ws)) =
  sum (map word_ones (tl (drop (length pre) (replicate 32 0 ++ pre)) ++ [w])).
Proof.
  intros Hl. unfold window. rewrite ones_stream. do 2 f_equal.
  rewrite tl_drop. rewrite (drop_app_ge (replicate _ _)), length_replicate
    by (rewrite length_replicate; lia).
  rewrite drop_app_le by lia.
  rewrite take_app_ge, length_drop by (rewrite length_drop; lia). f_equal.
  by replace (32 - (length pre - (S (length pre) - 32)))%nat with 1%nat by lia.
Qed.

Lemma hist_snoc pre w :
  tl (drop (length pre) (replicate 32 0 ++ pre)) ++ [w] =
  drop (length (pre ++ [w])) (replicate 32 0 ++ pre ++ [w]).
Proof.
  rewrite tl_drop, length_app, app_assoc, Nat.add_1_r.
  rewrite (drop_app_le (_ ++ _)); [done|]. rewrite length_app, length_replicate. lia.
Qed.

Definition balanced (n : nat) (ws : list Z) : Prop :=
  (32 <= n)%nat -> 316 <= ones (window n ws) <= 708.

Lemma misbalanced_spec c : misbalanced c = false <-> 316 <= c <= 708.
Proof.
  unfold misbalanced. change APT_CUTOFF_SAMPLES with 708. change APT_WINDOW_SIZE_BITS with 1024.
  rewrite orb_false_iff, !Z.ltb_ge. lia.
Qed.

Lemma health_accepts_tracks ws : forall pre s,
  rct_tracks (stream pre) (rand s) ->
  apt_tracks (drop (length pre) (replicate 32 0 ++ pre)) (length pre) (rand s) ->
  ~ has_run 52 (stream pre) -> Forall is_word ws ->
  health_accepts ws s = true <->
  ~ has_run 52 (stream (pre ++ ws)) /\
  forall n, (length pre < n <= length (pre ++ ws))%nat -> balanced n (pre ++ ws).
Proof.
  induction ws as [|w ws IH]; intros pre s R A N Hws; cbn [health_accepts].
  { rewrite app_nil_r. split; [|done]. intros _. split; [done|]. lia. }
  apply Forall_cons in Hws as [Hw Hws]. unfold health_tests.
  pose proof (rct_step _ _ w R Hw) as SR.
  pose proof (rct_keeps_apt _ _ _ w A) as A1.
  pose proof (run_spans 52 (stream pre) (bits w) N) as Sp. rewrite length_bits in Sp.
  specialize (Sp ltac:(lia)).
  destruct (repetition_count_test w (rand s)) as [e1 r1]. cbn [snd] in A1.
  pose proof (apt_step _ _ _ w A1 Hw) as SA.
  pose proof (fun h => apt_keeps_rct h r1 w) as R1.
  destruct (adaptive_proportion_test w r1) as [e2 r2]. cbn [snd] in R1.
  destruct SA as [A2 ->]. rewrite hist_snoc in A2.
  assert (stream (pre ++ w :: ws) = (stream pre ++ bits w) ++ stream ws) as Es
    by (rewrite stream_app; apply app_assoc).
  destruct SR as [(B & -> & _)|(B & -> & R2)].
  { split.
    - by destruct (Nat.leb _ _ && _).
    - intros [N' _]. destruct N'. rewrite Es. apply has_run_app. tauto. }
  assert (length (pre ++ [w]) = S (length pre)) as L by (rewrite length_app; cbn; lia).
  specialize (IH (pre ++ [w]) (set_rand r2 s)). rewrite <- !app_assoc, L in IH.
  rewrite L in A2. cbn [app] in IH.
  assert (stream (pre ++ [w]) = stream pre ++ bits w) as Ew
    by (rewrite stream_app; unfold stream; cbn [map concat]; by rewrite app_nil_r).
  rewrite Ew in IH.
  specialize (IH (R1 _ R2) A2 ltac:(tauto) Hws).
  assert (forall n, (length pre < n <= length (pre ++ w :: ws))%nat <->
    n = S (length pre) \/ (S (length pre) < n <= length (pre ++ w :: ws))%nat) as Hn
    by (intros n; rewrite length_app; cbn; lia).
  destruct (Nat.leb 32 (S (length pre)) && _) eqn:E.
  - split; [done|]. intros [_ Hb]. apply andb_true_iff in E as [E1%Nat.leb_le E2].
    specialize (Hb (S (length pre)) (proj2 (Hn _) (or_introl eq_refl)) E1).
    rewrite window_hist in Hb by done. apply misbalanced_spec in Hb. by rewrite Hb in E2.
  - cbn [Z.lor FIPS_UNINITIALIZED Z.eqb andb]. rewrite IH. split; intros [N' Hb].
    + split; [done|]. intros n [->|Hn']%Hn; [|by apply Hb]. intros Hl.
      rewrite window_hist by done. apply misbalanced_spec.
      apply andb_false_iff in E as [E%Nat.leb_gt|E]; [lia|done].
    + split; [done|]. intros n Hn'. apply Hb, Hn. by right.
Qed.

(** C17. From the reset of the chip on, the health tests accept a stream of words exactly when it
    has no run of 52 equal bits (across words, the lowest bit of a word first) and each full
    window of 1024 bits that ends at a word has between 316 and 708 ones. *)
Theorem health_tests_exact ws s :
  rand s = rand_reset -> Forall is_word ws ->
  health_accepts ws s = true <->
  ~ has_run 52 (stream ws) /\
  forall n, (32 <= n <= length ws)%nat -> 316 <= ones (window n ws) <= 708.
Proof.
  intros Hr Hws. rewrite (health_accepts_tracks ws [] s); try done.
  - split; intros [N Hb]; (split; [done|]); intros n Hn.
    + refine (Hb n _ _); cbn [app length]; lia.
    + intros Hl. apply (Hb n). cbn [app length] in Hn. lia.
  - by rewrite Hr.
  - rewrite Hr. exact apt_reset.
  - intros (b & l1 & l2 & E). apply (f_equal length) in E.
    rewrite !length_app, length_replicate in E. cbn in E. lia.
Qed.

(** ** Reading terminates *)

(** Rounds left before the loop of [read_rand] stops. *)
Definition read_rounds (empty_count reset_count : Z) : Z :=
  (TRNG_RESET_COUNT - reset_count) * (TRNG_EMPTY_COUNT + 1) + (2 - empty_count).

Lemma read_loop_total fuel : forall empty_count reset_count x,
  0 <= empty_count <= TRNG_EMPTY_COUNT + 1 ->
  0 <= reset_count <= TRNG_RESET_COUNT -> (reset_count = TRNG_RESET_COUNT -> empty_count = 1) ->
  read_rounds empty_count reset_count <= Z.of_nat fuel ->
  exists n y, read_loop fuel empty_count reset_count x = (Some n, y) /\
  reset_count <= n <= TRNG_RESET_COUNT.
Proof.
  unfold read_rounds. change TRNG_RESET_COUNT with 32. change TRNG_EMPTY_COUNT with 0xfff.
  induction fuel as [|fuel IH]; intros ec rc x He Hr H1 Hf; [lia|].
  cbn [read_loop]. change TRNG_RESET_COUNT with 32. change TRNG_EMPTY_COUNT with 0xfff.
  unfold bind, ret. destruct (trng_empty x) as [empty x1].
  destruct (empty && (rc <? 32)) eqn:E.
  - apply andb_true_iff in E as [_ E%Z.ltb_lt]. destruct (trng_idle x1) as [idle x2].
    destruct (idle || (0xfff <? ec)) eqn:E2.
    + destruct (trng_restart x2) as [u x3].
      destruct (IH (0 + 1) (rc + 1) x3) as (n & y & En & Hn); [lia..|].
      exists n, y. split; [done|lia].
    + apply orb_false_iff in E2 as [_ E2%Z.ltb_ge].
      destruct (IH (ec + 1) rc x2) as (n & y & En & Hn); [lia..|].
      exists n, y. split; [done|lia].
  - exists rc, x1. split; [done|lia].
Qed.

Lemma read_fuel_enough : read_rounds 0 0 <= Z.of_nat read_fuel.
Proof.
  unfold read_fuel. rewrite Z2Nat.id by (unfold TRNG_RESET_COUNT, TRNG_EMPTY_COUNT; lia).
  unfold read_rounds, TRNG_RESET_COUNT, TRNG_EMPTY_COUNT. lia.
Qed.

#[local] Opaque read_fuel.

(** Reading the noise source always ends: after at most 32 restarts it gives a word, which
    has bit 32 set exactly when fewer restarts were needed. *)
Theorem read_rand_total s :
  exists resets w s', read_rand s = (w, s') /\ 0 <= resets <= TRNG_RESET_COUNT /\
  (exists d x, trng_read_data x = (d, trng s') /\
   w = Z.lor d (if resets <? TRNG_RESET_COUNT then 2 ^ 32 else 0)) /\
  flash_log s' = flash_log s ++ (if 0 <? resets then [(FE_LOG_TRNG_STALL, [resets])] else []).
Proof.
  destruct (read_loop_total read_fuel 0 0 (trng s)) as (n & y & E & Hn);
    [unfold TRNG_EMPTY_COUNT; lia|unfold TRNG_RESET_COUNT; lia|discriminate|
     exact read_fuel_enough|].
  unfold read_rand, on_trng, bind, ret, modify. rewrite E.
  destruct (trng_read_data y) as [d z] eqn:Ed. exists n.
  destruct (0 <? n); cbn [trng set_trng flash_log_add flash_log]; rewrite Ed; do 2 eexists.
  - split; [reflexivity|]. split; [done|]. split; [|done]. exists d, y. split; [done|].
    by destruct (n <? _).
  - split; [reflexivity|]. split; [done|]. split; [|by rewrite app_nil_r]. exists d, y.
    split; [done|]. by destruct (n <? _).
Qed.

End Stream.

(** ** A noise source that gives a list of words, and an accelerator that is a function *)

#[export] Instance list_trng : FipsHw := {
  trng_hw := list Z;
  trng_empty l := (match l with [] => true | _ => false end, l);
  trng_idle := ret true;
  trng_restart := ret tt;
  trng_read_data l := (hd 0 l, tl l);
  crypto_core := Z -> list Z -> list Z;
  core_reset := ret tt;
  core_run adr imem dmem f := ((true, 1, f adr dmem), f)
}.

(** An accelerator out of reset, with what it computes. *)
Definition reset_dcrypto (f : Z -> list Z -> list Z) : dcrypto_hw :=
  mkDcrypto list_trng false false [] [] f.

(** The state after a reset of the chip. *)
Definition reset_fips (noise : list Z) : fips :=
  mkFips list_trng (toy_hw false) noise rand_reset (drbg_exit toy_drbg) FIPS_UNINITIALIZED 0
    KEYMGR_CERT_REVOKE_CTRL0_DEFAULT_VAL KEYMGR_CERT_REVOKE_CTRL1_DEFAULT_VAL 0 (zeros 8) 0 []
    (reset_dcrypto (fun _ dmem => dmem)).

Lemma health_tests_exact_witness :
  health_accepts [0xFFFF0000; 0xAFFFFFFF] (reset_fips []) = true <->
  ~ has_run 52 (stream [0xFFFF0000; 0xAFFFFFFF]) /\
  forall n, (32 <= n <= 2)%nat ->
    316 <= ones (window n [0xFFFF0000; 0xAFFFFFFF]) <= 708.
Proof.
  apply (health_tests_exact [0xFFFF0000; 0xAFFFFFFF] (reset_fips [])).
  - reflexivity.
  - repeat constructor; unfold is_word; lia.
Defined.

Example health_run_found :
  health_accepts [0xFFFF0000; 0xFFFFFFFF; 0x0000000F] (reset_fips []) = false.
Proof. vm_compute. reflexivity. Qed.

Example health_bias_found :
  health_accepts (replicate 32 0xFFFFF0F0) (reset_fips []) = false /\
  health_accepts (replicate 16 0xFFFFF0F0 ++ replicate 16 0x55555555) (reset_fips []) = true.
Proof. vm_compute. split; reflexivity. Qed.
