(* ===== verification/Dcrypto.v ===== *)
(** * The driver of the crypto accelerator (board/cr50/dcrypto/dcrypto_runtime.c)

    The accelerator runs code of its instruction memory on its data memory; the driver locks
    it, loads code and data, calls, and wipes everything when a call fails.  What a call
    computes is a parameter ([core_run]). *)

From S2P Require Import Prelude Hash HmacSpec ShaHw ShaHwPaths Drbg FipsRand.

Definition DMEM_NUM_WORDS : nat := 1024.
Definition IMEM_NUM_WORDS : nat := 1024.
Definition wiped_value : Z := 0xdddddddd.

Definition GC_CRYPTO_INT_STATE_HOST_CMD_RECV_MASK : Z := 0x1.
Definition GC_CRYPTO_INT_STATE_MOD_OPERAND_OUT_OF_RANGE_MASK : Z := 0x800.

Definition FE_LOG_DCRYPTO_FAILURE : Z := 8.

Section Driver.
Context `{FipsHw}.

Definition set_dmem (m : list Z) (d : dcrypto_hw) : dcrypto_hw :=
  mkDcrypto _ (dcrypto_mutex d) (dcrypto_is_initialized d) (imem d) m (core d).
Definition set_imem (m : list Z) (d : dcrypto_hw) : dcrypto_hw :=
  mkDcrypto _ (dcrypto_mutex d) (dcrypto_is_initialized d) m (dmem d) (core d).
Definition set_core (c : crypto_core) (d : dcrypto_hw) : dcrypto_hw :=
  mkDcrypto _ (dcrypto_mutex d) (dcrypto_is_initialized d) (imem d) (dmem d) c.
Definition set_mutex (b : bool) (d : dcrypto_hw) : dcrypto_hw :=
  mkDcrypto _ b (dcrypto_is_initialized d) (imem d) (dmem d) (core d).
Definition set_initialized (b : bool) (d : dcrypto_hw) : dcrypto_hw :=
  mkDcrypto _ (dcrypto_mutex d) b (imem d) (dmem d) (core d).

(** A step of the driver. *)
Definition on_dcrypto {A} (m : ST dcrypto_hw A) : ST fips A :=
  fun s => let '(a, x) := m (dcrypto s) in (a, set_dcrypto x s).

Definition on_core {A} (m : ST crypto_core A) : ST dcrypto_hw A :=
  fun d => let '(a, x) := m (core d) in (a, set_core x d).

Definition dcrypto_reset_and_wipe : ST dcrypto_hw unit :=
  on_core core_reset ;;;
  modify (set_dmem (replicate DMEM_NUM_WORDS wiped_value)).

Definition dcrypto_wipe_imem : ST dcrypto_hw unit :=
  modify (set_imem (replicate IMEM_NUM_WORDS wiped_value)).

(** The lock is free when a task gets it; the registers that are only set are not modelled. *)
Definition dcrypto_init_and_lock : ST dcrypto_hw unit :=
  modify (set_mutex true) ;;;
  let* initialized := gets dcrypto_is_initialized in
  if initialized then ret tt
  else
    dcrypto_reset_and_wipe ;;;
    dcrypto_wipe_imem ;;;
    modify (set_initialized true).

Definition dcrypto_unlock : ST dcrypto_hw unit := modify (set_mutex false).

(** The status of a call that worked. *)
Definition status_ok (state : Z) : bool :=
  Z.land state (Z.lxor (Z.ones 32) (Z.lor GC_CRYPTO_INT_STATE_MOD_OPERAND_OUT_OF_RANGE_MASK
                                      GC_CRYPTO_INT_STATE_HOST_CMD_RECV_MASK)) =? 0.

Definition dcrypto_call (adr : Z) : ST fips Z :=
  let* (event, state) := on_dcrypto (fun d =>
    let '(event, state, m, c) := core_run adr (imem d) (dmem d) (core d) in
    ((event, state), set_core c (set_dmem m d))) in
  if (event : bool) && status_ok state then ret 0
  else
    on_dcrypto dcrypto_reset_and_wipe ;;;
    let state := Z.lor state (u32 (Z.shiftl adr 16)) in
    modify (flash_log_add FE_LOG_DCRYPTO_FAILURE (le_bytes 4 state)) ;;;
    ret 1.

Definition dcrypto_imem_load (offset : nat) (opcodes : list Z) : ST dcrypto_hw unit :=
  modify (fun d =>
    if nth offset (imem d) 0 =? nth 0 opcodes 0 then d
    else set_imem (splice offset opcodes (imem d)) d).

(** [diff |= ptr[i] ^ v] over the words. *)
Definition dcrypto_dmem_load (offset : nat) (words : list Z) : ST dcrypto_hw Z :=
  let at_ := (offset * 8)%nat in
  let* old := gets (fun d => sub at_ (length words) (dmem d)) in
  modify (fun d => set_dmem (splice at_ words (dmem d)) d) ;;;
  ret (diff_bytes 0 old words).

End Driver.
