(* ===== verification/P256.v ===== *)
(** * Numbers of 256 bits (board/cr50/dcrypto/p256.c)

    A [p256_int] is a list of 8 digits of 32 bits, the least significant first; seen as bytes
    ([b8]) it is [word_bytes].  The comparisons, the conversions and the choice of a private
    key by testing candidates. *)

From S2P Require Import Prelude Hash HmacSpec ShaHw ShaHwPaths Drbg FipsRand.

Definition P256_NDIGITS : nat := 8.
Definition P256_NBYTES : nat := 32.
Definition P256_BITSPERDIGIT : Z := 32.

(** The order of the curve less 2. *)
Definition SECP256r1_nMin2 : list Z :=
  [0xfc632551 - 2; 0xf3b9cac2; 0xa7179e84; 0xbce6faad; u32 (-1); u32 (-1); 0; u32 (-1)].

(** ** Arithmetic on digits *)

Definition p256_clear : list Z := zeros P256_NDIGITS.

Definition p256_is_zero (a : list Z) : bool := negb (nz (fold_left Z.lor a 0)).

(** [carry] is a [p256_ddigit], of 64 bits. *)
Fixpoint add_loop (a : list Z) (carry : Z) : list Z * Z :=
  match a with
  | [] => ([], carry)
  | x :: a =>
      let carry := u64 (carry + x) in
      let '(b, c) := add_loop a (Z.shiftr carry P256_BITSPERDIGIT) in
      (u32 carry :: b, c)
  end.

(** The sum and the carry. *)
Definition p256_add_d (a : list Z) (d : Z) : list Z * Z :=
  let '(b, carry) := add_loop a d in (b, i32 (u32 carry)).

(** [borrow] is a [p256_sddigit], of 64 bits, which no digit overflows; shifting it is
    arithmetic. *)
Fixpoint cmp_loop (a b : list Z) (borrow notzero : Z) : Z * Z :=
  match a, b with
  | x :: a, y :: b =>
      let borrow := borrow + (x - y) in
      let notzero := Z.lor notzero (if nz (u32 borrow) then 1 else 0) in
      cmp_loop a b (Z.shiftr borrow P256_BITSPERDIGIT) notzero
  | _, _ => (borrow, notzero)
  end.

Definition p256_cmp (a b : list Z) : Z :=
  let '(borrow, notzero) := cmp_loop a b 0 0 in Z.lor borrow notzero.

Definition p256_is_odd (a : list Z) : Z := Z.land (nth 0 a 0) 1.

(** ** Bytes *)

(** [src_len] bytes from the end. *)
Definition reverse_bytes (src : list Z) (src_len : nat) : list Z := rev (take src_len src).

(** The digits as bytes. *)
Definition word_bytes (ws : list Z) : list Z := concat (map (le_bytes 4) ws).

(** The digits of 32 bytes of memory. *)
Definition of_b8 (b8 : list Z) : list Z := map (fun i => word i b8) (seq 0 P256_NDIGITS).

Definition p256_to_bin (src : list Z) : list Z := reverse_bytes (word_bytes src) P256_NBYTES.

Definition p256_from_bin (src : list Z) : list Z := of_b8 (reverse_bytes src P256_NBYTES).

(** The loop over leading bytes: what is left, or nothing when one is not 0. *)
Fixpoint skip_zeros (src : list Z) (len : nat) {struct len} : option (list Z * nat) :=
  match len with
  | O => Some (src, len)
  | S len' =>
      if Nat.ltb P256_NBYTES len then
        match src with
        | x :: src => if nz x then None else skip_zeros src len'
        | [] => None
        end
      else Some (src, len)
  end.

(** [src] holds at least [len] bytes.  Nothing is stored when the number does not fit. *)
Definition p256_from_be_bin_size (src : list Z) (len : nat) : option (list Z) :=
  match skip_zeros src len with
  | None => None
  | Some (src, len) => Some (of_b8 (reverse_bytes src len ++ zeros (P256_NBYTES - len)))
  end.

(** ** With the state of the module *)

Section P256.
Context `{ShaEngine} `{FipsHw}.

Fixpoint lt_loop (a b : list Z) (borrow : Z) : ST fips Z :=
  match a, b with
  | x :: a, y :: b =>
      let* blinder := fast_random in
      let borrow := borrow + (x - blinder) in
      let borrow := borrow - y in
      let borrow := borrow + blinder in
      lt_loop a b (Z.shiftr borrow P256_BITSPERDIGIT)
  | _, _ => ret borrow
  end.

Definition p256_lt_blinded (a b : list Z) : ST fips Z := lt_loop a b 0.

Fixpoint random_digits (n : nat) : ST fips (list Z) :=
  match n with
  | O => ret []
  | S n =>
      let* d := fast_random in
      let* ds := random_digits n in
      ret (d :: ds)
  end.

Definition p256_fast_random : ST fips (list Z) := random_digits P256_NDIGITS.

(** The loop over candidates; [None] when the fuel is used up. *)
Fixpoint candidates (fuel : nat) (ctx : drbg_ctx) : ST fips (option (Z * list Z * drbg_ctx)) :=
  match fuel with
  | O => ret None
  | S fuel =>
      let* rnd := p256_fast_random in
      let* (result, out, ctx) := hmac_drbg_generate ctx P256_NBYTES [] in
      let rnd := of_b8 (splice 0 out (word_bytes rnd)) in
      if result =? DCRYPTO_OK then
        let* lt := p256_lt_blinded rnd SECP256r1_nMin2 in
        if 0 <=? lt then candidates fuel ctx else ret (Some (result, rnd, ctx))
      else ret (Some (result, rnd, ctx))
  end.

(** The code, the number and the context of the generator. *)
Definition p256_hmac_drbg_generate (fuel : nat) (ctx : drbg_ctx)
    : ST fips (option (Z * list Z * drbg_ctx)) :=
  let* found := candidates fuel ctx in
  match found with
  | None => ret None
  | Some (result, rnd, ctx) => ret (Some (result, fst (p256_add_d rnd 1), ctx))
  end.

End P256.
