(* ===== verification/P256Hw.v ===== *)
(** * The curve on the accelerator (board/cr50/dcrypto/dcrypto_p256.c)

    What the C code puts into the data memory, calls, and takes out of it.  The code of the
    accelerator itself is a parameter. *)

From S2P Require Import Prelude Hash HmacSpec ShaHw ShaHwPaths Drbg FipsRand Dcrypto P256.

(** [struct DMEM_ecc]: where its fields are, in words; [__internal_use] is before [k]. *)
Definition pK : nat := 0.
Definition pRnd : nat := 1.
Definition pMsg : nat := 2.
Definition pR : nat := 3.
Definition pS : nat := 4.
Definition pX : nat := 5.
Definition pY : nat := 6.
Definition pD : nat := 7.
Definition off_k : nat := 8 + 16 * 8.
Definition off_rnd : nat := off_k + 8.
Definition off_msg : nat := off_rnd + 8.
Definition off_r : nat := off_msg + 8.
Definition off_s : nat := off_r + 8.
Definition off_x : nat := off_s + 8.
Definition off_y : nat := off_x + 8.
Definition off_d : nat := off_y + 8.

(** The cell of 32 bytes at an offset in words. *)
Definition DMEM_INDEX (off : nat) : Z := Z.of_nat off * 4 / 32.

(** The addresses of the functions of the accelerator (dcrypto_p256.inc). *)
Definition CF_p256init_adr : Z := 25.
Definition CF_p256isoncurve_adr : Z := 85.
Definition CF_p256sign_adr : Z := 489.
Definition CF_p256scalarbasemult_adr : Z := 565.
Definition CF_p256scalarmult_adr : Z := 670.
Definition CF_p256verify_adr : Z := 764.

(** Its code, after the tag in its first word. *)
Class P256Code := { p256_code : list Z }.
Definition IMEM_dcrypto_p256 `{P256Code} : list Z := 0xf8000002 :: p256_code.

Section P256Hw.
Context `{FipsHw} `{P256Code}.

Definition cp1w (base_offset word : nat) (src : Z) : ST dcrypto_hw unit :=
  modify (fun d => set_dmem (<[(base_offset + word)%nat := src]> (dmem d)) d).

(** The loop over the 8 words. *)
Fixpoint cp_words (offset i : nat) (ws : list Z) : ST dcrypto_hw unit :=
  match ws with
  | [] => ret tt
  | w :: ws => cp1w offset i w ;;; cp_words offset (S i) ws
  end.

Definition cp8w (offset : nat) (src : list Z) : ST dcrypto_hw unit :=
  cp_words offset 0 (take P256_NDIGITS src).

Definition cp8w_blinded (offset : nat) (src blinder : list Z) : ST dcrypto_hw unit :=
  cp_words offset 0 (take P256_NDIGITS (zip_with Z.lxor src blinder)).

(** A field of the data memory. *)
Definition dmem_ecc (offset : nat) : ST fips (list Z) :=
  gets (fun s => sub offset P256_NDIGITS (dmem (dcrypto s))).

Definition dcrypto_ecc_init : ST dcrypto_hw unit :=
  dcrypto_imem_load 0 IMEM_dcrypto_p256 ;;;
  cp1w pK 0 (DMEM_INDEX off_k) ;;;
  cp1w pRnd 0 (DMEM_INDEX off_rnd) ;;;
  cp1w pMsg 0 (DMEM_INDEX off_msg) ;;;
  cp1w pR 0 (DMEM_INDEX off_r) ;;;
  cp1w pS 0 (DMEM_INDEX off_s) ;;;
  cp1w pX 0 (DMEM_INDEX off_x) ;;;
  cp1w pY 0 (DMEM_INDEX off_y) ;;;
  cp1w pD 0 (DMEM_INDEX off_d) ;;;
  cp1w off_k 0 1 ;;;
  cp1w off_rnd 0 2 ;;;
  cp1w off_msg 0 3 ;;;
  cp1w off_r 0 4 ;;;
  cp1w off_s 0 5 ;;;
  cp1w off_x 0 6 ;;;
  cp1w off_y 0 7 ;;;
  cp1w off_d 0 8.

(** The code, [r] and [s]. *)
Definition dcrypto_p256_ecdsa_sign_raw (nonce key message : list Z)
    : ST fips (Z * list Z * list Z) :=
  on_dcrypto dcrypto_init_and_lock ;;;
  on_dcrypto dcrypto_ecc_init ;;;
  let* result := dcrypto_call CF_p256init_adr in
  let* rnd := p256_fast_random in
  on_dcrypto (cp8w off_rnd rnd) ;;;
  on_dcrypto (cp8w_blinded off_k nonce rnd) ;;;
  on_dcrypto (cp8w off_msg message) ;;;
  on_dcrypto (cp8w_blinded off_d key rnd) ;;;
  let* rv := dcrypto_call CF_p256sign_adr in
  let result := Z.lor result rv in
  let* (r, s) :=
    (if result =? 0 then
       let* r := dmem_ecc off_r in
       let* s := dmem_ecc off_s in
       ret (r, s)
     else ret (p256_clear, p256_clear)) in
  let s_zero := p256_is_zero s in
  let r_zero := p256_is_zero r in
  on_dcrypto (cp8w off_d rnd) ;;;
  on_dcrypto (cp8w off_k rnd) ;;;
  on_dcrypto dcrypto_unlock ;;;
  if (s_zero || r_zero) && (result =? 0) then ret (DCRYPTO_RETRY, r, s)
  else ret (dcrypto_ok_if_zero result, r, s).

(** The code and the point. *)
Definition dcrypto_p256_base_point_mul (k : list Z) : ST fips (Z * list Z * list Z) :=
  on_dcrypto dcrypto_init_and_lock ;;;
  on_dcrypto dcrypto_ecc_init ;;;
  let* result := dcrypto_call CF_p256init_adr in
  let* rnd := p256_fast_random in
  on_dcrypto (cp8w off_rnd rnd) ;;;
  on_dcrypto (cp8w_blinded off_d k rnd) ;;;
  let* rv := dcrypto_call CF_p256scalarbasemult_adr in
  let result := Z.lor result rv in
  let* (x, y) :=
    (if result =? 0 then
       let* x := dmem_ecc off_x in
       let* y := dmem_ecc off_y in
       ret (x, y)
     else ret (p256_clear, p256_clear)) in
  let* rnd := dmem_ecc off_rnd in
  on_dcrypto (cp8w off_d rnd) ;;;
  on_dcrypto dcrypto_unlock ;;;
  ret (dcrypto_ok_if_zero result, x, y).

Definition dcrypto_p256_point_mul (k in_x in_y : list Z) : ST fips (Z * list Z * list Z) :=
  on_dcrypto dcrypto_init_and_lock ;;;
  on_dcrypto dcrypto_ecc_init ;;;
  let* result := dcrypto_call CF_p256init_adr in
  let* rnd := p256_fast_random in
  on_dcrypto (cp8w off_rnd rnd) ;;;
  on_dcrypto (cp8w_blinded off_k k rnd) ;;;
  on_dcrypto (cp8w off_x in_x) ;;;
  on_dcrypto (cp8w off_y in_y) ;;;
  let* rv := dcrypto_call CF_p256scalarmult_adr in
  let result := Z.lor result rv in
  let* (x, y) :=
    (if result =? 0 then
       let* x := dmem_ecc off_x in
       let* y := dmem_ecc off_y in
       ret (x, y)
     else ret (p256_clear, p256_clear)) in
  on_dcrypto (cp8w off_k rnd) ;;;
  on_dcrypto (cp8w off_x rnd) ;;;
  on_dcrypto (cp8w off_y rnd) ;;;
  on_dcrypto dcrypto_unlock ;;;
  ret (dcrypto_ok_if_zero result, x, y).

Definition dcrypto_p256_ecdsa_verify (key_x key_y message r s : list Z) : ST fips Z :=
  on_dcrypto dcrypto_init_and_lock ;;;
  on_dcrypto dcrypto_ecc_init ;;;
  let* result := dcrypto_call CF_p256init_adr in
  on_dcrypto (cp8w off_msg message) ;;;
  on_dcrypto (cp8w off_r r) ;;;
  on_dcrypto (cp8w off_s s) ;;;
  on_dcrypto (cp8w off_x key_x) ;;;
  on_dcrypto (cp8w off_y key_y) ;;;
  let* rv := dcrypto_call CF_p256verify_adr in
  let result := Z.lor result rv in
  let* rnd := dmem_ecc off_rnd in
  let result := diff_bytes result rnd (take P256_NDIGITS r) in
  on_dcrypto dcrypto_unlock ;;;
  ret (dcrypto_ok_if_zero result).

Definition dcrypto_p256_is_valid_point (x y : list Z) : ST fips Z :=
  on_dcrypto dcrypto_init_and_lock ;;;
  on_dcrypto dcrypto_ecc_init ;;;
  let* result := dcrypto_call CF_p256init_adr in
  on_dcrypto (cp8w off_x x) ;;;
  on_dcrypto (cp8w off_y y) ;;;
  let* rv := dcrypto_call CF_p256isoncurve_adr in
  let result := Z.lor result rv in
  let* r := dmem_ecc off_r in
  let* s := dmem_ecc off_s in
  let result := diff_bytes result r s in
  on_dcrypto dcrypto_unlock ;;;
  ret (dcrypto_ok_if_zero result).

End P256Hw.
