(* ===== verification/P256Ec.v ===== *)
(** * Keys and signatures over P-256 (board/cr50/dcrypto/p256_ec.c, dcrypto_p256.c)

    The functions the rest of the system calls: they test that crypto is allowed, choose keys
    and nonces with a generator, and test every new pair of keys by signing and verifying.
    [fuel] bounds the candidates that the generator is asked for; [None] is a search that did
    not end within it. *)

From S2P Require Import Prelude Hash HmacSpec ShaHw ShaHwPaths Drbg FipsRand Dcrypto P256 P256Hw.

Section P256Ec.
Context `{ShaEngine} `{FipsHw} `{P256Code}.

Definition DCRYPTO_p256_ecdsa_verify (key_x key_y message r s : list Z) : ST fips Z :=
  let* allowed := gets fips_crypto_allowed in
  if negb allowed then ret DCRYPTO_FAIL
  else dcrypto_p256_ecdsa_verify key_x key_y message r s.

(** The code and the point. *)
Definition DCRYPTO_p256_base_point_mul (n : list Z) : ST fips (Z * list Z * list Z) :=
  let* allowed := gets fips_crypto_allowed in
  if negb allowed || p256_is_zero n then ret (DCRYPTO_FAIL, p256_clear, p256_clear)
  else dcrypto_p256_base_point_mul n.

Definition DCRYPTO_p256_is_valid_point (x y : list Z) : ST fips Z :=
  let* allowed := gets fips_crypto_allowed in
  if negb allowed then ret DCRYPTO_FAIL else dcrypto_p256_is_valid_point x y.

Definition DCRYPTO_p256_point_mul (n in_x in_y : list Z) : ST fips (Z * list Z * list Z) :=
  let* allowed := gets fips_crypto_allowed in
  if negb allowed || p256_is_zero n then ret (DCRYPTO_FAIL, p256_clear, p256_clear)
  else
    let* rv := dcrypto_p256_is_valid_point in_x in_y in
    if negb (rv =? DCRYPTO_OK) then ret (DCRYPTO_FAIL, p256_clear, p256_clear)
    else dcrypto_p256_point_mul n in_x in_y.

(** The code, [r] and [s], and the generator. *)
Definition dcrypto_p256_fips_sign_internal (fuel : nat) (drbg : drbg_ctx) (key message : list Z)
    : ST fips (option (Z * list Z * list Z * drbg_ctx)) :=
  let* found := p256_hmac_drbg_generate fuel drbg in
  match found with
  | None => ret None
  | Some (result, k, drbg) =>
      let* (rv, r, s) := dcrypto_p256_ecdsa_sign_raw k key message in
      let result := Z.lor result rv in
      ret (Some (dcrypto_ok_if_zero (u32 (result - DCRYPTO_OK)), r, s, drbg))
  end.

(** A step that uses the generator of the module. *)
Definition with_drbg {A} (m : drbg_ctx -> ST fips (option (A * drbg_ctx))) : ST fips (option A) :=
  let* drbg := gets fips_drbg in
  let* res := m drbg in
  match res with
  | None => ret None
  | Some (a, drbg) => modify (set_drbg drbg) ;;; ret (Some a)
  end.

(** [r] and [s] are what the caller has there. *)
Definition DCRYPTO_p256_ecdsa_sign (fuel : nat) (key message r s : list Z)
    : ST fips (option (Z * list Z * list Z)) :=
  let* ready := fips_drbg_init in
  if negb ready then ret (Some (DCRYPTO_FAIL, r, s))
  else with_drbg (fun drbg => dcrypto_p256_fips_sign_internal fuel drbg key message).

Definition dcrypto_p256_key_pwct (fuel : nat) (drbg : drbg_ctx) (d x y : list Z)
    : ST fips (option (Z * drbg_ctx)) :=
  if p256_is_zero d then ret (Some (DCRYPTO_FAIL, drbg))
  else
    let* message := p256_fast_random in
    let* signed := dcrypto_p256_fips_sign_internal fuel drbg d message in
    match signed with
    | None => ret None
    | Some (result, r, s, drbg) =>
        if negb (result =? DCRYPTO_OK) then
          fips_set_status FIPS_FATAL_ECDSA_PWCT ;;;
          ret (Some (result, drbg))
        else
          let* result := dcrypto_p256_ecdsa_verify x y message r s in
          if negb (result =? DCRYPTO_OK) then
            fips_set_status FIPS_FATAL_ECDSA_PWCT ;;;
            ret (Some (result, drbg))
          else ret (Some (result, drbg))
    end.

(** The code, the public key [x] and [y] and the private key [d]; the arguments are what the
    caller has there, for [x] and [y] possibly the variables on the stack. *)
Definition DCRYPTO_p256_key_from_bytes (fuel : nat) (x y d key_bytes : list Z)
    : ST fips (option (Z * list Z * list Z * list Z)) :=
  let* allowed := gets fips_crypto_allowed in
  if negb allowed then ret (Some (DCRYPTO_FAIL, x, y, d))
  else
    let key := p256_from_bin key_bytes in
    let* lt := p256_lt_blinded key SECP256r1_nMin2 in
    if 0 <=? lt then ret (Some (DCRYPTO_RETRY, x, y, d))
    else
      let d := fst (p256_add_d key 1) in
      let* (rv, x, y) := dcrypto_p256_base_point_mul d in
      if negb (rv =? DCRYPTO_OK) then ret (Some (DCRYPTO_FAIL, x, y, d))
      else
        let* res := with_drbg (fun drbg => dcrypto_p256_key_pwct fuel drbg d x y) in
        match res with
        | None => ret None
        | Some rv => ret (Some (rv, x, y, d))
        end.

(** dcrypto_p256.c: the loop over nonces, [turns] at most. *)
Fixpoint dcrypto_p256_ecdsa_sign (turns fuel : nat) (drbg : drbg_ctx) (key message r s : list Z)
    : ST fips (option (Z * list Z * list Z * drbg_ctx)) :=
  match turns with
  | O => ret None
  | S turns =>
      let* found := p256_hmac_drbg_generate fuel drbg in
      match found with
      | None => ret None
      | Some (ret1, nonce, drbg) =>
          if negb (ret1 =? DCRYPTO_OK) then ret (Some (ret1, r, s, drbg))
          else
            let* (ret2, r, s) := dcrypto_p256_ecdsa_sign_raw nonce key message in
            if ret2 =? DCRYPTO_RETRY
            then dcrypto_p256_ecdsa_sign turns fuel drbg key message r s
            else
              ret (Some (dcrypto_ok_if_zero (u32 (Z.lor ret1 ret2 - DCRYPTO_OK)), r, s, drbg))
      end
  end.

End P256Ec.
