(* ===== verification/FipsKats.v ===== *)
(** * Known-answer tests of the crypto module (board/cr50/dcrypto/fips.c)

    The test vectors and the functions that run them, on the state of the module.  The hash,
    HMAC, generator and elliptic curve tests run the modelled code; AES and the rest of the
    RSA verification are parameters.  No error is injected
    ([fips_break_cmd] is 0 in production). *)

From S2P Require Import Prelude Hash HmacSpec ShaHw ShaHwPaths Drbg FipsRand Dcrypto P256 P256Hw.

(** With their effect on the state: AES-256 in CBC mode, and the part of the RSA verification
    that follows its first test.  The image of the module and the digest stored with it. *)
Class CryptoParts `{FipsHw} := {
  dcrypto_aes_init (key iv : list Z) (encrypt : bool) : ST fips Z;
  DCRYPTO_aes_block (input : list Z) : ST fips (Z * list Z);
  rsa_verify_body (N : list Z) (e : Z) (digest sig : list Z) : ST fips Z;
  fips_module : list Z;
  fips_integrity : list Z
}.

(** ** The vectors *)

Definition sha256_kat_in : list Z :=
  be_bytes 10 0x6574616f6e7269736864.
Definition sha256_kat_ans : list Z :=
  be_bytes 32 0xf553cdb8cf01ee179b93c968c0ea409106ec8e1196c85d1caf6422e6504f4757.

Definition hmac_kat_k : list Z :=
  be_bytes 32 0x6574616f6e726973686400000000000000000000000000000000000000000000.
Definition hmac_kat_in : list Z :=
  be_bytes 11 0x53616d706c652074657874.
Definition hmac_kat_ans : list Z :=
  be_bytes 32 0xe917c17b4c6b77dad2303602f57233879fc66e7b7ea8eaaa9fbaee51ffda24f4.

Definition drbg_entropy0 : list Z :=
  be_bytes 32 0x4294671d493dc085b5184607d7de2ff2b6aceb734a1b026f6cfee7c5a90f03da.
Definition drbg_nonce0 : list Z :=
  be_bytes 16 0xd071544e599235d5eb38b64b551d2a6e.
Definition drbg_perso0 : list Z :=
  be_bytes 32 0x63bc769ae1d95a98bde870e4db7776297041d37c8a5c688d4e024b78d83f4d78.
Definition drbg_entropy1 : list Z :=
  be_bytes 32 0xdb9b4790b62336fbb9a684b82947065393eeef8f57bd2477141ad17e776dac34.
Definition drbg_addtl_input1 : list Z :=
  be_bytes 32 0x28848becd3f47696f124f4b14853a456156f69be583a7d4682cff8d44b39e1d3.
Definition drbg_entropy2 : list Z :=
  be_bytes 32 0x4a9abe80f6f522f29878bedf8245b27940a76471006fb4a4110beb4decb6c341.
Definition drbg_addtl_input2 : list Z :=
  be_bytes 32 0x8bfce0b7132661c3cd78175d83926f643e36f7608eec2c5dac3ddcbacc8c2182.

Definition drbg_K0 : list Z :=
  [0x7fe2b43a; 0x94f11b33; 0x2b76c5ce; 0xfbb784af;
   0x81cfe716; 0xc43596d6; 0xbdfe968b; 0x189c80fb].
Definition drbg_V0 : list Z :=
  [0xc42b237a; 0x929cdd0b; 0xe7fbafdd; 0xba22a36a;
   0x4d23471a; 0xd8607022; 0x687e18ac; 0x2ac08007].

Definition drbg_K1 : list Z :=
  [0x3118d36e; 0x05deec48; 0x7efb6363; 0x3d575cde;
   0xcfcd14c1; 0x8d4f937d; 0x896b811e; 0x0ef038eb].
Definition drbg_V1 : list Z :=
  [0xc8ed8eec; 0x24dd7b66; 0x09c635cd; 0x6ac74196;
   0xc70067d7; 0xc2e71fef; 0x918d9eb7; 0xae0cd544].

Definition drbg_K2 : list Z :=
  [0x980ccd6a; 0x0b34f7e1; 0x594aabd7; 0x33b66049;
   0xb919bd57; 0x8ecc7194; 0xaf1748a3; 0x80982577].
Definition drbg_V2 : list Z :=
  [0xe4927cdb; 0xb3435cc5; 0x601ab870; 0x46e1f024;
   0x966ca875; 0x102b4167; 0xa71e5dce; 0xe4c15962].
Definition drbg_KA : list Z :=
  be_bytes 32 0xe580dc969194b2b18a97478aef9d1a72390aff14562747bf080d741527a6655c ++
  be_bytes 32 0xe7fc135325b457483a9f9c70f91165a811cf4524b50d51199a0df3bd60d12aba ++
  be_bytes 32 0xc27d0bf6618e6b114e05420352e23f3603dfe8a225dc19b3d1fff1dc245dc6b1 ++
  be_bytes 32 0xdf24c741744bec3f9437dbbf222df84881a457a589e7815ef132f686b760f012.

Definition ecdsa_msg_digest : list Z :=
  be_bytes 32 0x44acf6b7e36c1342c2c5897204fe09504e1e2efb1a900377dbc4e7a6a133ec56.
Definition ecdsa_d : list Z :=
  [0xda72b464; 0xca54a56d; 0x0b4e3eac; 0x5b44c813;
   0x59f4771a; 0x1f4fa8ee; 0x715f8b58; 0x519b423d].
Definition ecdsa_k : list Z :=
  [0x642a68de; 0xb9670787; 0x824f5d33; 0x3b4a6247;
   0xf9e93c7f; 0xa280f245; 0x4b906a61; 0x94a1bbb1].
Definition ecdsa_Qx : list Z :=
  [0xc271bf83; 0x3c59ff46; 0x4bbfb12f; 0xd3565de9;
   0x48db8fcc; 0xf033bfa2; 0x075fc7f4; 0x1ccbe91c].
Definition ecdsa_Qy : list Z :=
  [0xa89a4ca9; 0xdc7ccd5c; 0xb7404e78; 0x6db7ca93;
   0x0e6113e0; 0x1a1fdb2c; 0x8811f9a2; 0xce4014c6].
Definition ecdsa_R : list Z :=
  [0x79c8c2ac; 0xcabb5e6f; 0x6a555a7a; 0x2afd6b1f;
   0x629527ed; 0x8843e3d6; 0xb514795b; 0xf3ac8061].
Definition ecdsa_S : list Z :=
  [0xcc058903; 0x3ccdda2a; 0xe96f175a; 0xef97b218;
   0x2bf7371c; 0x786c7626; 0xca05a6b2; 0x8bf77819].

Definition kat_aes128_k : list Z :=
  be_bytes 32 0x6574616f6e726973686400000000000000000000000000000000000000000000.
Definition kat_aes128_msg : list Z :=
  be_bytes 16 0x00aa00aa00aa00aa00aa00aa00aa00aa.
Definition ans_aes128 : list Z :=
  be_bytes 16 0x64628941736370e9127ea71b1bc3578d.

Definition rsa_kat_pub : list Z :=
  [0xf8729219; 0x2b42fc45; 0xfe6f4397; 0xa6ba59df;
   0x4ce45ab8; 0x4be044ea; 0xdade58ec; 0xf871ada6;
   0x3a6355a1; 0x43739940; 0x2fbdff33; 0x3e6f8953;
   0xd2f99a29; 0xb0835670; 0x4d9144e1; 0x3518387f;
   0x808bef09; 0x1f612714; 0xa109e770; 0xcf0f4123;
   0x1d74505e; 0xa9b7c557; 0x176fcc28; 0xe0e86a16;
   0x699b54eb; 0x2c3514b8; 0xf236634f; 0xf4f5b4ae;
   0x12d180a4; 0x5e587a1a; 0xd7b9bd27; 0x649965dc;
   0x5097e8aa; 0xa42c8ae7; 0x1e252547; 0x11ed1901;
   0x898ed7c4; 0x05705388; 0x866ac091; 0x5769c900;
   0x05108735; 0xca60769e; 0x7ab9ae85; 0xce7440eb;
   0xe60eb7c8; 0xd8d80ee8; 0xa151febc; 0x93d49bbc;
   0xc0a79b3f; 0x48dbad30; 0x9ff65c53; 0x2db20805;
   0x175d83de; 0xfffceebd; 0x203e209e; 0xafee1f86;
   0x39b46031; 0x36b0c302; 0x85222b79; 0x891b7941;
   0x69d37fab; 0xec6cca57; 0xc81e692b; 0xd5e1b4e8].
Definition rsa_kat_sig : list Z :=
  be_bytes 32 0x02a78c154400442f2e45b2f61101dfcf28fd50f289597c931fec7df9f766f1f5 ++
  be_bytes 32 0x9d81ad7a05cd93ea930a4160343deb2f878f25130761d88664ca74d7ffbfc3dc ++
  be_bytes 32 0xef5acfa0ff3ae5914bd1a601e5b098f50165e662f45115c0bae6ee0aa583fb25 ++
  be_bytes 32 0x1d099549c0f7322d4449a451a72ca579c98090d83cd525373104b19b3eed3e49 ++
  be_bytes 32 0x2cc211f258366c6315ef3481b2b8a36b4a870fd88727762c517da38ec7a10847 ++
  be_bytes 32 0x35a463d2e605701512be3895153cf7edb01aba819308e6ec08e95f359d12c2f7 ++
  be_bytes 32 0x0ffc674069906e0a3d3b83662eee3dadaddd46fd3d9b00d845a6b52029885f92 ++
  be_bytes 32 0xa0635f5117fbdeb205b6c84e582bfcc5047d174cd67c05ed10f8981eb23a6c6d.
Definition rsa_kat_msg : list Z :=
  be_bytes 32 0x2dfc5dbd442ab6481d6cc7cea4cd0147ffaed2be1d0ad5b292fe46bba288b871 ++
  be_bytes 32 0x9b8f0a89692397416407adff6c6c41343800e087eb27e930e888faa1e8cca86c ++
  be_bytes 32 0x4aa27361aa07f8f6b4c469ed3a383b3085571e00e9f3324e9c3b7869c98187da ++
  be_bytes 32 0xdf40808c2f5d4331b6ade3e037b858038ebc747040f519d6561ca85b6c2ebc83.
Definition rsa_kat_bad_msg : list Z :=
  be_bytes 32 0x2dfc5dbd442ab6481d6cc7cea4cd0147ffaed2be1d0ad5b292fe46bba288b871 ++
  be_bytes 32 0x9b8f0a89692397416407adff6c6c41343800e087eb27e930e888faa1e8cca86c ++
  be_bytes 32 0x4aa27361aa07f8f6b4c569ed3a383b3085571e00e9f3324e9c3b7869c98187da ++
  be_bytes 32 0xdf40808c2f5d4331b6ade3e037b858038ebc747040f519d6561ca85b6c2ebc83.

(** ** The tests *)

Section Kats.
Context `{ShaEngine} `{FipsHw}.

(** [DCRYPTO_equals] on buffers of the module. *)
Definition equals (a b : list Z) (len : nat) : Z :=
  DCRYPTO_equals (buffer_address a) (buffer_address b) a b len.

Definition is_ok (rv : Z) : bool := rv =? DCRYPTO_OK.

Definition fips_sha256_kat : ST fips bool :=
  let* ctx := on_sha (SHA256_hw_init (hctx stack_ctx)) in
  let* ctx := on_sha (HASH_update ctx sha256_kat_in) in
  let* (digest, ctx) := on_sha (HASH_final ctx) in
  ret (is_ok (equals digest sha256_kat_ans SHA256_DIGEST_SIZE)).

Definition fips_hmac_sha256_kat : ST fips bool :=
  let* ctx := on_sha (HMAC_SHA256_hw_init stack_ctx hmac_kat_k) in
  let* ctx := on_sha (HMAC_update ctx hmac_kat_in) in
  let* (digest, ctx) := on_sha (HMAC_final ctx) in
  ret (is_ok (equals digest hmac_kat_ans SHA256_DIGEST_SIZE)).

Definition fips_hmac_drbg_instantiate_kat : ST fips (bool * drbg_ctx) :=
  let* ctx := hmac_drbg_init drbg_entropy0 drbg_nonce0 drbg_perso0 10000 in
  ret (is_ok (equals (v ctx) (word_bytes drbg_V0) 32)
       && is_ok (equals (k ctx) (word_bytes drbg_K0) 32), ctx).

Definition fips_hmac_drbg_reseed_kat (ctx : drbg_ctx) : ST fips (bool * drbg_ctx) :=
  let* ctx := hmac_drbg_reseed ctx drbg_entropy1 drbg_addtl_input1 in
  ret (is_ok (equals (v ctx) (word_bytes drbg_V1) 32)
       && is_ok (equals (k ctx) (word_bytes drbg_K1) 32), ctx).

(** [stack_buf] is what the buffer held before. *)
Definition fips_hmac_drbg_generate_kat (stack_buf : list Z) (ctx : drbg_ctx) : ST fips bool :=
  let* (rv, out, ctx) := hmac_drbg_generate ctx 128 [] in
  let passed := rv in
  let passed := Z.lor passed (equals (v ctx) (word_bytes drbg_V2) 32) in
  let passed := Z.lor passed (equals (k ctx) (word_bytes drbg_K2) 32) in
  let buf := splice 0 drbg_entropy2 (splice 0 out stack_buf) in
  let* ctx := hmac_drbg_reseed ctx (take 32 buf) drbg_addtl_input2 in
  let* (rv, out, ctx) := hmac_drbg_generate ctx 128 [] in
  let passed := Z.lor passed rv in
  let passed := Z.lor passed (equals (splice 0 out buf) drbg_KA 128) in
  ret (is_ok passed).

Definition fips_hmac_drbg_kat : ST fips bool :=
  let* (ok, ctx) := fips_hmac_drbg_instantiate_kat in
  if negb ok then ret false
  else
    let* (ok, ctx) := fips_hmac_drbg_reseed_kat ctx in
    if negb ok then ret false
    else fips_hmac_drbg_generate_kat (zeros 128) ctx.

Context `{!P256Code} `{!CryptoParts}.

(** [a[i] ^= x] *)
Definition flip (i : nat) (x : Z) (a : list Z) : list Z := <[i := Z.lxor (nth i a 0) x]> a.

Definition fips_ecdsa_sign_verify_kat : ST fips bool :=
  let msg := p256_from_bin ecdsa_msg_digest in
  let* (rv, r, s) := dcrypto_p256_ecdsa_sign_raw ecdsa_k ecdsa_d msg in
  let passed := u32 (rv - DCRYPTO_OK) in
  let passed :=
    Z.lor passed (u32 (equals (word_bytes r) (word_bytes ecdsa_R) 32 - DCRYPTO_OK)) in
  let passed :=
    Z.lor passed (u32 (equals (word_bytes s) (word_bytes ecdsa_S) 32 - DCRYPTO_OK)) in
  let* rv := dcrypto_p256_ecdsa_verify ecdsa_Qx ecdsa_Qy msg r s in
  let passed := Z.lor passed (u32 (rv - DCRYPTO_OK)) in
  let msg := flip 5 0x10 msg in
  let* rv := dcrypto_p256_ecdsa_verify ecdsa_Qx ecdsa_Qy msg r s in
  let passed := Z.lor passed (u32 (rv - DCRYPTO_FAIL)) in
  ret (passed =? 0).

Definition fips_aes256_kat : ST fips bool :=
  let* result := dcrypto_aes_init kat_aes128_k (zeros 16) true in
  let* (rv, enc) := DCRYPTO_aes_block kat_aes128_msg in
  let result := Z.lor result rv in
  let result := Z.lor result (equals enc ans_aes128 16) in
  let* rv := dcrypto_aes_init kat_aes128_k (zeros 16) false in
  let result := Z.lor result rv in
  let* (rv, dec) := DCRYPTO_aes_block enc in
  let result := Z.lor result rv in
  let result := Z.lor result (equals kat_aes128_msg dec 16) in
  ret (is_ok result).

Definition DCRYPTO_rsa_verify (N : list Z) (e : Z) (digest sig : list Z) : ST fips Z :=
  let* allowed := gets fips_crypto_allowed in
  if negb allowed then ret DCRYPTO_FAIL else rsa_verify_body N e digest sig.

Definition fips_rsa2048_verify_kat : ST fips bool :=
  let* digest := on_sha (SHA256_hw_hash rsa_kat_msg) in
  let* rv := DCRYPTO_rsa_verify rsa_kat_pub 0x00010001 digest rsa_kat_sig in
  if negb (rv =? DCRYPTO_OK) then ret false
  else
    let* digest := on_sha (SHA256_hw_hash rsa_kat_bad_msg) in
    let* rv := DCRYPTO_rsa_verify rsa_kat_pub 0x00010001 digest rsa_kat_sig in
    ret (rv =? DCRYPTO_OK).

Definition fips_self_integrity : ST fips Z :=
  let* digest := on_sha (SHA256_hw_hash fips_module) in
  ret (equals fips_integrity digest 32).

End Kats.
