(* ===== verification/Fips.v ===== *)
(** * The power-up tests of the crypto module and its commands (board/cr50/dcrypto/fips.c,
    board/cr50/fips_cmd.c)

    The tests run after a reset of the chip, unless they passed before it went to sleep; the
    crypto services work only after them, and only without errors. *)

From S2P Require Import Prelude Vendor Flash BoardId Hash HmacSpec ShaHw ShaHwPaths Drbg FipsRand Dcrypto P256 P256Hw FipsKats.

Section Module.
Context `{ShaEngine} `{FipsHw} `{!P256Code} `{!CryptoParts}.

(** ** Power-up tests *)

(** [_fips_status |= err] when the test failed. *)
Definition unless (ok : bool) (err : Z) : ST fips unit :=
  if ok then ret tt else modify (fun s => set_status (Z.lor (_fips_status s) err) s).

Definition run_kat (kat : ST fips bool) (err : Z) : ST fips unit :=
  let* ok := kat in unless ok err.

(** The tests on the stack in shared memory; the functions are called on another stack, which
    the model does not have. *)
Definition kats_on_stack : ST fips unit :=
  run_kat fips_hmac_sha256_kat FIPS_FATAL_HMAC_SHA256 ;;;
  fips_trng_startup 0 ;;;
  run_kat fips_hmac_drbg_kat FIPS_FATAL_HMAC_DRBG ;;;
  run_kat fips_ecdsa_sign_verify_kat FIPS_FATAL_ECDSA ;;;
  run_kat fips_aes256_kat FIPS_FATAL_AES256 ;;;
  run_kat fips_rsa2048_verify_kat FIPS_FATAL_RSA2048 ;;;
  run_kat (on_sha dcrypto_grab_sha_hw) FIPS_FATAL_SHA256 ;;;
  run_kat fips_sha256_kat FIPS_FATAL_SHA256 ;;;
  run_kat fips_hmac_sha256_kat FIPS_FATAL_HMAC_SHA256 ;;;
  run_kat fips_hmac_drbg_kat FIPS_FATAL_HMAC_DRBG ;;;
  on_sha dcrypto_release_sha_hw ;;;
  fips_trng_startup 1 ;;;
  let* good := gets fips_is_no_crypto_error in
  (if good then fips_set_power_up true
   else modify (fun s => flash_log_add FE_LOG_FIPS_FAILURE (le_bytes 4 (_fips_status s)) s)) ;;;
  modify (fun s => set_status (Z.lor (_fips_status s) FIPS_POWER_UP_TEST_DONE) s).

(** [acquired] tells whether the shared memory could be acquired.  The result is what is left
    in [fips_last_kat_test_duration], from the times read at the start and at the end. *)
Definition fips_power_up_tests (starttime endtime : Z) (acquired : bool) : ST fips Z :=
  modify (fun s => set_status
    (clear_bits 32 (_fips_status s) (Z.lor FIPS_MODE_ACTIVE FIPS_POWER_UP_TEST_DONE)) s) ;;;
  run_kat fips_sha256_kat FIPS_FATAL_SHA256 ;;;
  let* rv := fips_self_integrity in
  unless (rv =? DCRYPTO_OK) FIPS_FATAL_SELF_INTEGRITY ;;;
  let* enabled := gets DCRYPTO_ladder_is_enabled in
  unless enabled FIPS_FATAL_OTHER ;;;
  (if acquired then kats_on_stack else unless false FIPS_FATAL_OTHER) ;;;
  let* status := gets _fips_status in
  fips_set_status status ;;;
  let* allowed := gets fips_crypto_allowed in
  (if allowed then fips_set_status FIPS_MODE_ACTIVE else ret tt) ;;;
  ret (u64 (endtime - starttime)).

Definition fips_power_on (starttime endtime : Z) (acquired : bool) : ST fips Z :=
  let* done := gets fips_is_power_up_done in
  if negb done then fips_power_up_tests starttime endtime acquired
  else
    modify (fun s => set_status
      (Z.lor (_fips_status s) (Z.lor FIPS_POWER_UP_TEST_DONE FIPS_MODE_ACTIVE)) s) ;;;
    ret (u64 (-1)).

(** ** The functions the module calls *)

Definition CFG_TOP_A_OFF : Z := FLASH_HALF - CFG_TOP_SIZE.
Definition CFG_TOP_B_OFF : Z := FLASH_SIZE - CFG_TOP_SIZE.

(** [my_addr] is the address of the function. *)
Definition is_flash_address (my_addr ptr : Z) : bool :=
  let my_addr := u32 (my_addr - PROGRAM_MEMORY_BASE) in
  let offset := u32 (ptr - PROGRAM_MEMORY_BASE) in
  if (RW_MEM_OFF <=? my_addr) && (my_addr <? CFG_TOP_A_OFF) then
    (RW_MEM_OFF <=? offset) && (offset <=? CFG_TOP_A_OFF)
  else if (RW_B_MEM_OFF <=? my_addr) && (my_addr <? CFG_TOP_B_OFF) then
    (RW_B_MEM_OFF <=? offset) && (offset <=? CFG_TOP_B_OFF)
  else false.

(** The table at [vtable] with the functions [entries]; the result is the pointer kept in
    [fips_vtable], 0 for a null pointer. *)
Definition fips_set_callbacks (my_addr vtable : Z) (entries : list Z) : ST fips Z :=
  modify (set_status FIPS_UNINITIALIZED) ;;;
  ret (if is_flash_address my_addr vtable && forallb (is_flash_address my_addr) entries
       then vtable else 0).

(** ** The vendor command *)

Definition FIPS_CMD_GET_STATUS : Z := 0.
Definition FIPS_CMD_ON : Z := 1.
Definition FIPS_CMD_TEST : Z := 2.
Definition FIPS_CMD_U2F_STATUS : Z := 13.

(** The U2F keys are replaced, and their status is read, by functions outside the module. *)
Definition fips_cmd (u2f_update_keys : ST fips Z) (u2f_keys_are_fips : ST fips bool)
    (starttime endtime : Z) (acquired : bool) (buf : list Z) (input_size : nat)
    : ST fips (Z * list Z) :=
  if negb (Nat.eqb input_size 1) then ret (RC.VENDOR_RC_BOGUS_ARGS, [])
  else
    let cmd := nth 0 buf 0 in
    if cmd =? FIPS_CMD_GET_STATUS then
      let* status := gets _fips_status in
      ret (RC.VENDOR_RC_SUCCESS, be_bytes 4 status)
    else if cmd =? FIPS_CMD_TEST then
      fips_power_up_tests starttime endtime acquired ;;;
      let* status := gets _fips_status in
      ret (RC.VENDOR_RC_SUCCESS, be_bytes 4 status)
    else if cmd =? FIPS_CMD_ON then
      let* rv := u2f_update_keys in
      ret (if rv =? 0 then RC.VENDOR_RC_SUCCESS else RC.VENDOR_RC_INTERNAL_ERROR, [])
    else if cmd =? FIPS_CMD_U2F_STATUS then
      let* fips_keys := u2f_keys_are_fips in
      ret (RC.VENDOR_RC_SUCCESS, [b2z fips_keys])
    else ret (RC.VENDOR_RC_BOGUS_ARGS, []).

End Module.
