(* ===== verification/FipsKnown.v ===== *)
(** * The known answers are those of the code (board/cr50/dcrypto/fips.c)

    The hash, HMAC and generator tests pass on every engine that computes its functions,
    whoever holds it, so they test the hardware and not the software. *)

From S2P Require Import Prelude Hash HashProps HmacSpec ShaHw ShaHwProps ShaHwPaths Drbg DrbgProps FipsRand FipsHealth Dcrypto P256 P256Hw FipsKats.

Section Known.
Context {E : ShaEngine} {L : ShaEngineLaws E} `{FipsHw}.

(** ** HMAC of the module *)

Lemma on_sha_run {A} (m : ST sha_hw A) s a x :
  m (sha s) = (a, x) -> on_sha m s = (a, set_sha x s).
Proof. intros Em. unfold on_sha. by rewrite Em. Qed.

Lemma hmac_updates_on_sha ds : forall (c : hmac_ctx) s,
  @hmac_updates fips fips_hmac c ds s = on_sha (@hmac_updates sha_hw sha_hw_hmac c ds) s.
Proof.
  induction ds as [|d ds IH]; intros c s; cbn [hmac_updates]; [by destruct s|].
  unfold bind, on_sha. cbn [hmac_update fips_hmac]. unfold on_sha.
  destruct (@hmac_update sha_hw sha_hw_hmac c d (sha s)) as [c1 x1]. rewrite IH. unfold on_sha.
  cbn [sha set_sha]. by destruct (@hmac_updates sha_hw sha_hw_hmac c1 ds x1).
Qed.

#[export] Instance fips_hmac_laws : HmacLaws fips.
Proof.
  constructor. intros k ds s Hk Hds.
  destruct (hmac_of_spec k ds (sha s) Hk Hds) as (x & Ex). exists (set_sha x s).
  unfold hmac_of, bind in *. cbn [hmac_init hmac_final fips_hmac]. unfold on_sha at 1.
  destruct (@hmac_init sha_hw sha_hw_hmac k (sha s)) as [c1 x1]. rewrite hmac_updates_on_sha.
  unfold on_sha. cbn [sha set_sha]. destruct (@hmac_updates sha_hw sha_hw_hmac c1 ds x1) as [c2 x2].
  cbn [sha set_sha]. by rewrite Ex.
Qed.

(** The noise source gives as many bytes as asked for, or none. *)
Lemma bytes_loop_shape n togo r buf s b out s' :
  bytes_loop n togo r buf s = ((b, out), s') -> bytes buf ->
  bytes out /\ (b = true -> length out = length buf + n)%nat.
Proof.
  revert togo r buf s. induction n as [|n IH]; intros togo r buf s; cbn [bytes_loop].
  - intros [= <- <- <-] Hb. split; [done|lia].
  - assert (forall x, bytes buf -> bytes (buf ++ [u8 x])) as Hu.
    { intros x Hx. apply bytes_app; [done|]. constructor; [|constructor].
      apply Z.mod_pos_bound. lia. }
    destruct (Nat.eqb togo 0).
    + unfold bind. destruct (fips_trng32 s) as [w s1]. destruct (negb _).
      * intros [= <- <- <-] Hb. by split.
      * intros R Hb. destruct (IH _ _ _ _ R (Hu _ Hb)) as [B Ln]. split; [done|].
        intros Hb'. rewrite (Ln Hb'), length_app. cbn. lia.
    + intros R Hb. destruct (IH _ _ _ _ R (Hu _ Hb)) as [B Ln]. split; [done|].
      intros Hb'. rewrite (Ln Hb'), length_app. cbn. lia.
Qed.

Lemma trng_bytes_shape n s e : fst (trng_bytes n s) = Some e -> bytes e /\ length e = n.
Proof.
  unfold trng_bytes, bind, gets. destruct (negb _); [done|].
  destruct (bytes_loop n 0 0 [] s) as [[b out] s'] eqn:R. cbn [ret fst].
  destruct (bytes_loop_shape _ _ _ _ _ _ _ _ R ltac:(constructor)) as [B Ln].
  destruct b; [|done]. intros [= <-]. split; [done|by apply Ln].
Qed.

(** ** The tests *)

Lemma equal_ok (a b : list Z) :
  bytes a -> a = b -> is_ok (equals a b (length a)) = true.
Proof.
  intros Ha <-. unfold equals, is_ok. rewrite equals_spec by done.
  by rewrite bool_decide_true.
Qed.

Lemma sha_init_session s :
  exists c s', SHA256_hw_init (hctx stack_ctx) s = (c, s') /\ session sha256_vtable [] c s'.
Proof.
  unfold SHA256_hw_init, bind, dcrypto_grab_sha_hw. destruct (hw_busy s).
  - exists (use_sw sha256_vtable (hctx stack_ctx)), s. split; [done|].
    apply sw_session; [apply sha256_ok|done].
  - exists (mkUnion HW_SHA256_VTAB (hash (hctx stack_ctx))), (hybrid_start s).
    split; [done|]. constructor; [split; [apply sha256_ok|right; by left]|done|done].
Qed.

Lemma sha256_kat_value : hash_spec sha256_vtable sha256_kat_in = sha256_kat_ans.
Proof. vm_compute. reflexivity. Qed.

Lemma hmac_kat_value : hmac256 hmac_kat_k hmac_kat_in = hmac_kat_ans.
Proof. vm_compute. reflexivity. Qed.

(** The expected states. *)
Definition kv0 : list Z * list Z := (word_bytes drbg_K0, word_bytes drbg_V0).
Definition kv1 : list Z * list Z := (word_bytes drbg_K1, word_bytes drbg_V1).
Definition kv2 : list Z * list Z := (word_bytes drbg_K2, word_bytes drbg_V2).

Lemma instantiate_value :
  spec_instantiate (drbg_entropy0 ++ drbg_nonce0 ++ drbg_perso0) = kv0.
Proof. apply (bool_decide_eq_true_1 _). vm_compute. reflexivity. Qed.

Lemma reseed_value : spec_update kv0 (drbg_entropy1 ++ drbg_addtl_input1) = kv1.
Proof. apply (bool_decide_eq_true_1 _). vm_compute. reflexivity. Qed.

Lemma generate_value :
  length (fst (spec_generate kv1 128 [])) = 128%nat /\ snd (spec_generate kv1 128 []) = kv2.
Proof.
  assert ((let '(out, kv) := spec_generate kv1 128 [] in
    Nat.eqb (length out) 128 && bool_decide (kv = kv2)) = true) as E1
    by (vm_compute; reflexivity).
  destruct (spec_generate kv1 128 []) as [out kv]. apply andb_true_iff in E1 as [E1 E2].
  split; [by apply Nat.eqb_eq|by apply bool_decide_eq_true_1 in E2].
Qed.

Lemma second_value :
  fst (spec_generate (spec_update kv2 (drbg_entropy2 ++ drbg_addtl_input2)) 128 []) = drbg_KA.
Proof. apply (bool_decide_eq_true_1 _). vm_compute. reflexivity. Qed.

Lemma sha256_kat_passes s : fst (fips_sha256_kat s) = true.
Proof.
  destruct (sha_init_session (sha s)) as (c1 & x1 & E1 & S1).
  destruct (HASH_update_session _ _ _ _ sha256_kat_in S1) as (c2 & x2 & E2 & _ & _ & S2);
    [apply bytes_be_bytes|done|].
  destruct (HASH_final_session _ _ _ _ S2) as (c3 & x3 & E3 & _); [done|].
  unfold fips_sha256_kat.
  rewrite (bind_run _ _ s _ _ (on_sha_run _ s _ _ E1)).
  rewrite (bind_run _ _ (set_sha x1 s) _ _ (on_sha_run _ (set_sha x1 s) _ _ E2)).
  rewrite (bind_run _ _ (set_sha x2 (set_sha x1 s)) _ _
    (on_sha_run _ (set_sha x2 (set_sha x1 s)) _ _ E3)).
  cbn [ret fst]. rewrite app_nil_l, sha256_kat_value.
  by apply (equal_ok sha256_kat_ans); [apply bytes_be_bytes|].
Qed.
Lemma hmac_kat_run x :
  exists c x', hmac_run stack_ctx hmac_kat_k [hmac_kat_in] x = ((hmac_kat_ans, c), x').
Proof.
  assert (concat [hmac_kat_in] = hmac_kat_in) as Ec by apply app_nil_r.
  destruct (hmac_paths stack_ctx hmac_kat_k [hmac_kat_in] x) as (c & x' & R & _).
  - reflexivity.
  - apply bytes_be_bytes.
  - reflexivity.
  - rewrite Ec. apply bytes_be_bytes.
  - rewrite Ec. reflexivity.
  - rewrite Ec, hmac_kat_value in R. exists c, x'. exact R.
Qed.

Lemma hmac_kat_passes s : fst (fips_hmac_sha256_kat s) = true.
Proof.
  destruct (hmac_kat_run (sha s)) as (c & x & R). unfold hmac_run in R.
  apply bind_inv in R as (c1 & x1 & E1 & R).
  apply bind_inv in R as (c2 & x2 & E2 & E3).
  unfold HMAC_updates in E2. apply bind_inv in E2 as (c3 & x3 & E2 & E4).
  injection E4 as <- <-.
  unfold fips_hmac_sha256_kat.
  rewrite (bind_run _ _ s _ _ (on_sha_run _ s _ _ E1)).
  rewrite (bind_run _ _ (set_sha x1 s) _ _ (on_sha_run _ (set_sha x1 s) _ _ E2)).
  rewrite (bind_run _ _ (set_sha x3 (set_sha x1 s)) _ _
    (on_sha_run _ (set_sha x3 (set_sha x1 s)) _ _ E3)).
  exact (equal_ok hmac_kat_ans hmac_kat_ans (bytes_be_bytes 32 _) eq_refl).
Qed.

Lemma word_bytes_ok ws :
  bytes (word_bytes ws) /\ length (word_bytes ws) = (4 * length ws)%nat.
Proof.
  unfold word_bytes. induction ws as [|w ws [IHb IHl]]; [split; [constructor|done]|].
  cbn [map concat]. split; [by apply bytes_app; [apply bytes_le_bytes|]|].
  rewrite length_app, IHl, length_le_bytes. cbn [length]. lia.
Qed.

Lemma equal_same a n : bytes a -> length a = n -> equals a a n = DCRYPTO_OK.
Proof.
  intros Ha <-. unfold equals. rewrite equals_spec by done. by rewrite bool_decide_true.
Qed.

Lemma equal_words ws :
  length ws = 8%nat -> equals (word_bytes ws) (word_bytes ws) 32 = DCRYPTO_OK.
Proof.
  intros Hl. destruct (word_bytes_ok ws) as [Hb Hn]. rewrite Hl in Hn. by apply equal_same.
Qed.

Lemma splice_whole {A} (new l : list A) : length l = length new -> splice 0 new l = new.
Proof.
  intros Hl. unfold splice. rewrite take_0, app_nil_l, Nat.add_0_l, drop_ge by lia.
  apply app_nil_r.
Qed.

Lemma kat_equal ws :
  length ws = 8%nat -> is_ok (equals (word_bytes ws) (word_bytes ws) 32) = true.
Proof. intros Hl. unfold is_ok. by rewrite equal_words. Qed.

Lemma kat_kv_ok K V : length K = 8%nat -> length V = 8%nat -> kv_ok (word_bytes K, word_bytes V).
Proof. intros HK HV. destruct (word_bytes_ok K) as [? LK], (word_bytes_ok V) as [? LV].
  rewrite HK in LK. rewrite HV in LV. by split_and!. Qed.

Lemma vectors_bytes :
  bytes drbg_entropy0 /\ bytes drbg_nonce0 /\ bytes drbg_perso0 /\ bytes drbg_entropy1 /\
  bytes drbg_addtl_input1 /\ bytes drbg_entropy2 /\ bytes drbg_addtl_input2.
Proof. split_and!; apply bytes_be_bytes. Qed.

#[local] Ltac vectors :=
  destruct vectors_bytes as (? & ? & ? & ? & ? & ? & ?); repeat (assumption || apply bytes_app).

(** A context of the tests. *)
Definition kat_ctx (kv : list Z * list Z) (counter : Z) : drbg_ctx :=
  mkDrbg (fst kv) (snd kv) counter 10000 DCRYPTO_OK.

Lemma instantiate_kat s :
  exists s', fips_hmac_drbg_instantiate_kat s = ((true, kat_ctx kv0 1), s').
Proof.
  pose proof (init_run (W := fips) drbg_entropy0 drbg_nonce0 drbg_perso0 10000 s) as R.
  cbv zeta in R. destruct R as (s' & R); [vectors|done|].
  rewrite instantiate_value in R. exists s'.
  unfold fips_hmac_drbg_instantiate_kat. rewrite (bind_run _ _ _ _ _ R).
  cbn [k v kv0 fst snd]. rewrite !kat_equal by reflexivity. reflexivity.
Qed.

Lemma kat_reseed kv entropy input s :
  kv_ok kv -> bytes (entropy ++ input) -> Z.of_nat (length (entropy ++ input)) < 2 ^ 29 ->
  forall c, exists s', hmac_drbg_reseed (kat_ctx kv c) entropy input s =
    (kat_ctx (spec_update kv (entropy ++ input)) 1, s').
Proof.
  intros K Hb Hl c. destruct kv as [K0 V0].
  destruct (reseed_run (W := fips) (kat_ctx (K0, V0) c) entropy input s K Hb Hl) as (s' & R).
  by exists s'.
Qed.

Lemma reseed_kat s :
  exists s', fips_hmac_drbg_reseed_kat (kat_ctx kv0 1) s = ((true, kat_ctx kv1 1), s').
Proof.
  destruct (kat_reseed kv0 drbg_entropy1 drbg_addtl_input1 s) with (c := 1) as (s' & R);
    [by apply kat_kv_ok|vectors|done|].
  rewrite reseed_value in R. exists s'.
  unfold fips_hmac_drbg_reseed_kat. rewrite (bind_run _ _ _ _ _ R).
  cbn [k v kat_ctx kv1 fst snd]. rewrite !kat_equal by reflexivity. reflexivity.
Qed.

(** What the module makes of its noise source. *)
Lemma trng_ok (s : fips) : forall e, fst (fips_trng_bytes RESEED_ENTROPY_SIZE s) = Some e ->
  bytes e /\ length e = RESEED_ENTROPY_SIZE.
Proof. intros e. apply trng_bytes_shape. Qed.

Lemma kat_generate kv out kv' s :
  kv_ok kv -> spec_generate kv 128 [] = (out, kv') ->
  exists s', hmac_drbg_generate (kat_ctx kv 1) 128 [] s = ((DCRYPTO_OK, out, kat_ctx kv' 2), s').
Proof.
  intros K G. destruct kv as [K0 V0].
  pose proof (generate_run (W := fips) (kat_ctx (K0, V0) 1) 128 [] s K) as R.
  cbn [reseed_counter kat_ctx] in R.
  destruct (R ltac:(lia) ltac:(constructor) (trng_ok s)) as (s' & R'). exists s'.
  rewrite R'. f_equal. unfold spec_request, kv_of. cbn [k v kat_ctx fst snd]. by rewrite G.
Qed.

Lemma generate_kat s :
  fst (fips_hmac_drbg_generate_kat (zeros 128) (kat_ctx kv1 1) s) = true.
Proof.
  destruct (spec_generate kv1 128 []) as [out1 kv1'] eqn:G1.
  destruct (spec_generate (spec_update kv2 (drbg_entropy2 ++ drbg_addtl_input2)) 128 [])
    as [out2 kv3] eqn:G2.
  destruct (kat_generate kv1 out1 kv1' s ltac:(by apply kat_kv_ok) G1) as (s1 & R1).
  unfold fips_hmac_drbg_generate_kat. rewrite (bind_run _ _ _ _ _ R1). cbv iota beta.
  pose proof generate_value as [L1 E2]. pose proof second_value as E3.
  rewrite G1 in L1, E2. rewrite G2 in E3. cbn [fst snd] in L1, E2, E3. subst out2 kv1'.
  assert (take 32 (splice 0 drbg_entropy2 (splice 0 out1 (zeros 128))) = drbg_entropy2) as ->
    by reflexivity.
  assert (kv_ok (spec_update kv2 (drbg_entropy2 ++ drbg_addtl_input2))) as K2
    by apply spec_update_ok.
  destruct (kat_reseed kv2 drbg_entropy2 drbg_addtl_input2 s1) with (c := 2) as (s2 & R2);
    [by apply kat_kv_ok|vectors|reflexivity|].
  rewrite (bind_run _ _ _ _ _ R2).
  destruct (kat_generate _ _ _ s2 K2 G2) as (s3 & R3). rewrite (bind_run _ _ _ _ _ R3).
  cbv iota beta. cbn [v k kat_ctx kv2 fst snd].
  rewrite !equal_words by reflexivity. rewrite splice_whole.
  - rewrite (equal_same drbg_KA 128); [reflexivity| |reflexivity].
    unfold drbg_KA. repeat (apply bytes_be_bytes || apply bytes_app).
  - rewrite length_splice; rewrite length_splice; rewrite ?L1; unfold zeros;
      rewrite ?length_replicate; try reflexivity; apply Nat.leb_le; reflexivity.
Qed.

(** On every engine that computes SHA-256 and HMAC, and in software when another user holds
    the engine, the known-answer tests of SHA-256, HMAC-SHA256 and HMAC_DRBG pass: their
    vectors are the values of the standards. *)
Theorem known_answers s :
  fst (fips_sha256_kat s) = true /\ fst (fips_hmac_sha256_kat s) = true /\
  fst (fips_hmac_drbg_kat s) = true.
Proof.
  split; [apply sha256_kat_passes|]. split; [apply hmac_kat_passes|].
  unfold fips_hmac_drbg_kat.
  destruct (instantiate_kat s) as (s1 & R1). rewrite (bind_run _ _ _ _ _ R1).
  cbv iota beta. cbn [negb]. destruct (reseed_kat s1) as (s2 & R2).
  rewrite (bind_run _ _ _ _ _ R2). cbv iota beta. cbn [negb]. apply generate_kat.
Qed.

End Known.

Lemma known_answers_witness :
  let s := set_sha (toy_hw true) (reset_fips []) in
  fst (fips_sha256_kat s) = true /\ fst (fips_hmac_sha256_kat s) = true /\
  fst (fips_hmac_drbg_kat s) = true.
Proof. exact (@known_answers toy_engine toy_engine_laws list_trng _). Defined.
