(* ===== verification/FipsProps.v ===== *)
(** * What the power-up tests and the status guarantee (board/cr50/dcrypto/fips.c)

    An error stays until the next reset and stops every service; the known answers are those
    of the modelled code, on the engine and in software; and the RSA test cannot pass. *)

From S2P Require Import Prelude Flash BoardId Hash HashProps HmacSpec ShaHw ShaHwProps ShaHwPaths Drbg DrbgProps FipsRand FipsHealth Dcrypto P256 P256Hw P256Ec FipsKats Fips.

(** ** Steps that only add errors *)

Section Status.
Context `{FipsHw}.

Definition has_bit (i : Z) (s : fips) : Prop := Z.testbit (_fips_status s) i = true.

(** No error is cleared, the tests do not become done, and the flag that survives sleep is not
    set. *)
Record kept (s s' : fips) : Prop := {
  kept_error i : 0 <= i < 16 -> has_bit i s -> has_bit i s';
  kept_done : has_bit 30 s' -> has_bit 30 s;
  kept_not_done : has_bit 30 s -> has_bit 30 s';
  kept_scratch : pwrdn_scratch22 s' = pwrdn_scratch22 s \/ pwrdn_scratch22 s' = 0
}.

#[export] Instance kept_preorder : PreOrder kept.
Proof.
  split.
  - intros s. split; auto.
  - intros s1 s2 s3 [E1 D1 N1 [S1|S1]] [E2 D2 N2 [S2|S2]]; split; auto; rewrite S2; auto.
Qed.

Definition error_code (e : Z) : Prop := 0 <= e < 2 ^ 16.

(** A step that only adds errors, with a result as described. *)
Definition tame_to {A} (m : ST fips A) (P : A -> Prop) : Prop :=
  forall s, kept s (snd (m s)) /\ P (fst (m s)).

Definition tame {A} (m : ST fips A) : Prop := tame_to m (fun _ => True).

Lemma tame_to_bind {A B} (m : ST fips A) (f : A -> ST fips B) P Q :
  tame_to m P -> (forall a, P a -> tame_to (f a) Q) -> tame_to (bind m f) Q.
Proof.
  intros Hm Hf s. unfold bind. destruct (Hm s) as [K1 HP]. destruct (m s) as [a s1].
  cbn [fst snd] in *. destruct (Hf a HP s1) as [K2 HQ]. split; [|done]. by etrans.
Qed.

Lemma tame_bind {A B} (m : ST fips A) (f : A -> ST fips B) Q :
  tame m -> (forall a, tame_to (f a) Q) -> tame_to (bind m f) Q.
Proof. intros Hm Hf. eapply tame_to_bind; [exact Hm|]. intros a _. apply Hf. Qed.

Lemma tame_ret {A} (a : A) (P : A -> Prop) : P a -> tame_to (ret a) P.
Proof. intros Ha s. split; [reflexivity|done]. Qed.

Lemma tame_same {A} (m : ST fips A) (P : A -> Prop) :
  (forall s, _fips_status (snd (m s)) = _fips_status s /\
     pwrdn_scratch22 (snd (m s)) = pwrdn_scratch22 s /\ P (fst (m s))) ->
  tame_to m P.
Proof.
  intros Hm s. destruct (Hm s) as (E1 & E2 & HP). split; [|done].
  split; unfold has_bit; rewrite ?E1, ?E2; auto.
Qed.

Lemma tame_gets {A} (g : fips -> A) : tame (gets g).
Proof. by apply tame_same. Qed.

Lemma tame_weaken {A} (m : ST fips A) (P Q : A -> Prop) :
  (forall a, P a -> Q a) -> tame_to m P -> tame_to m Q.
Proof. intros HPQ Hm s. destruct (Hm s). auto. Qed.

Lemma tame_on_sha {A} (m : ST sha_hw A) : tame (on_sha m).
Proof.
  apply tame_same. intros s. unfold on_sha. by destruct (m (sha s)).
Qed.

Lemma tame_on_trng {A} (m : ST trng_hw A) : tame (on_trng m).
Proof. apply tame_same. intros s. unfold on_trng. by destruct (m (trng s)). Qed.

Lemma error_bit e i : error_code e -> 16 <= i -> Z.testbit e i = false.
Proof.
  intros He Hi. rewrite <- (Z.mod_small e (2 ^ 16)) by done. by apply Z.mod_pow2_bits_high.
Qed.

Lemma or_kept s e :
  error_code e -> kept s (set_status (Z.lor (_fips_status s) e) s).
Proof.
  intros He. split; unfold has_bit; cbn [_fips_status set_status pwrdn_scratch22]; auto.
  - intros i Hi Hb. by rewrite Z.lor_spec, Hb.
  - by rewrite Z.lor_spec, (error_bit e), orb_false_r by (done || lia).
  - intros Hb. by rewrite Z.lor_spec, Hb.
Qed.

Lemma clear_bits_bit x m i :
  0 <= i < 32 -> Z.testbit (clear_bits 32 x m) i = Z.testbit x i && negb (Z.testbit m i).
Proof.
  intros Hi. unfold clear_bits. rewrite Z.land_spec, Z.lxor_spec, Z.ones_spec_low by done.
  by destruct (Z.testbit m i).
Qed.

Lemma clear_active_bit x i :
  0 <= i < 31 -> Z.testbit (clear_bits 32 x FIPS_MODE_ACTIVE) i = Z.testbit x i.
Proof.
  intros Hi. rewrite clear_bits_bit by lia. change FIPS_MODE_ACTIVE with (2 ^ 31).
  by rewrite Z.pow2_bits_false, andb_true_r by lia.
Qed.

Lemma tame_set_status e : error_code e -> tame (fips_set_status e).
Proof.
  intros He s. split; [|done]. unfold fips_set_status, bind, modify, gets.
  pose proof (or_kept s e He) as K. destruct (nz _); [|exact K]. etrans; [exact K|].
  split; unfold has_bit; cbn [fips_set_power_up snd modify _fips_status set_status set_scratch22
    pwrdn_scratch22]; [intros i Hi| | |by right]; by rewrite clear_active_bit by lia.
Qed.

Lemma tame_throw_err e : error_code e -> tame (fips_throw_err e).
Proof.
  intros He. unfold fips_throw_err. apply tame_bind; [apply tame_gets|]. intros st.
  destruct (_ =? _); [by apply tame_ret|].
  apply tame_bind; [by apply tame_set_status|]. intros _.
  apply tame_bind; [apply tame_gets|]. intros [|]; [by apply tame_ret|].
  apply tame_bind; [by apply tame_same|]. intros _.
  unfold DCRYPTO_ladder_revoke. apply tame_bind; [by apply tame_same|]. intros _.
  apply tame_on_sha.
Qed.

End Status.

Create HintDb tame discriminated.
#[export] Hint Resolve tame_gets tame_on_sha tame_on_trng tame_ret tame_set_status
  tame_throw_err I : tame.

(** Taking a step apart. *)
Ltac tame_tac :=
  repeat
    match goal with
    | |- tame_to ?m (fun _ => True) => change (tame m)
    | |- tame_to (bind _ _) _ => apply tame_bind; [|intros ?]
    | |- tame (bind _ _) => apply tame_bind; [|intros ?]
    | |- tame_to (match ?x with _ => _ end) _ => destruct x
    | |- tame (match ?x with _ => _ end) => destruct x
    | |- tame_to (ret _) _ => apply tame_ret
    | |- tame (ret _) => by apply tame_ret
    | |- _ => solve [eauto with tame | by apply tame_same]
    end; try done.

Section Noise.
Context `{FipsHw}.

Lemma tame_read_rand : tame read_rand.
Proof. unfold read_rand. tame_tac. Qed.

Lemma health_error w r :
  error_code (fst (repetition_count_test w r)) /\
  forall r', error_code (fst (adaptive_proportion_test w r')).
Proof.
  unfold repetition_count_test, adaptive_proportion_test, error_code. cbv zeta.
  split; [destruct (_ || _)|intros r'; cbn [fst]; destruct (_ && _)]; done.
Qed.

Lemma lor_error a b : error_code a -> error_code b -> error_code (Z.lor a b).
Proof.
  unfold error_code. intros Ha Hb. split; [apply Z.lor_nonneg; lia|].
  destruct (Z.eq_dec (Z.lor a b) 0) as [->|Hn]; [done|].
  apply Z.log2_lt_pow2; [pose proof (proj2 (Z.lor_nonneg a b)); lia|].
  rewrite Z.log2_lor by lia.
  destruct (Z.eq_dec a 0) as [->|], (Z.eq_dec b 0) as [->|]; try done;
    try (apply Z.max_lub_lt); try (by change (Z.log2 0) with 0); apply Z.log2_lt_pow2; lia.
Qed.

Lemma tame_health w : tame_to (health_tests w) error_code.
Proof.
  intros s. unfold health_tests. destruct (health_error w (rand s)) as [E1 E2].
  destruct (repetition_count_test w (rand s)) as [e1 r1]. specialize (E2 r1).
  destruct (adaptive_proportion_test w r1) as [e2 r2]. split; [|by apply lor_error].
  split; unfold has_bit; auto.
Qed.

Lemma tame_trng32_loop n e :
  error_code e -> tame_to (trng32_loop n e) (fun r => error_code (snd r)).
Proof.
  revert e. induction n as [|n IH]; intros e He; cbn [trng32_loop]; [by apply tame_ret|].
  apply tame_bind; [apply tame_read_rand|]. intros r. destruct (negb _).
  - apply tame_bind; [by apply tame_set_status|]. intros _. by apply tame_ret.
  - eapply tame_to_bind; [apply tame_health|]. intros e' He'.
    destruct (_ || _); [by apply tame_ret|]. by apply IH.
Qed.

Lemma tame_trng32 : tame fips_trng32.
Proof.
  unfold fips_trng32. eapply tame_to_bind; [by apply (tame_trng32_loop 4)|].
  intros [r e] He. cbn [snd] in He. destruct (negb _); [|by apply tame_ret].
  apply tame_bind; [by apply tame_set_status|]. intros _. by apply tame_ret.
Qed.

End Noise.

#[export] Hint Resolve tame_read_rand tame_trng32 : tame.
#[export] Hint Extern 1 (error_code _) => (unfold error_code; done) : tame.

Section Services.
Context `{FipsHw}.

Lemma tame_bytes_loop len togo r buf : tame (bytes_loop len togo r buf).
Proof.
  revert togo r buf. induction len as [|len IH]; intros togo r buf; cbn [bytes_loop]; tame_tac;
    apply IH.
Qed.

Lemma tame_trng_bytes len : tame (trng_bytes len).
Proof.
  unfold trng_bytes. tame_tac; apply tame_bytes_loop.
Qed.

Lemma tame_startup_loop n r : tame (startup_loop n r).
Proof. revert r. induction n as [|n IH]; intros r; cbn [startup_loop]; tame_tac; apply IH. Qed.

Lemma tame_startup stage : tame (fips_trng_startup stage).
Proof.
  unfold fips_trng_startup. tame_tac; apply tame_startup_loop.
Qed.

Context `{ShaEngine}.

#[local] Hint Resolve tame_trng_bytes : tame.

Lemma tame_hmac :
  (forall k, tame (hmac_init (W := fips) k)) /\
  (forall c d, tame (hmac_update (W := fips) c d)) /\
  (forall c, tame (hmac_final (W := fips) c)).
Proof. split_and!; intros; apply tame_on_sha. Qed.

Lemma tame_update_v K V : tame (update_v (W := fips) K V).
Proof. unfold update_v. tame_tac; apply tame_hmac. Qed.

Lemma tame_update_kv K V tag p0 p1 p2 : tame (update_kv (W := fips) K V tag p0 p1 p2).
Proof. unfold update_kv. tame_tac; (apply tame_hmac || apply tame_update_v). Qed.

Lemma tame_update ctx p0 p1 p2 : tame (update (W := fips) ctx p0 p1 p2).
Proof. unfold update. tame_tac; apply tame_update_kv. Qed.

Lemma tame_output_loop fuel ctx out n : tame (output_loop (W := fips) fuel ctx out n).
Proof.
  revert ctx out n. induction fuel as [|fuel IH]; intros ctx out n; cbn [output_loop]; tame_tac;
    (apply tame_update_v || apply IH).
Qed.

Lemma tame_drbg_init e n p t : tame (hmac_drbg_init (W := fips) e n p t).
Proof. unfold hmac_drbg_init. tame_tac; apply tame_update. Qed.

Lemma tame_reseed ctx e a : tame (hmac_drbg_reseed (W := fips) ctx e a).
Proof. unfold hmac_drbg_reseed. tame_tac; apply tame_update. Qed.

Lemma tame_generate ctx n a : tame (hmac_drbg_generate (W := fips) ctx n a).
Proof.
  unfold hmac_drbg_generate.
  tame_tac; try (apply tame_update || apply tame_output_loop || apply tame_reseed
    || apply tame_trng_bytes).
Qed.

#[local] Hint Resolve tame_drbg_init tame_reseed tame_generate : tame.

Lemma tame_fips_drbg_init : tame fips_drbg_init.
Proof. unfold fips_drbg_init. tame_tac; apply tame_trng_bytes. Qed.

Lemma tame_drbg_request n i : tame (drbg_request n i).
Proof. unfold drbg_request. tame_tac. Qed.

Lemma tame_rand_bytes n : tame (fips_rand_bytes n).
Proof.
  unfold fips_rand_bytes. tame_tac; try apply tame_fips_drbg_init.
  enough (forall fuel len buf, tame (rand_bytes_loop fuel len buf)) as E by apply E.
  induction fuel as [|fuel IH]; intros len buf; cbn [rand_bytes_loop]; tame_tac;
    (apply tame_drbg_request || apply IH).
Qed.

End Services.

#[export] Hint Resolve tame_trng_bytes tame_startup tame_drbg_init tame_reseed tame_generate
  tame_fips_drbg_init tame_rand_bytes : tame.

(** ** The curve *)

Section Curve.
Context `{ShaEngine} `{FipsHw} `{P256Code}.

Lemma tame_on_dcrypto {A} (m : ST dcrypto_hw A) : tame (on_dcrypto m).
Proof. apply tame_same. intros s. unfold on_dcrypto. by destruct (m (dcrypto s)). Qed.

Lemma tame_fast_random : tame fast_random.
Proof. by apply tame_same. Qed.

#[local] Hint Resolve tame_on_dcrypto tame_fast_random : tame.

Lemma tame_call adr : tame (dcrypto_call adr).
Proof. unfold dcrypto_call. tame_tac. Qed.

Lemma tame_p256_fast_random : tame p256_fast_random.
Proof.
  unfold p256_fast_random. generalize P256_NDIGITS. intros n.
  induction n as [|n IH]; cbn [random_digits]; tame_tac; apply IH.
Qed.

Lemma tame_lt_blinded a b : tame (p256_lt_blinded a b).
Proof.
  unfold p256_lt_blinded. generalize 0. revert b.
  induction a as [|x a IH]; intros [|y b] br; cbn [lt_loop]; tame_tac; apply IH.
Qed.

Lemma tame_dmem off : tame (dmem_ecc off).
Proof. apply tame_gets. Qed.

#[local] Hint Resolve tame_call tame_p256_fast_random tame_lt_blinded tame_dmem : tame.

Lemma tame_sign_raw k key m : tame (dcrypto_p256_ecdsa_sign_raw k key m).
Proof. unfold dcrypto_p256_ecdsa_sign_raw. tame_tac. Qed.

Lemma tame_base_mul k : tame (dcrypto_p256_base_point_mul k).
Proof. unfold dcrypto_p256_base_point_mul. tame_tac. Qed.

Lemma tame_point_mul k x y : tame (dcrypto_p256_point_mul k x y).
Proof. unfold dcrypto_p256_point_mul. tame_tac. Qed.

Lemma tame_verify x y m r s : tame (dcrypto_p256_ecdsa_verify x y m r s).
Proof. unfold dcrypto_p256_ecdsa_verify. tame_tac. Qed.

Lemma tame_valid_point x y : tame (dcrypto_p256_is_valid_point x y).
Proof. unfold dcrypto_p256_is_valid_point. tame_tac. Qed.

#[local] Hint Resolve tame_sign_raw tame_base_mul tame_point_mul tame_verify
  tame_valid_point : tame.

Lemma tame_candidates fuel ctx : tame (p256_hmac_drbg_generate fuel ctx).
Proof.
  unfold p256_hmac_drbg_generate.
  enough (tame (candidates fuel ctx)) by tame_tac.
  revert ctx. induction fuel as [|fuel IH]; intros ctx; cbn [candidates]; tame_tac; apply IH.
Qed.

#[local] Hint Resolve tame_candidates : tame.

Lemma tame_sign_internal fuel ctx key m : tame (dcrypto_p256_fips_sign_internal fuel ctx key m).
Proof. unfold dcrypto_p256_fips_sign_internal. tame_tac. Qed.

#[local] Hint Resolve tame_sign_internal : tame.

Lemma tame_pwct fuel ctx d x y : tame (dcrypto_p256_key_pwct fuel ctx d x y).
Proof. unfold dcrypto_p256_key_pwct. tame_tac. Qed.

Lemma tame_with_drbg {A} (m : drbg_ctx -> ST fips (option (A * drbg_ctx))) :
  (forall ctx, tame (m ctx)) -> tame (with_drbg m).
Proof. intros Hm. unfold with_drbg. tame_tac. Qed.

Lemma tame_ecdsa_sign fuel key m r s : tame (DCRYPTO_p256_ecdsa_sign fuel key m r s).
Proof.
  unfold DCRYPTO_p256_ecdsa_sign. tame_tac. apply tame_with_drbg. intros ctx.
  apply tame_sign_internal.
Qed.

Lemma tame_key_from_bytes fuel x y d b : tame (DCRYPTO_p256_key_from_bytes fuel x y d b).
Proof.
  unfold DCRYPTO_p256_key_from_bytes. tame_tac. apply tame_with_drbg. intros ctx.
  apply tame_pwct.
Qed.

End Curve.

#[export] Hint Resolve tame_on_dcrypto tame_fast_random tame_sign_raw tame_base_mul
  tame_point_mul tame_verify tame_valid_point tame_ecdsa_sign tame_key_from_bytes : tame.

(** ** The tests *)

(** The other parts report errors through [fips_set_status] and [fips_throw_err] only. *)
Class CryptoPartsLaws `{FipsHw} (P : CryptoParts) : Prop := {
  aes_init_tame k iv e : tame (dcrypto_aes_init k iv e);
  aes_block_tame i : tame (DCRYPTO_aes_block i);
  rsa_body_tame N e d s : tame (rsa_verify_body N e d s)
}.

#[export] Hint Resolve aes_init_tame aes_block_tame rsa_body_tame : tame.

Section Tests.
Context `{ShaEngine} `{FipsHw} `{P256Code} {Parts : CryptoParts} {L : CryptoPartsLaws Parts}.

Lemma tame_sha256_kat : tame fips_sha256_kat.
Proof. unfold fips_sha256_kat. tame_tac. Qed.

Lemma tame_hmac_kat : tame fips_hmac_sha256_kat.
Proof. unfold fips_hmac_sha256_kat. tame_tac. Qed.

Lemma tame_drbg_kat : tame fips_hmac_drbg_kat.
Proof.
  unfold fips_hmac_drbg_kat, fips_hmac_drbg_instantiate_kat, fips_hmac_drbg_reseed_kat,
    fips_hmac_drbg_generate_kat. tame_tac.
Qed.

Lemma tame_ecdsa_kat : tame fips_ecdsa_sign_verify_kat.
Proof. unfold fips_ecdsa_sign_verify_kat. tame_tac. Qed.

Lemma tame_aes_kat : tame fips_aes256_kat.
Proof. unfold fips_aes256_kat. tame_tac. Qed.

Lemma tame_rsa_kat : tame fips_rsa2048_verify_kat.
Proof. unfold fips_rsa2048_verify_kat, DCRYPTO_rsa_verify. tame_tac. Qed.

Lemma tame_unless ok e : error_code e -> tame (unless ok e).
Proof.
  intros He. unfold unless. destruct ok; [by apply tame_ret|]. intros s. split; [|done].
  by apply or_kept.
Qed.

Lemma tame_run_kat kat e : tame kat -> error_code e -> tame (run_kat kat e).
Proof. intros Hk He. unfold run_kat. apply tame_bind; [done|]. intros ok. by apply tame_unless. Qed.

(** *** Steps from states to states *)

Definition triple {A} (P : fips -> Prop) (m : ST fips A) (Q : fips -> Prop) : Prop :=
  forall s, P s -> Q (snd (m s)).

Lemma triple_bind {A B} (m : ST fips A) (f : A -> ST fips B) P Q R :
  triple P m Q -> (forall a, triple Q (f a) R) -> triple P (bind m f) R.
Proof.
  intros Hm Hf s HP. unfold bind. specialize (Hm s HP). destruct (m s) as [a s1].
  by apply Hf.
Qed.

Definition stable (P : fips -> Prop) : Prop := forall s s', kept s s' -> P s -> P s'.

Lemma triple_tame {A} (m : ST fips A) P : tame m -> stable P -> triple P m P.
Proof. intros Hm HP s Hs. eapply HP; [apply Hm|done]. Qed.

Lemma triple_then {A B} (m : ST fips A) (f : A -> ST fips B) P R :
  stable P -> tame m -> (forall a, triple P (f a) R) -> triple P (bind m f) R.
Proof. intros HP Hm Hf. eapply triple_bind; [by apply triple_tame|exact Hf]. Qed.

(** The tests are not done; they have found the error of bit [i]. *)
Definition testing (s : fips) : Prop := ~ has_bit 30 s.
Definition failing (i : Z) (s : fips) : Prop := testing s /\ has_bit i s.

Lemma testing_stable : stable testing.
Proof. intros s s' K Ht Hb. by apply Ht, (kept_done _ _ K). Qed.

Lemma failing_stable i : 0 <= i < 16 -> stable (failing i).
Proof.
  intros Hi s s' K [Ht Hb]. split; [by eapply testing_stable|].
  by apply (kept_error _ _ K).
Qed.

Lemma not_allowed s : testing s -> fips_crypto_allowed s = false.
Proof.
  intros Ht. unfold fips_crypto_allowed.
  destruct (nz _) eqn:E; [|done]. destruct Ht. unfold has_bit.
  apply nz_true in E. destruct (Z.testbit (_fips_status s) 30) eqn:B; [done|].
  destruct E. apply Z.bits_inj'. intros i Hi. rewrite Z.land_spec, Z.bits_0.
  change FIPS_POWER_UP_TEST_DONE with (2 ^ 30). destruct (Z.eq_dec i 30) as [->|].
  - by rewrite B.
  - by rewrite Z.pow2_bits_false, andb_false_r by lia.
Qed.

Lemma error_not_allowed i s : 0 <= i < 16 -> has_bit i s -> fips_is_no_crypto_error s = false.
Proof.
  intros Hi Hb. unfold fips_is_no_crypto_error. apply Z.eqb_neq. intros E.
  apply (f_equal (fun x => Z.testbit x i)) in E. revert E.
  change FIPS_ERROR_MASK with (Z.ones 16). unfold has_bit in Hb.
  by rewrite Z.land_spec, Hb, Z.ones_spec_low, Z.bits_0 by done.
Qed.

(** RSA verification refuses while the tests are not done. *)
Lemma rsa_kat_fails s : testing s -> fst (fips_rsa2048_verify_kat s) = false.
Proof.
  intros Ht. unfold fips_rsa2048_verify_kat, DCRYPTO_rsa_verify, bind, gets, ret.
  destruct (on_sha (SHA256_hw_hash rsa_kat_msg) s) as [d s1] eqn:E1.
  assert (testing s1) as Ht1.
  { eapply testing_stable; [|exact Ht].
    pose proof (tame_on_sha (SHA256_hw_hash rsa_kat_msg) s) as [K _]. by rewrite E1 in K. }
  by rewrite (not_allowed s1 Ht1).
Qed.

Lemma rsa_kat_error :
  triple testing (run_kat fips_rsa2048_verify_kat FIPS_FATAL_RSA2048) (failing 8).
Proof.
  intros s Ht. pose proof (tame_run_kat _ FIPS_FATAL_RSA2048 tame_rsa_kat ltac:(done) s) as [K _].
  split; [by eapply testing_stable|]. unfold run_kat, bind.
  pose proof (rsa_kat_fails s Ht) as F. destruct (fips_rsa2048_verify_kat s) as [ok s1].
  cbn [fst] in F. subst ok. unfold has_bit, unless, modify. cbn [snd set_status _fips_status].
  rewrite Z.lor_spec. change FIPS_FATAL_RSA2048 with (2 ^ 8).
  by rewrite Z.pow2_bits_true, orb_true_r by lia.
Qed.

Lemma tame_integrity : tame fips_self_integrity.
Proof. unfold fips_self_integrity. tame_tac. Qed.

Lemma or_bit s e i j :
  has_bit i s \/ (e = 2 ^ j /\ i = j /\ 0 <= j) ->
  has_bit i (set_status (Z.lor (_fips_status s) e) s).
Proof.
  unfold has_bit. cbn [_fips_status set_status]. rewrite Z.lor_spec.
  intros [-> | (-> & -> & Hj)]; [done|]. by rewrite Z.pow2_bits_true, orb_true_r.
Qed.

(** The end of the tests on the stack. *)
Lemma kats_end : triple (failing 8)
  (let* good := gets fips_is_no_crypto_error in
   (if good then fips_set_power_up true
    else modify (fun s => flash_log_add FE_LOG_FIPS_FAILURE (le_bytes 4 (_fips_status s)) s)) ;;;
   modify (fun s => set_status (Z.lor (_fips_status s) FIPS_POWER_UP_TEST_DONE) s))
  (fun s => has_bit 8 s /\ has_bit 30 s).
Proof.
  intros s [_ Hb]. unfold bind, gets. rewrite (error_not_allowed 8) by done.
  cbn [modify snd]. split; (eapply or_bit with (j := 30)); [by left|right; by split_and!].
Qed.

Lemma kats_on_stack_done : triple testing kats_on_stack (fun s => has_bit 8 s /\ has_bit 30 s).
Proof.
  pose proof testing_stable as T. pose proof (failing_stable 8 ltac:(done)) as F.
  unfold kats_on_stack.
  apply (triple_then _ _ _ _ T); [apply tame_run_kat; [apply tame_hmac_kat|done]|intros _].
  apply (triple_then _ _ _ _ T); [apply tame_startup|intros _].
  apply (triple_then _ _ _ _ T); [apply tame_run_kat; [apply tame_drbg_kat|done]|intros _].
  apply (triple_then _ _ _ _ T); [apply tame_run_kat; [apply tame_ecdsa_kat|done]|intros _].
  apply (triple_then _ _ _ _ T); [apply tame_run_kat; [apply tame_aes_kat|done]|intros _].
  eapply triple_bind; [apply rsa_kat_error|intros _].
  apply (triple_then _ _ _ _ F); [apply tame_run_kat; [apply tame_on_sha|done]|intros _].
  apply (triple_then _ _ _ _ F); [apply tame_run_kat; [apply tame_sha256_kat|done]|intros _].
  apply (triple_then _ _ _ _ F); [apply tame_run_kat; [apply tame_hmac_kat|done]|intros _].
  apply (triple_then _ _ _ _ F); [apply tame_run_kat; [apply tame_drbg_kat|done]|intros _].
  apply (triple_then _ _ _ _ F); [apply tame_on_sha|intros _].
  apply (triple_then _ _ _ _ F); [apply tame_startup|intros _].
  apply kats_end.
Qed.

(** The status after the tests, by the bits that matter. *)
Definition tests_end (acquired : bool) (s : fips) : Prop :=
  if acquired then has_bit 8 s /\ has_bit 30 s else failing 15 s.

Lemma tests_branch (acquired : bool) :
  triple testing (if acquired then kats_on_stack else unless false FIPS_FATAL_OTHER)
    (tests_end acquired).
Proof.
  destruct acquired; [apply kats_on_stack_done|]. intros s Ht. split.
  - eapply testing_stable; [|exact Ht]. by apply (tame_unless false FIPS_FATAL_OTHER).
  - eapply or_bit with (j := 15). right. by split_and!.
Qed.

(** What the last steps leave. *)
Definition tests_result (acquired : bool) (s : fips) : Prop :=
  fips_crypto_allowed s = false /\ ~ has_bit 31 s /\ pwrdn_scratch22 s = 0 /\
  if acquired then has_bit 8 s /\ has_bit 30 s else has_bit 15 s /\ ~ has_bit 30 s.

Lemma error_recorded i s :
  0 <= i < 16 -> has_bit i s ->
  let s' := snd (fips_set_status (_fips_status s) s) in
  (forall j, 0 <= j < 31 -> has_bit j s' <-> has_bit j s) /\ ~ has_bit 31 s' /\
  pwrdn_scratch22 s' = 0 /\ fips_crypto_allowed s' = false.
Proof.
  intros Hi Hb. unfold fips_set_status, bind, modify, gets. cbn [_fips_status set_status].
  rewrite Z.lor_diag. pose proof (error_not_allowed i s Hi Hb) as E.
  unfold fips_is_no_crypto_error in E. apply Z.eqb_neq in E. rewrite (proj2 (nz_true _) E).
  cbn [fips_set_power_up modify snd]. set (s' := set_scratch22 0 _).
  assert (forall j, 0 <= j < 31 -> has_bit j s' <-> has_bit j s) as Eq.
  { intros j Hj. unfold has_bit, s'. cbn [_fips_status set_scratch22 set_status].
    by rewrite clear_active_bit. }
  split; [exact Eq|]. split; [|split; [done|]].
  - unfold has_bit, s'. cbn [snd ret _fips_status set_scratch22 set_status].
    rewrite clear_bits_bit by lia. by rewrite andb_false_r.
  - unfold fips_crypto_allowed.
    by rewrite (error_not_allowed i s' Hi (proj2 (Eq i ltac:(lia)) Hb)), andb_false_r.
Qed.

Lemma tests_recorded (acquired : bool) (n : Z) :
  triple (tests_end acquired)
    (let* status := gets _fips_status in
     fips_set_status status ;;;
     let* allowed := gets fips_crypto_allowed in
     (if allowed then fips_set_status FIPS_MODE_ACTIVE else ret tt) ;;;
     ret n)
    (tests_result acquired).
Proof.
  intros s Hs. assert (exists i, 0 <= i < 16 /\ has_bit i s) as (i & Hi & Hb)
    by (destruct acquired; [exists 8|exists 15]; split; (lia || apply Hs)).
  pose proof (error_recorded i s Hi Hb) as R. unfold bind at 1. cbn [gets]. unfold bind at 1.
  destruct (fips_set_status (_fips_status s) s) as [u s'] eqn:E. cbn [snd] in R.
  destruct R as (Eq & Na & Sc & Al). unfold bind, gets. rewrite Al. cbn [ret snd].
  split; [done|]. split; [done|]. split; [done|].
  destruct acquired; destruct Hs as [B1 B2]; (split; [by apply Eq|]).
  - by apply Eq.
  - intros B%Eq; [by apply B1|lia].
Qed.

(** Whatever the accelerators, the hash engine and the noise source do, the power-up tests
    end with an error: the RSA test verifies a signature with a function that refuses while
    the tests are not done.  No crypto service is allowed, the approved mode is off, and the
    tests run again after the next sleep.  Without the shared memory the tests do not count
    as done. *)
Theorem power_up_never_passes t0 t1 acquired s :
  let s' := snd (fips_power_up_tests t0 t1 acquired s) in
  fips_crypto_allowed s' = false /\ ~ has_bit 31 s' /\ pwrdn_scratch22 s' = 0 /\
  if acquired then has_bit 8 s' /\ has_bit 30 s' else has_bit 15 s' /\ ~ has_bit 30 s'.
Proof.
  enough (triple (fun _ => True) (fips_power_up_tests t0 t1 acquired) (tests_result acquired))
    as T by exact (T s I).
  clear s. pose proof testing_stable as T. unfold fips_power_up_tests.
  eapply triple_bind with (Q := testing).
  { intros s _. unfold testing, has_bit, modify. cbn [snd set_status _fips_status].
    rewrite clear_bits_bit by lia. by rewrite andb_false_r. }
  intros _.
  apply (triple_then _ _ _ _ T); [apply tame_run_kat; [apply tame_sha256_kat|done]|intros _].
  apply (triple_then _ _ _ _ T); [apply tame_integrity|intros rv].
  apply (triple_then _ _ _ _ T); [by apply tame_unless|intros _].
  apply (triple_then _ _ _ _ T); [apply tame_gets|intros enabled].
  apply (triple_then _ _ _ _ T); [by apply tame_unless|intros _].
  eapply triple_bind; [apply tests_branch|intros _]. apply tests_recorded.
Qed.

(** ** The life of the module *)

Lemma error_stable i : 0 <= i < 16 -> stable (has_bit i).
Proof. intros Hi s s' K. by apply (kept_error _ _ K). Qed.

Lemma kats_keep i : 0 <= i < 16 -> triple (has_bit i) kats_on_stack (has_bit i).
Proof.
  intros Hi. pose proof (error_stable i Hi) as T. unfold kats_on_stack.
  apply (triple_then _ _ _ _ T); [apply tame_run_kat; [apply tame_hmac_kat|done]|intros _].
  apply (triple_then _ _ _ _ T); [apply tame_startup|intros _].
  apply (triple_then _ _ _ _ T); [apply tame_run_kat; [apply tame_drbg_kat|done]|intros _].
  apply (triple_then _ _ _ _ T); [apply tame_run_kat; [apply tame_ecdsa_kat|done]|intros _].
  apply (triple_then _ _ _ _ T); [apply tame_run_kat; [apply tame_aes_kat|done]|intros _].
  apply (triple_then _ _ _ _ T); [apply tame_run_kat; [apply tame_rsa_kat|done]|intros _].
  apply (triple_then _ _ _ _ T); [apply tame_run_kat; [apply tame_on_sha|done]|intros _].
  apply (triple_then _ _ _ _ T); [apply tame_run_kat; [apply tame_sha256_kat|done]|intros _].
  apply (triple_then _ _ _ _ T); [apply tame_run_kat; [apply tame_hmac_kat|done]|intros _].
  apply (triple_then _ _ _ _ T); [apply tame_run_kat; [apply tame_drbg_kat|done]|intros _].
  apply (triple_then _ _ _ _ T); [apply tame_on_sha|intros _].
  apply (triple_then _ _ _ _ T); [apply tame_startup|intros _].
  intros s Hs. unfold bind, gets.
  destruct (fips_is_no_crypto_error s); eapply or_bit with (j := 30); by left.
Qed.

Lemma tests_keep i t0 t1 acquired :
  0 <= i < 16 -> triple (has_bit i) (fips_power_up_tests t0 t1 acquired) (has_bit i).
Proof.
  intros Hi. pose proof (error_stable i Hi) as T. unfold fips_power_up_tests.
  eapply triple_bind with (Q := has_bit i).
  { intros s Hs. unfold has_bit, modify. cbn [snd set_status _fips_status].
    rewrite clear_bits_bit, Hs by lia. rewrite Z.lor_spec.
    change FIPS_MODE_ACTIVE with (2 ^ 31). change FIPS_POWER_UP_TEST_DONE with (2 ^ 30).
    by rewrite !Z.pow2_bits_false by lia. }
  intros _.
  apply (triple_then _ _ _ _ T); [apply tame_run_kat; [apply tame_sha256_kat|done]|intros _].
  apply (triple_then _ _ _ _ T); [apply tame_integrity|intros rv].
  apply (triple_then _ _ _ _ T); [by apply tame_unless|intros _].
  apply (triple_then _ _ _ _ T); [apply tame_gets|intros enabled].
  apply (triple_then _ _ _ _ T); [by apply tame_unless|intros _].
  eapply triple_bind with (Q := has_bit i).
  { destruct acquired; [by apply kats_keep|]. by apply triple_tame; [apply tame_unless|]. }
  intros _ s Hs. pose proof (error_recorded i s Hi Hs) as R. unfold bind at 1. cbn [gets].
  unfold bind at 1. destruct (fips_set_status (_fips_status s) s) as [u s'].
  destruct R as (Eq & _ & _ & Al). unfold bind, gets. cbn [snd] in *. rewrite Al.
  apply Eq; [lia|done].
Qed.

(** What the rest of the system asks the module for. *)
Inductive service : forall A, ST fips A -> Prop :=
| ask_rand32 : service Z fips_trng_rand32
| ask_trng n : service _ (trng_bytes n)
| ask_rand n : service _ (fips_rand_bytes n)
| ask_drbg n input : service _ (drbg_request n input)
| ask_rsa N e digest sig : service Z (DCRYPTO_rsa_verify N e digest sig)
| ask_sign fuel key m r s : service _ (DCRYPTO_p256_ecdsa_sign fuel key m r s)
| ask_verify x y m r s : service Z (DCRYPTO_p256_ecdsa_verify x y m r s)
| ask_base_mul n : service _ (DCRYPTO_p256_base_point_mul n)
| ask_point_mul n x y : service _ (DCRYPTO_p256_point_mul n x y)
| ask_valid_point x y : service Z (DCRYPTO_p256_is_valid_point x y)
| ask_key fuel x y d b : service _ (DCRYPTO_p256_key_from_bytes fuel x y d b)
| ask_report e : error_code e -> service unit (fips_throw_err e).

(** A step between two resets: a service, the tests, or the hardware. *)
Inductive op_step : fips -> fips -> Prop :=
| op_service A (m : ST fips A) s : service A m -> op_step s (snd (m s))
| op_tests t0 t1 acquired s : op_step s (snd (fips_power_up_tests t0 t1 acquired s))
| op_hardware x y s : op_step s (set_sha x (set_trng y s)).

(** The chip leaves reset or sleep: the memory is new, the long-life register keeps its value
    or lost it with the power. *)
Inductive life_step : fips -> fips -> Prop :=
| life_op s s' : op_step s s' -> life_step s s'
| life_boot my_addr vtable entries t0 t1 acquired s s0 :
    pwrdn_scratch22 s0 = pwrdn_scratch22 s \/ pwrdn_scratch22 s0 = 0 ->
    life_step s (snd ((fips_set_callbacks my_addr vtable entries ;;;
                       fips_power_on t0 t1 acquired) s0)).

Lemma tame_service A m : service A m -> tame m.
Proof.
  intros []; unfold fips_trng_rand32, drbg_request, DCRYPTO_rsa_verify,
    DCRYPTO_p256_ecdsa_verify, DCRYPTO_p256_base_point_mul, DCRYPTO_p256_point_mul,
    DCRYPTO_p256_is_valid_point; tame_tac.
Qed.

(** What is asked for is refused. *)
Definition refuses (s : fips) : Prop :=
  fips_crypto_allowed s = false /\ fst (fips_trng_rand32 s) = 0 /\
  (forall n, fst (trng_bytes n s) = None) /\ (forall n, fst (fips_rand_bytes n s) = None) /\
  (forall N e digest sig, fst (DCRYPTO_rsa_verify N e digest sig s) = DCRYPTO_FAIL) /\
  (forall fuel key m r S, fst (DCRYPTO_p256_ecdsa_sign fuel key m r S s) =
    Some (DCRYPTO_FAIL, r, S)) /\
  (forall x y m r S, fst (DCRYPTO_p256_ecdsa_verify x y m r S s) = DCRYPTO_FAIL) /\
  (forall n x y, fst (DCRYPTO_p256_point_mul n x y s) = (DCRYPTO_FAIL, p256_clear, p256_clear)) /\
  (forall fuel x y d b, fst (DCRYPTO_p256_key_from_bytes fuel x y d b s) =
    Some (DCRYPTO_FAIL, x, y, d)).

Lemma not_allowed_refuses s : fips_crypto_allowed s = false -> refuses s.
Proof.
  intros E. unfold refuses, fips_trng_rand32, trng_bytes, fips_rand_bytes, fips_drbg_init,
    DCRYPTO_rsa_verify, DCRYPTO_p256_ecdsa_sign, DCRYPTO_p256_ecdsa_verify,
    DCRYPTO_p256_point_mul, DCRYPTO_p256_key_from_bytes, fips_drbg_init, bind, gets.
  rewrite E. by split_and!.
Qed.

(** C11. An error is never taken back before the next reset: after any services, tests and
    changes of the hardware it is still in the status, and the random sources and RSA
    verification refuse. *)
Theorem errors_last s s' i :
  0 <= i < 16 -> has_bit i s -> rtc op_step s s' -> has_bit i s' /\ refuses s'.
Proof.
  intros Hi Hb R. assert (has_bit i s') as Hb'.
  { induction R as [|s s1 s' Hs _ IH]; [done|]. apply IH.
    destruct Hs as [A m s Hm|t0 t1 acquired s|x y s]; [|by apply tests_keep|done].
    eapply (error_stable i Hi); [|exact Hb]. by apply tame_service. }
  split; [done|]. apply not_allowed_refuses. unfold fips_crypto_allowed.
  by rewrite (error_not_allowed i s' Hi Hb'), andb_false_r.
Qed.

(** The flag that skips the tests is not set, and done tests have found an error. *)
Definition never_passed (s : fips) : Prop :=
  pwrdn_scratch22 s <> BOARD_FIPS_POWERUP_DONE /\
  (has_bit 30 s -> exists i, 0 <= i < 16 /\ has_bit i s).

Lemma tests_never_passed t0 t1 acquired s :
  never_passed (snd (fips_power_up_tests t0 t1 acquired s)).
Proof.
  destruct (power_up_never_passes t0 t1 acquired s) as (_ & _ & E & B).
  split; [by rewrite E|]. intros H30. destruct acquired; [exists 8|by destruct B].
  split; [lia|apply B].
Qed.

Lemma life_never_passed s s' : life_step s s' -> never_passed s -> never_passed s'.
Proof.
  intros [s1 s1' [A m s2 Hm|t0 t1 acquired s2|x y s2]|a vt es t0 t1 acquired s1 s0 E] [Hs Hb].
  - destruct (tame_service A m Hm s2) as [K _]. split.
    + destruct (kept_scratch _ _ K) as [->| ->]; done.
    + intros H30. destruct (Hb (kept_done _ _ K H30)) as (i & Hi & B). exists i.
      split; [done|]. by apply (kept_error _ _ K).
  - apply tests_never_passed.
  - done.
  - unfold fips_set_callbacks, fips_power_on, bind, modify, gets, ret, fips_is_power_up_done.
    cbn [pwrdn_scratch22 set_status].
    destruct (Z.eqb_spec (pwrdn_scratch22 s0) BOARD_FIPS_POWERUP_DONE)
      as [E'|_]; [|apply tests_never_passed].
    destruct E as [E|E]; rewrite E in E'; done.
Qed.

(** C10. From a power-on, through any resets, sleeps and services, the crypto services are never
    allowed: the tests cannot pass, so nothing ever sets the flag that skips them. *)
Theorem services_never_start s s' :
  pwrdn_scratch22 s <> BOARD_FIPS_POWERUP_DONE -> ~ has_bit 30 s ->
  rtc life_step s s' -> refuses s'.
Proof.
  intros Hs Hb R. assert (never_passed s') as [_ Hd].
  { assert (never_passed s) as I0 by (split; [done|by intros ?]). clear Hs Hb.
    induction R as [|s s1 s' Hstep _ IH]; [exact I0|]. apply IH.
    by apply (life_never_passed _ _ Hstep). }
  apply not_allowed_refuses.
  destruct (Z.testbit (_fips_status s') 30) eqn:B.
  - destruct (Hd B) as (i & Hi & Hb'). unfold fips_crypto_allowed.
    by rewrite (error_not_allowed i s' Hi Hb'), andb_false_r.
  - apply not_allowed. unfold testing, has_bit. by rewrite B.
Qed.

End Tests.

(** ** Accelerators that work *)

Definition good_message : list Z := p256_from_bin ecdsa_msg_digest.

(** The core signs and verifies the message of the test. *)
#[export] Instance no_code : P256Code := { p256_code := [] }.

Definition good_core (adr : Z) (dmem : list Z) : list Z :=
  if adr =? CF_p256sign_adr then splice off_r ecdsa_R (splice off_s ecdsa_S dmem)
  else if adr =? CF_p256verify_adr then
    splice off_rnd
      (if bool_decide (sub off_msg 8 dmem = good_message) then sub off_r 8 dmem else zeros 8) dmem
  else dmem.

Definition good_fips (noise : list Z) : fips :=
  set_dcrypto (reset_dcrypto good_core) (reset_fips noise).

#[export] Instance good_parts : CryptoParts := {
  dcrypto_aes_init _ _ _ := ret DCRYPTO_OK;
  DCRYPTO_aes_block input :=
    ret (DCRYPTO_OK,
      if bool_decide (input = kat_aes128_msg) then ans_aes128 else kat_aes128_msg);
  rsa_verify_body _ _ digest _ :=
    ret (if bool_decide (digest = hash_spec sha256_vtable rsa_kat_msg)
         then DCRYPTO_OK else DCRYPTO_FAIL);
  fips_module := [1; 2; 3];
  fips_integrity := hash_spec sha256_vtable [1; 2; 3]
}.

#[export] Instance good_parts_laws : CryptoPartsLaws good_parts.
Proof. split; intros; by apply tame_ret. Qed.

(** Healthy noise. *)
Definition noise (n : nat) : list Z :=
  map (fun i => (Z.of_nat i * 2654435761 + 40503) mod 2 ^ 32) (seq 1 n).

(** Everything else passes: the only error is that of the RSA test. *)
Example only_rsa_fails :
  _fips_status (snd (fips_power_up_tests 0 1 true (good_fips (noise 200)))) =
  Z.lor FIPS_POWER_UP_TEST_DONE FIPS_FATAL_RSA2048.
Proof. vm_compute. reflexivity. Qed.

Lemma power_up_never_passes_witness :
  let s' := snd (fips_power_up_tests 0 1 false (reset_fips [])) in
  fips_crypto_allowed s' = false /\ ~ has_bit 31 s' /\ pwrdn_scratch22 s' = 0 /\
  has_bit 15 s' /\ ~ has_bit 30 s'.
Proof.
  exact (@power_up_never_passes toy_engine list_trng no_code good_parts good_parts_laws 0 1 false
    (reset_fips [])).
Defined.

(** A state with an error, and one after a service. *)
Definition failed_fips : fips := set_status FIPS_FATAL_TRNG_RCT (reset_fips []).

Lemma errors_last_witness :
  has_bit 1 (snd (trng_bytes 4 failed_fips)) /\ refuses (snd (trng_bytes 4 failed_fips)).
Proof.
  apply (@errors_last toy_engine list_trng no_code good_parts good_parts_laws failed_fips).
  - lia.
  - reflexivity.
  - apply rtc_once. apply (op_service _ (trng_bytes 4)). apply ask_trng.
Defined.

Lemma services_never_start_witness :
  refuses (snd ((fips_set_callbacks 0 0 [] ;;; fips_power_on 0 1 false) (reset_fips []))).
Proof.
  apply (@services_never_start toy_engine list_trng no_code good_parts good_parts_laws (reset_fips [])).
  - discriminate.
  - discriminate.
  - apply rtc_once. apply (life_boot 0 0 [] 0 1 false (reset_fips []) (reset_fips [])).
    left. reflexivity.
Defined.
