(* ===== verification/P256Props.v ===== *)
(** * Numbers of 256 bits as integers (board/cr50/dcrypto/p256.c) *)

From S2P Require Import Prelude Hash HashProps HmacSpec ShaHw ShaHwProps ShaHwPaths Drbg DrbgProps FipsRand FipsHealth Dcrypto P256 P256Hw FipsKats FipsKnown.

(** The value of the digits. *)
Definition val (a : list Z) : Z := digits 32 a.

(** Words. *)
Definition words (a : list Z) : Prop := below (2 ^ 32) a.

(** A [p256_int]: 8 digits of 32 bits. *)
Definition is_p256 (a : list Z) : Prop := length a = P256_NDIGITS /\ words a.

(** The order of the curve. *)
Definition SECP256r1_n : Z :=
  0xffffffff00000000ffffffffffffffffbce6faada7179e84f3b9cac2fc632551.

Lemma nMin2_value : val SECP256r1_nMin2 = SECP256r1_n - 2.
Proof. reflexivity. Qed.

Lemma nMin2_p256 : is_p256 SECP256r1_nMin2.
Proof. split; [done|]. repeat constructor; done. Qed.

Lemma val_range a : words a -> 0 <= val a < 2 ^ (32 * Z.of_nat (length a)).
Proof. apply digits_range. lia. Qed.

Lemma p256_range a : is_p256 a -> 0 <= val a < 2 ^ 256.
Proof. intros [Hl Hw]. pose proof (val_range a Hw) as Hr. rewrite Hl in Hr. exact Hr. Qed.

(** Digits are determined by their value. *)
Lemma val_inj a b : words a -> words b -> length a = length b -> val a = val b -> a = b.
Proof.
  unfold val. revert b. induction a as [|x a IH]; intros [|y b] Ha Hb Hl; try done.
  apply Forall_cons in Ha as [Hx Ha], Hb as [Hy Hb]. cbn [digits]. intros E.
  assert (x = y) as <-.
  { apply (f_equal (fun z => z mod 2 ^ 32)) in E. rewrite !(Z.mul_comm (2 ^ 32)), !Z.mod_add in E by lia.
    by rewrite !Z.mod_small in E by done. }
  f_equal. apply IH; [done|done|by injection Hl|lia].
Qed.

(** ** Arithmetic *)

Lemma fold_lor_zero a : forall z, fold_left Z.lor a z = 0 <-> z = 0 /\ Forall (fun x => x = 0) a.
Proof.
  induction a as [|x a IH]; intros z; cbn [fold_left].
  - split; [by intros ->|by intros [-> _]].
  - rewrite IH, Z.lor_eq_0_iff, Forall_cons. tauto.
Qed.

Lemma is_zero_spec a : words a -> p256_is_zero a = true <-> val a = 0.
Proof.
  intros Ha. unfold p256_is_zero. rewrite negb_true_iff. unfold nz. rewrite negb_false_iff, Z.eqb_eq.
  rewrite fold_lor_zero. unfold val. induction a as [|x a IH]; cbn [digits]; [by split|].
  pose proof Ha as Ha'. apply Forall_cons in Ha' as [Hx Ha'].
  pose proof (digits_range 32 a ltac:(lia) Ha') as Hr. specialize (IH Ha').
  rewrite Forall_cons. split.
  - intros (_ & -> & Hz). assert (digits 32 a = 0) as -> by (apply IH; by split). lia.
  - intros E. assert (x = 0 /\ digits 32 a = 0) as [-> E'] by nia. apply IH in E' as [_ E']. done.
Qed.

Lemma add_loop_spec a : forall c,
  words a -> 0 <= c < 2 ^ 32 ->
  let '(b, c') := add_loop a c in
  words b /\ length b = length a /\ 0 <= c' < 2 ^ 32 /\
  val b + 2 ^ (32 * Z.of_nat (length a)) * c' = val a + c.
Proof.
  unfold val. induction a as [|x a IH]; intros c Ha Hc; cbn [add_loop].
  - split_and!; [constructor|done|lia..|cbn [digits length]; lia].
  - apply Forall_cons in Ha as [Hx Ha].
    assert (u64 (c + x) = c + x) as -> by (apply Z.mod_small; lia).
    unfold P256_BITSPERDIGIT. rewrite Z.shiftr_div_pow2 by lia.
    assert (0 <= (c + x) / 2 ^ 32 < 2 ^ 32) as Hq.
    { split; [apply Z.div_pos; lia|apply Z.div_lt_upper_bound; lia]. }
    specialize (IH ((c + x) / 2 ^ 32) Ha Hq).
    destruct (add_loop a ((c + x) / 2 ^ 32)) as [b c']. destruct IH as (Hb & Hl & Hc' & E).
    split_and!.
    + apply Forall_cons. split; [by apply Z.mod_pos_bound|done].
    + cbn [length]. by rewrite Hl.
    + lia.
    + lia.
    + cbn [digits length].
      replace (32 * Z.of_nat (S (length a))) with (32 + 32 * Z.of_nat (length a)) by lia.
      rewrite Z.pow_add_r by lia. unfold uN. pose proof (Z.div_mod (c + x) (2 ^ 32) ltac:(lia)).
      nia.
Qed.

Lemma add_d_spec a d :
  is_p256 a -> 0 <= d < 2 ^ 32 ->
  is_p256 (fst (p256_add_d a d)) /\
  val (fst (p256_add_d a d)) = (val a + d) mod 2 ^ 256 /\
  snd (p256_add_d a d) = (val a + d) / 2 ^ 256.
Proof.
  intros Ha Hd. pose proof (p256_range a Ha) as Hr. destruct Ha as [Hl Hw].
  pose proof (add_loop_spec a d Hw Hd) as E. unfold p256_add_d.
  destruct (add_loop a d) as [b c]. destruct E as (Hb & Hlb & Hc & E). rewrite Hl in Hlb, E.
  change (2 ^ (32 * Z.of_nat P256_NDIGITS)) with (2 ^ 256) in E.
  pose proof (p256_range b (conj Hlb Hb)) as Hrb. cbn [fst snd].
  assert ((val a + d) / 2 ^ 256 = c) as Hq.
  { rewrite <- E, (Z.mul_comm (2 ^ 256)), Z.div_add, Z.div_small by lia. lia. }
  split; [done|]. split.
  - rewrite <- E, (Z.mul_comm (2 ^ 256)), Z.mod_add by lia. by rewrite Z.mod_small.
  - assert (0 <= c <= 1) as Hc1.
    { rewrite <- Hq. split; [apply Z.div_pos; lia|].
      apply Z.lt_succ_r, Z.div_lt_upper_bound; lia. }
    rewrite Hq. assert (c = 0 \/ c = 1) as [-> | ->] by lia; reflexivity.
Qed.

(** One digit less: the borrow of a longer difference. *)
Lemma borrow_step x y br A B n :
  0 <= n ->
  (x + 2 ^ 32 * A - (y + 2 ^ 32 * B) + br) / 2 ^ (32 + n) =
  (A - B + (br + (x - y)) / 2 ^ 32) / 2 ^ n.
Proof.
  intros Hn. rewrite Z.pow_add_r, <- Z.div_div by lia. f_equal.
  replace (x + 2 ^ 32 * A - (y + 2 ^ 32 * B) + br) with (br + (x - y) + (A - B) * 2 ^ 32) by lia.
  rewrite Z.div_add by lia. lia.
Qed.

Lemma cmp_loop_borrow a : forall b br nz,
  length a = length b ->
  fst (cmp_loop a b br nz) = (val a - val b + br) / 2 ^ (32 * Z.of_nat (length a)).
Proof.
  unfold val. induction a as [|x a IH]; intros [|y b] br z Hl; try done; cbn [cmp_loop digits length].
  - cbn. by rewrite Z.div_1_r.
  - rewrite IH by (by injection Hl). unfold P256_BITSPERDIGIT. rewrite Z.shiftr_div_pow2 by lia.
    replace (32 * Z.of_nat (S (length a))) with (32 + 32 * Z.of_nat (length a)) by lia.
    rewrite borrow_step by lia. done.
Qed.

Lemma cmp_loop_notzero a : forall b br z,
  length a = length b -> z = 0 \/ z = 1 ->
  snd (cmp_loop a b br z) =
  if bool_decide (z = 0 /\ (val a - val b + br) mod 2 ^ (32 * Z.of_nat (length a)) = 0)
  then 0 else 1.
Proof.
  unfold val. induction a as [|x a IH]; intros [|y b] br z Hl Hz; try done;
    cbn [cmp_loop digits length snd].
  - rewrite Z.mod_1_r. destruct Hz as [-> | ->]; [by rewrite bool_decide_true|].
    by rewrite bool_decide_false by (intros [? _]; done).
  - unfold P256_BITSPERDIGIT. rewrite Z.shiftr_div_pow2 by lia.
    rewrite IH; [|by injection Hl|unfold nz, uN; destruct Hz as [-> | ->], (_ =? 0); auto].
    replace (32 * Z.of_nat (S (length a))) with (32 + 32 * Z.of_nat (length a)) by lia.
    rewrite Z.pow_add_r by lia.
    set (D := digits 32 a - digits 32 b). set (d := br + (x - y)).
    replace (x + 2 ^ 32 * digits 32 a - (y + 2 ^ 32 * digits 32 b) + br) with (d + D * 2 ^ 32)
      by (unfold d, D; lia).
    rewrite Z.rem_mul_r by lia. rewrite Z.mod_add, Z.div_add by lia.
    replace (d / 2 ^ 32 + D) with (D + d / 2 ^ 32) by lia.
    set (M := (D + d / 2 ^ 32) mod 2 ^ (32 * Z.of_nat (length a))).
    assert (0 <= M) as HM by (apply Z.mod_pos_bound; apply Z.pow_pos_nonneg; lia).
    assert (0 <= d mod 2 ^ 32) as Hd by (apply Z.mod_pos_bound; lia).
    unfold nz, uN. destruct (Z.eqb_spec (d mod 2 ^ 32) 0) as [E|E]; cbn [negb].
    + rewrite Z.lor_0_r. apply (f_equal (fun c : bool => if c then 0 else 1)).
      apply bool_decide_ext. rewrite E. split; intros [? ?]; (split; [done|nia]).
    + rewrite !bool_decide_false; [done| |].
      * intros [_ ?]. nia.
      * intros [HE _]. apply Z.lor_eq_0_iff in HE as [_ HE]. done.
Qed.

(** The difference of two numbers of the same length, and its borrow. *)
Lemma borrow_of a b :
  is_p256 a -> is_p256 b -> (val a - val b) / 2 ^ 256 = if val a <? val b then -1 else 0.
Proof.
  intros Ha Hb. pose proof (p256_range a Ha). pose proof (p256_range b Hb).
  destruct (Z.ltb_spec (val a) (val b)).
  - replace (val a - val b) with (val a - val b + 2 ^ 256 + -1 * 2 ^ 256) by lia.
    rewrite Z.div_add, Z.div_small by lia. done.
  - by rewrite Z.div_small by lia.
Qed.

Lemma cmp_spec a b :
  is_p256 a -> is_p256 b ->
  p256_cmp a b = match val a ?= val b with Lt => -1 | Eq => 0 | Gt => 1 end.
Proof.
  intros Ha Hb. pose proof (borrow_of a b Ha Hb) as Hbr.
  pose proof (p256_range a Ha). pose proof (p256_range b Hb).
  destruct Ha as [Hla _], Hb as [Hlb _]. unfold p256_cmp.
  pose proof (cmp_loop_borrow a b 0 0 ltac:(congruence)) as E1.
  pose proof (cmp_loop_notzero a b 0 0 ltac:(congruence) ltac:(by left)) as E2.
  destruct (cmp_loop a b 0 0) as [br z]. cbn [fst snd] in E1, E2. rewrite Hla in E1, E2.
  change (2 ^ (32 * Z.of_nat P256_NDIGITS)) with (2 ^ 256) in *. rewrite Z.add_0_r in E1, E2.
  rewrite Hbr in E1. subst br z.
  destruct (Z.compare_spec (val a) (val b)) as [E|E|E].
  - rewrite E, Z.sub_diag, Z.ltb_irrefl, bool_decide_true by done. done.
  - rewrite (proj2 (Z.ltb_lt _ _)) by done. by case_bool_decide.
  - rewrite (proj2 (Z.ltb_ge _ _)) by lia. rewrite bool_decide_false; [done|].
    intros [_ HM]. rewrite Z.mod_small in HM by lia. lia.
Qed.

(** ** Bytes *)

Lemma le_val_app l1 l2 : le_val (l1 ++ l2) = le_val l1 + 256 ^ Z.of_nat (length l1) * le_val l2.
Proof.
  induction l1 as [|b l1 IH]; cbn [app le_val length]; [lia|].
  rewrite IH, pow256_S. lia.
Qed.

Lemma le_val_zeros n : le_val (zeros n) = 0.
Proof.
  unfold zeros. induction n as [|n IH]; [done|]. cbn [replicate le_val]. rewrite IH. lia.
Qed.

(** The bytes of the digits have the same value. *)
Lemma le_val_words a : words a -> le_val (word_bytes a) = val a.
Proof.
  unfold word_bytes, val. induction a as [|x a IH]; intros Ha; [done|].
  apply Forall_cons in Ha as [Hx Ha]. cbn [map concat digits].
  rewrite le_val_app, length_le_bytes, IH, le_val_bytes by done. done.
Qed.

Lemma words_of_b8 n b8 :
  bytes b8 -> length b8 = (4 * n)%nat ->
  let a := map (fun i => word i b8) (seq 0 n) in
  length a = n /\ words a /\ val a = le_val b8.
Proof.
  unfold val. revert b8. induction n as [|n IH]; intros b8 Hb Hl; cbn [seq map].
  - destruct b8; [|done]. split_and!; [done|constructor|done].
  - rewrite <- seq_shift, map_map.
    assert (forall i, word (S i) b8 = word i (drop 4 b8)) as Hw.
    { intros i. unfold word, sub. rewrite drop_drop. do 3 f_equal. lia. }
    rewrite (map_ext _ _ Hw).
    destruct (IH (drop 4 b8)) as (L & W & V); [by apply Forall_drop|rewrite length_drop; lia|].
    assert (is_word (word 0 b8)) as H0.
    { unfold word, is_word. pose proof (le_val_range (sub (4 * 0) 4 b8) (bytes_sub _ _ _ Hb)) as Hr.
      rewrite length_sub in Hr by lia. exact Hr. }
    split_and!.
    + cbn [length]. by rewrite L.
    + apply Forall_cons. by split.
    + cbn [digits]. rewrite V. rewrite <- (take_drop 4 b8) at 3.
      rewrite le_val_app, length_take. replace (4 `min` length b8)%nat with 4%nat by lia. done.
Qed.

Lemma of_b8_spec b8 :
  bytes b8 -> length b8 = P256_NBYTES -> is_p256 (of_b8 b8) /\ val (of_b8 b8) = le_val b8.
Proof.
  intros Hb Hl. destruct (words_of_b8 P256_NDIGITS b8 Hb Hl) as (L & W & V). by split.
Qed.

Lemma is_p256_bytes a : is_p256 a -> bytes (word_bytes a) /\ length (word_bytes a) = P256_NBYTES.
Proof. intros [Hl _]. destruct (word_bytes_ok a) as [Hb Hn]. split; [done|]. by rewrite Hn, Hl. Qed.

Lemma to_bin_spec a : is_p256 a -> p256_to_bin a = be_bytes P256_NBYTES (val a).
Proof.
  intros Ha. destruct (is_p256_bytes a Ha) as [Hb Hl]. unfold p256_to_bin, reverse_bytes, be_bytes.
  rewrite take_ge by lia. f_equal. rewrite <- (le_val_words a (proj2 Ha)), <- Hl.
  by rewrite le_bytes_val.
Qed.

Lemma from_bin_spec src :
  bytes src -> length src = P256_NBYTES ->
  is_p256 (p256_from_bin src) /\ val (p256_from_bin src) = be_val src.
Proof.
  intros Hb Hl. unfold p256_from_bin, reverse_bytes. rewrite take_ge by lia.
  apply of_b8_spec; [by apply Forall_rev|]. by rewrite length_rev.
Qed.

Lemma be_val_cons x src : be_val (x :: src) = x * 256 ^ Z.of_nat (length src) + be_val src.
Proof.
  unfold be_val. cbn [rev]. rewrite le_val_app, length_rev. cbn [le_val]. lia.
Qed.

(** Bytes before the last 32 may only be 0. *)
Lemma skip_zeros_spec len : forall src,
  bytes src -> length src = len ->
  match skip_zeros src len with
  | None => 2 ^ 256 <= be_val src
  | Some (rest, n) =>
      bytes rest /\ length rest = n /\ (n <= P256_NBYTES)%nat /\ be_val rest = be_val src
  end.
Proof.
  induction len as [|len IH]; intros src Hb Hl; cbn [skip_zeros].
  - split_and!; [done|done|unfold P256_NBYTES; lia|done].
  - destruct (Nat.ltb_spec P256_NBYTES (S len)) as [Hlt|Hge]; [|by split_and!].
    destruct src as [|x src]; [done|]. pose proof Hb as Hb'. apply Forall_cons in Hb' as [Hx Hb'].
    unfold is_byte in Hx. injection Hl as Hl. rewrite be_val_cons. pose proof (be_val_nonneg src Hb').
    destruct (nz x) eqn:E.
    + apply nz_true in E. rewrite Hl.
      assert (256 ^ Z.of_nat P256_NBYTES <= 256 ^ Z.of_nat len) by (apply Z.pow_le_mono_r; lia).
      change (256 ^ Z.of_nat P256_NBYTES) with (2 ^ 256) in *. nia.
    + apply nz_false in E. subst x. specialize (IH src Hb' Hl).
      destruct (skip_zeros src len) as [[rest n]|]; [|lia].
      destruct IH as (? & ? & ? & ->). split_and!; [done..|lia].
Qed.

Lemma from_be_bin_size_spec src :
  bytes src ->
  match p256_from_be_bin_size src (length src) with
  | Some a => is_p256 a /\ val a = be_val src
  | None => 2 ^ 256 <= be_val src
  end.
Proof.
  intros Hb. unfold p256_from_be_bin_size.
  pose proof (skip_zeros_spec (length src) src Hb eq_refl) as E.
  destruct (skip_zeros src (length src)) as [[rest n]|]; [|done].
  destruct E as (Hbr & Hn & Hle & <-). unfold reverse_bytes. rewrite take_ge by lia.
  destruct (of_b8_spec (rev rest ++ zeros (P256_NBYTES - n))) as [W V].
  - apply bytes_app; [by apply Forall_rev|apply bytes_zeros].
  - unfold zeros. rewrite length_app, length_rev, length_replicate. lia.
  - split; [done|]. rewrite V, le_val_app, le_val_zeros. unfold be_val. lia.
Qed.

(** ** The weak generator and the blinded comparison *)

Lemma next_fast_random_word s : is_word s -> is_word (next_fast_random s).
Proof.
  intros Hs. unfold next_fast_random, is_word in *.
  assert (forall a b, 0 <= a < 2 ^ 32 -> 0 <= b < 2 ^ 32 -> 0 <= Z.lxor a b < 2 ^ 32) as Hx.
  { intros a b Ha Hb. rewrite <- (Z.mod_small a (2 ^ 32)), <- (Z.mod_small b (2 ^ 32)) by done.
    rewrite <- !Z.land_ones by lia.
    assert (Z.lxor (Z.land a (Z.ones 32)) (Z.land b (Z.ones 32)) =
      Z.land (Z.lxor a b) (Z.ones 32)) as ->.
    { apply Z.bits_inj'. intros i Hi. rewrite Z.lxor_spec, !Z.land_spec, Z.lxor_spec.
      by destruct (Z.testbit a i), (Z.testbit b i), (Z.testbit (Z.ones 32) i). }
    rewrite Z.land_ones by lia. apply Z.mod_pos_bound. lia. }
  apply Hx; [apply Z.mod_pos_bound; lia|]. destruct (0 <=? i32 s); done.
Qed.

(** The state that the weak generator never leaves; 0xffffffff is an ordinary one. *)
Lemma lfsr_fixed_point s : is_word s -> next_fast_random s = s <-> s = 0x400003FF.
Proof.
  intros Hs. unfold is_word in Hs. split; [|by intros ->]. unfold next_fast_random.
  assert (u32 (Z.shiftl s 1) = (2 * s) mod 2 ^ 32) as ->
    by (rewrite Z.shiftl_mul_pow2 by lia; unfold uN; f_equal; lia).
  destruct (Z.leb_spec 0 (i32 s)) as [Hn|Hn]; intros E.
  - assert (s < 2 ^ 31) as Hl.
    { destruct (Z_lt_le_dec s (2 ^ 31)) as [|Hge]; [done|]. unfold i32 in Hn.
      replace (s + 2 ^ 31) with (s - 2 ^ 31 + 1 * 2 ^ 32) in Hn by lia.
      rewrite Z.mod_add, Z.mod_small in Hn by lia. lia. }
    rewrite Z.mod_small in E by lia.
    assert (forall i, 0 <= i < 32 -> Z.testbit s i =
      xorb (if i =? 0 then false else Z.testbit s (i - 1)) (Z.testbit 0xC0000401 i)) as B.
    { intros i Hi. rewrite <- E at 1. rewrite Z.lxor_spec, Z.land_spec, Z.ones_spec_low by lia.
      cbn [andb]. f_equal. destruct (Z.eqb_spec i 0) as [->|].
      - by rewrite Z.testbit_even_0.
      - replace i with (Z.succ (i - 1)) at 1 by lia. by rewrite Z.testbit_even_succ by lia. }
    apply Z.bits_inj'. intros i Hi. destruct (Z_lt_le_dec i 32) as [Hi32|Hi32].
    + assert (forall n, (n < 32)%nat -> Z.testbit s (Z.of_nat n) =
        Z.testbit 0x400003FF (Z.of_nat n)) as Bn.
      { intros n. induction n as [|n IH]; intros Hn32; rewrite B by lia; [done|].
        replace (Z.of_nat (S n) - 1) with (Z.of_nat n) by lia. rewrite IH by lia.
        do 31 (destruct n as [|n]; [done|]). lia. }
      rewrite <- (Z2Nat.id i) by lia. apply Bn. lia.
    + rewrite <- (Z.mod_small s (2 ^ 32)) by done. rewrite Z.mod_pow2_bits_high by lia. symmetry.
      rewrite <- (Z.mod_small 0x400003FF (2 ^ 32)) by done. apply Z.mod_pow2_bits_high. lia.
  - exfalso. rewrite Z.land_0_l, Z.lxor_0_r in E.
    assert (2 ^ 31 <= s) as Hl.
    { destruct (Z_lt_le_dec s (2 ^ 31)) as [Hlt|]; [|done]. rewrite i32_small in Hn; lia. }
    replace (2 * s) with (2 * s - 2 ^ 32 + 1 * 2 ^ 32) in E by lia.
    rewrite Z.mod_add, Z.mod_small in E by lia. lia.
Qed.

Section State.
Context `{ShaEngine} `{FipsHw}.

(** The comparison steps the weak generator and nothing else. *)
Fixpoint fast_steps (n : nat) (s : fips) : fips :=
  match n with
  | O => s
  | S n => fast_steps n (snd (fast_random s))
  end.

Lemma fast_steps_S n s : fast_steps (S n) s = fast_steps n (snd (fast_random s)).
Proof. done. Qed.

Lemma lt_loop_spec a : forall b br s,
  length a = length b ->
  lt_loop a b br s =
  ((val a - val b + br) / 2 ^ (32 * Z.of_nat (length a)), fast_steps (length a) s).
Proof.
  unfold val. induction a as [|x a IH]; intros [|y b] br s Hl; try done; cbn [lt_loop digits length].
  - cbn. by rewrite Z.div_1_r.
  - unfold bind. destruct (fast_random s) as [w s1] eqn:E. rewrite IH by (by injection Hl).
    rewrite fast_steps_S, E. cbn [snd]. f_equal.
    unfold P256_BITSPERDIGIT. rewrite Z.shiftr_div_pow2 by lia.
    replace (32 * Z.of_nat (S (length a))) with (32 + 32 * Z.of_nat (length a)) by lia.
    rewrite borrow_step by lia. do 3 f_equal. lia.
Qed.

Lemma lt_blinded_spec a b s :
  is_p256 a -> is_p256 b ->
  p256_lt_blinded a b s = ((if val a <? val b then -1 else 0), fast_steps P256_NDIGITS s).
Proof.
  intros Ha Hb. pose proof (borrow_of a b Ha Hb) as E. destruct Ha as [Hla _], Hb as [Hlb _].
  unfold p256_lt_blinded. rewrite lt_loop_spec by congruence. rewrite Hla, Z.add_0_r.
  change (2 ^ (32 * Z.of_nat P256_NDIGITS)) with (2 ^ 256). by rewrite E.
Qed.

End State.

(** ** Private keys by testing candidates *)

Lemma generate_block K V :
  spec_generate (K, V) 32 [] = (hmac256 K V, spec_update (K, hmac256 K V) []).
Proof.
  unfold spec_generate. rewrite bool_decide_true by done.
  change ((32 + 31) / 32)%nat with 1%nat. cbn [spec_blocks]. rewrite app_nil_r.
  rewrite take_ge; [done|]. rewrite length_hmac256. done.
Qed.

(** A context between two requests. *)
Definition drbg_ok (ctx : drbg_ctx) : Prop :=
  kv_ok (kv_of ctx) /\ 0 <= reseed_counter ctx < 2 ^ 32.

(** It asks for no entropy. *)
Definition never_reseeds (ctx : drbg_ctx) : Prop :=
  HMAC_DRBG_DO_NOT_AUTO_RESEED <= reseed_threshold ctx.

(** The codes of the generator. *)
Definition drbg_code (rv : Z) : Prop :=
  rv = DCRYPTO_OK \/ rv = DCRYPTO_FAIL \/ rv = DCRYPTO_RESEED_NEEDED.

Lemma request_code ctx n input entropy : drbg_code (fst (fst (spec_request ctx n input entropy))).
Proof.
  unfold spec_request, drbg_code. destruct (negb _); [by right; left|].
  destruct (_ || _); [by right; left|]. destruct (_ =? 0xFFFFFFFF); [by right; right|].
  destruct (_ <? _); [destruct entropy; [|by right; left]|];
    destruct (spec_generate _ _ _); by left.
Qed.

Lemma drbg_ok_set ctx kv c : kv_ok kv -> 0 <= c < 2 ^ 32 -> drbg_ok (set_state ctx kv c).
Proof. by destruct kv. Qed.

Lemma kv_of_set ctx kv c : kv_of (set_state ctx kv c) = kv.
Proof. by destruct kv. Qed.

Lemma request_32 ctx entropy :
  drbg_ok ctx ->
  let '(rv, out, ctx') := spec_request ctx 32 [] entropy in
  drbg_ok ctx' /\ (rv = DCRYPTO_OK -> bytes out /\ length out = P256_NBYTES) /\
  (rv <> DCRYPTO_OK -> out = []) /\
  (never_reseeds ctx -> magic_cookie ctx = DCRYPTO_OK ->
    never_reseeds ctx' /\ magic_cookie ctx' = DCRYPTO_OK /\
    if reseed_counter ctx =? 0xFFFFFFFF then rv = DCRYPTO_RESEED_NEEDED
    else rv = DCRYPTO_OK /\ reseed_counter ctx' = reseed_counter ctx + 1 /\
      (out, kv_of ctx') = spec_generate (kv_of ctx) 32 []).
Proof.
  intros Hok. pose proof Hok as [K C]. unfold spec_request.
  destruct (Z.eqb_spec (magic_cookie ctx) DCRYPTO_OK) as [M|]; cbn [negb]; [|by split_and!].
  change ((937 <? Z.of_nat 32) || (937 <? Z.of_nat (@length Z []))) with false. cbv iota.
  destruct (Z.eqb_spec (reseed_counter ctx) 0xFFFFFFFF) as [|HC]; [by split_and!|].
  unfold never_reseeds, HMAC_DRBG_DO_NOT_AUTO_RESEED.
  destruct (Z.ltb_spec (reseed_threshold ctx) (reseed_counter ctx)) as [Ht|Ht].
  - destruct entropy as [e|]; [|split_and!; try done; lia].
    destruct (spec_update (kv_of ctx) (e ++ [])) as [K1 V1]. rewrite generate_block.
    split_and!; [|intros _|by intros ?|intros ?; lia].
    + apply drbg_ok_set; [apply spec_update_ok|lia].
    + split; [apply bytes_hmac|apply length_hmac256].
  - destruct (kv_of ctx) as [K1 V1]. rewrite generate_block.
    split_and!; [|intros _|by intros ?|intros Hn _; split_and!; try done].
    + apply drbg_ok_set; [apply spec_update_ok|lia].
    + split; [apply bytes_hmac|apply length_hmac256].
Qed.

Section Keys.
Context {E : ShaEngine} {L : ShaEngineLaws E} `{FipsHw}.

Lemma random_digits_run n s : exists ds s', random_digits n s = (ds, s') /\ length ds = n.
Proof.
  revert s. induction n as [|n IH]; intros s; [by exists [], s|]. cbn [random_digits]. unfold bind.
  destruct (fast_random s) as [d s1]. destruct (IH s1) as (ds & s2 & -> & Hl).
  exists (d :: ds), s2. split; [done|]. cbn [length]. by rewrite Hl.
Qed.

(** One turn of the loop. *)
Lemma candidate_step fuel ctx s :
  drbg_ok ctx -> exists rv rnd ctx' s',
  candidates (S fuel) ctx s =
    (if (rv =? DCRYPTO_OK) && (val SECP256r1_nMin2 <=? val rnd)
     then candidates fuel ctx' s' else (Some (rv, rnd, ctx'), s')) /\
  is_p256 rnd /\ drbg_ok ctx' /\ drbg_code rv /\
  (never_reseeds ctx -> magic_cookie ctx = DCRYPTO_OK ->
    never_reseeds ctx' /\ magic_cookie ctx' = DCRYPTO_OK /\
    if reseed_counter ctx =? 0xFFFFFFFF then rv = DCRYPTO_RESEED_NEEDED
    else rv = DCRYPTO_OK /\ reseed_counter ctx' = reseed_counter ctx + 1 /\
      exists block, spec_generate (kv_of ctx) 32 [] = (block, kv_of ctx') /\
        val rnd = le_val block).
Proof.
  intros K. cbn [candidates].
  destruct (random_digits_run P256_NDIGITS s) as (ds & s1 & E1 & Hds).
  destruct (generate_run (W := fips) ctx P256_NBYTES [] s1 (proj1 K) (proj2 K) ltac:(constructor)
    (trng_ok s1)) as (s2 & E2).
  pose proof (request_32 ctx (fst (fips_trng_bytes RESEED_ENTROPY_SIZE s1)) K) as R.
  pose proof (request_code ctx 32 [] (fst (fips_trng_bytes RESEED_ENTROPY_SIZE s1))) as Rc.
  unfold P256_NBYTES in *. destruct (spec_request _ _ _ _) as [[rv out] ctx'].
  cbn [fst] in Rc.
  destruct R as (K' & Hout & Hfail & Hn).
  destruct (word_bytes_ok ds) as [Hb Hl]. rewrite Hds in Hl.
  assert (bytes out /\ (length out = 32 \/ length out = 0)%nat) as [Hbo Hlo].
  { destruct (Z.eq_dec rv DCRYPTO_OK) as [Er|Er].
    - destruct (Hout Er). auto.
    - rewrite (Hfail Er). split; [constructor|by right]. }
  destruct (of_b8_spec (splice 0 out (word_bytes ds))) as [W V].
  { by apply bytes_splice. }
  { rewrite length_splice; [exact Hl|]. rewrite Hl. unfold P256_NDIGITS. lia. }
  exists rv, (of_b8 (splice 0 out (word_bytes ds))).
  exists ctx'. rewrite (bind_run _ _ s ds s1 E1), (bind_run _ _ s1 _ s2 E2). cbv iota beta.
  assert (never_reseeds ctx -> magic_cookie ctx = DCRYPTO_OK ->
    never_reseeds ctx' /\ magic_cookie ctx' = DCRYPTO_OK /\
    if reseed_counter ctx =? 0xFFFFFFFF then rv = DCRYPTO_RESEED_NEEDED
    else rv = DCRYPTO_OK /\ reseed_counter ctx' = reseed_counter ctx + 1 /\
      exists block, spec_generate (kv_of ctx) 32 [] = (block, kv_of ctx') /\
        val (of_b8 (splice 0 out (word_bytes ds))) = le_val block) as Hn'.
  { intros N M. destruct (Hn N M) as (N' & M' & R). split_and!; [done..|].
    destruct (_ =? 0xFFFFFFFF); [done|]. destruct R as (Er & Ec & Eg). split_and!; [done..|].
    exists out. split; [by rewrite <- Eg|]. rewrite V. f_equal. apply splice_whole.
    rewrite Hl. by destruct (Hout Er) as [_ ->]. }
  destruct (rv =? DCRYPTO_OK) eqn:Er; cbn [andb]; [|exists s2; by split_and!].
  exists (fast_steps P256_NDIGITS s2).
  rewrite (bind_run _ _ s2 _ _ (lt_blinded_spec _ _ s2 W nMin2_p256)).
  split_and!; try done.
  set (x := val _). destruct (Z.ltb_spec x (val SECP256r1_nMin2)),
    (Z.leb_spec (val SECP256r1_nMin2) x); try lia; reflexivity.
Qed.

(** The first block below the bound among the next [n] blocks of output, with its number. *)
Fixpoint first_below (n : nat) (kv : list Z * list Z) : option (Z * (list Z * list Z)) :=
  match n with
  | O => None
  | S n =>
      let '(block, kv) := spec_generate kv 32 [] in
      if le_val block <? SECP256r1_n - 2 then Some (le_val block, kv) else first_below n kv
  end.

Lemma candidates_result fuel : forall ctx s rv a ctx' s',
  drbg_ok ctx -> candidates fuel ctx s = (Some (rv, a, ctx'), s') ->
  is_p256 a /\ drbg_ok ctx' /\ drbg_code rv /\ (rv = DCRYPTO_OK -> val a < SECP256r1_n - 2).
Proof.
  induction fuel as [|fuel IH]; intros ctx s rv a ctx' s' K; [done|].
  destruct (candidate_step fuel ctx s K) as (rv1 & rnd & ctx1 & s1 & -> & W & K1 & Rc & _).
  rewrite nMin2_value. destruct (Z.eqb_spec rv1 DCRYPTO_OK) as [Er|Er]; cbn [andb].
  - destruct (Z.leb_spec (SECP256r1_n - 2) (val rnd)) as [Hlt|Hge]; [by apply IH|].
    intros [= <- <- <- <-]. split_and!; [done..|intros _; exact Hge].
  - intros [= <- <- <- <-]. split_and!; [done..|]. intros E'. by destruct Er.
Qed.

(** Without reseeding, the search is that of the specification, and ends with the counter. *)
Lemma candidates_first fuel : forall ctx s,
  drbg_ok ctx -> never_reseeds ctx -> magic_cookie ctx = DCRYPTO_OK ->
  let left := Z.to_nat (2 ^ 32 - 1 - reseed_counter ctx) in
  (left < fuel)%nat ->
  exists rv a ctx' s', candidates fuel ctx s = (Some (rv, a, ctx'), s') /\
  match first_below left (kv_of ctx) with
  | Some (x, kv) => rv = DCRYPTO_OK /\ val a = x /\ kv_of ctx' = kv
  | None => rv = DCRYPTO_RESEED_NEEDED
  end.
Proof.
  induction fuel as [|fuel IH]; intros ctx s K N M left Hf; [lia|].
  destruct (candidate_step fuel ctx s K) as (rv1 & rnd & ctx1 & s1 & -> & W & K1 & _ & Hn).
  rewrite nMin2_value. destruct (Hn N M) as (N1 & M1 & R). destruct K as [_ C].
  destruct (Z.eqb_spec (reseed_counter ctx) 0xFFFFFFFF) as [EC|EC].
  - rewrite R. cbn [DCRYPTO_RESEED_NEEDED DCRYPTO_OK Z.eqb andb].
    exists DCRYPTO_RESEED_NEEDED, rnd, ctx1, s1. split; [done|].
    unfold left. rewrite EC. reflexivity.
  - destruct R as (Er & Ec & block & Eb & Ev). rewrite Er, Z.eqb_refl. cbn [andb].
    replace left with (S (Z.to_nat (2 ^ 32 - 1 - reseed_counter ctx1))) in * by lia.
    cbn [first_below]. rewrite Eb, <- Ev.
    destruct (Z.ltb_spec (val rnd) (SECP256r1_n - 2)).
    + rewrite (proj2 (Z.leb_gt _ _)) by done. by exists DCRYPTO_OK, rnd, ctx1, s1.
    + rewrite (proj2 (Z.leb_le _ _)) by done. apply IH; [done..|lia].
Qed.

End Keys.

(** ** Properties *)

(** C37. The arithmetic on digits is that on integers: the zero test, the sum with a digit and
    its carry, and both comparisons; the blinded one gives the same for every state of the
    weak generator, and steps it once for each digit. *)
Theorem p256_arithmetic `{FipsHw} a b d (s : fips) :
  is_p256 a -> is_p256 b -> 0 <= d < 2 ^ 32 ->
  p256_is_zero a = bool_decide (val a = 0) /\
  (is_p256 (fst (p256_add_d a d)) /\ val (fst (p256_add_d a d)) = (val a + d) mod 2 ^ 256 /\
   snd (p256_add_d a d) = (val a + d) / 2 ^ 256) /\
  p256_cmp a b = (match val a ?= val b with Lt => -1 | Eq => 0 | Gt => 1 end) /\
  p256_lt_blinded a b s = ((if val a <? val b then -1 else 0), fast_steps P256_NDIGITS s).
Proof.
  intros Ha Hb Hd. split; [|split; [by apply add_d_spec|split; [by apply cmp_spec|]]].
  - apply Bool.eq_true_iff_eq. rewrite bool_decide_eq_true. apply is_zero_spec, Ha.
  - by apply lt_blinded_spec.
Qed.

(** C38. Numbers survive the conversion to bytes and back, 32 bytes survive the conversion to a
    number and back, and a big-endian number of any length is read exactly when it fits. *)
Theorem p256_encodings a src :
  is_p256 a -> bytes src ->
  (bytes (p256_to_bin a) /\ length (p256_to_bin a) = P256_NBYTES /\
   p256_from_bin (p256_to_bin a) = a) /\
  (length src = P256_NBYTES ->
   is_p256 (p256_from_bin src) /\ p256_to_bin (p256_from_bin src) = src) /\
  match p256_from_be_bin_size src (length src) with
  | Some x => is_p256 x /\ val x = be_val src
  | None => 2 ^ 256 <= be_val src
  end.
Proof.
  intros Ha Hb. pose proof (p256_range a Ha) as Hr.
  assert (bytes (p256_to_bin a) /\ length (p256_to_bin a) = P256_NBYTES) as [Hba Hla].
  { rewrite to_bin_spec by done. split; [apply bytes_be_bytes|apply length_be_bytes]. }
  split; [|split; [|by apply from_be_bin_size_spec]].
  - split; [done|]. split; [done|]. destruct (from_bin_spec _ Hba Hla) as [W V].
    apply val_inj; [apply W|apply Ha|by rewrite (proj1 W), (proj1 Ha)|].
    rewrite V, to_bin_spec by done. by apply be_val_bytes.
  - intros Hl. destruct (from_bin_spec src Hb Hl) as [W V]. split; [done|].
    rewrite to_bin_spec, V by done. unfold be_bytes, be_val. rewrite <- Hl, <- length_rev.
    rewrite le_bytes_val by (by apply Forall_rev). apply rev_involutive.
Qed.

Section Selection.
Context {E : ShaEngine} {L : ShaEngineLaws E} `{FipsHw}.

(** C20. Choosing a number with a generator: what is returned with success is a private key or
    nonce in 1 .. n - 2, whatever the noise source does.  A generator that does not reseed
    always ends, within its counter: the number is then one more than the first of its blocks
    of output below n - 2, on every engine and for every state of the weak generator. *)
Theorem p256_key_selection fuel ctx (s : fips) :
  drbg_ok ctx ->
  (forall rv a ctx' s', p256_hmac_drbg_generate fuel ctx s = (Some (rv, a, ctx'), s') ->
    is_p256 a /\ drbg_ok ctx' /\ (rv = DCRYPTO_OK -> 1 <= val a <= SECP256r1_n - 2)) /\
  (let left := Z.to_nat (2 ^ 32 - 1 - reseed_counter ctx) in
   never_reseeds ctx -> magic_cookie ctx = DCRYPTO_OK -> (left < fuel)%nat ->
   exists rv a ctx' s', p256_hmac_drbg_generate fuel ctx s = (Some (rv, a, ctx'), s') /\
   match first_below left (kv_of ctx) with
   | Some (x, kv) => rv = DCRYPTO_OK /\ val a = x + 1 /\ kv_of ctx' = kv
   | None => rv = DCRYPTO_RESEED_NEEDED
   end).
Proof.
  intros K. unfold p256_hmac_drbg_generate. split.
  - intros rv a ctx' s' R. apply bind_inv in R as (found & s1 & E1 & R).
    destruct found as [[[rv1 rnd] ctx1]|]; [|done]. injection R as <- <- <- <-.
    destruct (candidates_result fuel ctx s rv1 rnd ctx1 s1 K E1) as (W & K1 & _ & Hlt).
    pose proof (p256_range rnd W) as Hr.
    destruct (add_d_spec rnd 1 W ltac:(lia)) as (W1 & V1 & _).
    split; [done|]. split; [done|]. intros Er. specialize (Hlt Er). rewrite V1. unfold SECP256r1_n in *.
    rewrite Z.mod_small by lia. lia.
  - intros N M Hf. destruct (candidates_first fuel ctx s K N M Hf)
      as (rv & a & ctx' & s' & E1 & R).
    pose proof (candidates_result fuel ctx s rv a ctx' s' K E1) as (W & _ & _ & Hlt).
    exists rv, (fst (p256_add_d a 1)), ctx', s'. rewrite (bind_run _ _ _ _ _ E1).
    split; [done|]. destruct (first_below _ (kv_of ctx)) as [[x kv]|]; [|done].
    destruct R as (Er & <- & ?). split; [done|]. split; [|done].
    pose proof (p256_range a W) as Hr.
    destruct (add_d_spec a 1 W ltac:(lia)) as (_ & V1 & _). specialize (Hlt Er).
    rewrite V1. unfold SECP256r1_n in *. rewrite Z.mod_small; lia.
Qed.

End Selection.

(** *** Witnesses *)

Lemma p256_arithmetic_witness :
  p256_cmp SECP256r1_nMin2 p256_clear = 1 /\
  p256_lt_blinded p256_clear SECP256r1_nMin2 (reset_fips []) =
    (-1, fast_steps P256_NDIGITS (reset_fips [])).
Proof.
  assert (is_p256 p256_clear) as W by (split; [reflexivity|repeat constructor; reflexivity]).
  split.
  - apply (p256_arithmetic SECP256r1_nMin2 p256_clear 0 (reset_fips []) nMin2_p256 W).
    split; [lia|reflexivity].
  - apply (p256_arithmetic p256_clear SECP256r1_nMin2 0 (reset_fips []) W nMin2_p256).
    split; [lia|reflexivity].
Defined.

Lemma p256_encodings_witness :
  p256_from_bin (p256_to_bin SECP256r1_nMin2) = SECP256r1_nMin2 /\
  match p256_from_be_bin_size [0; 7] 2 with
  | Some x => is_p256 x /\ val x = 7
  | None => 2 ^ 256 <= 7
  end.
Proof.
  destruct (p256_encodings SECP256r1_nMin2 [0; 7] nMin2_p256) as ((_ & _ & E1) & _ & E2).
  - repeat constructor; lia.
  - split; [exact E1|exact E2].
Defined.

(** A generator before its last request. *)
Definition last_drbg : drbg_ctx :=
  mkDrbg (zeros 32) (zeros 32) 0xFFFFFFFE HMAC_DRBG_DO_NOT_AUTO_RESEED DCRYPTO_OK.

Lemma p256_key_selection_witness :
  exists rv a ctx' s',
    p256_hmac_drbg_generate 2 last_drbg (reset_fips []) = (Some (rv, a, ctx'), s') /\
    match first_below 1 (zeros 32, zeros 32) with
    | Some (x, kv) => rv = DCRYPTO_OK /\ val a = x + 1 /\ kv_of ctx' = kv
    | None => rv = DCRYPTO_RESEED_NEEDED
    end.
Proof.
  apply (@p256_key_selection toy_engine toy_engine_laws list_trng 2 last_drbg (reset_fips [])).
  - split; [split_and!; try reflexivity; apply bytes_zeros|split; [discriminate|reflexivity]].
  - discriminate.
  - reflexivity.
  - apply Nat.ltb_lt. reflexivity.
Defined.
