(* ===== verification/P256Driver.v ===== *)
(** * The driver of the curve computes what the accelerator promises (dcrypto_p256.c)

    The contract of the accelerator on its memories, and that the C code keeps to it: the code
    is loaded, the pointers are set, the secrets are handed over blinded and overwritten at
    the end, and the results are those of the contract. *)

From S2P Require Import Prelude Hash HashProps HmacSpec ShaHw ShaHwProps ShaHwPaths Drbg DrbgProps FipsRand FipsHealth Dcrypto P256 P256Hw FipsKats FipsKnown P256Props.

(** ** Memory *)

(** A field of 8 words. *)
Definition field (off : nat) (m : list Z) : list Z := sub off P256_NDIGITS m.

Lemma field_same off ws m :
  length ws = P256_NDIGITS -> (off + 8 <= length m)%nat -> field off (splice off ws m) = ws.
Proof. intros Hl Hm. unfold field. rewrite <- Hl. apply sub_splice_same. lia. Qed.

Lemma field_other off off' ws m :
  (off + length ws <= length m)%nat -> (off' + 8 <= off \/ off + length ws <= off')%nat ->
  field off' (splice off ws m) = field off' m.
Proof. intros. by apply sub_splice_other. Qed.

Lemma insert_splice (i : nat) (x : Z) m : (i < length m)%nat -> <[i := x]> m = splice i [x] m.
Proof.
  intros Hi. unfold splice. cbn [length]. rewrite Nat.add_1_r.
  by rewrite insert_take_drop by done.
Qed.

Lemma splice_adjacent {A} off (l1 l2 m : list A) :
  (off + length l1 + length l2 <= length m)%nat ->
  splice (off + length l1) l2 (splice off l1 m) = splice off (l1 ++ l2) m.
Proof.
  intros Hm. unfold splice. rewrite length_app.
  rewrite (app_assoc (take off m) l1). rewrite (take_app_length' (take off m ++ l1));
    [|rewrite length_app, length_take; lia].
  rewrite drop_app_ge; [|rewrite length_app, length_take; lia].
  rewrite length_app, length_take, drop_drop, <- !app_assoc. do 4 f_equal. lia.
Qed.

Lemma lxor_blinded a b : length a = length b -> zip_with Z.lxor (zip_with Z.lxor a b) b = a.
Proof.
  revert b. induction a as [|x a IH]; intros [|y b] Hl; try done. cbn [zip_with]. f_equal.
  - by rewrite Z.lxor_assoc, Z.lxor_nilpotent, Z.lxor_0_r.
  - apply IH. by injection Hl.
Qed.

Section Words.
Context `{FipsHw}.

(** What a step of the driver makes of the data memory. *)
Definition writes (m : ST dcrypto_hw unit) (f : list Z -> list Z) : Prop :=
  forall d, m d = (tt, set_dmem (f (dmem d)) d).

Lemma set_dmem_twice x y d : set_dmem x (set_dmem y d) = set_dmem x d.
Proof. done. Qed.

Lemma cp_words_run ws : forall off i d,
  (off + i + length ws <= length (dmem d))%nat ->
  cp_words off i ws d = (tt, set_dmem (splice (off + i) ws (dmem d)) d).
Proof.
  induction ws as [|w ws IH]; intros off i d Hl; cbn [cp_words length] in *.
  - unfold ret, splice. cbn [length app]. rewrite Nat.add_0_r, take_drop. by destruct d.
  - unfold bind, cp1w, modify. rewrite insert_splice by lia.
    rewrite IH; cbn [dmem set_dmem]; [|rewrite length_splice; cbn [length]; lia].
    rewrite set_dmem_twice. do 2 f_equal.
    replace (off + S i)%nat with (off + i + length [w])%nat by (cbn [length]; lia).
    rewrite splice_adjacent by (cbn [length]; lia). done.
Qed.

Lemma cp8w_run off src d :
  length src = P256_NDIGITS -> (off + 8 <= length (dmem d))%nat ->
  cp8w off src d = (tt, set_dmem (splice off src (dmem d)) d).
Proof.
  intros Hs Hl. unfold cp8w. rewrite take_ge by lia. rewrite cp_words_run.
  - by rewrite Nat.add_0_r.
  - rewrite Hs. unfold P256_NDIGITS. lia.
Qed.

Lemma cp8w_blinded_run off src blinder d :
  length src = P256_NDIGITS -> length blinder = P256_NDIGITS ->
  (off + 8 <= length (dmem d))%nat ->
  cp8w_blinded off src blinder d =
    (tt, set_dmem (splice off (zip_with Z.lxor src blinder) (dmem d)) d).
Proof.
  intros Hs Hb Hl.
  assert (length (zip_with Z.lxor src blinder) = P256_NDIGITS) as Hz
    by (rewrite length_zip_with; lia).
  unfold cp8w_blinded. rewrite take_ge by lia. rewrite cp_words_run.
  - by rewrite Nat.add_0_r.
  - rewrite Hz. unfold P256_NDIGITS. lia.
Qed.

End Words.

(** ** The contract of the accelerator *)

(** The pointers to the fields, in cells of 32 bytes. *)
Definition ecc_pointers : list Z := [17; 18; 19; 20; 21; 22; 23; 24].

(** The memories are set up for a call. *)
Definition ecc_ready `{P256Code} (im dm : list Z) : Prop :=
  sub 0 (length IMEM_dcrypto_p256) im = IMEM_dcrypto_p256 /\
  sub 0 8 dm = ecc_pointers /\ length dm = DMEM_NUM_WORDS.

(** A call that ends well on such memories, on a core as described: the new core and data
    memory are as described. *)
Definition call_gives `{FipsHw} `{P256Code} (P P' : crypto_core -> Prop) (adr : Z)
    (Q : list Z -> list Z -> Prop) : Prop :=
  forall im dm c, ecc_ready im dm -> P c -> exists state dm' c',
    core_run adr im dm c = ((true, state, dm'), c') /\ status_ok state = true /\
    ecc_ready im dm' /\ P' c' /\ Q dm dm'.

(** A core in which anything may have run. *)
Definition any_core `{FipsHw} (c : crypto_core) : Prop := True.

(** What two fields hold together. *)
Definition unblinded (off : nat) (dm : list Z) : list Z :=
  zip_with Z.lxor (field off dm) (field off_rnd dm).

(** The functions of the accelerator: signing with a nonce and a key, the multiples of the
    base point and of a point, and the tests of signatures and points.  They need registers
    with the constants of the curve, which only [p256init] is known to set; they keep them. *)
Class CurveEngine `{FipsHw} `{P256Code} := {
  ecc_set_up (c : crypto_core) : Prop;
  ecc_sign (k d m : list Z) : list Z * list Z;
  ecc_base (d : list Z) : list Z * list Z;
  ecc_mul (k x y : list Z) : list Z * list Z;
  ecc_verify (x y m r s : list Z) : bool;
  ecc_on_curve (x y : list Z) : bool;

  code_fits : (length IMEM_dcrypto_p256 <= IMEM_NUM_WORDS)%nat;
  run_init : call_gives any_core ecc_set_up CF_p256init_adr (fun _ _ => True);
  run_sign : call_gives ecc_set_up ecc_set_up CF_p256sign_adr (fun dm dm' =>
    (field off_r dm', field off_s dm') =
      ecc_sign (unblinded off_k dm) (unblinded off_d dm) (field off_msg dm));
  run_base : call_gives ecc_set_up ecc_set_up CF_p256scalarbasemult_adr (fun dm dm' =>
    (field off_x dm', field off_y dm') = ecc_base (unblinded off_d dm) /\
    field off_rnd dm' = field off_rnd dm);
  run_mul : call_gives ecc_set_up ecc_set_up CF_p256scalarmult_adr (fun dm dm' =>
    (field off_x dm', field off_y dm') =
      ecc_mul (unblinded off_k dm) (field off_x dm) (field off_y dm));
  run_verify : call_gives ecc_set_up ecc_set_up CF_p256verify_adr (fun dm dm' =>
    field off_rnd dm' = field off_r dm <->
      ecc_verify (field off_x dm) (field off_y dm) (field off_msg dm) (field off_r dm)
        (field off_s dm) = true);
  run_on_curve : call_gives ecc_set_up ecc_set_up CF_p256isoncurve_adr (fun dm dm' =>
    field off_r dm' = field off_s dm' <->
      ecc_on_curve (field off_x dm) (field off_y dm) = true)
}.

Section Driver.
Context `{FipsHw} `{P256Code}.

(** The code of the curve is in the instruction memory whenever its tag is. *)
Definition driver_ok (d : dcrypto_hw) : Prop :=
  dcrypto_is_initialized d = true ->
  length (dmem d) = DMEM_NUM_WORDS /\ length (imem d) = IMEM_NUM_WORDS /\
  (nth 0 (imem d) 0 = 0xf8000002 ->
   sub 0 (length IMEM_dcrypto_p256) (imem d) = IMEM_dcrypto_p256).

(** Ready for a call that needs such a core. *)
Record ready (P : crypto_core -> Prop) (s : fips) : Prop := {
  ready_init : dcrypto_is_initialized (dcrypto s) = true;
  ready_imem : length (imem (dcrypto s)) = IMEM_NUM_WORDS;
  ready_ecc : ecc_ready (imem (dcrypto s)) (dmem (dcrypto s));
  ready_core : P (core (dcrypto s))
}.

Lemma ready_ok P s : ready P s -> driver_ok (dcrypto s).
Proof. intros [Hi Hl (Hc & _ & Hd) _] _. by split_and!. Qed.

(** Only the accelerator and the weak generator differ. *)
Definition rest (s s' : fips) : Prop :=
  set_dcrypto (dcrypto s) (set_fast_random_state (fast_random_state s) s') = s.

#[export] Instance rest_preorder : PreOrder rest.
Proof.
  split.
  - by intros [].
  - intros [] [] [] E1 E2. injection E1 as -> -> -> -> -> -> -> -> -> -> ->.
    injection E2 as -> -> -> -> -> -> -> -> -> -> ->. done.
Qed.

Lemma rest_put x s : rest s (set_dcrypto x s).
Proof. by destruct s. Qed.

Lemma on_dcrypto_run {A} (m : ST dcrypto_hw A) s a x :
  m (dcrypto s) = (a, x) -> on_dcrypto m s = (a, set_dcrypto x s).
Proof. intros E. unfold on_dcrypto. by rewrite E. Qed.

Notation dm s := (dmem (dcrypto s)).

(** A step that leaves the accelerator ready. *)
Definition step (P : crypto_core -> Prop) {A} (m : ST fips A) (s : fips) (a : A) (s' : fips)
    : Prop :=
  m s = (a, s') /\ ready P s' /\ rest s s'.

Lemma cp8w_step P off src s :
  ready P s -> length src = P256_NDIGITS -> (8 <= off <= 1016)%nat ->
  exists s', step P (on_dcrypto (cp8w off src)) s tt s' /\ dm s' = splice off src (dm s).
Proof.
  intros [Hi Hl (Hc & Hp & Hd) HP] Hs Ho. pose proof (cp8w_run off src (dcrypto s) Hs) as R.
  rewrite Hd in R. specialize (R ltac:(unfold DMEM_NUM_WORDS; lia)).
  eexists. split; [split; [by apply on_dcrypto_run|split; [|apply rest_put]]|done].
  split; [done|done| |done]. cbn [dcrypto set_dcrypto imem dmem set_dmem]. split; [done|].
  unfold DMEM_NUM_WORDS, P256_NDIGITS in *. rewrite length_splice by lia. split; [|done].
  rewrite sub_splice_other; [done|lia|lia].
Qed.

Lemma cp8w_blinded_step P off src blinder s :
  ready P s -> length src = P256_NDIGITS -> length blinder = P256_NDIGITS ->
  (8 <= off <= 1016)%nat ->
  exists s', step P (on_dcrypto (cp8w_blinded off src blinder)) s tt s' /\
    dm s' = splice off (zip_with Z.lxor src blinder) (dm s).
Proof.
  intros R Hs Hb Ho. assert (length (zip_with Z.lxor src blinder) = P256_NDIGITS) as Hz
    by (rewrite length_zip_with; lia).
  destruct (cp8w_step P off (zip_with Z.lxor src blinder) s R Hz Ho) as (s' & S & E).
  exists s'. split; [|done]. destruct S as (S & ? & ?). split; [|done]. rewrite <- S.
  unfold cp8w_blinded, cp8w. by rewrite !take_ge by lia.
Qed.

Lemma random_step s :
  exists rnd s', p256_fast_random s = (rnd, s') /\ length rnd = P256_NDIGITS /\
  dcrypto s' = dcrypto s /\ rest s s'.
Proof.
  unfold p256_fast_random. generalize P256_NDIGITS as n. intros n.
  revert s. induction n as [|n IH]; intros s; [by exists [], s|]. cbn [random_digits]. unfold bind.
  destruct (fast_random s) as [d s1] eqn:E1.
  assert (dcrypto s1 = dcrypto s /\ rest s s1) as [D1 R1].
  { unfold fast_random, bind, modify, gets in E1. injection E1 as <- <-. by destruct s. }
  destruct (IH s1) as (ds & s2 & -> & Hl & D2 & R2).
  exists (d :: ds), s2. split_and!; [done|cbn [length]; by rewrite Hl|congruence|by etrans].
Qed.

Lemma call_step P P' adr Q s :
  call_gives P P' adr Q -> ready P s ->
  exists s', step P' (dcrypto_call adr) s 0 s' /\ Q (dm s) (dm s').
Proof.
  intros G [Hi Hl He HP].
  destruct (G _ _ (core (dcrypto s)) He HP) as (state & m & c & R & Ok & He' & HP' & HQ).
  eexists. split; [split; [|split]|].
  - unfold dcrypto_call, bind, on_dcrypto. rewrite R. rewrite Ok. cbn [andb]. reflexivity.
  - by split.
  - apply rest_put.
  - exact HQ.
Qed.

(** Setting up. *)
Lemma lock_run d :
  driver_ok d -> exists d', dcrypto_init_and_lock d = (tt, d') /\ driver_ok d' /\
  dcrypto_is_initialized d' = true.
Proof.
  intros Ok. unfold dcrypto_init_and_lock, bind, modify, gets.
  cbn [set_mutex dcrypto_is_initialized].
  destruct (dcrypto_is_initialized d) eqn:Ei.
  - eexists. split; [reflexivity|]. split; [exact Ok|exact Ei].
  - unfold dcrypto_reset_and_wipe, dcrypto_wipe_imem, on_core, bind, modify.
    cbn [set_mutex core]. destruct (core_reset (core d)) as [u c]. eexists.
    split; [reflexivity|]. split; [|done]. intros _.
    cbn [dmem imem set_initialized set_imem set_dmem]. rewrite !length_replicate.
    split_and!; [done..|]. intros E. discriminate E.
Qed.

Definition inserts (ws : list (nat * Z)) (m : list Z) : list Z :=
  fold_left (fun m iw => <[fst iw := snd iw]> m) ws m.

Lemma length_inserts ws m : length (inserts ws m) = length m.
Proof.
  revert m. induction ws as [|w ws IH]; intros m; [done|]. cbn [inserts fold_left].
  etrans; [apply IH|]. apply length_insert.
Qed.

Definition ecc_words : list (nat * Z) :=
  combine (seq 0 8) ecc_pointers ++
  combine [off_k; off_rnd; off_msg; off_r; off_s; off_x; off_y; off_d] [1; 2; 3; 4; 5; 6; 7; 8].

Lemma ecc_words_pointers m :
  length m = DMEM_NUM_WORDS -> sub 0 8 (inserts ecc_words m) = ecc_pointers.
Proof. intros Hl. do 8 (destruct m as [|? m]; [done|]). reflexivity. Qed.

(** Words written one after the other. *)
Fixpoint pokes (i : nat) (x : Z) (ws : list (nat * Z)) : ST dcrypto_hw unit :=
  match ws with
  | [] => cp1w i 0 x
  | (j, y) :: ws => cp1w i 0 x ;;; pokes j y ws
  end.

Lemma pokes_run ws : forall i x d,
  pokes i x ws d = (tt, set_dmem (inserts ((i, x) :: ws) (dmem d)) d).
Proof.
  induction ws as [|[j y] ws IH]; intros i x d; cbn [pokes]; unfold bind, cp1w, modify;
    rewrite Nat.add_0_r; [done|]. by rewrite IH.
Qed.

Lemma ecc_init_eq :
  dcrypto_ecc_init = (dcrypto_imem_load 0 IMEM_dcrypto_p256 ;;; pokes 0 17 (tl ecc_words)).
Proof. reflexivity. Qed.

(** The instruction memory after loading the code. *)
Lemma imem_load_run d :
  length (imem d) = IMEM_NUM_WORDS -> (length IMEM_dcrypto_p256 <= IMEM_NUM_WORDS)%nat ->
  (nth 0 (imem d) 0 = 0xf8000002 ->
   sub 0 (length IMEM_dcrypto_p256) (imem d) = IMEM_dcrypto_p256) ->
  exists im, dcrypto_imem_load 0 IMEM_dcrypto_p256 d = (tt, set_imem im d) /\
  length im = IMEM_NUM_WORDS /\ sub 0 (length IMEM_dcrypto_p256) im = IMEM_dcrypto_p256.
Proof.
  intros Hi Hf Hc. unfold dcrypto_imem_load, modify.
  destruct (Z.eqb_spec (nth 0 (imem d) 0) (nth 0 IMEM_dcrypto_p256 0)) as [E|E].
  - exists (imem d). split; [by destruct d|]. split; [done|by apply Hc].
  - eexists. split; [reflexivity|]. split; [rewrite length_splice; lia|].
    apply sub_splice_same. lia.
Qed.

Lemma ecc_init_run d :
  driver_ok d -> dcrypto_is_initialized d = true ->
  (length IMEM_dcrypto_p256 <= IMEM_NUM_WORDS)%nat ->
  exists d', dcrypto_ecc_init d = (tt, d') /\ dcrypto_is_initialized d' = true /\
  length (imem d') = IMEM_NUM_WORDS /\ ecc_ready (imem d') (dmem d').
Proof.
  intros Ok Ei Hf. destruct (Ok Ei) as (Hd & Hi & Hc).
  destruct (imem_load_run d Hi Hf Hc) as (im & E & Li & Ci).
  rewrite ecc_init_eq, (bind_run _ _ _ _ _ E), pokes_run. eexists. split; [reflexivity|].
  split; [exact Ei|]. split; [exact Li|]. split; [exact Ci|].
  cbn [dmem set_dmem set_imem]. split; [exact (ecc_words_pointers _ Hd)|].
  etrans; [apply length_inserts|exact Hd].
Qed.

Lemma setup_step s :
  driver_ok (dcrypto s) -> (length IMEM_dcrypto_p256 <= IMEM_NUM_WORDS)%nat ->
  exists s1 s2, on_dcrypto dcrypto_init_and_lock s = (tt, s1) /\
  step any_core (on_dcrypto dcrypto_ecc_init) s1 tt s2 /\ rest s s2.
Proof.
  intros Ok Hf. destruct (lock_run _ Ok) as (d1 & E1 & Ok1 & I1).
  destruct (ecc_init_run d1 Ok1 I1 Hf) as (d2 & E2 & I2 & L2 & R2).
  exists (set_dcrypto d1 s), (set_dcrypto d2 s).
  split; [by apply on_dcrypto_run|]. split; [|apply rest_put]. split; [|split].
  - by apply (on_dcrypto_run _ (set_dcrypto d1 s)).
  - by split.
  - by destruct s.
Qed.

End Driver.

(** ** The functions of the driver *)

Section Functions.
Context `{FipsHw} `{P256Code} `{!CurveEngine}.

Notation dm s := (dmem (dcrypto s)).

Lemma ready_dm P s : ready P s -> length (dm s) = 1024%nat.
Proof. by intros [_ _ (_ & _ & Hd) _]. Qed.

#[local] Ltac offsets :=
  unfold off_d, off_y, off_x, off_s, off_r, off_msg, off_rnd, off_k, P256_NDIGITS in *.

(** A field after some writes. *)
#[local] Ltac fits := offsets; rewrite ?length_splice, ?length_zip_with; lia.
#[local] Ltac fields :=
  repeat ((rewrite field_same by fits) || (rewrite field_other by fits)).

#[local] Ltac rd D := rewrite D; fields.

#[local] Ltac write m s' D :=
  let S := fresh in
  destruct m as (s' & S & D);
    [assumption|assumption || (rewrite ?length_zip_with; lia)..
    |offsets; lia|destruct S as (S & ? & ?);
     rewrite (bind_run _ _ _ _ _ S)].

(** The lock is free again. *)
Lemma unlock_step P s :
  ready P s -> exists s', step P (on_dcrypto dcrypto_unlock) s tt s' /\ dm s' = dm s /\
  dcrypto_mutex (dcrypto s') = false.
Proof.
  intros [Hi Hl He HP]. exists (set_dcrypto (set_mutex false (dcrypto s)) s).
  split; [split; [done|split; [by split|apply rest_put]]|done].
Qed.

(** What holds when a function of the driver returns. *)
Record finished (s s' : fips) : Prop := {
  finished_ready : ready ecc_set_up s';
  finished_rest : rest s s';
  finished_free : dcrypto_mutex (dcrypto s') = false
}.

(** The value of a signature. *)
Definition sign_code (rs : list Z * list Z) : Z :=
  if p256_is_zero (snd rs) || p256_is_zero (fst rs) then DCRYPTO_RETRY else DCRYPTO_OK.

(** The start of every function, the choice of the blinder, and a call. *)
#[local] Ltac start Ok s3 :=
  let s1 := fresh "s" in let s2 := fresh "s" in
  let E1 := fresh "E" in let E2 := fresh "E" in let E3 := fresh "E" in let R2 := fresh in
  destruct (setup_step _ Ok code_fits) as (s1 & s2 & E1 & (E2 & R2 & ?) & ?);
  rewrite (bind_run _ _ _ _ _ E1), (bind_run _ _ _ _ _ E2);
  destruct (call_step _ _ _ _ _ run_init R2) as (s3 & (E3 & ? & ?) & _);
  rewrite (bind_run _ _ _ _ _ E3).

#[local] Ltac choose s3 rnd s4 :=
  let E4 := fresh "E" in let D4 := fresh "D" in
  destruct (random_step s3) as (rnd & s4 & E4 & ? & D4 & ?);
  rewrite (bind_run _ _ _ _ _ E4);
  match goal with R : ready ?P s3 |- _ =>
    assert (ready P s4) by (destruct R; by split; rewrite D4)
  end.

#[local] Ltac call run s5 Q :=
  let E5 := fresh "E" in
  match goal with
  | R : ready _ ?s |- context [bind (dcrypto_call _) _ ?s] =>
      destruct (call_step _ _ _ _ _ run R) as (s5 & (E5 & ? & ?) & Q);
      rewrite (bind_run _ _ _ _ _ E5)
  end.

#[local] Ltac unlock s' D :=
  let E := fresh "E" in
  match goal with
  | R : ready _ ?s |- context [bind (on_dcrypto dcrypto_unlock) _ ?s] =>
      destruct (unlock_step _ s R) as (s' & (E & ? & ?) & D & ?);
      rewrite (bind_run _ _ _ _ _ E)
  end.

#[local] Ltac rests :=
  repeat match goal with R : rest ?s ?x |- rest ?s _ => etrans; [exact R|]; clear R end;
  reflexivity.

#[local] Ltac finish := split; [assumption|rests|assumption].

(** Lengths of the data memory, for the side conditions of [fields]. *)
#[local] Ltac lengths :=
  repeat match goal with R : ready _ ?s |- _ =>
    lazymatch goal with
    | L : length (dm s) = 1024%nat |- _ => fail
    | _ => pose proof (ready_dm _ s R)
    end
  end.

Lemma sign_raw_run nonce key m s :
  driver_ok (dcrypto s) ->
  length nonce = P256_NDIGITS -> length key = P256_NDIGITS -> length m = P256_NDIGITS ->
  let rs := ecc_sign nonce key m in
  exists s' rnd, dcrypto_p256_ecdsa_sign_raw nonce key m s = ((sign_code rs, fst rs, snd rs), s') /\
  finished s s' /\ field off_k (dm s') = rnd /\ field off_d (dm s') = rnd.
Proof.
  intros Ok Hn Hk Hm rs. unfold dcrypto_p256_ecdsa_sign_raw. start Ok s3. choose s3 rnd s4.
  write (cp8w_step ecc_set_up off_rnd rnd s4) s5 D5.
  write (cp8w_blinded_step ecc_set_up off_k nonce rnd s5) s6 D6.
  write (cp8w_step ecc_set_up off_msg m s6) s7 D7.
  write (cp8w_blinded_step ecc_set_up off_d key rnd s7) s8 D8.
  call run_sign s9 Q. lengths.
  assert (ecc_sign (unblinded off_k (dm s8)) (unblinded off_d (dm s8)) (field off_msg (dm s8)) = rs)
    as Ers.
  { unfold unblinded. rd D8. rd D7. rd D6. rd D5. by rewrite !lxor_blinded by congruence. }
  rewrite Ers in Q. cbn [Z.lor Z.eqb].
  rewrite (bind_run _ _ s9 (field off_r (dm s9), field off_s (dm s9)) s9) by reflexivity.
  destruct rs as [r S]. injection Q as Q1 Q2. rewrite Q1, Q2.
  write (cp8w_step ecc_set_up off_d rnd s9) s10 D10.
  write (cp8w_step ecc_set_up off_k rnd s10) s11 D11.
  unlock s12 D12. exists s12, rnd. lengths. split; [|split; [finish|]].
  - unfold sign_code. cbn [fst snd]. rewrite andb_true_r. by destruct (_ || _).
  - rd D12. rd D11. rd D10. done.
Qed.

Lemma base_mul_run k s :
  driver_ok (dcrypto s) -> length k = P256_NDIGITS ->
  let xy := ecc_base k in
  exists s', dcrypto_p256_base_point_mul k s = ((DCRYPTO_OK, fst xy, snd xy), s') /\
  finished s s' /\ field off_d (dm s') = field off_rnd (dm s').
Proof.
  intros Ok Hk xy. unfold dcrypto_p256_base_point_mul. start Ok s3. choose s3 rnd s4.
  write (cp8w_step ecc_set_up off_rnd rnd s4) s5 D5.
  write (cp8w_blinded_step ecc_set_up off_d k rnd s5) s6 D6.
  call run_base s7 Q. lengths. destruct Q as [Q Qr].
  assert (ecc_base (unblinded off_d (dm s6)) = xy) as Exy.
  { unfold unblinded. rd D6. rd D5. by rewrite lxor_blinded by congruence. }
  rewrite Exy in Q. cbn [Z.lor Z.eqb].
  rewrite (bind_run _ _ s7 (field off_x (dm s7), field off_y (dm s7)) s7) by reflexivity.
  destruct xy as [x y]. injection Q as Q1 Q2. rewrite Q1, Q2.
  rewrite (bind_run _ _ s7 (field off_rnd (dm s7)) s7) by reflexivity.
  assert (length (field off_rnd (dm s7)) = P256_NDIGITS) as Hrl
    by (apply length_sub; offsets; lia).
  write (cp8w_step ecc_set_up off_d (field off_rnd (dm s7)) s7) s8 D8.
  unlock s9 D9. exists s9. lengths. split; [done|split; [finish|]].
  rd D9. rd D8. done.
Qed.

Lemma point_mul_run k in_x in_y s :
  driver_ok (dcrypto s) ->
  length k = P256_NDIGITS -> length in_x = P256_NDIGITS -> length in_y = P256_NDIGITS ->
  let xy := ecc_mul k in_x in_y in
  exists s' rnd, dcrypto_p256_point_mul k in_x in_y s = ((DCRYPTO_OK, fst xy, snd xy), s') /\
  finished s s' /\ field off_k (dm s') = rnd /\ field off_x (dm s') = rnd /\
  field off_y (dm s') = rnd.
Proof.
  intros Ok Hk Hx Hy xy. unfold dcrypto_p256_point_mul. start Ok s3. choose s3 rnd s4.
  write (cp8w_step ecc_set_up off_rnd rnd s4) s5 D5.
  write (cp8w_blinded_step ecc_set_up off_k k rnd s5) s6 D6.
  write (cp8w_step ecc_set_up off_x in_x s6) s7 D7.
  write (cp8w_step ecc_set_up off_y in_y s7) s8 D8.
  call run_mul s9 Q. lengths.
  assert (ecc_mul (unblinded off_k (dm s8)) (field off_x (dm s8)) (field off_y (dm s8)) = xy)
    as Exy.
  { unfold unblinded. rd D8. rd D7. rd D6. rd D5. by rewrite lxor_blinded by congruence. }
  rewrite Exy in Q. cbn [Z.lor Z.eqb].
  rewrite (bind_run _ _ s9 (field off_x (dm s9), field off_y (dm s9)) s9) by reflexivity.
  destruct xy as [x y]. injection Q as Q1 Q2. rewrite Q1, Q2.
  write (cp8w_step ecc_set_up off_k rnd s9) s10 D10.
  write (cp8w_step ecc_set_up off_x rnd s10) s11 D11.
  write (cp8w_step ecc_set_up off_y rnd s11) s12 D12.
  unlock s13 D13. exists s13, rnd. lengths. split; [done|split; [finish|]].
  rd D13. rd D12. rd D11. rd D10. done.
Qed.

Lemma diff_words_zero (a b : list Z) : forall d,
  length a = length b -> diff_bytes d a b = 0 <-> d = 0 /\ a = b.
Proof.
  revert b. induction a as [|x a IH]; intros [|y b] d Hl; try done; cbn [diff_bytes].
  - split; [by intros ->|by intros [-> _]].
  - rewrite IH by (by injection Hl). rewrite Z.lor_eq_0_iff, Z.lxor_eq_0_iff.
    split; [by intros [[-> ->] ->]|by intros [-> [= -> ->]]].
Qed.

Lemma diff_ok (a b : list Z) :
  length a = length b ->
  dcrypto_ok_if_zero (diff_bytes 0 a b) = if bool_decide (a = b) then DCRYPTO_OK else DCRYPTO_FAIL.
Proof.
  intros Hl. rewrite ok_if_zero. destruct (Z.eqb_spec (diff_bytes 0 a b) 0) as [E|E].
  - apply diff_words_zero in E as [_ E]; [|done]. by rewrite bool_decide_true.
  - rewrite bool_decide_false; [done|]. intros ->. apply E. by apply diff_words_zero.
Qed.

Lemma verify_run x y m r S s :
  driver_ok (dcrypto s) ->
  length x = P256_NDIGITS -> length y = P256_NDIGITS -> length m = P256_NDIGITS ->
  length r = P256_NDIGITS -> length S = P256_NDIGITS ->
  exists s', dcrypto_p256_ecdsa_verify x y m r S s =
    ((if ecc_verify x y m r S then DCRYPTO_OK else DCRYPTO_FAIL), s') /\ finished s s'.
Proof.
  intros Ok Hx Hy Hm Hr HS. unfold dcrypto_p256_ecdsa_verify. start Ok s3.
  write (cp8w_step ecc_set_up off_msg m s3) s4 D4.
  write (cp8w_step ecc_set_up off_r r s4) s5 D5.
  write (cp8w_step ecc_set_up off_s S s5) s6 D6.
  write (cp8w_step ecc_set_up off_x x s6) s7 D7.
  write (cp8w_step ecc_set_up off_y y s7) s8 D8.
  call run_verify s9 Q. lengths.
  assert (ecc_verify (field off_x (dm s8)) (field off_y (dm s8)) (field off_msg (dm s8))
    (field off_r (dm s8)) (field off_s (dm s8)) = ecc_verify x y m r S) as Ev
    by (rd D8; rd D7; rd D6; rd D5; rd D4; reflexivity).
  assert (field off_r (dm s8) = r) as Er by (rd D8; rd D7; rd D6; rd D5; reflexivity).
  rewrite Ev, Er in Q. cbn [Z.lor].
  rewrite (bind_run _ _ s9 (field off_rnd (dm s9)) s9) by reflexivity.
  unlock s10 D10. exists s10. split; [|finish]. unfold ret. rewrite take_ge by (offsets; lia).
  rewrite diff_ok by (etrans; [apply length_sub; offsets; lia|done]).
  f_equal. destruct (ecc_verify x y m r S) eqn:V.
  - by rewrite bool_decide_true by (by apply Q).
  - rewrite bool_decide_false; [done|]. intros Ef. by apply Q in Ef.
Qed.

Lemma valid_point_run x y s :
  driver_ok (dcrypto s) -> length x = P256_NDIGITS -> length y = P256_NDIGITS ->
  exists s', dcrypto_p256_is_valid_point x y s =
    ((if ecc_on_curve x y then DCRYPTO_OK else DCRYPTO_FAIL), s') /\ finished s s'.
Proof.
  intros Ok Hx Hy. unfold dcrypto_p256_is_valid_point. start Ok s3.
  write (cp8w_step ecc_set_up off_x x s3) s4 D4.
  write (cp8w_step ecc_set_up off_y y s4) s5 D5.
  call run_on_curve s6 Q. lengths.
  assert (ecc_on_curve (field off_x (dm s5)) (field off_y (dm s5)) = ecc_on_curve x y) as Ev
    by (rd D5; rd D4; reflexivity).
  rewrite Ev in Q. cbn [Z.lor].
  rewrite (bind_run _ _ s6 (field off_r (dm s6)) s6) by reflexivity.
  rewrite (bind_run _ _ s6 (field off_s (dm s6)) s6) by reflexivity.
  unlock s7 D7. exists s7. split; [|finish]. unfold ret.
  rewrite diff_ok by (transitivity P256_NDIGITS; [|symmetry]; apply length_sub; offsets; lia).
  f_equal. destruct (ecc_on_curve x y) eqn:V.
  - by rewrite bool_decide_true by (by apply Q).
  - rewrite bool_decide_false; [done|]. intros Ef. by apply Q in Ef.
Qed.

(** C13. On an accelerator that keeps its contract - its functions work on a core that
    [p256init] has set up, and on no other - the driver computes the functions of the curve,
    whatever ran on the accelerator before: signatures, multiples and both tests.  The secrets
    are handed over blinded, and at the end their cells hold the blinder; the lock is free and
    nothing but the accelerator and the weak generator has changed. *)
Theorem driver_keeps_contract (k d m x y r S : list Z) s :
  driver_ok (dcrypto s) ->
  length k = P256_NDIGITS -> length d = P256_NDIGITS -> length m = P256_NDIGITS ->
  length x = P256_NDIGITS -> length y = P256_NDIGITS ->
  length r = P256_NDIGITS -> length S = P256_NDIGITS ->
  (exists s' rnd, dcrypto_p256_ecdsa_sign_raw k d m s =
     ((sign_code (ecc_sign k d m), fst (ecc_sign k d m), snd (ecc_sign k d m)), s') /\
   finished s s' /\ field off_k (dm s') = rnd /\ field off_d (dm s') = rnd) /\
  (exists s', dcrypto_p256_base_point_mul d s =
     ((DCRYPTO_OK, fst (ecc_base d), snd (ecc_base d)), s') /\
   finished s s' /\ field off_d (dm s') = field off_rnd (dm s')) /\
  (exists s' rnd, dcrypto_p256_point_mul d x y s =
     ((DCRYPTO_OK, fst (ecc_mul d x y), snd (ecc_mul d x y)), s') /\
   finished s s' /\ field off_k (dm s') = rnd /\ field off_x (dm s') = rnd /\
   field off_y (dm s') = rnd) /\
  (exists s', dcrypto_p256_ecdsa_verify x y m r S s =
     ((if ecc_verify x y m r S then DCRYPTO_OK else DCRYPTO_FAIL), s') /\ finished s s') /\
  (exists s', dcrypto_p256_is_valid_point x y s =
     ((if ecc_on_curve x y then DCRYPTO_OK else DCRYPTO_FAIL), s') /\ finished s s').
Proof.
  intros. split; [by apply sign_raw_run|]. split; [by apply base_mul_run|].
  split; [by apply point_mul_run|]. split; [by apply verify_run|by apply valid_point_run].
Qed.

End Functions.

(** ** Failures *)

Section Failures.
Context `{FipsHw} `{P256Code}.

(** A failed call leaves the mark of the wipe everywhere, and an event. *)
Lemma call_result adr s :
  let '(rv, s') := dcrypto_call adr s in
  rv = 0 \/ rv = 1 /\ dmem (dcrypto s') = replicate DMEM_NUM_WORDS wiped_value /\
    exists event, flash_log s' = flash_log s ++ [(FE_LOG_DCRYPTO_FAILURE, event)].
Proof.
  unfold dcrypto_call, bind, on_dcrypto.
  destruct (core_run adr _ _ _) as [[[event state] m] c].
  destruct (event && status_ok state); cbv beta iota; [by left|].
  unfold dcrypto_reset_and_wipe, on_core, bind, modify, ret.
  cbn [dcrypto set_dcrypto core set_core]. destruct (core_reset c) as [u c']. cbv beta iota.
  right. split; [done|]. split; [done|]. by eexists.
Qed.

(** A point or a signature: with the result of the calls. *)
Lemma outputs_clear (result : Z) off1 off2 s :
  exists a b, (if result =? 0 then
     let* a := dmem_ecc off1 in
     let* b := dmem_ecc off2 in
     ret (a, b)
   else ret (p256_clear, p256_clear)) s = ((a, b), s) /\
  (result <> 0 -> a = p256_clear /\ b = p256_clear).
Proof.
  destruct (Z.eqb_spec result 0) as [Er|Er]; do 2 eexists; (split; [reflexivity|]);
    [by intros []|by intros _].
Qed.

(** What a function that gives two numbers may give. *)
Definition closed (codes : list Z) (res : Z * list Z * list Z) : Prop :=
  let '(rv, a, b) := res in
  rv ∈ codes \/ rv = DCRYPTO_FAIL /\ a = p256_clear /\ b = p256_clear.

(** A property of the result, in every state. *)
Definition gives {A} (P : A -> Prop) (m : ST fips A) : Prop := forall s, P (fst (m s)).

Lemma gives_bind {A B} (P : B -> Prop) (m : ST fips A) (f : A -> ST fips B) :
  (forall a, gives P (f a)) -> gives P (bind m f).
Proof. intros Hf s. unfold bind. destruct (m s). apply Hf. Qed.

Lemma gives_outputs {B} (P : B -> Prop) (result : Z) off1 off2 (f : list Z * list Z -> ST fips B) :
  (forall a b, (result <> 0 -> a = p256_clear /\ b = p256_clear) -> gives P (f (a, b))) ->
  gives P (bind (if result =? 0 then
     let* a := dmem_ecc off1 in
     let* b := dmem_ecc off2 in
     ret (a, b)
   else ret (p256_clear, p256_clear)) f).
Proof.
  intros Hf s. destruct (outputs_clear result off1 off2 s) as (a & b & E & Hc).
  rewrite (bind_run _ _ _ _ _ E). by apply Hf.
Qed.

Lemma closed_code codes result a b :
  DCRYPTO_OK ∈ codes -> (result <> 0 -> a = p256_clear /\ b = p256_clear) ->
  closed codes (dcrypto_ok_if_zero result, a, b).
Proof.
  intros Hc Hr. unfold closed. rewrite ok_if_zero. destruct (Z.eqb_spec result 0); [by left|].
  right. by destruct (Hr ltac:(done)).
Qed.

#[local] Ltac gives_tac :=
  repeat match goal with
  | |- gives _ (bind (if _ then _ else _) _) => apply gives_outputs; intros ? ? ?; cbv beta iota
  | |- gives _ (bind _ _) => apply gives_bind; intros ?
  end.

(** C36. Whatever the accelerator does, a signature or a point that is not reported as a success
    is cleared, except a signature with a zero in it, which is reported for a retry; a reported
    signature has no zero.  A call that fails wipes the data memory and leaves an event. *)
Theorem driver_fails_closed k d m x y s :
  closed [DCRYPTO_OK; DCRYPTO_RETRY] (fst (dcrypto_p256_ecdsa_sign_raw k d m s)) /\
  (let '(rv, a, b) := fst (dcrypto_p256_ecdsa_sign_raw k d m s) in
   rv = DCRYPTO_OK -> p256_is_zero a = false /\ p256_is_zero b = false) /\
  closed [DCRYPTO_OK] (fst (dcrypto_p256_base_point_mul d s)) /\
  closed [DCRYPTO_OK] (fst (dcrypto_p256_point_mul d x y s)) /\
  forall adr, let '(rv, s') := dcrypto_call adr s in
  rv = 0 \/ rv = 1 /\ dmem (dcrypto s') = replicate DMEM_NUM_WORDS wiped_value /\
    exists event, flash_log s' = flash_log s ++ [(FE_LOG_DCRYPTO_FAILURE, event)].
Proof.
  assert (forall result a b, (result <> 0 -> a = p256_clear /\ b = p256_clear) ->
    closed [DCRYPTO_OK] (dcrypto_ok_if_zero result, a, b)) as Hc
    by (intros; apply closed_code; [by left|done]).
  split; [|split; [|split; [|split; [|intros adr; apply call_result]]]]; revert s.
  - change (gives (closed [DCRYPTO_OK; DCRYPTO_RETRY]) (dcrypto_p256_ecdsa_sign_raw k d m)).
    unfold dcrypto_p256_ecdsa_sign_raw. gives_tac. destruct (_ && _); intros s.
    + left. right. by left.
    + apply closed_code; [by left|done].
  - change (gives (fun res => let '(rv, a, b) := res in
      rv = DCRYPTO_OK -> p256_is_zero a = false /\ p256_is_zero b = false)
      (dcrypto_p256_ecdsa_sign_raw k d m)).
    unfold dcrypto_p256_ecdsa_sign_raw. gives_tac.
    match goal with |- gives _ (if (?b1 || ?b2) && ?b3 then _ else _) =>
      destruct b1 eqn:?, b2 eqn:?, b3 eqn:Er
    end; intros s; cbn [ret fst orb andb]; try done; rewrite ok_if_zero, Er; done.
  - change (gives (closed [DCRYPTO_OK]) (dcrypto_p256_base_point_mul d)).
    unfold dcrypto_p256_base_point_mul. gives_tac. intros s. by apply Hc.
  - change (gives (closed [DCRYPTO_OK]) (dcrypto_p256_point_mul d x y)).
    unfold dcrypto_p256_point_mul. gives_tac. intros s. by apply Hc.
Qed.

End Failures.
