(* ===== verification/P256EcProps.v ===== *)
(** * Keys and signatures over P-256 (board/cr50/dcrypto/p256_ec.c)

    On an accelerator that keeps its contract: which keys are accepted, that every accepted
    pair has signed and verified a message, and what a failure leaves behind. *)

From S2P Require Import Prelude Hash HashProps HmacSpec ShaHw ShaHwProps ShaHwPaths Drbg DrbgProps FipsRand FipsHealth Dcrypto P256 P256Hw P256Ec FipsKats Fips FipsKnown FipsProps P256Props P256Driver.

(** ** The generator leaves the accelerator alone *)

Section Frame.
Context `{FipsHw}.

Definition same_dcrypto (s s' : fips) : Prop := dcrypto s' = dcrypto s.

#[export] Instance same_dcrypto_preorder : PreOrder same_dcrypto.
Proof. split; [by intros s|intros s1 s2 s3 E1 E2; unfold same_dcrypto in *; congruence]. Qed.

Definition alone {A} (m : ST fips A) : Prop := preserves same_dcrypto m.

Lemma alone_modify (f : fips -> fips) : (forall s, dcrypto (f s) = dcrypto s) -> alone (modify f).
Proof. intros Hf. by apply preserves_modify. Qed.

Lemma alone_on_sha {A} (m : ST sha_hw A) : alone (on_sha m).
Proof. intros s. unfold on_sha. by destruct (m (sha s)). Qed.

Lemma alone_on_trng {A} (m : ST trng_hw A) : alone (on_trng m).
Proof. intros s. unfold on_trng. by destruct (m (trng s)). Qed.

(** Taking a step of the module apart. *)
#[local] Ltac alone_tac :=
  repeat
    match goal with
    | |- alone ?m => change (preserves same_dcrypto m)
    | |- preserves _ (modify _) => apply preserves_modify; by intros []
    | |- preserves _ (on_sha _) => apply alone_on_sha
    | |- preserves _ (on_trng _) => apply alone_on_trng
    | |- preserves _ (match ?x with _ => _ end) => destruct x
    | |- preserves _ ((match ?x with _ => _ end) _) => destruct x
    | |- _ => progress preserves_step
    end.

Lemma alone_set_status e : alone (fips_set_status e).
Proof. unfold fips_set_status, fips_set_power_up. alone_tac. Qed.

Lemma alone_throw_err e : alone (fips_throw_err e).
Proof. unfold fips_throw_err, DCRYPTO_ladder_revoke. alone_tac; apply alone_set_status. Qed.

Lemma alone_read_rand : alone read_rand.
Proof. unfold read_rand. alone_tac. Qed.

Lemma alone_health w : alone (health_tests w).
Proof.
  intros s. unfold health_tests. destruct (repetition_count_test w (rand s)) as [e1 r1].
  by destruct (adaptive_proportion_test w r1).
Qed.

Lemma alone_trng32_loop n : forall e, alone (trng32_loop n e).
Proof.
  induction n as [|n IH]; intros e; cbn [trng32_loop]; alone_tac;
    (apply alone_read_rand || apply alone_set_status || apply alone_health || apply IH).
Qed.

Lemma alone_trng32 : alone fips_trng32.
Proof. unfold fips_trng32. alone_tac; (apply alone_trng32_loop || apply alone_set_status). Qed.

Lemma alone_trng_bytes len : alone (trng_bytes len).
Proof.
  unfold trng_bytes. alone_tac.
  enough (forall n togo r buf, alone (bytes_loop n togo r buf)) as A by apply A.
  induction n as [|n IH]; intros togo r buf; cbn [bytes_loop]; alone_tac;
    (apply alone_trng32 || apply IH).
Qed.

Context `{ShaEngine}.

Lemma alone_update_v K V : alone (update_v (W := fips) K V).
Proof. unfold update_v. alone_tac; apply alone_on_sha. Qed.

Lemma alone_update_kv K V tag p0 p1 p2 : alone (update_kv (W := fips) K V tag p0 p1 p2).
Proof. unfold update_kv. alone_tac; (apply alone_on_sha || apply alone_update_v). Qed.

Lemma alone_update ctx p0 p1 p2 : alone (update (W := fips) ctx p0 p1 p2).
Proof. unfold update. alone_tac; apply alone_update_kv. Qed.

Lemma alone_output_loop fuel : forall ctx out n, alone (output_loop (W := fips) fuel ctx out n).
Proof.
  induction fuel as [|fuel IH]; intros ctx out n; cbn [output_loop]; alone_tac;
    (apply alone_update_v || apply IH).
Qed.

Lemma alone_generate ctx n a : alone (hmac_drbg_generate (W := fips) ctx n a).
Proof.
  unfold hmac_drbg_generate, hmac_drbg_reseed.
  alone_tac; (apply alone_update || apply alone_output_loop || apply alone_trng_bytes).
Qed.

Lemma alone_fast_random : alone fast_random.
Proof. unfold fast_random. alone_tac. Qed.

Lemma alone_p256_random : alone p256_fast_random.
Proof.
  unfold p256_fast_random. generalize P256_NDIGITS. intros n.
  induction n as [|n IH]; cbn [random_digits]; alone_tac; (apply alone_fast_random || apply IH).
Qed.

Lemma alone_lt_blinded a b : alone (p256_lt_blinded a b).
Proof.
  unfold p256_lt_blinded. generalize 0. revert b.
  induction a as [|x a IH]; intros [|y b] br; cbn [lt_loop]; alone_tac;
    (apply alone_fast_random || apply IH).
Qed.

(** The search for a number leaves the accelerator alone. *)
Lemma alone_number fuel ctx : alone (p256_hmac_drbg_generate fuel ctx).
Proof.
  unfold p256_hmac_drbg_generate.
  enough (forall ctx, alone (candidates fuel ctx)) as A by (alone_tac; apply A).
  induction fuel as [|fuel IH]; intros c; cbn [candidates]; alone_tac;
    (apply alone_p256_random || apply alone_generate || apply alone_lt_blinded || apply IH).
Qed.

End Frame.

(** ** Signatures and keys *)

Section Keys.
Context {E : ShaEngine} {L : ShaEngineLaws E} `{FipsHw} `{P256Code} `{!CurveEngine}.

(** What a search for a number gives. *)
Lemma number_run fuel ctx (s : fips) rv a ctx' s' :
  drbg_ok ctx -> driver_ok (dcrypto s) ->
  p256_hmac_drbg_generate fuel ctx s = (Some (rv, a, ctx'), s') ->
  is_p256 a /\ drbg_ok ctx' /\ drbg_code rv /\ driver_ok (dcrypto s') /\
  (rv = DCRYPTO_OK -> 1 <= val a <= SECP256r1_n - 2).
Proof.
  intros K Ok R. pose proof (alone_number fuel ctx s) as A. rewrite R in A. cbn [snd] in A.
  unfold same_dcrypto in A. rewrite A.
  unfold p256_hmac_drbg_generate in R. apply bind_inv in R as (found & s1 & E1 & R).
  destruct found as [[[rv1 rnd] ctx1]|]; [|done]. injection R as <- <- <- <-.
  destruct (candidates_result fuel ctx s rv1 rnd ctx1 s1 K E1) as (W & K1 & Rc & Hlt).
  pose proof (p256_range rnd W) as Hr.
  destruct (add_d_spec rnd 1 W ltac:(lia)) as (W1 & V1 & _).
  split; [done|]. split; [done|]. split; [done|]. split; [done|]. intros Er. specialize (Hlt Er).
  rewrite V1. unfold SECP256r1_n in *. rewrite Z.mod_small by lia. lia.
Qed.

(** The combined code is a success exactly when both are. *)
Lemma sign_codes rv rs :
  drbg_code rv ->
  dcrypto_ok_if_zero (u32 (Z.lor rv (sign_code rs) - DCRYPTO_OK)) =
  if bool_decide (rv = DCRYPTO_OK /\ sign_code rs = DCRYPTO_OK) then DCRYPTO_OK else DCRYPTO_FAIL.
Proof.
  unfold sign_code. intros [-> |[-> | ->]]; destruct (_ || _); reflexivity.
Qed.

(** A signature of [m] made with a fresh nonce. *)
Definition signed (key m : list Z) (rs : list Z * list Z) : Prop :=
  exists nonce, is_p256 nonce /\ 1 <= val nonce <= SECP256r1_n - 2 /\
  rs = ecc_sign nonce key m /\ sign_code rs = DCRYPTO_OK.

Lemma sign_internal_run fuel drbg key m (s : fips) rv r S drbg' s' :
  drbg_ok drbg -> driver_ok (dcrypto s) -> length key = P256_NDIGITS -> length m = P256_NDIGITS ->
  dcrypto_p256_fips_sign_internal fuel drbg key m s = (Some (rv, r, S, drbg'), s') ->
  drbg_ok drbg' /\ driver_ok (dcrypto s') /\
  (rv = DCRYPTO_OK /\ signed key m (r, S) \/ rv = DCRYPTO_FAIL).
Proof.
  intros K Ok Hk Hm R. unfold dcrypto_p256_fips_sign_internal in R.
  apply bind_inv in R as (found & s1 & E1 & R).
  destruct found as [[[rv1 nonce] drbg1]|]; [|done].
  destruct (number_run _ _ _ _ _ _ _ K Ok E1) as (W & K1 & Rc & Ok1 & Hn).
  destruct (sign_raw_run nonce key m s1 Ok1 (proj1 W) Hk Hm) as (s2 & rnd & E2 & [R2 _ _] & _).
  rewrite (bind_run _ _ _ _ _ E2) in R. cbv iota beta in R. injection R as <- <- <- <- <-.
  split; [done|]. split; [by eapply ready_ok|]. rewrite sign_codes by done.
  case_bool_decide as B; [left|by right]. destruct B as [B1 B2]. split; [done|].
  exists nonce. split; [done|]. split; [by apply Hn|]. rewrite <- surjective_pairing. done.
Qed.

(** A message was signed with [d] and verified with [xy]. *)
Definition consistent (d : list Z) (xy : list Z * list Z) : Prop :=
  exists m r S, length m = P256_NDIGITS /\ signed d m (r, S) /\
  ecc_verify (fst xy) (snd xy) m r S = true.

Definition pwct_failed (s : fips) : Prop := has_bit 12 s.

Lemma pwct_status s :
  pwct_failed (snd (fips_set_status FIPS_FATAL_ECDSA_PWCT s)) /\
  dcrypto (snd (fips_set_status FIPS_FATAL_ECDSA_PWCT s)) = dcrypto s.
Proof.
  split; [|apply alone_set_status].
  unfold pwct_failed, has_bit, fips_set_status, bind, modify, gets, fips_set_power_up.
  cbn [_fips_status set_status].
  assert (Z.testbit (Z.lor (_fips_status s) FIPS_FATAL_ECDSA_PWCT) 12 = true) as B
    by (rewrite Z.lor_spec; apply orb_true_r).
  destruct (nz _); cbn [modify snd _fips_status set_scratch22 set_status ret]; [|done].
  by rewrite clear_active_bit.
Qed.

(** The curve: points are numbers, signatures too. *)
Class CurveShapes : Prop := {
  base_shape d : is_p256 (fst (ecc_base d)) /\ is_p256 (snd (ecc_base d));
  sign_shape k d m : is_p256 (fst (ecc_sign k d m)) /\ is_p256 (snd (ecc_sign k d m))
}.
Context `{!CurveShapes}.

Lemma pwct_run fuel drbg d (s : fips) rv drbg' s' :
  drbg_ok drbg -> driver_ok (dcrypto s) -> is_p256 d -> val d <> 0 ->
  dcrypto_p256_key_pwct fuel drbg d (fst (ecc_base d)) (snd (ecc_base d)) s =
    (Some (rv, drbg'), s') ->
  rv = DCRYPTO_OK /\ consistent d (ecc_base d) \/ rv = DCRYPTO_FAIL /\ pwct_failed s'.
Proof.
  intros K Ok W Hd R. unfold dcrypto_p256_key_pwct in R.
  destruct (p256_is_zero d) eqn:Ez; [by apply is_zero_spec in Ez; [|apply W]|].
  destruct (random_step s) as (m & s1 & E1 & Hm & D1 & _). rewrite (bind_run _ _ _ _ _ E1) in R.
  apply bind_inv in R as (res & s2 & E2 & R).
  destruct res as [[[[rv1 r] S] drbg1]|]; [|done].
  rewrite <- D1 in Ok.
  destruct (sign_internal_run _ _ _ _ _ _ _ _ _ _ K Ok (proj1 W) Hm E2)
    as (_ & Ok2 & [[-> Hs]| ->]).
  - change (negb (DCRYPTO_OK =? DCRYPTO_OK)) with false in R. cbv iota in R.
    pose proof Hs as (nonce & _ & _ & Ers & _).
    destruct (sign_shape nonce d m) as [Wr WS]. rewrite <- Ers in Wr, WS. cbn [fst snd] in Wr, WS.
    destruct (base_shape d) as [Wx Wy].
    destruct (verify_run _ _ m r S s2 Ok2 (proj1 Wx) (proj1 Wy) Hm (proj1 Wr) (proj1 WS))
      as (s3 & E3 & _).
    rewrite (bind_run _ _ _ _ _ E3) in R. destruct (ecc_verify _ _ m r S) eqn:V.
    + injection R as <- _ _. left. split; [done|]. by exists m, r, S.
    + change (negb (DCRYPTO_FAIL =? DCRYPTO_OK)) with true in R. cbv iota in R.
      apply bind_inv in R as (u & s4 & E4 & R). injection R as <- _ <-. right.
      split; [done|]. destruct (pwct_status s3) as [B _]. by rewrite E4 in B.
  - change (negb (DCRYPTO_FAIL =? DCRYPTO_OK)) with true in R. cbv iota in R.
    apply bind_inv in R as (u & s4 & E4 & R). injection R as <- _ <-. right.
    split; [done|]. destruct (pwct_status s2) as [B _]. by rewrite E4 in B.
Qed.

Lemma with_drbg_inv {A} (m : drbg_ctx -> ST fips (option (A * drbg_ctx))) s a s' :
  with_drbg m s = (Some a, s') ->
  exists drbg s1, m (fips_drbg s) s = (Some (a, drbg), s1) /\ s' = set_drbg drbg s1.
Proof.
  unfold with_drbg, gets. intros R. unfold bind at 1 in R.
  apply bind_inv in R as (res & s1 & E1 & R). destruct res as [[a1 drbg]|]; [|done].
  injection R as <- <-. by exists drbg, s1.
Qed.

Lemma fast_steps_same n (s : fips) :
  dcrypto (fast_steps n s) = dcrypto s /\ fips_drbg (fast_steps n s) = fips_drbg s.
Proof.
  revert s. induction n as [|n IH]; intros s; [done|]. rewrite fast_steps_S.
  destruct (IH (snd (fast_random s))) as [-> ->]. by destruct s.
Qed.

(** The start of the derivation of a key. *)
Lemma key_start fuel x y d b (s : fips) :
  fips_crypto_allowed s = true -> driver_ok (dcrypto s) -> bytes b -> length b = P256_NBYTES ->
  if SECP256r1_n - 2 <=? be_val b
  then exists s', DCRYPTO_p256_key_from_bytes fuel x y d b s = (Some (DCRYPTO_RETRY, x, y, d), s')
  else exists d' s', is_p256 d' /\ val d' = be_val b + 1 /\ driver_ok (dcrypto s') /\
    fips_drbg s' = fips_drbg s /\
    DCRYPTO_p256_key_from_bytes fuel x y d b s =
      (let* res := with_drbg (fun drbg =>
         dcrypto_p256_key_pwct fuel drbg d' (fst (ecc_base d')) (snd (ecc_base d'))) in
       match res with
       | None => ret None
       | Some rv => ret (Some (rv, fst (ecc_base d'), snd (ecc_base d'), d'))
       end) s'.
Proof.
  intros Al Ok Hb Hl. destruct (from_bin_spec b Hb Hl) as [W V].
  unfold DCRYPTO_p256_key_from_bytes.
  rewrite (bind_run (gets fips_crypto_allowed) _ s _ s eq_refl), Al. cbn [negb].
  rewrite (bind_run _ _ s _ _ (lt_blinded_spec _ _ s W nMin2_p256)), nMin2_value, V.
  destruct (Z.leb_spec (SECP256r1_n - 2) (be_val b)) as [Hge|Hlt].
  - rewrite (proj2 (Z.ltb_ge _ _)) by done. cbn [Z.leb]. by eexists.
  - rewrite (proj2 (Z.ltb_lt _ _)) by done. change (0 <=? -1) with false. cbv iota.
    pose proof (p256_range _ W) as Hr. rewrite V in Hr.
    destruct (add_d_spec _ 1 W ltac:(lia)) as (W1 & V1 & _). rewrite V in V1.
    rewrite Z.mod_small in V1 by (unfold SECP256r1_n in *; lia).
    set (d' := fst (p256_add_d (p256_from_bin b) 1)) in *.
    destruct (fast_steps_same P256_NDIGITS s) as [D1 D2]. rewrite <- D1 in Ok.
    destruct (base_mul_run d' _ Ok (proj1 W1)) as (s2 & E2 & [R2 Q2 _] & _).
    exists d', s2. split; [done|]. split; [done|]. split; [by eapply ready_ok|]. split.
    + rewrite <- D2. unfold rest in Q2. apply (f_equal fips_drbg) in Q2. exact Q2.
    + rewrite (bind_run _ _ _ _ _ E2). cbv iota beta.
      change (negb (DCRYPTO_OK =? DCRYPTO_OK)) with false. reflexivity.
Qed.

(** A good key: a success after its test, or the error state. *)
Lemma key_allowed fuel x y d b (s : fips) :
  fips_crypto_allowed s = true -> driver_ok (dcrypto s) -> drbg_ok (fips_drbg s) ->
  bytes b -> length b = P256_NBYTES -> be_val b < SECP256r1_n - 2 -> forall rv x' y' d' s',
  DCRYPTO_p256_key_from_bytes fuel x y d b s = (Some (rv, x', y', d'), s') ->
  is_p256 d' /\ val d' = be_val b + 1 /\ 1 <= val d' <= SECP256r1_n - 2 /\
  (x', y') = ecc_base d' /\
  (rv = DCRYPTO_OK /\ consistent d' (ecc_base d') \/
   rv = DCRYPTO_FAIL /\ pwct_failed s' /\ fips_crypto_allowed s' = false).
Proof.
  intros Al Ok K Hb Hl Hlt rv x' y' d' s' R. pose proof (key_start fuel x y d b s Al Ok Hb Hl) as St.
  rewrite (proj2 (Z.leb_gt _ _)) in St by done.
  destruct St as (d1 & s1 & W & V & Ok1 & D1 & E1). rewrite E1 in R.
  apply bind_inv in R as (res & s2 & E2 & R). destruct res as [rv1|]; [|done].
  injection R as <- <- <- <- <-.
  apply with_drbg_inv in E2 as (drbg & s3 & E3 & ->). rewrite D1 in E3.
  pose proof (be_val_nonneg b Hb) as Hp.
  pose proof (pwct_run fuel (fips_drbg s) d1 s1 rv1 drbg s3 K Ok1 W ltac:(lia) E3) as P.
  split; [done|]. split; [done|]. split; [lia|]. split; [by rewrite <- surjective_pairing|].
  destruct P as [P|[P1 P2]]; [by left|right]. split; [done|]. split; [exact P2|].
  unfold fips_crypto_allowed.
  rewrite (error_not_allowed 12 (set_drbg drbg s3)); [by rewrite andb_false_r|lia|exact P2].
Qed.

End Keys.

(** ** Every outcome of the derivation of a key *)

Section Derivation.
Context {E : ShaEngine} {L : ShaEngineLaws E} `{FipsHw} `{P256Code}.

Definition same_status (s s' : fips) : Prop := _fips_status s' = _fips_status s.

#[export] Instance same_status_preorder : PreOrder same_status.
Proof. split; [by intros s|intros s1 s2 s3 E1 E2; unfold same_status in *; congruence]. Qed.

Lemma on_dcrypto_status {A} (m : ST dcrypto_hw A) : preserves same_status (on_dcrypto m).
Proof. intros s. unfold on_dcrypto. by destruct (m (dcrypto s)). Qed.

Lemma dcrypto_call_status adr : preserves same_status (dcrypto_call adr).
Proof.
  unfold dcrypto_call. repeat
    match goal with
    | |- preserves _ (on_dcrypto _) => apply on_dcrypto_status
    | |- preserves _ (modify _) => apply preserves_modify; by intros []
    | |- preserves _ (match ?x with _ => _ end) => destruct x
    | |- _ => progress preserves_step
    end.
Qed.

Lemma fast_random_status : preserves same_status p256_fast_random.
Proof.
  unfold p256_fast_random. generalize P256_NDIGITS. intros n.
  induction n as [|n IH]; cbn [random_digits]; preserves_tac; try exact IH.
  unfold fast_random. preserves_tac. apply preserves_modify. by intros [].
Qed.

(** A multiplication leaves the status of the module alone, also when it fails. *)
Lemma base_mul_status k : preserves same_status (dcrypto_p256_base_point_mul k).
Proof.
  unfold dcrypto_p256_base_point_mul, dmem_ecc. repeat
    match goal with
    | |- preserves _ (on_dcrypto _) => apply on_dcrypto_status
    | |- preserves _ (dcrypto_call _) => apply dcrypto_call_status
    | |- preserves _ p256_fast_random => apply fast_random_status
    | |- preserves _ (match ?x with _ => _ end) => destruct x
    | |- _ => progress preserves_step
    end.
Qed.

(** C12. No key is derived while the module does not allow crypto.  While it does, bytes whose
    number is n - 2 or more change nothing; a smaller number plus 1 becomes the private key.
    When the multiplication for the public key fails, so does the derivation, without the
    error state.  On an accelerator that keeps its contract it never fails, and when the search
    for the nonce of the test ends, the public key is the one of the private key, and either
    a message was signed with the one and verified with the other, or the module is in the
    error state. *)
Theorem key_from_bytes_spec fuel x y d b (s : fips) :
  bytes b -> length b = P256_NBYTES ->
  let run := DCRYPTO_p256_key_from_bytes fuel x y d b s in
  let key := fst (p256_add_d (p256_from_bin b) 1) in
  (fips_crypto_allowed s = false -> run = (Some (DCRYPTO_FAIL, x, y, d), s)) /\
  (fips_crypto_allowed s = true ->
   (SECP256r1_n - 2 <= be_val b ->
    run = (Some (DCRYPTO_RETRY, x, y, d), fast_steps P256_NDIGITS s)) /\
   (be_val b < SECP256r1_n - 2 ->
    val key = be_val b + 1 /\
    (forall rv tx ty s1,
     dcrypto_p256_base_point_mul key (fast_steps P256_NDIGITS s) = ((rv, tx, ty), s1) ->
     rv <> DCRYPTO_OK ->
     run = (Some (DCRYPTO_FAIL, tx, ty, key), s1) /\ _fips_status s1 = _fips_status s) /\
    forall (C : CurveEngine) (_ : CurveShapes),
    driver_ok (dcrypto s) -> drbg_ok (fips_drbg s) -> forall rv x' y' d' s',
    run = (Some (rv, x', y', d'), s') ->
    d' = key /\ (x', y') = ecc_base key /\
    (rv = DCRYPTO_OK /\ consistent key (ecc_base key) \/
     rv = DCRYPTO_FAIL /\ pwct_failed s' /\ fips_crypto_allowed s' = false))).
Proof.
  intros Hb Hl run key. destruct (from_bin_spec b Hb Hl) as [W V]. split.
  { intros Al. unfold run, DCRYPTO_p256_key_from_bytes.
    rewrite (bind_run (gets fips_crypto_allowed) _ s _ s eq_refl), Al. done. }
  intros Al. assert (run = (if SECP256r1_n - 2 <=? be_val b
    then ret (Some (DCRYPTO_RETRY, x, y, d))
    else
      let* (rv, x, y) := dcrypto_p256_base_point_mul key in
      if negb (rv =? DCRYPTO_OK) then ret (Some (DCRYPTO_FAIL, x, y, key))
      else
        let* res := with_drbg (fun drbg => dcrypto_p256_key_pwct fuel drbg key x y) in
        match res with
        | None => ret None
        | Some rv => ret (Some (rv, x, y, key))
        end) (fast_steps P256_NDIGITS s)) as Er.
  { unfold run, DCRYPTO_p256_key_from_bytes.
    rewrite (bind_run (gets fips_crypto_allowed) _ s _ s eq_refl), Al. cbn [negb].
    rewrite (bind_run _ _ s _ _ (lt_blinded_spec _ _ s W nMin2_p256)), nMin2_value, V.
    destruct (Z.leb_spec (SECP256r1_n - 2) (be_val b)) as [Hge|Hlt].
    - by rewrite (proj2 (Z.ltb_ge _ _)) by done.
    - by rewrite (proj2 (Z.ltb_lt _ _)) by done. }
  split.
  { intros Hge. rewrite Er. by rewrite (proj2 (Z.leb_le _ _)) by done. }
  intros Hlt. rewrite (proj2 (Z.leb_gt _ _)) in Er by done.
  pose proof (p256_range _ W) as Hr. rewrite V in Hr.
  destruct (add_d_spec _ 1 W ltac:(lia)) as (W1 & V1 & _). fold key in W1, V1.
  rewrite V, Z.mod_small in V1 by (unfold SECP256r1_n in *; lia).
  split; [done|]. split.
  - intros rv tx ty s1 R1 Hrv. rewrite Er, (bind_run _ _ _ _ _ R1). cbv iota beta.
    rewrite (proj2 (Z.eqb_neq _ _)) by done. split; [done|].
    pose proof (base_mul_status key (fast_steps P256_NDIGITS s)) as St. rewrite R1 in St.
    cbn [snd] in St. rewrite St. clear. generalize P256_NDIGITS. intros n. revert s.
    induction n as [|n IH]; intros s; [done|]. rewrite fast_steps_S, IH. by destruct s.
  - intros C Sh Ok K rv x' y' d' s' R.
    destruct (key_allowed fuel x y d b s Al Ok K Hb Hl Hlt _ _ _ _ _ R) as (W' & V' & _ & Ex & Hc).
    assert (d' = key) as ->.
    { apply val_inj; [apply W'|apply W1|by rewrite (proj1 W'), (proj1 W1)|congruence]. }
    done.
Qed.

End Derivation.
