(* ===== verification/P256Toy.v ===== *)
(** * A toy accelerator that keeps the contract of the curve

    The public key is the private key, and a signature shows it; so the properties of
    P256EcProps.v apply to something.  Its functions fail unless [p256init] ran since the
    last reset. *)

From S2P Require Import Prelude Hash HashProps HmacSpec ShaHw ShaHwProps ShaHwPaths Drbg DrbgProps FipsRand FipsHealth Dcrypto P256 P256Hw P256Ec FipsKats Fips FipsKnown FipsProps P256Props P256Driver P256EcProps.

(** Any list as a number. *)
Definition norm (d : list Z) : list Z := of_b8 (take 32 (word_bytes d ++ zeros 32)).

Lemma norm_p256 d : is_p256 (norm d).
Proof.
  destruct (of_b8_spec (take 32 (word_bytes d ++ zeros 32))) as [W _].
  - apply Forall_take, bytes_app; [apply word_bytes_ok|apply bytes_zeros].
  - unfold zeros, P256_NBYTES. rewrite length_take, length_app, length_replicate. lia.
  - exact W.
Qed.

Definition one : list Z := 1 :: zeros 7.

Lemma one_p256 : is_p256 one.
Proof. split; [done|]. repeat constructor; lia. Qed.

Definition toy_sign (k d m : list Z) : list Z * list Z := (one, norm d).
Definition toy_base (d : list Z) : list Z * list Z := (norm d, norm d).
Definition toy_mul (k x y : list Z) : list Z * list Z := (norm x, norm y).
Definition toy_verify (x y m r s : list Z) : bool := bool_decide (s = x).
Definition toy_on_curve (x y : list Z) : bool := bool_decide (x = y).

Definition toy_dmem (adr : Z) (dm : list Z) : list Z :=
  if adr =? CF_p256sign_adr then
    let '(r, s) := toy_sign (unblinded off_k dm) (unblinded off_d dm) (field off_msg dm) in
    splice off_s s (splice off_r r dm)
  else if adr =? CF_p256scalarbasemult_adr then
    let '(x, y) := toy_base (unblinded off_d dm) in splice off_y y (splice off_x x dm)
  else if adr =? CF_p256scalarmult_adr then
    let '(x, y) := toy_mul (unblinded off_k dm) (field off_x dm) (field off_y dm) in
    splice off_y y (splice off_x x dm)
  else if adr =? CF_p256verify_adr then
    splice off_rnd
      (if toy_verify (field off_x dm) (field off_y dm) (field off_msg dm) (field off_r dm)
            (field off_s dm)
       then field off_r dm else map (fun w => w + 1) (field off_r dm)) dm
  else if adr =? CF_p256isoncurve_adr then
    splice off_s one
      (splice off_r (if toy_on_curve (field off_x dm) (field off_y dm) then one else zeros 8) dm)
  else dm.

#[local] Instance toy_curve_hw : FipsHw := {
  trng_hw := list Z;
  trng_empty l := (match l with [] => true | _ => false end, l);
  trng_idle := ret true;
  trng_restart := ret tt;
  trng_read_data l := (hd 0 l, tl l);
  crypto_core := bool;
  core_reset c := (tt, false);
  core_run adr _ dmem c :=
    if adr =? CF_p256init_adr then ((true, 1, dmem), true)
    else if c : bool then ((true, 1, toy_dmem adr dmem), true)
    else ((false, 0, dmem), false)
}.

Lemma ready_splice im dm off ws :
  ecc_ready im dm -> (8 <= off)%nat -> (off + length ws <= 1024)%nat ->
  ecc_ready im (splice off ws dm).
Proof.
  intros (Hc & Hp & Hd) Ho Hl. unfold DMEM_NUM_WORDS in *.
  split; [done|]. rewrite length_splice by lia. split; [|done].
  rewrite sub_splice_other; [done|lia|lia].
Qed.

#[local] Ltac offsets :=
  unfold off_d, off_y, off_x, off_s, off_r, off_msg, off_rnd, off_k, P256_NDIGITS in *.

Lemma map_succ_other (l : list Z) : l <> [] -> map (fun w => w + 1) l <> l.
Proof. destruct l as [|x l]; [done|]. intros _ [= E _]. lia. Qed.

(** The core after [p256init]. *)
Definition toy_set_up (c : bool) : Prop := c = true.

(** A call writes fields of 8 words. *)
Lemma toy_call adr (f : list Z -> list Z) (Q : list Z -> list Z -> Prop) :
  (adr =? CF_p256init_adr) = false ->
  (forall dm, toy_dmem adr dm = f dm) ->
  (forall im dm, ecc_ready im dm -> ecc_ready im (f dm) /\ Q dm (f dm)) ->
  call_gives toy_set_up toy_set_up adr Q.
Proof.
  intros Ea Ef Hf im dm c R ->. destruct (Hf im dm R) as [R' HQ]. rewrite <- (Ef dm) in *.
  exists 1, (toy_dmem adr dm), true. cbn [core_run toy_curve_hw]. by rewrite Ea.
Qed.

Lemma toy_two (off1 off2 : nat) (p : list Z -> list Z * list Z) im dm :
  (off1 + 8 <= off2)%nat -> (8 <= off1)%nat -> (off2 + 8 <= 1024)%nat ->
  is_p256 (fst (p dm)) -> is_p256 (snd (p dm)) -> ecc_ready im dm ->
  let dm' := splice off2 (snd (p dm)) (splice off1 (fst (p dm)) dm) in
  ecc_ready im dm' /\ (field off1 dm', field off2 dm') = p dm /\
  forall off, (off + 8 <= off1)%nat -> field off dm' = field off dm.
Proof.
  intros H1 H2 H3 [L1 _] [L2 _] R dm'. pose proof R as (_ & _ & Hd).
  unfold DMEM_NUM_WORDS, P256_NDIGITS in *. unfold dm'. split.
  { apply ready_splice; [apply ready_splice; [done|lia|lia]|lia|lia]. }
  assert (length (splice off1 (fst (p dm)) dm) = 1024%nat) as Ld
    by (rewrite length_splice; lia).
  split.
  - rewrite field_same by (done || lia). rewrite field_other by lia.
    rewrite field_same by (done || lia). by destruct (p dm).
  - intros off Ho. rewrite field_other by lia. by rewrite field_other by lia.
Qed.

#[local, refine] Instance toy_curve : @CurveEngine toy_curve_hw no_code := {
  ecc_set_up := toy_set_up;
  ecc_sign := toy_sign;
  ecc_base := toy_base;
  ecc_mul := toy_mul;
  ecc_verify := toy_verify;
  ecc_on_curve := toy_on_curve;
  code_fits := _; run_init := _; run_sign := _; run_base := _; run_mul := _; run_verify := _;
  run_on_curve := _
}.
Proof.
  - apply Nat.leb_le. reflexivity.
  - intros im dm c R _. by exists 1, dm, true.
  - eapply toy_call; [reflexivity|intros dm; reflexivity|]. intros im dm R.
    destruct (toy_two off_r off_s (fun dm =>
      toy_sign (unblinded off_k dm) (unblinded off_d dm) (field off_msg dm)) im dm)
      as (R' & E & _); try apply norm_p256; try apply one_p256; try (offsets; lia); try done.
  - eapply toy_call; [reflexivity|intros dm; reflexivity|]. intros im dm R.
    destruct (toy_two off_x off_y (fun dm => toy_base (unblinded off_d dm)) im dm)
      as (R' & E & F); try apply norm_p256; try (offsets; lia); try done.
    split; [done|]. split; [done|]. apply F. offsets. lia.
  - eapply toy_call; [reflexivity|intros dm; reflexivity|]. intros im dm R.
    destruct (toy_two off_x off_y (fun dm =>
      toy_mul (unblinded off_k dm) (field off_x dm) (field off_y dm)) im dm)
      as (R' & E & F); try apply norm_p256; try (offsets; lia); try done.
  - eapply toy_call; [reflexivity|intros dm; reflexivity|]. intros im dm R. pose proof R as (_ & _ & Hd).
    unfold DMEM_NUM_WORDS in Hd.
    assert (length (field off_r dm) = 8%nat) as Hr by (apply length_sub; offsets; lia).
    set (b := toy_verify _ _ _ _ _).
    change (toy_dmem CF_p256verify_adr dm) with (splice off_rnd
      (if b then field off_r dm else map (fun w => w + 1) (field off_r dm)) dm).
    assert (length (if b then field off_r dm else map (fun w => w + 1) (field off_r dm)) = 8%nat)
      as Hl by (destruct b; rewrite ?length_map; exact Hr).
    split; [apply ready_splice; [done|offsets; lia|offsets; lia]|].
    rewrite field_same by (done || (offsets; lia)).
    destruct b; split; try done. intros Eq. apply map_succ_other in Eq; [done|].
    intros En. by rewrite En in Hr.
  - eapply toy_call; [reflexivity|intros dm; reflexivity|]. intros im dm R. pose proof R as (_ & _ & Hd).
    unfold DMEM_NUM_WORDS in Hd. set (b := toy_on_curve _ _).
    destruct (toy_two off_r off_s (fun dm => (if b then one else zeros 8, one)) im dm)
      as (R' & E & _); try apply one_p256; try (offsets; lia); try done.
    { destruct b; [apply one_p256|]. split; [done|]. repeat constructor; lia. }
    split; [exact R'|]. injection E as E1 E2. cbn [fst snd] in E1, E2.
    change (toy_dmem CF_p256isoncurve_adr dm) with
      (splice off_s one (splice off_r (if b then one else zeros 8) dm)).
    rewrite E1, E2. by destruct b.
Defined.

#[local] Instance toy_shapes : CurveShapes.
Proof. split; intros; split; (apply norm_p256 || apply one_p256). Qed.

(** A module whose tests are done, with a generator that is set up or not. *)
Definition toy_fips (drbg : drbg_ctx) : fips :=
  mkFips toy_curve_hw (toy_hw false) [] rand_reset drbg FIPS_POWER_UP_TEST_DONE 0
    KEYMGR_CERT_REVOKE_CTRL0_DEFAULT_VAL KEYMGR_CERT_REVOKE_CTRL1_DEFAULT_VAL 0 (zeros 8) 0 []
    (mkDcrypto toy_curve_hw false false [] [] false).

Definition toy_seed : list Z := replicate 32 7.

Definition toy_generator : drbg_ctx := mkDrbg (zeros 32) (replicate 32 1) 1 1000 DCRYPTO_OK.

Definition toy_key : list Z := 117901064 :: replicate 7 117901063.

(** A key that is accepted, and one that is refused. *)
Lemma key_from_bytes_spec_witness :
  (@DCRYPTO_p256_key_from_bytes toy_engine toy_curve_hw no_code 3 [] [] [] toy_seed
    (set_status FIPS_FATAL_OTHER (toy_fips toy_generator)) =
    (Some (DCRYPTO_FAIL, [], [], []), set_status FIPS_FATAL_OTHER (toy_fips toy_generator))) /\
  exists s', @DCRYPTO_p256_key_from_bytes toy_engine toy_curve_hw no_code 3 [] [] [] toy_seed
    (toy_fips toy_generator) = (Some (DCRYPTO_OK, toy_key, toy_key, toy_key), s') /\
  val toy_key = be_val toy_seed + 1 /\ consistent toy_key (ecc_base toy_key).
Proof.
  assert (bytes toy_seed) as Hb by (repeat constructor; lia). split.
  - destruct (@key_from_bytes_spec toy_engine toy_engine_laws toy_curve_hw no_code
      3 [] [] [] toy_seed (set_status FIPS_FATAL_OTHER (toy_fips toy_generator)) Hb eq_refl)
      as [Hk _]. apply Hk. vm_compute. reflexivity.
  - destruct (@key_from_bytes_spec toy_engine toy_engine_laws toy_curve_hw no_code
      3 [] [] [] toy_seed (toy_fips toy_generator) Hb eq_refl) as [_ Hk].
    destruct (Hk ltac:(vm_compute; reflexivity)) as [_ Hs].
    destruct (Hs ltac:(reflexivity)) as (Hv & _ & Hc). clear Hk Hs.
    specialize (Hc toy_curve toy_shapes ltac:(discriminate)
      ltac:(split; [split_and!; try reflexivity; repeat constructor; lia
                   |split; [discriminate|reflexivity]])).
    destruct (DCRYPTO_p256_key_from_bytes _ _ _ _ _ _) as [res s'] eqn:R.
    assert (res = Some (DCRYPTO_OK, toy_key, toy_key, toy_key)) as Er.
    { pose proof (f_equal fst R) as R1. cbn [fst] in R1. rewrite <- R1.
      apply (bool_decide_eq_true_1 _). vm_compute. reflexivity. }
    rewrite Er in *. exists s'. split; [done|].
    destruct (Hc _ _ _ _ _ eq_refl) as (Ek & _ & [[_ Hok]|[? _]]); [|done].
    rewrite <- Ek in Hv, Hok. by split.
Defined.

Lemma driver_keeps_contract_witness :
  exists s' rnd, @dcrypto_p256_ecdsa_sign_raw toy_curve_hw no_code toy_key toy_key one
    (toy_fips toy_generator) = ((sign_code (one, norm toy_key), one, norm toy_key), s') /\
  finished (toy_fips toy_generator) s' /\ field off_k (dmem (dcrypto s')) = rnd /\
  field off_d (dmem (dcrypto s')) = rnd.
Proof.
  apply (@driver_keeps_contract toy_curve_hw no_code toy_curve toy_key toy_key one toy_key toy_key
    one one (toy_fips toy_generator)); [discriminate|reflexivity..].
Defined.
