(* ===== verification/Bn.v ===== *)
(** * Numbers of any size (board/cr50/dcrypto/bn.c)

    A [LITE_BIGNUM] is the list of its digits of 32 bits, the least significant first; [dmax] is
    the length of the list.  A function that writes to a number returns its new digits; a
    function that swaps the structures [*output] and [acc] returns them swapped.  A digit out of
    range reads as 0 and is not written: the theorems state the sizes under which the code
    never asks for one. *)

From S2P Require Import Prelude Hash HmacSpec ShaHw ShaHwPaths Drbg FipsRand.

(** [BN_DIGIT(a, i)] *)
Definition BN_DIGIT (a : list Z) (i : nat) : Z := nth i a 0.

(** The conversion to a signed number of 64 bits. *)
Definition i64 (x : Z) : Z := (x + 2 ^ 63) mod 2 ^ 64 - 2 ^ 63.

(** ** Comparisons *)

(** [top] of the digits from [n] on. *)
Definition bn_top (a : list Z) (n : nat) : bool := nz (fold_left Z.lor (drop n a) 0).

Definition bn_eq (a b : list Z) : bool :=
  if bn_top a (length b) then false
  else if bn_top b (length a) then false
  else forallb (fun i => BN_DIGIT a i =? BN_DIGIT b i) (rev (seq 0 (length a `min` length b))).

Definition bn_check_topbit (N : list Z) : Z := Z.shiftr (BN_DIGIT N (length N - 1)) 31.

Definition bn_is_bit_set (a : list Z) (n : nat) : Z :=
  let i := (n / 32)%nat in
  let j := (n mod 32)%nat in
  if (length a <=? i)%nat then 0 else Z.land (Z.shiftr (BN_DIGIT a i) (Z.of_nat j)) 1.

Definition bn_set_bit (a : list Z) (n : nat) : list Z :=
  let i := (n / 32)%nat in
  let j := (n mod 32)%nat in
  if (i <? length a)%nat then <[i := Z.lor (BN_DIGIT a i) (Z.shiftl 1 (Z.of_nat j))]> a else a.

(** From digit [i] down to the first one that differs, or to digit 0. *)
Fixpoint bn_gte_from (a b : list Z) (i : nat) : bool :=
  match i with
  | S i' =>
      if BN_DIGIT a i =? BN_DIGIT b i then bn_gte_from a b i'
      else BN_DIGIT b i <=? BN_DIGIT a i
  | O => BN_DIGIT b i <=? BN_DIGIT a i
  end.

Definition bn_gte (a b : list Z) : bool :=
  if bn_top a (length b) then true
  else if bn_top b (length a) then false
  else bn_gte_from a b (length a `min` length b - 1).

(** ** Sums and differences *)

(** The second loops: the borrow or the carry goes on while there is one.  [A] is then 1 or -1,
    and no digit added to it overflows 64 bits. *)
Fixpoint bn_carry (c : list Z) (A : Z) : list Z * Z :=
  match c with
  | x :: c' =>
      if nz A then
        let A := A + x in
        let '(r, A') := bn_carry c' (Z.shiftr A 32) in (u32 A :: r, A')
      else (c, A)
  | [] => ([], A)
  end.

(** [A] is of 64 bits with a sign, shifting it is arithmetic. *)
Fixpoint bn_sub_loop (c a : list Z) (A : Z) : list Z * Z :=
  match a, c with
  | y :: a, x :: c =>
      let A := i64 (A + u64 (x - y)) in
      let '(r, A') := bn_sub_loop c a (Z.shiftr A 32) in (u32 A :: r, A')
  | _, _ => bn_carry c A
  end.

(** The difference, and 0 or -1. *)
Definition bn_sub (c a : list Z) : list Z * Z :=
  let '(r, A) := bn_sub_loop c a 0 in (r, i32 A).

(** [A] is of 64 bits. *)
Fixpoint bn_add_loop (c a : list Z) (A : Z) : list Z * Z :=
  match a, c with
  | y :: a, x :: c =>
      let A := u64 (A + (x + y)) in
      let '(r, A') := bn_add_loop c a (Z.shiftr A 32) in (u32 A :: r, A')
  | _, _ => bn_carry c A
  end.

(** The sum, and 0 or 1. *)
Definition bn_add (c a : list Z) : list Z * Z :=
  let '(r, A) := bn_add_loop c a 0 in (r, u32 A).

(** Both loops of [bn_signed_sub]: past the end of [a] its complement is all ones. *)
Fixpoint bn_signed_sub_loop (c a : list Z) (A : Z) : list Z * Z :=
  match c with
  | x :: c =>
      let A := u64 (A + (x + match a with y :: _ => not32 y | [] => 0xFFFFFFFF end)) in
      let '(r, A') := bn_signed_sub_loop c (tl a) (Z.shiftr A 32) in (u32 A :: r, A')
  | [] => ([], A)
  end.

(** The new flag of the sign; [a1] is what is added to it. *)
Definition new_neg (c_neg a1 A : Z) (carry : bool) : Z :=
  if carry then c_neg else Z.land (c_neg + a1 + A) 1.

(** The difference, its flag and the borrow; a flag is 0 or 1. *)
Definition bn_signed_sub (c : list Z) (c_neg : Z) (a : list Z) (a_neg : Z) : list Z * Z * bool :=
  let '(r, A) := bn_signed_sub_loop c a 1 in
  let A := Z.land A 1 in
  let carry := negb (nz c_neg) && nz a_neg && nz A || nz c_neg && negb (nz a_neg) && negb (nz A) in
  (r, new_neg c_neg (b2z (negb (nz a_neg))) A carry, carry).

Definition bn_signed_add (c : list Z) (c_neg : Z) (a : list Z) (a_neg : Z) : list Z * Z * bool :=
  let '(r, A) := bn_add c a in
  let carry := negb (nz c_neg) && negb (nz a_neg) && nz A || nz c_neg && nz a_neg && negb (nz A) in
  (r, new_neg c_neg a_neg A carry, carry).

(** ** Shifts by a bit *)

Fixpoint bn_lshift_loop (r : list Z) (carry : Z) : list Z * Z :=
  match r with
  | x :: r =>
      let '(r', c) := bn_lshift_loop r (Z.shiftr x 31) in
      (Z.lor (u32 (Z.shiftl x 1)) carry :: r', c)
  | [] => ([], carry)
  end.

Definition bn_lshift (r : list Z) : list Z * Z := bn_lshift_loop r 0.

Fixpoint bn_rshift_loop (r : list Z) (highbit : Z) : list Z :=
  match r with
  | [] => []
  | x :: r =>
      Z.lor (Z.shiftr x 1) (u32 (Z.shiftl match r with y :: _ => y | [] => highbit end 31))
      :: bn_rshift_loop r highbit
  end.

Definition bn_rshift (r : list Z) (carry neg : Z) : list Z :=
  let highbit := negb (nz carry) && nz neg || nz carry && negb (nz neg) in
  let ones := fold_left Z.land r 0xFFFFFFFF in
  let r' := bn_rshift_loop r (b2z highbit) in
  if (ones =? 0xFFFFFFFF) && highbit && nz neg then zeros (length r') else r'.

(** ** Montgomery arithmetic *)

(** The loop of [bn_mont_mul_add]: digit [i] of the result from the digits [i + 1]. *)
Fixpoint bn_mont_loop (a d0 A B : Z) (c b N : list Z) : list Z * Z * Z :=
  match N, b, c with
  | m :: N, y :: b, x :: c =>
      let tmp := u64 (A + u64 (a * y) + x) in
      let A := Z.shiftr tmp 32 in
      let tmp := u64 (B + u64 (d0 * m) + u32 tmp) in
      let B := Z.shiftr tmp 32 in
      let '(r, A', B') := bn_mont_loop a d0 A B c b N in (u32 tmp :: r, A', B')
  | _, _, _ => ([], A, B)
  end.

Definition bn_mont_mul_add (c : list Z) (a : Z) (b : list Z) (nprime : Z) (N : list Z) : list Z :=
  let tmp := u64 (BN_DIGIT c 0 + u64 (a * BN_DIGIT b 0)) in
  let A := Z.shiftr tmp 32 in
  let d0 := u32 (u32 tmp * nprime) in
  let tmp := u64 (u32 tmp + u64 (d0 * BN_DIGIT N 0)) in
  let B := Z.shiftr tmp 32 in
  let '(r, A, B) := bn_mont_loop a d0 A B (tl c) (tl b) (tl N) in
  let tmp := u64 (A + B) in
  let c := splice 0 (r ++ [u32 tmp]) c in
  if nz (Z.shiftr tmp 32) then fst (bn_sub c N) else c.

(** [a] may be [NULL], which stands for the number 1. *)
Definition bn_mont_digit (a : option (list Z)) (i : nat) : Z :=
  match a with
  | Some a => BN_DIGIT a i
  | None => if (i =? 0)%nat then 1 else 0
  end.

Fixpoint bn_mont_rounds (a : option (list Z)) (b : list Z) (nprime : Z) (N : list Z)
    (i n : nat) (c : list Z) : list Z :=
  match n with
  | S n => bn_mont_rounds a b nprime N (S i) n (bn_mont_mul_add c (bn_mont_digit a i) b nprime N)
  | O => c
  end.

Definition bn_mont_mul (c : list Z) (a : option (list Z)) (b : list Z) (nprime : Z) (N : list Z)
    : list Z :=
  bn_mont_rounds a b nprime N 0 (length N) (splice 0 (zeros (length N)) c).

(** [fips.h] *)
Definition FIPS_FATAL_BN_MATH : Z := 0x800.

Section Fips.
Context `{FipsHw}.

(** One round of the loop of [bn_compute_RR]: twice the number, modulo [N]. *)
Definition bn_double (RR N : list Z) : ST fips (list Z) :=
  let '(RR, carry) := bn_lshift RR in
  let* RR :=
    if nz carry then
      let '(RR, borrow) := bn_sub RR N in
      (if borrow =? -1 then ret tt else fips_throw_err FIPS_FATAL_BN_MATH) ;;; ret RR
    else ret RR in
  ret (if bn_gte RR N then fst (bn_sub RR N) else RR).

Fixpoint bn_double_times (n : nat) (RR N : list Z) : ST fips (list Z) :=
  match n with
  | S n => let* RR := bn_double RR N in bn_double_times n RR N
  | O => ret RR
  end.

Definition bn_compute_RR (RR N : list Z) : ST fips (list Z) :=
  bn_double_times (length N * 32) (fst (bn_sub RR N)) N.

(** The 5 rounds of Hensel lifting. *)
Definition bn_lift (n0 ninv : Z) : Z := u32 (ninv * u32 (2 - u32 (n0 * ninv))).

Definition bn_compute_nprime (n0 : Z) : Z :=
  u32 (not32 (Nat.iter 5 (bn_lift n0) 1) + 1).

(** The bits of the exponent from [i - 1] down; [output] and [acc] are the two structures, and
    [swapped] says that [acc] is the buffer of the caller. *)
Fixpoint bn_exp_loop (i : nat) (exp aR : list Z) (nprime : Z) (N : list Z)
    (output acc : list Z) (swapped : bool) : list Z * list Z * bool :=
  match i with
  | S i =>
      let output := bn_mont_mul output (Some acc) acc nprime N in
      if nz (bn_is_bit_set exp i) then
        bn_exp_loop i exp aR nprime N output (bn_mont_mul acc (Some output) aR nprime N) swapped
      else bn_exp_loop i exp aR nprime N acc output (negb swapped)
  | O => (output, acc, swapped)
  end.

(** The watchdog, which the code pokes at each bit, is not part of the state. *)
Definition bn_modexp_internal (output input exp N : list Z) : ST fips (list Z) :=
  let nprime := bn_compute_nprime (BN_DIGIT N 0) in
  let zero := zeros (length N) in
  let* RR := bn_compute_RR zero N in
  let acc := bn_mont_mul zero None RR nprime N in
  let aR := bn_mont_mul zero (Some input) RR nprime N in
  let '(output, acc, swapped) :=
    bn_exp_loop (length exp * 32) exp aR nprime N output acc false in
  let output := bn_mont_mul output None acc nprime N in
  let output := if swapped : bool then splice 0 output acc else output in
  let '(output, borrow) := bn_sub output N in
  let output := if nz borrow then fst (bn_add output N) else output in
  ret (take (length N) output).

End Fips.

(** ** Products *)

(** [carry] is of 64 bits. *)
Fixpoint bn_mul_add_loop (c b : list Z) (a carry : Z) : list Z * Z :=
  match b, c with
  | y :: b, x :: c =>
      let carry := u64 (carry + u64 (x + u64 (y * a))) in
      let '(r, carry') := bn_mul_add_loop c b a (Z.shiftr carry 32) in (u32 carry :: r, carry')
  | _, _ => (c, carry)
  end.

(** [c] from digit [offset] on, and the carry. *)
Definition bn_mul_add (c : list Z) (a : Z) (b : list Z) (offset : nat) : list Z * Z :=
  let '(r, carry) := bn_mul_add_loop (drop offset c) b a 0 in (take offset c ++ r, u32 carry).

(** The digits [i, i + 1, ...] of [a]; the digit above the product is written before it is
    added to. *)
Fixpoint bn_mul_rounds (c a b : list Z) (i : nat) (carry : Z) : list Z :=
  let c := <[(i + length b - 1)%nat := carry]> c in
  match a with
  | x :: a => let '(c, carry) := bn_mul_add c x b i in bn_mul_rounds c a b (S i) carry
  | [] => c
  end.

Definition DCRYPTO_bn_mul (c a b : list Z) : list Z :=
  bn_mul_rounds (zeros (length c)) a b 0 0.

(** [c] is a buffer whose first [c_dmax] digits are the number. *)
Definition bn_mul_ex (c : list Z) (c_dmax : nat) (a : list Z) (a_len : nat) (b : list Z)
    : list Z :=
  bn_mul_rounds (splice 0 (zeros c_dmax) c) (take a_len a) b 0 0.

(** ** Quotients *)

Definition lo16 (v : Z) : Z := Z.land v 0xffff.
Definition hi16 (v : Z) : Z := Z.shiftr v 16.

(** One half of [udiv_qrnnd]: 16 bits of the quotient and what is left; [h] is the half of
    [n0] that comes in. *)
Definition udiv_half (r d h : Z) : Z * Z :=
  let d1 := hi16 d in
  let d0 := lo16 d in
  let q := r / d1 in
  let r := u32 (r - u32 (q * d1)) in
  let m := u32 (q * d0) in
  let r := Z.lor (u32 (Z.shiftl r 16)) h in
  let '(q, r) :=
    if r <? m then
      let q := u32 (q - 1) in
      let r := u32 (r + d) in
      if (d <=? r) && (r <? m) then (u32 (q - 1), u32 (r + d)) else (q, r)
    else (q, r) in
  (q, u32 (r - m)).

(** The quotient and the remainder of [n1 * 2 ^ 32 + n0] by [d]. *)
Definition udiv_qrnnd (n1 n0 d : Z) : Z * Z :=
  let '(q1, r) := udiv_half n1 d (hi16 n0) in
  let '(q0, r) := udiv_half r d (lo16 n0) in
  (Z.lor (u32 (Z.shiftl q1 16)) q0, r).

Definition make64 (hi lo : Z) : Z := Z.lor (Z.shiftl hi 32) lo.

(** The division of 32 bits by zero gives zero, as the instruction of the processor does. *)
Definition udiv32 (n d0 : Z) : Z :=
  let n0 := u32 n in
  let n1 := u32 (Z.shiftr n 32) in
  if (d0 =? 0) || (n1 =? 0) then n0 / d0
  else
    let bm := count_leading_zeros d0 in
    let d := u32 (Z.shiftl d0 bm) in
    let s1 := if nz bm then Z.lor (u32 (Z.shiftl n1 bm)) (Z.shiftr n0 (32 - bm)) else n1 in
    let s0 := u32 (Z.shiftl n0 bm) in
    let '(q1, n1) :=
      if n1 <? d0 then (0, s1)
      else if bm =? 0 then (1, u32 (n1 - d0))
      else udiv_qrnnd (Z.shiftr n1 (32 - bm)) s1 d in
    make64 q1 (fst (udiv_qrnnd n1 s0 d)).

(** The digits of [u] from [m - 1] down: the quotient and [rem]. *)
Fixpoint bn_div_word_loop (u : list Z) (div : Z) (m : nat) (rem : Z) : list Z * Z :=
  match m with
  | S i =>
      let tmp := u64 (Z.shiftl rem 32 + BN_DIGIT u i) in
      let qd := u32 (udiv32 tmp div) in
      let '(q, rem) := bn_div_word_loop u div i (u32 (tmp - u64 (qd * div))) in
      (q ++ [qd], rem)
  | O => ([], rem)
  end.

(** The digits written to [q] and to [r]. *)
Definition bn_div_word_ex (u : list Z) (m : nat) (div : Z) : list Z * list Z :=
  let '(q, rem) := bn_div_word_loop u div m 0 in (q, [rem]).

(** The digits shifted up by [s] bits, [carry] coming in from below. *)
Fixpoint bn_shl (s : Z) (ds : list Z) (carry : Z) : list Z :=
  match ds with
  | x :: ds => Z.lor (u32 (Z.shiftl x s)) carry :: bn_shl s ds (Z.shiftr x (32 - s))
  | [] => []
  end.

(** The digits shifted down by [s] bits. *)
Fixpoint bn_shr (s : Z) (ds : list Z) : list Z :=
  match ds with
  | x :: ((y :: _) as ds) => Z.lor (Z.shiftr x s) (u32 (Z.shiftl y (32 - s))) :: bn_shr s ds
  | [x] => [Z.shiftr x s]
  | [] => []
  end.

(** The loop that tunes the estimate [qd]: two digits of [un] over the top digit of [vn]. *)
Fixpoint bn_tune (fuel : nat) (qd rhat vtop vnext unext : Z) : Z :=
  match fuel with
  | S fuel =>
      if (Z.shiftr rhat 32 =? 0) && (u64 (Z.shiftl rhat 32) + unext <? u64 (qd * vnext)) then
        bn_tune fuel (u32 (qd - 1)) (u64 (rhat + vtop)) vtop vnext unext
      else qd
  | O => qd
  end.

(** Each turn adds the top digit, which is at least [2 ^ 31], to [rhat]. *)
Definition tune_fuel : nat := 3.

Definition bn_estimate (un vn : list Z) (n j : nat) : Z :=
  let vtop := BN_DIGIT vn (n - 1) in
  if BN_DIGIT un (j + n) =? vtop then 0xFFFFFFFF
  else
    let rhat := u64 (Z.shiftl (BN_DIGIT un (j + n)) 32 + BN_DIGIT un (j + n - 1)) in
    let qd := u32 (udiv32 rhat vtop) in
    bn_tune tune_fuel qd (u64 (rhat - u64 (qd * vtop))) vtop
      (BN_DIGIT vn (n - 2)) (BN_DIGIT un (j + n - 2)).

(** Multiply and subtract; [t] and [k] are of 64 bits with a sign. *)
Fixpoint bn_mulsub (u vn : list Z) (qd k : Z) : list Z * Z :=
  match vn, u with
  | v :: vn, x :: u =>
      let p := u64 (qd * v) in
      let t := i64 (x - k - Z.land p 0xFFFFFFFF) in
      let '(r, k) := bn_mulsub u vn qd (i64 (Z.shiftr p 32 - Z.shiftr t 32)) in (u32 t :: r, k)
  | _, _ => ([], k)
  end.

Fixpoint bn_addback (u vn : list Z) (k : Z) : list Z * Z :=
  match vn, u with
  | v :: vn, x :: u =>
      let t := i64 (u64 (x + v + k)) in
      let '(r, k) := bn_addback u vn (Z.shiftr t 32) in (u32 t :: r, k)
  | _, _ => ([], k)
  end.

(** A digit of the quotient; [un] is reduced by its multiple of [vn]. *)
Definition bn_div_step (un vn : list Z) (n j : nat) : list Z * Z :=
  let qd := bn_estimate un vn n j in
  let '(w, k) := bn_mulsub (drop j un) vn qd 0 in
  let t := i64 (BN_DIGIT un (j + n) - k) in
  let un := splice j (w ++ [u32 t]) un in
  if t <? 0 then
    let '(w, k) := bn_addback (drop j un) vn 0 in
    (splice j (w ++ [u32 (BN_DIGIT un (j + n) + k)]) un, u32 (qd - 1))
  else (un, qd).

(** The digits [j - 1, ..., 0] of the quotient. *)
Fixpoint bn_div_loop (un vn : list Z) (n j : nat) : list Z * list Z :=
  match j with
  | S j =>
      let '(un, qd) := bn_div_step un vn n j in
      let '(un, q) := bn_div_loop un vn n j in (un, q ++ [qd])
  | O => (un, [])
  end.

Definition bn_div_knuth (u : list Z) (m : nat) (v : list Z) (n : nat) : list Z * list Z :=
  let s := count_leading_zeros (BN_DIGIT v (n - 1)) in
  let u := take m u in
  let v := take n v in
  let vn := if nz s then bn_shl s v 0 else v in
  let un :=
    if nz s then bn_shl s u 0 ++ [Z.shiftr (BN_DIGIT u (m - 1)) (32 - s)] else u ++ [0] in
  let '(un, q) := bn_div_loop un vn n (m - n + 1) in
  (q, if nz s then bn_shr s (take n un) else take n un).

(** The new digits of [q] and of [r], which may be [NULL]; nothing on an error. *)
Definition bn_div_ex (q : list Z) (r : option (list Z)) (u : list Z) (m : nat) (v : list Z)
    (n : nat) : option (list Z * option (list Z)) :=
  if (m <? n)%nat || (n =? 0)%nat then None
  else if BN_DIGIT v (n - 1) =? 0 then None
  else
    let '(qs, rs) :=
      if (n =? 1)%nat then bn_div_word_ex u m (BN_DIGIT v (n - 1)) else bn_div_knuth u m v n in
    Some (splice 0 qs q, option_map (splice 0 rs) r).

Definition bn_set_bn (d src : list Z) (n : nat) : list Z :=
  let k := (n `min` length d)%nat in
  map (BN_DIGIT src) (seq 0 k) ++ zeros (length d - k).

(** From digit [n] down. *)
Fixpoint bn_digits_from (a : list Z) (n : nat) : nat :=
  match n with
  | S n' => if BN_DIGIT a n =? 0 then bn_digits_from a n' else S n
  | O => 1
  end.

Definition bn_digits (a : list Z) : nat := bn_digits_from a (length a - 1).

(** The digits of [d] from [i] on set to 0. *)
Definition pad_from (i : nat) (d : list Z) : list Z := take i d ++ zeros (length d - i).

(** The quotient and the remainder, nothing when the code returns 0. *)
Definition DCRYPTO_bn_div (quotient : list Z) (remainder : option (list Z)) (src divisor : list Z)
    : option (list Z * option (list Z)) :=
  let src_len := bn_digits src in
  let div_len := bn_digits divisor in
  if (src_len <? div_len)%nat then None
  else match bn_div_ex quotient remainder src src_len divisor div_len with
  | None => None
  | Some (q, r) => Some (pad_from (src_len - div_len + 1) q, option_map (pad_from div_len) r)
  end.

(** ** Inverses: the extended algorithm of Euclid *)

(** The local numbers of [bn_modinv_vartime] as [pR], [pnR], [pT], [pnT] point to them; swapping
    the pointers swaps the fields. *)
Record euclid := mkEuclid {
  eR : list Z;
  enR : list Z;
  eQ : list Z;
  eT : list Z;
  enT : list Z;
  etmp : list Z;
  r_len : nat;
  nr_len : nat;
  t_neg : Z;
  nt_neg : Z
}.

(** [while (n && a[n - 1] == 0) --n] *)
Fixpoint bn_trim (a : list Z) (n : nat) : nat :=
  match n with
  | S n' => if BN_DIGIT a n' =? 0 then bn_trim a n' else n
  | O => O
  end.

(** [while (n--) bn_signed_sub(...)] *)
Definition bn_signed_sub_times (n : Z) (c : list Z) (c_neg : Z) (a : list Z) (a_neg : Z)
    : list Z * Z :=
  Nat.iter (Z.to_nat n) (fun '(c, c_neg) => fst (bn_signed_sub c c_neg a a_neg)) (c, c_neg).

(** [t - q * nt]: the new digits and flag of [pT], and the buffer of the product. *)
Definition euclid_update (e : euclid) (q : list Z) : list Z * Z * list Z :=
  let q_len := length q in
  if (q_len =? 1)%nat && (BN_DIGIT q 0 <=? 2) then
    (bn_signed_sub_times (BN_DIGIT q 0) (eT e) (t_neg e) (enT e) (nt_neg e), etmp e)
  else
    let dmax := length (enT e) in
    let tmp :=
      if nz (nt_neg e) then bn_mul_ex (etmp e) dmax q q_len (enT e)
      else
        let nt_len := bn_digits (enT e) in
        if (q_len <? nt_len)%nat then bn_mul_ex (etmp e) dmax q q_len (enT e)
        else bn_mul_ex (etmp e) dmax (enT e) nt_len q in
    (fst (bn_signed_sub (eT e) (t_neg e) (take dmax tmp) (nt_neg e)), tmp).

(** A turn of the loop; nothing when the division is refused. *)
Definition euclid_step (e : euclid) : option euclid :=
  let q_len := (r_len e - nr_len e + 1)%nat in
  match bn_div_ex (eQ e) (Some (eR e)) (eR e) (r_len e) (enR e) (nr_len e) with
  | Some (Q, Some R) =>
      let nr := bn_trim R (nr_len e) in
      let q_len := bn_trim Q q_len in
      let '(T, neg, tmp) := euclid_update e (take q_len Q) in
      Some (mkEuclid (enR e) R Q (enT e) T tmp (nr_len e) nr (nt_neg e) neg)
  | _ => None
  end.

Inductive euclid_result :=
  | Euclid (e : euclid)
  | Refused
  | NoFuel.

Fixpoint euclid_loop (fuel : nat) (e : euclid) : euclid_result :=
  match fuel with
  | S fuel =>
      if (nr_len e =? 0)%nat then Euclid e
      else match euclid_step e with
      | Some e => euclid_loop fuel e
      | None => Refused
      end
  | O => NoFuel
  end.

(** [R = n], [nR = input], [T = 0], [nT = 1]; the product has room for [2 n + 1] digits. *)
Definition euclid_start (src mod_ : list Z) : euclid :=
  let n := length mod_ in
  let nR := bn_set_bn (zeros n) src (bn_digits src) in
  mkEuclid (bn_set_bn (zeros n) mod_ (bn_digits mod_)) nR (zeros n) (zeros (n + 1))
    (1 :: zeros n) (zeros (2 * n + 1)) (bn_digits mod_) (bn_trim nR (bn_digits src)) 0 0.

(** Two turns halve [R]. *)
Definition euclid_fuel (mod_ : list Z) : nat := 64 * length mod_ + 3.

(** The code and [dst]: a refused division returns 0; [None] is without fuel. *)
Definition bn_modinv_vartime (dst src mod_ : list Z) : option (Z * list Z) :=
  match euclid_loop (euclid_fuel mod_) (euclid_start src mod_) with
  | Euclid e =>
      if negb (r_len e =? 1)%nat || negb (BN_DIGIT (eR e) 0 =? 1) then Some (DCRYPTO_FAIL, dst)
      else
        let T := if nz (t_neg e) then fst (fst (bn_signed_add (eT e) (t_neg e) mod_ 0)) else eT e in
        Some (DCRYPTO_OK, bn_set_bn dst T (bn_digits T))
  | Refused => Some (0, dst)
  | NoFuel => None
  end.
