(* ===== verification/BnArith.v ===== *)
(** * Sums, differences, comparisons and products of [LITE_BIGNUM] as integers

    Each loop over the digits leaves digits and a carry; [splits] says which number they make,
    and [splits_cons] adds a digit, so that each loop is one induction. *)

From S2P Require Import Prelude Hash HmacSpec ShaHw ShaHwPaths Drbg FipsRand FipsHealth P256 P256Props Bn.

(** The size of [n] digits. *)
Definition pw (n : nat) : Z := 2 ^ (32 * Z.of_nat n).

Lemma pw_0 : pw 0 = 1.
Proof. done. Qed.

Lemma pw_S n : pw (S n) = 2 ^ 32 * pw n.
Proof. unfold pw. rewrite <- Z.pow_add_r by lia. f_equal. lia. Qed.

Lemma pw_add n m : pw (n + m) = pw n * pw m.
Proof. unfold pw. rewrite <- Z.pow_add_r by lia. f_equal. lia. Qed.

Lemma pw_pos n : 0 < pw n.
Proof. unfold pw. apply Z.pow_pos_nonneg; lia. Qed.

Lemma pw_le n m : (n <= m)%nat -> pw n <= pw m.
Proof. intros. unfold pw. apply Z.pow_le_mono_r; lia. Qed.

Lemma val_nil : val [] = 0.
Proof. done. Qed.

Lemma val_cons x ds : val (x :: ds) = x + 2 ^ 32 * val ds.
Proof. done. Qed.

Lemma val_app a b : val (a ++ b) = val a + pw (length a) * val b.
Proof.
  induction a as [|x a IH]; cbn [app length]; [rewrite pw_0, val_nil; lia|].
  rewrite !val_cons, IH, pw_S. ring.
Qed.

Lemma val_zeros n : val (zeros n) = 0.
Proof. unfold zeros. induction n as [|n IH]; cbn [replicate]; [done|]. rewrite val_cons, IH. done. Qed.

Lemma val_bound a : words a -> 0 <= val a < pw (length a).
Proof. apply val_range. Qed.

Lemma words_zeros n : words (zeros n).
Proof. unfold zeros. induction n; constructor; [lia|done]. Qed.

Lemma words_app a b : words (a ++ b) <-> words a /\ words b.
Proof. unfold words, below. by rewrite Forall_app. Qed.

Lemma words_cons x a : words (x :: a) <-> 0 <= x < 2 ^ 32 /\ words a.
Proof. unfold words, below. by rewrite Forall_cons. Qed.

Lemma words_snoc a x : words a -> 0 <= x < 2 ^ 32 -> words (a ++ [x]).
Proof. intros Ha Hx. rewrite words_app, words_cons. split; [done|]. split; [done|constructor]. Qed.

Lemma words_take n a : words a -> words (take n a).
Proof. apply Forall_take. Qed.

Lemma words_drop n a : words a -> words (drop n a).
Proof. apply Forall_drop. Qed.

Lemma words_tl a : words a -> words (tl a).
Proof. destruct a; [done|]. by intros [_ ?]%words_cons. Qed.

Lemma words_nth a i : words a -> 0 <= BN_DIGIT a i < 2 ^ 32.
Proof.
  intros Ha. unfold BN_DIGIT. destruct (decide (i < length a)%nat) as [Hi|Hi].
  - by apply (Forall_nth (fun d => 0 <= d < 2 ^ 32)).
  - rewrite nth_overflow by lia. lia.
Qed.

Lemma length_zeros n : length (zeros n) = n.
Proof. apply length_replicate. Qed.

Lemma val_take_drop n a : (n <= length a)%nat -> val a = val (take n a) + pw n * val (drop n a).
Proof.
  intros Hn. rewrite <- (take_drop n a) at 1. rewrite val_app, length_take, Nat.min_l by lia. done.
Qed.

Lemma words_splice new l : words new -> words l -> words (splice 0 new l).
Proof. intros Hn Hl. unfold splice. rewrite take_0, app_nil_l, words_app. split; [done|]. by apply words_drop. Qed.

Create HintDb bn.
#[export] Hint Resolve words_zeros words_take words_drop words_tl words_nth words_splice val_bound pw_pos
  : bn.

(** ** Words and what is above them *)

Lemma u32_range x : 0 <= u32 x < 2 ^ 32.
Proof. unfold u32, uN. apply Z.mod_pos_bound. lia. Qed.

Lemma split32 x : u32 x + 2 ^ 32 * Z.shiftr x 32 = x.
Proof.
  rewrite Z.shiftr_div_pow2 by lia. unfold u32, uN. pose proof (Z.div_mod x (2 ^ 32) ltac:(lia)). lia.
Qed.

Lemma u32_id x : 0 <= x < 2 ^ 32 -> u32 x = x.
Proof. intros. by apply uN_small. Qed.

Lemma u64_id x : 0 <= x < 2 ^ 64 -> u64 x = x.
Proof. intros. by apply uN_small. Qed.

Lemma i64_id x : - 2 ^ 63 <= x < 2 ^ 63 -> i64 x = x.
Proof. intros. unfold i64. rewrite Z.mod_small by lia. lia. Qed.

Lemma i64_u64 x A : - 2 ^ 63 <= A + x < 2 ^ 63 -> i64 (A + u64 x) = A + x.
Proof.
  intros Hx. unfold i64, u64, uN.
  replace (A + x mod 2 ^ 64 + 2 ^ 63) with (A + 2 ^ 63 + x mod 2 ^ 64) by ring.
  rewrite Z.add_mod_idemp_r by lia. rewrite Z.mod_small by lia. lia.
Qed.

(** The digits [r] and the carry [A] make [v]. *)
Definition splits (r : list Z) (A : Z) (n : nat) (v : Z) : Prop :=
  length r = n /\ words r /\ val r + pw n * A = v.

Lemma splits_nil A : splits [] A 0 A.
Proof. repeat split; [constructor|]. rewrite val_nil, pw_0. lia. Qed.

Lemma splits_cons x r A n v v' :
  splits r A n v' -> v = x + 2 ^ 32 * (v' - Z.shiftr x 32) -> splits (u32 x :: r) A (S n) v.
Proof.
  intros (Hl & Hw & Hv) ->. repeat split; cbn [length]; [lia|apply words_cons; split; [apply u32_range|done]|].
  rewrite val_cons, pw_S. pose proof (split32 x). lia.
Qed.

Lemma splits_self a A : words a -> splits a A (length a) (val a + pw (length a) * A).
Proof. done. Qed.

(** The carry is the quotient. *)
Lemma splits_mod r A n v : splits r A n v -> val r = v mod pw n /\ A = v / pw n.
Proof.
  intros (Hl & Hw & Hv). pose proof (val_bound r Hw) as Hr. rewrite Hl in Hr. pose proof (pw_pos n).
  subst v. replace (val r + pw n * A) with (val r + A * pw n) by ring.
  rewrite Z.mod_add, Z.div_add, Z.mod_small, Z.div_small by lia. lia.
Qed.

Lemma splits_shiftr x lo hi n : lo * 2 ^ n <= x < (hi + 1) * 2 ^ n -> 0 <= n -> lo <= Z.shiftr x n <= hi.
Proof.
  intros [H1 H2] Hn. rewrite Z.shiftr_div_pow2 by lia.
  pose proof (Z.pow_pos_nonneg 2 n ltac:(lia) Hn). split.
  - apply Z.div_le_lower_bound; lia.
  - apply Z.lt_succ_r, Z.div_lt_upper_bound; lia.
Qed.

(** ** Sums and differences *)

Lemma bn_carry_spec c : forall A r A',
  words c -> -1 <= A <= 1 -> bn_carry c A = (r, A') -> splits r A' (length c) (val c + A).
Proof.
  induction c as [|x c IH]; intros A r A' Hc HA E; cbn [bn_carry] in E.
  { simplify_eq. apply splits_nil. }
  apply words_cons in Hc as [Hx Hc]. destruct (nz A) eqn:HnA.
  - destruct (bn_carry c _) as [r0 A0] eqn:E0. simplify_eq. cbn [length].
    eapply splits_cons.
    + eapply IH; [done| |done]. apply (splits_shiftr _ (-1) 1); lia.
    + rewrite val_cons. ring.
  - apply nz_false in HnA as ->. simplify_eq.
    pose proof (splits_self (x :: c) 0 ltac:(by apply words_cons)) as Hs. by rewrite Z.mul_0_r in Hs.
Qed.

Lemma bn_sub_loop_spec a : forall c A r A',
  words c -> words a -> (length a <= length c)%nat -> -1 <= A <= 0 ->
  bn_sub_loop c a A = (r, A') -> splits r A' (length c) (val c - val a + A).
Proof.
  induction a as [|y a IH]; intros c A r A' Hc Ha Hl HA E.
  { destruct c; cbn [bn_sub_loop] in E; rewrite val_nil, Z.sub_0_r; eapply bn_carry_spec; try done; lia. }
  destruct c as [|x c]; cbn [length] in Hl; [lia|]. cbn [bn_sub_loop] in E.
  apply words_cons in Hc as [Hx Hc], Ha as [Hy Ha]. rewrite i64_u64 in E by lia.
  destruct (bn_sub_loop c a _) as [r0 A0] eqn:E0. simplify_eq. cbn [length].
  eapply splits_cons.
  - eapply IH; [done|done|lia| |done]. apply (splits_shiftr _ (-1) 0); lia.
  - rewrite !val_cons. ring.
Qed.

Lemma bn_add_loop_spec a : forall c A r A',
  words c -> words a -> (length a <= length c)%nat -> 0 <= A <= 1 ->
  bn_add_loop c a A = (r, A') -> splits r A' (length c) (val c + val a + A).
Proof.
  induction a as [|y a IH]; intros c A r A' Hc Ha Hl HA E.
  { destruct c; cbn [bn_add_loop] in E; rewrite val_nil, Z.add_0_r; eapply bn_carry_spec; try done; lia. }
  destruct c as [|x c]; cbn [length] in Hl; [lia|]. cbn [bn_add_loop] in E.
  apply words_cons in Hc as [Hx Hc], Ha as [Hy Ha]. rewrite u64_id in E by lia.
  destruct (bn_add_loop c a _) as [r0 A0] eqn:E0. simplify_eq. cbn [length].
  eapply splits_cons.
  - eapply IH; [done|done|lia| |done]. apply (splits_shiftr _ 0 1); lia.
  - rewrite !val_cons. ring.
Qed.

Lemma bn_sub_spec c a :
  words c -> words a -> (length a <= length c)%nat ->
  splits (fst (bn_sub c a)) (snd (bn_sub c a)) (length c) (val c - val a)
  /\ snd (bn_sub c a) = (if val a <=? val c then 0 else -1).
Proof.
  intros Hc Ha Hl. unfold bn_sub. destruct (bn_sub_loop c a 0) as [r A] eqn:E.
  pose proof (bn_sub_loop_spec a c 0 r A Hc Ha Hl ltac:(lia) E) as Hs. rewrite Z.add_0_r in Hs.
  destruct (splits_mod _ _ _ _ Hs) as [_ HA]. cbn [fst snd].
  pose proof (val_bound c Hc). pose proof (val_bound a Ha). pose proof (pw_le _ _ Hl).
  assert (A = if val a <=? val c then 0 else -1) as HA'.
  { rewrite HA. destruct (Z.leb_spec (val a) (val c)); [apply Z.div_small; lia|].
    symmetry. apply (Z.div_unique_pos _ _ _ (val c - val a + pw (length c))); lia. }
  assert (i32 A = A) as -> by (apply i32_small; destruct (val a <=? val c); lia). done.
Qed.

Lemma bn_add_spec c a :
  words c -> words a -> (length a <= length c)%nat ->
  splits (fst (bn_add c a)) (snd (bn_add c a)) (length c) (val c + val a)
  /\ snd (bn_add c a) = (if val c + val a <? pw (length c) then 0 else 1).
Proof.
  intros Hc Ha Hl. unfold bn_add. destruct (bn_add_loop c a 0) as [r A] eqn:E.
  pose proof (bn_add_loop_spec a c 0 r A Hc Ha Hl ltac:(lia) E) as Hs. rewrite Z.add_0_r in Hs.
  destruct (splits_mod _ _ _ _ Hs) as [_ HA]. cbn [fst snd].
  pose proof (val_bound c Hc). pose proof (val_bound a Ha). pose proof (pw_le _ _ Hl).
  assert (A = if val c + val a <? pw (length c) then 0 else 1) as HA'.
  { rewrite HA. destruct (Z.ltb_spec (val c + val a) (pw (length c))); [apply Z.div_small; lia|].
    symmetry. apply (Z.div_unique_pos _ _ _ (val c + val a - pw (length c))); lia. }
  assert (u32 A = A) as -> by (apply u32_id; destruct (val c + val a <? pw (length c)); lia). done.
Qed.

(** The difference when there is no borrow. *)
Lemma bn_sub_val c a :
  words c -> words a -> (length a <= length c)%nat -> val a <= val c ->
  words (fst (bn_sub c a)) /\ length (fst (bn_sub c a)) = length c
  /\ val (fst (bn_sub c a)) = val c - val a.
Proof.
  intros Hc Ha Hl Hle. destruct (bn_sub_spec c a Hc Ha Hl) as [(Hn & Hw & Hv) HA].
  rewrite HA, (proj2 (Z.leb_le _ _) Hle) in Hv. repeat split; [done|done|lia].
Qed.

Lemma not32_val x : 0 <= x < 2 ^ 32 -> not32 x = 2 ^ 32 - 1 - x.
Proof.
  intros Hx. unfold not32. replace (Z.lxor x (Z.ones 32)) with (Z.ldiff (Z.ones 32) x).
  - rewrite <- Z.sub_nocarry_ldiff; [rewrite Z.ones_equiv; lia|].
    apply Z.ldiff_ones_r_low; [lia|]. destruct (decide (x = 0)) as [->|]; [done|].
    apply Z.log2_lt_pow2; lia.
  - apply Z.bits_inj'. intros i Hi. rewrite Z.ldiff_spec, Z.lxor_spec.
    destruct (decide (i < 32)) as [Hi32|Hi32].
    + rewrite Z.ones_spec_low by lia. destruct (Z.testbit x i); done.
    + rewrite Z.ones_spec_high by lia. replace (Z.testbit x i) with false; [done|].
      symmetry. destruct (decide (x = 0)) as [->|]; [apply Z.bits_0|].
      apply Z.bits_above_log2; [lia|]. apply Z.log2_lt_pow2; [lia|].
      assert (2 ^ 32 <= 2 ^ i) by (apply Z.pow_le_mono_r; lia). lia.
Qed.

Lemma bn_signed_sub_loop_spec c : forall a A r A',
  words c -> words a -> (length a <= length c)%nat -> 0 <= A <= 1 ->
  bn_signed_sub_loop c a A = (r, A') ->
  splits r A' (length c) (val c + (pw (length c) - 1 - val a) + A).
Proof.
  induction c as [|x c IH]; intros a A r A' Hc Ha Hl HA E; cbn [bn_signed_sub_loop] in E.
  { simplify_eq. destruct a; cbn [length] in Hl; [|lia]. rewrite !val_nil. cbn [length].
    rewrite pw_0. pose proof (splits_nil A') as Hs. by replace (0 + (1 - 1 - 0) + A') with A' by ring. }
  apply words_cons in Hc as [Hx Hc]. cbn [length] in *.
  set (y := match a with y :: _ => not32 y | [] => 0xFFFFFFFF end) in E.
  assert (0 <= y < 2 ^ 32 /\ y = 2 ^ 32 - 1 - hd 0 a /\ val a = hd 0 a + 2 ^ 32 * val (tl a)
          /\ (length (tl a) <= length c)%nat) as (Hy & Ey & Ev & Hl').
  { unfold y. destruct a as [|d a]; cbn [hd tl length] in *; [rewrite val_nil; lia|].
    apply words_cons in Ha as [Hd Ha]. rewrite not32_val, val_cons by done. lia. }
  rewrite u64_id in E by lia. destruct (bn_signed_sub_loop c (tl a) _) as [r0 A0] eqn:E0. simplify_eq.
  eapply splits_cons.
  - eapply IH; [done|by apply words_tl|done| |exact E0]. apply (splits_shiftr _ 0 1); lia.
  - rewrite val_cons, pw_S, Ev, Ey. ring.
Qed.

(** ** Numbers with a sign: digits and a flag for the weight above them *)

Definition is_flag (neg : Z) : Prop := neg = 0 \/ neg = 1.

Definition sval (c : list Z) (neg : Z) : Z := val c - neg * pw (length c).

Lemma flag_bit A : 0 <= A <= 1 -> Z.land A 1 = A.
Proof. intros. assert (A = 0 \/ A = 1) as [-> | ->] by lia; done. Qed.

(** All the cases of the flags; [P] is the weight of a flag. *)
Ltac sign_cases P :=
  unfold new_neg, is_flag in *;
  repeat match goal with Hf : _ = 0 \/ _ = 1 |- _ => destruct Hf as [-> | ->] end;
  match goal with
  | |- context [(- P <=? ?x) && (?x <? P)] =>
      destruct (Z.leb_spec (- P) x), (Z.ltb_spec x P)
  end;
  cbn;
  repeat match goal with
  | |- context [Z.land ?x 1] => let y := eval vm_compute in (Z.land x 1) in change (Z.land x 1) with y
  end;
  repeat split; intros; first [done | lia].

(** The difference is exact and its flag is right when it fits. *)
Lemma bn_signed_sub_spec c c_neg a a_neg :
  words c -> words a -> (length a <= length c)%nat -> is_flag c_neg -> is_flag a_neg ->
  let d := sval c c_neg - (val a - a_neg * pw (length c)) in
  let '(r, neg, carry) := bn_signed_sub c c_neg a a_neg in
  length r = length c /\ words r /\ is_flag neg
  /\ carry = negb ((- pw (length c) <=? d) && (d <? pw (length c)))
  /\ (carry = false -> sval r neg = d).
Proof.
  intros Hc Ha Hl Hcn Han d. unfold bn_signed_sub.
  destruct (bn_signed_sub_loop c a 1) as [r A] eqn:E.
  pose proof (bn_signed_sub_loop_spec c a 1 r A Hc Ha Hl ltac:(lia) E) as Hs.
  replace (val c + (pw (length c) - 1 - val a) + 1) with (val c - val a + pw (length c)) in Hs by ring.
  destruct (splits_mod _ _ _ _ Hs) as [_ HA]. destruct Hs as (Hlr & Hw & Hv).
  pose proof (val_bound c Hc). pose proof (val_bound a Ha). pose proof (pw_le _ _ Hl).
  pose proof (val_bound r Hw) as Hr. rewrite Hlr in Hr.
  assert (A = 0 \/ A = 1) as HA01 by nia.
  rewrite flag_bit by lia. unfold d, sval. rewrite Hlr. split; [done|]. split; [done|].
  sign_cases (pw (length c)).
Qed.

Lemma bn_signed_add_spec c c_neg a a_neg :
  words c -> words a -> (length a <= length c)%nat -> is_flag c_neg -> is_flag a_neg ->
  let d := sval c c_neg + (val a - a_neg * pw (length c)) in
  let '(r, neg, carry) := bn_signed_add c c_neg a a_neg in
  length r = length c /\ words r /\ is_flag neg
  /\ carry = negb ((- pw (length c) <=? d) && (d <? pw (length c)))
  /\ (carry = false -> sval r neg = d).
Proof.
  intros Hc Ha Hl Hcn Han d. unfold bn_signed_add.
  destruct (bn_add_spec c a Hc Ha Hl) as [(Hlr & Hw & Hv) HA].
  destruct (bn_add c a) as [r A] eqn:E. cbn [fst snd] in *.
  pose proof (val_bound c Hc). pose proof (val_bound a Ha). pose proof (pw_le _ _ Hl).
  pose proof (val_bound r Hw) as Hr. rewrite Hlr in Hr.
  assert (A = 0 \/ A = 1) as HA01 by (destruct (val c + val a <? pw (length c)); lia).
  unfold d, sval. rewrite Hlr. split; [done|]. split; [done|].
  sign_cases (pw (length c)).
Qed.

(** ** Shifts by a bit *)

Lemma lor_add a b n : 0 <= n -> 0 <= b < 2 ^ n -> Z.lor (a * 2 ^ n) b = a * 2 ^ n + b.
Proof.
  intros Hn Hb. assert (Z.land (a * 2 ^ n) b = 0) as E.
  2: { by rewrite Z.add_nocarry_lxor, Z.lxor_lor. }
  apply Z.bits_inj'. intros i Hi.
  rewrite Z.land_spec, Z.bits_0. destruct (decide (i < n)).
  - rewrite Z.mul_pow2_bits_low by lia. done.
  - rewrite <- (Z.mod_small b (2 ^ n)), Z.mod_pow2_bits_high by lia. apply andb_false_r.
Qed.

Lemma bn_lshift_loop_spec r : forall carry r' c,
  words r -> 0 <= carry <= 1 -> bn_lshift_loop r carry = (r', c) ->
  splits r' c (length r) (2 * val r + carry).
Proof.
  induction r as [|x r IH]; intros carry r' c Hr Hc E; cbn [bn_lshift_loop] in E.
  { simplify_eq. rewrite val_nil. apply splits_nil. }
  apply words_cons in Hr as [Hx Hr]. destruct (bn_lshift_loop r _) as [r0 c0] eqn:E0. simplify_eq.
  assert (Z.shiftr x 31 = Z.shiftr (2 * x + carry) 32) as Es.
  { rewrite !Z.shiftr_div_pow2 by lia. change (2 ^ 32) with (2 * 2 ^ 31).
    rewrite <- Z.div_div by lia. f_equal. apply (Z.div_unique_pos _ _ _ carry); lia. }
  assert (Z.lor (u32 (Z.shiftl x 1)) carry = u32 (2 * x + carry)) as ->.
  { rewrite Z.shiftl_mul_pow2 by lia. unfold u32, uN. change (2 ^ 32) with (2 ^ 31 * 2 ^ 1).
    rewrite Z.mul_mod_distr_r by lia. rewrite lor_add by lia.
    pose proof (Z.mod_pos_bound x (2 ^ 31) ltac:(lia)).
    apply (Z.mod_unique_pos _ _ (x / 2 ^ 31)); [lia|].
    pose proof (Z.div_mod x (2 ^ 31) ltac:(lia)). lia. }
  cbn [length]. eapply splits_cons.
  - eapply IH; [done| |exact E0]. apply (splits_shiftr _ 0 1); lia.
  - rewrite Es, val_cons. ring.
Qed.

Lemma bn_lshift_spec r :
  words r -> splits (fst (bn_lshift r)) (snd (bn_lshift r)) (length r) (2 * val r).
Proof.
  intros Hr. unfold bn_lshift. destruct (bn_lshift_loop r 0) as [r' c] eqn:E.
  rewrite <- (Z.add_0_r (2 * val r)). by eapply bn_lshift_loop_spec; [| |exact E].
Qed.

Lemma bn_rshift_loop_spec r h :
  words r -> 0 <= h <= 1 ->
  words (bn_rshift_loop r h) /\ length (bn_rshift_loop r h) = length r
  /\ (r <> [] -> val (bn_rshift_loop r h) = (val r + pw (length r) * h) / 2).
Proof.
  intros Hr Hh. induction r as [|x r IH]; cbn [bn_rshift_loop]; [done|].
  apply words_cons in Hr as [Hx Hr]. destruct (IH Hr) as (Hw & Hl & Hv).
  set (y := match r with y :: _ => y | [] => h end).
  assert (exists hi, (val r + pw (length r) * h) = y + 2 * hi /\ 0 <= y < 2 ^ 32
          /\ (val r + pw (length r) * h) / 2 = y / 2 + hi /\ (r <> [] -> exists k, hi = 2 ^ 31 * k)
          /\ (r = [] -> hi = 0 /\ y = h)) as (hi & E1 & Hy & E2 & E3 & E4).
  { unfold y. destruct r as [|z r].
    - exists 0. cbn [length]. rewrite val_nil, pw_0. replace (0 + 1 * h) with h by lia. repeat split; try lia; done.
    - apply words_cons in Hr as [Hz Hr]. exists (2 ^ 31 * (val r + pw (length r) * h)). cbn [length].
      rewrite val_cons, pw_S.
      replace (z + 2 ^ 32 * val r + 2 ^ 32 * pw (length r) * h)
        with (z + 2 ^ 31 * (val r + pw (length r) * h) * 2) by ring.
      rewrite Z.div_add by lia. split_and!; [lia|lia|lia|lia| |done]. by eexists. }
  assert (Z.lor (Z.shiftr x 1) (u32 (Z.shiftl y 31)) = x / 2 + 2 ^ 31 * (y mod 2)) as Ew.
  { rewrite Z.lor_comm, Z.shiftl_mul_pow2, Z.shiftr_div_pow2 by lia. unfold u32, uN.
    change (2 ^ 32) with (2 ^ 1 * 2 ^ 31). rewrite Z.mul_mod_distr_r by lia.
    change (2 ^ 1) with 2. rewrite lor_add; [lia|lia|].
    split; [apply Z.div_pos; lia|apply Z.div_lt_upper_bound; lia]. }
  assert (0 <= x / 2 < 2 ^ 31) by (split; [apply Z.div_pos; lia|apply Z.div_lt_upper_bound; lia]).
  pose proof (Z.mod_pos_bound y 2 ltac:(lia)).
  rewrite Ew. split; [apply words_cons; split; [lia|done]|]. split; [cbn [length]; lia|]. intros _.
  rewrite !val_cons. cbn [length]. rewrite pw_S.
  replace (x + 2 ^ 32 * val r + 2 ^ 32 * pw (length r) * h)
    with (x + 2 ^ 31 * (y + 2 * hi) * 2) by (rewrite <- E1; ring).
  rewrite Z.div_add by lia. pose proof (Z.div_mod y 2 ltac:(lia)).
  destruct (decide (r = [])) as [->|Hne].
  - destruct (E4 eq_refl) as [-> ->]. cbn [bn_rshift_loop]. rewrite val_nil, Z.mod_small by lia. lia.
  - rewrite (Hv Hne), E2. lia.
Qed.

(** Without a sign: half of the number and of its carry. *)
Lemma bn_rshift_spec r carry :
  words r -> is_flag carry -> r <> [] ->
  words (bn_rshift r carry 0) /\ length (bn_rshift r carry 0) = length r
  /\ val (bn_rshift r carry 0) = (val r + pw (length r) * carry) / 2.
Proof.
  intros Hr Hc Hne. unfold bn_rshift. rewrite andb_false_r, andb_false_r. cbn [orb negb nz Z.eqb].
  replace (b2z (nz carry && true)) with carry by (destruct Hc as [-> | ->]; done).
  destruct (bn_rshift_loop_spec r carry Hr) as (Hw & Hl & Hv); [destruct Hc; lia|]. auto.
Qed.

(** ** Comparisons *)

Lemma bn_top_spec a n : words a -> bn_top a n = nz (val (drop n a)).
Proof.
  intros Ha. apply (words_drop n) in Ha. pose proof (is_zero_spec (drop n a) Ha) as Hz.
  unfold p256_is_zero in Hz. unfold bn_top. rewrite <- nz_false in Hz. rewrite negb_true_iff in Hz.
  destruct (nz (fold_left _ _ _)), (nz (val (drop n a))); destruct Hz; auto. symmetry. auto.
Qed.

Lemma val_take_S a i :
  (i < length a)%nat -> val (take (S i) a) = val (take i a) + pw i * BN_DIGIT a i.
Proof.
  intros Hi. unfold BN_DIGIT.
  destruct (nth_lookup_or_length a i 0) as [Hl|]; [|lia].
  rewrite (take_S_r _ _ _ Hl), val_app, length_take, Nat.min_l by lia.
  rewrite val_cons, val_nil. lia.
Qed.

Lemma take_bound a i : words a -> 0 <= val (take i a) < pw i.
Proof.
  intros Ha. pose proof (val_bound _ (words_take i a Ha)) as Hb. rewrite length_take in Hb.
  pose proof (pw_le (i `min` length a) i ltac:(lia)). lia.
Qed.

Lemma bn_gte_from_spec a b i :
  words a -> words b -> (i < length a)%nat -> (i < length b)%nat ->
  bn_gte_from a b i = (val (take (S i) b) <=? val (take (S i) a)).
Proof.
  intros Ha Hb. induction i as [|i IH]; intros Hia Hib; cbn [bn_gte_from].
  - rewrite !val_take_S by done. rewrite !take_0, val_nil, pw_0. by rewrite !Z.mul_1_l, !Z.add_0_l.
  - rewrite (val_take_S a (S i)), (val_take_S b (S i)) by done.
    pose proof (take_bound a (S i) Ha). pose proof (take_bound b (S i) Hb).
    destruct (Z.eqb_spec (BN_DIGIT a (S i)) (BN_DIGIT b (S i))) as [->|Hne].
    + rewrite IH by lia. apply eq_true_iff_eq. rewrite !Z.leb_le. lia.
    + apply eq_true_iff_eq. rewrite !Z.leb_le. split; intros; nia.
Qed.

(** The comparison of numbers of any sizes. *)
Lemma bn_gte_spec a b :
  words a -> words b -> a <> [] -> b <> [] -> bn_gte a b = (val b <=? val a).
Proof.
  intros Ha Hb Hna Hnb. unfold bn_gte. rewrite !bn_top_spec by done.
  set (k := (length a `min` length b)%nat).
  assert (0 < k)%nat as Hk by (destruct a, b; cbn in *; done || lia).
  pose proof (val_bound a Ha) as Ra. pose proof (val_bound b Hb) as Rb.
  destruct (nz (val (drop (length b) a))) eqn:Ta.
  { rewrite nz_true in Ta. symmetry. apply Z.leb_le.
    destruct (decide (length b <= length a)%nat);
      [|rewrite drop_ge, val_nil in Ta by lia; done].
    rewrite (val_take_drop (length b) a) by done. pose proof (take_bound a (length b) Ha).
    pose proof (val_bound _ (words_drop (length b) a Ha)). nia. }
  destruct (nz (val (drop (length a) b))) eqn:Tb.
  { rewrite nz_true in Tb. symmetry. apply Z.leb_gt.
    destruct (decide (length a <= length b)%nat);
      [|rewrite drop_ge, val_nil in Tb by lia; done].
    rewrite (val_take_drop (length a) b) by done. pose proof (take_bound b (length a) Hb).
    pose proof (val_bound _ (words_drop (length a) b Hb)). nia. }
  apply nz_false in Ta, Tb. rewrite bn_gte_from_spec by (done || lia).
  replace (S (k - 1)) with k by lia.
  assert (forall c, words c -> (k <= length c)%nat -> val (drop k c) = 0 -> val c = val (take k c)) as Hc.
  { intros c _ Hl E. rewrite (val_take_drop k c) by done. lia. }
  rewrite (Hc a), (Hc b); [done|done|lia| |done|lia|].
  - destruct (decide (k = length a)) as [->|]; [done|]. rewrite drop_ge by lia. done.
  - destruct (decide (k = length b)) as [->|]; [done|]. rewrite drop_ge by lia. done.
Qed.

Lemma bn_digits_equal a b k :
  words a -> words b -> (k <= length a)%nat -> (k <= length b)%nat ->
  forallb (fun i => BN_DIGIT a i =? BN_DIGIT b i) (rev (seq 0 k)) = (val (take k a) =? val (take k b)).
Proof.
  intros Ha Hb Hka Hkb. apply eq_true_iff_eq. rewrite forallb_forall, Z.eqb_eq.
  setoid_rewrite <- in_rev. setoid_rewrite in_seq. setoid_rewrite Z.eqb_eq. split.
  - intros Hd. induction k as [|k IH]; [by rewrite !take_0|].
    rewrite !val_take_S by lia. rewrite IH by (lia || intros; apply Hd; lia). rewrite Hd by lia. done.
  - intros Ev i Hi. assert (take k a = take k b) as Et.
    { apply val_inj; auto with bn. rewrite !length_take. lia. }
    unfold BN_DIGIT. rewrite !nth_lookup, <- (lookup_take_lt a k i), Et, lookup_take_lt by lia. done.
Qed.

Lemma bn_eq_spec a b : words a -> words b -> bn_eq a b = (val a =? val b).
Proof.
  intros Ha Hb. unfold bn_eq. rewrite !bn_top_spec by done.
  set (k := (length a `min` length b)%nat).
  pose proof (val_take_drop k a ltac:(lia)) as Ea. pose proof (val_take_drop k b ltac:(lia)) as Eb.
  pose proof (take_bound a k Ha). pose proof (take_bound b k Hb).
  pose proof (val_bound _ (words_drop k a Ha)). pose proof (val_bound _ (words_drop k b Hb)).
  assert (drop (length b) a = drop k a /\ (drop k a = [] \/ drop k b = [])
          /\ drop (length a) b = drop k b) as (-> & Hk & ->).
  { unfold k. destruct (Nat.min_spec (length a) (length b)) as [[? ->]|[? ->]];
      rewrite ?(drop_ge a (length a)), ?(drop_ge b (length b)), ?(drop_ge a (length b)),
        ?(drop_ge b (length a)) by lia; auto. }
  destruct (nz (val (drop k a))) eqn:Ta.
  { rewrite nz_true in Ta. symmetry. apply Z.eqb_neq. destruct Hk as [Hk|Hk]; rewrite Hk, val_nil in *; nia. }
  destruct (nz (val (drop k b))) eqn:Tb.
  { rewrite nz_true in Tb. symmetry. apply Z.eqb_neq. destruct Hk as [Hk|Hk]; rewrite Hk, val_nil in *; nia. }
  apply nz_false in Ta, Tb. rewrite Ta, Tb, Z.mul_0_r, Z.add_0_r in *. rewrite bn_digits_equal by (done || lia).
  by rewrite Ea, Eb.
Qed.

(** ** Bits *)

Lemma val_bit a i : words a -> 0 <= i -> Z.testbit (val a) i = Z.testbit (BN_DIGIT a (Z.to_nat (i / 32))) (i mod 32).
Proof.
  unfold BN_DIGIT. revert i. induction a as [|x a IH]; intros i Ha Hi.
  { rewrite val_nil. destruct (Z.to_nat (i / 32)); by rewrite !Z.bits_0. }
  apply words_cons in Ha as [Hx Ha]. rewrite val_cons, testbit_split by lia.
  destruct (Z.ltb_spec i 32).
  - rewrite Z.div_small, Z.mod_small by lia. done.
  - rewrite IH by (done || lia). replace (i - 32) with (i + (-1) * 32) by lia.
    rewrite Z.div_add, Z.mod_add by lia.
    assert (1 <= i / 32) by (apply Z.div_le_lower_bound; lia).
    replace (Z.to_nat (i / 32)) with (S (Z.to_nat (i / 32 + -1))) by lia. done.
Qed.

Lemma bn_is_bit_set_spec a n :
  words a -> bn_is_bit_set a n = b2z (Z.testbit (val a) (Z.of_nat n)).
Proof.
  intros Ha. unfold bn_is_bit_set. rewrite val_bit by (done || lia).
  change 32 with (Z.of_nat 32). rewrite <- Nat2Z.inj_div, <- Nat2Z.inj_mod, Nat2Z.id.
  destruct (Nat.leb_spec (length a) (n / 32)).
  - unfold BN_DIGIT. rewrite nth_overflow by lia. by rewrite Z.bits_0.
  - change 1 with (Z.ones 1) at 1. rewrite Z.land_ones, <- Z.bit0_mod, Z.shiftr_spec by lia.
    by rewrite Z.add_0_l.
Qed.

(** ** Products *)

Lemma bn_mul_add_loop_spec b : forall c a carry,
  words c -> words b -> 0 <= a < 2 ^ 32 -> 0 <= carry < 2 ^ 32 -> (length b <= length c)%nat ->
  exists r carry', bn_mul_add_loop c b a carry = (r ++ drop (length b) c, carry')
    /\ 0 <= carry' < 2 ^ 32 /\ splits r carry' (length b) (val (take (length b) c) + a * val b + carry).
Proof.
  induction b as [|y b IH]; intros c a carry Hc Hb Ha Hcarry Hl.
  { exists [], carry. split; [by destruct c|]. split; [done|]. cbn [length].
    rewrite take_0, val_nil. replace (0 + a * 0 + carry) with carry by ring. apply splits_nil. }
  destruct c as [|x c]; cbn [length] in Hl; [lia|]. cbn [bn_mul_add_loop length take drop].
  apply words_cons in Hc as [Hx Hc], Hb as [Hy Hb]. rewrite !val_cons.
  rewrite (u64_id (y * a)), (u64_id (x + _)), u64_id by nia.
  set (w := carry + (x + y * a)). assert (0 <= w < 2 ^ 64) as Hw by (unfold w; nia).
  destruct (IH c a (Z.shiftr w 32) Hc Hb Ha) as (r & carry' & -> & Hc' & Hs).
  { pose proof (splits_shiftr w 0 (2 ^ 32 - 1) 32). lia. }
  { lia. }
  exists (u32 w :: r), carry'. split; [done|]. split; [done|]. eapply splits_cons; [exact Hs|].
  unfold w. ring.
Qed.

Lemma bn_mul_rounds_spec b a : forall l rest i carry,
  words b -> (0 < length b)%nat -> words a -> words l -> words rest -> 0 <= carry < 2 ^ 32 ->
  length l = (i + length b - 1)%nat -> (length a < length rest)%nat ->
  exists r, bn_mul_rounds (l ++ rest) a b i carry = r ++ drop (S (length a)) rest
    /\ length r = (i + length b + length a)%nat /\ words r
    /\ val r = val l + pw (i + length b - 1) * carry + pw i * (val a * val b).
Proof.
  induction a as [|x a IH]; intros l rest i carry Hb Hlb Ha Hl Hr Hc Hll Hlr;
    (destruct rest as [|z rest]; cbn [length] in Hlr; [lia|]);
    apply words_cons in Hr as [Hz Hr]; cbn [bn_mul_rounds];
    rewrite <- Hll, insert_app_r_alt, Nat.sub_diag by lia; cbn [list_insert insert].
  - exists (l ++ [carry]). rewrite <- app_assoc. cbn [length drop app]. rewrite length_app.
    split; [done|]. split; [cbn [length]; lia|].
    rewrite words_app, val_app, val_cons, val_nil. split; [|lia].
    split; [done|]. by apply words_cons.
  - apply words_cons in Ha as [Hx Ha]. change (<[0%nat:=carry]> (z :: rest)) with (carry :: rest).
    set (c := l ++ carry :: rest).
    assert (words c) as Hwc.
    { unfold c. rewrite words_app, words_cons. done. }
    assert (length c = i + length b + length rest)%nat as Hlc.
    { unfold c. rewrite length_app. cbn [length]. lia. }
    destruct (bn_mul_add_loop_spec b (drop i c) x 0) as (r1 & c1 & E & Hc1 & Hs); auto with bn.
    { lia. }
    { rewrite length_drop. lia. }
    unfold bn_mul_add. rewrite E. rewrite drop_drop, app_assoc.
    assert (drop (i + length b) c = rest) as ->.
    { unfold c. replace (l ++ carry :: rest) with ((l ++ [carry]) ++ rest) by by rewrite <- app_assoc.
      replace (i + length b)%nat with (length (l ++ [carry])) by (rewrite length_app; cbn [length]; lia).
      apply drop_app_length. }
    destruct Hs as (Hlr1 & Hwr1 & Hv1).
    destruct (IH (take i c ++ r1) rest (S i) (u32 c1)) as (r & Er & Hr1 & Hr2 & Hr3); try done.
    { rewrite words_app. auto with bn. }
    { apply u32_range. }
    { rewrite length_app, length_take, Nat.min_l by lia. lia. }
    { cbn [length] in Hlr. lia. }
    exists r. split; [exact Er|]. split; [cbn [length] in *; lia|]. split; [done|]. rewrite Hr3.
    rewrite u32_id by done. rewrite val_app, length_take, Nat.min_l by lia.
    replace (S i + length b - 1)%nat with (i + length b)%nat by lia.
    assert (val l + pw (length l) * carry = val (take (i + length b) c)) as ->.
    { unfold c. replace (l ++ carry :: rest) with ((l ++ [carry]) ++ rest) by by rewrite <- app_assoc.
      replace (i + length b)%nat with (length (l ++ [carry])) by (rewrite length_app; cbn [length]; lia).
      rewrite take_app_length, val_app, val_cons, val_nil. lia. }
    rewrite (val_take_drop i (take (i + length b) c)) by (rewrite length_take; lia).
    rewrite take_take, Nat.min_l by lia.
    rewrite take_drop_commute in Hv1. rewrite pw_add, pw_S, val_cons in *. nia.
Qed.

(** The product in a buffer whose first digits are 0. *)
Lemma bn_mul_rounds_product c a b n :
  words a -> words b -> words c -> (0 < length b)%nat -> (length b <= S n)%nat ->
  (length a + length b <= n + length c)%nat ->
  exists r, bn_mul_rounds (zeros n ++ c) a b 0 0
      = r ++ drop (length a + length b) (zeros n ++ c)
    /\ length r = (length a + length b)%nat /\ words r /\ val r = val a * val b.
Proof.
  intros Ha Hb Hc Hlb Hbn Hl.
  replace (zeros n ++ c) with (zeros (length b - 1) ++ (zeros (n - (length b - 1)) ++ c)).
  2:{ unfold zeros. rewrite app_assoc, <- replicate_add. do 2 f_equal. lia. }
  destruct (bn_mul_rounds_spec b a (zeros (length b - 1)) (zeros (n - (length b - 1)) ++ c) 0 0)
    as (r & E & Hr & Hw & Hv); auto with bn; try lia.
  { rewrite words_app. auto with bn. }
  { rewrite length_zeros. lia. }
  { rewrite length_app, length_zeros. lia. }
  exists r. rewrite E. split.
  - f_equal. rewrite (drop_app_ge (zeros (length b - 1))) by (rewrite length_zeros; lia). rewrite length_zeros. f_equal. lia.
  - split; [lia|]. split; [done|]. rewrite Hv, val_zeros, pw_0. lia.
Qed.

Lemma DCRYPTO_bn_mul_spec c a b :
  words a -> words b -> (0 < length b)%nat -> (length a + length b <= length c)%nat ->
  words (DCRYPTO_bn_mul c a b) /\ length (DCRYPTO_bn_mul c a b) = length c
  /\ val (DCRYPTO_bn_mul c a b) = val a * val b.
Proof.
  intros Ha Hb Hlb Hl. unfold DCRYPTO_bn_mul.
  destruct (bn_mul_rounds_product [] a b (length c)) as (r & E & Hr & Hw & Hv);
    [done|done|constructor|done|lia|cbn [length]; lia|].
  rewrite app_nil_r in E. rewrite E. unfold zeros. rewrite drop_replicate, words_app, val_app.
  change (replicate _ 0) with (zeros (length c - (length a + length b))).
  rewrite val_zeros, length_app, length_zeros, Hv. split; [auto with bn|]. lia.
Qed.

(** The product, of which the first [dmax] digits are taken. *)
Lemma bn_mul_ex_spec c dmax a a_len b :
  words a -> words b -> words c -> (0 < length b)%nat -> (length b <= S dmax)%nat ->
  (a_len <= length a)%nat -> (a_len + length b <= length c)%nat -> (dmax <= length c)%nat ->
  let r := bn_mul_ex c dmax a a_len b in
  words r /\ length r = length c
  /\ val (take dmax r) = (val (take a_len a) * val b) mod pw dmax.
Proof.
  intros Ha Hb Hc Hlb Hbd Hla Hl Hd r. unfold r, bn_mul_ex, splice.
  rewrite take_0, app_nil_l, length_zeros, Nat.add_0_l.
  destruct (bn_mul_rounds_product (drop dmax c) (take a_len a) b dmax) as (r1 & E & Hr & Hw & Hv);
    auto with bn; rewrite ?length_take, ?length_drop, ?Nat.min_l by lia; [lia|].
  rewrite length_take, Nat.min_l in E, Hr by lia. rewrite E.
  assert (words (drop (a_len + length b) (zeros dmax ++ drop dmax c))) as Hwd.
  { apply words_drop, words_app. auto with bn. }
  split; [by apply words_app|]. split.
  { rewrite length_app, length_drop, length_app, length_zeros, length_drop. lia. }
  rewrite <- Hv. pose proof (val_bound r1 Hw) as Hb1. rewrite Hr in Hb1.
  destruct (decide (dmax <= a_len + length b)%nat) as [Hle|Hgt].
  - rewrite take_app_le by lia. rewrite (val_take_drop dmax r1) by lia.
    pose proof (take_bound r1 dmax Hw). pose proof (pw_pos dmax).
    rewrite Z.mul_comm, Z.mod_add, Z.mod_small by lia. done.
  - rewrite take_app_ge by lia. rewrite val_app, drop_app_le by (rewrite length_zeros; lia).
    unfold zeros at 1. rewrite drop_replicate, Hr, take_app_le by (rewrite length_replicate; lia).
    rewrite take_replicate.
    change (replicate _ 0) with (zeros ((dmax - (a_len + length b)) `min` (dmax - (a_len + length b)))).
    rewrite val_zeros. pose proof (pw_le (a_len + length b) dmax ltac:(lia)).
    rewrite Z.mod_small by lia. lia.
Qed.
