(* ===== verification/BnMont.v ===== *)
(** * Montgomery products and exponentiation of [LITE_BIGNUM] are those of the integers modulo N *)

From S2P Require Import Prelude Hash HmacSpec ShaHw ShaHwPaths Drbg FipsRand FipsHealth P256 P256Props Bn BnArith.

(** A number in the format of a modulus of [n] digits. *)
Definition bignum (n : nat) (a : list Z) : Prop := length a = n /\ words a.

Lemma bignum_bound n a : bignum n a -> 0 <= val a < pw n.
Proof. intros [<- Hw]. by apply val_bound. Qed.

Lemma bignum_zeros n : bignum n (zeros n).
Proof. split; [apply length_zeros|apply words_zeros]. Qed.

Lemma bignum_splits r A n v : splits r A n v -> bignum n r.
Proof. intros (Hl & Hw & _). done. Qed.

(** ** Products *)

Lemma bn_mont_loop_spec a d0 N : forall c b A B r A' B',
  0 <= a < 2 ^ 32 -> 0 <= d0 < 2 ^ 32 -> 0 <= A < 2 ^ 32 -> 0 <= B < 2 ^ 32 ->
  words N -> bignum (length N) c -> bignum (length N) b ->
  bn_mont_loop a d0 A B c b N = (r, A', B') ->
  0 <= A' < 2 ^ 32 /\ 0 <= B' < 2 ^ 32
  /\ splits r (A' + B') (length N) (val c + a * val b + d0 * val N + A + B).
Proof.
  induction N as [|m N IH]; intros c b A B r A' B' Ha Hd HA HB HN [Hlc Hc] [Hlb Hb] E.
  { destruct c, b; try done. cbn in E. simplify_eq. split; [done|]. split; [done|].
    rewrite !val_nil. replace (0 + a * 0 + d0 * 0 + A' + B') with (A' + B') by ring. apply splits_nil. }
  destruct c as [|x c], b as [|y b]; try done. cbn [bn_mont_loop length] in *.
  apply words_cons in Hc as [Hx Hc], Hb as [Hy Hb], HN as [Hm HN].
  rewrite (u64_id (a * y)), (u64_id (d0 * m)), (u64_id (A + _ + _)) in E by nia.
  set (t := A + a * y + x) in E. assert (0 <= t < 2 ^ 64) as Ht by (unfold t; nia).
  pose proof (u32_range t) as Hut. rewrite u64_id in E by nia.
  set (w := B + d0 * m + u32 t) in E. assert (0 <= w < 2 ^ 64) as Hw by (unfold w; nia).
  destruct (bn_mont_loop a d0 _ _ c b N) as [[r0 A0] B0] eqn:E0. simplify_eq.
  apply IH in E0 as (HA' & HB' & Hs); try done; cycle 1.
  { pose proof (splits_shiftr t 0 (2 ^ 32 - 1) 32). lia. }
  { pose proof (splits_shiftr w 0 (2 ^ 32 - 1) 32). lia. }
  split; [done|]. split; [done|]. eapply splits_cons; [exact Hs|].
  rewrite !val_cons. pose proof (split32 t). unfold w, t in *. lia.
Qed.

(** A step: some multiple of [N] is added that makes the sum a multiple of a digit; what does
    not fit is reduced by [N]. *)
Lemma bn_mont_mul_add_spec n c a b nprime N :
  bignum (S n) c -> bignum (S n) b -> bignum (S n) N -> 0 <= a < 2 ^ 32 ->
  (val N * nprime + 1) mod 2 ^ 32 = 0 ->
  let c' := bn_mont_mul_add c a b nprime N in
  bignum (S n) c' /\ exists d0 V,
    0 <= d0 < 2 ^ 32 /\ 2 ^ 32 * V = val c + a * val b + d0 * val N
    /\ ((val c' = V /\ V < pw (S n)) \/ (val c' = V - val N /\ pw (S n) <= V)).
Proof.
  intros Hc Hb HN Ha Hnp c'. pose proof (bignum_bound _ _ Hc) as Rc.
  pose proof (bignum_bound _ _ Hb) as Rb. pose proof (bignum_bound _ _ HN) as RN.
  destruct c as [|x c], b as [|y b], N as [|m N]; try (by destruct Hc, Hb, HN).
  destruct Hc as [Hlc Hc], Hb as [Hlb Hb], HN as [HlN HN]. cbn [length] in *.
  pose proof HN as HN'. apply words_cons in Hc as [Hx Hc], Hb as [Hy Hb], HN as [Hm HN].
  unfold c', bn_mont_mul_add, BN_DIGIT. cbn [nth tl]. rewrite (u64_id (a * y)) by nia.
  rewrite (u64_id (x + _)) by nia. set (t := x + a * y). assert (0 <= t < 2 ^ 64) as Ht by (unfold t; nia).
  set (d0 := u32 (u32 t * nprime)). pose proof (u32_range t) as Hut.
  assert (0 <= d0 < 2 ^ 32) as Hd0 by apply u32_range.
  rewrite (u64_id (d0 * m)), u64_id by nia. set (w := u32 t + d0 * m).
  assert (0 <= w < 2 ^ 64) as Hw by (unfold w; nia).
  assert (2 ^ 32 * Z.shiftr w 32 = w) as Ew.
  { pose proof (split32 w) as Hsw. enough (u32 w = 0) by lia. unfold w, d0, u32, uN.
    rewrite <- Z.add_mod_idemp_r, Z.mul_mod_idemp_l, Z.add_mod_idemp_r by lia.
    rewrite val_cons in Hnp.
    replace (t mod 2 ^ 32 + t mod 2 ^ 32 * nprime * m)
      with (t mod 2 ^ 32 * ((m + 2 ^ 32 * val N) * nprime + 1)
            + (- (t mod 2 ^ 32) * val N * nprime) * 2 ^ 32) by ring.
    rewrite Z.mod_add by lia. rewrite <- Z.mul_mod_idemp_r, Hnp by lia. by rewrite Z.mul_0_r. }
  destruct (bn_mont_loop a d0 _ _ c b N) as [[r A] B] eqn:E.
  apply bn_mont_loop_spec in E as (HA & HB & Hs); try done; try (split; [lia|done]); cycle 1.
  { pose proof (splits_shiftr t 0 (2 ^ 32 - 1) 32). lia. }
  { pose proof (splits_shiftr w 0 (2 ^ 32 - 1) 32). lia. }
  destruct Hs as (Hlr & Hwr & Hv). rewrite u64_id by lia.
  pose proof (split32 (A + B)) as HAB. pose proof (u32_range (A + B)) as Hu.
  set (V := val r + pw (length N) * (A + B)).
  assert (2 ^ 32 * V = val (x :: c) + a * val (y :: b) + d0 * val (m :: N)) as EV.
  { unfold V. rewrite Hv, !val_cons. pose proof (split32 t). unfold w, t in *. lia. }
  unfold splice. rewrite take_0, app_nil_l. cbn [length]. rewrite length_app. cbn [length].
  rewrite drop_ge, app_nil_r by (cbn [length]; lia).
  set (c1 := r ++ [u32 (A + B)]).
  assert (bignum (S n) c1) as [Hl1 Hw1].
  { unfold c1. split; [rewrite length_app; cbn [length]; lia|]. by apply words_snoc. }
  assert (pw (S n) = 2 ^ 32 * pw (length N)) as Epw by (rewrite <- pw_S; f_equal; lia).
  assert (V = val c1 + pw (S n) * Z.shiftr (A + B) 32) as EV1.
  { unfold V, c1. rewrite val_app, val_cons, val_nil, Hlr, Epw. lia. }
  pose proof (val_bound c1 Hw1) as R1. rewrite Hl1 in R1.
  assert (V < pw (S n) + val (m :: N)) as HVb by nia.
  destruct (nz (Z.shiftr (A + B) 32)) eqn:Hs.
  - apply nz_true in Hs.
    assert (Z.shiftr (A + B) 32 = 1) as E1.
    { pose proof (splits_shiftr (A + B) 0 1 32). lia. }
    rewrite E1 in EV1.
    destruct (bn_sub_spec c1 (m :: N)) as [(Hl2 & Hw2 & Hv2) Hbor]; [done|done|cbn [length]; lia|].
    rewrite (proj2 (Z.leb_gt _ _)) in Hbor by lia. rewrite Hbor, Hl1 in Hv2.
    split; [split; [lia|done]|]. exists d0, V. split; [done|]. split; [done|]. right. lia.
  - apply nz_false in Hs. rewrite Hs in EV1. split; [done|]. exists d0, V. split; [done|].
    split; [done|]. left. lia.
Qed.

(** The number a factor stands for, by its first [i] digits. *)
Definition factor (a : option (list Z)) (i : nat) : Z :=
  match a with
  | Some a => val (take i a)
  | None => if (i =? 0)%nat then 0 else 1
  end.

Definition factor_ok (n : nat) (a : option (list Z)) : Prop :=
  match a with
  | Some a => bignum n a
  | None => True
  end.

Lemma factor_S n a i :
  factor_ok n a -> (i < n)%nat -> factor a (S i) = factor a i + pw i * bn_mont_digit a i.
Proof.
  destruct a as [a|]; cbn.
  - intros [Hl Hw] Hi. apply val_take_S. lia.
  - intros _ _. destruct i; cbn; [by rewrite pw_0|lia].
Qed.

Lemma factor_digit n a i : factor_ok n a -> 0 <= bn_mont_digit a i < 2 ^ 32.
Proof.
  destruct a as [a|]; cbn; [intros [Hl Hw]; by apply words_nth|]. intros _. destruct (i =? 0)%nat; lia.
Qed.

(** The rounds: [c * 2 ^ (32 i)] is the product by the first [i] digits, up to multiples of [N];
    the product by 1 never needs a reduction. *)
Lemma bn_mont_rounds_spec n a b nprime N r : forall i c,
  factor_ok (S n) a -> bignum (S n) b -> bignum (S n) N ->
  (val N * nprime + 1) mod 2 ^ 32 = 0 -> (i + r = S n)%nat -> bignum (S n) c ->
  (exists k, pw i * val c = factor a i * val b + k * val N /\ (a = None -> 0 <= k < pw i)) ->
  let c' := bn_mont_rounds a b nprime N i r c in
  bignum (S n) c'
  /\ exists k, pw (S n) * val c' = factor a (S n) * val b + k * val N
     /\ (a = None -> 0 <= k < pw (S n)).
Proof.
  induction r as [|r IH]; intros i c Ha Hb HN Hnp Hi Hc Hk; cbn [bn_mont_rounds].
  { replace (S n) with i by lia. split; [by replace i with (S n) by lia|done]. }
  destruct Hk as (k & Hk & Hk0).
  destruct (bn_mont_mul_add_spec n c (bn_mont_digit a i) b nprime N Hc Hb HN) as
    (Hc' & d0 & V & Hd0 & EV & Hcase); [by eapply factor_digit|done|].
  apply IH; try done; [lia|].
  pose proof (factor_S (S n) a i Ha ltac:(lia)) as EF. pose proof (pw_pos i) as Hpi.
  pose proof (bignum_bound _ _ HN) as RN. pose proof (bignum_bound _ _ Hb) as Rb.
  pose proof (bignum_bound _ _ Hc) as Rc.
  destruct Hcase as [[Ec Hlt]|[Ec Hge]].
  - exists (k + pw i * d0). rewrite Ec, EF, pw_S. split; [nia|]. intros ->. specialize (Hk0 eq_refl). nia.
  - exists (k + pw i * d0 - pw (S i)). rewrite Ec, EF, pw_S. split; [nia|]. intros ->.
    exfalso. specialize (Hk0 eq_refl). cbn in EV. destruct (i =? 0)%nat eqn:Ei.
    + apply Nat.eqb_eq in Ei as ->. rewrite pw_0 in *. cbn [factor] in Hk. cbn in Hk. nia.
    + nia.
Qed.

Lemma bn_mont_mul_spec n c a b nprime N :
  factor_ok (S n) a -> bignum (S n) b -> bignum (S n) N -> length c = S n ->
  (val N * nprime + 1) mod 2 ^ 32 = 0 ->
  let c' := bn_mont_mul c a b nprime N in
  bignum (S n) c'
  /\ (val N | pw (S n) * val c' - factor a (S n) * val b)
  /\ (a = None -> val c' <= val N).
Proof.
  intros Ha Hb HN Hc Hnp c'. pose proof (bignum_bound _ _ HN) as RN. pose proof (bignum_bound _ _ Hb) as Rb.
  assert (splice 0 (zeros (length N)) c = zeros (S n)) as Ez.
  { destruct HN as [-> _]. unfold splice. rewrite take_0, length_zeros, drop_ge, app_nil_r by lia. done. }
  destruct (bn_mont_rounds_spec n a b nprime N (length N) 0 (splice 0 (zeros (length N)) c))
    as (Hc' & k & Ek & Hk); try done.
  { by destruct HN as [-> _]. }
  { rewrite Ez. apply bignum_zeros. }
  { exists 0. rewrite Ez, val_zeros, pw_0. split; [|lia]. destruct a; cbn [factor]; [rewrite take_0, val_nil|cbn]; lia. }
  change (bn_mont_rounds a b nprime N 0 (length N) (splice 0 (zeros (length N)) c)) with c' in *.
  split; [done|]. split; [exists k; lia|]. intros ->. specialize (Hk eq_refl). cbn in Ek. nia.
Qed.

(** ** The inverse of the modulus *)

Lemma lift_spec n0 x k :
  0 <= k <= 16 -> (n0 * x - 1) mod 2 ^ k = 0 -> (n0 * bn_lift n0 x - 1) mod 2 ^ (2 * k) = 0.
Proof.
  intros Hk H. apply Z.mod_divide in H as [t Ht]; [|lia]. apply Z.mod_divide; [lia|].
  unfold bn_lift, u32, uN.
  pose proof (Z.div_mod (n0 * x) (2 ^ 32) ltac:(lia)) as E1.
  set (q1 := n0 * x / 2 ^ 32) in *. replace ((n0 * x) mod 2 ^ 32) with (n0 * x - q1 * 2 ^ 32) by lia.
  pose proof (Z.div_mod (2 - (n0 * x - q1 * 2 ^ 32)) (2 ^ 32) ltac:(lia)) as E2.
  set (q2 := (2 - (n0 * x - q1 * 2 ^ 32)) / 2 ^ 32) in *.
  set (m := (2 - (n0 * x - q1 * 2 ^ 32)) mod 2 ^ 32) in *.
  pose proof (Z.div_mod (x * m) (2 ^ 32) ltac:(lia)) as E3. set (q3 := x * m / 2 ^ 32) in *.
  replace ((x * m) mod 2 ^ 32) with (x * m - q3 * 2 ^ 32) by lia.
  replace m with (2 - n0 * x + (q1 - q2) * 2 ^ 32) by lia.
  replace (2 ^ 32) with (2 ^ (2 * k) * 2 ^ (32 - 2 * k)) by (rewrite <- Z.pow_add_r by lia; f_equal; lia).
  replace (n0 * x) with (1 + t * 2 ^ k) by lia.
  exists (- (t * t) + (1 + t * 2 ^ k) * (q1 - q2) * 2 ^ (32 - 2 * k) - n0 * q3 * 2 ^ (32 - 2 * k)).
  replace (2 ^ (2 * k)) with (2 ^ k * 2 ^ k) by (rewrite <- Z.pow_add_r by lia; f_equal; lia).
  set (K := 2 ^ k). set (L := 2 ^ (32 - 2 * k)).
  replace (n0 * (x * (2 - (1 + t * K) + (q1 - q2) * (K * K * L)) - q3 * (K * K * L)))
    with ((n0 * x) * (2 - (1 + t * K) + (q1 - q2) * (K * K * L)) - n0 * q3 * (K * K * L)) by ring.
  replace (n0 * x) with (1 + t * K) by (unfold K; lia). ring.
Qed.

Lemma bn_compute_nprime_spec n0 :
  Z.odd n0 = true -> (n0 * bn_compute_nprime n0 + 1) mod 2 ^ 32 = 0.
Proof.
  intros Hodd. unfold bn_compute_nprime. set (x := Nat.iter 5 (bn_lift n0) 1).
  assert ((n0 * x - 1) mod 2 ^ 32 = 0 /\ 0 <= x < 2 ^ 32) as [Hx Hr].
  { split; [|apply u32_range]. unfold x. cbn [Nat.iter nat_rect].
    change 32 with (2 * 16). apply lift_spec; [lia|]. change 16 with (2 * 8). apply lift_spec; [lia|].
    change 8 with (2 * 4). apply lift_spec; [lia|]. change 4 with (2 * 2). apply lift_spec; [lia|].
    change 2 with (2 * 1) at 2. apply lift_spec; [lia|].
    apply Z.odd_spec in Hodd as [q ->]. replace ((2 * q + 1) * 1 - 1) with (q * 2 ^ 1) by lia.
    apply Z.mod_mul. lia. }
  rewrite not32_val by done. apply Z.mod_divide in Hx as [t Ht]; [|lia]. apply Z.mod_divide; [lia|].
  unfold u32, uN. replace (2 ^ 32 - 1 - x + 1) with (- x + 1 * 2 ^ 32) by lia.
  rewrite Z.mod_add by lia. pose proof (Z.div_mod (- x) (2 ^ 32) ltac:(lia)) as E.
  exists (- t - n0 * (- x / 2 ^ 32)). nia.
Qed.

(** ** The square of the radix *)

Section Fips.
Context `{FipsHw}.

Lemma bn_double_spec n RR N (s : fips) :
  bignum (S n) RR -> bignum (S n) N -> val RR < val N ->
  exists RR', bn_double RR N s = (RR', s) /\ bignum (S n) RR' /\ val RR' = (2 * val RR) mod val N.
Proof.
  intros HR HN Hlt. pose proof (bignum_bound _ _ HR) as BR. pose proof (bignum_bound _ _ HN) as BN.
  unfold bn_double. destruct HR as [HlR HwR]. pose proof HN as [HlN HwN].
  pose proof (bn_lshift_spec RR HwR) as Hs. destruct (bn_lshift RR) as [R1 carry] eqn:E1. cbn [fst snd] in Hs.
  rewrite HlR in Hs. pose proof (bignum_splits _ _ _ _ Hs) as [Hl1 Hw1].
  pose proof (val_bound R1 Hw1) as B1. rewrite Hl1 in B1. destruct Hs as (_ & _ & Hv).
  assert (exists R2, (if nz carry then
      let '(RR, borrow) := bn_sub R1 N in
      (if borrow =? -1 then ret tt else fips_throw_err FIPS_FATAL_BN_MATH) ;;; ret RR
    else ret R1) s = (R2, s) /\ bignum (S n) R2 /\ val R2 = 2 * val RR - (if nz carry then val N else 0))
    as (R2 & E2 & [Hl2 Hw2] & Hv2).
  { destruct (nz carry) eqn:Hc.
    - apply nz_true in Hc. assert (carry = 1) as -> by nia.
      destruct (bn_sub_spec R1 N Hw1 HwN ltac:(lia)) as [Hs Hb]. destruct (bn_sub R1 N) as [R2 bor].
      cbn [fst snd] in *. rewrite (proj2 (Z.leb_gt _ _)) in Hb by lia. subst bor. rewrite Hl1 in Hs.
      exists R2. split; [done|]. split; [by eapply bignum_splits|]. destruct Hs as (_ & _ & Hv2). lia.
    - apply nz_false in Hc as ->. exists R1. split; [done|]. split; [done|]. lia. }
  rewrite (bind_run _ _ s R2 s E2). rewrite bn_gte_spec; [|done|done|by destruct R2|by destruct N].
  assert (0 <= val R2 < 2 * val N /\ (exists k, 2 * val RR = val R2 + k * val N)) as [B2 [k Ek]].
  { pose proof (val_bound R2 Hw2) as B2. rewrite Hl2 in B2. destruct (nz carry); split; try lia.
    - exists 1. lia.
    - exists 0. lia. }
  destruct (Z.leb_spec (val N) (val R2)).
  - destruct (bn_sub_val R2 N Hw2 HwN) as (Hw3 & Hl3 & Hv3); [lia|done|].
    eexists. split; [done|]. split; [split; [lia|done]|]. rewrite Hv3, Ek, Z.mod_add by lia.
    apply (Z.mod_unique_pos _ _ 1); lia.
  - eexists. split; [done|]. split; [done|]. rewrite Ek, Z.mod_add, Z.mod_small by lia. done.
Qed.

Lemma bn_double_times_spec n N (s : fips) m : forall RR,
  bignum (S n) RR -> bignum (S n) N -> val RR < val N ->
  exists RR', bn_double_times m RR N s = (RR', s) /\ bignum (S n) RR'
    /\ val RR' = (2 ^ Z.of_nat m * val RR) mod val N.
Proof.
  induction m as [|m IH]; intros RR HR HN Hlt; cbn [bn_double_times].
  - exists RR. split; [done|]. split; [done|]. pose proof (bignum_bound _ _ HR). rewrite Z.mod_small; lia.
  - destruct (bn_double_spec n RR N s HR HN Hlt) as (R1 & E1 & HR1 & V1).
    pose proof (bignum_bound _ _ HR). pose proof (Z.mod_pos_bound (2 * val RR) (val N) ltac:(lia)).
    rewrite (bind_run _ _ s R1 s E1). destruct (IH R1 HR1 HN ltac:(lia)) as (R2 & E2 & HR2 & V2).
    exists R2. split; [done|]. split; [done|]. rewrite V2, V1, Z.mul_mod_idemp_r by lia. f_equal.
    rewrite Nat2Z.inj_succ, Z.pow_succ_r by lia. ring.
Qed.

Lemma pw_bits n : 2 ^ Z.of_nat (n * 32) = pw n.
Proof. unfold pw. f_equal. lia. Qed.

(** A modulus with its top bit set: [2 ^ (32 n) - N] is below [N]. *)
Lemma bn_compute_RR_spec n N (s : fips) :
  bignum (S n) N -> Z.odd (val N) = true -> pw (S n) < 2 * val N ->
  exists RR, bn_compute_RR (zeros (S n)) N s = (RR, s) /\ bignum (S n) RR
    /\ (val N | val RR - pw (S n) * pw (S n)).
Proof.
  intros HN Hodd Htop. pose proof (bignum_bound _ _ HN) as BN. pose proof HN as [HlN HwN].
  unfold bn_compute_RR.
  destruct (bn_sub_spec (zeros (S n)) N (words_zeros _) HwN) as [Hs Hb]; [rewrite length_zeros; lia|].
  rewrite length_zeros, val_zeros in *. rewrite (proj2 (Z.leb_gt _ _)) in Hb by lia. rewrite Hb in Hs.
  pose proof (bignum_splits _ _ _ _ Hs) as H0. destruct Hs as (_ & _ & Hv).
  destruct (bn_double_times_spec n N s (length N * 32) _ H0 HN) as (RR & E & HR & HV); [lia|].
  exists RR. split; [exact E|]. split; [done|]. rewrite HV, HlN, pw_bits.
  pose proof (Z.div_mod (pw (S n) * val (fst (bn_sub (zeros (S n)) N))) (val N) ltac:(lia)) as Ed.
  exists (- (pw (S n) * val (fst (bn_sub (zeros (S n)) N)) / val N) - pw (S n)). nia.
Qed.

(** ** Exponentiation *)

(** [c] is [x] in Montgomery form. *)
Definition in_form (n : nat) (N : list Z) (c : list Z) (x : Z) : Prop :=
  bignum n c /\ (val N | val c - x * pw n).

Lemma pw_coprime n m : Z.odd m = true -> Z.gcd m (pw n) = 1.
Proof.
  intros Hodd. apply Z.coprime_pow_r; [lia|]. apply Z.odd_spec in Hodd as [q ->].
  replace (2 * q + 1) with (1 + q * 2) by ring. unfold Z.coprime.
  by rewrite Z.gcd_comm, Z.gcd_add_mult_diag_r.
Qed.

Lemma form_cancel n m x : Z.odd m = true -> (m | pw n * x) -> (m | x).
Proof. intros Hodd Hd. eapply Z.gauss; [exact Hd|]. by apply pw_coprime. Qed.

Lemma in_form_mul n c a x b y nprime N :
  Z.odd (val N) = true -> bignum (S n) N -> (val N * nprime + 1) mod 2 ^ 32 = 0 -> length c = S n ->
  in_form (S n) N a x -> in_form (S n) N b y ->
  in_form (S n) N (bn_mont_mul c (Some a) b nprime N) (x * y).
Proof.
  intros Hodd HN Hnp Hl [Ha [ka Hka]] [Hb [kb Hkb]].
  destruct (bn_mont_mul_spec n c (Some a) b nprime N Ha Hb HN Hl Hnp) as (Hc & [k Hk] & _).
  split; [done|]. apply (form_cancel (S n)); [done|]. cbn [factor] in Hk.
  rewrite take_ge in Hk by (destruct Ha; lia).
  exists (k + ka * val b + x * pw (S n) * kb). nia.
Qed.

Lemma mont_one_spec n c b x nprime N :
  Z.odd (val N) = true -> bignum (S n) N -> (val N * nprime + 1) mod 2 ^ 32 = 0 -> length c = S n ->
  in_form (S n) N b x ->
  let c' := bn_mont_mul c None b nprime N in
  bignum (S n) c' /\ (val N | val c' - x) /\ val c' <= val N.
Proof.
  intros Hodd HN Hnp Hl [Hb [kb Hkb]] c'.
  destruct (bn_mont_mul_spec n c None b nprime N I Hb HN Hl Hnp) as (Hc & [k Hk] & Hle).
  split; [done|]. split; [|by apply Hle]. apply (form_cancel (S n)); [done|].
  fold c' in Hk. cbn in Hk. exists (k + kb). nia.
Qed.

(** The loop squares and multiplies. *)
Lemma bn_exp_loop_spec n exp aR x nprime N i : forall output acc swapped,
  Z.odd (val N) = true -> bignum (S n) N -> (val N * nprime + 1) mod 2 ^ 32 = 0 ->
  words exp -> in_form (S n) N aR x -> length output = S n ->
  in_form (S n) N acc (x ^ (val exp / 2 ^ Z.of_nat i)) ->
  let '(output', acc', _) := bn_exp_loop i exp aR nprime N output acc swapped in
  length output' = S n /\ in_form (S n) N acc' (x ^ val exp).
Proof.
  induction i as [|i IH]; intros output acc swapped Hodd HN Hnp He HaR Hl Hacc; cbn [bn_exp_loop].
  { split; [done|]. by rewrite Z.div_1_r in Hacc. }
  set (e := val exp / 2 ^ Z.of_nat (S i)) in *.
  pose proof (in_form_mul n output acc _ acc _ nprime N Hodd HN Hnp Hl Hacc Hacc) as Hsq.
  assert (0 <= e) as He0.
  { apply Z.div_pos; [by apply val_bound|]. apply Z.pow_pos_nonneg; lia. }
  assert (val exp / 2 ^ Z.of_nat i = 2 * e + b2z (Z.testbit (val exp) (Z.of_nat i))) as Ee.
  { unfold e. rewrite Nat2Z.inj_succ, Z.pow_succ_r, (Z.mul_comm 2 (2 ^ Z.of_nat i)), <- Z.div_div by lia.
    pose proof (Z.div_mod (val exp / 2 ^ Z.of_nat i) 2 ltac:(lia)) as Hd.
    pose proof (Z.testbit_spec' (val exp) (Z.of_nat i) ltac:(lia)) as Ht.
    destruct (Z.testbit (val exp) (Z.of_nat i)); cbn [b2z Z.b2z] in *; lia. }
  rewrite bn_is_bit_set_spec by done. destruct (Z.testbit (val exp) (Z.of_nat i)) eqn:Hbit; cbn [b2z nz] in *.
  - change (nz 1) with true. cbn [negb].
    pose proof (in_form_mul n acc _ _ aR _ nprime N Hodd HN Hnp
                  ltac:(by destruct Hacc as [[? ?] _]) Hsq HaR) as Hmul.
    apply IH; try done; [by destruct Hsq as [[? ?] _]|].
    rewrite Ee, Z.pow_add_r, Z.pow_1_r by lia. rewrite Z.mul_comm with (n := 2), Z.pow_mul_r, Z.pow_2_r by lia. done.
  - change (nz 0) with false. cbn [negb].
    apply IH; try done; [by destruct Hacc as [[? ?] _]|].
    rewrite Ee, Z.add_0_r. rewrite Z.mul_comm with (n := 2), Z.pow_mul_r, Z.pow_2_r by lia. done.
Qed.

Lemma form_of_RR n N RR c a b x nprime :
  Z.odd (val N) = true -> bignum (S n) N -> (val N * nprime + 1) mod 2 ^ 32 = 0 -> length c = S n ->
  bignum (S n) RR -> (val N | val RR - pw (S n) * pw (S n)) -> factor_ok (S n) a ->
  factor a (S n) = x -> b = bn_mont_mul c a RR nprime N -> in_form (S n) N b x.
Proof.
  intros Hodd HN Hnp Hl HR [kr Hkr] Ha Hx ->.
  destruct (bn_mont_mul_spec n c a RR nprime N Ha HR HN Hl Hnp) as (Hc & [k Hk] & _).
  split; [done|]. apply (form_cancel (S n)); [done|]. rewrite Hx in Hk. exists (k + x * kr). nia.
Qed.

(** The last step: the number at most [N] becomes the remainder. *)
Lemma final_reduce n N c x :
  bignum (S n) N -> bignum (S n) c -> 0 < val N -> val c <= val N -> (val N | val c - x) ->
  let '(d, borrow) := bn_sub c N in
  let d := if nz borrow then fst (bn_add d N) else d in
  bignum (S n) (take (length N) d) /\ val (take (length N) d) = x mod val N.
Proof.
  intros [HlN HwN] [Hlc Hwc] Hpos Hle [k Hk].
  assert (x mod val N = val c mod val N) as ->.
  { replace x with (val c + (- k) * val N) by lia. apply Z.mod_add. lia. }
  destruct (bn_sub_spec c N Hwc HwN ltac:(lia)) as [Hs Hb]. destruct (bn_sub c N) as [d bor].
  cbn [fst snd] in *. rewrite Hlc in Hs. pose proof (bignum_splits _ _ _ _ Hs) as [Hld Hwd].
  destruct Hs as (_ & _ & Hv). pose proof (val_bound c Hwc) as Bc. pose proof (val_bound d Hwd) as Bd.
  pose proof (val_bound N HwN) as BN. rewrite Hlc, Hld, HlN in *.
  destruct (Z.leb_spec (val N) (val c)); subst bor; cbn [nz Z.eqb negb].
  - rewrite take_ge by lia. split; [done|]. replace (val c) with (val N) by lia. rewrite Z.mod_same; lia.
  - destruct (bn_add_spec d N Hwd HwN ltac:(lia)) as [Hs Hb]. rewrite Hld in Hs.
    change (nz (-1)) with true. cbn [negb].
    pose proof (bignum_splits _ _ _ _ Hs) as [Hle' Hwe]. rewrite take_ge by lia. split; [done|].
    rewrite Z.mod_small by lia.
    destruct Hs as (_ & _ & Hv'). rewrite Hb, Hld, (proj2 (Z.ltb_ge _ _)) in Hv' by lia. lia.
Qed.

Lemma topbit_bound n N :
  bignum (S n) N -> Z.odd (val N) = true -> bn_check_topbit N = 1 -> pw (S n) < 2 * val N.
Proof.
  intros [Hl Hw] Hodd Ht. unfold bn_check_topbit in Ht. rewrite Hl in Ht.
  replace (S n - 1)%nat with n in Ht by lia.
  pose proof (val_take_S N n ltac:(lia)) as Ev. rewrite take_ge in Ev by lia.
  pose proof (take_bound N n Hw). pose proof (words_nth N n Hw) as Hd.
  rewrite Z.shiftr_div_pow2 in Ht by lia. pose proof (Z.div_mod (BN_DIGIT N n) (2 ^ 31) ltac:(lia)).
  pose proof (Z.mod_pos_bound (BN_DIGIT N n) (2 ^ 31) ltac:(lia)).
  rewrite pw_S. pose proof (pw_pos n).
  assert (2 ^ 32 * pw n <= 2 * val N) as Hle by nia.
  assert (val N <> 2 ^ 31 * pw n) as Hne.
  { intros E. rewrite E, Z.odd_mul in Hodd. by cbn in Hodd. }
  lia.
Qed.

(** C40. The exponentiation without the accelerator: for an odd modulus whose top bit is set it
    computes the power modulo [N], for every exponent and every input of the size of the modulus,
    reduced or not; the check of [bn_compute_RR] that sets a fatal error never fires. *)
Theorem bn_modexp_internal_spec n output input exp N (s : fips) :
  bignum (S n) output -> bignum (S n) input -> words exp -> bignum (S n) N ->
  Z.odd (val N) = true -> bn_check_topbit N = 1 ->
  exists r, bn_modexp_internal output input exp N s = (r, s)
    /\ bignum (S n) r /\ val r = val input ^ val exp mod val N.
Proof.
  intros Ho Hi He HN Hodd Htop. pose proof (topbit_bound n N HN Hodd Htop) as Hbig.
  destruct (bn_compute_RR_spec n N s HN Hodd Hbig) as (RR & ERR & HRR & Hdiv).
  unfold bn_modexp_internal. assert (length N = S n) as HlN by (by destruct HN).
  rewrite HlN. rewrite (bind_run _ _ s RR s ERR).
  set (np := bn_compute_nprime (BN_DIGIT N 0)).
  assert ((val N * np + 1) mod 2 ^ 32 = 0) as Hnp.
  { destruct N as [|m N]; [done|]. unfold np, BN_DIGIT. cbn [nth]. rewrite val_cons in *.
    assert (Z.odd m = true) as Hm.
    { rewrite Z.odd_add, Z.odd_mul in Hodd. change (Z.odd (2 ^ 32)) with false in Hodd.
      cbn [andb] in Hodd. by rewrite xorb_false_r in Hodd. }
    pose proof (bn_compute_nprime_spec m Hm) as Hd. set (p := bn_compute_nprime m) in *.
    replace ((m + 2 ^ 32 * val N) * p + 1) with (m * p + 1 + val N * p * 2 ^ 32) by ring.
    rewrite Z.mod_add by lia. done. }
  assert (in_form (S n) N (bn_mont_mul (zeros (S n)) None RR np N) 1) as Hacc.
  { apply (form_of_RR n N RR (zeros (S n)) None _ 1 np); try done. apply length_zeros. }
  assert (in_form (S n) N (bn_mont_mul (zeros (S n)) (Some input) RR np N) (val input)) as HaR.
  { apply (form_of_RR n N RR (zeros (S n)) (Some input) _ (val input) np); try done; [apply length_zeros|].
    cbn. rewrite take_ge; [done|]. destruct Hi; lia. }
  pose proof (bn_exp_loop_spec n exp _ _ np N (length exp * 32) output
    (bn_mont_mul (zeros (S n)) None RR np N) false Hodd HN Hnp He HaR (proj1 Ho)) as Hloop.
  rewrite pw_bits, Z.div_small in Hloop by (by apply val_bound). specialize (Hloop Hacc).
  destruct (bn_exp_loop _ _ _ _ _ _ _ _) as [[out acc] swapped]. destruct Hloop as [Hlo Hf].
  destruct (mont_one_spec n out acc _ np N Hodd HN Hnp Hlo Hf) as (Hres & Hd & Hle).
  set (c := bn_mont_mul out None acc np N) in *.
  assert ((if swapped : bool then splice 0 c acc else c) = c) as ->.
  { destruct swapped; [|done]. unfold splice. destruct Hf as [[Hla _] _], Hres as [Hlc _].
    rewrite take_0, drop_ge, app_nil_r by lia. done. }
  pose proof (final_reduce n N c _ HN Hres ltac:(pose proof (pw_pos (S n)); lia) Hle Hd) as Hfin.
  destruct (bn_sub c N) as [d bor]. rewrite HlN in Hfin. eexists. split; [done|exact Hfin].
Qed.

End Fips.

Lemma bn_modexp_internal_spec_witness :
  exists r, bn_modexp_internal (H := list_trng) [0; 0] [3; 7] [65537] [5; 0x80000001] (reset_fips [])
      = (r, reset_fips [])
    /\ bignum 2 r /\ val r = val [3; 7] ^ val [65537] mod val [5; 0x80000001].
Proof.
  apply (bn_modexp_internal_spec 1 [0; 0] [3; 7] [65537] [5; 0x80000001]);
    try (split; [done|]); try reflexivity; repeat constructor; done.
Defined.
