(* ===== verification/BnDiv.v ===== *)
(** * The division of [LITE_BIGNUM]: 64 by 32 bits, and Knuth's algorithm D *)

From S2P Require Import Prelude Hash HmacSpec ShaHw ShaHwPaths Drbg FipsRand FipsHealth P256 P256Props Bn BnArith.

(** ** 64 bits by 32 *)

Lemma u32_sub x : 2 ^ 32 <= x < 2 ^ 33 -> u32 x = x - 2 ^ 32.
Proof. intros. unfold u32, uN. symmetry. apply (Z.mod_unique_pos _ _ 1); lia. Qed.

Lemma u32_mod x y : (exists k, x = y + k * 2 ^ 32) -> 0 <= y < 2 ^ 32 -> u32 x = y.
Proof. intros [k ->] Hy. unfold u32, uN. rewrite Z.mod_add, Z.mod_small by lia. done. Qed.

Lemma lor_low a b n : 0 <= n -> 0 <= b < 2 ^ n -> Z.lor (Z.shiftl a n) b = a * 2 ^ n + b.
Proof. intros. rewrite Z.shiftl_mul_pow2 by lia. by apply lor_add. Qed.

Lemma hi_lo_16 d : 0 <= d < 2 ^ 32 ->
  d = hi16 d * 2 ^ 16 + lo16 d /\ 0 <= lo16 d < 2 ^ 16 /\ 0 <= hi16 d < 2 ^ 16.
Proof.
  intros Hd. unfold hi16, lo16. change 0xffff with (Z.ones 16). rewrite Z.land_ones, Z.shiftr_div_pow2 by lia.
  pose proof (Z.div_mod d (2 ^ 16) ltac:(lia)). pose proof (Z.mod_pos_bound d (2 ^ 16) ltac:(lia)).
  split; [lia|]. split; [lia|]. split; [apply Z.div_pos; lia|apply Z.div_lt_upper_bound; lia].
Qed.

(** Half a step: at most two corrections of the estimate. *)
Lemma udiv_half_spec r d h :
  2 ^ 31 <= d < 2 ^ 32 -> 0 <= r < d -> 0 <= h < 2 ^ 16 ->
  exists q r', udiv_half r d h = (q, r') /\ r * 2 ^ 16 + h = q * d + r' /\ 0 <= r' < d
    /\ 0 <= q < 2 ^ 16.
Proof.
  intros Hd Hr Hh. destruct (hi_lo_16 d ltac:(lia)) as (Ed & Hd0 & Hd1). unfold udiv_half.
  set (d1 := hi16 d) in *. set (d0 := lo16 d) in *.
  assert (2 ^ 15 <= d1) as Hd1' by nia.
  pose proof (Z.div_mod r d1 ltac:(lia)) as Er. pose proof (Z.mod_pos_bound r d1 ltac:(lia)) as Hrm.
  set (q := r / d1) in *. set (r0 := r mod d1) in *.
  assert (0 <= q <= 2 ^ 16 + 1) as Hq.
  { split; [apply Z.div_pos; lia|]. apply Z.lt_succ_r, Z.div_lt_upper_bound; nia. }
  rewrite (u32_id (q * d1)) by nia. rewrite (u32_id (r - q * d1)) by nia.
  replace (r - q * d1) with r0 by lia.
  assert (u32 (Z.shiftl r0 16) = Z.shiftl r0 16) as ->.
  { apply u32_id. rewrite Z.shiftl_mul_pow2 by lia. lia. }
  rewrite lor_low by lia. assert (0 <= q * d0 < 2 ^ 32) as Hm by nia. rewrite (u32_id (q * d0)) by done.
  set (r1 := r0 * 2 ^ 16 + h). set (m := q * d0) in *.
  assert (0 <= r1 < d) as Hr1 by (unfold r1; nia).
  assert (r * 2 ^ 16 + h = q * d + (r1 - m)) as E by (unfold r1, m; rewrite Ed at 1; nia).
  assert (forall q' r', r * 2 ^ 16 + h = q' * d + r' -> 0 <= r' < d -> 0 <= q' < 2 ^ 16) as Hbound by nia.
  destruct (Z.ltb_spec r1 m) as [Hlt|Hge].
  - assert (1 <= q) by (unfold m in *; nia). rewrite (u32_id (q - 1)) by lia.
    destruct (decide (r1 + d < 2 ^ 32)) as [Hs|Hs].
    + rewrite (u32_id (r1 + d)) by lia. rewrite (proj2 (Z.leb_le _ _)) by lia.
      destruct (Z.ltb_spec (r1 + d) m) as [Hlt2|Hge2]; cbn [andb].
      * assert (2 <= q) by (unfold m in *; nia). rewrite (u32_id (q - 1 - 1)) by lia.
        exists (q - 1 - 1), (r1 + d + d - m). split.
        { f_equal. pose proof (split32 (r1 + d + d)).
          apply u32_mod; [exists (- Z.shiftr (r1 + d + d) 32); lia|lia]. }
        split; [lia|]. split; [lia|]. apply (Hbound _ (r1 + d + d - m)); lia.
      * exists (q - 1), (r1 + d - m). rewrite u32_id by lia. split; [done|]. split; [lia|]. split; [lia|].
        apply (Hbound _ (r1 + d - m)); lia.
    + rewrite (u32_sub (r1 + d)) by lia. rewrite (proj2 (Z.leb_gt _ _)) by lia. cbn [andb].
      exists (q - 1), (r1 + d - m). split.
      { f_equal. apply u32_mod; [exists (-1); lia|lia]. }
      split; [lia|]. split; [lia|]. apply (Hbound _ (r1 + d - m)); lia.
  - exists q, (r1 - m). rewrite u32_id by lia. split; [done|]. split; [lia|]. split; [lia|].
    eapply Hbound; [exact E|lia].
Qed.

Lemma udiv_qrnnd_spec n1 n0 d :
  2 ^ 31 <= d < 2 ^ 32 -> 0 <= n1 < d -> 0 <= n0 < 2 ^ 32 ->
  exists q r, udiv_qrnnd n1 n0 d = (q, r) /\ n1 * 2 ^ 32 + n0 = q * d + r /\ 0 <= r < d
    /\ 0 <= q < 2 ^ 32.
Proof.
  intros Hd H1 H0. destruct (hi_lo_16 n0 H0) as (E0 & Hlo & Hhi). unfold udiv_qrnnd.
  destruct (udiv_half_spec n1 d (hi16 n0) Hd H1 Hhi) as (q1 & r1 & -> & E1 & Hr1 & Hq1).
  destruct (udiv_half_spec r1 d (lo16 n0) Hd Hr1 Hlo) as (q0 & r0 & -> & E2 & Hr0 & Hq0).
  exists (q1 * 2 ^ 16 + q0), r0. split; [|split; [nia|split; [done|nia]]].
  rewrite u32_id by (rewrite Z.shiftl_mul_pow2 by lia; lia). by rewrite lor_low by lia.
Qed.

Lemma clz_spec d : 0 < d < 2 ^ 32 ->
  let bm := count_leading_zeros d in 0 <= bm <= 31 /\ 2 ^ 31 <= d * 2 ^ bm < 2 ^ 32.
Proof.
  intros Hd. unfold count_leading_zeros. rewrite nz_pos by lia.
  pose proof (Z.log2_spec d ltac:(lia)) as [H1 H2]. pose proof (Z.log2_nonneg d).
  assert (Z.log2 d < 32) by (apply Z.log2_lt_pow2; lia). split; [lia|].
  set (l := Z.log2 d) in *. replace (2 ^ 31) with (2 ^ l * 2 ^ (31 - l)) by (rewrite <- Z.pow_add_r by lia; f_equal; lia).
  replace (2 ^ 32) with (2 ^ Z.succ l * 2 ^ (31 - l)) by (rewrite <- Z.pow_add_r by lia; f_equal; lia).
  pose proof (Z.pow_pos_nonneg 2 (31 - l) ltac:(lia) ltac:(lia)). nia.
Qed.

(** A digit shifted up: what leaves it and what stays. *)
Lemma shift_word x s : 0 <= x < 2 ^ 32 -> 0 <= s <= 31 ->
  x * 2 ^ s = Z.shiftr x (32 - s) * 2 ^ 32 + u32 (Z.shiftl x s)
  /\ 0 <= Z.shiftr x (32 - s) < 2 ^ s /\ exists k, u32 (Z.shiftl x s) = k * 2 ^ s.
Proof.
  intros Hx Hs. rewrite Z.shiftr_div_pow2, Z.shiftl_mul_pow2 by lia. unfold u32, uN.
  replace (2 ^ 32) with (2 ^ (32 - s) * 2 ^ s) in * by (rewrite <- Z.pow_add_r by lia; f_equal; lia).
  pose proof (Z.pow_pos_nonneg 2 s ltac:(lia) ltac:(lia)).
  pose proof (Z.pow_pos_nonneg 2 (32 - s) ltac:(lia) ltac:(lia)).
  rewrite Z.mul_mod_distr_r by lia. pose proof (Z.div_mod x (2 ^ (32 - s)) ltac:(lia)).
  split; [nia|]. split; [|by eexists]. split; [apply Z.div_pos; lia|apply Z.div_lt_upper_bound; lia].
Qed.

Lemma lor_shift k x s : 0 <= s -> 0 <= x < 2 ^ s -> Z.lor (k * 2 ^ s) x = k * 2 ^ s + x.
Proof. apply lor_add. Qed.

(** The bits that come in from below find room. *)
Lemma word_room k s h : 0 <= s <= 31 -> 0 <= k * 2 ^ s < 2 ^ 32 -> 0 <= h < 2 ^ s -> 0 <= k * 2 ^ s + h < 2 ^ 32.
Proof.
  intros Hs Hk Hh. replace (2 ^ 32) with (2 ^ (32 - s) * 2 ^ s) in * by (rewrite <- Z.pow_add_r by lia; f_equal; lia).
  set (P := 2 ^ s) in *. set (M := 2 ^ (32 - s)) in *. assert (0 <= k < M) by nia. nia.
Qed.

Lemma make64_spec hi lo : 0 <= lo < 2 ^ 32 -> make64 hi lo = hi * 2 ^ 32 + lo.
Proof. intros. unfold make64. by rewrite lor_low by lia. Qed.

Lemma udiv32_spec n d : 0 <= n < 2 ^ 64 -> 0 < d < 2 ^ 32 -> udiv32 n d = n / d.
Proof.
  intros Hn Hd. unfold udiv32. pose proof (split32 n) as En. pose proof (u32_range n) as H0.
  assert (0 <= Z.shiftr n 32 < 2 ^ 32) as H1 by (pose proof (splits_shiftr n 0 (2 ^ 32 - 1) 32); lia).
  rewrite (u32_id (Z.shiftr n 32)) by done. set (n0 := u32 n) in *. set (n1 := Z.shiftr n 32) in *.
  rewrite (proj2 (Z.eqb_neq d 0)) by lia. cbn [orb]. destruct (Z.eqb_spec n1 0) as [E|Hne].
  { f_equal. lia. }
  destruct (clz_spec d Hd) as [Hbm Hdn]. set (bm := count_leading_zeros d) in *.
  rewrite (u32_id (Z.shiftl d bm)) by (rewrite Z.shiftl_mul_pow2 by lia; lia).
  rewrite (Z.shiftl_mul_pow2 d) by lia.
  destruct (shift_word n1 bm H1 Hbm) as (E1 & Hh1 & k1 & Ek1).
  destruct (shift_word n0 bm H0 Hbm) as (E0 & Hh0 & _).
  set (h1 := Z.shiftr n1 (32 - bm)) in *. set (h0 := Z.shiftr n0 (32 - bm)) in *.
  pose proof (u32_range (Z.shiftl n0 bm)) as Hs0. set (s0 := u32 (Z.shiftl n0 bm)) in *.
  pose proof (Z.pow_pos_nonneg 2 bm ltac:(lia) ltac:(lia)) as Hp.
  assert ((if nz bm then Z.lor (u32 (Z.shiftl n1 bm)) h0 else n1) = n1 * 2 ^ bm - h1 * 2 ^ 32 + h0) as ->.
  { destruct (nz bm) eqn:Hz.
    - rewrite Ek1, lor_shift by lia. lia.
    - apply nz_false in Hz. rewrite Hz in *. lia. }
  set (s1 := n1 * 2 ^ bm - h1 * 2 ^ 32 + h0) in *.
  assert (0 <= s1 < 2 ^ 32) as Hs1.
  { unfold s1. replace (n1 * 2 ^ bm - h1 * 2 ^ 32) with (k1 * 2 ^ bm) by lia.
    apply word_room; [lia| |done]. rewrite <- Ek1. apply u32_range. }
  assert (n * 2 ^ bm = h1 * 2 ^ 64 + s1 * 2 ^ 32 + s0) as Etot by (unfold s1; nia).
  assert (exists q1 r1, (if n1 <? d then (0, s1) else if bm =? 0 then (1, u32 (n1 - d))
            else udiv_qrnnd h1 s1 (d * 2 ^ bm)) = (q1, r1)
          /\ h1 * 2 ^ 32 + s1 = q1 * (d * 2 ^ bm) + r1 /\ 0 <= r1 < d * 2 ^ bm /\ 0 <= q1)
    as (q1 & r1 & -> & Eq1 & Hr1 & Hq1).
  { destruct (Z.ltb_spec n1 d) as [Hlt|Hge].
    - assert (h1 = 0) as Eh by (unfold s1 in *; nia). exists 0, s1. split; [done|].
      unfold s1 in *. rewrite Eh in *. split; [lia|]. split; [nia|lia].
    - destruct (Z.eqb_spec bm 0) as [Eb|].
      + unfold s1 in *. rewrite Eb in *. assert (h1 = 0 /\ h0 = 0) as [Eh1 Eh0] by lia.
        exists 1, (n1 - d). rewrite u32_id by lia. split; [done|]. rewrite Eh1, Eh0. lia.
      + assert (h1 < 2 ^ 31).
        { assert (2 ^ bm <= 2 ^ 31) by (apply Z.pow_le_mono_r; lia). lia. }
        destruct (udiv_qrnnd_spec h1 s1 (d * 2 ^ bm)) as (q & r & -> & E & Hr & Hq); [lia|lia|lia|].
        exists q, r. split; [done|]. split; [lia|]. lia. }
  destruct (udiv_qrnnd_spec r1 s0 (d * 2 ^ bm)) as (q0 & r0 & -> & Eq0 & Hr0 & Hq0); [lia|lia|lia|].
  cbn [fst]. rewrite make64_spec by lia.
  rewrite <- (Z.div_mul_cancel_r n d (2 ^ bm)) by lia.
  apply (Z.div_unique_pos _ _ _ r0); [lia|]. nia.
Qed.

(** ** By a divisor of one digit *)

Lemma bn_div_word_loop_spec u div m : forall rem,
  words u -> 0 < div < 2 ^ 32 -> 0 <= rem < div -> (m <= length u)%nat ->
  exists q rem', bn_div_word_loop u div m rem = (q, rem') /\ length q = m /\ words q
    /\ 0 <= rem' < div /\ val q * div + rem' = rem * pw m + val (take m u).
Proof.
  induction m as [|i IH]; intros rem Hu Hd Hr Hm; cbn [bn_div_word_loop].
  { exists [], rem. rewrite take_0, val_nil, pw_0. repeat split; try lia. constructor. }
  pose proof (words_nth u i Hu) as Hx. rewrite Z.shiftl_mul_pow2 by lia.
  rewrite u64_id by lia. set (t := rem * 2 ^ 32 + BN_DIGIT u i). assert (0 <= t < div * 2 ^ 32) as Ht by (unfold t; nia).
  rewrite udiv32_spec by lia. pose proof (Z.div_mod t div ltac:(lia)) as Et.
  pose proof (Z.mod_pos_bound t div ltac:(lia)) as Hmod.
  assert (0 <= t / div < 2 ^ 32) as Hq.
  { split; [apply Z.div_pos; lia|apply Z.div_lt_upper_bound; lia]. }
  rewrite (u32_id (t / div)), u64_id by nia. rewrite u32_id by lia.
  replace (t - t / div * div) with (t mod div) by lia.
  destruct (IH (t mod div) Hu Hd Hmod ltac:(lia)) as (q & rem' & -> & Hl & Hw & Hr' & E).
  exists (q ++ [t / div]), rem'. split; [done|]. rewrite length_app. cbn [length]. split; [lia|].
  split; [by apply words_snoc|]. split; [done|].
  rewrite val_app, val_cons, val_nil, Hl, val_take_S, pw_S by lia. unfold t in *. nia.
Qed.

(** ** Normalization *)

Lemma bn_shl_spec s ds : forall carry,
  0 <= s <= 31 -> words ds -> 0 <= carry < 2 ^ s ->
  words (bn_shl s ds carry) /\ length (bn_shl s ds carry) = length ds
  /\ val (bn_shl s ds carry) + pw (length ds)
       * (if (length ds =? 0)%nat then carry else Z.shiftr (BN_DIGIT ds (length ds - 1)) (32 - s))
     = 2 ^ s * val ds + carry.
Proof.
  induction ds as [|x ds IH]; intros carry Hs Hw Hc; cbn [bn_shl].
  { cbn [length]. rewrite val_nil, pw_0. repeat split; [constructor|]. cbn. lia. }
  apply words_cons in Hw as [Hx Hw]. destruct (shift_word x s Hx Hs) as (E & Hh & k & Ek).
  destruct (IH (Z.shiftr x (32 - s)) Hs Hw Hh) as (Hw' & Hl' & Hv').
  pose proof (u32_range (Z.shiftl x s)) as Hu. rewrite Ek in *. rewrite lor_shift by lia.
  pose proof (word_room k s carry Hs Hu Hc) as Hroom.
  split; [by apply words_cons|]. split; [cbn [length]; lia|]. rewrite !val_cons. cbn [length Nat.eqb].
  rewrite pw_S. replace (S (length ds) - 1)%nat with (length ds) by lia.
  unfold BN_DIGIT in *. destruct ds as [|y ds]; cbn [length Nat.eqb] in *.
  - cbn [bn_shl nth] in *. rewrite val_nil, pw_0 in *. lia.
  - replace (S (length ds) - 1)%nat with (length ds) in Hv' by lia.
    change (nth (S (length ds)) (x :: y :: ds) 0) with (nth (length ds) (y :: ds) 0). lia.
Qed.

Lemma bn_shr_spec s ds : 0 < s <= 31 -> words ds ->
  words (bn_shr s ds) /\ length (bn_shr s ds) = length ds /\ val (bn_shr s ds) = val ds / 2 ^ s.
Proof.
  intros Hs. induction ds as [|x ds IH]; intros Hw; [done|].
  apply words_cons in Hw as [Hx Hw]. destruct ds as [|y ds].
  { cbn [bn_shr]. rewrite !val_cons, val_nil, Z.mul_0_r, !Z.add_0_r, Z.shiftr_div_pow2 by lia.
    split; [|done]. apply words_cons. split; [|constructor].
    pose proof (Z.pow_pos_nonneg 2 s ltac:(lia) ltac:(lia)).
    split; [apply Z.div_pos; lia|apply Z.div_lt_upper_bound; nia]. }
  destruct (IH Hw) as (Hw' & Hl' & Hv'). pose proof Hw as Hw2. apply words_cons in Hw2 as [Hy _].
  change (bn_shr s (x :: y :: ds)) with
    (Z.lor (Z.shiftr x s) (u32 (Z.shiftl y (32 - s))) :: bn_shr s (y :: ds)).
  destruct (shift_word y (32 - s) Hy ltac:(lia)) as (E & Hh & k & Ek).
  replace (32 - (32 - s)) with s in * by lia.
  pose proof (u32_range (Z.shiftl y (32 - s))) as Hu.
  assert (0 <= Z.shiftr x s < 2 ^ (32 - s)) as Hxs.
  { pose proof (shift_word x (32 - s) Hx ltac:(lia)) as (_ & Hr & _). by replace (32 - (32 - s)) with s in Hr by lia. }
  rewrite Ek in *. rewrite Z.lor_comm, lor_shift by lia.
  pose proof (word_room k (32 - s) _ ltac:(lia) Hu Hxs) as Hroom.
  split; [by apply words_cons|]. split; [cbn [length] in *; lia|].
  rewrite val_cons, Hv', (val_cons x). set (D := val (y :: ds)) in *.
  pose proof (Z.pow_pos_nonneg 2 s ltac:(lia) ltac:(lia)) as Hp.
  assert (2 ^ 32 = 2 ^ (32 - s) * 2 ^ s) as Ep by (rewrite <- Z.pow_add_r by lia; f_equal; lia).
  assert (D mod 2 ^ s * 2 ^ (32 - s) = k * 2 ^ (32 - s)) as Ed.
  { assert (D = Z.shiftr y s * 2 ^ s + y mod 2 ^ s + 2 ^ 32 * val ds) as Ey.
    { unfold D. rewrite val_cons, Z.shiftr_div_pow2 by lia. pose proof (Z.div_mod y (2 ^ s) ltac:(lia)). lia. }
    assert (D mod 2 ^ s = y mod 2 ^ s) as ->.
    { rewrite Ey, Ep. replace (Z.shiftr y s * 2 ^ s + y mod 2 ^ s + 2 ^ (32 - s) * 2 ^ s * val ds)
        with (y mod 2 ^ s + (Z.shiftr y s + 2 ^ (32 - s) * val ds) * 2 ^ s) by ring.
      rewrite Z.mod_add, Z.mod_mod by lia. done. }
    rewrite Z.shiftr_div_pow2 in E by lia. pose proof (Z.div_mod y (2 ^ s) ltac:(lia)). nia. }
  pose proof (Z.div_mod D (2 ^ s) ltac:(lia)) as HD. rewrite Z.shiftr_div_pow2 by lia.
  symmetry. pose proof (Z.div_mod x (2 ^ s) ltac:(lia)). pose proof (Z.mod_pos_bound x (2 ^ s) ltac:(lia)).
  symmetry. apply (Z.div_unique_pos _ _ _ (x mod 2 ^ s)); [lia|]. nia.
Qed.

(** ** The estimate of a digit of the quotient

    [W] is what is left, of which the digits [w0], [w1] and [w2] are the top ones; [V] is the
    divisor with the top digits [v1] and [v2]; [P] is the weight of the digits below. *)

Section Estimate.
Variables (P w0 w1 w2 wl v1 v2 vl : Z).
Let B := 2 ^ 32.
Let W := ((w0 * B + w1) * B + w2) * P + wl.
Let V := (v1 * B + v2) * P + vl.
Hypothesis HP : 0 < P.
Hypothesis Hw0 : 0 <= w0 < B.
Hypothesis Hw1 : 0 <= w1 < B.
Hypothesis Hw2 : 0 <= w2 < B.
Hypothesis Hwl : 0 <= wl < P.
Hypothesis Hv1 : 2 ^ 31 <= v1 < B.
Hypothesis Hv2 : 0 <= v2 < B.
Hypothesis Hvl : 0 <= vl < P.

(** The quotient or one more. *)
Definition estimates (q : Z) : Prop := 0 <= q < B /\ q * V <= W + V /\ W < (q + 1) * V.

Hypothesis HW : W < B * V.

Let V_pos : 0 < V.
Proof. unfold V. nia. Qed.

Lemma top_le : w0 <= v1.
Proof. unfold W, V, B in *. nia. Qed.

Lemma estimate_max : w0 = v1 -> estimates 0xFFFFFFFF.
Proof.
  intros E. unfold estimates. change (0xFFFFFFFF) with (B - 1). split; [unfold B; lia|].
  split; [|unfold B in *; lia].
  assert ((B - 2) * (v1 * B + v2 + 1) <= v1 * B * B) by (unfold B in *; nia).
  assert (v1 * B * B * P <= W) by (unfold W; rewrite E; unfold B in *; nia).
  assert (V <= (v1 * B + v2 + 1) * P) by (unfold V; nia).
  assert ((B - 2) * V <= (B - 2) * ((v1 * B + v2 + 1) * P)) by (unfold B in *; nia).
  assert ((B - 2) * ((v1 * B + v2 + 1) * P) <= v1 * B * B * P) by nia. lia.
Qed.

(** [rhat] is what the estimate leaves of the top two digits; the estimate is right when the
    third digit agrees. *)
Lemma estimate_done q rhat :
  rhat = w0 * B + w1 - q * v1 -> 0 <= q < B -> W < (q + 1) * V -> q * v2 <= rhat * B + w2 ->
  estimates q.
Proof.
  intros Er Hq Hup Hle. split; [done|]. split; [|done].
  assert (q * (v1 * B + v2) <= (w0 * B + w1) * B + w2) by (unfold B in *; nia).
  unfold W, V. assert (q * vl <= v1 * B * P) by (unfold B in *; nia). nia.
Qed.

Lemma tune_spec fuel : forall q rhat,
  rhat = w0 * B + w1 - q * v1 -> 0 <= rhat < 2 * B -> 0 <= q < B -> W < (q + 1) * V ->
  2 * B <= rhat + 2 ^ 31 * Z.of_nat (S fuel) ->
  estimates (bn_tune fuel q rhat v1 v2 w2).
Proof.
  induction fuel as [|fuel IH]; intros q rhat Er Hr Hq Hup Hfuel; cbn [bn_tune].
  { change (Z.of_nat 1) with 1 in Hfuel. apply (estimate_done q rhat); try done. unfold B in *; nia. }
  assert (Z.shiftr rhat 32 = 0 <-> rhat < B) as Hs.
  { rewrite Z.shiftr_div_pow2 by lia. fold B. split; intros Hb.
    - apply Z.div_small_iff in Hb; unfold B in *; lia.
    - apply Z.div_small. unfold B in *; lia. }
  destruct (Z.eqb_spec (Z.shiftr rhat 32) 0) as [Hz|Hz]; cbn [andb].
  2:{ assert (B <= rhat) by (destruct (decide (rhat < B)); [exfalso; tauto|lia]).
      apply (estimate_done q rhat); try done. unfold B in *; nia. }
  apply Hs in Hz. rewrite Z.shiftl_mul_pow2 by lia. fold B.
  rewrite (u64_id (rhat * B)), (u64_id (q * v2)) by (unfold B in *; nia).
  destruct (Z.ltb_spec (rhat * B + w2) (q * v2)) as [Hlt|Hge].
  - assert (1 <= q) by (unfold B in *; nia).
    rewrite u32_id, u64_id by (unfold B in *; lia). apply IH; [lia|unfold B in *; lia|lia| |].
    + assert ((w0 * B + w1) * B + w2 + 1 <= q * (v1 * B + v2)) by (unfold B in *; nia).
      unfold W, V in *. nia.
    + rewrite (Nat2Z.inj_succ (S fuel)) in Hfuel. unfold B in *. lia.
  - by apply (estimate_done q rhat).
Qed.

Lemma estimate_tuned :
  w0 <> v1 ->
  let rhat := w0 * B + w1 in
  let qd := rhat / v1 in
  0 <= qd < B /\ estimates (bn_tune tune_fuel qd (rhat - qd * v1) v1 v2 w2).
Proof.
  intros Hne rhat qd. pose proof top_le as Hle.
  pose proof (Z.div_mod rhat v1 ltac:(lia)) as Ed. fold qd in Ed.
  pose proof (Z.mod_pos_bound rhat v1 ltac:(lia)) as Hm.
  assert (0 <= qd < B) as Hq.
  { unfold qd, rhat. split; [apply Z.div_pos; unfold B in *; nia|]. apply Z.div_lt_upper_bound; [lia|].
    unfold B in *; nia. }
  split; [done|]. apply tune_spec; [done|unfold B in *; lia|done| |unfold tune_fuel, B in *; lia].
  assert (rhat + 1 <= (qd + 1) * v1) by lia.
  unfold W, V, rhat, B in *. nia.
Qed.
End Estimate.

(** ** Multiply and subtract, and add back *)

Lemma bn_mulsub_spec vn qd : forall u k r k',
  words u -> words vn -> (length vn <= length u)%nat -> 0 <= qd < 2 ^ 32 -> 0 <= k < 2 ^ 32 ->
  bn_mulsub u vn qd k = (r, k') ->
  0 <= k' < 2 ^ 32 /\ splits r (- k') (length vn) (val (take (length vn) u) - qd * val vn - k).
Proof.
  induction vn as [|v vn IH]; intros u k r k' Hu Hv Hl Hq Hk E.
  { destruct u; cbn in E; simplify_eq; (split; [done|]); cbn [length]; rewrite take_0, val_nil;
      (replace (0 - qd * 0 - k') with (- k') by ring); apply splits_nil. }
  destruct u as [|x u]; cbn [length] in Hl; [lia|]. cbn [bn_mulsub] in E.
  apply words_cons in Hu as [Hx Hu], Hv as [Hv0 Hv].
  rewrite (u64_id (qd * v)) in E by nia.
  change 0xFFFFFFFF with (Z.ones 32) in E. rewrite Z.land_ones in E by lia.
  pose proof (split32 (qd * v)) as Ep. unfold u32, uN in Ep. fold (uN 32 (qd * v)) in Ep.
  change (qd * v mod 2 ^ 32) with (u32 (qd * v)) in *. pose proof (u32_range (qd * v)) as Hlo.
  assert (0 <= Z.shiftr (qd * v) 32 < 2 ^ 32) as Hhi by (pose proof (splits_shiftr (qd * v) 0 (2 ^ 32 - 1) 32); nia).
  rewrite (i64_id (x - k - u32 (qd * v))) in E by lia. set (t := x - k - u32 (qd * v)) in E.
  assert (- 2 ^ 33 <= t < 2 ^ 32) as Ht by (unfold t; lia).
  assert (-2 <= Z.shiftr t 32 <= 0) as Hst by (apply splits_shiftr; lia).
  rewrite i64_id in E by lia. set (k1 := Z.shiftr (qd * v) 32 - Z.shiftr t 32) in E.
  pose proof (split32 t) as Et. pose proof (u32_range t) as Hut.
  assert (0 <= k1 < 2 ^ 32) as Hk1.
  { unfold k1. split; [lia|]. assert (x - k - qd * v = u32 t - 2 ^ 32 * k1) by (unfold k1, t in *; lia).
    unfold k1 in *. nia. }
  assert (Z.shiftr t 32 = Z.shiftr (qd * v) 32 - k1) as Ek by (unfold k1; lia).
  assert (t = x - k - u32 (qd * v)) as Edt by done. clearbody t k1.
  destruct (bn_mulsub u vn qd k1) as [r0 k0] eqn:E0. injection E as <- <-.
  apply IH in E0 as [Hk0 Hs]; try done; [|lia]. split; [done|]. cbn [length take].
  eapply splits_cons; [exact Hs|]. rewrite !val_cons. lia.
Qed.

Lemma bn_addback_spec vn : forall u k r k',
  words u -> words vn -> (length vn <= length u)%nat -> 0 <= k <= 1 ->
  bn_addback u vn k = (r, k') ->
  0 <= k' <= 1 /\ splits r k' (length vn) (val (take (length vn) u) + val vn + k).
Proof.
  induction vn as [|v vn IH]; intros u k r k' Hu Hv Hl Hk E.
  { destruct u; cbn in E; simplify_eq; (split; [done|]); cbn [length]; rewrite take_0, val_nil;
      (replace (0 + 0 + k') with k' by ring); apply splits_nil. }
  destruct u as [|x u]; cbn [length] in Hl; [lia|]. cbn [bn_addback] in E.
  apply words_cons in Hu as [Hx Hu], Hv as [Hv0 Hv].
  rewrite u64_id, i64_id in E by lia.
  destruct (bn_addback u vn (Z.shiftr (x + v + k) 32)) as [r0 k0] eqn:E0. simplify_eq.
  apply IH in E0 as [Hk0 Hs]; try done; [|lia|apply splits_shiftr; lia].
  split; [done|]. cbn [length take]. eapply splits_cons; [exact Hs|]. rewrite !val_cons. lia.
Qed.

(** ** A step *)

(** The digits above the window are 0. *)
Lemma window_val n j un vn :
  words un -> words vn -> length vn = n -> (j + n < length un)%nat ->
  val (drop j un) < 2 ^ 32 * val vn ->
  val (drop j un) = val (take (S n) (drop j un)) /\ val (drop (j + S n) un) = 0.
Proof.
  intros Hu Hv Hl Hj Hlt. pose proof (val_bound vn Hv) as Bv. rewrite Hl in Bv.
  rewrite (val_take_drop (S n) (drop j un)) in * by (rewrite length_drop; lia).
  rewrite drop_drop in *. pose proof (take_bound (drop j un) (S n) ltac:(auto with bn)).
  pose proof (val_bound _ (words_drop (j + S n) un Hu)). rewrite pw_S in *. pose proof (pw_pos n).
  assert (val (drop (j + S n) un) = 0) by nia. lia.
Qed.

Lemma digit_drop un j i : BN_DIGIT (drop j un) i = BN_DIGIT un (j + i).
Proof. unfold BN_DIGIT. by rewrite !nth_lookup, lookup_drop. Qed.

(** The digits of a window replaced. *)
Lemma splice_window j (new un : list Z) :
  (j + length new <= length un)%nat ->
  take j (splice j new un) = take j un /\ length (splice j new un) = length un
  /\ drop j (splice j new un) = new ++ drop (j + length new) un.
Proof.
  intros Hj. unfold splice. assert (length (take j un) = j) as Hl by (rewrite length_take; lia).
  split; [|split].
  - rewrite take_app_le, take_take by lia. f_equal. lia.
  - rewrite !length_app, length_take, length_drop. lia.
  - by rewrite drop_app_le, drop_ge by lia.
Qed.

Lemma bn_estimate_spec n j un vn :
  words un -> words vn -> length vn = S (S n) -> (j + S (S n) < length un)%nat ->
  2 ^ 31 <= BN_DIGIT vn (S n) -> val (drop j un) < 2 ^ 32 * val vn ->
  let qd := bn_estimate un vn (S (S n)) j in
  0 <= qd < 2 ^ 32 /\ qd * val vn <= val (drop j un) + val vn /\ val (drop j un) < (qd + 1) * val vn.
Proof.
  intros Hu Hv Hl Hj Htop Hlt.
  destruct (window_val _ j un vn Hu Hv Hl Hj Hlt) as [EW _]. rewrite EW in *.
  assert (length (drop j un) = length un - j)%nat as Hld by apply length_drop.
  set (w := drop j un) in *. assert (words w) as Hw by (apply words_drop; done).
  rewrite (val_take_S w), (val_take_S w), (val_take_S w) in * by lia. rewrite !pw_S in *.
  assert (val vn = val (take n vn) + pw n * BN_DIGIT vn n + 2 ^ 32 * pw n * BN_DIGIT vn (S n)) as EV.
  { rewrite <- (take_ge vn (S (S n))) at 1 by lia. rewrite !val_take_S by lia. rewrite pw_S. lia. }
  unfold bn_estimate. rewrite <- !digit_drop. fold w.
  replace (j + S (S n) - 1)%nat with (j + S n)%nat by lia. replace (S (S n) - 1)%nat with (S n) by lia.
  replace (j + S (S n) - 2)%nat with (j + n)%nat by lia. replace (S (S n) - 2)%nat with n by lia.
  rewrite <- !digit_drop. fold w.
  pose proof (words_nth w (S (S n)) Hw) as Hw0. pose proof (words_nth w (S n) Hw) as Hw1.
  pose proof (words_nth w n Hw) as Hw2. pose proof (take_bound w n Hw) as Hwl.
  pose proof (words_nth vn (S n) Hv) as Hv1. pose proof (words_nth vn n Hv) as Hv2.
  pose proof (take_bound vn n Hv) as Hvl. pose proof (pw_pos n) as HP.
  set (w0 := BN_DIGIT w (S (S n))) in *. set (w1 := BN_DIGIT w (S n)) in *. set (w2 := BN_DIGIT w n) in *.
  set (v1 := BN_DIGIT vn (S n)) in *. set (v2 := BN_DIGIT vn n) in *.
  set (wl := val (take n w)) in *. set (vl := val (take n vn)) in *. set (P := pw n) in *.
  assert (estimates P w0 w1 w2 wl v1 v2 vl
    (if w0 =? v1 then 0xFFFFFFFF
     else bn_tune tune_fuel (u32 (udiv32 (u64 (Z.shiftl w0 32 + w1)) v1))
            (u64 (u64 (Z.shiftl w0 32 + w1) - u64 (u32 (udiv32 (u64 (Z.shiftl w0 32 + w1)) v1) * v1))) v1 v2 w2))
    as (Hq & Hlo & Hup).
  { assert (((w0 * 2 ^ 32 + w1) * 2 ^ 32 + w2) * P + wl < 2 ^ 32 * ((v1 * 2 ^ 32 + v2) * P + vl)) as HW by lia.
    destruct (Z.eqb_spec w0 v1) as [E|Hne].
    - apply estimate_max; try done; lia.
    - destruct (estimate_tuned P w0 w1 w2 wl v1 v2 vl HP Hw0 Hw1 Hw2 Hwl ltac:(lia) Hv2 Hvl HW Hne) as [Hq Hest].
      rewrite Z.shiftl_mul_pow2, (u64_id (w0 * 2 ^ 32 + w1)), udiv32_spec, u32_id by lia.
      pose proof (Z.div_mod (w0 * 2 ^ 32 + w1) v1 ltac:(lia)).
      pose proof (Z.mod_pos_bound (w0 * 2 ^ 32 + w1) v1 ltac:(lia)).
      rewrite (u64_id (_ * v1)), u64_id by lia. exact Hest. }
  split; [done|]. split; lia.
Qed.
